(* ===== verification/_CoqProject ===== *)
-Q . S2P
Prelude.v
Wire.v
MsgTx.v
ScriptError.v
ScriptNum.v
Stack.v
Opcode.v
Tokenizer.v
Standard.v
Crypto.v
Taproot.v
SigCache.v
SigHash.v
ChainParams.v
MsgBlock.v
BlockCache.v
Engine.v
EngineSafety.v
EngineExec.v
EngineSpend.v
EngineOps.v
EngineCond.v
Work.v
BlockIndex.v
Difficulty.v
Subsidy.v
RuleError.v
Compress.v
TxRules.v
Merkle.v
UtxoView.v
Ledger.v
ConnectBlock.v
ConnectSpec.v
UtxoStore.v
SizeHelper.v
UtxoCache.v
UtxoCacheSpec.v
ChainView.v
Disconnect.v
ChainIO.v
ChainState.v
Reorg.v
Replay.v
ConnectTotal.v
ChainSpec.v
BlockRules.v
RulesTotal.v
Orphans.v
Checkpoints.v
ChainFrame.v
ChainTotal.v
Process.v
ProcessSpec.v
ProcessTotal.v
Start.v
Recover.v
StartSpec.v
Running.v
