(* ===== verification/Prelude.v ===== *)
(** * Verification of the Pearl node

    Pearl is a blockchain node derived from btcd: src/node is the full node,
    src/wallet and src/spv its clients, src/zk-pow the proof-of-work verifier
    it calls.  This development models the consensus core of the node -- what
    decides which transactions and blocks are valid, and what the node keeps of
    the chain -- as functions one can evaluate, and proves them correct.

    ** The program and its model

    A block arrives as bytes (wire), is checked by itself, is connected to its
    parent in the block index, and is then connected to the chain: its
    transactions are checked against the unspent outputs and their scripts are
    executed (txscript).  If the block is on another branch with more work, the
    chain is reorganized: blocks are disconnected by their spend journals and
    the others connected.  The unspent outputs are in a cache over a database
    bucket.  The files below are in the order of their dependencies.

    - This file: machine integers, bytes, slices that panic, the error monad
      [result] with its panics and the state monad [ST], lemmas on them.
    - Wire.v, MsgTx.v, MsgBlock.v (node/wire/common.go, msgtx.go, blockheader.go,
      certificate*.go, msgheaders.go, msgblock.go): what is on the wire and on
      disk.  A reader is a state transformer on the bytes that are left.
      BlockCache.v (node/btcutil/block.go, tx.go): blocks and transactions with
      their cached hashes and encodings.
    - Crypto.v (node/chaincfg/chainhash): hash functions, keys and XMSS as
      classes, [HashFns] and [Keys], with the laws the code relies on.
    - ScriptError.v, ScriptNum.v, Stack.v, Opcode.v, Tokenizer.v, Standard.v,
      Taproot.v, SigCache.v, SigHash.v (node/txscript): the parts of the script
      package, one Go file or two each.
    - Engine.v (node/txscript/engine.go, opcode.go): the virtual machine, a
      definition per handler; EngineSafety.v, EngineExec.v, EngineSpend.v,
      EngineOps.v and EngineCond.v are its theorems: safety of the handlers,
      of whole executions, spends of witness programs, what the opcodes
      compute, conditionals.
    - Work.v, ChainParams.v, BlockIndex.v, Difficulty.v, Subsidy.v, RuleError.v
      (node/blockchain/internal/workmath, node/chaincfg/params.go,
      node/blockchain/blockindex.go, difficulty.go, validate.go, error.go):
      targets, the rules of the networks, nodes of the block tree, retargeting.
    - Compress.v, TxRules.v, Merkle.v (node/blockchain/compress.go, validate.go,
      vsize.go, merkle.go, rolling_merkle.go): storage of outputs, checks of a
      transaction by itself, Merkle roots.
    - UtxoView.v (utxoviewpoint.go): the outputs around a block.  Ledger.v is
      the specification of that and of all that follows: the coins as a finite
      map, and what a transaction and a block do to it.
    - ConnectBlock.v, ConnectSpec.v (validate.go, scriptval.go, chain.go): the
      checks a block must pass to be connected, against the interface
      [UtxoSource] that the cache implements.
    - UtxoStore.v, SizeHelper.v, UtxoCache.v, UtxoCacheSpec.v (chainio.go,
      sizehelper.go, utxocache.go): the coins in the database and the cache.
    - ChainView.v, Disconnect.v, ChainIO.v, ChainState.v (chainview.go, chain.go,
      chainio.go, blockindex.go): the active chain, disconnecting a block, the
      indexes of the database, and [State], the whole state of the chain with
      the operations that move its tip.
    - Reorg.v, Replay.v, ChainSpec.v: the blocks a reorganization moves, the
      coins of a branch, and that [connectBestChain] keeps them.
      ConnectTotal.v, ChainTotal.v: that checking a block and moving the tip end
      in an answer.
    - BlockRules.v (validate.go, vsize.go, zkpow/verify.go): the checks of blocks,
      headers and certificates, by themselves and in context, against the
      interface [ChainCtx].  RulesTotal.v: they pass or name a broken rule.
    - Orphans.v, Checkpoints.v (chain.go, checkpoints.go): the pool of orphans,
      the checkpoints, and [Node], the whole state.  [Node] implements [ChainCtx].
    - Process.v (process.go, accept.go, chainio.go): [ProcessBlock] and what it
      calls.  ChainFrame.v and ProcessSpec.v: what moving the tip leaves alone,
      and the invariant [node_ok] of a node, kept by [ProcessBlock].
      ProcessTotal.v: it returns on every node of the invariant.
    - Start.v (chain.go, chainio.go, utxocache.go): [New], on an empty database or
      on what a node left.  Recover.v and StartSpec.v: the coins are brought up to
      the best block, and the node read back satisfies [node_ok].
    - Running.v: a node over its life, started, given blocks and restarted.

    ** What the theorems show

    - A node: whatever blocks it is given, in whatever order, and however often
      it is stopped and started again, its tip has the coins that its branch
      leaves, worth no more than the emission.  What is assumed of the blocks
      ([presented] in ProcessSpec.v): a header hash names one block, so there are
      no copies of a block with another certificate, witness or body; equal
      transaction ids have equal encodings; transactions spend earlier ones of
      their block only; and amounts can be stored.  A restart succeeds and gives
      back the same tip and coins.  A checkpoint that was found stays on the best
      chain; every such block is answered, and one that is taken is kept; the loop
      over the orphans ends and leaves none behind that waits for what it took.
    - The chain: [connectBestChain], whether it extends the tip, leaves a block
      aside or reorganizes, leaves view, cache, journals, indexes and best state
      those of the branch of the tip.  What
      [getReorganizeNodes] returns is the two sides of the fork; connecting a
      block and disconnecting it is the identity on coins; a branch with an invalid
      block is never adopted, and leaves the chain as it is.
    - Connecting a block: what [checkConnectBlock] accepts is valid by the ledger
      of Ledger.v, and the cache refines that ledger whatever it loads, misses
      and flushes.
    - Scripts: an execution ends within a number of steps computed from its
      scripts, never panics, stays within the limits, and its verdict does not
      depend on the signature cache.  Spends of witness programs succeed exactly
      as specified; each group of opcodes has its meaning; the message of
      a taproot signature encodes exactly the fields its hash type selects, from
      the midstate, which holds no amounts and scripts when a transaction spends no
      taproot output.
    - Blocks: the checks without context accept exactly the sane blocks, and those
      in context follow from the rules of the height.
    - Codecs: round trips for transactions, blocks, scripts, control blocks,
      outputs, journals, and indexes; readers accept only what writers produce.
    - Arithmetic: the supply is bounded; retargeting is the formula, does not
      overflow where the code uses machine integers, and passes the checkpoint
      test while the time that eased it is counted; compact targets round down.

    ** Conventions, bounds and fuel

    A machine integer is a [Z]; a conversion that can lose bits is written out
    ([u32], [i64] and so on), and so is arithmetic where its wrapping can be
    observed.  A [big.Int] is a [Z].  A slice is a list; indexing out of range
    is the value [Panic] of [result].  [Fail] carries the error as a value;
    the text of errors is left out.  Fuel is used where Go loops on something
    that is not structural, with a proof that it is enough: [step_loop]
    of the engine ([steps_bound]), the loops of the rolling Merkle
    store (65 and 64 rounds for a 64-bit count), the variable length quantities (10 bytes), the
    growth of maps (64 doublings), block locators (height + 1), the loop over the
    orphans (twice the orphans and the hashes; running out is [Panic] there, as in
    the engine).  [GetOrphanRoot] walks at most as many steps as there are orphans:
    a longer walk would be a cycle of hashes, on which the code does not end.
    Lengths of slices are below 2^62 where a theorem needs it: no slice is longer.

    Parameters stand for what is not in the repository's Go sources or not
    determined by it: hash functions, curve keys and XMSS verification, the order in which Go
    ranges over a map ([MapRange], [MapOrder]), which entry a cache evicts, the
    conversion of an infinite float ([Log2Conv]), pruning of block files
    ([BlockPruner]), the format of public keys.  Float logarithms are integer
    logarithms, to which they round in the ranges that occur.

    A bucket of the database is a finite map that reads back what was written
    and does not fail; transactions of the database are atomic.  Pointers to
    nodes of the block tree are compared by hash, and the status of a node is
    kept beside it, in the index.  Locks make operations atomic; the goroutines
    that run scripts are run in one order, since a verdict does not depend on it.
    When an operation fails its error is returned without the state it left.

    A node is stopped between two calls: a call of the model is atomic, and what
    a crash inside one leaves is a matter of the order of its database
    transactions, which the model does not cut.

    ** Not modelled

    Networking, RPC, the wallet, the light client and the applications are I/O
    around the core.  The memory pool and block templates are policy on top of
    it.  The block database stores bytes.  The elliptic curve, XMSS and the
    proof-of-work verifier are parameters.  Optional indexes, notifications,
    logging and threshold states do not change what a block does to the chain.
    Manual invalidation of blocks and the queries of the chain serve RPCs.  The
    median of the clocks of peers is an argument of [ProcessBlock].  The
    flag for trusted blocks (BFFastAdd), set when headers came first and when
    blocks are imported, is part of the definitions; the theorems about a node
    are about calls without it. *)
From stdpp Require Export base numbers list gmap.
From Stdlib Require Export Init.Byte.
From Stdlib Require Import Lia ZArith Strings.Byte.

#[global] Open Scope Z_scope.

(** ** Bytes *)

Abbreviation bytes := (list byte).

#[global] Instance byte_eq_dec : EqDecision byte := Byte.byte_eq_dec.

(** A Go [byte] as a number, and the conversion [byte(z)], which truncates. *)
Definition b2z (b : byte) : Z := Z.of_N (Byte.to_N b).

Definition z2b (z : Z) : byte :=
  default x00 (Byte.of_N (Z.to_N (z mod 256))).

Lemma b2z_range b : 0 <= b2z b < 256.
Proof. unfold b2z. pose proof (Byte.to_N_bounded b). lia. Qed.

Lemma b2z_inj b1 b2 : b2z b1 = b2z b2 → b1 = b2.
Proof.
  unfold b2z. intros H%N2Z.inj.
  pose proof (Byte.of_to_N b1) as E1. pose proof (Byte.of_to_N b2) as E2.
  rewrite H in E1. congruence.
Qed.

Lemma b2z_z2b z : b2z (z2b z) = z mod 256.
Proof.
  unfold z2b, b2z. pose proof (Z.mod_pos_bound z 256 ltac:(lia)) as Hm.
  destruct (Byte.of_N (Z.to_N (z mod 256))) as [b|] eqn:E; simpl.
  - apply Byte.to_of_N in E. rewrite E. lia.
  - apply Byte.of_N_None_iff in E. lia.
Qed.

Lemma z2b_b2z b : z2b (b2z b) = b.
Proof. apply b2z_inj. rewrite b2z_z2b. apply Z.mod_small, b2z_range. Qed.

Lemma b2z_z2b_small z : 0 <= z < 256 → b2z (z2b z) = z.
Proof. intros. rewrite b2z_z2b. by apply Z.mod_small. Qed.

#[global] Instance byte_countable : Countable byte.
Proof. exact (inj_countable Byte.to_N Byte.of_N Byte.of_to_N). Defined.

(** ** Machine integers *)

Definition u8 (z : Z) : Z := z mod 2 ^ 8.
Definition u16 (z : Z) : Z := z mod 2 ^ 16.
Definition u32 (z : Z) : Z := z mod 2 ^ 32.
Definition u64 (z : Z) : Z := z mod 2 ^ 64.
Definition i32 (z : Z) : Z := (z + 2 ^ 31) mod 2 ^ 32 - 2 ^ 31.
Definition i64 (z : Z) : Z := (z + 2 ^ 63) mod 2 ^ 64 - 2 ^ 63.

Definition is_i32 (z : Z) : Prop := - 2 ^ 31 <= z < 2 ^ 31.
Definition is_i64 (z : Z) : Prop := - 2 ^ 63 <= z < 2 ^ 63.
Definition is_u32 (z : Z) : Prop := 0 <= z < 2 ^ 32.
Definition is_u64 (z : Z) : Prop := 0 <= z < 2 ^ 64.

Lemma u8_small z : 0 <= z < 2 ^ 8 → u8 z = z.
Proof. apply Z.mod_small. Qed.
Lemma u16_small z : 0 <= z < 2 ^ 16 → u16 z = z.
Proof. apply Z.mod_small. Qed.
Lemma u32_small z : 0 <= z < 2 ^ 32 → u32 z = z.
Proof. apply Z.mod_small. Qed.
Lemma u64_small z : 0 <= z < 2 ^ 64 → u64 z = z.
Proof. apply Z.mod_small. Qed.
Lemma i32_small z : is_i32 z → i32 z = z.
Proof. unfold is_i32, i32. intros. rewrite Z.mod_small; lia. Qed.
Lemma i64_small z : is_i64 z → i64 z = z.
Proof. unfold is_i64, i64. intros. rewrite Z.mod_small; lia. Qed.
Lemma i32_range z : is_i32 (i32 z).
Proof.
  unfold is_i32, i32. pose proof (Z.mod_pos_bound (z + 2 ^ 31) (2 ^ 32) eq_refl). lia.
Qed.
Lemma i64_range z : is_i64 (i64 z).
Proof.
  unfold is_i64, i64. pose proof (Z.mod_pos_bound (z + 2 ^ 63) (2 ^ 64) eq_refl). lia.
Qed.
Lemma i32_u32 z : is_i32 z → i32 (u32 z) = z.
Proof.
  unfold is_i32, i32, u32. intros.
  rewrite Zplus_mod_idemp_l, Z.mod_small; lia.
Qed.
Lemma i64_u64 z : is_i64 z → i64 (u64 z) = z.
Proof.
  unfold is_i64, i64, u64. intros.
  rewrite Zplus_mod_idemp_l, Z.mod_small; lia.
Qed.

(** ** Lengths and Go slices *)

Definition zlen {A} (l : list A) : Z := Z.of_nat (length l).

Lemma zlen_nonneg {A} (l : list A) : 0 <= zlen l.
Proof. unfold zlen. lia. Qed.
Lemma zlen_nil {A} : zlen (@nil A) = 0.
Proof. done. Qed.
Lemma zlen_cons {A} (x : A) l : zlen (x :: l) = 1 + zlen l.
Proof. unfold zlen. simpl. lia. Qed.
Lemma zlen_app {A} (l k : list A) : zlen (l ++ k) = zlen l + zlen k.
Proof. unfold zlen. rewrite length_app. lia. Qed.
Lemma zlen_snoc {A} (l : list A) x : zlen (l ++ [x]) = zlen l + 1.
Proof. by rewrite zlen_app. Qed.
Lemma to_nat_zlen {A} (l : list A) : Z.to_nat (zlen l) = length l.
Proof. unfold zlen. lia. Qed.
Lemma zlen_0 {A} (l : list A) : zlen l = 0 → l = [].
Proof. destruct l; [done|]. rewrite zlen_cons. pose proof (zlen_nonneg l). lia. Qed.

(** Goals about lengths of concatenations. *)
Ltac len_solve :=
  unfold zlen in *;
  repeat (progress (rewrite ?length_app in *; cbn [length app] in * ));
  lia.

(** Reassociates concatenations to the right. *)
Ltac app_norm := repeat first [rewrite <-(assoc_L (++)) | progress (cbn [app])].

(** ** Little-endian integers *)

Fixpoint le_put (n : nat) (z : Z) : bytes :=
  match n with
  | O => []
  | S n => z2b z :: le_put n (z / 256)
  end.

Fixpoint le_get (bs : bytes) : Z :=
  match bs with
  | [] => 0
  | b :: bs => b2z b + 256 * le_get bs
  end.

Lemma length_le_put n z : length (le_put n z) = n.
Proof. revert z. induction n; intros; simpl; auto. Qed.

Lemma zlen_le_put n z : zlen (le_put n z) = Z.of_nat n.
Proof. unfold zlen. by rewrite length_le_put. Qed.

Lemma pow256_S n : 256 ^ Z.of_nat (S n) = 256 * 256 ^ Z.of_nat n.
Proof. rewrite Nat2Z.inj_succ, Z.pow_succ_r; lia. Qed.

Lemma pow256_pos n : 0 < 256 ^ Z.of_nat n.
Proof. apply Z.pow_pos_nonneg; lia. Qed.

Lemma le_get_bound bs : 0 <= le_get bs < 256 ^ Z.of_nat (length bs).
Proof.
  induction bs as [|b bs IH]; [by split|].
  cbn [le_get length]. rewrite pow256_S. pose proof (b2z_range b). lia.
Qed.

Lemma le_get_put n z : le_get (le_put n z) = z mod 256 ^ Z.of_nat n.
Proof.
  revert z. induction n as [|n IH]; intros z.
  - simpl. by rewrite Z.mod_1_r.
  - cbn [le_get le_put]. rewrite b2z_z2b, IH, pow256_S.
    pose proof (pow256_pos n).
    rewrite (Z.rem_mul_r z 256 (256 ^ Z.of_nat n)) by lia. lia.
Qed.

Lemma le_get_put_small n z : 0 <= z < 256 ^ Z.of_nat n → le_get (le_put n z) = z.
Proof. intros. rewrite le_get_put. by apply Z.mod_small. Qed.

Lemma z2b_add_mul b z : z2b (b2z b + 256 * z) = b.
Proof.
  apply b2z_inj. rewrite b2z_z2b.
  rewrite Z.mul_comm, Z_mod_plus_full. apply Z.mod_small, b2z_range.
Qed.

Lemma le_put_get bs : le_put (length bs) (le_get bs) = bs.
Proof.
  induction bs as [|b bs IH]; [done|]. cbn [le_put length le_get].
  rewrite z2b_add_mul. f_equal.
  transitivity (le_put (length bs) (le_get bs)); [f_equal|done].
  pose proof (b2z_range b). rewrite (Z.mul_comm 256), Z.div_add by lia.
  rewrite Z.div_small; lia.
Qed.

Lemma le_get_app bs cs :
  le_get (bs ++ cs) = le_get bs + 256 ^ Z.of_nat (length bs) * le_get cs.
Proof.
  induction bs as [|b bs IH]; [cbn [length app le_get]; rewrite Z.pow_0_r; lia|].
  cbn [length].
  cbn [app le_get]. rewrite IH, pow256_S. ring.
Qed.

(** ** Results: a value, an error, or a run-time panic *)

Inductive result (E A : Type) : Type :=
| Ok (a : A)
| Fail (e : E)
| Panic.
Arguments Ok {E A} a.
Arguments Fail {E A} e.
Arguments Panic {E A}.

#[global] Instance result_ret {E} : MRet (result E) := λ A a, Ok a.
#[global] Instance result_bind {E} : MBind (result E) := λ A B f m,
  match m with Ok a => f a | Fail e => Fail e | Panic => Panic end.

Definition is_ok {E A} (r : result E A) : Prop :=
  match r with Ok _ => True | _ => False end.

Definition no_panic {E A} (r : result E A) : Prop :=
  match r with Panic => False | _ => True end.

Lemma bind_ok {E A B} (m : result E A) (f : A → result E B) b :
  m ≫= f = Ok b ↔ ∃ a, m = Ok a ∧ f a = Ok b.
Proof.
  destruct m; cbn; split; [eauto| |done| |done|]; intros (?&?&?); congruence.
Qed.

Lemma bind_panic {E A B} (m : result E A) (f : A → result E B) :
  m ≫= f = Panic ↔ m = Panic ∨ ∃ a, m = Ok a ∧ f a = Panic.
Proof.
  destruct m; cbn; split; eauto; try done; intros [?|(?&?&?)]; congruence.
Qed.

(** [l[i]] and [l[lo:hi]]: out of range is a run-time panic. *)
Definition go_index {E A} (l : list A) (i : Z) : result E A :=
  if (0 <=? i) && (i <? zlen l)
  then match l !! Z.to_nat i with Some x => Ok x | None => Panic end
  else Panic.

Definition go_slice {E A} (l : list A) (lo hi : Z) : result E (list A) :=
  if (0 <=? lo) && (lo <=? hi) && (hi <=? zlen l)
  then Ok (take (Z.to_nat (hi - lo)) (drop (Z.to_nat lo) l))
  else Panic.

Lemma go_index_ok {E A} (l : list A) i x :
  go_index (E:=E) l i = Ok x ↔ 0 <= i ∧ l !! Z.to_nat i = Some x.
Proof.
  unfold go_index. split.
  - destruct (_ && _) eqn:E1; [|done]. case_match; naive_solver lia.
  - intros [Hi Hx]. pose proof (lookup_lt_Some _ _ _ Hx).
    unfold zlen. rewrite (proj2 (andb_true_iff _ _)) by lia. by rewrite Hx.
Qed.

Lemma go_index_total {E A} (l : list A) i :
  0 <= i < zlen l → ∃ x, go_index (E:=E) l i = Ok x ∧ l !! Z.to_nat i = Some x.
Proof.
  intros Hi. destruct (lookup_lt_is_Some_2 l (Z.to_nat i)) as [x Hx].
  { unfold zlen in Hi. lia. }
  exists x. rewrite go_index_ok. auto with lia.
Qed.

Lemma go_slice_total {E A} (l : list A) lo hi :
  0 <= lo <= hi → hi <= zlen l →
  go_slice (E:=E) l lo hi = Ok (take (Z.to_nat (hi - lo)) (drop (Z.to_nat lo) l)).
Proof. intros. unfold go_slice. by rewrite !(proj2 (andb_true_iff _ _)) by lia. Qed.

Lemma go_slice_ok {E A} (l : list A) lo hi k :
  go_slice (E:=E) l lo hi = Ok k →
  0 <= lo <= hi ∧ hi <= zlen l ∧ k = take (Z.to_nat (hi - lo)) (drop (Z.to_nat lo) l).
Proof. unfold go_slice. case_match; [|done]. intros [= <-]. repeat split; lia. Qed.

Lemma go_index_mid {E A} (l : list A) x k n :
  n = zlen l → go_index (E:=E) (l ++ x :: k) n = Ok x.
Proof.
  intros ->. apply go_index_ok. split; [apply zlen_nonneg|].
  apply list_lookup_middle. unfold zlen. lia.
Qed.

Lemma go_slice_at {E A} (pre mid rest : list A) lo hi :
  lo = zlen pre → hi = zlen pre + zlen mid →
  go_slice (E:=E) (pre ++ mid ++ rest) lo hi = Ok mid.
Proof.
  intros -> ->. pose proof (zlen_nonneg pre). pose proof (zlen_nonneg mid).
  rewrite go_slice_total by len_solve.
  rewrite to_nat_zlen, drop_app_length. f_equal.
  replace (Z.to_nat _) with (length mid) by (unfold zlen; lia). apply take_app_length.
Qed.

Lemma go_slice_tail {E A} (pre rest : list A) lo hi :
  lo = zlen pre → hi = zlen pre + zlen rest → go_slice (E:=E) (pre ++ rest) lo hi = Ok rest.
Proof.
  intros Hlo Hhi. pose proof (go_slice_at (E:=E) pre rest [] lo hi Hlo Hhi) as H.
  by rewrite app_nil_r in H.
Qed.

Lemma go_slice_prefix {E A} (pre rest : list A) n :
  n = zlen pre → go_slice (E:=E) (pre ++ rest) 0 n = Ok pre.
Proof. intros ->. apply (go_slice_at [] pre rest); [done|]. by rewrite zlen_nil. Qed.

Lemma go_slice_cons {E A} (x : A) l n : n = 1 + zlen l → go_slice (E:=E) (x :: l) 1 n = Ok l.
Proof. intros ->. by apply (go_slice_tail [x] l). Qed.

Lemma go_index_0 {E A} (x : A) l : go_index (E:=E) (x :: l) 0 = Ok x.
Proof. by apply go_index_ok. Qed.

Lemma split_at {A} (l : list A) n :
  0 <= n <= zlen l → ∃ x y, l = x ++ y ∧ zlen x = n.
Proof.
  intros Hn. exists (take (Z.to_nat n) l), (drop (Z.to_nat n) l).
  rewrite take_drop. split; [done|]. unfold zlen in *. rewrite length_take. lia.
Qed.

(** Inverts every [Ok] equation on a bind in the context. *)
Ltac inv_bind :=
  repeat match goal with
  | H : mbind _ _ = Ok _ |- _ => apply bind_ok in H as (?&?&H)
  | H : Ok _ = Ok _ |- _ => injection H as H; subst
  | H : mret _ = Ok _ |- _ => injection H as H; subst
  | H : Fail _ = Ok _ |- _ => discriminate H
  | H : Panic = Ok _ |- _ => discriminate H
  | x : _ * _ |- _ => destruct x
  end.

(** ** State with errors

    A method with a pointer receiver: the state before the call, and either
    the value returned with the state after it, an error or a panic. *)
Definition ST (E S A : Type) : Type := S → result E (A * S).

#[global] Instance st_ret {E S} : MRet (ST E S) := λ A a s, Ok (a, s).
#[global] Instance st_bind {E S} : MBind (ST E S) := λ A B f m s,
  match m s with Ok (a, s') => f a s' | Fail e => Fail e | Panic => Panic end.

Definition st_get {E S} : ST E S S := λ s, Ok (s, s).
Definition st_modify {E S} (f : S → S) : ST E S unit := λ s, Ok ((), f s).
Definition st_fail {E S A} (e : E) : ST E S A := λ _, Fail e.
Definition st_lift {E S A} (r : result E A) : ST E S A := λ s, a ← r; Ok (a, s).

(** [for ; n > 0; n-- { body }] *)
Fixpoint st_repeat {E S} (n : nat) (m : ST E S unit) : ST E S unit :=
  match n with
  | O => mret ()
  | S n => m ;; st_repeat n m
  end.

(** *** Safety triples

    [{{ P }} m {{ Q }}]: from a state satisfying [P], [m] does not panic, and
    when it returns a value the state it leaves satisfies [Q]. *)
Definition triple {E S A} (P : S → Prop) (m : ST E S A) (Q : A → S → Prop) : Prop :=
  ∀ s, P s → match m s with Ok (a, s') => Q a s' | Fail _ => True | Panic => False end.

Section triple.
Context {E S : Type}.
Implicit Types P : S → Prop.

Lemma triple_ret {A} P (a : A) (Q : A → S → Prop) :
  (∀ s, P s → Q a s) → triple (E:=E) P (mret a) Q.
Proof. intros H s Hs. by apply H. Qed.

Lemma triple_bind {A B} P (m : ST E S A) (f : A → ST E S B) R Q :
  triple P m R → (∀ a, triple (R a) (f a) Q) → triple P (m ≫= f) Q.
Proof.
  intros Hm Hf s Hs. specialize (Hm s Hs). cbv [mbind st_bind].
  destruct (m s) as [[a s']| |]; [by apply Hf|done|done].
Qed.

Lemma triple_weaken {A} P P' (m : ST E S A) (Q Q' : A → S → Prop) :
  triple P' m Q' → (∀ s, P s → P' s) → (∀ a s, Q' a s → Q a s) → triple P m Q.
Proof.
  intros Hm HP HQ s Hs. specialize (Hm s (HP s Hs)).
  destruct (m s) as [[a s']| |]; auto.
Qed.

Lemma triple_fail {A} P (e : E) (Q : A → S → Prop) : triple P (st_fail e) Q.
Proof. by intros s Hs. Qed.

Lemma triple_get P (Q : S → S → Prop) :
  (∀ s, P s → Q s s) → triple (E:=E) P st_get Q.
Proof. intros H s Hs. by apply H. Qed.

Lemma triple_modify P f (Q : unit → S → Prop) :
  (∀ s, P s → Q () (f s)) → triple (E:=E) P (st_modify f) Q.
Proof. intros H s Hs. by apply H. Qed.

Lemma triple_lift {A} P (r : result E A) (Q : A → S → Prop) :
  no_panic r → (∀ a s, P s → r = Ok a → Q a s) → triple P (st_lift r) Q.
Proof. intros Hr H s Hs. unfold st_lift. destruct r; cbn; auto. Qed.

Lemma triple_repeat n P (m : ST E S unit) :
  triple P m (λ _, P) → triple P (st_repeat n m) (λ _, P).
Proof.
  intros Hm. induction n as [|n IH]; cbn; [by apply triple_ret|].
  eapply triple_bind; [exact Hm|done].
Qed.

Lemma triple_ok {A} P (m : ST E S A) Q s a s' :
  triple P m Q → P s → m s = Ok (a, s') → Q a s'.
Proof. intros Hm Hs E1. specialize (Hm s Hs). by rewrite E1 in Hm. Qed.
End triple.

Create HintDb triples discriminated.
#[export] Hint Resolve triple_fail : triples.
