(* ===== verification/Wire.v ===== *)
(** * Primitive wire codecs ([node/wire/common.go])

    Variable length integers, strings and byte arrays.  A reader is a state
    transformer on the bytes not read yet; a writer is the list of bytes it
    appends (the destinations the node uses, [bytes.Buffer] and hash states,
    never fail).  The protocol version and the scratch buffers the Go
    functions take do not influence what is read or written and are not
    arguments here. *)
From stdpp Require Import strings.
From Stdlib Require Import Lia ZArith.
From S2P Require Import Prelude.

(** ** Errors and readers *)

Inductive WireErr :=
| ErrEOF                       (* io.EOF: nothing left to read *)
| ErrUnexpectedEOF             (* io.ErrUnexpectedEOF: a partial read *)
| MessageError (fn : string)   (* wire.MessageError of function fn *)
| ErrSuperfluousWitnessRecord  (* errSuperfluousWitnessRecord *)
| Errorf (s : string).         (* an error made with fmt.Errorf *)

Abbreviation Reader := (ST WireErr bytes).

Definition MaxMessagePayload : Z := 1024 * 1024 * 32.
Definition MaxUint16 : Z := 2 ^ 16 - 1.
Definition MaxUint32 : Z := 2 ^ 32 - 1.

(** [io.ReadFull] into a buffer of [n] bytes. *)
Definition ReadFull (n : Z) : Reader bytes := λ r,
  if n <=? zlen r then Ok (take (Z.to_nat n) r, drop (Z.to_nat n) r)
  else match r with [] => Fail ErrEOF | _ => Fail ErrUnexpectedEOF end.

(** ** Variable length integers *)

Definition ReadVarIntBuf : Reader Z :=
  buf ← ReadFull 1;
  let discriminant := le_get buf in
  if discriminant =? 0xff then
    buf ← ReadFull 8;
    let rv := le_get buf in
    let min := 0x100000000 in
    if rv <? min then st_fail (MessageError "ReadVarInt") else mret rv
  else if discriminant =? 0xfe then
    buf ← ReadFull 4;
    let rv := le_get buf in
    let min := 0x10000 in
    if rv <? min then st_fail (MessageError "ReadVarInt") else mret rv
  else if discriminant =? 0xfd then
    buf ← ReadFull 2;
    let rv := le_get buf in
    let min := 0xfd in
    if rv <? min then st_fail (MessageError "ReadVarInt") else mret rv
  else mret discriminant.

Definition ReadVarInt : Reader Z := ReadVarIntBuf.

Definition WriteVarIntBuf (val : Z) : bytes :=
  if val <? 0xfd then [z2b val]
  else if val <=? MaxUint16 then z2b 0xfd :: le_put 2 (u16 val)
  else if val <=? MaxUint32 then z2b 0xfe :: le_put 4 (u32 val)
  else [z2b 0xff] ++ le_put 8 val.

Definition WriteVarInt (val : Z) : bytes := WriteVarIntBuf val.

Definition VarIntSerializeSize (val : Z) : Z :=
  if val <? 0xfd then 1
  else if val <=? MaxUint16 then 3
  else if val <=? MaxUint32 then 5
  else 9.

(** ** Variable length byte arrays and strings *)

Definition ReadVarBytesBuf (maxAllowed : Z) : Reader bytes :=
  count ← ReadVarIntBuf;
  if maxAllowed <? count then st_fail (MessageError "ReadVarBytes")
  else ReadFull count.

Definition ReadVarBytes (maxAllowed : Z) : Reader bytes := ReadVarBytesBuf maxAllowed.

Definition WriteVarBytesBuf (bs : bytes) : bytes :=
  let slen := u64 (zlen bs) in
  WriteVarIntBuf slen ++ bs.

Definition WriteVarBytes (bs : bytes) : bytes := WriteVarBytesBuf bs.

(** A Go string is a byte sequence. *)
Definition readVarStringBuf : Reader bytes :=
  count ← ReadVarIntBuf;
  if MaxMessagePayload <? count then st_fail (MessageError "ReadVarString")
  else ReadFull count.

Definition writeVarStringBuf (str : bytes) : bytes :=
  WriteVarIntBuf (u64 (zlen str)) ++ str.

(** ** The codec interface

    [Decodes wf enc dec] is what a message's encoder promises to the code that
    reads it back: on the encoding of a well-formed value followed by other
    data, the decoder returns the value and leaves the other data unread. *)
Class Decodes {A} (wf : A → Prop) (enc : A → bytes) (dec : Reader A) : Prop :=
  decodes a rest : wf a → dec (enc a ++ rest) = Ok (a, rest).

(** [Canonical enc dec]: what the decoder accepts is an encoder's output, so a
    value has one accepted encoding. *)
Class Canonical {A} (enc : A → bytes) (dec : Reader A) : Prop :=
  canonical r a rest : dec r = Ok (a, rest) → r = enc a ++ rest.

#[global] Hint Mode Decodes + - - ! : typeclass_instances.
#[global] Hint Mode Canonical + - ! : typeclass_instances.

(** ** Reading exactly what is there *)

Lemma ReadFull_app n bs rest :
  zlen bs = n → ReadFull n (bs ++ rest) = Ok (bs, rest).
Proof.
  intros <-. unfold ReadFull. rewrite zlen_app.
  rewrite (proj2 (Z.leb_le _ _)) by (pose proof (zlen_nonneg rest); lia).
  unfold zlen. by rewrite Nat2Z.id, take_app_length, drop_app_length.
Qed.

Lemma ReadFull_ok n r bs rest :
  ReadFull n r = Ok (bs, rest) → 0 <= n → r = bs ++ rest ∧ zlen bs = n.
Proof.
  unfold ReadFull. destruct (Z.leb_spec n (zlen r)); [|by destruct r].
  intros [= <- <-] Hn. rewrite take_drop. split; [done|].
  unfold zlen in *. rewrite length_take. lia.
Qed.

Lemma ReadFull_no_panic n r : no_panic (ReadFull n r).
Proof. unfold ReadFull. case_match; [done|]. by destruct r. Qed.

(** One step of a decoder on encoded input. *)
Lemma bind_decodes {A B} (m : Reader A) (f : A → Reader B) r a r' :
  m r = Ok (a, r') → (m ≫= f) r = f a r'.
Proof. intros H. cbv [mbind st_bind]. by rewrite H. Qed.

Lemma st_bind_ok {E S A B} (m : ST E S A) (f : A → ST E S B) s b s'' :
  (m ≫= f) s = Ok (b, s'') ↔ ∃ a s', m s = Ok (a, s') ∧ f a s' = Ok (b, s'').
Proof.
  cbv [mbind st_bind]. split.
  - destruct (m s) as [[a s']| |]; naive_solver.
  - by intros (a & s' & -> & ?).
Qed.

Ltac inv_st :=
  repeat match goal with
  | H : mbind _ _ _ = Ok _ |- _ => apply st_bind_ok in H as (?&?&?&H)
  | H : st_fail _ _ = Ok _ |- _ => discriminate H
  | H : mret _ _ = Ok _ |- _ => injection H as H; subst
  | H : Ok _ = Ok _ |- _ => injection H as H; subst
  end.

(** ** Variable length integers: round trip, canonicity, size *)

Lemma le_get_singleton b : le_get [b] = b2z b.
Proof. cbn. lia. Qed.

(** The tag byte and the fixed width payload of the long forms. *)
Lemma ReadVarInt_long tag n lo v rest :
  0 <= v < 256 ^ Z.of_nat n → lo <= v → 0 <= tag < 256 →
  (if le_get [z2b tag] =? tag then
     (buf ← ReadFull (Z.of_nat n);
      let rv := le_get buf in
      if rv <? lo then st_fail (MessageError "ReadVarInt") else mret rv)
   else st_fail ErrEOF) (le_put n v ++ rest) = Ok (v, rest).
Proof.
  intros Hv Hlo Htag. rewrite le_get_singleton, b2z_z2b_small, Z.eqb_refl by lia.
  erewrite bind_decodes by (apply ReadFull_app, zlen_le_put).
  rewrite le_get_put_small by lia. cbv zeta.
  by rewrite (proj2 (Z.ltb_ge _ _)) by lia.
Qed.

#[export] Instance varint_decodes : Decodes is_u64 WriteVarIntBuf ReadVarIntBuf.
Proof.
  intros v rest [Hv0 Hv1]. unfold WriteVarIntBuf, MaxUint16, MaxUint32, ReadVarIntBuf.
  repeat case_match; cbn [app];
    (erewrite bind_decodes by (by apply (ReadFull_app 1 [_])));
    rewrite le_get_singleton, b2z_z2b_small by lia; cbv zeta.
  - by rewrite !(proj2 (Z.eqb_neq v _)) by lia.
  - rewrite u16_small by lia. cbn [Z.eqb Pos.eqb].
    apply (ReadVarInt_long 0xfd 2 0xfd); lia.
  - rewrite u32_small by lia. cbn [Z.eqb Pos.eqb].
    apply (ReadVarInt_long 0xfe 4 0x10000); lia.
  - cbn [Z.eqb Pos.eqb]. apply (ReadVarInt_long 0xff 8 0x100000000); lia.
Qed.

Lemma b2z_eq_z2b b v : b2z b = v → b = z2b v.
Proof. intros <-. by rewrite z2b_b2z. Qed.

Lemma zlen_1 {A} (l : list A) : zlen l = 1 → ∃ x, l = [x].
Proof.
  destruct l as [|x [|y l]]; [done|by exists x|]. rewrite !zlen_cons.
  pose proof (zlen_nonneg l). lia.
Qed.

Lemma le_get_width n buf :
  zlen buf = Z.of_nat n → 0 <= le_get buf < 256 ^ Z.of_nat n ∧ le_put n (le_get buf) = buf.
Proof.
  intros Hn. assert (length buf = n) as <- by (unfold zlen in Hn; lia).
  split; [apply le_get_bound | apply le_put_get].
Qed.

(** What a long form that is accepted looked like. *)
Lemma ReadVarInt_long_ok n lo r v rest :
  (buf ← ReadFull (Z.of_nat n);
   let rv := le_get buf in
   if rv <? lo then st_fail (MessageError "ReadVarInt") else mret rv) r = Ok (v, rest) →
  lo <= v < 256 ^ Z.of_nat n ∧ r = le_put n v ++ rest.
Proof.
  intros (buf & r' & [-> Hl]%ReadFull_ok & H)%st_bind_ok; [|lia].
  apply le_get_width in Hl as [Hb Hp]. cbv zeta in H.
  destruct (Z.ltb_spec (le_get buf) lo); inv_st. rewrite Hp. split; [lia|done].
Qed.

Lemma ReadVarIntBuf_ok r v rest :
  ReadVarIntBuf r = Ok (v, rest) → is_u64 v ∧ r = WriteVarIntBuf v ++ rest.
Proof.
  intros (buf & r' & [-> Hl]%ReadFull_ok & H)%st_bind_ok; [|lia].
  apply zlen_1 in Hl as [b ->]. rewrite le_get_singleton in H. cbv zeta in H.
  pose proof (b2z_range b). unfold is_u64, WriteVarIntBuf, MaxUint16, MaxUint32.
  destruct (Z.eqb_spec (b2z b) 0xff) as [E%b2z_eq_z2b|];
    [|destruct (Z.eqb_spec (b2z b) 0xfe) as [E%b2z_eq_z2b|];
      [|destruct (Z.eqb_spec (b2z b) 0xfd) as [E%b2z_eq_z2b|]]].
  - apply (ReadVarInt_long_ok 8) in H as [Hv ->]. split; [lia|].
    by rewrite (proj2 (Z.ltb_ge _ _)), !(proj2 (Z.leb_gt _ _)), E by lia.
  - apply (ReadVarInt_long_ok 4) in H as [Hv ->]. split; [lia|].
    by rewrite (proj2 (Z.ltb_ge _ _)), (proj2 (Z.leb_gt _ _)), (proj2 (Z.leb_le _ _)),
      u32_small, E by lia.
  - apply (ReadVarInt_long_ok 2) in H as [Hv ->]. split; [lia|].
    by rewrite (proj2 (Z.ltb_ge _ _)), (proj2 (Z.leb_le _ _)), u16_small, E by lia.
  - inv_st. split; [lia|]. rewrite (proj2 (Z.ltb_lt _ _)) by lia. by rewrite z2b_b2z.
Qed.

#[export] Instance varint_canonical : Canonical WriteVarIntBuf ReadVarIntBuf.
Proof. intros r v rest H. by apply ReadVarIntBuf_ok. Qed.

Lemma WriteVarInt_size v : 0 <= v → zlen (WriteVarIntBuf v) = VarIntSerializeSize v.
Proof.
  intros. unfold WriteVarIntBuf, VarIntSerializeSize.
  repeat case_match; rewrite ?zlen_app, ?zlen_cons, ?zlen_le_put, ?zlen_nil; lia.
Qed.

Lemma ReadVarIntBuf_no_panic r : no_panic (ReadVarIntBuf r).
Proof.
  unfold ReadVarIntBuf. cbv [mbind st_bind].
  pose proof (ReadFull_no_panic 1 r).
  destruct (ReadFull 1 r) as [[buf r']| |]; [|done|done].
  repeat case_match; try done;
    match goal with E : ReadFull ?n ?r = Panic |- _ =>
      pose proof (ReadFull_no_panic n r) as Hnp; by rewrite E in Hnp end.
Qed.

Lemma ReadVarInt_range r v rest : ReadVarIntBuf r = Ok (v, rest) → is_u64 v.
Proof. intros H. by apply ReadVarIntBuf_ok in H as []. Qed.

(** ** Variable length byte arrays *)

(** Lengths a Go slice can have: [len] is a non-negative [int]. *)
Definition go_len {A} (l : list A) : Prop := zlen l < 2 ^ 63.

Lemma go_len_u64 {A} (l : list A) : go_len l → is_u64 (zlen l).
Proof. unfold go_len, is_u64. pose proof (zlen_nonneg l). lia. Qed.

Lemma u64_zlen {A} (l : list A) : go_len l → u64 (zlen l) = zlen l.
Proof. intros ?%go_len_u64. by apply u64_small. Qed.

Lemma length_prefixed_decodes maxAllowed fn bs rest :
  zlen bs <= maxAllowed → go_len bs →
  (count ← ReadVarIntBuf;
   if maxAllowed <? count then st_fail (MessageError fn) else ReadFull count)
    (WriteVarIntBuf (u64 (zlen bs)) ++ bs ++ rest) = Ok (bs, rest).
Proof.
  intros Hmax Hlen. rewrite u64_zlen by done.
  erewrite bind_decodes by (by apply varint_decodes, go_len_u64).
  rewrite (proj2 (Z.ltb_ge _ _)) by lia. by apply ReadFull_app.
Qed.

Lemma length_prefixed_ok maxAllowed fn r bs rest :
  (count ← ReadVarIntBuf;
   if maxAllowed <? count then st_fail (MessageError fn) else ReadFull count) r
    = Ok (bs, rest) →
  zlen bs <= maxAllowed ∧ r = WriteVarIntBuf (u64 (zlen bs)) ++ bs ++ rest.
Proof.
  intros (c & r' & [Hc ->]%ReadVarIntBuf_ok & H)%st_bind_ok.
  destruct (Z.ltb_spec maxAllowed c); [done|].
  apply ReadFull_ok in H as [-> <-]; [|apply Hc].
  by rewrite u64_small.
Qed.

#[export] Instance varbytes_decodes maxAllowed :
  Decodes (λ bs, zlen bs <= maxAllowed ∧ go_len bs) WriteVarBytesBuf
    (ReadVarBytesBuf maxAllowed).
Proof.
  intros bs rest [Hm Hl]. unfold WriteVarBytesBuf. cbv zeta. rewrite <-(assoc_L (++)).
  by apply length_prefixed_decodes.
Qed.

#[export] Instance varbytes_canonical maxAllowed :
  Canonical WriteVarBytesBuf (ReadVarBytesBuf maxAllowed).
Proof.
  intros r bs rest [_ ->]%length_prefixed_ok.
  unfold WriteVarBytesBuf. by rewrite <-(assoc_L (++)).
Qed.

#[export] Instance varstring_decodes :
  Decodes (λ str, zlen str <= MaxMessagePayload) writeVarStringBuf readVarStringBuf.
Proof.
  intros bs rest Hm. unfold writeVarStringBuf. rewrite <-(assoc_L (++)).
  apply length_prefixed_decodes; [done|]. unfold go_len, MaxMessagePayload in *. lia.
Qed.

Lemma WriteVarBytes_size bs :
  go_len bs → zlen (WriteVarBytesBuf bs) = VarIntSerializeSize (zlen bs) + zlen bs.
Proof.
  intros. unfold WriteVarBytesBuf. rewrite zlen_app, u64_zlen by done.
  by rewrite WriteVarInt_size by apply zlen_nonneg.
Qed.

(** ** Properties *)

(** Variable length integers: every 64-bit value is read back from what
    [WriteVarInt] appends whatever follows, in [VarIntSerializeSize] bytes, and
    [ReadVarInt] accepts nothing but that encoding, so no integer has two
    accepted encodings. *)
Theorem varint_codec v :
  is_u64 v →
  (∀ rest, ReadVarInt (WriteVarInt v ++ rest) = Ok (v, rest)) ∧
  zlen (WriteVarInt v) = VarIntSerializeSize v ∧
  (∀ r rest, ReadVarInt r = Ok (v, rest) → r = WriteVarInt v ++ rest).
Proof.
  intros Hv. split_and!.
  - intros rest. by apply varint_decodes.
  - apply WriteVarInt_size, Hv.
  - intros r rest H. by apply varint_canonical.
Qed.

Lemma varint_codec_witness :
  ReadVarInt (WriteVarInt 70000 ++ [x07]) = Ok (70000, [x07]) ∧
  zlen (WriteVarInt 70000) = 5.
Proof.
  destruct (varint_codec 70000) as (H1 & H2 & _); [split; [lia|reflexivity]|].
  split; [apply H1 | exact H2].
Defined.

(** Length-prefixed byte arrays: an array within the limit is read back
    exactly; what is accepted is the canonical encoding of an array within the
    limit, so a hostile length never makes the reader return more than
    [maxAllowed] bytes. *)
Theorem varbytes_codec maxAllowed bs :
  go_len bs →
  (zlen bs <= maxAllowed →
   ∀ rest, ReadVarBytes maxAllowed (WriteVarBytes bs ++ rest) = Ok (bs, rest)) ∧
  (∀ r rest, ReadVarBytes maxAllowed r = Ok (bs, rest) →
   zlen bs <= maxAllowed ∧ r = WriteVarBytes bs ++ rest) ∧
  zlen (WriteVarBytes bs) = VarIntSerializeSize (zlen bs) + zlen bs.
Proof.
  intros Hl. split_and!.
  - intros Hm rest. by apply varbytes_decodes.
  - intros r rest H. split; [by apply length_prefixed_ok in H as []|].
    by apply (varbytes_canonical maxAllowed).
  - by apply WriteVarBytes_size.
Qed.

Lemma varbytes_codec_witness :
  ReadVarBytes 3 (WriteVarBytes [x01; x02; x03] ++ [xff]) = Ok ([x01; x02; x03], [xff]).
Proof.
  apply (varbytes_codec 3 [x01; x02; x03]); [reflexivity | by vm_compute].
Defined.
