(* ===== verification/MsgTx.v ===== *)
(** * Transactions on the wire ([node/wire/msgtx.go])

    The transaction message, its encoder, its decoder with the script slab and
    the final repacking of all scripts into one buffer, and the serialized
    size functions. *)
From stdpp Require Import strings.
From Stdlib Require Import Lia ZArith.
From S2P Require Import Prelude Wire.

(** ** Data *)

Record OutPoint := mkOutPoint { op_Hash : bytes; op_Index : Z }.

Abbreviation TxWitness := (list bytes).

Record TxIn := mkTxIn {
  PreviousOutPoint : OutPoint;
  SignatureScript : bytes;
  Witness : TxWitness;
  Sequence : Z
}.

Record TxOut := mkTxOut { Value : Z; PkScript : bytes }.

Record MsgTx := mkMsgTx {
  tx_Version : Z;
  tx_TxIn : list TxIn;
  tx_TxOut : list TxOut;
  tx_LockTime : Z
}.

Inductive MessageEncoding := BaseEncoding | WitnessEncoding.

#[global] Instance OutPoint_eq_dec : EqDecision OutPoint.
Proof. solve_decision. Defined.
#[global] Instance TxIn_eq_dec : EqDecision TxIn.
Proof. solve_decision. Defined.
#[global] Instance TxOut_eq_dec : EqDecision TxOut.
Proof. solve_decision. Defined.
#[global] Instance MsgTx_eq_dec : EqDecision MsgTx.
Proof. solve_decision. Defined.
#[global] Instance MessageEncoding_eq_dec : EqDecision MessageEncoding.
Proof. solve_decision. Defined.

Definition HashSize : Z := 32.
Definition MaxTxInSequenceNum : Z := 0xffffffff.
Definition MaxPrevOutIndex : Z := 0xffffffff.
Definition SequenceLockTimeDisabled : Z := Z.shiftl 1 31.
Definition SequenceLockTimeIsSeconds : Z := Z.shiftl 1 22.
Definition SequenceLockTimeMask : Z := 0x0000ffff.
Definition minTxInPayload : Z := 9 + HashSize.
Definition maxTxInPerMessage : Z := MaxMessagePayload / minTxInPayload + 1.
Definition MinTxOutPayload : Z := 9.
Definition maxTxOutPerMessage : Z := MaxMessagePayload / MinTxOutPayload + 1.
Definition maxWitnessItemsPerInput : Z := 4000000.
Definition maxWitnessItemSize : Z := 4000000.
Definition TxFlagMarker : Z := 0x00.
Definition WitnessFlag : Z := 0x01.
Definition scriptSlabSize : Z := Z.shiftl 1 22.

Definition HasWitness (msg : MsgTx) : bool :=
  existsb (λ txIn, negb (zlen (Witness txIn) =? 0)) (tx_TxIn msg).

(** ** Encoding *)

Definition writeOutPointBuf (op : OutPoint) : bytes :=
  op_Hash op ++ le_put 4 (op_Index op).

Definition WriteOutPoint (op : OutPoint) : bytes := writeOutPointBuf op.

Definition writeTxInBuf (ti : TxIn) : bytes :=
  writeOutPointBuf (PreviousOutPoint ti) ++
  WriteVarBytesBuf (SignatureScript ti) ++
  le_put 4 (Sequence ti).

Definition WriteTxOutBuf (to : TxOut) : bytes :=
  le_put 8 (u64 (Value to)) ++ WriteVarBytesBuf (PkScript to).

Definition WriteTxOut (to : TxOut) : bytes := WriteTxOutBuf to.

Definition writeTxWitnessBuf (wit : TxWitness) : bytes :=
  WriteVarIntBuf (u64 (zlen wit)) ++ concat (map WriteVarBytesBuf wit).

Definition prlEncode (enc : MessageEncoding) (msg : MsgTx) : bytes :=
  let doWitness := bool_decide (enc = WitnessEncoding) && HasWitness msg in
  le_put 4 (u32 (tx_Version msg)) ++
  (if doWitness then [z2b TxFlagMarker; z2b WitnessFlag] else []) ++
  WriteVarIntBuf (u64 (zlen (tx_TxIn msg))) ++
  concat (map writeTxInBuf (tx_TxIn msg)) ++
  WriteVarIntBuf (u64 (zlen (tx_TxOut msg))) ++
  concat (map WriteTxOutBuf (tx_TxOut msg)) ++
  (if doWitness
   then concat (map (λ ti, writeTxWitnessBuf (Witness ti)) (tx_TxIn msg))
   else []) ++
  le_put 4 (tx_LockTime msg).

Definition PrlEncode (enc : MessageEncoding) (msg : MsgTx) : bytes := prlEncode enc msg.
Definition Serialize (msg : MsgTx) : bytes := PrlEncode WitnessEncoding msg.
Definition SerializeNoWitness (msg : MsgTx) : bytes := PrlEncode BaseEncoding msg.

(** ** Serialized sizes *)

Definition TxIn_SerializeSize (t : TxIn) : Z :=
  40 + VarIntSerializeSize (u64 (zlen (SignatureScript t))) + zlen (SignatureScript t).

Definition TxOut_SerializeSize (t : TxOut) : Z :=
  8 + VarIntSerializeSize (u64 (zlen (PkScript t))) + zlen (PkScript t).

Definition TxWitness_SerializeSize (t : TxWitness) : Z :=
  foldl (λ n witItem, n + VarIntSerializeSize (u64 (zlen witItem)) + zlen witItem)
    (VarIntSerializeSize (u64 (zlen t))) t.

Definition baseSize (msg : MsgTx) : Z :=
  let n := 8 + VarIntSerializeSize (u64 (zlen (tx_TxIn msg)))
             + VarIntSerializeSize (u64 (zlen (tx_TxOut msg))) in
  let n := foldl (λ n txIn, n + TxIn_SerializeSize txIn) n (tx_TxIn msg) in
  foldl (λ n txOut, n + TxOut_SerializeSize txOut) n (tx_TxOut msg).

Definition SerializeSize (msg : MsgTx) : Z :=
  let n := baseSize msg in
  if HasWitness msg then
    let n := n + 2 in
    foldl (λ n txin, n + TxWitness_SerializeSize (Witness txin)) n (tx_TxIn msg)
  else n.

Definition SerializeSizeStripped (msg : MsgTx) : Z := baseSize msg.

(** ** Decoding

    [s] is the number of bytes left in the script slab: each script is read
    into its front, and the slab then starts after it. *)
Definition readOutPointBuf : Reader OutPoint :=
  hash ← ReadFull HashSize;
  buf ← ReadFull 4;
  mret (mkOutPoint hash (le_get buf)).

Definition readScriptBuf (s : Z) : Reader bytes :=
  count ← ReadVarIntBuf;
  if maxWitnessItemSize <? count then st_fail (MessageError "readScript")
  else if s <? count then st_fail (MessageError "readScript")
  else ReadFull count.

Definition readTxInBuf (s : Z) : Reader TxIn :=
  op ← readOutPointBuf;
  script ← readScriptBuf s;
  buf ← ReadFull 4;
  mret (mkTxIn op script [] (le_get buf)).

Definition readTxOutBuf (s : Z) : Reader TxOut :=
  buf ← ReadFull 8;
  script ← readScriptBuf s;
  mret (mkTxOut (i64 (le_get buf)) script).

Definition ReadTxOut : Reader TxOut := readTxOutBuf scriptSlabSize.

Section loops.
Context {A : Type} (read : Z → Reader A) (used : A → Z).

(** [for i := 0; i < count; i++ { x = read(sbuf); sbuf = sbuf[len(x):] }] *)
Fixpoint read_loop (count : nat) (s : Z) : Reader (list A * Z) :=
  match count with
  | O => mret ([], s)
  | S count =>
      x ← read s;
      '(xs, s') ← read_loop count (s - used x);
      mret (x :: xs, s')
  end.
End loops.

Definition script_used (ti : TxIn) : Z := zlen (SignatureScript ti).
Definition pkscript_used (to : TxOut) : Z := zlen (PkScript to).

Definition set_Witness (ti : TxIn) (w : TxWitness) : TxIn :=
  mkTxIn (PreviousOutPoint ti) (SignatureScript ti) w (Sequence ti).
Definition set_SignatureScript (ti : TxIn) (s : bytes) : TxIn :=
  mkTxIn (PreviousOutPoint ti) s (Witness ti) (Sequence ti).
Definition set_PkScript (to : TxOut) (s : bytes) : TxOut := mkTxOut (Value to) s.

(** The witness stacks, one per input. *)
Fixpoint readWitnesses (ins : list TxIn) (s : Z) : Reader (list TxIn * Z) :=
  match ins with
  | [] => mret ([], s)
  | txin :: ins =>
      witCount ← ReadVarIntBuf;
      if maxWitnessItemsPerInput <? witCount
      then st_fail (MessageError "MsgTx.PrlDecode")
      else
        '(wit, s) ← read_loop readScriptBuf zlen (Z.to_nat witCount) s;
        '(ins, s) ← readWitnesses ins s;
        mret (set_Witness txin wit :: ins, s)
  end.

(** *** The single buffer that houses all the scripts

    [copy(scripts[offset:], src)] and the full slice expressions
    [scripts[offset:end:end]].  The slices alias the buffer, so their contents
    are those of the buffer once every copy has been made. *)
Definition copy_at (dst : bytes) (offset : Z) (src : bytes) : bytes :=
  let n := Z.min (zlen src) (zlen dst - offset) in
  take (Z.to_nat offset) dst ++ take (Z.to_nat n) src ++ drop (Z.to_nat (offset + n)) dst.

Fixpoint copy_scripts (srcs : list bytes) (offset : Z) (scripts : bytes)
    : bytes * list (Z * Z) :=
  match srcs with
  | [] => (scripts, [])
  | src :: srcs =>
      let scriptSize := zlen src in
      let stop := offset + scriptSize in
      let scripts := copy_at scripts offset src in
      let '(scripts, spans) := copy_scripts srcs stop scripts in
      (scripts, (offset, stop) :: spans)
  end.

Definition view (scripts : bytes) (span : Z * Z) : bytes :=
  take (Z.to_nat (span.2 - span.1)) (drop (Z.to_nat span.1) scripts).

(** The order of the copies: for each input its signature script and then its
    witness items, and after the inputs the output scripts. *)
Definition in_scripts (ti : TxIn) : list bytes := SignatureScript ti :: Witness ti.

Definition all_scripts (ins : list TxIn) (outs : list TxOut) : list bytes :=
  concat (map in_scripts ins) ++ map PkScript outs.

(** The running total the decoder keeps of the sizes of the scripts it reads. *)
Fixpoint total_size (srcs : list bytes) : Z :=
  match srcs with
  | [] => 0
  | src :: srcs => zlen src + total_size srcs
  end.

Definition nthv (vs : list bytes) (i : nat) : bytes := nth i vs [].

Fixpoint assign_ins (ins : list TxIn) (vs : list bytes) : list TxIn * list bytes :=
  match ins with
  | [] => ([], vs)
  | ti :: ins =>
      let n := length (Witness ti) in
      let ti' := mkTxIn (PreviousOutPoint ti) (nthv vs 0) (take n (drop 1 vs)) (Sequence ti) in
      let '(ins, vs) := assign_ins ins (drop (1 + n) vs) in
      (ti' :: ins, vs)
  end.

Fixpoint assign_outs (outs : list TxOut) (vs : list bytes) : list TxOut :=
  match outs with
  | [] => []
  | to :: outs => set_PkScript to (nthv vs 0) :: assign_outs outs (drop 1 vs)
  end.

Definition repack (totalScriptSize : Z) (ins : list TxIn) (outs : list TxOut)
    : list TxIn * list TxOut :=
  let scripts := replicate (Z.to_nat totalScriptSize) x00 in
  let '(scripts, spans) := copy_scripts (all_scripts ins outs) 0 scripts in
  let vs := map (view scripts) spans in
  let '(ins, vs) := assign_ins ins vs in
  (ins, assign_outs outs vs).

(** The optional flag field: a count of zero is the marker byte of a
    transaction with witness data.  Returns the flag and the input count. *)
Definition prlDecode_flag (enc : MessageEncoding) : Reader (Z * Z) :=
  count ← ReadVarIntBuf;
  if (count =? TxFlagMarker) && bool_decide (enc = WitnessEncoding) then
    flag ← ReadFull 1;
    let flag := le_get flag in
    if negb (flag =? WitnessFlag) then st_fail (MessageError "MsgTx.PrlDecode")
    else
      count ← ReadVarIntBuf;
      mret (flag, count)
  else mret (0, count).

(** The witness data, when the flag announced it. *)
Definition prlDecode_witness (enc : MessageEncoding) (flag : Z) (ins : list TxIn) (s : Z)
    : Reader (list TxIn) :=
  if negb (flag =? 0) && bool_decide (enc = WitnessEncoding) then
    '(ins, s) ← readWitnesses ins s;
    if negb (HasWitness (mkMsgTx 0 ins [] 0))
    then st_fail ErrSuperfluousWitnessRecord
    else mret ins
  else mret ins.

Definition prlDecode (enc : MessageEncoding) (sbuf : Z) : Reader MsgTx :=
  buf ← ReadFull 4;
  let version := i32 (le_get buf) in
  '(flag, count) ← prlDecode_flag enc;
  if maxTxInPerMessage <? count then st_fail (MessageError "MsgTx.PrlDecode")
  else
    '(ins, s) ← read_loop readTxInBuf script_used (Z.to_nat count) sbuf;
    count ← ReadVarIntBuf;
    if maxTxOutPerMessage <? count then st_fail (MessageError "MsgTx.PrlDecode")
    else
      '(outs, s) ← read_loop readTxOutBuf pkscript_used (Z.to_nat count) s;
      ins ← prlDecode_witness enc flag ins s;
      buf ← ReadFull 4;
      let lockTime := le_get buf in
      let totalScriptSize := total_size (all_scripts ins outs) in
      let '(ins, outs) := repack totalScriptSize ins outs in
      mret (mkMsgTx version ins outs lockTime).

Definition PrlDecode (enc : MessageEncoding) : Reader MsgTx := prlDecode enc scriptSlabSize.
Definition Deserialize : Reader MsgTx := PrlDecode WitnessEncoding.
Definition DeserializeNoWitness : Reader MsgTx := PrlDecode BaseEncoding.

(** ** The repacking keeps every script *)

Lemma zlen_take {A} (l : list A) n :
  0 <= n <= zlen l → zlen (take (Z.to_nat n) l) = n.
Proof. unfold zlen. rewrite length_take. lia. Qed.

Lemma zlen_drop {A} (l : list A) n :
  0 <= n <= zlen l → zlen (drop (Z.to_nat n) l) = zlen l - n.
Proof. unfold zlen. rewrite length_drop. lia. Qed.

Lemma take_zlen_app {A} (l k : list A) n : zlen l = n → take (Z.to_nat n) (l ++ k) = l.
Proof. intros <-. unfold zlen. by rewrite Nat2Z.id, take_app_length. Qed.

Lemma drop_zlen_app {A} (l k : list A) n : zlen l = n → drop (Z.to_nat n) (l ++ k) = k.
Proof. intros <-. unfold zlen. by rewrite Nat2Z.id, drop_app_length. Qed.

Lemma copy_at_spec dst offset src :
  0 <= offset → offset + zlen src <= zlen dst →
  copy_at dst offset src =
    take (Z.to_nat offset) dst ++ src ++ drop (Z.to_nat (offset + zlen src)) dst.
Proof.
  intros Ho Hl. unfold copy_at. rewrite Z.min_l by lia. f_equal. f_equal.
  unfold zlen. by rewrite Nat2Z.id, firstn_all.
Qed.

Lemma total_size_nonneg srcs : 0 <= total_size srcs.
Proof. induction srcs as [|s srcs IH]; cbn; [lia|]. pose proof (zlen_nonneg s). lia. Qed.

Lemma copy_scripts_spec srcs offset buf scripts spans :
  copy_scripts srcs offset buf = (scripts, spans) →
  0 <= offset → offset + total_size srcs <= zlen buf →
  take (Z.to_nat offset) scripts = take (Z.to_nat offset) buf ∧
  zlen scripts = zlen buf ∧ map (view scripts) spans = srcs.
Proof.
  revert offset buf scripts spans.
  induction srcs as [|src srcs IH]; intros offset buf scripts spans E Ho Hl; cbn in E.
  { by injection E as <- <-. }
  cbn in Hl. pose proof (zlen_nonneg src). pose proof (total_size_nonneg srcs).
  destruct (copy_scripts srcs _ _) as [scripts' spans'] eqn:E'. injection E as <- <-.
  rewrite copy_at_spec in E' by lia.
  set (buf' := take _ buf ++ src ++ _) in E'.
  assert (zlen buf' = zlen buf) as Hbuf'.
  { unfold buf'. rewrite !zlen_app, zlen_take, zlen_drop by lia. lia. }
  apply IH in E' as (Ht & Hz & Hv); [|lia|lia].
  assert (take (Z.to_nat (offset + zlen src)) buf' = take (Z.to_nat offset) buf ++ src) as Hb.
  { unfold buf'. rewrite (assoc_L (++)). apply take_zlen_app.
    rewrite zlen_app, zlen_take; lia. }
  rewrite Hb in Ht. split_and!.
  - transitivity (take (Z.to_nat offset) (take (Z.to_nat (offset + zlen src)) scripts')).
    { rewrite take_take. f_equal. lia. }
    rewrite Ht. apply take_zlen_app, zlen_take. lia.
  - lia.
  - cbn. f_equal; [|done]. unfold view; cbn [fst snd].
    rewrite take_drop_commute.
    replace (Z.to_nat offset + Z.to_nat (offset + zlen src - offset))%nat
      with (Z.to_nat (offset + zlen src)) by lia.
    rewrite Ht. apply drop_zlen_app, zlen_take. lia.
Qed.

Lemma assign_ins_id ins vs :
  assign_ins ins (concat (map in_scripts ins) ++ vs) = (ins, vs).
Proof.
  induction ins as [|ti ins IH]; [done|]. cbn [assign_ins map concat in_scripts app].
  unfold nthv. cbn [nth drop Nat.add]. rewrite <-(assoc_L (++)).
  rewrite drop_0, take_app_length, drop_app_length, IH. by destruct ti.
Qed.

Lemma assign_outs_id outs : assign_outs outs (map PkScript outs) = outs.
Proof.
  induction outs as [|to outs IH]; [done|]. cbn. unfold nthv. cbn.
  rewrite drop_0, IH. by destruct to.
Qed.

Lemma repack_id ins outs :
  repack (total_size (all_scripts ins outs)) ins outs = (ins, outs).
Proof.
  unfold repack. set (srcs := all_scripts ins outs).
  pose proof (total_size_nonneg srcs).
  destruct (copy_scripts srcs 0 _) as [scripts spans] eqn:E.
  apply copy_scripts_spec in E as (_ & _ & ->); [|lia|].
  - unfold srcs, all_scripts. by rewrite assign_ins_id, assign_outs_id.
  - unfold zlen. rewrite length_replicate. lia.
Qed.

(** ** Well-formed transactions

    The ranges of the Go field types and the limits the decoder enforces. *)
Definition wf_script (s : bytes) : Prop := zlen s <= maxWitnessItemSize.
Definition wf_OutPoint (op : OutPoint) : Prop :=
  zlen (op_Hash op) = HashSize ∧ is_u32 (op_Index op).
Definition wf_TxIn (ti : TxIn) : Prop :=
  wf_OutPoint (PreviousOutPoint ti) ∧ wf_script (SignatureScript ti) ∧
  is_u32 (Sequence ti).
Definition wf_TxOut (to : TxOut) : Prop := is_i64 (Value to) ∧ wf_script (PkScript to).
Definition wf_TxWitness (w : TxWitness) : Prop :=
  zlen w <= maxWitnessItemsPerInput ∧ Forall wf_script w.

Definition wf_MsgTx (tx : MsgTx) : Prop :=
  is_i32 (tx_Version tx) ∧ is_u32 (tx_LockTime tx) ∧
  Forall wf_TxIn (tx_TxIn tx) ∧ Forall (λ ti, wf_TxWitness (Witness ti)) (tx_TxIn tx) ∧
  Forall wf_TxOut (tx_TxOut tx) ∧
  zlen (tx_TxIn tx) <= maxTxInPerMessage ∧ zlen (tx_TxOut tx) <= maxTxOutPerMessage ∧
  total_size (all_scripts (tx_TxIn tx) (tx_TxOut tx)) <= scriptSlabSize.

Definition strip_TxIn (ti : TxIn) : TxIn := set_Witness ti [].
Definition strip (tx : MsgTx) : MsgTx :=
  mkMsgTx (tx_Version tx) (map strip_TxIn (tx_TxIn tx)) (tx_TxOut tx) (tx_LockTime tx).

Lemma go_len_script s : wf_script s → go_len s.
Proof. unfold wf_script, go_len, maxWitnessItemSize. lia. Qed.

(** *** Loops

    What one iteration reads back, the loop reads back; what one iteration
    accepts is an encoding, and so is what the loop accepts. *)
Section loop_lemmas.
Context {A : Type} (read : Z → Reader A) (used : A → Z) (enc : A → bytes) (wf : A → Prop).
Hypothesis used_nonneg : ∀ a, 0 <= used a.

Definition sum_used (l : list A) : Z := foldr (λ a n, used a + n) 0 l.

Lemma sum_used_cons a l : sum_used (a :: l) = used a + sum_used l.
Proof. done. Qed.

Lemma sum_used_nonneg l : 0 <= sum_used l.
Proof.
  induction l as [|a l IH]; [done|]. rewrite sum_used_cons. pose proof (used_nonneg a). lia.
Qed.

Lemma read_loop_decodes :
  (∀ s a rest, wf a → used a <= s → read s (enc a ++ rest) = Ok (a, rest)) →
  ∀ l s rest, Forall wf l → sum_used l <= s →
  read_loop read used (length l) s (concat (map enc l) ++ rest)
    = Ok ((l, s - sum_used l), rest).
Proof.
  intros Hread l. induction l as [|a l IH]; intros s rest Hwf Hs.
  { cbn. by rewrite Z.sub_0_r. }
  apply Forall_cons in Hwf as [Ha Hl]. rewrite sum_used_cons in *.
  pose proof (sum_used_nonneg l). cbn [length read_loop map concat].
  rewrite <-(assoc_L (++)).
  erewrite bind_decodes by (apply Hread; [done|lia]).
  erewrite bind_decodes by (apply IH; [done|lia]). by rewrite Z.sub_add_distr.
Qed.

Lemma read_loop_ok :
  (∀ s r a rest, read s r = Ok (a, rest) → r = enc a ++ rest ∧ wf a ∧ used a <= s) →
  ∀ n s s' r l rest, 0 <= s → read_loop read used n s r = Ok ((l, s'), rest) →
  r = concat (map enc l) ++ rest ∧ Forall wf l ∧ length l = n ∧
  s' = s - sum_used l ∧ 0 <= s'.
Proof.
  intros Hread n. induction n as [|n IH]; intros s s' r l rest Hs H.
  { injection H as <- <- <-. cbn. split_and!; auto with lia. }
  cbn [read_loop] in H. apply st_bind_ok in H as (a & r1 & (-> & Hwf & Hu)%Hread & H).
  apply st_bind_ok in H as ([l' s1] & r2 & H & [= <- <- <-]).
  apply IH in H as (-> & Hl & <- & -> & Hs'); [|lia].
  rewrite sum_used_cons. cbn [map concat length]. rewrite <-(assoc_L (++)).
  split_and!; [done|by constructor|done|lia|lia].
Qed.
End loop_lemmas.

Lemma sum_used_zlen srcs : sum_used zlen srcs = total_size srcs.
Proof. induction srcs as [|s srcs IH]; [done|]. cbn. by rewrite <-IH. Qed.

(** *** Fields *)

Lemma read_u32 v rest : is_u32 v → ReadFull 4 (le_put 4 v ++ rest) = Ok (le_put 4 v, rest).
Proof. intros. by apply ReadFull_app. Qed.

Lemma le_get_put_u32 v : is_u32 v → le_get (le_put 4 v) = v.
Proof. intros [??]. apply le_get_put_small. lia. Qed.

Lemma readOutPointBuf_decodes op rest :
  wf_OutPoint op → readOutPointBuf (writeOutPointBuf op ++ rest) = Ok (op, rest).
Proof.
  intros [Hh Hi]. unfold readOutPointBuf, writeOutPointBuf. rewrite <-(assoc_L (++)).
  erewrite bind_decodes by (by apply ReadFull_app).
  erewrite bind_decodes by (by apply read_u32).
  rewrite le_get_put_u32 by done. by destruct op.
Qed.

Lemma ReadFull_u32_ok r buf rest :
  ReadFull 4 r = Ok (buf, rest) → is_u32 (le_get buf) ∧ r = le_put 4 (le_get buf) ++ rest.
Proof.
  intros [-> Hl]%ReadFull_ok; [|lia].
  apply (le_get_width 4) in Hl as [Hb Hp]. by rewrite Hp.
Qed.

Lemma readOutPointBuf_ok r op rest :
  readOutPointBuf r = Ok (op, rest) → r = writeOutPointBuf op ++ rest ∧ wf_OutPoint op.
Proof.
  intros (h & r1 & [-> Hh]%ReadFull_ok & H)%st_bind_ok; [|done].
  apply st_bind_ok in H as (buf & r2 & [Hi ->]%ReadFull_u32_ok & [= <- <-]).
  unfold writeOutPointBuf. cbn. rewrite <-(assoc_L (++)). done.
Qed.

Lemma readScriptBuf_decodes s script rest :
  wf_script script → zlen script <= s →
  readScriptBuf s (WriteVarBytesBuf script ++ rest) = Ok (script, rest).
Proof.
  intros Hwf Hs. unfold readScriptBuf, WriteVarBytesBuf. cbv zeta.
  rewrite <-(assoc_L (++)), u64_zlen by (by apply go_len_script).
  erewrite bind_decodes by (by apply varint_decodes, go_len_u64, go_len_script).
  unfold wf_script in Hwf. rewrite !(proj2 (Z.ltb_ge _ _)) by lia. by apply ReadFull_app.
Qed.

Lemma readScriptBuf_ok s r script rest :
  readScriptBuf s r = Ok (script, rest) →
  r = WriteVarBytesBuf script ++ rest ∧ wf_script script ∧ zlen script <= s.
Proof.
  intros (c & r1 & [Hc ->]%ReadVarIntBuf_ok & H)%st_bind_ok.
  destruct (Z.ltb_spec maxWitnessItemSize c); [done|]. destruct (Z.ltb_spec s c); [done|].
  apply ReadFull_ok in H as [-> <-]; [|apply Hc].
  unfold WriteVarBytesBuf. cbv zeta. by rewrite <-(assoc_L (++)), u64_small.
Qed.

Lemma readTxInBuf_decodes s ti rest :
  wf_TxIn ti → script_used ti <= s →
  readTxInBuf s (writeTxInBuf ti ++ rest) = Ok (strip_TxIn ti, rest).
Proof.
  intros (Ho & Hs & Hq) Hu. unfold readTxInBuf, writeTxInBuf. rewrite <-!(assoc_L (++)).
  erewrite bind_decodes by (by apply readOutPointBuf_decodes).
  erewrite bind_decodes by (by apply readScriptBuf_decodes).
  erewrite bind_decodes by (by apply read_u32). by rewrite le_get_put_u32.
Qed.

Lemma readTxInBuf_ok s r ti rest :
  readTxInBuf s r = Ok (ti, rest) →
  r = writeTxInBuf ti ++ rest ∧ (wf_TxIn ti ∧ Witness ti = []) ∧ script_used ti <= s.
Proof.
  intros (op & r1 & [-> Hop]%readOutPointBuf_ok & H)%st_bind_ok.
  apply st_bind_ok in H as (scr & r2 & (-> & Hscr & Hs)%readScriptBuf_ok & H).
  apply st_bind_ok in H as (buf & r3 & [Hq ->]%ReadFull_u32_ok & [= <- <-]).
  unfold writeTxInBuf. cbn. by rewrite <-!(assoc_L (++)).
Qed.

Lemma readTxOutBuf_decodes s to rest :
  wf_TxOut to → pkscript_used to <= s →
  readTxOutBuf s (WriteTxOutBuf to ++ rest) = Ok (to, rest).
Proof.
  intros (Hv & Hs) Hu. unfold readTxOutBuf, WriteTxOutBuf. rewrite <-!(assoc_L (++)).
  erewrite bind_decodes by (by apply ReadFull_app).
  erewrite bind_decodes by (by apply readScriptBuf_decodes).
  rewrite le_get_put_small by (apply Z.mod_pos_bound; lia).
  rewrite i64_u64 by done. by destruct to.
Qed.

Lemma u64_i64 v : is_u64 v → u64 (i64 v) = v.
Proof.
  unfold is_u64, u64, i64. intros. pose proof (Z.mod_pos_bound (v + 2 ^ 63) (2 ^ 64) eq_refl).
  rewrite Zminus_mod_idemp_l. replace (v + 2 ^ 63 - 2 ^ 63) with v by lia.
  by apply Z.mod_small.
Qed.

Lemma readTxOutBuf_ok s r to rest :
  readTxOutBuf s r = Ok (to, rest) →
  r = WriteTxOutBuf to ++ rest ∧ wf_TxOut to ∧ pkscript_used to <= s.
Proof.
  intros (buf & r1 & [-> Hl]%ReadFull_ok & H)%st_bind_ok; [|done].
  apply st_bind_ok in H as (scr & r2 & (-> & Hscr & Hs)%readScriptBuf_ok & [= <- <-]).
  apply (le_get_width 8) in Hl as [Hb Hp].
  unfold WriteTxOutBuf, wf_TxOut. cbn [Value PkScript]. rewrite <-!(assoc_L (++)).
  rewrite u64_i64 by exact Hb. rewrite Hp. pose proof (i64_range (le_get buf)). done.
Qed.

(** *** Witness data *)

Definition witness_size (ins : list TxIn) : Z := total_size (concat (map Witness ins)).

Lemma total_size_app l k : total_size (l ++ k) = total_size l + total_size k.
Proof. induction l as [|s l IH]; cbn; lia. Qed.

Lemma total_all_scripts ins outs :
  total_size (all_scripts ins outs) =
    sum_used script_used ins + witness_size ins + sum_used pkscript_used outs.
Proof.
  unfold all_scripts, witness_size. rewrite total_size_app. f_equal.
  - induction ins as [|ti ins IH]; [done|].
    cbn [map concat]. rewrite !total_size_app, sum_used_cons, IH. cbn.
    unfold script_used. lia.
  - induction outs as [|to outs IH]; [done|]. cbn [map total_size]. by rewrite IH.
Qed.

Lemma witness_size_cons ti ins :
  witness_size (ti :: ins) = total_size (Witness ti) + witness_size ins.
Proof. unfold witness_size. cbn. apply total_size_app. Qed.

Lemma script_used_nonneg ti : 0 <= script_used ti.
Proof. apply zlen_nonneg. Qed.
Lemma pkscript_used_nonneg to : 0 <= pkscript_used to.
Proof. apply zlen_nonneg. Qed.

Lemma readWitnesses_decodes ins s rest :
  Forall (λ ti, wf_TxWitness (Witness ti)) ins → witness_size ins <= s →
  ∃ s', readWitnesses (map strip_TxIn ins) s
    (concat (map (λ ti, writeTxWitnessBuf (Witness ti)) ins) ++ rest) = Ok ((ins, s'), rest).
Proof.
  revert s. induction ins as [|ti ins IH]; intros s Hwf Hs; [by exists s|].
  apply Forall_cons in Hwf as [[Hc Hw] Hins]. rewrite witness_size_cons in Hs.
  pose proof (total_size_nonneg (concat (map Witness ins))).
  cbn [map concat readWitnesses]. unfold writeTxWitnessBuf. rewrite <-!(assoc_L (++)).
  assert (go_len (Witness ti)) by (unfold go_len, maxWitnessItemsPerInput in *; lia).
  destruct (IH (s - total_size (Witness ti)) Hins ltac:(lia)) as [s' E].
  exists s'. rewrite u64_zlen by done.
  erewrite bind_decodes by (by apply varint_decodes, go_len_u64).
  rewrite (proj2 (Z.ltb_ge _ _)) by lia.
  rewrite to_nat_zlen.
  erewrite bind_decodes.
  2:{ apply (read_loop_decodes _ _ _ wf_script); [intros; apply zlen_nonneg| |done|].
      - intros. by apply readScriptBuf_decodes.
      - rewrite sum_used_zlen. unfold witness_size in Hs. lia. }
  cbv beta iota. rewrite sum_used_zlen. erewrite bind_decodes by exact E.
  by destruct ti.
Qed.

Lemma readWitnesses_ok ins s r ins' s' rest :
  0 <= s → readWitnesses ins s r = Ok ((ins', s'), rest) →
  r = concat (map (λ ti, writeTxWitnessBuf (Witness ti)) ins') ++ rest ∧
  Forall (λ ti, wf_TxWitness (Witness ti)) ins' ∧
  map strip_TxIn ins' = map strip_TxIn ins ∧ witness_size ins' <= s.
Proof.
  revert s r ins' s'. induction ins as [|ti ins IH]; intros s r ins' s' Hs H.
  { by injection H as <- <- <-. }
  cbn [readWitnesses] in H.
  apply st_bind_ok in H as (c & r1 & [Hc ->]%ReadVarIntBuf_ok & H).
  destruct (Z.ltb_spec maxWitnessItemsPerInput c); [done|].
  apply st_bind_ok in H as ([wit s1] & r2 & H1 & H).
  apply (read_loop_ok _ _ WriteVarBytesBuf wf_script) in H1
    as (-> & Hw & Hlen & -> & Hs1);
    [|intros; by apply readScriptBuf_ok|done].
  apply st_bind_ok in H as ([ins1 s2] & r3 & H1 & [= <- <- <-]).
  apply IH in H1 as (-> & Hf & Hm & Hz); [|done]. rewrite sum_used_zlen in *.
  cbn [map concat]. rewrite witness_size_cons. unfold writeTxWitnessBuf. cbn.
  assert (zlen wit = c) as <- by (unfold zlen; unfold is_u64 in Hc; lia).
  rewrite <-!(assoc_L (++)), u64_small by done. split_and!; [done| |by f_equal|lia].
  constructor; [|done]. by split.
Qed.

(** *** The whole message *)

Definition doWitness (enc : MessageEncoding) (tx : MsgTx) : bool :=
  bool_decide (enc = WitnessEncoding) && HasWitness tx.

(** What an encoding carries of a transaction. *)
Definition carried (enc : MessageEncoding) (tx : MsgTx) : MsgTx :=
  if doWitness enc tx then tx else strip tx.

Lemma HasWitness_ext tx tx' :
  tx_TxIn tx = tx_TxIn tx' → HasWitness tx = HasWitness tx'.
Proof. unfold HasWitness. by intros ->. Qed.

Lemma strip_no_witness tx : HasWitness tx = false → strip tx = tx.
Proof.
  destruct tx as [v ins outs l]. unfold HasWitness, strip. cbn. intros H. f_equal.
  induction ins as [|ti ins IH]; [done|]. cbn in *.
  apply orb_false_iff in H as [H1 H2]. rewrite IH by done. f_equal.
  destruct ti as [op s w q]. cbn in *. by assert (w = []) as -> by (apply zlen_0; lia).
Qed.

Lemma HasWitness_strip tx : HasWitness (strip tx) = false.
Proof.
  unfold HasWitness, strip. cbn. induction (tx_TxIn tx) as [|ti ins IH]; [done|]. by cbn.
Qed.

Lemma strip_ins_id ins : Forall (λ ti, Witness ti = []) ins → map strip_TxIn ins = ins.
Proof. induction 1 as [|[] ? ? ? IH]; cbn in *; [done|]. subst. by rewrite IH. Qed.

Lemma sum_used_strip ins : sum_used script_used (map strip_TxIn ins) = sum_used script_used ins.
Proof. induction ins as [|ti ins IH]; [done|]. cbn [map]. by rewrite !sum_used_cons, IH. Qed.

Lemma writeTxInBuf_strip ins :
  concat (map writeTxInBuf (map strip_TxIn ins)) = concat (map writeTxInBuf ins).
Proof. by rewrite map_map. Qed.

Lemma prlDecode_flag_decodes enc tx rest :
  go_len (tx_TxIn tx) → (enc = WitnessEncoding → tx_TxIn tx ≠ []) →
  prlDecode_flag enc
    ((if doWitness enc tx then [z2b TxFlagMarker; z2b WitnessFlag] else []) ++
     WriteVarIntBuf (u64 (zlen (tx_TxIn tx))) ++ rest)
  = Ok ((if doWitness enc tx then WitnessFlag else 0, zlen (tx_TxIn tx)), rest).
Proof.
  intros Hl Hne. unfold prlDecode_flag. rewrite u64_zlen by done.
  destruct (doWitness enc tx) eqn:E.
  - apply andb_true_iff in E as [E%bool_decide_eq_true _]. subst.
    change ([z2b TxFlagMarker; z2b WitnessFlag] ++ WriteVarIntBuf (zlen (tx_TxIn tx)) ++ rest)
      with (WriteVarIntBuf 0 ++ [z2b WitnessFlag] ++ WriteVarIntBuf (zlen (tx_TxIn tx)) ++ rest).
    erewrite bind_decodes by (by apply varint_decodes).
    change ((0 =? TxFlagMarker) && _) with true. cbn match.
    erewrite bind_decodes by (by apply ReadFull_app).
    change (negb _) with false. cbn match.
    by erewrite bind_decodes by (by apply varint_decodes, go_len_u64).
  - cbn [app]. erewrite bind_decodes by (by apply varint_decodes, go_len_u64).
    assert ((zlen (tx_TxIn tx) =? TxFlagMarker) && bool_decide (enc = WitnessEncoding) = false)
      as ->; [|done].
    destruct (bool_decide_reflect (enc = WitnessEncoding)) as [He|]; [|apply andb_false_r].
    rewrite andb_true_r. apply Z.eqb_neq. intros ?%zlen_0. by apply Hne.
Qed.

Lemma prlDecode_witness_decodes enc tx s rest :
  Forall (λ ti, wf_TxWitness (Witness ti)) (tx_TxIn tx) → witness_size (tx_TxIn tx) <= s →
  prlDecode_witness enc (if doWitness enc tx then WitnessFlag else 0)
    (map strip_TxIn (tx_TxIn tx)) s
    ((if doWitness enc tx
      then concat (map (λ ti, writeTxWitnessBuf (Witness ti)) (tx_TxIn tx)) else []) ++ rest)
  = Ok (tx_TxIn (carried enc tx), rest).
Proof.
  intros Hwf Hs. unfold prlDecode_witness, carried. destruct (doWitness enc tx) eqn:E; [|done].
  apply andb_true_iff in E as [-> Hw]. cbn [negb andb Z.eqb WitnessFlag].
  destruct (readWitnesses_decodes _ _ rest Hwf Hs) as [s' Er].
  erewrite bind_decodes by exact Er. cbv beta iota.
  erewrite (HasWitness_ext (mkMsgTx 0 (tx_TxIn tx) [] 0) tx) by done. by rewrite Hw.
Qed.

Lemma wf_lens tx : wf_MsgTx tx → go_len (tx_TxIn tx) ∧ go_len (tx_TxOut tx).
Proof.
  intros (_ & _ & _ & _ & _ & Hi & Ho & _). unfold go_len.
  assert (maxTxInPerMessage < 2 ^ 63) by reflexivity.
  assert (maxTxOutPerMessage < 2 ^ 63) by reflexivity. lia.
Qed.

Lemma prlDecode_decodes enc tx rest :
  wf_MsgTx tx → (enc = WitnessEncoding → tx_TxIn tx ≠ []) →
  PrlDecode enc (PrlEncode enc tx ++ rest) = Ok (carried enc tx, rest).
Proof.
  intros Hwf Hne. destruct (wf_lens tx Hwf) as [Hli Hlo].
  destruct Hwf as (Hv & Hlt & Hins & Hwit & Houts & Hci & Hco & Htot).
  rewrite total_all_scripts in Htot.
  pose proof (sum_used_nonneg script_used script_used_nonneg (tx_TxIn tx)).
  pose proof (sum_used_nonneg pkscript_used pkscript_used_nonneg (tx_TxOut tx)).
  pose proof (total_size_nonneg (concat (map Witness (tx_TxIn tx)))).
  unfold witness_size in Htot.
  unfold PrlDecode, PrlEncode, prlDecode, prlEncode. cbv zeta.
  fold (doWitness enc tx). rewrite <-!(assoc_L (++)).
  erewrite bind_decodes by (by apply ReadFull_app).
  erewrite bind_decodes by (by apply prlDecode_flag_decodes). cbv beta iota.
  rewrite (proj2 (Z.ltb_ge _ _)) by done.
  rewrite <-writeTxInBuf_strip, to_nat_zlen, <-(length_map strip_TxIn).
  erewrite bind_decodes.
  2:{ apply (read_loop_decodes _ _ _ (λ ti, wf_TxIn ti ∧ Witness ti = []));
      [apply script_used_nonneg| | |].
      - intros s ti r [Hti He] Hs. rewrite readTxInBuf_decodes by done.
        destruct ti; cbn in *. by subst.
      - apply Forall_map. eapply Forall_impl; [exact Hins|]. by cbn.
      - rewrite sum_used_strip. lia. }
  cbv beta iota. rewrite sum_used_strip, u64_zlen by done.
  erewrite bind_decodes by (by apply varint_decodes, go_len_u64).
  rewrite (proj2 (Z.ltb_ge _ _)) by done. rewrite to_nat_zlen.
  erewrite bind_decodes.
  2:{ apply (read_loop_decodes _ _ _ wf_TxOut); [apply pkscript_used_nonneg| |done|lia].
      intros. by apply readTxOutBuf_decodes. }
  cbv beta iota.
  erewrite bind_decodes by (apply prlDecode_witness_decodes; [done|unfold witness_size; lia]).
  erewrite bind_decodes by (by apply read_u32).
  rewrite repack_id, (le_get_put_u32 (tx_LockTime tx)) by done.
  rewrite le_get_put_small by (apply Z.mod_pos_bound; lia). rewrite i32_u32 by done.
  unfold carried. destruct (doWitness enc tx); by destruct tx.
Qed.

Lemma prlDecode_flag_ok enc r flag count rest :
  prlDecode_flag enc r = Ok ((flag, count), rest) →
  is_u64 count ∧
  ((flag = 0 ∧ (enc = WitnessEncoding → count ≠ 0) ∧ r = WriteVarIntBuf count ++ rest) ∨
   (flag = WitnessFlag ∧ enc = WitnessEncoding ∧
    r = [z2b TxFlagMarker; z2b WitnessFlag] ++ WriteVarIntBuf count ++ rest)).
Proof.
  intros (c & r1 & [Hc ->]%ReadVarIntBuf_ok & H)%st_bind_ok.
  destruct (Z.eqb_spec c TxFlagMarker) as [->|Hne]; cbn [andb] in H.
  - destruct (bool_decide_reflect (enc = WitnessEncoding)) as [->|Hne].
    + apply st_bind_ok in H as (f & r2 & [-> Hf]%ReadFull_ok & H); [|done].
      apply zlen_1 in Hf as [b ->]. rewrite le_get_singleton in H. cbv zeta in H.
      destruct (Z.eqb_spec (b2z b) WitnessFlag) as [Hb|]; [|done]. cbn [negb] in H.
      apply st_bind_ok in H as (c & r3 & [Hc' ->]%ReadVarIntBuf_ok & [= <- <- <-]).
      split; [done|]. right. split_and!; [done|done|].
      rewrite (b2z_eq_z2b _ _ Hb). by cbn [app].
    + injection H as <- <- <-. split; [done|]. left. by split_and!.
  - injection H as <- <- <-. split; [done|]. left. by split_and!.
Qed.

Lemma prlDecode_witness_ok enc flag ins s r ins' rest :
  prlDecode_witness enc flag ins s r = Ok (ins', rest) → 0 <= s →
  Forall (λ ti, Witness ti = []) ins →
  map strip_TxIn ins' = ins ∧ Forall (λ ti, wf_TxWitness (Witness ti)) ins' ∧
  witness_size ins' <= s ∧
  let tx := mkMsgTx 0 ins' [] 0 in
  if negb (flag =? 0) && bool_decide (enc = WitnessEncoding)
  then HasWitness tx = true ∧
       r = concat (map (λ ti, writeTxWitnessBuf (Witness ti)) ins') ++ rest
  else HasWitness tx = false ∧ r = rest.
Proof.
  intros H Hs Hnil. unfold prlDecode_witness in H.
  destruct (negb (flag =? 0) && bool_decide (enc = WitnessEncoding)).
  - apply st_bind_ok in H as ([ins1 s1] & r1 & H1 & H).
    apply readWitnesses_ok in H1 as (-> & Hw & Hm & Hz); [|done].
    destruct (HasWitness _) eqn:Eh; [|done]. injection H as <- <-.
    rewrite (strip_ins_id ins) in Hm by done. by split_and!.
  - injection H as <- <-. rewrite strip_ins_id by done.
    assert (witness_size ins = 0) as ->.
    { unfold witness_size. induction Hnil as [|ti ? E ? IH]; [done|]. cbn. by rewrite E. }
    split_and!; [done| |done|split; [|done]].
    + eapply Forall_impl; [exact Hnil|]. intros ti ->. split; [by vm_compute|constructor].
    + rewrite <-(strip_ins_id ins Hnil). exact (HasWitness_strip (mkMsgTx 0 ins [] 0)).
Qed.

Lemma wf_strip_ins ins : Forall wf_TxIn (map strip_TxIn ins) ↔ Forall wf_TxIn ins.
Proof. by rewrite Forall_map. Qed.

Lemma prlDecode_ok enc r tx rest :
  PrlDecode enc r = Ok (tx, rest) →
  r = PrlEncode enc tx ++ rest ∧ wf_MsgTx tx ∧ carried enc tx = tx ∧
  (enc = WitnessEncoding → tx_TxIn tx ≠ []).
Proof.
  intros (vb & r0 & [-> Hvb]%ReadFull_ok & H)%st_bind_ok; [|done].
  apply (le_get_width 4) in Hvb as [Hvb Hvp]. cbv zeta in H.
  apply st_bind_ok in H as ([flag ci] & r1 & [Hci Hflag]%prlDecode_flag_ok & H).
  destruct (Z.ltb_spec maxTxInPerMessage ci) as [|Hci']; [done|].
  apply st_bind_ok in H as ([ins0 s1] & r2 & Hrd & H).
  apply (read_loop_ok _ _ writeTxInBuf (λ ti, wf_TxIn ti ∧ Witness ti = [])) in Hrd
    as (-> & Hins & Hli & -> & Hs1); [|apply readTxInBuf_ok|done].
  apply Forall_and in Hins as [Hins Hnil].
  apply st_bind_ok in H as (co & r3 & [Hco ->]%ReadVarIntBuf_ok & H).
  destruct (Z.ltb_spec maxTxOutPerMessage co) as [|Hco']; [done|].
  apply st_bind_ok in H as ([outs s2] & r4 & Hrd & H).
  apply (read_loop_ok _ _ WriteTxOutBuf wf_TxOut) in Hrd
    as (-> & Houts & Hlo & -> & Hs2); [|apply readTxOutBuf_ok|done].
  apply st_bind_ok in H as (ins & r5 & Hrd & H).
  apply prlDecode_witness_ok in Hrd as (Hstrip & Hwit & Hsz & Hcase); [|done|done].
  apply st_bind_ok in H as (lb & r6 & [Hlt ->]%ReadFull_u32_ok & H).
  rewrite repack_id in H. injection H as <- <-.
  rewrite <-Hstrip in *. rewrite length_map in Hli. rewrite sum_used_strip in *.
  assert (zlen ins = ci) as <- by (unfold zlen, is_u64 in *; lia).
  assert (zlen outs = co) as <- by (unfold zlen, is_u64 in *; lia).
  set (tx := mkMsgTx (i32 (le_get vb)) ins outs (le_get lb)).
  assert (wf_MsgTx tx) as Hwf.
  { unfold wf_MsgTx, tx. cbn [tx_Version tx_TxIn tx_TxOut tx_LockTime].
    rewrite total_all_scripts.
    rewrite wf_strip_ins in Hins. pose proof (i32_range (le_get vb)).
    split_and!; try done. lia. }
  cbv zeta in Hcase.
  rewrite (HasWitness_ext (mkMsgTx 0 ins [] 0) tx) in Hcase by done.
  assert (doWitness enc tx = negb (flag =? 0) && bool_decide (enc = WitnessEncoding)) as Hdo.
  { unfold doWitness. destruct Hflag as [(-> & _)|(-> & -> & _)]; cbn [negb Z.eqb andb] in *.
    - destruct Hcase as [-> _]. apply andb_false_r.
    - destruct Hcase as [-> _]. done. }
  split_and!; [|done| |].
  - unfold PrlEncode, prlEncode. cbv zeta. fold (doWitness enc tx). rewrite Hdo.
    unfold tx. cbn [tx_Version tx_TxIn tx_TxOut tx_LockTime].
    rewrite ?writeTxInBuf_strip in Hflag.
    assert (u32 (i32 (le_get vb)) = le_get vb) as ->.
    { unfold u32, i32. rewrite Zminus_mod_idemp_l.
      replace (le_get vb + 2 ^ 31 - 2 ^ 31) with (le_get vb) by lia. by apply Z.mod_small. }
    rewrite Hvp, !u64_small by done. rewrite <-!(assoc_L (++)). f_equal.
    destruct Hflag as [(-> & _ & ->)|(-> & -> & ->)]; cbn [negb Z.eqb andb] in *;
      destruct Hcase as [_ ->]; cbn [app]; rewrite <-?(assoc_L (++)); by cbn.
  - unfold carried. destruct (doWitness enc tx) eqn:E; [done|].
    apply strip_no_witness. rewrite <-Hdo in Hcase. apply Hcase.
  - intros -> Hnil'. cbn in Hnil'. subst ins.
    destruct Hflag as [(-> & Hz & _)|(-> & _ & _)]; [by apply Hz|].
    cbn in Hcase. by destruct Hcase.
Qed.

Lemma strip_carried tx : carried BaseEncoding tx = strip tx.
Proof. done. Qed.

(** ** Sizes *)

Lemma foldl_sum {A} (f : A → Z) l n : foldl (λ n a, n + f a) n l = n + foldr (λ a m, f a + m) 0 l.
Proof. revert n. induction l as [|a l IH]; intros n; cbn; [lia|]. rewrite IH. lia. Qed.

Lemma zlen_concat_map {A} (enc : A → bytes) (size : A → Z) l :
  Forall (λ a, zlen (enc a) = size a) l →
  zlen (concat (map enc l)) = foldr (λ a m, size a + m) 0 l.
Proof. induction 1 as [|a l Ha _ IH]; [done|]. cbn. by rewrite zlen_app, Ha, IH. Qed.

Lemma TxIn_size ti : wf_TxIn ti → zlen (writeTxInBuf ti) = TxIn_SerializeSize ti.
Proof.
  intros ([Hh _] & Hs & _). apply go_len_script in Hs.
  unfold writeTxInBuf, writeOutPointBuf, TxIn_SerializeSize.
  rewrite !zlen_app, WriteVarBytes_size, Hh, !zlen_le_put, u64_zlen by done.
  change HashSize with 32. lia.
Qed.

Lemma TxOut_size to : wf_TxOut to → zlen (WriteTxOutBuf to) = TxOut_SerializeSize to.
Proof.
  intros [_ Hs]. apply go_len_script in Hs. unfold WriteTxOutBuf, TxOut_SerializeSize.
  rewrite !zlen_app, WriteVarBytes_size, zlen_le_put, u64_zlen by done. lia.
Qed.

Lemma TxWitness_size w : wf_TxWitness w → zlen (writeTxWitnessBuf w) = TxWitness_SerializeSize w.
Proof.
  intros [Hl Hw]. assert (go_len w).
  { unfold go_len, maxWitnessItemsPerInput in *. lia. }
  unfold writeTxWitnessBuf, TxWitness_SerializeSize.
  rewrite zlen_app, !u64_zlen, WriteVarInt_size by (done || apply zlen_nonneg).
  rewrite (zlen_concat_map _ (λ s, VarIntSerializeSize (u64 (zlen s)) + zlen s)).
  - rewrite <-foldl_sum. generalize (VarIntSerializeSize (zlen w)). clear.
    induction w as [|s w IH]; intros n; [done|]. cbn. by rewrite <-IH, Z.add_assoc.
  - eapply Forall_impl; [exact Hw|]. intros s Hs%go_len_script. cbn.
    by rewrite WriteVarBytes_size, u64_zlen.
Qed.

Lemma baseSize_sums tx :
  baseSize tx = 8 + VarIntSerializeSize (u64 (zlen (tx_TxIn tx))) +
    VarIntSerializeSize (u64 (zlen (tx_TxOut tx))) +
    foldr (λ ti m, TxIn_SerializeSize ti + m) 0 (tx_TxIn tx) +
    foldr (λ to m, TxOut_SerializeSize to + m) 0 (tx_TxOut tx).
Proof. unfold baseSize. cbv zeta. by rewrite !foldl_sum. Qed.

Lemma prlEncode_size enc tx :
  wf_MsgTx tx →
  zlen (prlEncode enc tx) = if doWitness enc tx then SerializeSize tx else baseSize tx.
Proof.
  intros Hwf. destruct (wf_lens tx Hwf) as [Hli Hlo].
  destruct Hwf as (_ & _ & Hins & Hwit & Houts & _).
  unfold prlEncode. cbv zeta. fold (doWitness enc tx).
  rewrite !zlen_app, !zlen_le_put, !u64_zlen, !WriteVarInt_size by (done || apply zlen_nonneg).
  rewrite (zlen_concat_map _ TxIn_SerializeSize), (zlen_concat_map _ TxOut_SerializeSize)
    by (eauto using Forall_impl, TxIn_size, TxOut_size).
  unfold SerializeSize. cbv zeta. rewrite baseSize_sums, !u64_zlen by done.
  destruct (doWitness enc tx) eqn:E; [|rewrite !zlen_nil; lia].
  apply andb_true_iff in E as [_ ->].
  rewrite (zlen_concat_map _ (λ ti, TxWitness_SerializeSize (Witness ti)))
    by (eapply Forall_impl; [exact Hwit|]; cbn; auto using TxWitness_size).
  rewrite foldl_sum. change (zlen [_; _]) with 2. lia.
Qed.

(** ** Properties *)

(** C37 the witness encoding is a codec: [Deserialize] accepts exactly the
    outputs of [Serialize] on the transactions within the protocol limits that
    spend at least one output (an empty input list reads as the witness
    marker), and returns that transaction with the remaining input.  So no two
    byte strings decode to one transaction and repacking all scripts into one
    buffer changes none of them. *)
Theorem Deserialize_spec r tx rest :
  Deserialize r = Ok (tx, rest) ↔
  r = Serialize tx ++ rest ∧ wf_MsgTx tx ∧ tx_TxIn tx ≠ [].
Proof.
  split.
  - intros (-> & Hwf & _ & Hne)%prlDecode_ok. by auto.
  - intros (-> & Hwf & Hne). unfold Deserialize, Serialize.
    rewrite prlDecode_decodes by done. unfold carried.
    destruct (doWitness WitnessEncoding tx) eqn:E; [done|].
    by rewrite (strip_no_witness _ E).
Qed.

(** The encoding without witnesses reads back as the transaction without
    its witnesses, for the same limits, and is what the transaction id is
    computed from: two transactions with the same stripped encoding differ in
    their witnesses only. *)
Theorem SerializeNoWitness_roundtrip tx tx' :
  wf_MsgTx tx → wf_MsgTx tx' →
  (∀ rest, DeserializeNoWitness (SerializeNoWitness tx ++ rest) = Ok (strip tx, rest)) ∧
  (SerializeNoWitness tx = SerializeNoWitness tx' ↔ strip tx = strip tx').
Proof.
  intros Hwf Hwf'.
  assert (∀ t rest, wf_MsgTx t →
    DeserializeNoWitness (SerializeNoWitness t ++ rest) = Ok (strip t, rest)) as Hd.
  { intros. by apply (prlDecode_decodes BaseEncoding). }
  split; [by intros; apply Hd|]. split; intros Heq.
  - pose proof (Hd tx [] Hwf) as H1. rewrite Heq, (Hd tx' [] Hwf') in H1. congruence.
  - assert (∀ t, SerializeNoWitness t = SerializeNoWitness (strip t)) as Hs.
    { intros t. unfold SerializeNoWitness, PrlEncode, prlEncode. cbv zeta.
      cbn [bool_decide decide decide_rel andb]. unfold strip.
      cbn [tx_TxIn tx_TxOut tx_Version tx_LockTime].
      rewrite writeTxInBuf_strip. unfold zlen. by rewrite length_map. }
    by rewrite (Hs tx), (Hs tx'), Heq.
Qed.

(** The size functions: [SerializeSize] and [SerializeSizeStripped] are the
    lengths of what [Serialize] and [SerializeNoWitness] write. *)
Theorem SerializeSize_correct tx :
  wf_MsgTx tx →
  zlen (Serialize tx) = SerializeSize tx ∧
  zlen (SerializeNoWitness tx) = SerializeSizeStripped tx.
Proof.
  intros Hwf. unfold Serialize, SerializeNoWitness, PrlEncode.
  rewrite !prlEncode_size by done. split; [|done]. unfold SerializeSize. cbv zeta.
  unfold doWitness. cbn [bool_decide decide]. by destruct (HasWitness tx).
Qed.

(** A two-input transaction with a witness on its second input. *)
Definition demo_tx : MsgTx :=
  mkMsgTx 2
    [mkTxIn (mkOutPoint (repeat x11 32) 0) [x51] [] MaxTxInSequenceNum;
     mkTxIn (mkOutPoint (repeat x22 32) 7) [] [[x01; x02]; []] 5]
    [mkTxOut 5000 [x6a]; mkTxOut (-1) []] 99.

Lemma demo_tx_wf : wf_MsgTx demo_tx.
Proof.
  unfold wf_MsgTx, wf_TxIn, wf_TxOut, wf_TxWitness, wf_OutPoint, wf_script, demo_tx.
  cbn [tx_Version tx_TxIn tx_TxOut tx_LockTime].
  split_and!; repeat constructor; vm_compute; congruence.
Qed.

Lemma Deserialize_spec_witness :
  Deserialize (Serialize demo_tx ++ [xff]) = Ok (demo_tx, [xff]) ∧ HasWitness demo_tx = true.
Proof.
  split; [|reflexivity].
  apply Deserialize_spec. split; [done|]. split; [apply demo_tx_wf|done].
Defined.

Lemma SerializeNoWitness_roundtrip_witness :
  DeserializeNoWitness (SerializeNoWitness demo_tx ++ []) = Ok (strip demo_tx, []).
Proof. apply (SerializeNoWitness_roundtrip demo_tx demo_tx); apply demo_tx_wf. Defined.

Lemma SerializeSize_correct_witness : zlen (Serialize demo_tx) = SerializeSize demo_tx.
Proof. apply (SerializeSize_correct demo_tx), demo_tx_wf. Defined.
