(* ===== verification/ScriptError.v ===== *)
(** * Script errors ([node/txscript/error.go])

    The error codes of the script engine, in the order of the source.  An
    [Error] value carries a code and a description; the description is only for
    humans and is left out.  Errors the script package passes through from
    other packages, or makes with [fmt.Errorf], have no code. *)
From stdpp Require Import strings.
From S2P Require Import Prelude.

Inductive ErrorCode :=
  | ErrInternal | ErrInvalidFlags | ErrInvalidIndex | ErrUnsupportedAddress
  | ErrTooMuchNullData | ErrUnsupportedScriptVersion | ErrEarlyReturn | ErrEmptyStack
  | ErrEvalFalse | ErrScriptUnfinished | ErrInvalidProgramCounter | ErrScriptTooBig
  | ErrElementTooBig | ErrTooManyOperations | ErrStackOverflow | ErrNumberTooBig
  | ErrVerify | ErrEqualVerify | ErrNumEqualVerify | ErrCheckSigVerify
  | ErrCheckMultiSigVerify | ErrDisabledOpcode | ErrReservedOpcode | ErrMalformedPush
  | ErrInvalidStackOperation | ErrUnbalancedConditional | ErrMinimalData
  | ErrInvalidSigHashType | ErrSigTooShort | ErrSigTooLong | ErrSigInvalidSeqID
  | ErrSigInvalidDataLen | ErrSigMissingSTypeID | ErrSigMissingSLen | ErrSigInvalidSLen
  | ErrSigInvalidRIntID | ErrSigZeroRLen | ErrSigNegativeR | ErrSigTooMuchRPadding
  | ErrSigInvalidSIntID | ErrSigZeroSLen | ErrSigNegativeS | ErrSigTooMuchSPadding
  | ErrSigHighS | ErrNotPushOnly | ErrSigNullDummy | ErrPubKeyType | ErrCleanStack
  | ErrNullFail | ErrWitnessMalleated | ErrWitnessMalleatedP2SH
  | ErrDiscourageUpgradableNOPs | ErrNegativeLockTime | ErrUnsatisfiedLockTime
  | ErrMinimalIf | ErrDiscourageUpgradableWitnessProgram | ErrWitnessProgramEmpty
  | ErrWitnessProgramMismatch | ErrWitnessProgramWrongLength | ErrWitnessUnexpected
  | ErrWitnessPubKeyType | ErrDiscourageOpSuccess
  | ErrDiscourageUpgradeableTaprootVersion | ErrTapscriptCheckMultisig
  | ErrDiscourageUpgradeablePubKeyType | ErrTaprootSigInvalid
  | ErrTaprootMerkleProofInvalid | ErrTaprootOutputKeyParityMismatch
  | ErrControlBlockTooSmall | ErrControlBlockTooLarge | ErrControlBlockInvalidLength
  | ErrWitnessHasNoAnnex | ErrInvalidTaprootSigLen | ErrTaprootPubkeyIsEmpty
  | ErrTaprootMaxSigOps | ErrNonConstScriptCode | ErrCodeSeparator
  | ErrMerkleRootNoKeyPathSpend | ErrMerkleRootMerkleProofInvalid
  | ErrMerkleRootControlBlockInvalidParity.

Inductive ScriptErr :=
| scriptError (c : ErrorCode)
| otherError (what : string).

#[global] Instance ErrorCode_eq_dec : EqDecision ErrorCode.
Proof. solve_decision. Defined.
#[global] Instance ScriptErr_eq_dec : EqDecision ScriptErr.
Proof. solve_decision. Defined.

Definition IsErrorCode (err : ScriptErr) (c : ErrorCode) : bool :=
  match err with
  | scriptError c' => bool_decide (c' = c)
  | otherError _ => false
  end.
