(* ===== verification/ScriptNum.v ===== *)
(** * Script numbers ([node/txscript/scriptnum.go])

    A [scriptNum] is an [int64]; its serialized form is a little-endian
    magnitude with a sign bit in the last byte. *)
From stdpp Require Import strings.
From Stdlib Require Import Lia ZArith.
From S2P Require Import Prelude Wire ScriptError.

Definition maxInt32 : Z := Z.shiftl 1 31 - 1.
Definition minInt32 : Z := - Z.shiftl 1 31.
Definition maxScriptNumLen : Z := 4.
Definition cltvMaxScriptNumLen : Z := 5.

Abbreviation scriptNum := Z.

Definition checkMinimalDataEncoding (v : bytes) : result ScriptErr unit :=
  if zlen v =? 0 then Ok ()
  else
    msb ← go_index v (zlen v - 1);
    if Z.land (b2z msb) 0x7f =? 0 then
      if zlen v =? 1 then Fail (scriptError ErrMinimalData)
      else
        snd ← go_index v (zlen v - 2);
        if Z.land (b2z snd) 0x80 =? 0 then Fail (scriptError ErrMinimalData) else Ok ()
    else Ok ().

(** [for n > 0 { result = append(result, byte(n&0xff)); n >>= 8 }]: eight
    rounds exhaust an [int64]. *)
Fixpoint Bytes_loop (fuel : nat) (n : Z) : bytes :=
  match fuel with
  | O => []
  | S fuel =>
      if 0 <? n then z2b (Z.land n 0xff) :: Bytes_loop fuel (Z.shiftr n 8) else []
  end.

Definition Bytes (n : scriptNum) : result ScriptErr bytes :=
  if n =? 0 then Ok []
  else
    let isNegative := n <? 0 in
    let n := if isNegative then i64 (- n) else n in
    let res := Bytes_loop 8 n in
    msb ← go_index res (zlen res - 1);
    if negb (Z.land (b2z msb) 0x80 =? 0) then
      Ok (res ++ [if isNegative then z2b 0x80 else z2b 0x00])
    else if isNegative then
      Ok (<[Z.to_nat (zlen res - 1) := z2b (Z.lor (b2z msb) 0x80)]> res)
    else Ok res.

Definition Int32 (n : scriptNum) : Z :=
  if maxInt32 <? n then maxInt32
  else if n <? minInt32 then minInt32
  else n.

(** [result |= int64(val) << uint8(8*i)] over the bytes of [v]. *)
Fixpoint MakeScriptNum_loop (i : Z) (v : bytes) (res : Z) : Z :=
  match v with
  | [] => res
  | val :: v =>
      MakeScriptNum_loop (i + 1) v (Z.lor res (i64 (Z.shiftl (b2z val) (u8 (8 * i)))))
  end.

Definition MakeScriptNum (v : bytes) (requireMinimal : bool) (scriptNumLen : Z)
    : result ScriptErr scriptNum :=
  if scriptNumLen <? zlen v then Fail (scriptError ErrNumberTooBig)
  else
    _ ← (if requireMinimal then checkMinimalDataEncoding v else Ok ());
    if zlen v =? 0 then Ok 0
    else
      let res := MakeScriptNum_loop 0 v 0 in
      msb ← go_index v (zlen v - 1);
      if negb (Z.land (b2z msb) 0x80 =? 0) then
        let res := Z.land res (Z.lnot (i64 (Z.shiftl 0x80 (u8 (8 * (zlen v - 1)))))) in
        Ok (i64 (- res))
      else Ok res.

(** ** Meaning

    [num_value v] is the number a byte string denotes: the little-endian
    magnitude of its bits but the top one, which is the sign. *)
Definition num_value (v : bytes) : Z :=
  let m := le_get v in
  let half := 2 ^ (8 * zlen v - 1) in
  if m <? half then m else - (m - half).

(** Shortest representations: the top seven bits of the last byte are needed. *)
Definition minimal (v : bytes) : Prop :=
  v = [] ∨ ∃ lo b, v = lo ++ [b] ∧
    (b2z b mod 128 ≠ 0 ∨ ∃ lo' c, lo = lo' ++ [c] ∧ 128 <= b2z c).

(** ** Bits of a byte *)

Lemma land_7f b : Z.land (b2z b) 0x7f = b2z b mod 128.
Proof. by destruct b. Qed.
Lemma land_80 b : (Z.land (b2z b) 0x80 =? 0) = (b2z b <? 128).
Proof. by destruct b. Qed.
Lemma lor_80 b : b2z b < 128 → Z.lor (b2z b) 0x80 = b2z b + 128.
Proof. by destruct b. Qed.

Lemma lor_shiftl a b n : 0 <= n → 0 <= a < 2 ^ n → Z.lor a (Z.shiftl b n) = a + b * 2 ^ n.
Proof.
  intros Hn Ha. rewrite <-Z.add_nocarry_lor; [by rewrite Z.shiftl_mul_pow2|].
  apply Z.bits_inj'. intros i Hi. rewrite Z.land_spec, Z.bits_0, Z.shiftl_spec by done.
  destruct (decide (i < n)).
  - rewrite (Z.testbit_neg_r b) by lia. apply andb_false_r.
  - rewrite <-(Z.mod_small a (2 ^ n)), Z.mod_pow2_bits_high by lia. done.
Qed.

Lemma clear_top r k : 0 <= k → 2 ^ k <= r < 2 * 2 ^ k → Z.land r (Z.lnot (2 ^ k)) = r - 2 ^ k.
Proof.
  intros Hk Hr. destruct (Z.le_exists_sub (2 ^ k) r) as (m & -> & Hm); [lia|].
  replace (m + 2 ^ k - 2 ^ k) with m by lia.
  replace (m + 2 ^ k) with (Z.lor m (Z.shiftl 1 k)) by (rewrite lor_shiftl; lia).
  rewrite Z.land_lor_distr_l, Z.shiftl_1_l, Z.land_lnot_diag, Z.lor_0_r, <-Z.ldiff_land.
  apply Z.bits_inj'. intros i Hi. rewrite Z.ldiff_spec, Z.pow2_bits_eqb by done.
  destruct (Z.eqb_spec k i) as [<-|]; [|by rewrite andb_true_r].
  rewrite andb_false_r, <-(Z.mod_small m (2 ^ k)), Z.mod_pow2_bits_high by lia. done.
Qed.

(** ** The parts of a serialized number *)

Lemma pow_half (lo : bytes) b : 2 ^ (8 * zlen (lo ++ [b]) - 1) = 128 * 256 ^ zlen lo.
Proof.
  rewrite !zlen_snoc. pose proof (zlen_nonneg lo).
  replace (8 * _ - 1) with (7 + 8 * zlen lo) by lia.
  by rewrite Z.pow_add_r, (Z.pow_mul_r 2 8) by lia.
Qed.

Lemma pow256_zlen (lo : bytes) : 0 < 256 ^ zlen lo.
Proof. apply pow256_pos. Qed.

Lemma le_get_zlen lo : 0 <= le_get lo < 256 ^ zlen lo.
Proof. apply le_get_bound. Qed.

Lemma le_get_snoc lo b : le_get (lo ++ [b]) = le_get lo + 256 ^ zlen lo * b2z b.
Proof. rewrite le_get_app. cbn. unfold zlen. lia. Qed.

Lemma num_value_snoc lo b :
  num_value (lo ++ [b]) =
  if b2z b <? 128 then le_get lo + 256 ^ zlen lo * b2z b
  else - (le_get lo + 256 ^ zlen lo * (b2z b - 128)).
Proof.
  unfold num_value. rewrite pow_half, le_get_snoc. cbv zeta.
  pose proof (le_get_zlen lo).
  destruct (Z.ltb_spec (b2z b) 128).
  - rewrite (proj2 (Z.ltb_lt _ _)); [done|nia].
  - rewrite (proj2 (Z.ltb_ge _ _)); [lia|nia].
Qed.

Lemma num_value_range v : v ≠ [] → Z.abs (num_value v) < 2 ^ (8 * zlen v - 1).
Proof.
  destruct v as [|b lo _] using rev_ind; [done|]. intros _.
  rewrite num_value_snoc, pow_half. pose proof (le_get_zlen lo). pose proof (b2z_range b).
  destruct (Z.ltb_spec (b2z b) 128); nia.
Qed.

(** The sign put on a magnitude [lo ++ [b]], as [Bytes] does. *)
Definition sign_extend (neg : bool) (lo : bytes) (b : byte) : bytes :=
  if b2z b <? 128 then lo ++ [z2b (b2z b + if neg then 128 else 0)]
  else (lo ++ [b]) ++ [z2b (if neg then 128 else 0)].

Lemma sign_extend_value neg lo b :
  num_value (sign_extend neg lo b) =
  if neg then - le_get (lo ++ [b]) else le_get (lo ++ [b]).
Proof.
  unfold sign_extend. pose proof (b2z_range b).
  destruct (Z.ltb_spec (b2z b) 128); rewrite num_value_snoc, b2z_z2b_small, ?le_get_snoc
    by (destruct neg; lia).
  - destruct neg; [rewrite (proj2 (Z.ltb_ge _ _)) by lia|rewrite (proj2 (Z.ltb_lt _ _)) by lia]; lia.
  - destruct neg; cbn [Z.ltb Z.compare Pos.compare Pos.compare_cont]; lia.
Qed.

Lemma sign_extend_minimal neg lo b : 0 < b2z b → minimal (sign_extend neg lo b).
Proof.
  intros Hb. unfold sign_extend. right.
  destruct (Z.ltb_spec (b2z b) 128).
  - eexists _, _. split; [done|]. left.
    rewrite b2z_z2b_small by (destruct neg; lia).
    destruct neg; [rewrite <-(Z.mul_1_l 128) at 1; rewrite Z.mod_add by lia|rewrite Z.add_0_r];
      rewrite Z.mod_small; lia.
  - eexists _, _. split; [done|]. right. eauto.
Qed.

Lemma minimal_sign_extend v :
  minimal v → v ≠ [] → ∃ neg lo b, 0 < b2z b ∧ v = sign_extend neg lo b.
Proof.
  intros [->|(lo & b & -> & Hb)] Hne; [done|]. pose proof (b2z_range b).
  unfold sign_extend. exists (negb (b2z b <? 128)).
  destruct (decide (b2z b mod 128 = 0)) as [E|E].
  - destruct Hb as [|(lo' & c & -> & Hc)]; [done|]. exists lo', c. split; [lia|].
    rewrite (proj2 (Z.ltb_ge _ _)) by done. f_equal. f_equal.
    destruct (Z.ltb_spec (b2z b) 128); cbn [negb].
    + rewrite Z.mod_small in E by lia. by apply b2z_inj.
    + apply b2z_inj. rewrite b2z_z2b_small by lia.
      rewrite (Z.mod_eq _ 128) in E by lia.
      assert (b2z b / 128 < 2) by (apply Z.div_lt_upper_bound; lia). lia.
  - exists lo, (z2b (b2z b mod 128)).
    pose proof (Z.mod_pos_bound (b2z b) 128 eq_refl).
    rewrite b2z_z2b_small by lia. split; [lia|].
    rewrite (proj2 (Z.ltb_lt _ _)) by lia. f_equal. f_equal.
    apply b2z_inj. destruct (Z.ltb_spec (b2z b) 128); cbn [negb].
    + rewrite Z.add_0_r, (Z.mod_small (b2z b) 128) by lia. by rewrite b2z_z2b_small.
    + rewrite <-(Z.mod_add _ (-1)) by lia. rewrite Z.mod_small, b2z_z2b_small by lia. lia.
Qed.

(** ** What the operations compute *)

Lemma go_index_last {E} lo (b : byte) : go_index (E:=E) (lo ++ [b]) (zlen (lo ++ [b]) - 1) = Ok b.
Proof.
  apply go_index_ok. rewrite !zlen_snoc. pose proof (zlen_nonneg lo).
  split; [lia|]. apply list_lookup_middle. unfold zlen. lia.
Qed.

Lemma zlen_snoc_0 (lo : bytes) b : (zlen (lo ++ [b]) =? 0) = false.
Proof. apply Z.eqb_neq. rewrite !zlen_snoc. pose proof (zlen_nonneg lo). lia. Qed.

Lemma go_index_last2 {E} lo (c b : byte) :
  go_index (E:=E) ((lo ++ [c]) ++ [b]) (zlen ((lo ++ [c]) ++ [b]) - 2) = Ok c.
Proof.
  apply go_index_ok. rewrite !zlen_snoc. pose proof (zlen_nonneg lo).
  split; [lia|]. rewrite <-(assoc_L (++)). apply list_lookup_middle. unfold zlen. lia.
Qed.

Lemma checkMinimalDataEncoding_spec v :
  (checkMinimalDataEncoding v = Ok () ∧ minimal v) ∨
  (checkMinimalDataEncoding v = Fail (scriptError ErrMinimalData) ∧ ¬ minimal v).
Proof.
  unfold checkMinimalDataEncoding.
  destruct v as [|b lo _] using rev_ind; [left; split; [done|by left]|].
  rewrite zlen_snoc_0, go_index_last. cbn [mbind result_bind]. rewrite land_7f.
  destruct (Z.eqb_spec (b2z b mod 128) 0) as [E|E].
  2:{ left. split; [done|]. right. eauto. }
  destruct lo as [|c lo _] using rev_ind.
  - right. split; [done|]. intros [?|(l & b' & Hl & H)]; [done|].
    apply (app_inj_tail []) in Hl as [<- <-]. destruct H as [?|(l & c & Hl & _)]; [done|].
    by destruct l.
  - rewrite (proj2 (Z.eqb_neq _ 1)).
    2:{ rewrite !zlen_snoc. pose proof (zlen_nonneg lo). lia. }
    rewrite go_index_last2. cbn [mbind result_bind]. rewrite land_80.
    destruct (Z.ltb_spec (b2z c) 128).
    + right. split; [done|].
      intros [Hl|(l & b' & Hl & H')]; [by apply app_eq_nil in Hl as []|].
      apply app_inj_tail in Hl as [<- <-]. destruct H' as [?|(l & c' & Hl & ?)]; [done|].
      apply app_inj_tail in Hl as [<- <-]. lia.
    + left. split; [done|]. right. eauto 10.
Qed.

Lemma MakeScriptNum_loop_spec v i res :
  0 <= i → i + zlen v <= 7 → 0 <= res < 256 ^ i →
  MakeScriptNum_loop i v res = res + 256 ^ i * le_get v.
Proof.
  revert i res. induction v as [|b v IH]; intros i res Hi Hlen Hres; cbn [MakeScriptNum_loop le_get].
  - lia.
  - rewrite zlen_cons in Hlen. pose proof (zlen_nonneg v). pose proof (b2z_range b).
    rewrite u8_small by lia.
    assert (256 ^ i = 2 ^ (8 * i)) as Hpow by (by rewrite Z.pow_mul_r by lia).
    assert (2 ^ (8 * i) <= 2 ^ 48) by (apply Z.pow_le_mono_r; lia).
    rewrite i64_small.
    2:{ rewrite Z.shiftl_mul_pow2 by lia. unfold is_i64. nia. }
    rewrite lor_shiftl by lia. rewrite <-Hpow.
    rewrite IH; rewrite ?Z.pow_add_r by lia; nia.
Qed.

Lemma MakeScriptNum_value v scriptNumLen :
  zlen v <= scriptNumLen → scriptNumLen <= 7 →
  MakeScriptNum v false scriptNumLen = Ok (num_value v).
Proof.
  intros Hlen Hmax. unfold MakeScriptNum. rewrite (proj2 (Z.ltb_ge _ _)) by done.
  cbn [mbind result_bind]. destruct v as [|b lo _] using rev_ind; [done|].
  rewrite zlen_snoc_0, go_index_last. cbn [mbind result_bind]. rewrite land_80.
  rewrite MakeScriptNum_loop_spec by (rewrite ?Z.pow_0_r; lia). rewrite num_value_snoc.
  rewrite Z.pow_0_r, Z.mul_1_l, Z.add_0_l, le_get_snoc.
  destruct (Z.ltb_spec (b2z b) 128); cbn [negb]; [done|].
  rewrite zlen_snoc in *. pose proof (zlen_nonneg lo).
  replace (zlen lo + 1 - 1) with (zlen lo) by lia.
  pose proof (le_get_zlen lo). pose proof (b2z_range b).
  assert (256 ^ zlen lo = 2 ^ (8 * zlen lo)) as Hpow by (by rewrite Z.pow_mul_r by lia).
  assert (2 ^ (8 * zlen lo) <= 2 ^ 48) by (apply Z.pow_le_mono_r; lia).
  rewrite u8_small by lia.
  assert (Z.shiftl 0x80 (8 * zlen lo) = 2 ^ (7 + 8 * zlen lo)) as ->.
  { rewrite Z.shiftl_mul_pow2, Z.pow_add_r by lia. done. }
  assert (2 ^ (7 + 8 * zlen lo) = 128 * 256 ^ zlen lo) as Hp7.
  { rewrite Z.pow_add_r by lia. lia. }
  assert (256 ^ zlen lo <= 2 ^ 48) by lia. clear Hpow.
  rewrite (i64_small (2 ^ _)) by (rewrite Hp7; unfold is_i64; lia).
  rewrite clear_top by nia. rewrite Hp7, i64_small; [f_equal; lia|unfold is_i64; nia].
Qed.

Lemma Bytes_loop_spec fuel n :
  0 <= n < 256 ^ Z.of_nat fuel →
  le_get (Bytes_loop fuel n) = n ∧
  (0 < n → ∃ lo b, Bytes_loop fuel n = lo ++ [b] ∧ 0 < b2z b).
Proof.
  revert n. induction fuel as [|fuel IH]; intros n Hn; [rewrite Z.pow_0_r in Hn|rewrite pow256_S in Hn].
  { cbn. split; [lia|]. lia. }
  cbn [Bytes_loop]. destruct (Z.ltb_spec 0 n); [|split; [cbn; lia|lia]].
  change 0xff with (Z.ones 8). rewrite (Z.land_ones n 8), Z.shiftr_div_pow2 by lia.
  change (2 ^ 8) with 256.
  pose proof (Z.mod_pos_bound n 256 eq_refl).
  destruct (IH (n / 256)) as [Hv Hlast].
  { split; [apply Z.div_pos; lia|apply Z.div_lt_upper_bound; lia]. }
  cbn [le_get]. rewrite b2z_z2b_small, Hv by lia.
  split; [rewrite (Z.div_mod n 256) at 3; lia|]. intros _.
  destruct (decide (0 < n / 256)) as [Hd|Hd].
  - destruct (Hlast Hd) as (lo & b & -> & Hb). by exists (z2b (n mod 256) :: lo), b.
  - assert (n / 256 = 0) as Hz by (pose proof (Z.div_pos n 256); lia).
    rewrite Hz. exists [], (z2b (n mod 256)). split; [by destruct fuel|].
    rewrite b2z_z2b_small by lia. rewrite (Z.div_mod n 256), Hz in H by lia. lia.
Qed.

Lemma le_get_snoc_pos lo b : 0 < b2z b → 0 < le_get (lo ++ [b]).
Proof. intros. rewrite le_get_snoc. pose proof (le_get_zlen lo). nia. Qed.

Lemma le_get_snoc_inj lo b lo' b' :
  0 < b2z b → 0 < b2z b' → le_get (lo ++ [b]) = le_get (lo' ++ [b']) → lo = lo' ∧ b = b'.
Proof.
  intros Hb Hb'. revert lo'.
  induction lo as [|c lo IH]; intros [|c' lo']; cbn [app le_get]; intros H.
  - split; [done|]. apply b2z_inj. lia.
  - pose proof (le_get_snoc_pos lo' b' Hb'). pose proof (b2z_range b).
    pose proof (b2z_range c'). lia.
  - pose proof (le_get_snoc_pos lo b Hb). pose proof (b2z_range b').
    pose proof (b2z_range c). lia.
  - pose proof (b2z_range c). pose proof (b2z_range c').
    destruct (IH lo') as [-> ->]; [lia|]. split; [|done]. f_equal. apply b2z_inj. lia.
Qed.

Lemma Bytes_sign_extend n :
  is_i64 n → n ≠ 0 → n ≠ - 2 ^ 63 →
  ∃ lo b, 0 < b2z b ∧ le_get (lo ++ [b]) = Z.abs n ∧
    Bytes n = Ok (sign_extend (n <? 0) lo b).
Proof.
  intros Hn H0 Hmin. unfold Bytes. rewrite (proj2 (Z.eqb_neq _ _)) by done. cbv zeta.
  assert ((if n <? 0 then i64 (- n) else n) = Z.abs n) as ->.
  { destruct (Z.ltb_spec n 0); [rewrite i64_small by (unfold is_i64 in *; lia)|]; lia. }
  destruct (Bytes_loop_spec 8 (Z.abs n)) as [Hv Hl].
  { change (256 ^ Z.of_nat 8) with (2 ^ 64). unfold is_i64 in Hn. lia. }
  destruct (Hl ltac:(lia)) as (lo & b & E & Hb). rewrite E in *.
  exists lo, b. split; [done|]. split; [done|].
  rewrite go_index_last. cbn [mbind result_bind]. rewrite land_80. unfold sign_extend.
  pose proof (b2z_range b).
  destruct (Z.ltb_spec (b2z b) 128); cbn [negb].
  - destruct (n <? 0); [|by rewrite Z.add_0_r, z2b_b2z].
    rewrite lor_80, zlen_snoc by done. f_equal.
    replace (Z.to_nat (zlen lo + 1 - 1)) with (length lo + 0)%nat by (unfold zlen; lia).
    by rewrite insert_app_r.
  - by destruct (n <? 0).
Qed.

Lemma sign_extend_length neg lo b k :
  0 < b2z b → le_get (lo ++ [b]) < 2 ^ (8 * k - 1) → 0 < k →
  zlen (sign_extend neg lo b) <= k.
Proof.
  intros Hb Hlt Hk. unfold sign_extend. rewrite le_get_snoc in Hlt.
  pose proof (le_get_zlen lo). pose proof (zlen_nonneg lo).
  assert (2 ^ (8 * k - 1) = 128 * 256 ^ (k - 1)) as Hp.
  { replace (8 * k - 1) with (7 + 8 * (k - 1)) by lia.
    by rewrite Z.pow_add_r, (Z.pow_mul_r 2 8) by lia. }
  assert (k - 1 < zlen lo → 256 * 256 ^ (k - 1) <= 256 ^ zlen lo) as Hmono.
  { intros. rewrite <-Z.pow_succ_r by lia. apply Z.pow_le_mono_r; lia. }
  destruct (Z.ltb_spec (b2z b) 128); rewrite !zlen_snoc.
  - destruct (decide (k - 1 < zlen lo)) as [Hc|]; [|lia]. specialize (Hmono Hc). nia.
  - destruct (decide (k - 1 <= zlen lo)) as [Hc|]; [|lia].
    destruct (decide (k - 1 = zlen lo)) as [E|]; [rewrite E in *; nia|].
    specialize (Hmono ltac:(lia)). nia.
Qed.

Lemma Bytes_value n v :
  is_i64 n → Bytes n = Ok v → minimal v ∧ num_value v = n.
Proof.
  intros Hn H. destruct (decide (n = 0)) as [->|H0].
  { injection H as <-. split; [by left|done]. }
  destruct (decide (n = - 2 ^ 63)) as [->|Hmin]; [by vm_compute in H|].
  destruct (Bytes_sign_extend n Hn H0 Hmin) as (lo & b & Hb & Hv & E).
  rewrite E in H. injection H as <-. split; [by apply sign_extend_minimal|].
  rewrite sign_extend_value, Hv. destruct (Z.ltb_spec n 0); lia.
Qed.

Lemma minimal_Bytes v :
  zlen v <= 7 → minimal v → Bytes (num_value v) = Ok v.
Proof.
  intros Hl Hm. destruct (decide (v = [])) as [->|Hne]; [done|].
  pose proof (num_value_range v Hne) as Hr.
  assert (2 ^ (8 * zlen v - 1) <= 2 ^ 55) by (apply Z.pow_le_mono_r; lia).
  destruct (minimal_sign_extend v Hm Hne) as (neg & lo & b & Hb & ->).
  pose proof (le_get_snoc_pos lo b Hb). rewrite sign_extend_value in *.
  destruct (Bytes_sign_extend (if neg then - le_get (lo ++ [b]) else le_get (lo ++ [b])))
    as (lo' & b' & Hb' & Hv & ->).
  - unfold is_i64. destruct neg; lia.
  - destruct neg; lia.
  - destruct neg; lia.
  - destruct (le_get_snoc_inj lo' b' lo b) as [-> ->]; [done..|destruct neg; lia|].
    f_equal. f_equal.
    destruct neg; [apply Z.ltb_lt|apply Z.ltb_ge]; lia.
Qed.

(** Numbers that fit in [k] bytes serialize, in at most [k] bytes. *)
Lemma Bytes_total n k :
  0 < k <= 8 → Z.abs n < 2 ^ (8 * k - 1) → ∃ v, Bytes n = Ok v ∧ zlen v <= k.
Proof.
  intros Hk Hn. destruct (decide (n = 0)) as [->|H0]; [exists []; split; [done|change (0 <= k); lia]|].
  assert (2 ^ (8 * k - 1) <= 2 ^ 63) by (apply Z.pow_le_mono_r; lia).
  destruct (Bytes_sign_extend n) as (lo & b & Hb & Hv & ->); [unfold is_i64; lia|done|lia|].
  eexists. split; [done|]. apply sign_extend_length; [done|lia|lia].
Qed.

Lemma MakeScriptNum_minimal v scriptNumLen :
  MakeScriptNum v true scriptNumLen =
  if scriptNumLen <? zlen v then Fail (scriptError ErrNumberTooBig)
  else _ ← checkMinimalDataEncoding v; MakeScriptNum v false scriptNumLen.
Proof.
  unfold MakeScriptNum. destruct (scriptNumLen <? zlen v); [done|].
  by destruct (checkMinimalDataEncoding v).
Qed.

(** ** Properties *)

(** Script numbers: for operands of up to seven bytes, a byte string is
    accepted as the number [n] under the minimal encoding rule exactly when it
    is what [Bytes] writes for [n] and it fits the operand limit, so a number
    has one accepted encoding; without the rule every string within the limit
    denotes the number [num_value] defines. *)
Theorem MakeScriptNum_spec v n scriptNumLen :
  is_i64 n → scriptNumLen <= 7 →
  (MakeScriptNum v true scriptNumLen = Ok n ↔ Bytes n = Ok v ∧ zlen v <= scriptNumLen) ∧
  (MakeScriptNum v false scriptNumLen = Ok n ↔ num_value v = n ∧ zlen v <= scriptNumLen).
Proof.
  intros Hn Hmax. rewrite MakeScriptNum_minimal.
  destruct (Z.ltb_spec scriptNumLen (zlen v)) as [Hlt|Hle].
  - unfold MakeScriptNum at 1. rewrite (proj2 (Z.ltb_lt _ _)) by done.
    split; split; (done || lia).
  - rewrite MakeScriptNum_value by done. split; [|naive_solver].
    destruct (checkMinimalDataEncoding_spec v) as [[-> Hm]|[-> Hm]];
      cbn [mbind result_bind]; split.
    + intros [= <-]. split; [|done]. apply minimal_Bytes; [lia|done].
    + intros [[_ ->]%Bytes_value _]; done.
    + done.
    + intros [[? _]%Bytes_value _]; done.
Qed.

(** Operand and result ranges: an operand of the default four bytes is in
    [-2^31+1, 2^31-1]; serializing a sum, difference or any value below 2^39 in
    magnitude cannot panic and takes at most five bytes. *)
Theorem scriptNum_ranges v requireMinimal n :
  MakeScriptNum v requireMinimal maxScriptNumLen = Ok n →
  - 2 ^ 31 + 1 <= n <= 2 ^ 31 - 1 ∧ Int32 n = n ∧
  (∃ w, Bytes n = Ok w ∧ zlen w <= 4) ∧
  (∀ m, Z.abs m < 2 ^ 39 → ∃ w, Bytes m = Ok w ∧ zlen w <= 5).
Proof.
  intros H. assert (zlen v <= 4 ∧ n = num_value v) as [Hl ->].
  { destruct requireMinimal; [rewrite MakeScriptNum_minimal in H|];
      unfold maxScriptNumLen in *; destruct (Z.ltb_spec 4 (zlen v)); try done.
    - rewrite MakeScriptNum_value in H by lia. by inv_bind.
    - unfold MakeScriptNum in H. by rewrite (proj2 (Z.ltb_lt _ _)) in H.
    - rewrite MakeScriptNum_value in H by lia. by injection H. }
  assert (Z.abs (num_value v) < 2 ^ 31) as Hr.
  { destruct (decide (v = [])) as [->|Hne]; [done|].
    eapply Z.lt_le_trans; [by apply num_value_range|]. apply Z.pow_le_mono_r; lia. }
  split_and!; try lia.
  - unfold Int32. change maxInt32 with (2 ^ 31 - 1). change minInt32 with (- 2 ^ 31).
    by rewrite !(proj2 (Z.ltb_ge _ _)) by lia.
  - by apply (Bytes_total _ 4).
  - intros m Hm. by apply (Bytes_total m 5).
Qed.

Lemma MakeScriptNum_spec_witness :
  MakeScriptNum [x80; x80] true maxScriptNumLen = Ok (-128).
Proof.
  apply (MakeScriptNum_spec [x80; x80] (-128) maxScriptNumLen);
    [by split|by vm_compute|by split].
Defined.

Lemma scriptNum_ranges_witness : Int32 2147483647 = 2147483647.
Proof. by apply (scriptNum_ranges [xff; xff; xff; x7f] true 2147483647). Defined.
