(* ===== verification/Stack.v ===== *)
(** * The data stacks of the script engine ([node/txscript/stack.go])

    The items bottom first, as the Go slice holds them; indices and depths are
    [int32].  Items are never changed in place, so sharing them between slots is
    not observable and a byte list models an item. *)
From stdpp Require Import strings.
From Stdlib Require Import Lia ZArith.
From S2P Require Import Prelude Wire ScriptError ScriptNum.

Fixpoint asBool (t : bytes) : bool :=
  match t with
  | [] => false
  | b :: t' =>
      if negb (b2z b =? 0)
      then negb ((zlen t' =? 0) && (b2z b =? 0x80))
      else asBool t'
  end.

Definition fromBool (v : bool) : bytes := if v then [z2b 1] else [].

Record stack := mkStack { stk : list bytes; verifyMinimalData : bool }.

Abbreviation Stk := (ST ScriptErr stack).

Definition set_stk (l : list bytes) : Stk unit :=
  st_modify (λ s, mkStack l (verifyMinimalData s)).

Definition errStack {A} : Stk A := st_fail (scriptError ErrInvalidStackOperation).

Definition Depth (s : stack) : Z := i32 (zlen (stk s)).

Definition PushByteArray (so : bytes) : Stk unit :=
  s ← st_get; set_stk (stk s ++ [so]).

Definition PushInt (val : scriptNum) : Stk unit :=
  so ← st_lift (Bytes val); PushByteArray so.

Definition PushBool (val : bool) : Stk unit := PushByteArray (fromBool val).

Definition nipN (idx : Z) : Stk bytes :=
  s ← st_get;
  let sz := i32 (zlen (stk s)) in
  if (idx <? 0) || (i32 (sz - 1) <? idx) then errStack
  else
    so ← st_lift (go_index (stk s) (i32 (sz - idx - 1)));
    (if idx =? 0 then
       l ← st_lift (go_slice (stk s) 0 (sz - 1)); set_stk l
     else if idx =? sz - 1 then
       l ← st_lift (go_slice (stk s) 1 (zlen (stk s))); set_stk l
     else
       s1 ← st_lift (go_slice (stk s) (sz - idx) sz);
       l ← st_lift (go_slice (stk s) 0 (sz - idx - 1));
       set_stk (l ++ s1)) ;;
    mret so.

Definition PopByteArray : Stk bytes := nipN 0.

Definition PopInt : Stk scriptNum :=
  so ← PopByteArray;
  s ← st_get;
  st_lift (MakeScriptNum so (verifyMinimalData s) maxScriptNumLen).

Definition PopBool : Stk bool := so ← PopByteArray; mret (asBool so).

Definition PeekByteArray (idx : Z) : Stk bytes :=
  s ← st_get;
  let sz := i32 (zlen (stk s)) in
  if (idx <? 0) || (sz <=? idx) then errStack
  else st_lift (go_index (stk s) (i32 (sz - idx - 1))).

Definition PeekInt (idx : Z) : Stk scriptNum :=
  so ← PeekByteArray idx;
  s ← st_get;
  st_lift (MakeScriptNum so (verifyMinimalData s) maxScriptNumLen).

Definition PeekBool (idx : Z) : Stk bool := so ← PeekByteArray idx; mret (asBool so).

Definition NipN (idx : Z) : Stk unit := _ ← nipN idx; mret ().

Definition Tuck : Stk unit :=
  so2 ← PopByteArray;
  so1 ← PopByteArray;
  PushByteArray so2 ;; PushByteArray so1 ;; PushByteArray so2.

Definition DropN (n : Z) : Stk unit :=
  if n <? 1 then errStack
  else st_repeat (Z.to_nat n) (_ ← PopByteArray; mret ()).

Definition DupN (n : Z) : Stk unit :=
  if n <? 1 then errStack
  else st_repeat (Z.to_nat n) (so ← PeekByteArray (n - 1); PushByteArray so).

Definition RotN (n : Z) : Stk unit :=
  if n <? 1 then errStack
  else
    let entry := i32 (3 * n - 1) in
    st_repeat (Z.to_nat n) (so ← nipN entry; PushByteArray so).

Definition SwapN (n : Z) : Stk unit :=
  if n <? 1 then errStack
  else
    let entry := i32 (2 * n - 1) in
    st_repeat (Z.to_nat n) (so ← nipN entry; PushByteArray so).

Definition OverN (n : Z) : Stk unit :=
  if n <? 1 then errStack
  else
    let entry := i32 (2 * n - 1) in
    st_repeat (Z.to_nat n) (so ← PeekByteArray entry; PushByteArray so).

Definition PickN (n : Z) : Stk unit := so ← PeekByteArray n; PushByteArray so.

Definition RollN (n : Z) : Stk unit := so ← nipN n; PushByteArray so.

(** ** The primitives on a stack split at the item they touch *)

(** Depths an [int32] holds. *)
Definition stk_ok (l : list bytes) : Prop := zlen l < 2 ^ 31.

Lemma stk_ok_i32 l : stk_ok l → i32 (zlen l) = zlen l.
Proof. unfold stk_ok. intros. pose proof (zlen_nonneg l). apply i32_small. unfold is_i32. lia. Qed.

Section primitives.
Context (m : bool).

Lemma PushByteArray_run l so :
  PushByteArray so (mkStack l m) = Ok ((), mkStack (l ++ [so]) m).
Proof. done. Qed.

Lemma peek_run l x ys idx :
  stk_ok (l ++ x :: ys) → idx = zlen ys →
  PeekByteArray idx (mkStack (l ++ x :: ys) m) = Ok (x, mkStack (l ++ x :: ys) m).
Proof.
  intros Hok ->. unfold PeekByteArray. cbv [mbind st_bind st_get]. cbn [stk].
  rewrite (stk_ok_i32 _ Hok). unfold stk_ok in Hok. rewrite zlen_app, zlen_cons in *.
  pose proof (zlen_nonneg ys). pose proof (zlen_nonneg l).
  rewrite (proj2 (Z.ltb_ge _ _)), (proj2 (Z.leb_gt _ _)) by lia. cbn [orb].
  unfold st_lift. rewrite go_index_mid; [done|]. rewrite i32_small by (unfold is_i32; lia). lia.
Qed.

Lemma nip_run l x ys idx :
  stk_ok (l ++ x :: ys) → idx = zlen ys →
  nipN idx (mkStack (l ++ x :: ys) m) = Ok (x, mkStack (l ++ ys) m).
Proof.
  intros Hok ->. unfold nipN. cbv [mbind st_bind st_get]. cbn [stk].
  rewrite (stk_ok_i32 _ Hok). unfold stk_ok in Hok.
  pose proof (zlen_app l (x :: ys)) as Hz. rewrite zlen_cons in Hz.
  pose proof (zlen_nonneg ys). pose proof (zlen_nonneg l).
  rewrite !i32_small by (unfold is_i32; lia).
  rewrite (proj2 (Z.ltb_ge _ _)), (proj2 (Z.ltb_ge _ _)) by lia. cbn [orb].
  unfold st_lift, set_stk, st_modify. rewrite go_index_mid by lia. cbv [mbind result_bind].
  cbn [verifyMinimalData].
  destruct (Z.eqb_spec (zlen ys) 0) as [E|].
  - apply zlen_0 in E as ->. rewrite go_slice_prefix by (rewrite zlen_snoc; lia). by rewrite app_nil_r.
  - destruct (Z.eqb_spec (zlen ys) (zlen (l ++ x :: ys) - 1)) as [E|].
    + assert (l = []) as -> by (apply zlen_0; lia). cbn [app] in *.
      by rewrite (go_slice_tail [x] ys) by (done || len_solve).
    + rewrite (go_slice_prefix l) by lia.
      change (l ++ x :: ys) with (l ++ [x] ++ ys) in *. rewrite (assoc_L (++)) in *.
      by rewrite (go_slice_tail (l ++ [x]) ys) by len_solve.
Qed.

Lemma peek_fail l idx :
  stk_ok l → idx < 0 ∨ zlen l <= idx →
  PeekByteArray idx (mkStack l m) = Fail (scriptError ErrInvalidStackOperation).
Proof.
  intros Hok Hi. unfold PeekByteArray. cbv [mbind st_bind st_get]. cbn [stk].
  rewrite (stk_ok_i32 _ Hok). by rewrite (proj2 (orb_true_iff _ _)) by lia.
Qed.

Lemma nip_fail l idx :
  stk_ok l → idx < 0 ∨ zlen l <= idx →
  nipN idx (mkStack l m) = Fail (scriptError ErrInvalidStackOperation).
Proof.
  intros Hok Hi. unfold nipN. cbv [mbind st_bind st_get]. cbn [stk].
  rewrite (stk_ok_i32 _ Hok), i32_small.
  - by rewrite (proj2 (orb_true_iff _ _)) by lia.
  - unfold stk_ok, is_i32 in *. pose proof (zlen_nonneg l). lia.
Qed.
End primitives.

(** ** The loops *)

Section loops.
Context (m : bool).

Lemma pop_loop l xs :
  stk_ok (l ++ xs) →
  st_repeat (length xs) (_ ← PopByteArray; mret ()) (mkStack (l ++ xs) m)
  = Ok ((), mkStack l m).
Proof.
  induction xs as [|x xs IH] using rev_ind; intros Hok; [by rewrite app_nil_r|].
  rewrite length_app, Nat.add_1_r. cbn [st_repeat]. rewrite (assoc_L (++)) in *.
  unfold PopByteArray. cbv [mbind st_bind].
  rewrite (nip_run m (l ++ xs) x []) by done. cbv [mret st_ret]. rewrite app_nil_r.
  apply IH. unfold stk_ok in *. rewrite zlen_snoc in Hok. lia.
Qed.

(** Copies of the items at a fixed depth, pushed one by one. *)
Lemma copy_loop l xs ys zs e :
  stk_ok (l ++ zs ++ xs ++ ys ++ zs ++ xs) → e = zlen xs + zlen ys + zlen zs - 1 →
  st_repeat (length xs) (so ← PeekByteArray e; PushByteArray so)
    (mkStack (l ++ zs ++ xs ++ ys ++ zs) m)
  = Ok ((), mkStack (l ++ zs ++ xs ++ ys ++ zs ++ xs) m).
Proof.
  revert zs. induction xs as [|x xs IH]; intros zs Hok ->; [by rewrite !app_nil_r|].
  cbn [length st_repeat]. cbv [mbind st_bind].
  replace (l ++ zs ++ (x :: xs) ++ ys ++ zs) with ((l ++ zs) ++ x :: (xs ++ ys ++ zs))
    by (by rewrite <-(assoc_L (++))).
  rewrite peek_run.
  - rewrite PushByteArray_run.
    replace (((l ++ zs) ++ x :: (xs ++ ys ++ zs)) ++ [x])
      with (l ++ (zs ++ [x]) ++ xs ++ ys ++ (zs ++ [x]))
      by (by app_norm).
    rewrite IH; [by app_norm| |len_solve].
    unfold stk_ok in *. len_solve.
  - unfold stk_ok in *. len_solve.
  - len_solve.
Qed.

(** The items at a fixed depth, moved to the top one by one. *)
Lemma move_loop l xs ys zs e :
  stk_ok (l ++ xs ++ ys ++ zs) → e = zlen xs + zlen ys + zlen zs - 1 →
  st_repeat (length xs) (so ← nipN e; PushByteArray so) (mkStack (l ++ xs ++ ys ++ zs) m)
  = Ok ((), mkStack (l ++ ys ++ zs ++ xs) m).
Proof.
  revert zs. induction xs as [|x xs IH]; intros zs Hok ->; [by rewrite !app_nil_r|].
  cbn [length st_repeat]. cbv [mbind st_bind]. cbn [app] in *.
  rewrite nip_run; [|done|len_solve].
  rewrite PushByteArray_run. app_norm.
  rewrite IH; [by app_norm| |len_solve].
  unfold stk_ok in *. len_solve.
Qed.

(** A loop whose first step fails fails. *)
Lemma repeat_fail {E S} n (step : ST E S unit) s e :
  0 < n → step s = Fail e → st_repeat (Z.to_nat n) step s = Fail e.
Proof.
  intros Hn H. destruct (Z.to_nat n) as [|k] eqn:E1; [lia|].
  cbn [st_repeat]. cbv [mbind st_bind]. by rewrite H.
Qed.

Lemma pop_loop_fail l n :
  stk_ok l → zlen l < n →
  st_repeat (Z.to_nat n) (_ ← PopByteArray; mret ()) (mkStack l m)
  = Fail (scriptError ErrInvalidStackOperation).
Proof.
  revert n. induction l as [|x l IH] using rev_ind; intros n Hok Hn.
  - apply repeat_fail; [exact Hn|]. unfold PopByteArray. cbv [mbind st_bind].
    by rewrite nip_fail by (done || by right).
  - rewrite zlen_snoc in Hn. pose proof (zlen_nonneg l).
    replace (Z.to_nat n) with (S (Z.to_nat (n - 1))) by lia. cbn [st_repeat].
    unfold PopByteArray. cbv [mbind st_bind].
    rewrite (nip_run m l x []) by done. cbv [mret st_ret]. rewrite app_nil_r.
    apply IH; [|lia]. unfold stk_ok in *. rewrite zlen_snoc in Hok. lia.
Qed.
End loops.

(** ** Properties *)

(** The stack rearrangements: on any stack deep enough (and any depth an
    [int32] holds), each operation leaves exactly the stack its comment
    describes, for every count and not only the counts the opcodes use. *)
Theorem stack_rearrange m n l xs ys zs x :
  0 < n → zlen xs = n → zlen ys = n → zlen zs = n →
  stk_ok (l ++ x :: xs ++ ys ++ zs ++ xs) →
  DropN n (mkStack (l ++ xs) m) = Ok ((), mkStack l m) ∧
  DupN n (mkStack (l ++ xs) m) = Ok ((), mkStack (l ++ xs ++ xs) m) ∧
  OverN n (mkStack (l ++ xs ++ ys) m) = Ok ((), mkStack (l ++ xs ++ ys ++ xs) m) ∧
  SwapN n (mkStack (l ++ xs ++ ys) m) = Ok ((), mkStack (l ++ ys ++ xs) m) ∧
  RotN n (mkStack (l ++ xs ++ ys ++ zs) m) = Ok ((), mkStack (l ++ ys ++ zs ++ xs) m) ∧
  NipN n (mkStack (l ++ x :: xs) m) = Ok ((), mkStack (l ++ xs) m) ∧
  PickN n (mkStack (l ++ x :: xs) m) = Ok ((), mkStack (l ++ x :: xs ++ [x]) m) ∧
  RollN n (mkStack (l ++ x :: xs) m) = Ok ((), mkStack (l ++ xs ++ [x]) m).
Proof.
  intros Hn Hx Hy Hz Hok.
  assert (Z.to_nat n = length xs) as Hnx by (unfold zlen in Hx; lia).
  unfold stk_ok in Hok.
  unfold DropN, DupN, OverN, SwapN, RotN, NipN, PickN, RollN. cbv zeta.
  rewrite (proj2 (Z.ltb_ge n 1)), !Hnx, !i32_small by (unfold is_i32; len_solve).
  split_and!.
  - apply pop_loop. unfold stk_ok. len_solve.
  - pose proof (copy_loop m l xs [] []) as H1. cbn [app] in H1. rewrite !app_nil_r in H1.
    apply H1; unfold stk_ok; len_solve.
  - pose proof (copy_loop m l xs ys []) as H1. cbn [app] in H1. rewrite !app_nil_r in H1.
    apply H1; unfold stk_ok; len_solve.
  - pose proof (move_loop m l xs ys []) as H1. cbn [app] in H1. rewrite !app_nil_r in H1.
    apply H1; unfold stk_ok; len_solve.
  - apply move_loop; unfold stk_ok; len_solve.
  - cbv [mbind st_bind]. by rewrite nip_run by (done || unfold stk_ok; len_solve).
  - cbv [mbind st_bind]. rewrite peek_run by (done || unfold stk_ok; len_solve).
    rewrite PushByteArray_run. by app_norm.
  - cbv [mbind st_bind]. rewrite nip_run by (done || unfold stk_ok; len_solve).
    rewrite PushByteArray_run. by app_norm.
Qed.

(** A stack too shallow for an operation, a non-positive count or a negative
    index is an invalid stack operation, never a run-time panic. *)
Theorem stack_underflow m l n :
  stk_ok l → is_i32 n → 3 * n < 2 ^ 31 →
  let err {A} : result ScriptErr (A * stack) := Fail (scriptError ErrInvalidStackOperation) in
  (n < 1 ∨ zlen l < n → DropN n (mkStack l m) = err ∧ DupN n (mkStack l m) = err) ∧
  (n < 1 ∨ zlen l < 2 * n → OverN n (mkStack l m) = err ∧ SwapN n (mkStack l m) = err) ∧
  (n < 1 ∨ zlen l < 3 * n → RotN n (mkStack l m) = err) ∧
  (n < 0 ∨ zlen l <= n →
   NipN n (mkStack l m) = err ∧ PickN n (mkStack l m) = err ∧ RollN n (mkStack l m) = err) ∧
  (l = [] → PopByteArray (mkStack l m) = err ∧ PopInt (mkStack l m) = err ∧
            PopBool (mkStack l m) = err ∧ Tuck (mkStack l m) = err).
Proof.
  intros Hok Hn H3 err. unfold is_i32 in Hn. subst err. cbv zeta.
  unfold DropN, DupN, OverN, SwapN, RotN. cbv zeta.
  assert (0 < n → i32 (2 * n - 1) = 2 * n - 1 ∧ i32 (3 * n - 1) = 3 * n - 1) as Hw.
  { intros. by rewrite !i32_small by (unfold is_i32; lia). }
  destruct (Z.ltb_spec n 1) as [Hlt|Hge]; [|destruct Hw as [-> ->]; [lia|]].
  all: split_and!; intros H.
  all: try (done || by split_and!).
  all: try (destruct H as [H|H]; [lia|]).
  all: try subst l.
  - by unfold NipN, PickN, RollN; cbv [mbind st_bind]; rewrite nip_fail, peek_fail.
  - by unfold PopInt, PopBool, Tuck, PopByteArray; cbv [mbind st_bind];
      rewrite nip_fail by (done || by right).
  - split; [by apply pop_loop_fail|]. apply repeat_fail; [lia|].
    cbv [mbind st_bind]. rewrite peek_fail; [done..|lia].
  - split; (apply repeat_fail; [lia|]); cbv [mbind st_bind];
      rewrite ?peek_fail, ?nip_fail; done || lia.
  - apply repeat_fail; [lia|]. cbv [mbind st_bind]. rewrite nip_fail; [done..|lia].
  - by unfold NipN, PickN, RollN; cbv [mbind st_bind]; rewrite nip_fail, peek_fail by (done || by right).
  - by unfold PopInt, PopBool, Tuck, PopByteArray; cbv [mbind st_bind];
      rewrite nip_fail by (done || by right).
Qed.

Lemma stack_rearrange_witness :
  RotN 2 (mkStack [[x00]; [x01]; [x02]; [x03]; [x04]; [x05]; [x06]] true)
  = Ok ((), mkStack [[x00]; [x03]; [x04]; [x05]; [x06]; [x01]; [x02]] true).
Proof.
  by apply (stack_rearrange true 2 [[x00]] [[x01]; [x02]] [[x03]; [x04]] [[x05]; [x06]] []).
Defined.

Lemma stack_underflow_witness :
  RotN 1 (mkStack [[x00]; [x01]] true) = Fail (scriptError ErrInvalidStackOperation).
Proof. apply (stack_underflow true [[x00]; [x01]] 1); [done..|by right]. Defined.
