(* ===== verification/Opcode.v ===== *)
(** * The opcode table ([node/txscript/opcode.go])

    The opcode constants, the table that gives each opcode byte its length and
    its handler, and the classes of opcodes the engine and the script helpers
    test for. *)
From stdpp Require Import strings.
From Stdlib Require Import Lia ZArith.
From S2P Require Import Prelude.

(** ** Opcode values *)

Definition OP_0 : Z := 0x00.
Definition OP_FALSE : Z := 0x00.
Definition OP_DATA_1 : Z := 0x01.
Definition OP_DATA_2 : Z := 0x02.
Definition OP_DATA_3 : Z := 0x03.
Definition OP_DATA_4 : Z := 0x04.
Definition OP_DATA_5 : Z := 0x05.
Definition OP_DATA_6 : Z := 0x06.
Definition OP_DATA_7 : Z := 0x07.
Definition OP_DATA_8 : Z := 0x08.
Definition OP_DATA_9 : Z := 0x09.
Definition OP_DATA_10 : Z := 0x0a.
Definition OP_DATA_11 : Z := 0x0b.
Definition OP_DATA_12 : Z := 0x0c.
Definition OP_DATA_13 : Z := 0x0d.
Definition OP_DATA_14 : Z := 0x0e.
Definition OP_DATA_15 : Z := 0x0f.
Definition OP_DATA_16 : Z := 0x10.
Definition OP_DATA_17 : Z := 0x11.
Definition OP_DATA_18 : Z := 0x12.
Definition OP_DATA_19 : Z := 0x13.
Definition OP_DATA_20 : Z := 0x14.
Definition OP_DATA_21 : Z := 0x15.
Definition OP_DATA_22 : Z := 0x16.
Definition OP_DATA_23 : Z := 0x17.
Definition OP_DATA_24 : Z := 0x18.
Definition OP_DATA_25 : Z := 0x19.
Definition OP_DATA_26 : Z := 0x1a.
Definition OP_DATA_27 : Z := 0x1b.
Definition OP_DATA_28 : Z := 0x1c.
Definition OP_DATA_29 : Z := 0x1d.
Definition OP_DATA_30 : Z := 0x1e.
Definition OP_DATA_31 : Z := 0x1f.
Definition OP_DATA_32 : Z := 0x20.
Definition OP_DATA_33 : Z := 0x21.
Definition OP_DATA_34 : Z := 0x22.
Definition OP_DATA_35 : Z := 0x23.
Definition OP_DATA_36 : Z := 0x24.
Definition OP_DATA_37 : Z := 0x25.
Definition OP_DATA_38 : Z := 0x26.
Definition OP_DATA_39 : Z := 0x27.
Definition OP_DATA_40 : Z := 0x28.
Definition OP_DATA_41 : Z := 0x29.
Definition OP_DATA_42 : Z := 0x2a.
Definition OP_DATA_43 : Z := 0x2b.
Definition OP_DATA_44 : Z := 0x2c.
Definition OP_DATA_45 : Z := 0x2d.
Definition OP_DATA_46 : Z := 0x2e.
Definition OP_DATA_47 : Z := 0x2f.
Definition OP_DATA_48 : Z := 0x30.
Definition OP_DATA_49 : Z := 0x31.
Definition OP_DATA_50 : Z := 0x32.
Definition OP_DATA_51 : Z := 0x33.
Definition OP_DATA_52 : Z := 0x34.
Definition OP_DATA_53 : Z := 0x35.
Definition OP_DATA_54 : Z := 0x36.
Definition OP_DATA_55 : Z := 0x37.
Definition OP_DATA_56 : Z := 0x38.
Definition OP_DATA_57 : Z := 0x39.
Definition OP_DATA_58 : Z := 0x3a.
Definition OP_DATA_59 : Z := 0x3b.
Definition OP_DATA_60 : Z := 0x3c.
Definition OP_DATA_61 : Z := 0x3d.
Definition OP_DATA_62 : Z := 0x3e.
Definition OP_DATA_63 : Z := 0x3f.
Definition OP_DATA_64 : Z := 0x40.
Definition OP_DATA_65 : Z := 0x41.
Definition OP_DATA_66 : Z := 0x42.
Definition OP_DATA_67 : Z := 0x43.
Definition OP_DATA_68 : Z := 0x44.
Definition OP_DATA_69 : Z := 0x45.
Definition OP_DATA_70 : Z := 0x46.
Definition OP_DATA_71 : Z := 0x47.
Definition OP_DATA_72 : Z := 0x48.
Definition OP_DATA_73 : Z := 0x49.
Definition OP_DATA_74 : Z := 0x4a.
Definition OP_DATA_75 : Z := 0x4b.
Definition OP_PUSHDATA1 : Z := 0x4c.
Definition OP_PUSHDATA2 : Z := 0x4d.
Definition OP_PUSHDATA4 : Z := 0x4e.
Definition OP_1NEGATE : Z := 0x4f.
Definition OP_RESERVED : Z := 0x50.
Definition OP_1 : Z := 0x51.
Definition OP_TRUE : Z := 0x51.
Definition OP_2 : Z := 0x52.
Definition OP_3 : Z := 0x53.
Definition OP_4 : Z := 0x54.
Definition OP_5 : Z := 0x55.
Definition OP_6 : Z := 0x56.
Definition OP_7 : Z := 0x57.
Definition OP_8 : Z := 0x58.
Definition OP_9 : Z := 0x59.
Definition OP_10 : Z := 0x5a.
Definition OP_11 : Z := 0x5b.
Definition OP_12 : Z := 0x5c.
Definition OP_13 : Z := 0x5d.
Definition OP_14 : Z := 0x5e.
Definition OP_15 : Z := 0x5f.
Definition OP_16 : Z := 0x60.
Definition OP_NOP : Z := 0x61.
Definition OP_VER : Z := 0x62.
Definition OP_IF : Z := 0x63.
Definition OP_NOTIF : Z := 0x64.
Definition OP_VERIF : Z := 0x65.
Definition OP_VERNOTIF : Z := 0x66.
Definition OP_ELSE : Z := 0x67.
Definition OP_ENDIF : Z := 0x68.
Definition OP_VERIFY : Z := 0x69.
Definition OP_RETURN : Z := 0x6a.
Definition OP_TOALTSTACK : Z := 0x6b.
Definition OP_FROMALTSTACK : Z := 0x6c.
Definition OP_2DROP : Z := 0x6d.
Definition OP_2DUP : Z := 0x6e.
Definition OP_3DUP : Z := 0x6f.
Definition OP_2OVER : Z := 0x70.
Definition OP_2ROT : Z := 0x71.
Definition OP_2SWAP : Z := 0x72.
Definition OP_IFDUP : Z := 0x73.
Definition OP_DEPTH : Z := 0x74.
Definition OP_DROP : Z := 0x75.
Definition OP_DUP : Z := 0x76.
Definition OP_NIP : Z := 0x77.
Definition OP_OVER : Z := 0x78.
Definition OP_PICK : Z := 0x79.
Definition OP_ROLL : Z := 0x7a.
Definition OP_ROT : Z := 0x7b.
Definition OP_SWAP : Z := 0x7c.
Definition OP_TUCK : Z := 0x7d.
Definition OP_CAT : Z := 0x7e.
Definition OP_SUBSTR : Z := 0x7f.
Definition OP_LEFT : Z := 0x80.
Definition OP_RIGHT : Z := 0x81.
Definition OP_SIZE : Z := 0x82.
Definition OP_INVERT : Z := 0x83.
Definition OP_AND : Z := 0x84.
Definition OP_OR : Z := 0x85.
Definition OP_XOR : Z := 0x86.
Definition OP_EQUAL : Z := 0x87.
Definition OP_EQUALVERIFY : Z := 0x88.
Definition OP_RESERVED1 : Z := 0x89.
Definition OP_RESERVED2 : Z := 0x8a.
Definition OP_1ADD : Z := 0x8b.
Definition OP_1SUB : Z := 0x8c.
Definition OP_2MUL : Z := 0x8d.
Definition OP_2DIV : Z := 0x8e.
Definition OP_NEGATE : Z := 0x8f.
Definition OP_ABS : Z := 0x90.
Definition OP_NOT : Z := 0x91.
Definition OP_0NOTEQUAL : Z := 0x92.
Definition OP_ADD : Z := 0x93.
Definition OP_SUB : Z := 0x94.
Definition OP_MUL : Z := 0x95.
Definition OP_DIV : Z := 0x96.
Definition OP_MOD : Z := 0x97.
Definition OP_LSHIFT : Z := 0x98.
Definition OP_RSHIFT : Z := 0x99.
Definition OP_BOOLAND : Z := 0x9a.
Definition OP_BOOLOR : Z := 0x9b.
Definition OP_NUMEQUAL : Z := 0x9c.
Definition OP_NUMEQUALVERIFY : Z := 0x9d.
Definition OP_NUMNOTEQUAL : Z := 0x9e.
Definition OP_LESSTHAN : Z := 0x9f.
Definition OP_GREATERTHAN : Z := 0xa0.
Definition OP_LESSTHANOREQUAL : Z := 0xa1.
Definition OP_GREATERTHANOREQUAL : Z := 0xa2.
Definition OP_MIN : Z := 0xa3.
Definition OP_MAX : Z := 0xa4.
Definition OP_WITHIN : Z := 0xa5.
Definition OP_RIPEMD160 : Z := 0xa6.
Definition OP_SHA1 : Z := 0xa7.
Definition OP_SHA256 : Z := 0xa8.
Definition OP_HASH160 : Z := 0xa9.
Definition OP_HASH256 : Z := 0xaa.
Definition OP_CODESEPARATOR : Z := 0xab.
Definition OP_CHECKSIG : Z := 0xac.
Definition OP_CHECKSIGVERIFY : Z := 0xad.
Definition OP_CHECKMULTISIG : Z := 0xae.
Definition OP_CHECKMULTISIGVERIFY : Z := 0xaf.
Definition OP_NOP1 : Z := 0xb0.
Definition OP_NOP2 : Z := 0xb1.
Definition OP_CHECKLOCKTIMEVERIFY : Z := 0xb1.
Definition OP_NOP3 : Z := 0xb2.
Definition OP_CHECKSEQUENCEVERIFY : Z := 0xb2.
Definition OP_NOP4 : Z := 0xb3.
Definition OP_NOP5 : Z := 0xb4.
Definition OP_NOP6 : Z := 0xb5.
Definition OP_NOP7 : Z := 0xb6.
Definition OP_NOP8 : Z := 0xb7.
Definition OP_NOP9 : Z := 0xb8.
Definition OP_NOP10 : Z := 0xb9.
Definition OP_CHECKSIGADD : Z := 0xba.
Definition OP_UNKNOWN187 : Z := 0xbb.
Definition OP_UNKNOWN188 : Z := 0xbc.
Definition OP_UNKNOWN189 : Z := 0xbd.
Definition OP_UNKNOWN190 : Z := 0xbe.
Definition OP_UNKNOWN191 : Z := 0xbf.
Definition OP_UNKNOWN192 : Z := 0xc0.
Definition OP_UNKNOWN193 : Z := 0xc1.
Definition OP_UNKNOWN194 : Z := 0xc2.
Definition OP_UNKNOWN195 : Z := 0xc3.
Definition OP_UNKNOWN196 : Z := 0xc4.
Definition OP_UNKNOWN197 : Z := 0xc5.
Definition OP_UNKNOWN198 : Z := 0xc6.
Definition OP_UNKNOWN199 : Z := 0xc7.
Definition OP_UNKNOWN200 : Z := 0xc8.
Definition OP_UNKNOWN201 : Z := 0xc9.
Definition OP_UNKNOWN202 : Z := 0xca.
Definition OP_UNKNOWN203 : Z := 0xcb.
Definition OP_UNKNOWN204 : Z := 0xcc.
Definition OP_UNKNOWN205 : Z := 0xcd.
Definition OP_UNKNOWN206 : Z := 0xce.
Definition OP_UNKNOWN207 : Z := 0xcf.
Definition OP_UNKNOWN208 : Z := 0xd0.
Definition OP_UNKNOWN209 : Z := 0xd1.
Definition OP_UNKNOWN210 : Z := 0xd2.
Definition OP_UNKNOWN211 : Z := 0xd3.
Definition OP_UNKNOWN212 : Z := 0xd4.
Definition OP_UNKNOWN213 : Z := 0xd5.
Definition OP_UNKNOWN214 : Z := 0xd6.
Definition OP_UNKNOWN215 : Z := 0xd7.
Definition OP_UNKNOWN216 : Z := 0xd8.
Definition OP_UNKNOWN217 : Z := 0xd9.
Definition OP_UNKNOWN218 : Z := 0xda.
Definition OP_UNKNOWN219 : Z := 0xdb.
Definition OP_UNKNOWN220 : Z := 0xdc.
Definition OP_UNKNOWN221 : Z := 0xdd.
Definition OP_CHECKXMSSSIG : Z := 0xde.
Definition OP_UNKNOWN223 : Z := 0xdf.
Definition OP_UNKNOWN224 : Z := 0xe0.
Definition OP_UNKNOWN225 : Z := 0xe1.
Definition OP_UNKNOWN226 : Z := 0xe2.
Definition OP_UNKNOWN227 : Z := 0xe3.
Definition OP_UNKNOWN228 : Z := 0xe4.
Definition OP_UNKNOWN229 : Z := 0xe5.
Definition OP_UNKNOWN230 : Z := 0xe6.
Definition OP_UNKNOWN231 : Z := 0xe7.
Definition OP_UNKNOWN232 : Z := 0xe8.
Definition OP_UNKNOWN233 : Z := 0xe9.
Definition OP_UNKNOWN234 : Z := 0xea.
Definition OP_UNKNOWN235 : Z := 0xeb.
Definition OP_UNKNOWN236 : Z := 0xec.
Definition OP_UNKNOWN237 : Z := 0xed.
Definition OP_UNKNOWN238 : Z := 0xee.
Definition OP_UNKNOWN239 : Z := 0xef.
Definition OP_UNKNOWN240 : Z := 0xf0.
Definition OP_UNKNOWN241 : Z := 0xf1.
Definition OP_UNKNOWN242 : Z := 0xf2.
Definition OP_UNKNOWN243 : Z := 0xf3.
Definition OP_UNKNOWN244 : Z := 0xf4.
Definition OP_UNKNOWN245 : Z := 0xf5.
Definition OP_UNKNOWN246 : Z := 0xf6.
Definition OP_UNKNOWN247 : Z := 0xf7.
Definition OP_UNKNOWN248 : Z := 0xf8.
Definition OP_UNKNOWN249 : Z := 0xf9.
Definition OP_SMALLINTEGER : Z := 0xfa.
Definition OP_PUBKEYS : Z := 0xfb.
Definition OP_UNKNOWN252 : Z := 0xfc.
Definition OP_PUBKEYHASH : Z := 0xfd.
Definition OP_PUBKEY : Z := 0xfe.
Definition OP_INVALIDOPCODE : Z := 0xff.

(** ** The opcode table *)

(** The handlers, by name; the engine gives each its function. *)
Inductive handler :=
  | h_False | h_PushData | h_1Negate | h_Reserved | h_N | h_Nop | h_If | h_NotIf | h_Else
  | h_Endif | h_Verify | h_Return | h_CheckLockTimeVerify | h_CheckSequenceVerify
  | h_ToAltStack | h_FromAltStack | h_2Drop | h_2Dup | h_3Dup | h_2Over | h_2Rot
  | h_2Swap | h_IfDup | h_Depth | h_Drop | h_Dup | h_Nip | h_Over | h_Pick | h_Roll
  | h_Rot | h_Swap | h_Tuck | h_Cat | h_Disabled | h_Size | h_Equal | h_EqualVerify
  | h_1Add | h_1Sub | h_Negate | h_Abs | h_Not | h_0NotEqual | h_Add | h_Sub | h_BoolAnd
  | h_BoolOr | h_NumEqual | h_NumEqualVerify | h_NumNotEqual | h_LessThan | h_GreaterThan
  | h_LessThanOrEqual | h_GreaterThanOrEqual | h_Min | h_Max | h_Within | h_Ripemd160
  | h_Sha1 | h_Sha256 | h_Hash160 | h_Hash256 | h_CodeSeparator | h_CheckSig
  | h_CheckSigVerify | h_CheckMultiSig | h_CheckMultiSigVerify | h_CheckSigAdd
  | h_CheckXmssSig | h_Invalid.

Record opcode := mkOpcode { value : Z; name : string; op_length : Z; opfunc : handler }.

(** Data push opcodes. *)
Definition opcodeArray_0 : list opcode := [
  mkOpcode OP_FALSE "OP_0" 1 h_False;
  mkOpcode OP_DATA_1 "OP_DATA_1" 2 h_PushData;
  mkOpcode OP_DATA_2 "OP_DATA_2" 3 h_PushData;
  mkOpcode OP_DATA_3 "OP_DATA_3" 4 h_PushData;
  mkOpcode OP_DATA_4 "OP_DATA_4" 5 h_PushData;
  mkOpcode OP_DATA_5 "OP_DATA_5" 6 h_PushData;
  mkOpcode OP_DATA_6 "OP_DATA_6" 7 h_PushData;
  mkOpcode OP_DATA_7 "OP_DATA_7" 8 h_PushData;
  mkOpcode OP_DATA_8 "OP_DATA_8" 9 h_PushData;
  mkOpcode OP_DATA_9 "OP_DATA_9" 10 h_PushData;
  mkOpcode OP_DATA_10 "OP_DATA_10" 11 h_PushData;
  mkOpcode OP_DATA_11 "OP_DATA_11" 12 h_PushData;
  mkOpcode OP_DATA_12 "OP_DATA_12" 13 h_PushData;
  mkOpcode OP_DATA_13 "OP_DATA_13" 14 h_PushData;
  mkOpcode OP_DATA_14 "OP_DATA_14" 15 h_PushData;
  mkOpcode OP_DATA_15 "OP_DATA_15" 16 h_PushData;
  mkOpcode OP_DATA_16 "OP_DATA_16" 17 h_PushData;
  mkOpcode OP_DATA_17 "OP_DATA_17" 18 h_PushData;
  mkOpcode OP_DATA_18 "OP_DATA_18" 19 h_PushData;
  mkOpcode OP_DATA_19 "OP_DATA_19" 20 h_PushData;
  mkOpcode OP_DATA_20 "OP_DATA_20" 21 h_PushData;
  mkOpcode OP_DATA_21 "OP_DATA_21" 22 h_PushData;
  mkOpcode OP_DATA_22 "OP_DATA_22" 23 h_PushData;
  mkOpcode OP_DATA_23 "OP_DATA_23" 24 h_PushData;
  mkOpcode OP_DATA_24 "OP_DATA_24" 25 h_PushData;
  mkOpcode OP_DATA_25 "OP_DATA_25" 26 h_PushData;
  mkOpcode OP_DATA_26 "OP_DATA_26" 27 h_PushData;
  mkOpcode OP_DATA_27 "OP_DATA_27" 28 h_PushData;
  mkOpcode OP_DATA_28 "OP_DATA_28" 29 h_PushData;
  mkOpcode OP_DATA_29 "OP_DATA_29" 30 h_PushData;
  mkOpcode OP_DATA_30 "OP_DATA_30" 31 h_PushData;
  mkOpcode OP_DATA_31 "OP_DATA_31" 32 h_PushData;
  mkOpcode OP_DATA_32 "OP_DATA_32" 33 h_PushData;
  mkOpcode OP_DATA_33 "OP_DATA_33" 34 h_PushData;
  mkOpcode OP_DATA_34 "OP_DATA_34" 35 h_PushData;
  mkOpcode OP_DATA_35 "OP_DATA_35" 36 h_PushData;
  mkOpcode OP_DATA_36 "OP_DATA_36" 37 h_PushData;
  mkOpcode OP_DATA_37 "OP_DATA_37" 38 h_PushData;
  mkOpcode OP_DATA_38 "OP_DATA_38" 39 h_PushData;
  mkOpcode OP_DATA_39 "OP_DATA_39" 40 h_PushData;
  mkOpcode OP_DATA_40 "OP_DATA_40" 41 h_PushData;
  mkOpcode OP_DATA_41 "OP_DATA_41" 42 h_PushData;
  mkOpcode OP_DATA_42 "OP_DATA_42" 43 h_PushData;
  mkOpcode OP_DATA_43 "OP_DATA_43" 44 h_PushData;
  mkOpcode OP_DATA_44 "OP_DATA_44" 45 h_PushData;
  mkOpcode OP_DATA_45 "OP_DATA_45" 46 h_PushData;
  mkOpcode OP_DATA_46 "OP_DATA_46" 47 h_PushData;
  mkOpcode OP_DATA_47 "OP_DATA_47" 48 h_PushData;
  mkOpcode OP_DATA_48 "OP_DATA_48" 49 h_PushData;
  mkOpcode OP_DATA_49 "OP_DATA_49" 50 h_PushData;
  mkOpcode OP_DATA_50 "OP_DATA_50" 51 h_PushData;
  mkOpcode OP_DATA_51 "OP_DATA_51" 52 h_PushData;
  mkOpcode OP_DATA_52 "OP_DATA_52" 53 h_PushData;
  mkOpcode OP_DATA_53 "OP_DATA_53" 54 h_PushData;
  mkOpcode OP_DATA_54 "OP_DATA_54" 55 h_PushData;
  mkOpcode OP_DATA_55 "OP_DATA_55" 56 h_PushData;
  mkOpcode OP_DATA_56 "OP_DATA_56" 57 h_PushData;
  mkOpcode OP_DATA_57 "OP_DATA_57" 58 h_PushData;
  mkOpcode OP_DATA_58 "OP_DATA_58" 59 h_PushData;
  mkOpcode OP_DATA_59 "OP_DATA_59" 60 h_PushData;
  mkOpcode OP_DATA_60 "OP_DATA_60" 61 h_PushData;
  mkOpcode OP_DATA_61 "OP_DATA_61" 62 h_PushData;
  mkOpcode OP_DATA_62 "OP_DATA_62" 63 h_PushData;
  mkOpcode OP_DATA_63 "OP_DATA_63" 64 h_PushData;
  mkOpcode OP_DATA_64 "OP_DATA_64" 65 h_PushData;
  mkOpcode OP_DATA_65 "OP_DATA_65" 66 h_PushData;
  mkOpcode OP_DATA_66 "OP_DATA_66" 67 h_PushData;
  mkOpcode OP_DATA_67 "OP_DATA_67" 68 h_PushData;
  mkOpcode OP_DATA_68 "OP_DATA_68" 69 h_PushData;
  mkOpcode OP_DATA_69 "OP_DATA_69" 70 h_PushData;
  mkOpcode OP_DATA_70 "OP_DATA_70" 71 h_PushData;
  mkOpcode OP_DATA_71 "OP_DATA_71" 72 h_PushData;
  mkOpcode OP_DATA_72 "OP_DATA_72" 73 h_PushData;
  mkOpcode OP_DATA_73 "OP_DATA_73" 74 h_PushData;
  mkOpcode OP_DATA_74 "OP_DATA_74" 75 h_PushData;
  mkOpcode OP_DATA_75 "OP_DATA_75" 76 h_PushData;
  mkOpcode OP_PUSHDATA1 "OP_PUSHDATA1" (-1) h_PushData;
  mkOpcode OP_PUSHDATA2 "OP_PUSHDATA2" (-2) h_PushData;
  mkOpcode OP_PUSHDATA4 "OP_PUSHDATA4" (-4) h_PushData;
  mkOpcode OP_1NEGATE "OP_1NEGATE" 1 h_1Negate;
  mkOpcode OP_RESERVED "OP_RESERVED" 1 h_Reserved;
  mkOpcode OP_TRUE "OP_1" 1 h_N;
  mkOpcode OP_2 "OP_2" 1 h_N;
  mkOpcode OP_3 "OP_3" 1 h_N;
  mkOpcode OP_4 "OP_4" 1 h_N;
  mkOpcode OP_5 "OP_5" 1 h_N;
  mkOpcode OP_6 "OP_6" 1 h_N;
  mkOpcode OP_7 "OP_7" 1 h_N;
  mkOpcode OP_8 "OP_8" 1 h_N;
  mkOpcode OP_9 "OP_9" 1 h_N;
  mkOpcode OP_10 "OP_10" 1 h_N;
  mkOpcode OP_11 "OP_11" 1 h_N;
  mkOpcode OP_12 "OP_12" 1 h_N;
  mkOpcode OP_13 "OP_13" 1 h_N;
  mkOpcode OP_14 "OP_14" 1 h_N;
  mkOpcode OP_15 "OP_15" 1 h_N;
  mkOpcode OP_16 "OP_16" 1 h_N].

(** Control opcodes. *)
Definition opcodeArray_1 : list opcode := [
  mkOpcode OP_NOP "OP_NOP" 1 h_Nop;
  mkOpcode OP_VER "OP_VER" 1 h_Reserved;
  mkOpcode OP_IF "OP_IF" 1 h_If;
  mkOpcode OP_NOTIF "OP_NOTIF" 1 h_NotIf;
  mkOpcode OP_VERIF "OP_VERIF" 1 h_Reserved;
  mkOpcode OP_VERNOTIF "OP_VERNOTIF" 1 h_Reserved;
  mkOpcode OP_ELSE "OP_ELSE" 1 h_Else;
  mkOpcode OP_ENDIF "OP_ENDIF" 1 h_Endif;
  mkOpcode OP_VERIFY "OP_VERIFY" 1 h_Verify;
  mkOpcode OP_RETURN "OP_RETURN" 1 h_Return;
  mkOpcode OP_CHECKLOCKTIMEVERIFY "OP_CHECKLOCKTIMEVERIFY" 1 h_CheckLockTimeVerify;
  mkOpcode OP_CHECKSEQUENCEVERIFY "OP_CHECKSEQUENCEVERIFY" 1 h_CheckSequenceVerify].

(** Stack opcodes. *)
Definition opcodeArray_2 : list opcode := [
  mkOpcode OP_TOALTSTACK "OP_TOALTSTACK" 1 h_ToAltStack;
  mkOpcode OP_FROMALTSTACK "OP_FROMALTSTACK" 1 h_FromAltStack;
  mkOpcode OP_2DROP "OP_2DROP" 1 h_2Drop;
  mkOpcode OP_2DUP "OP_2DUP" 1 h_2Dup;
  mkOpcode OP_3DUP "OP_3DUP" 1 h_3Dup;
  mkOpcode OP_2OVER "OP_2OVER" 1 h_2Over;
  mkOpcode OP_2ROT "OP_2ROT" 1 h_2Rot;
  mkOpcode OP_2SWAP "OP_2SWAP" 1 h_2Swap;
  mkOpcode OP_IFDUP "OP_IFDUP" 1 h_IfDup;
  mkOpcode OP_DEPTH "OP_DEPTH" 1 h_Depth;
  mkOpcode OP_DROP "OP_DROP" 1 h_Drop;
  mkOpcode OP_DUP "OP_DUP" 1 h_Dup;
  mkOpcode OP_NIP "OP_NIP" 1 h_Nip;
  mkOpcode OP_OVER "OP_OVER" 1 h_Over;
  mkOpcode OP_PICK "OP_PICK" 1 h_Pick;
  mkOpcode OP_ROLL "OP_ROLL" 1 h_Roll;
  mkOpcode OP_ROT "OP_ROT" 1 h_Rot;
  mkOpcode OP_SWAP "OP_SWAP" 1 h_Swap;
  mkOpcode OP_TUCK "OP_TUCK" 1 h_Tuck].

(** Splice opcodes. *)
Definition opcodeArray_3 : list opcode := [
  mkOpcode OP_CAT "OP_CAT" 1 h_Cat;
  mkOpcode OP_SUBSTR "OP_SUBSTR" 1 h_Disabled;
  mkOpcode OP_LEFT "OP_LEFT" 1 h_Disabled;
  mkOpcode OP_RIGHT "OP_RIGHT" 1 h_Disabled;
  mkOpcode OP_SIZE "OP_SIZE" 1 h_Size].

(** Bitwise logic opcodes. *)
Definition opcodeArray_4 : list opcode := [
  mkOpcode OP_INVERT "OP_INVERT" 1 h_Disabled;
  mkOpcode OP_AND "OP_AND" 1 h_Disabled;
  mkOpcode OP_OR "OP_OR" 1 h_Disabled;
  mkOpcode OP_XOR "OP_XOR" 1 h_Disabled;
  mkOpcode OP_EQUAL "OP_EQUAL" 1 h_Equal;
  mkOpcode OP_EQUALVERIFY "OP_EQUALVERIFY" 1 h_EqualVerify;
  mkOpcode OP_RESERVED1 "OP_RESERVED1" 1 h_Reserved;
  mkOpcode OP_RESERVED2 "OP_RESERVED2" 1 h_Reserved].

(** Numeric related opcodes. *)
Definition opcodeArray_5 : list opcode := [
  mkOpcode OP_1ADD "OP_1ADD" 1 h_1Add;
  mkOpcode OP_1SUB "OP_1SUB" 1 h_1Sub;
  mkOpcode OP_2MUL "OP_2MUL" 1 h_Disabled;
  mkOpcode OP_2DIV "OP_2DIV" 1 h_Disabled;
  mkOpcode OP_NEGATE "OP_NEGATE" 1 h_Negate;
  mkOpcode OP_ABS "OP_ABS" 1 h_Abs;
  mkOpcode OP_NOT "OP_NOT" 1 h_Not;
  mkOpcode OP_0NOTEQUAL "OP_0NOTEQUAL" 1 h_0NotEqual;
  mkOpcode OP_ADD "OP_ADD" 1 h_Add;
  mkOpcode OP_SUB "OP_SUB" 1 h_Sub;
  mkOpcode OP_MUL "OP_MUL" 1 h_Disabled;
  mkOpcode OP_DIV "OP_DIV" 1 h_Disabled;
  mkOpcode OP_MOD "OP_MOD" 1 h_Disabled;
  mkOpcode OP_LSHIFT "OP_LSHIFT" 1 h_Disabled;
  mkOpcode OP_RSHIFT "OP_RSHIFT" 1 h_Disabled;
  mkOpcode OP_BOOLAND "OP_BOOLAND" 1 h_BoolAnd;
  mkOpcode OP_BOOLOR "OP_BOOLOR" 1 h_BoolOr;
  mkOpcode OP_NUMEQUAL "OP_NUMEQUAL" 1 h_NumEqual;
  mkOpcode OP_NUMEQUALVERIFY "OP_NUMEQUALVERIFY" 1 h_NumEqualVerify;
  mkOpcode OP_NUMNOTEQUAL "OP_NUMNOTEQUAL" 1 h_NumNotEqual;
  mkOpcode OP_LESSTHAN "OP_LESSTHAN" 1 h_LessThan;
  mkOpcode OP_GREATERTHAN "OP_GREATERTHAN" 1 h_GreaterThan;
  mkOpcode OP_LESSTHANOREQUAL "OP_LESSTHANOREQUAL" 1 h_LessThanOrEqual;
  mkOpcode OP_GREATERTHANOREQUAL "OP_GREATERTHANOREQUAL" 1 h_GreaterThanOrEqual;
  mkOpcode OP_MIN "OP_MIN" 1 h_Min;
  mkOpcode OP_MAX "OP_MAX" 1 h_Max;
  mkOpcode OP_WITHIN "OP_WITHIN" 1 h_Within].

(** Crypto opcodes. *)
Definition opcodeArray_6 : list opcode := [
  mkOpcode OP_RIPEMD160 "OP_RIPEMD160" 1 h_Ripemd160;
  mkOpcode OP_SHA1 "OP_SHA1" 1 h_Sha1;
  mkOpcode OP_SHA256 "OP_SHA256" 1 h_Sha256;
  mkOpcode OP_HASH160 "OP_HASH160" 1 h_Hash160;
  mkOpcode OP_HASH256 "OP_HASH256" 1 h_Hash256;
  mkOpcode OP_CODESEPARATOR "OP_CODESEPARATOR" 1 h_CodeSeparator;
  mkOpcode OP_CHECKSIG "OP_CHECKSIG" 1 h_CheckSig;
  mkOpcode OP_CHECKSIGVERIFY "OP_CHECKSIGVERIFY" 1 h_CheckSigVerify;
  mkOpcode OP_CHECKMULTISIG "OP_CHECKMULTISIG" 1 h_CheckMultiSig;
  mkOpcode OP_CHECKMULTISIGVERIFY "OP_CHECKMULTISIGVERIFY" 1 h_CheckMultiSigVerify;
  mkOpcode OP_CHECKSIGADD "OP_CHECKSIGADD" 1 h_CheckSigAdd;
  mkOpcode OP_CHECKXMSSSIG "OP_CHECKXMSSSIG" 1 h_CheckXmssSig].

(** Reserved opcodes. *)
Definition opcodeArray_7 : list opcode := [
  mkOpcode OP_NOP1 "OP_NOP1" 1 h_Nop;
  mkOpcode OP_NOP4 "OP_NOP4" 1 h_Nop;
  mkOpcode OP_NOP5 "OP_NOP5" 1 h_Nop;
  mkOpcode OP_NOP6 "OP_NOP6" 1 h_Nop;
  mkOpcode OP_NOP7 "OP_NOP7" 1 h_Nop;
  mkOpcode OP_NOP8 "OP_NOP8" 1 h_Nop;
  mkOpcode OP_NOP9 "OP_NOP9" 1 h_Nop;
  mkOpcode OP_NOP10 "OP_NOP10" 1 h_Nop].

(** Undefined opcodes. *)
Definition opcodeArray_8 : list opcode := [
  mkOpcode OP_UNKNOWN187 "OP_UNKNOWN187" 1 h_Invalid;
  mkOpcode OP_UNKNOWN188 "OP_UNKNOWN188" 1 h_Invalid;
  mkOpcode OP_UNKNOWN189 "OP_UNKNOWN189" 1 h_Invalid;
  mkOpcode OP_UNKNOWN190 "OP_UNKNOWN190" 1 h_Invalid;
  mkOpcode OP_UNKNOWN191 "OP_UNKNOWN191" 1 h_Invalid;
  mkOpcode OP_UNKNOWN192 "OP_UNKNOWN192" 1 h_Invalid;
  mkOpcode OP_UNKNOWN193 "OP_UNKNOWN193" 1 h_Invalid;
  mkOpcode OP_UNKNOWN194 "OP_UNKNOWN194" 1 h_Invalid;
  mkOpcode OP_UNKNOWN195 "OP_UNKNOWN195" 1 h_Invalid;
  mkOpcode OP_UNKNOWN196 "OP_UNKNOWN196" 1 h_Invalid;
  mkOpcode OP_UNKNOWN197 "OP_UNKNOWN197" 1 h_Invalid;
  mkOpcode OP_UNKNOWN198 "OP_UNKNOWN198" 1 h_Invalid;
  mkOpcode OP_UNKNOWN199 "OP_UNKNOWN199" 1 h_Invalid;
  mkOpcode OP_UNKNOWN200 "OP_UNKNOWN200" 1 h_Invalid;
  mkOpcode OP_UNKNOWN201 "OP_UNKNOWN201" 1 h_Invalid;
  mkOpcode OP_UNKNOWN202 "OP_UNKNOWN202" 1 h_Invalid;
  mkOpcode OP_UNKNOWN203 "OP_UNKNOWN203" 1 h_Invalid;
  mkOpcode OP_UNKNOWN204 "OP_UNKNOWN204" 1 h_Invalid;
  mkOpcode OP_UNKNOWN205 "OP_UNKNOWN205" 1 h_Invalid;
  mkOpcode OP_UNKNOWN206 "OP_UNKNOWN206" 1 h_Invalid;
  mkOpcode OP_UNKNOWN207 "OP_UNKNOWN207" 1 h_Invalid;
  mkOpcode OP_UNKNOWN208 "OP_UNKNOWN208" 1 h_Invalid;
  mkOpcode OP_UNKNOWN209 "OP_UNKNOWN209" 1 h_Invalid;
  mkOpcode OP_UNKNOWN210 "OP_UNKNOWN210" 1 h_Invalid;
  mkOpcode OP_UNKNOWN211 "OP_UNKNOWN211" 1 h_Invalid;
  mkOpcode OP_UNKNOWN212 "OP_UNKNOWN212" 1 h_Invalid;
  mkOpcode OP_UNKNOWN213 "OP_UNKNOWN213" 1 h_Invalid;
  mkOpcode OP_UNKNOWN214 "OP_UNKNOWN214" 1 h_Invalid;
  mkOpcode OP_UNKNOWN215 "OP_UNKNOWN215" 1 h_Invalid;
  mkOpcode OP_UNKNOWN216 "OP_UNKNOWN216" 1 h_Invalid;
  mkOpcode OP_UNKNOWN217 "OP_UNKNOWN217" 1 h_Invalid;
  mkOpcode OP_UNKNOWN218 "OP_UNKNOWN218" 1 h_Invalid;
  mkOpcode OP_UNKNOWN219 "OP_UNKNOWN219" 1 h_Invalid;
  mkOpcode OP_UNKNOWN220 "OP_UNKNOWN220" 1 h_Invalid;
  mkOpcode OP_UNKNOWN221 "OP_UNKNOWN221" 1 h_Invalid;
  mkOpcode OP_UNKNOWN223 "OP_UNKNOWN223" 1 h_Invalid;
  mkOpcode OP_UNKNOWN224 "OP_UNKNOWN224" 1 h_Invalid;
  mkOpcode OP_UNKNOWN225 "OP_UNKNOWN225" 1 h_Invalid;
  mkOpcode OP_UNKNOWN226 "OP_UNKNOWN226" 1 h_Invalid;
  mkOpcode OP_UNKNOWN227 "OP_UNKNOWN227" 1 h_Invalid;
  mkOpcode OP_UNKNOWN228 "OP_UNKNOWN228" 1 h_Invalid;
  mkOpcode OP_UNKNOWN229 "OP_UNKNOWN229" 1 h_Invalid;
  mkOpcode OP_UNKNOWN230 "OP_UNKNOWN230" 1 h_Invalid;
  mkOpcode OP_UNKNOWN231 "OP_UNKNOWN231" 1 h_Invalid;
  mkOpcode OP_UNKNOWN232 "OP_UNKNOWN232" 1 h_Invalid;
  mkOpcode OP_UNKNOWN233 "OP_UNKNOWN233" 1 h_Invalid;
  mkOpcode OP_UNKNOWN234 "OP_UNKNOWN234" 1 h_Invalid;
  mkOpcode OP_UNKNOWN235 "OP_UNKNOWN235" 1 h_Invalid;
  mkOpcode OP_UNKNOWN236 "OP_UNKNOWN236" 1 h_Invalid;
  mkOpcode OP_UNKNOWN237 "OP_UNKNOWN237" 1 h_Invalid;
  mkOpcode OP_UNKNOWN238 "OP_UNKNOWN238" 1 h_Invalid;
  mkOpcode OP_UNKNOWN239 "OP_UNKNOWN239" 1 h_Invalid;
  mkOpcode OP_UNKNOWN240 "OP_UNKNOWN240" 1 h_Invalid;
  mkOpcode OP_UNKNOWN241 "OP_UNKNOWN241" 1 h_Invalid;
  mkOpcode OP_UNKNOWN242 "OP_UNKNOWN242" 1 h_Invalid;
  mkOpcode OP_UNKNOWN243 "OP_UNKNOWN243" 1 h_Invalid;
  mkOpcode OP_UNKNOWN244 "OP_UNKNOWN244" 1 h_Invalid;
  mkOpcode OP_UNKNOWN245 "OP_UNKNOWN245" 1 h_Invalid;
  mkOpcode OP_UNKNOWN246 "OP_UNKNOWN246" 1 h_Invalid;
  mkOpcode OP_UNKNOWN247 "OP_UNKNOWN247" 1 h_Invalid;
  mkOpcode OP_UNKNOWN248 "OP_UNKNOWN248" 1 h_Invalid;
  mkOpcode OP_UNKNOWN249 "OP_UNKNOWN249" 1 h_Invalid].

(** Bitcoin Core internal use opcode.  Defined here for completeness. *)
Definition opcodeArray_9 : list opcode := [
  mkOpcode OP_SMALLINTEGER "OP_SMALLINTEGER" 1 h_Invalid;
  mkOpcode OP_PUBKEYS "OP_PUBKEYS" 1 h_Invalid;
  mkOpcode OP_UNKNOWN252 "OP_UNKNOWN252" 1 h_Invalid;
  mkOpcode OP_PUBKEYHASH "OP_PUBKEYHASH" 1 h_Invalid;
  mkOpcode OP_PUBKEY "OP_PUBKEY" 1 h_Invalid;
  mkOpcode OP_INVALIDOPCODE "OP_INVALIDOPCODE" 1 h_Invalid].

Definition opcodeArray : list opcode :=
  opcodeArray_0 ++ opcodeArray_1 ++ opcodeArray_2 ++ opcodeArray_3 ++ opcodeArray_4 ++ opcodeArray_5 ++ opcodeArray_6 ++ opcodeArray_7 ++ opcodeArray_8 ++ opcodeArray_9.

(** [opcodeArray[b]]: the Go literal is keyed by the opcode value, which is
    also each entry's first field; an entry not listed would be the zero
    value. *)
Definition zeroOpcode : opcode := mkOpcode 0 "" 0 h_Invalid.

Definition opcode_at (b : byte) : opcode :=
  default zeroOpcode (head (filter (λ op, value op = b2z b) opcodeArray)).

(** ** Conditional execution constants *)
Inductive OpCond := OpCondFalse | OpCondTrue | OpCondSkip.

(** ** Opcode classes *)

Definition successOpcodes : list Z := [
  OP_RESERVED; OP_VER; OP_SUBSTR; OP_LEFT; OP_RIGHT; OP_INVERT; OP_AND; OP_OR; OP_XOR;
  OP_RESERVED1; OP_RESERVED2; OP_2MUL; OP_2DIV; OP_MUL; OP_DIV; OP_MOD; OP_LSHIFT;
  OP_RSHIFT; OP_UNKNOWN187; OP_UNKNOWN188; OP_UNKNOWN189; OP_UNKNOWN190; OP_UNKNOWN191;
  OP_UNKNOWN192; OP_UNKNOWN193; OP_UNKNOWN194; OP_UNKNOWN195; OP_UNKNOWN196;
  OP_UNKNOWN197; OP_UNKNOWN198; OP_UNKNOWN199; OP_UNKNOWN200; OP_UNKNOWN201;
  OP_UNKNOWN202; OP_UNKNOWN203; OP_UNKNOWN204; OP_UNKNOWN205; OP_UNKNOWN206;
  OP_UNKNOWN207; OP_UNKNOWN208; OP_UNKNOWN209; OP_UNKNOWN210; OP_UNKNOWN211;
  OP_UNKNOWN212; OP_UNKNOWN213; OP_UNKNOWN214; OP_UNKNOWN215; OP_UNKNOWN216;
  OP_UNKNOWN217; OP_UNKNOWN218; OP_UNKNOWN219; OP_UNKNOWN220; OP_UNKNOWN221;
  OP_UNKNOWN223; OP_UNKNOWN224; OP_UNKNOWN225; OP_UNKNOWN226; OP_UNKNOWN227;
  OP_UNKNOWN228; OP_UNKNOWN229; OP_UNKNOWN230; OP_UNKNOWN231; OP_UNKNOWN232;
  OP_UNKNOWN233; OP_UNKNOWN234; OP_UNKNOWN235; OP_UNKNOWN236; OP_UNKNOWN237;
  OP_UNKNOWN238; OP_UNKNOWN239; OP_UNKNOWN240; OP_UNKNOWN241; OP_UNKNOWN242;
  OP_UNKNOWN243; OP_UNKNOWN244; OP_UNKNOWN245; OP_UNKNOWN246; OP_UNKNOWN247;
  OP_UNKNOWN248; OP_UNKNOWN249; OP_SMALLINTEGER; OP_PUBKEYS; OP_UNKNOWN252;
  OP_PUBKEYHASH; OP_PUBKEY].

Definition isOpcodeDisabled (op : Z) : bool :=
  bool_decide (op ∈ [OP_SUBSTR; OP_LEFT; OP_RIGHT; OP_INVERT; OP_AND; OP_OR; OP_XOR;
    OP_2MUL; OP_2DIV; OP_MUL; OP_DIV; OP_MOD; OP_LSHIFT; OP_RSHIFT]).

Definition isOpcodeAlwaysIllegal (op : Z) : bool :=
  bool_decide (op ∈ [OP_VERIF; OP_VERNOTIF]).

Definition isOpcodeConditional (op : Z) : bool :=
  bool_decide (op ∈ [OP_IF; OP_NOTIF; OP_ELSE; OP_ENDIF]).

Definition IsSmallInt (op : Z) : bool :=
  (op =? OP_0) || ((OP_1 <=? op) && (op <=? OP_16)).

Definition AsSmallInt (op : Z) : Z :=
  if op =? OP_0 then 0 else u8 (op - (OP_1 - 1)).

Definition isCanonicalPush (op : Z) (data : bytes) : bool :=
  let dataLen := zlen data in
  if OP_16 <? op then true
  else if (op <? OP_PUSHDATA1) && (OP_0 <? op) &&
          match data with [d] => b2z d <=? 16 | _ => false end then false
  else if (op =? OP_PUSHDATA1) && (dataLen <? OP_PUSHDATA1) then false
  else if (op =? OP_PUSHDATA2) && (dataLen <=? 0xff) then false
  else if (op =? OP_PUSHDATA4) && (dataLen <=? 0xffff) then false
  else true.

(** ** The table is complete *)

Lemma opcode_at_value b : value (opcode_at b) = b2z b.
Proof. by destruct b; vm_compute. Qed.

Lemma opcode_at_length b :
  op_length (opcode_at b) = 1 ∨
  (op_length (opcode_at b) = b2z b + 1 ∧ 1 <= b2z b <= 75) ∨
  (op_length (opcode_at b) = -1 ∧ b2z b = 76) ∨
  (op_length (opcode_at b) = -2 ∧ b2z b = 77) ∨
  (op_length (opcode_at b) = -4 ∧ b2z b = 78).
Proof.
  destruct b; vm_compute; try (by left); right;
    try (left; split; [done|split; congruence]); right;
    try (by left); right; try (by left); by right.
Qed.
