(* ===== verification/Tokenizer.v ===== *)
(** * The script tokenizer ([node/txscript/tokenizer.go], [script.go])

    The tokenizer as the state its [Next] method transforms, the helpers that
    loop over a script, and the reference grammar: a script parses exactly when
    it is a concatenation of well-formed tokens, and [Next] yields these. *)
From stdpp Require Import strings.
From Stdlib Require Import Lia ZArith.
From S2P Require Import Prelude Wire ScriptError Opcode.

(** [t_data] is [None] for a nil slice; [t_op] is [None] before the first
    opcode. *)
Record ScriptTokenizer := mkTokenizer {
  t_script : bytes;
  t_version : Z;
  t_offset : Z;
  t_opcodePos : Z;
  t_op : option opcode;
  t_data : option bytes;
  t_err : option ScriptErr
}.

Definition MakeScriptTokenizer (scriptVersion : Z) (script : bytes) : ScriptTokenizer :=
  mkTokenizer script scriptVersion 0 (-1) None None
    (if scriptVersion =? 0 then None else Some (scriptError ErrUnsupportedScriptVersion)).

Definition Done (t : ScriptTokenizer) : bool :=
  match t_err t with Some _ => true | None => i32 (zlen (t_script t)) <=? t_offset t end.

Definition ByteIndex (t : ScriptTokenizer) : Z := t_offset t.
Definition OpcodePosition (t : ScriptTokenizer) : Z := t_opcodePos t.

(** [t.op.value]: a nil pointer dereference before the first opcode. *)
Definition Opcode (t : ScriptTokenizer) : result ScriptErr Z :=
  match t_op t with Some op => Ok (value op) | None => Panic end.

(** A nil slice reads as the empty one. *)
Definition Data (t : ScriptTokenizer) : bytes := default [] (t_data t).

Definition Err (t : ScriptTokenizer) : option ScriptErr := t_err t.

Definition set_pos (t : ScriptTokenizer) (pos : Z) : ScriptTokenizer :=
  mkTokenizer (t_script t) (t_version t) (t_offset t) pos (t_op t) (t_data t) (t_err t).
Definition set_err (t : ScriptTokenizer) (e : ScriptErr) : ScriptTokenizer :=
  mkTokenizer (t_script t) (t_version t) (t_offset t) (t_opcodePos t) (t_op t) (t_data t) (Some e).
Definition advance (t : ScriptTokenizer) (n : Z) (op : opcode) (data : option bytes)
    : ScriptTokenizer :=
  mkTokenizer (t_script t) (t_version t) (i32 (t_offset t + n)) (t_opcodePos t)
    (Some op) data (t_err t).

Definition Next : ST ScriptErr ScriptTokenizer bool := λ t,
  if Done t then Ok (false, t)
  else
    let t := set_pos t (i32 (t_opcodePos t + 1)) in
    b ← go_index (t_script t) (t_offset t);
    let op := opcode_at b in
    if op_length op =? 1 then Ok (true, advance t 1 op None)
    else if 1 <? op_length op then
      script ← go_slice (t_script t) (t_offset t) (zlen (t_script t));
      if zlen script <? op_length op
      then Ok (false, set_err t (scriptError ErrMalformedPush))
      else
        data ← go_slice script 1 (op_length op);
        Ok (true, advance t (i32 (op_length op)) op (Some data))
    else if op_length op <? 0 then
      script ← go_slice (t_script t) (i32 (t_offset t + 1)) (zlen (t_script t));
      if zlen script <? - op_length op
      then Ok (false, set_err t (scriptError ErrMalformedPush))
      else
        len ← go_slice script 0 (- op_length op);
        if bool_decide (op_length op ∈ [-1; -2; -4]) then
          let dataLen := i32 (le_get len) in
          script ← go_slice script (- op_length op) (zlen script);
          if (i32 (zlen script) <? dataLen) || (dataLen <? 0)
          then Ok (false, set_err t (scriptError ErrMalformedPush))
          else
            data ← go_slice script 0 dataLen;
            Ok (true, advance t (1 + i32 (- op_length op) + dataLen) op (Some data))
        else Ok (false, set_err t (scriptError ErrMalformedPush))
    else Panic.

(** [for tokenizer.Next() { body }]: the body continues with new values of the
    variables it updates, or returns from the enclosing function. *)
Section for_next.
Context {A R : Type} (body : ScriptTokenizer → A → result ScriptErr (A + R)).

Fixpoint for_next_loop (fuel : nat) (acc : A) (t : ScriptTokenizer)
    : result ScriptErr ((A * ScriptTokenizer) + R) :=
  match fuel with
  | O => Panic
  | S fuel =>
      '(more, t') ← Next t;
      if (more : bool) then
        r ← body t' acc;
        match r with
        | inl acc' => for_next_loop fuel acc' t'
        | inr v => Ok (inr v)
        end
      else Ok (inl (acc, t'))
  end.

(** An opcode takes at least a byte of the script. *)
Definition for_next (acc : A) (t : ScriptTokenizer) : result ScriptErr ((A * ScriptTokenizer) + R) :=
  for_next_loop (S (length (t_script t))) acc t.
End for_next.

(** ** Helpers on whole scripts *)

Definition checkScriptParses (scriptVersion : Z) (script : bytes)
    : result ScriptErr (option ScriptErr) :=
  r ← for_next (R := Empty_set) (λ _ _, Ok (inl ())) () (MakeScriptTokenizer scriptVersion script);
  match r with inl (_, t) => Ok (Err t) | inr v => match (v : Empty_set) with end end.

Definition IsPushOnlyScript (script : bytes) : result ScriptErr bool :=
  r ← for_next (λ t _, op ← Opcode t; Ok (if OP_16 <? op then inr false else inl ())) ()
    (MakeScriptTokenizer 0 script);
  match r with inl (_, t) => Ok (bool_decide (Err t = None)) | inr v => Ok v end.

Definition ScriptHasOpSuccess (witnessScript : bytes) : result ScriptErr bool :=
  r ← for_next (λ t _, op ← Opcode t;
                  Ok (if bool_decide (op ∈ successOpcodes) then inr true else inl ())) ()
    (MakeScriptTokenizer 0 witnessScript);
  match r with inl _ => Ok false | inr v => Ok v end.

(** [PushedData]: a nil entry is a push of no bytes. *)
Definition PushedData (script : bytes) : result ScriptErr (list bytes) :=
  r ← for_next (R := Empty_set)
    (λ t data,
       match t_data t with
       | Some d => Ok (inl (data ++ [d]))
       | None => op ← Opcode t; Ok (inl (if op =? OP_0 then data ++ [[]] else data))
       end) [] (MakeScriptTokenizer 0 script);
  match r with
  | inl (data, t) => match Err t with Some e => Fail e | None => Ok data end
  | inr v => match (v : Empty_set) with end
  end.

(** ** Reference grammar

    A token is an opcode of the table with the data its length prescribes. *)
Record token := mkToken { tk_op : byte; tk_data : option bytes }.

Definition tk_opcode (tk : token) : opcode := opcode_at (tk_op tk).

Definition wf_token (tk : token) : Prop :=
  let len := op_length (tk_opcode tk) in
  match tk_data tk with
  | None => len = 1
  | Some d =>
      len ≠ 1 ∧
      (1 < len → zlen d = len - 1) ∧
      (len < 0 → zlen d < 256 ^ (- len) ∧ zlen d < 2 ^ 31)
  end.

#[global] Instance wf_token_dec tk : Decision (wf_token tk).
Proof. unfold wf_token. destruct (tk_data tk); apply _. Defined.

(** What a token looks like in a script. *)
Definition tk_bytes (tk : token) : bytes :=
  let len := op_length (tk_opcode tk) in
  match tk_data tk with
  | None => [tk_op tk]
  | Some d => tk_op tk :: (if len <? 0 then le_put (Z.to_nat (- len)) (zlen d) else []) ++ d
  end.

Definition script_of (tks : list token) : bytes := concat (map tk_bytes tks).

(** The tokenizer after the tokens of [pre], [pos] opcodes into the script. *)
Definition tok_at (script : bytes) (pre : bytes) (pos : Z) (last : option token)
    : ScriptTokenizer :=
  mkTokenizer script 0 (zlen pre) pos (tk_opcode <$> last)
    (match last with Some tk => tk_data tk | None => None end) None.

(** Scripts whose length an [int32] holds. *)
Definition script_ok (script : bytes) : Prop := zlen script < 2 ^ 31.

Lemma tk_bytes_nonempty tk : 0 < zlen (tk_bytes tk).
Proof. unfold tk_bytes. destruct (tk_data tk); rewrite zlen_cons; unfold zlen; lia. Qed.

Lemma opcode_cases b :
  let len := op_length (opcode_at b) in
  len = 1 ∨ 1 < len <= 76 ∨ (len = -1 ∨ len = -2 ∨ len = -4).
Proof. pose proof (opcode_at_length b). cbv zeta. lia. Qed.

(** ** [Next] yields the next token *)

Lemma i32_le_get_neg k lenb n :
  zlen lenb = k → k <= 4 → 0 <= n < 2 ^ 31 →
  (n <? i32 (le_get lenb)) || (i32 (le_get lenb) <? 0) = (n <? le_get lenb).
Proof.
  intros Hk H4 Hn. pose proof (le_get_bound lenb) as Hb.
  assert (256 ^ Z.of_nat (length lenb) <= 2 ^ 32).
  { change (2 ^ 32) with (256 ^ 4). apply Z.pow_le_mono_r; unfold zlen in *; lia. }
  destruct (decide (le_get lenb < 2 ^ 31)) as [Hs|Hs].
  - rewrite i32_small by (unfold is_i32; lia). rewrite (proj2 (Z.ltb_ge _ 0)) by lia.
    apply orb_false_r.
  - assert (i32 (le_get lenb) < 0) as Hneg.
    { unfold i32. rewrite <-(Z.mod_add _ (-1)), Z.mod_small by lia. lia. }
    rewrite (proj2 (Z.ltb_lt _ 0)), orb_true_r by done. symmetry. apply Z.ltb_lt. lia.
Qed.

(** The three outcomes of [Next] on a tokenizer with [rest] left. *)
Inductive next_outcome (t : ScriptTokenizer) (pre rest : bytes) (pos : Z)
    : bool * ScriptTokenizer → Prop :=
| next_end : rest = [] → next_outcome t pre rest pos (false, t)
| next_token tk rest' :
    wf_token tk → rest = tk_bytes tk ++ rest' →
    next_outcome t pre rest pos
      (true, tok_at (t_script t) (pre ++ tk_bytes tk) (pos + 1) (Some tk))
| next_malformed :
    (∀ tk rest', wf_token tk → rest ≠ tk_bytes tk ++ rest') → rest ≠ [] →
    next_outcome t pre rest pos
      (false, set_err (set_pos t (pos + 1)) (scriptError ErrMalformedPush)).

Lemma advance_at script pre pos op0 data0 n b data :
  script_ok script → 0 <= n → zlen pre + n <= zlen script →
  zlen (tk_bytes (mkToken b data)) = n →
  advance (mkTokenizer script 0 (zlen pre) pos op0 data0 None) n (opcode_at b) data =
  tok_at script (pre ++ tk_bytes (mkToken b data)) pos (Some (mkToken b data)).
Proof.
  unfold script_ok. intros Hok Hn Hs Hl. unfold advance, tok_at. cbn.
  pose proof (zlen_nonneg pre). rewrite zlen_app, Hl.
  by rewrite i32_small by (unfold is_i32; lia).
Qed.

Lemma Next_fixed script pre b body pos last :
  script = pre ++ b :: body → script_ok script →
  1 < op_length (opcode_at b) <= 76 →
  ∃ out, next_outcome (tok_at script pre pos last) pre (b :: body) pos out ∧
  (script' ← go_slice script (zlen pre) (zlen script);
   if zlen script' <? op_length (opcode_at b)
   then Ok (false, set_err (set_pos (tok_at script pre pos last) (pos + 1))
                     (scriptError ErrMalformedPush))
   else
     data ← go_slice script' 1 (op_length (opcode_at b));
     Ok (true, advance (set_pos (tok_at script pre pos last) (pos + 1))
                 (i32 (op_length (opcode_at b))) (opcode_at b) (Some data)))
  = Ok out (E := ScriptErr).
Proof.
  intros Hscript Hok Hlen. remember (op_length (opcode_at b)) as len eqn:Elen.
  assert (go_slice (E:=ScriptErr) script (zlen pre) (zlen script) = Ok (b :: body)) as ->.
  { rewrite Hscript. apply go_slice_tail; len_solve. }
  cbn [mbind result_bind].
  destruct (Z.ltb_spec (zlen (b :: body)) len) as [Hlt|Hge].
  - eexists. split; [|done]. constructor; [|done].
    intros [b' data'] rest' Hwf Heq. unfold wf_token, tk_opcode in Hwf. unfold tk_bytes, tk_opcode in Heq.
    cbn [tk_op tk_data] in *.
    destruct data' as [d|]; injection Heq as Hb Heq; subst b'; rewrite <-Elen in *; [|lia].
    rewrite (proj2 (Z.ltb_ge len 0)) in Heq by lia. cbn [app] in Heq. subst body.
    destruct Hwf as (_ & Hd & _). specialize (Hd ltac:(lia)). len_solve.
  - destruct (split_at body (len - 1)) as (d & rest' & -> & Hd).
    { rewrite zlen_cons in Hge. lia. }
    change (b :: d ++ rest') with ([b] ++ d ++ rest').
    rewrite go_slice_at by len_solve. cbn [mbind result_bind].
    rewrite i32_small by (unfold is_i32; lia).
    assert (tk_bytes (mkToken b (Some d)) = b :: d) as Htk.
    { unfold tk_bytes, tk_opcode. cbn [tk_op tk_data]. rewrite <-Elen.
      by rewrite (proj2 (Z.ltb_ge len 0)) by lia. }
    eexists. split; [apply (next_token _ _ _ _ (mkToken b (Some d)) rest')|].
    + unfold wf_token, tk_opcode. cbn [tk_op tk_data]. rewrite <-Elen. split_and!; lia.
    + by rewrite Htk.
    + f_equal. f_equal. apply advance_at; rewrite ?Htk; unfold tok_at; cbn [t_script];
        subst script; unfold script_ok in *; len_solve.
Qed.

Lemma Next_pushdata script pre b body pos last :
  script = pre ++ b :: body → script_ok script →
  op_length (opcode_at b) ∈ [-1; -2; -4] →
  let t := set_pos (tok_at script pre pos last) (pos + 1) in
  let len := op_length (opcode_at b) in
  ∃ out, next_outcome (tok_at script pre pos last) pre (b :: body) pos out ∧
  (script' ← go_slice script (i32 (zlen pre + 1)) (zlen script);
   if zlen script' <? - len then Ok (false, set_err t (scriptError ErrMalformedPush))
   else
     lenb ← go_slice script' 0 (- len);
     if bool_decide (len ∈ [-1; -2; -4]) then
       let dataLen := i32 (le_get lenb) in
       script'' ← go_slice script' (- len) (zlen script');
       if (i32 (zlen script'') <? dataLen) || (dataLen <? 0)
       then Ok (false, set_err t (scriptError ErrMalformedPush))
       else
         data ← go_slice script'' 0 dataLen;
         Ok (true, advance t (1 + i32 (- len) + dataLen) (opcode_at b) (Some data))
     else Ok (false, set_err t (scriptError ErrMalformedPush))) = Ok out (E := ScriptErr).
Proof.
  intros Hscript Hok Hin. cbv zeta. rewrite (bool_decide_eq_true_2 _ Hin).
  remember (op_length (opcode_at b)) as len eqn:Elen.
  assert (len = -1 ∨ len = -2 ∨ len = -4) as Hlen
    by (clear -Hin; repeat (apply elem_of_cons in Hin as [->|Hin]; [by auto|]);
        by apply elem_of_nil in Hin). clear Hin.
  unfold script_ok in Hok.
  assert (zlen pre + 1 + zlen body < 2 ^ 31) as Hok' by (subst script; len_solve).
  pose proof (zlen_nonneg pre). pose proof (zlen_nonneg body).
  rewrite (i32_small (zlen pre + 1)) by (unfold is_i32; lia).
  assert (go_slice (E:=ScriptErr) script (zlen pre + 1) (zlen script) = Ok body) as ->.
  { rewrite Hscript. change (pre ++ b :: body) with (pre ++ [b] ++ body).
    rewrite (assoc_L (++)). apply go_slice_tail; len_solve. }
  cbn [mbind result_bind].
  assert (∀ lenb rest tk rest', wf_token tk → body = lenb ++ rest → zlen lenb = - len →
    b :: body = tk_bytes tk ++ rest' → zlen rest >= le_get lenb) as Hparse.
  { intros lenb rest [b' [d|]] rest' Hwf Hbody Hl Heq; unfold wf_token, tk_opcode in Hwf;
      unfold tk_bytes, tk_opcode in Heq; cbn [tk_op tk_data] in *;
      injection Heq as Hb Heq; subst b'; rewrite <-Elen in *; [|lia].
    rewrite (proj2 (Z.ltb_lt len 0)), Hbody, <-(assoc_L (++)) in Heq by lia.
    apply app_inj_1 in Heq as [-> ->].
    - rewrite le_get_put, Z.mod_small; [len_solve|]. rewrite Z2Nat.id by lia.
      split; [apply zlen_nonneg|lia].
    - rewrite length_le_put. unfold zlen in Hl. lia. }
  destruct (Z.ltb_spec (zlen body) (- len)) as [Hlt|Hge].
  - eexists. split; [|done]. constructor; [|done].
    intros [b' [d|]] rest' Hwf Heq; unfold wf_token, tk_opcode in Hwf;
      unfold tk_bytes, tk_opcode in Heq; cbn [tk_op tk_data] in *;
      injection Heq as Hb Heq; subst b'; rewrite <-Elen in *; [|lia].
    rewrite (proj2 (Z.ltb_lt len 0)) in Heq by lia. rewrite Heq, !zlen_app, zlen_le_put in Hlt.
    pose proof (zlen_nonneg d). pose proof (zlen_nonneg rest'). lia.
  - destruct (split_at body (- len)) as (lenb & rest & Hbody & Hl); [lia|].
    assert (go_slice (E:=ScriptErr) body 0 (- len) = Ok lenb) as ->
      by (rewrite Hbody; by apply go_slice_prefix).
    cbn [mbind result_bind].
    assert (go_slice (E:=ScriptErr) body (- len) (zlen body) = Ok rest) as ->
      by (rewrite Hbody; apply go_slice_tail; len_solve).
    cbn [mbind result_bind].
    assert (zlen rest <= zlen body) by (rewrite Hbody; len_solve).
    pose proof (zlen_nonneg rest).
    rewrite (i32_small (zlen rest)) by (unfold is_i32; lia).
    rewrite (i32_le_get_neg (- len)) by lia.
    destruct (Z.ltb_spec (zlen rest) (le_get lenb)) as [Hlt|Hge'].
    + eexists. split; [|done]. constructor; [|done].
      intros tk rest' Hwf Heq. specialize (Hparse lenb rest tk rest' Hwf Hbody Hl Heq). lia.
    + pose proof (le_get_bound lenb) as Hlb.
      rewrite (i32_small (le_get lenb)), (i32_small (- len)) by (unfold is_i32; lia).
      destruct (split_at rest (le_get lenb)) as (d & rest' & -> & Hd); [lia|].
      rewrite go_slice_prefix by done. cbn [mbind result_bind].
      assert (tk_bytes (mkToken b (Some d)) = b :: lenb ++ d) as Htk.
      { unfold tk_bytes, tk_opcode. cbn [tk_op tk_data]. rewrite <-Elen.
        rewrite (proj2 (Z.ltb_lt len 0)) by lia. f_equal. f_equal.
        rewrite Hd. replace (Z.to_nat (- len)) with (length lenb) by (unfold zlen in Hl; lia).
        apply le_put_get. }
      eexists. split; [apply (next_token _ _ _ _ (mkToken b (Some d)) rest')|].
      * unfold wf_token, tk_opcode. cbn [tk_op tk_data]. rewrite <-Elen.
        split_and!; [lia|lia|]. intros _. rewrite Hd.
        replace (- len) with (Z.of_nat (length lenb)) by (unfold zlen in Hl; lia).
        split; [apply Hlb|lia].
      * rewrite Htk, Hbody. by app_norm.
      * f_equal. f_equal. rewrite <-Hl, <-Hd. apply advance_at; rewrite ?Htk; unfold tok_at;
          cbn [t_script]; clear Hparse; subst script body; unfold script_ok; len_solve.
Qed.

Lemma go_index_done script pre rest pos last :
  script = pre ++ rest → script_ok script →
  Done (tok_at script pre pos last) = bool_decide (rest = []).
Proof.
  intros -> Hok. unfold Done, tok_at. cbn [t_err t_script t_offset].
  unfold script_ok in Hok. rewrite zlen_app in *. pose proof (zlen_nonneg pre).
  pose proof (zlen_nonneg rest). rewrite i32_small by (unfold is_i32; lia).
  case_bool_decide as Hr; [subst; apply Z.leb_le; rewrite zlen_nil; lia|].
  apply Z.leb_gt. destruct rest; [done|]. rewrite zlen_cons. pose proof (zlen_nonneg rest). lia.
Qed.

(** [Next] never panics: the table has no opcode of length zero. *)
Lemma Next_outcome script pre rest pos last :
  script = pre ++ rest → script_ok script → -1 <= pos < 2 ^ 31 - 1 →
  ∃ out, next_outcome (tok_at script pre pos last) pre rest pos out ∧
    Next (tok_at script pre pos last) = Ok out.
Proof.
  intros Hscript Hok Hpos. unfold Next. rewrite (go_index_done _ pre rest) by done.
  case_bool_decide as Hr; [eexists; split; [by constructor|done]|].
  destruct rest as [|b body]; [done|]. cbv zeta.
  change (t_opcodePos (tok_at script pre pos last)) with pos.
  rewrite (i32_small (pos + 1)) by (unfold is_i32; lia).
  assert (go_index (E:=ScriptErr) (t_script (set_pos (tok_at script pre pos last) (pos + 1)))
    (t_offset (set_pos (tok_at script pre pos last) (pos + 1))) = Ok b) as ->.
  { unfold set_pos, tok_at. cbn [t_script t_offset]. rewrite Hscript. by apply go_index_mid. }
  cbn [mbind result_bind].
  destruct (opcode_cases b) as [H1|[Hf|Hn]].
  - rewrite H1. cbn [Z.eqb Pos.eqb]. eexists.
    split; [apply (next_token _ _ _ _ (mkToken b None) body); [by apply H1|done]|].
    f_equal. f_equal. unfold set_pos, tok_at. cbn [t_script t_version t_offset t_op t_data t_err].
    apply advance_at; try done; subst script; [len_solve].
  - rewrite (proj2 (Z.eqb_neq _ _)), (proj2 (Z.ltb_lt 1 _)) by lia.
    by apply Next_fixed.
  - rewrite (proj2 (Z.eqb_neq _ _)), (proj2 (Z.ltb_ge 1 _)), (proj2 (Z.ltb_lt _ 0)) by lia.
    apply Next_pushdata; [done..|].
    rewrite !elem_of_cons, elem_of_nil. tauto.
Qed.

(** ** Tokenizations *)

(** No token starts here. *)
Definition stuck (tail : bytes) : Prop :=
  ∀ tk rest, wf_token tk → tail ≠ tk_bytes tk ++ rest.

Lemma script_of_cons tk tks : script_of (tk :: tks) = tk_bytes tk ++ script_of tks.
Proof. done. Qed.

Lemma script_of_app tks tks' : script_of (tks ++ tks') = script_of tks ++ script_of tks'.
Proof. unfold script_of. by rewrite map_app, concat_app. Qed.

Lemma tk_bytes_cons tk rest : ∃ rest', tk_bytes tk ++ rest = tk_op tk :: rest'.
Proof. unfold tk_bytes. destruct (tk_data tk); cbn [app]; by eexists. Qed.

(** Unique decodability. *)
Lemma tk_bytes_inj tk tk' rest rest' :
  wf_token tk → wf_token tk' → tk_bytes tk ++ rest = tk_bytes tk' ++ rest' →
  tk = tk' ∧ rest = rest'.
Proof.
  destruct tk as [b d], tk' as [b' d']. intros Hwf Hwf' Heq.
  assert (b = b') as <-.
  { destruct (tk_bytes_cons (mkToken b d) rest) as [? E].
    destruct (tk_bytes_cons (mkToken b' d') rest') as [? E'].
    rewrite E, E' in Heq. by injection Heq. }
  unfold wf_token, tk_bytes, tk_opcode in *. cbn [tk_op tk_data] in *.
  pose proof (opcode_cases b) as Hc. cbv zeta in *.
  remember (op_length (opcode_at b)) as len eqn:El. clear El.
  destruct d as [d|], d' as [d'|]; [|lia|lia|by injection Heq].
  cbn [app] in Heq. injection Heq as Heq. destruct Hwf as (Hne & H1 & H2), Hwf' as (_ & H1' & H2').
  destruct (Z.ltb_spec len 0) as [Hl|Hl]; cbn [app] in Heq.
  - rewrite <-!(assoc_L (++)) in Heq.
    apply app_inj_1 in Heq as [He Heq]; [|by rewrite !length_le_put].
    specialize (H2 Hl). specialize (H2' Hl).
    apply (f_equal le_get) in He. rewrite !le_get_put_small in He
      by (rewrite Z2Nat.id by lia; pose proof (zlen_nonneg d); pose proof (zlen_nonneg d'); lia).
    apply app_inj_1 in Heq as [-> ->]; [done|]. unfold zlen in He. lia.
  - specialize (H1 ltac:(lia)). specialize (H1' ltac:(lia)).
    apply app_inj_1 in Heq as [-> ->]; [done|]. unfold zlen in *. lia.
Qed.

(** [Next] on a token that is there. *)
Lemma Next_run script pre tk rest pos last :
  script = pre ++ tk_bytes tk ++ rest → script_ok script → -1 <= pos < 2 ^ 31 - 1 →
  wf_token tk →
  Next (tok_at script pre pos last) = Ok (true, tok_at script (pre ++ tk_bytes tk) (pos + 1) (Some tk)).
Proof.
  intros Hs Hok Hpos Hw.
  destruct (Next_outcome script pre (tk_bytes tk ++ rest) pos last) as (out & Ho & ->); [done..|].
  destruct Ho as [Ht|tk' rest' Hw' Ht|Ht _].
  - destruct (tk_bytes_cons tk rest) as [? E]. by rewrite E in Ht.
  - by apply tk_bytes_inj in Ht as [<- <-].
  - by destruct (Ht tk rest).
Qed.

(** Every script is a list of tokens and a tail that is empty or malformed. *)
Lemma tokenize rest :
  script_ok rest → ∃ tks tail, Forall wf_token tks ∧ rest = script_of tks ++ tail ∧ stuck tail.
Proof.
  remember (length rest) as n eqn:Hn. revert rest Hn.
  induction (lt_wf n) as [n _ IH]. intros rest -> Hok.
  destruct (Next_outcome rest [] rest 0 None) as (out & Ho & _); [done..|].
  destruct Ho as [Hr|tk rest' Hwf Hr|Hr _].
  - exists [], rest. split_and!; [done|done|]. subst. intros tk r _ Heq.
    destruct (tk_bytes_cons tk r) as [? E]. by rewrite E in Heq.
  - pose proof (tk_bytes_nonempty tk).
    destruct (IH (length rest')) with (rest := rest') as (tks & tail & Hw & Hr' & Hs).
    + subst rest. rewrite length_app. unfold zlen in *. lia.
    + done.
    + subst rest. unfold script_ok in *. rewrite zlen_app in Hok. lia.
    + exists (tk :: tks), tail. split_and!; [by constructor| |done].
      rewrite script_of_cons, <-(assoc_L (++)). by rewrite Hr, Hr'.
  - exists [], rest. split_and!; [done|done|exact Hr].
Qed.

Lemma stuck_nil : stuck [].
Proof. intros tk rest _ Heq. destruct (tk_bytes_cons tk rest) as [? E]. by rewrite E in Heq. Qed.

Lemma tokenize_unique tks tks' tail tail' :
  Forall wf_token tks → Forall wf_token tks' → stuck tail → stuck tail' →
  script_of tks ++ tail = script_of tks' ++ tail' → tks = tks' ∧ tail = tail'.
Proof.
  intros H. revert tks'. induction H as [|tk tks Hw Hws IH]; intros tks' H' Hs Hs' Heq.
  - destruct H' as [|tk' tks' Hw' Hws']; [done|].
    rewrite script_of_cons, <-(assoc_L (++)) in Heq. by apply (Hs tk') in Heq.
  - destruct H' as [|tk' tks' Hw' Hws'].
    + rewrite script_of_cons, <-(assoc_L (++)) in Heq. symmetry in Heq. by apply (Hs' tk) in Heq.
    + rewrite !script_of_cons, <-!(assoc_L (++)) in Heq.
      apply tk_bytes_inj in Heq as [-> Heq]; [|done..].
      by destruct (IH tks' Hws' Hs Hs' Heq) as [-> ->].
Qed.

Lemma script_of_length tks : Z.of_nat (length tks) <= zlen (script_of tks).
Proof.
  induction tks as [|tk tks IH]; [done|]. rewrite script_of_cons, zlen_app.
  pose proof (tk_bytes_nonempty tk). cbn [length]. lia.
Qed.

(** ** Loops over the tokens *)

Section for_next_spec.
Context {A R : Type} (body : ScriptTokenizer → A → result ScriptErr (A + R)).
Context (script : bytes) (Hok : script_ok script).

(** The loop, run over a list of tokens. *)
Fixpoint fold_tokens (tks : list token) (pre : bytes) (pos : Z) (last : option token) (acc : A)
    : result ScriptErr ((A * ScriptTokenizer) + R) :=
  match tks with
  | [] => Ok (inl (acc, tok_at script pre pos last))
  | tk :: tks =>
      r ← body (tok_at script (pre ++ tk_bytes tk) (pos + 1) (Some tk)) acc;
      match r with
      | inl acc' => fold_tokens tks (pre ++ tk_bytes tk) (pos + 1) (Some tk) acc'
      | inr v => Ok (inr v)
      end
  end.

(** The tokenizer when the loop ends: a malformed tail leaves an error. *)
Definition at_end (tail : bytes) (r : (A * ScriptTokenizer) + R) : (A * ScriptTokenizer) + R :=
  match r with
  | inl (acc, t) =>
      inl (acc, if bool_decide (tail = []) then t
                else set_err (set_pos t (t_opcodePos t + 1)) (scriptError ErrMalformedPush))
  | inr v => inr v
  end.

Lemma for_next_tokens tks tail fuel pre pos last acc :
  script = pre ++ script_of tks ++ tail → Forall wf_token tks → stuck tail →
  -1 <= pos < zlen pre → (length tks < fuel)%nat →
  for_next_loop body fuel acc (tok_at script pre pos last) =
  (r ← fold_tokens tks pre pos last acc; Ok (at_end tail r)).
Proof.
  revert fuel pre pos last acc.
  induction tks as [|tk tks IH]; intros fuel pre pos last acc Hs Hwf Hst Hpos Hf;
    (destruct fuel as [|fuel]; [cbn in Hf; lia|]); cbn [for_next_loop].
  - destruct (Next_outcome script pre tail pos last) as (out & Ho & ->); [done..| |].
    { pose proof Hok as Hok'. unfold script_ok in Hok'. rewrite Hs, zlen_app in Hok'.
      pose proof (zlen_nonneg (script_of [] ++ tail)). lia. }
    cbn [mbind result_bind fold_tokens at_end].
    destruct Ho as [Ht|tk rest' Hw Ht|_ Ht].
    + by rewrite bool_decide_eq_true_2.
    + by apply Hst in Ht.
    + by rewrite bool_decide_eq_false_2.
  - apply Forall_cons in Hwf as [Hw Hws]. pose proof (tk_bytes_nonempty tk) as Hne.
    rewrite script_of_cons, <-(assoc_L (++)) in Hs.
    destruct (Next_outcome script pre (tk_bytes tk ++ script_of tks ++ tail) pos last)
      as (out & Ho & ->); [done..| |].
    { pose proof Hok as Hok'. unfold script_ok in Hok'. rewrite Hs, !zlen_app in Hok'.
      pose proof (zlen_nonneg (script_of tks)). pose proof (zlen_nonneg tail). lia. }
    cbn [mbind result_bind fold_tokens].
    destruct Ho as [Ht|tk' rest' Hw' Ht|Ht _].
    + destruct (tk_bytes_cons tk (script_of tks ++ tail)) as [? E]. by rewrite E in Ht.
    + apply tk_bytes_inj in Ht as [<- <-]; [|done..].
      unfold tok_at at 1. cbn [t_script].
      destruct (body _ acc) as [[acc'|v]| |]; try done. cbn [mbind result_bind].
      apply IH; [by rewrite <-(assoc_L (++))|done|done|rewrite zlen_app; lia|cbn in Hf; lia].
    + by destruct (Ht tk (script_of tks ++ tail)).
Qed.

Lemma for_next_spec tks tail acc :
  script = script_of tks ++ tail → Forall wf_token tks → stuck tail →
  for_next body acc (MakeScriptTokenizer 0 script) =
  (r ← fold_tokens tks [] (-1) None acc; Ok (at_end tail r)).
Proof.
  intros Hs Hwf Hst. unfold for_next.
  change (MakeScriptTokenizer 0 script) with (tok_at script [] (-1) None).
  apply for_next_tokens; [done..|].
  cbn [t_script tok_at]. rewrite Hs, length_app.
  pose proof (script_of_length tks). unfold zlen in *. lia.
Qed.
End for_next_spec.

(** ** Properties *)

(** The scripts that parse. *)
Definition parses (script : bytes) : Prop :=
  ∃ tks, Forall wf_token tks ∧ script = script_of tks.

Lemma fold_tokens_unit {R} script tks pre pos last :
  ∃ last' pos', fold_tokens (R := R) (λ _ _, Ok (inl ())) script tks pre pos last () =
    Ok (inl ((), tok_at script (pre ++ script_of tks) pos' last')).
Proof.
  revert pre pos last. induction tks as [|tk tks IH]; intros pre pos last.
  - rewrite app_nil_r. by eexists _, _.
  - destruct (IH (pre ++ tk_bytes tk) (pos + 1) (Some tk)) as (last' & pos' & E).
    exists last', pos'. cbn [fold_tokens mbind result_bind]. rewrite E.
    by rewrite script_of_cons, (assoc_L (++)).
Qed.

Lemma parses_tail tks tail :
  Forall wf_token tks → stuck tail → parses (script_of tks ++ tail) ↔ tail = [].
Proof.
  intros Hw Hst. split.
  - intros (tks' & Hw' & Heq). rewrite <-(app_nil_r (script_of tks')) in Heq.
    apply tokenize_unique in Heq as [_ ->]; auto using stuck_nil.
  - intros ->. exists tks. by rewrite app_nil_r.
Qed.

Lemma checkScriptParses_cases script :
  script_ok script →
  (parses script ∧ checkScriptParses 0 script = Ok None) ∨
  (¬ parses script ∧ checkScriptParses 0 script = Ok (Some (scriptError ErrMalformedPush))).
Proof.
  intros Hok. destruct (tokenize script Hok) as (tks & tail & Hw & Hs & Hst).
  unfold checkScriptParses. erewrite for_next_spec by done.
  destruct (fold_tokens_unit (R := Empty_set) script tks [] (-1) None) as (last & pos & ->).
  cbn [mbind result_bind at_end]. rewrite Hs, (parses_tail tks tail) by done.
  case_bool_decide as Ht; [by left|by right].
Qed.

(** The parse check decides the grammar: [checkScriptParses] finds no
    error exactly on the concatenations of well-formed tokens (each push
    followed by all the bytes its length announces), it never panics, a failure
    is always a malformed push, and the tokens are unique. *)
Theorem checkScriptParses_spec script :
  script_ok script →
  (checkScriptParses 0 script = Ok None ↔ parses script) ∧
  (checkScriptParses 0 script = Ok (Some (scriptError ErrMalformedPush)) ↔ ¬ parses script) ∧
  (∀ tks tks', Forall wf_token tks → Forall wf_token tks' →
     script = script_of tks → script = script_of tks' → tks = tks').
Proof.
  intros Hok. split_and!.
  - destruct (checkScriptParses_cases script Hok) as [[? ->]|[? ->]]; by split.
  - destruct (checkScriptParses_cases script Hok) as [[? ->]|[? ->]]; by split.
  - intros tks tks' Hw Hw' Hs Hs'.
    assert (script_of tks ++ [] = script_of tks' ++ []) as Heq by congruence.
    apply tokenize_unique in Heq as [-> _]; auto using stuck_nil.
Qed.

Lemma Opcode_at script pre pos tk :
  Opcode (tok_at script pre pos (Some tk)) = Ok (b2z (tk_op tk)).
Proof. change (Ok (E:=ScriptErr) (value (opcode_at (tk_op tk))) = Ok (b2z (tk_op tk))).
  by rewrite opcode_at_value.
Qed.

Lemma fold_tokens_push script tks pre pos last :
  ∃ last' pos',
  fold_tokens (λ t _, op ← Opcode t; Ok (if OP_16 <? op then inr false else inl ()))
    script tks pre pos last () =
  if forallb (λ tk, b2z (tk_op tk) <=? OP_16) tks
  then Ok (inl ((), tok_at script (pre ++ script_of tks) pos' last')) else Ok (inr false).
Proof.
  revert pre pos last. induction tks as [|tk tks IH]; intros pre pos last.
  - rewrite app_nil_r. by eexists _, _.
  - destruct (IH (pre ++ tk_bytes tk) (pos + 1) (Some tk)) as (last' & pos' & E).
    exists last', pos'. cbn [fold_tokens].
    rewrite Opcode_at. cbn [mbind result_bind forallb]. rewrite Z.leb_antisym.
    destruct (OP_16 <? b2z (tk_op tk)); cbn [negb andb]; [done|].
    rewrite E. by rewrite script_of_cons, (assoc_L (++)).
Qed.

Lemma IsPushOnlyScript_cases script :
  script_ok script →
  ∃ b, IsPushOnlyScript script = Ok b ∧
  (b = true ↔ ∃ tks, Forall wf_token tks ∧ script = script_of tks ∧
     Forall (λ tk, b2z (tk_op tk) <= OP_16) tks).
Proof.
  intros Hok. destruct (tokenize script Hok) as (tks & tail & Hw & Hs & Hst).
  unfold IsPushOnlyScript. erewrite for_next_spec by done.
  destruct (fold_tokens_push script tks [] (-1) None) as (last & pos & ->).
  assert (forallb (λ tk, b2z (tk_op tk) <=? OP_16) tks = true ↔
          Forall (λ tk, b2z (tk_op tk) <= OP_16) tks) as Hall.
  { rewrite forallb_forall, List.Forall_forall.
    split; intros H tk Htk; [apply Z.leb_le|apply Z.leb_le]; auto. }
  destruct (forallb _ tks) eqn:E; cbn [mbind result_bind at_end].
  - eexists. split; [done|]. destruct (bool_decide_reflect (tail = [])) as [Ht|Ht]; cbn.
    + split; [|done]. intros _.
      exists tks. rewrite Ht, app_nil_r in Hs. split_and!; [done|done|by apply Hall].
    + split; [done|]. intros (tks' & Hw' & Hs' & _). destruct Ht. apply (parses_tail tks); [done..|].
      exists tks'. by rewrite <-Hs.
  - exists false. split; [done|]. split; [done|]. intros (tks' & Hw' & Hs' & Hp).
    assert (script_of tks ++ tail = script_of tks' ++ []) as Heq by (rewrite app_nil_r; congruence).
    apply tokenize_unique in Heq as [-> _]; auto using stuck_nil. by apply Hall in Hp.
Qed.

Lemma checkScriptParses_spec_witness :
  checkScriptParses 0 [x02; xaa; xbb; x4c; x01; xcc; x87] = Ok None ∧
  checkScriptParses 0 [x02; xaa] = Ok (Some (scriptError ErrMalformedPush)).
Proof.
  split.
  - apply (checkScriptParses_spec [x02; xaa; xbb; x4c; x01; xcc; x87]); [done|].
    exists [mkToken x02 (Some [xaa; xbb]); mkToken x4c (Some [xcc]); mkToken x87 None].
    split; [by apply (bool_decide_eq_true_1 _); vm_compute|done].
  - apply (checkScriptParses_spec [x02; xaa]); [done|].
    intros Hp. destruct (checkScriptParses_cases [x02; xaa]) as [[_ H]|[H _]];
      [done|by vm_compute in H|by apply H].
Defined.
