(* ===== verification/Standard.v ===== *)
(** * Script templates and the script builder
    ([node/txscript/standard.go], [script.go], [scriptbuilder.go])

    Recognition of the output templates and witness programs, canonical data
    pushes, and the builder that writes them. *)
From stdpp Require Import strings.
From Stdlib Require Import Lia ZArith.
From S2P Require Import Prelude Wire MsgTx ScriptError ScriptNum Opcode Tokenizer.

Definition MaxOpsPerScript : Z := 201.
Definition MaxScriptElementSize : Z := 520.
Definition MaxScriptSize : Z := 10000.
Definition MaxDataCarrierSize : Z := 80.
Definition TaprootAnnexTag : Z := 0x50.
Definition TaprootLeafMask : Z := 0xfe.
Definition witnessV1TaprootLen : Z := 34.
Definition witnessV2MerkleRootLen : Z := 34.

(** [script[i] == v], for an index the caller has bounded. *)
Definition byte_is (script : bytes) (i v : Z) : bool :=
  match script !! Z.to_nat i with Some b => b2z b =? v | None => false end.

Definition slice (script : bytes) (lo hi : Z) : bytes :=
  take (Z.to_nat (hi - lo)) (drop (Z.to_nat lo) script).

(** ** Output templates *)

Definition extractScriptHash (script : bytes) : option bytes :=
  if (zlen script =? 23) && byte_is script 0 OP_HASH160 && byte_is script 1 OP_DATA_20 &&
     byte_is script 22 OP_EQUAL
  then Some (slice script 2 22) else None.

Definition isScriptHashScript (script : bytes) : bool :=
  bool_decide (is_Some (extractScriptHash script)).

Definition extractWitnessV1KeyBytes (script : bytes) : option bytes :=
  if (zlen script =? witnessV1TaprootLen) && byte_is script 0 OP_1 && byte_is script 1 OP_DATA_32
  then Some (slice script 2 34) else None.

Definition extractWitnessV2MerkleRootBytes (script : bytes) : option bytes :=
  if (zlen script =? witnessV2MerkleRootLen) && byte_is script 0 OP_2 &&
     byte_is script 1 OP_DATA_32
  then Some (slice script 2 34) else None.

Definition IsPayToTaproot (script : bytes) : bool :=
  bool_decide (is_Some (extractWitnessV1KeyBytes script)).

Definition IsPayToMerkleRoot (script : bytes) : bool :=
  bool_decide (is_Some (extractWitnessV2MerkleRootBytes script)).

Definition isNullDataScript (script : bytes) : bool :=
  (1 <=? zlen script) && byte_is script 0 OP_RETURN.

Inductive ScriptClass := NonStandardTy | NullDataTy | WitnessV1TaprootTy | WitnessV2MerkleRootTy.

Definition GetScriptClass (script : bytes) : ScriptClass :=
  if isNullDataScript script then NullDataTy
  else if IsPayToTaproot script then WitnessV1TaprootTy
  else if IsPayToMerkleRoot script then WitnessV2MerkleRootTy
  else NonStandardTy.

Definition scriptClassToName : list string :=
  ["nonstandard"; "nulldata"; "witness_v1_taproot"; "witness_v2_merkleroot"]%string.

(** [ScriptClass.String], on the underlying byte. *)
Definition ScriptClass_String (t : Z) : result ScriptErr string :=
  if (zlen scriptClassToName <? t) || (t <? 0) then Ok "Invalid"%string
  else go_index scriptClassToName t.

(** ** Witness programs *)

Definition extractWitnessProgramInfo (script : bytes) : result ScriptErr (Z * bytes * bool) :=
  if (zlen script <? 4) || (42 <? zlen script) then Ok (0, [], false)
  else
    let tokenizer := MakeScriptTokenizer 0 script in
    '(more, tokenizer) ← Next tokenizer;
    if negb more then Ok (0, [], false)
    else
      op ← Opcode tokenizer;
      if negb (IsSmallInt op) then Ok (0, [], false)
      else
        let version := AsSmallInt op in
        '(more, tokenizer) ← Next tokenizer;
        if negb more then Ok (0, [], false)
        else
          op ← Opcode tokenizer;
          if negb (isCanonicalPush op (Data tokenizer)) then Ok (0, [], false)
          else
            let program := Data tokenizer in
            let valid := Done tokenizer && bool_decide (Err tokenizer = None) in
            Ok (version, program, valid).

Definition IsWitnessProgram (script : bytes) : result ScriptErr bool :=
  '(_, _, valid) ← extractWitnessProgramInfo script; Ok valid.

Definition ExtractWitnessProgramInfo (script : bytes) : result ScriptErr (Z * bytes) :=
  '(version, program, valid) ← extractWitnessProgramInfo script;
  if (valid : bool) then Ok (version, program) else Fail (otherError "not a witness program").

Definition isAnnexedWitness (witness : list bytes) : bool :=
  if zlen witness <? 2 then false
  else match last witness with
       | Some lastElement => (0 <? zlen lastElement) && byte_is lastElement 0 TaprootAnnexTag
       | None => false
       end.

Definition extractAnnex (witness : list bytes) : result ScriptErr bytes :=
  if negb (isAnnexedWitness witness) then Fail (scriptError ErrWitnessHasNoAnnex)
  else go_index witness (zlen witness - 1).

Definition IsUnspendable (pkScript : bytes) : result ScriptErr bool :=
  if (0 <? zlen pkScript) && byte_is pkScript 0 OP_RETURN then Ok true
  else if MaxScriptSize <? zlen pkScript then Ok true
  else e ← checkScriptParses 0 pkScript; Ok (bool_decide (e ≠ None)).

(** ** Minimal pushes ([checkMinimalDataPush], engine.go) *)

Definition checkMinimalDataPush (op : opcode) (data : bytes) : result ScriptErr unit :=
  let opcodeVal := value op in
  let dataLen := zlen data in
  let d0 := match data with d :: _ => b2z d | [] => 0 end in
  let reject (b : bool) := if b then Fail (scriptError ErrMinimalData) else Ok () in
  if (dataLen =? 0) && negb (opcodeVal =? OP_0) then Fail (scriptError ErrMinimalData)
  else if (dataLen =? 1) && (1 <=? d0) && (d0 <=? 16) then
    reject (negb (opcodeVal =? u8 (OP_1 + d0 - 1)))
  else if (dataLen =? 1) && (d0 =? 0x81) then reject (negb (opcodeVal =? OP_1NEGATE))
  else if dataLen <=? 75 then reject (negb (opcodeVal =? dataLen))
  else if dataLen <=? 255 then reject (negb (opcodeVal =? OP_PUSHDATA1))
  else if dataLen <=? 65535 then reject (negb (opcodeVal =? OP_PUSHDATA2))
  else Ok ().

(** ** The script builder *)

Record ScriptBuilder := mkBuilder { b_script : bytes; b_err : option ScriptErr }.

Definition ErrScriptNotCanonical : ScriptErr := otherError "ErrScriptNotCanonical".

Definition NewScriptBuilder : ScriptBuilder := mkBuilder [] None.

Definition append_script (b : ScriptBuilder) (bs : bytes) : ScriptBuilder :=
  mkBuilder (b_script b ++ bs) (b_err b).
Definition builder_err (b : ScriptBuilder) : ScriptBuilder :=
  mkBuilder (b_script b) (Some ErrScriptNotCanonical).

Definition AddOp (b : ScriptBuilder) (op : Z) : ScriptBuilder :=
  if b_err b is Some _ then b
  else if MaxScriptSize <? zlen (b_script b) + 1 then builder_err b
  else append_script b [z2b op].

Definition AddOps (b : ScriptBuilder) (ops : bytes) : ScriptBuilder :=
  if b_err b is Some _ then b
  else if MaxScriptSize <? zlen (b_script b) + zlen ops then builder_err b
  else append_script b ops.

Definition canonicalDataSize (data : bytes) : Z :=
  let dataLen := zlen data in
  let d0 := match data with d :: _ => b2z d | [] => 0 end in
  if dataLen =? 0 then 1
  else if (dataLen =? 1) && (d0 <=? 16) then 1
  else if (dataLen =? 1) && (d0 =? 0x81) then 1
  else if dataLen <? OP_PUSHDATA1 then 1 + dataLen
  else if dataLen <=? 0xff then 2 + dataLen
  else if dataLen <=? 0xffff then 3 + dataLen
  else 5 + dataLen.

Definition addData (b : ScriptBuilder) (data : bytes) : ScriptBuilder :=
  let dataLen := zlen data in
  let d0 := match data with d :: _ => b2z d | [] => 0 end in
  if (dataLen =? 0) || (dataLen =? 1) && (d0 =? 0) then append_script b [z2b OP_0]
  else if (dataLen =? 1) && (d0 <=? 16) then append_script b [z2b (OP_1 - 1 + d0)]
  else if (dataLen =? 1) && (d0 =? 0x81) then append_script b [z2b OP_1NEGATE]
  else
    let b :=
      if dataLen <? OP_PUSHDATA1 then append_script b [z2b (OP_DATA_1 - 1 + dataLen)]
      else if dataLen <=? 0xff then append_script b [z2b OP_PUSHDATA1; z2b dataLen]
      else if dataLen <=? 0xffff then
        append_script (append_script b [z2b OP_PUSHDATA2]) (le_put 2 (u16 dataLen))
      else append_script (append_script b [z2b OP_PUSHDATA4]) (le_put 4 (u32 dataLen)) in
    append_script b data.

Definition AddFullData (b : ScriptBuilder) (data : bytes) : ScriptBuilder :=
  if b_err b is Some _ then b else addData b data.

Definition AddData (b : ScriptBuilder) (data : bytes) : ScriptBuilder :=
  if b_err b is Some _ then b
  else if MaxScriptSize <? zlen (b_script b) + canonicalDataSize data then builder_err b
  else if MaxScriptElementSize <? zlen data then builder_err b
  else addData b data.

Definition AddInt64 (b : ScriptBuilder) (val : Z) : result ScriptErr ScriptBuilder :=
  if b_err b is Some _ then Ok b
  else if MaxScriptSize <? zlen (b_script b) + 1 then Ok (builder_err b)
  else if val =? 0 then Ok (append_script b [z2b OP_0])
  else if (val =? -1) || (1 <=? val) && (val <=? 16) then
    Ok (append_script b [z2b (OP_1 - 1 + val)])
  else data ← Bytes val; Ok (AddData b data).

Definition Script (b : ScriptBuilder) : result ScriptErr bytes :=
  match b_err b with Some e => Fail e | None => Ok (b_script b) end.

Definition payToWitnessTaprootScript (rawKey : bytes) : result ScriptErr bytes :=
  Script (AddData (AddOp NewScriptBuilder OP_1) rawKey).

Definition payToMerkleRootScript (merkleRoot : bytes) : result ScriptErr bytes :=
  Script (AddData (AddOp NewScriptBuilder OP_2) merkleRoot).

Definition NullDataScript (data : bytes) : result ScriptErr bytes :=
  if MaxDataCarrierSize <? zlen data then Fail (scriptError ErrTooMuchNullData)
  else Script (AddData (AddOp NewScriptBuilder OP_RETURN) data).

(** ** Witness programs: what is recognised *)

Lemma byte_is_cons script i v :
  byte_is script i v = true ↔ ∃ b, script !! Z.to_nat i = Some b ∧ b2z b = v.
Proof.
  unfold byte_is. destruct (script !! Z.to_nat i) as [b|].
  - rewrite Z.eqb_eq. split; [by exists b|]. by intros (? & [= ->] & ?).
  - split; [done|]. by intros (? & ? & _).
Qed.

(** The first byte of a witness program of version [v]. *)
Definition witness_op (v : Z) : Z := if v =? 0 then OP_0 else OP_1 - 1 + v.

Lemma IsSmallInt_op op :
  0 <= op < 256 → IsSmallInt op = true → 0 <= AsSmallInt op <= 16 ∧ witness_op (AsSmallInt op) = op.
Proof.
  unfold IsSmallInt, AsSmallInt, witness_op, OP_0, OP_1, OP_16. intros Hop Hs.
  destruct (Z.eqb_spec op 0) as [->|]; [done|].
  rewrite u8_small by lia. destruct (Z.eqb_spec (op - (0x51 - 1)) 0); lia.
Qed.

Lemma witness_op_small v :
  0 <= v <= 16 → IsSmallInt (witness_op v) = true ∧ AsSmallInt (witness_op v) = v ∧
    0 <= witness_op v <= OP_16.
Proof.
  unfold IsSmallInt, AsSmallInt, witness_op, OP_0, OP_1, OP_16. intros Hv.
  destruct (Z.eqb_spec v 0) as [->|]; [done|].
  destruct (Z.eqb_spec (0x51 - 1 + v) 0); [lia|]. rewrite u8_small by lia. lia.
Qed.

(** A canonical push of two to forty bytes is a one-byte length and the data. *)
Lemma canonical_short_push tk :
  wf_token tk → isCanonicalPush (b2z (tk_op tk)) (default [] (tk_data tk)) = true →
  3 <= zlen (tk_bytes tk) <= 41 →
  ∃ p, tk_data tk = Some p ∧ 2 <= zlen p <= 40 ∧ tk_bytes tk = z2b (zlen p) :: p.
Proof.
  destruct tk as [b [d|]]; unfold wf_token, tk_bytes, tk_opcode; cbn [tk_op tk_data default].
  2:{ intros _ _ H. change (zlen [b]) with 1 in H. lia. }
  pose proof (opcode_at_length b) as Hl. remember (op_length (opcode_at b)) as len eqn:E. clear E.
  intros (Hne & H1 & H2) Hc Hz. pose proof (zlen_nonneg d).
  destruct Hl as [|[[Hl Hb]|Hl]]; [done| |exfalso].
  - rewrite (proj2 (Z.ltb_ge len 0)) in * by lia. cbn [app] in *. rewrite zlen_cons in Hz.
    exists d. split_and!; [done|lia|lia|]. f_equal. apply b2z_inj.
    specialize (H1 ltac:(lia)). rewrite b2z_z2b_small; lia.
  - rewrite (proj2 (Z.ltb_lt len 0)) in Hz by lia.
    rewrite zlen_cons, zlen_app, zlen_le_put in Hz.
    unfold isCanonicalPush, OP_16, OP_PUSHDATA1, OP_PUSHDATA2, OP_PUSHDATA4, OP_0 in Hc.
    cbv zeta in Hc.
    destruct Hl as [[-> Hb]|[[-> Hb]|[-> Hb]]]; rewrite Hb in Hc; cbn in Hc;
      revert Hc; repeat case_match; try done; lia.
Qed.

Lemma opcode_at_push n :
  1 <= n <= 75 → op_length (opcode_at (z2b n)) = n + 1.
Proof.
  intros Hn. pose proof (opcode_at_length (z2b n)) as H. rewrite b2z_z2b_small in H by lia.
  assert (op_length (opcode_at (z2b n)) ≠ 1) as Hne; [|lia].
  assert (Forall (λ k, op_length (opcode_at (z2b (Z.of_nat k))) ≠ 1) (seq 1 75)) as Hall.
  { by apply (bool_decide_eq_true_1 _); vm_compute. }
  rewrite Forall_forall in Hall. specialize (Hall (Z.to_nat n)).
  rewrite Z2Nat.id in Hall by lia. apply Hall. apply elem_of_seq. lia.
Qed.

Lemma opcode_at_small op : 79 <= op < 256 ∨ op = 0 → op_length (opcode_at (z2b op)) = 1.
Proof.
  intros Hop. pose proof (opcode_at_length (z2b op)) as H.
  rewrite b2z_z2b_small in H by lia. lia.
Qed.

(** The push of two to forty bytes a witness program ends with. *)
Lemma short_push_wf p :
  1 <= zlen p <= 75 → wf_token (mkToken (z2b (zlen p)) (Some p)) ∧
    tk_bytes (mkToken (z2b (zlen p)) (Some p)) = z2b (zlen p) :: p.
Proof.
  intros Hp. unfold wf_token, tk_bytes, tk_opcode. cbn [tk_op tk_data].
  rewrite opcode_at_push by lia. split; [split_and!; lia|].
  by rewrite (proj2 (Z.ltb_ge _ 0)) by lia.
Qed.

Lemma op_token_wf op :
  79 <= op < 256 ∨ op = 0 → wf_token (mkToken (z2b op) None) ∧
    tk_bytes (mkToken (z2b op) None) = [z2b op].
Proof.
  intros Hop. unfold wf_token, tk_opcode. cbn [tk_op tk_data]. by rewrite opcode_at_small.
Qed.

Definition witness_script (v : Z) (p : bytes) : bytes :=
  z2b (witness_op v) :: z2b (zlen p) :: p.

Lemma short_script_ok script : zlen script <= 42 → script_ok script.
Proof. unfold script_ok. lia. Qed.

(** What the extraction does once the length is in range: two tokens, the
    first a small integer, the second canonical, and nothing more. *)
Lemma extract_ok script r :
  4 <= zlen script <= 42 → extractWitnessProgramInfo script = Ok r → r.2 = true →
  ∃ v p, r = (v, p, true) ∧ 0 <= v <= 16 ∧ 2 <= zlen p <= 40 ∧ script = witness_script v p.
Proof.
  intros Hl H Hr. assert (script_ok script) as Hok by (apply short_script_ok; lia).
  unfold extractWitnessProgramInfo in H.
  rewrite (proj2 (Z.ltb_ge _ 4)), (proj2 (Z.ltb_ge 42 _)) in H by lia. cbn [orb] in H.
  cbv zeta in H. change (MakeScriptTokenizer 0 script) with (tok_at script [] (-1) None) in H.
  destruct (Next_outcome script [] script (-1) None) as (out & Ho & E); [done..|].
  rewrite E in H. cbn [mbind result_bind] in H.
  destruct Ho as [_|tk1 rest Hw1 Hs1|_ _]; cbn [negb] in H; [by injection H as <-| |by injection H as <-].
  change (t_script (tok_at script [] (-1) None)) with script in H.
  rewrite Opcode_at in H. cbn [mbind result_bind app] in H.
  destruct (IsSmallInt (b2z (tk_op tk1))) eqn:Hsm; cbn [negb] in H; [|by injection H as <-].
  apply IsSmallInt_op in Hsm as [Hv Hop]; [|apply b2z_range].
  destruct (Next_outcome script (tk_bytes tk1) rest (-1 + 1) (Some tk1)) as (out & Ho & E2); [done..|].
  rewrite E2 in H. cbn [mbind result_bind] in H. clear E E2.
  destruct Ho as [_|tk2 rest2 Hw2 Hs2|_ _]; cbn [negb] in H; [by injection H as <-| |by injection H as <-].
  change (t_script (tok_at script (tk_bytes tk1) (-1 + 1) (Some tk1))) with script in H.
  rewrite Opcode_at in H. cbn [mbind result_bind] in H.
  change (Data (tok_at script (tk_bytes tk1 ++ tk_bytes tk2) (-1 + 1 + 1) (Some tk2)))
    with (default [] (tk_data tk2)) in H.
  destruct (isCanonicalPush _ _) eqn:Hc; cbn [negb] in H; [|by injection H as <-].
  injection H as <-. cbn [snd] in Hr. apply andb_true_iff in Hr as [Hd Herr].
  erewrite go_index_done in Hd; [|by rewrite Hs1, Hs2, (assoc_L (++))|done].
  apply bool_decide_eq_true in Hd as ->. rewrite app_nil_r in Hs2. subst rest.
  assert (tk_data tk1 = None ∧ tk_bytes tk1 = [tk_op tk1]) as [_ Hb1].
  { assert (op_length (tk_opcode tk1) = 1) as H1.
    { unfold tk_opcode. rewrite <-(z2b_b2z (tk_op tk1)). apply opcode_at_small.
      rewrite <-Hop. unfold witness_op, OP_0, OP_1. destruct (Z.eqb_spec (AsSmallInt (b2z (tk_op tk1))) 0); lia. }
    unfold wf_token, tk_bytes in *. rewrite H1 in *. destruct (tk_data tk1); [|done]. by destruct Hw1. }
  rewrite Hs1, zlen_app, Hb1 in Hl. change (zlen [tk_op tk1]) with 1 in Hl.
  destruct (canonical_short_push tk2 Hw2 Hc) as (p & Hp & Hpl & Hb2); [lia|].
  exists (AsSmallInt (b2z (tk_op tk1))), p.
  split_and!; [|lia|lia|lia|lia|].
  - rewrite Hp. cbn [default]. do 2 f_equal.
    erewrite go_index_done; [|by rewrite Hs1, Hb2, app_nil_r|done]. done.
  - rewrite Hs1, Hb1, Hb2. unfold witness_script. by rewrite Hop, z2b_b2z.
Qed.

Lemma extract_total script :
  zlen script <= 42 → ∃ r, extractWitnessProgramInfo script = Ok r.
Proof.
  intros Hl. assert (script_ok script) as Hok by (by apply short_script_ok).
  unfold extractWitnessProgramInfo. case_match; [by eexists|]. cbv zeta.
  change (MakeScriptTokenizer 0 script) with (tok_at script [] (-1) None).
  destruct (Next_outcome script [] script (-1) None) as (out & Ho & ->); [done..|].
  destruct Ho as [|tk1 rest Hw1 Hs1|]; cbn [mbind result_bind negb]; [by eexists| |by eexists].
  change (t_script (tok_at script [] (-1) None)) with script.
  rewrite Opcode_at. cbn [mbind result_bind]. case_match; [by eexists|].
  destruct (Next_outcome script (tk_bytes tk1) rest (-1 + 1) (Some tk1)) as (out & Ho & E2); [done..|].
  cbn [app]. rewrite E2. cbn [mbind result_bind].
  destruct Ho as [|tk2 rest2 Hw2 Hs2|]; cbn [negb]; [by eexists| |by eexists].
  rewrite Opcode_at. cbn [mbind result_bind]. case_match; by eexists.
Qed.

Lemma extract_witness_script v p :
  0 <= v <= 16 → 2 <= zlen p <= 40 →
  extractWitnessProgramInfo (witness_script v p) = Ok (v, p, true).
Proof.
  intros Hv Hp. destruct (witness_op_small v Hv) as (Hsm & Has & Hr).
  assert (79 <= witness_op v < 256 ∨ witness_op v = 0) as Hop.
  { unfold witness_op, OP_0, OP_1. destruct (Z.eqb_spec v 0); lia. }
  destruct (op_token_wf _ Hop) as [Hw1 Hb1].
  destruct (short_push_wf p) as [Hw2 Hb2]; [lia|].
  set (tk1 := mkToken (z2b (witness_op v)) None) in *.
  set (tk2 := mkToken (z2b (zlen p)) (Some p)) in *.
  assert (witness_script v p = [] ++ tk_bytes tk1 ++ tk_bytes tk2 ++ []) as Hs.
  { by rewrite Hb1, Hb2, app_nil_r. }
  assert (zlen (witness_script v p) = 2 + zlen p) as Hlen.
  { unfold witness_script. rewrite !zlen_cons. lia. }
  assert (script_ok (witness_script v p)) as Hok by (apply short_script_ok; lia).
  unfold extractWitnessProgramInfo.
  rewrite Hlen, (proj2 (Z.ltb_ge _ 4)), (proj2 (Z.ltb_ge 42 _)) by lia. cbn [orb]. cbv zeta.
  change (MakeScriptTokenizer 0 ?s) with (tok_at s [] (-1) None).
  rewrite (Next_run _ [] tk1 _ _ _ Hs) by done. cbn [mbind result_bind negb].
  rewrite Opcode_at. cbn [mbind result_bind tk_op tk1].
  assert (0 <= witness_op v < 256) by (unfold OP_16 in Hr; lia).
  rewrite b2z_z2b_small, Hsm, Has by lia. cbn [negb].
  rewrite (Next_run _ (tk_bytes tk1) tk2 []) by done. cbn [mbind result_bind negb].
  rewrite Opcode_at. cbn [mbind result_bind tk_op tk2].
  change (Data (tok_at ?s ?pre ?pos (Some tk2))) with p.
  assert (isCanonicalPush (b2z (z2b (zlen p))) p = true) as ->.
  { rewrite b2z_z2b_small by lia.
    unfold isCanonicalPush, OP_16, OP_PUSHDATA1, OP_PUSHDATA2, OP_PUSHDATA4, OP_0. cbv zeta.
    destruct p as [|d0 [|d1 p]]; rewrite ?zlen_cons, ?zlen_nil in *; [lia|change (zlen []) with 0 in *; lia|].
    pose proof (zlen_nonneg p). rewrite andb_false_r.
    rewrite (proj2 (Z.ltb_ge 0x60 _)), !(proj2 (Z.eqb_neq _ _)) by lia. done. }
  cbn [negb]. do 2 f_equal. erewrite go_index_done; [|by rewrite Hs, (assoc_L (++))|done]. done.
Qed.

(** Witness programs: a script is recognised as a witness program exactly
    when it is a version opcode 0 to 16, one length byte and that many, two to
    forty, bytes; the version and program returned are these. *)
Theorem witness_program_spec script :
  (∃ r, extractWitnessProgramInfo script = Ok r) ∧
  (∀ v p, extractWitnessProgramInfo script = Ok (v, p, true) ↔
     0 <= v <= 16 ∧ 2 <= zlen p <= 40 ∧ script = witness_script v p).
Proof.
  split.
  - destruct (decide (4 <= zlen script <= 42)) as [Hl|Hl].
    + apply extract_total; lia.
    + unfold extractWitnessProgramInfo.
      rewrite (proj2 (orb_true_iff _ _)); [by eexists|]. rewrite !Z.ltb_lt. lia.
  - intros v p. split.
    + intros H. destruct (decide (4 <= zlen script <= 42)) as [Hl|Hl].
      * destruct (extract_ok script _ Hl H eq_refl) as (v' & p' & [= -> ->] & ?). done.
      * unfold extractWitnessProgramInfo in H.
        rewrite (proj2 (orb_true_iff _ _)) in H; [done|]. rewrite !Z.ltb_lt. lia.
    + intros (Hv & Hp & ->). by apply extract_witness_script.
Qed.

(** ** The builder's pushes *)

(** The item a push token puts on the stack when it is executed. *)
Definition pushed (tk : token) : option bytes :=
  match tk_data tk with
  | Some d => Some d
  | None =>
      let op := b2z (tk_op tk) in
      if op =? OP_0 then Some []
      else if op =? OP_1NEGATE then Some [z2b 0x81]
      else if (OP_1 <=? op) && (op <=? OP_16) then Some [z2b (op - (OP_1 - 1))]
      else None
  end.

(** The token is a minimal push of [d] in the sense of the engine's check. *)
Definition minimal_push (tk : token) : Prop :=
  b2z (tk_op tk) <= OP_PUSHDATA4 →
  checkMinimalDataPush (tk_opcode tk) (default [] (tk_data tk)) = Ok ().

Record push_token (tk : token) (d : bytes) : Prop := mkPushToken {
  pt_wf : wf_token tk;
  pt_pushed : pushed tk = Some (if bool_decide (d = [x00]) then [] else d);
  pt_minimal : minimal_push tk;
  pt_size : zlen (tk_bytes tk) = canonicalDataSize d
}.

Lemma push_small d0 :
  (1 <= b2z d0 <= 16 → push_token (mkToken (z2b (OP_1 - 1 + b2z d0)) None) [d0]) ∧
  (b2z d0 = 0x81 → push_token (mkToken (z2b OP_1NEGATE) None) [d0]) ∧
  (b2z d0 = 0 → push_token (mkToken (z2b OP_0) None) [d0]).
Proof.
  split_and!; intros H.
  - assert (79 <= OP_1 - 1 + b2z d0 < 256 ∨ OP_1 - 1 + b2z d0 = 0) as Hop by (unfold OP_1; lia).
    destruct (op_token_wf _ Hop) as [Hw Hb]. split; [done| | |].
    + unfold pushed. cbn [tk_op tk_data]. rewrite b2z_z2b_small by (unfold OP_1 in *; lia).
      unfold OP_0, OP_1, OP_1NEGATE, OP_16.
      rewrite !(proj2 (Z.eqb_neq _ _)) by lia.
      rewrite (proj2 (Z.leb_le _ _)), (proj2 (Z.leb_le _ _)) by lia. cbn [andb].
      rewrite bool_decide_eq_false_2 by (intros [= ->]; cbn in H; lia).
      f_equal. f_equal. rewrite <-(z2b_b2z d0). f_equal. rewrite b2z_z2b_small by lia. lia.
    + intros Hle. cbn [tk_op] in Hle. rewrite b2z_z2b_small in Hle by (unfold OP_1 in *; lia).
      unfold OP_1, OP_PUSHDATA4 in Hle. lia.
    + rewrite Hb. unfold canonicalDataSize. change (zlen [d0]) with 1. cbv zeta.
      rewrite (proj2 (Z.leb_le _ 16)) by lia. done.
  - assert (d0 = x81) as -> by by apply (b2z_inj d0 x81). split; by vm_compute.
  - assert (d0 = x00) as -> by by apply (b2z_inj d0 x00). split; by vm_compute.
Qed.

Lemma opcode_value_small n : 0 <= n < 256 → value (opcode_at (z2b n)) = n.
Proof. intros. by rewrite opcode_at_value, b2z_z2b_small. Qed.

(** Longer data, or one byte outside the small integers: opcode, length, data. *)
Lemma push_long d :
  1 <= zlen d <= MaxScriptElementSize →
  (∀ d0, d = [d0] → 16 < b2z d0 ∧ b2z d0 ≠ 0x81) →
  ∃ tk, push_token tk d ∧ tk_bytes tk =
    (if zlen d <? OP_PUSHDATA1 then [z2b (OP_DATA_1 - 1 + zlen d)]
     else if zlen d <=? 0xff then [z2b OP_PUSHDATA1; z2b (zlen d)]
     else [z2b OP_PUSHDATA2] ++ le_put 2 (u16 (zlen d))) ++ d.
Proof.
  intros Hd Hsmall. unfold MaxScriptElementSize in Hd.
  assert (bool_decide (d = [x00]) = false) as Hz.
  { apply bool_decide_eq_false_2. intros ->. destruct (Hsmall x00 eq_refl) as [H _]. by vm_compute in H. }
  set (d0 := match d with d :: _ => b2z d | [] => 0 end).
  assert ((zlen d =? 1) = false ∨ 16 < d0 ∧ d0 ≠ 0x81) as Hd0.
  { destruct d as [|x [|y d]]; [by left|right; by apply Hsmall|left].
    apply Z.eqb_neq. rewrite !zlen_cons. pose proof (zlen_nonneg d). lia. }
  assert (canonicalDataSize d = if zlen d <? OP_PUSHDATA1 then 1 + zlen d
    else if zlen d <=? 0xff then 2 + zlen d else 3 + zlen d) as Hcan.
  { unfold canonicalDataSize. cbv zeta. fold d0. rewrite (proj2 (Z.eqb_neq _ 0)) by lia.
    rewrite (proj2 (Z.leb_le _ 0xffff)) by lia.
    destruct Hd0 as [->|[H1 H2]]; [done|].
    rewrite (proj2 (Z.leb_gt d0 16)), (proj2 (Z.eqb_neq d0 _)), !andb_false_r by lia. done. }
  assert (∀ op, value op = (if zlen d <=? 75 then zlen d else if zlen d <=? 255 then OP_PUSHDATA1
    else OP_PUSHDATA2) → checkMinimalDataPush op d = Ok ()) as Hmin.
  { intros op Hv. unfold checkMinimalDataPush. cbv zeta. fold d0.
    rewrite (proj2 (Z.eqb_neq _ 0)) by lia. cbn [andb].
    assert ((zlen d =? 1) && (1 <=? d0) && (d0 <=? 16) = false ∧
            (zlen d =? 1) && (d0 =? 0x81) = false) as [-> ->].
    { destruct Hd0 as [->|[H1 H2]]; [done|].
      rewrite (proj2 (Z.leb_gt d0 16)), (proj2 (Z.eqb_neq d0 _)), !andb_false_r by lia. done. }
    rewrite Hv, (proj2 (Z.leb_le _ 65535)) by lia.
    destruct (zlen d <=? 75); [|destruct (zlen d <=? 255)]; by rewrite Z.eqb_refl. }
  unfold OP_PUSHDATA1, OP_DATA_1 in *. destruct (Z.ltb_spec (zlen d) 76).
  - destruct (short_push_wf d) as [Hw Hb]; [lia|].
    exists (mkToken (z2b (zlen d)) (Some d)). split; [|rewrite Hb; cbn [app]; do 2 f_equal; lia].
    split; [done|unfold pushed; cbn [tk_data]; by rewrite Hz| |rewrite Hb, Hcan, zlen_cons; lia].
    intros _. apply Hmin. unfold tk_opcode. cbn [tk_op]. rewrite opcode_value_small by lia.
    by rewrite (proj2 (Z.leb_le _ 75)) by lia.
  - assert (∃ op k, (op = 0x4c ∧ k = 1 ∨ op = 0x4d ∧ k = 2) ∧ (k = 1 ↔ zlen d <= 255)) as
      (op & k & Hop & Hk).
    { destruct (decide (zlen d <= 255)); [exists 0x4c, 1|exists 0x4d, 2]; lia. }
    exists (mkToken (z2b op) (Some d)).
    assert (op_length (opcode_at (z2b op)) = - k) as Hlen
      by (destruct Hop as [[-> ->]|[-> ->]]; by vm_compute).
    assert (tk_bytes (mkToken (z2b op) (Some d)) = z2b op :: le_put (Z.to_nat k) (zlen d) ++ d) as Hb.
    { unfold tk_bytes, tk_opcode. cbn [tk_op tk_data]. rewrite Hlen.
      rewrite (proj2 (Z.ltb_lt _ 0)) by lia. by rewrite Z.opp_involutive. }
    split; [split|].
    + unfold wf_token, tk_opcode. cbn [tk_op tk_data]. rewrite Hlen, Z.opp_involutive.
      split_and!; [lia|lia|]. intros _. destruct Hop as [[-> ->]|[-> ->]]; lia.
    + unfold pushed. cbn [tk_data]. by rewrite Hz.
    + intros _. apply Hmin. unfold tk_opcode. cbn [tk_op]. rewrite opcode_value_small by lia.
      rewrite (proj2 (Z.leb_gt _ 75)) by lia. unfold OP_PUSHDATA2.
      destruct (Z.leb_spec (zlen d) 255); lia.
    + rewrite Hb, Hcan, zlen_cons, zlen_app, zlen_le_put. destruct (Z.leb_spec (zlen d) 0xff); lia.
    + rewrite Hb. unfold OP_PUSHDATA2. destruct (Z.leb_spec (zlen d) 0xff).
      * assert (k = 1 ∧ op = 0x4c) as [-> ->] by lia. done.
      * assert (k = 2 ∧ op = 0x4d) as [-> ->] by lia. rewrite u16_small by lia. done.
Qed.

Lemma addData_push b d :
  zlen d <= MaxScriptElementSize →
  ∃ tk, addData b d = append_script b (tk_bytes tk) ∧ push_token tk d.
Proof.
  intros Hd. unfold addData. cbv zeta.
  destruct d as [|d0 d].
  { exists (mkToken (z2b OP_0) None). split; [done|]. split; by vm_compute. }
  destruct (push_small d0) as (H1 & H2 & H3). pose proof (b2z_range d0) as Hr.
  destruct (decide (d = [] ∧ (b2z d0 <= 16 ∨ b2z d0 = 0x81))) as [[-> Hs]|Hs].
  - change (zlen [d0]) with 1. cbn [Z.eqb Pos.eqb orb andb].
    destruct (Z.eqb_spec (b2z d0) 0) as [E|]; [eexists; by split; [|apply H3]|].
    destruct (Z.leb_spec (b2z d0) 16); [eexists; by split; [|apply H1; lia]|].
    rewrite (proj2 (Z.eqb_eq _ 0x81)) by lia. eexists; by split; [|apply H2; lia].
  - destruct (push_long (d0 :: d)) as (tk & Hp & Hb).
    { rewrite zlen_cons in *. pose proof (zlen_nonneg d). lia. }
    { intros d1 [= -> ->].
      split; [apply Z.lt_nge|]; intros Hc; apply Hs; (split; [done|]); by auto. }
    exists tk. split; [|done]. rewrite Hb.
    assert ((zlen (d0 :: d) =? 1) = true → d = []) as Hone.
    { intros H. apply Z.eqb_eq in H. rewrite zlen_cons in H. apply zlen_0. lia. }
    rewrite zlen_cons in Hd. pose proof (zlen_nonneg d).
    rewrite (proj2 (Z.eqb_neq _ 0)) by (rewrite zlen_cons; lia). cbn [orb].
    destruct (Z.eqb_spec (zlen (d0 :: d)) 1) as [E|E].
    + specialize (Hone eq_refl). subst d.
      assert (16 < b2z d0 ∧ b2z d0 ≠ 0x81) as [Hs1 Hs2].
      { split; [apply Z.lt_nge|]; intros Hc; apply Hs; (split; [done|]); by auto. }
      rewrite !(proj2 (Z.eqb_neq (b2z d0) _)), (proj2 (Z.leb_gt _ 16)) by lia.
      change (zlen [d0]) with 1. unfold append_script. cbn. by rewrite <-(assoc_L (++)).
    + cbn [andb]. unfold append_script. cbn [b_script b_err].
      repeat case_match; cbn [b_script b_err];
        rewrite ?(assoc_L (++)); try done; unfold MaxScriptElementSize in Hd;
        rewrite zlen_cons in *; lia.
Qed.

(** The script builder: while it has no error, adding data within the
    limits appends one well-formed token, of the size announced, which the
    engine's minimal push check accepts and which pushes that data (but the
    single byte 0, written as OP_0, pushes the empty string); data outside the
    limits leaves the script as it was and sets an error that no later addition
    removes. *)
Theorem AddData_spec b d :
  b_err b = None →
  (zlen (b_script b) + canonicalDataSize d <= MaxScriptSize → zlen d <= MaxScriptElementSize →
   ∃ tk, AddData b d = mkBuilder (b_script b ++ tk_bytes tk) None ∧
     wf_token tk ∧ zlen (tk_bytes tk) = canonicalDataSize d ∧
     pushed tk = Some (if bool_decide (d = [x00]) then [] else d) ∧
     (b2z (tk_op tk) <= OP_PUSHDATA4 →
      checkMinimalDataPush (tk_opcode tk) (default [] (tk_data tk)) = Ok ())) ∧
  (MaxScriptSize < zlen (b_script b) + canonicalDataSize d ∨ MaxScriptElementSize < zlen d →
   Script (AddData b d) = Fail ErrScriptNotCanonical ∧
   b_script (AddData b d) = b_script b ∧
   ∀ op ops d' v, AddOp (AddData b d) op = AddData b d ∧ AddOps (AddData b d) ops = AddData b d ∧
     AddData (AddData b d) d' = AddData b d ∧ AddInt64 (AddData b d) v = Ok (AddData b d)).
Proof.
  intros Hb. split.
  - intros Hs Hd. destruct (addData_push b d Hd) as (tk & E & [Hw Hp Hm Hz]).
    exists tk. unfold AddData at 1. rewrite Hb, !(proj2 (Z.ltb_ge _ _)) by lia.
    rewrite E. unfold append_script. rewrite Hb. auto.
  - intros Hlim. assert (AddData b d = builder_err b) as ->.
    { unfold AddData. rewrite Hb. destruct (Z.ltb_spec MaxScriptSize
        (zlen (b_script b) + canonicalDataSize d)); [done|].
      by rewrite (proj2 (Z.ltb_lt _ _)) by lia. }
    done.
Qed.

Lemma witness_program_spec_witness :
  extractWitnessProgramInfo (witness_script 2 (repeat x07 32)) = Ok (2, repeat x07 32, true).
Proof. apply (witness_program_spec (witness_script 2 (repeat x07 32))). by vm_compute. Defined.

Lemma AddData_spec_witness :
  ∃ tk, AddData NewScriptBuilder [x0a; x0b] = mkBuilder ([] ++ tk_bytes tk) None ∧
    pushed tk = Some [x0a; x0b].
Proof.
  destruct (AddData_spec NewScriptBuilder [x0a; x0b] eq_refl) as [H _].
  destruct H as (tk & E & _ & _ & Hp & _); [by vm_compute|by vm_compute|]. by exists tk.
Defined.

(** The payment templates: for a 32-byte program the two builders succeed
    and write a witness program of version 1 and 2 that [GetScriptClass]
    classifies as such. *)
Theorem payTo_scripts program :
  zlen program = 32 →
  payToWitnessTaprootScript program = Ok (witness_script 1 program) ∧
  payToMerkleRootScript program = Ok (witness_script 2 program) ∧
  GetScriptClass (witness_script 1 program) = WitnessV1TaprootTy ∧
  GetScriptClass (witness_script 2 program) = WitnessV2MerkleRootTy ∧
  extractWitnessV1KeyBytes (witness_script 1 program) = Some program ∧
  extractWitnessV2MerkleRootBytes (witness_script 2 program) = Some program.
Proof.
  unfold zlen. intros H. assert (length program = 32%nat) as Hl by lia. clear H.
  do 32 (destruct program as [|? program]; [done|]). destruct program; [|done].
  by split_and!.
Qed.

Lemma payTo_scripts_witness :
  payToMerkleRootScript (repeat x07 32) = Ok (witness_script 2 (repeat x07 32)).
Proof. by apply (payTo_scripts (repeat x07 32)). Defined.

(** [ScriptClass.String] on the first invalid value indexes out of range
    instead of returning "Invalid". *)
Lemma ScriptClass_String_panics : ScriptClass_String 4 = Panic.
Proof. by vm_compute. Qed.

(** [AddInt64] on the least [int64] panics in [scriptNum.Bytes]. *)
Lemma AddInt64_min_panics : AddInt64 NewScriptBuilder (- 2 ^ 63) = Panic.
Proof. by vm_compute. Qed.
