(* ===== verification/Crypto.v ===== *)
(** * Cryptographic primitives as interfaces, and [node/chaincfg/chainhash]

    The hash functions come from Go's standard library and [x/crypto], the
    curve arithmetic from [dcrec/secp256k1], the XMSS verifier from a C
    library; the development states what the node relies on (output sizes,
    parsing what was serialized) as the laws of two classes and is generic in
    their instances.  Nothing assumes collision resistance: theorems that need
    two hashes to differ say so.  The toy instances at the end make every
    theorem's hypotheses testable by computation. *)
From stdpp Require Import strings.
From Stdlib Require Import Lia ZArith.
From S2P Require Import Prelude.

(** ** Hash functions *)

Class HashFns := {
  sha256 : bytes → bytes;
  sha1 : bytes → bytes;
  ripemd160 : bytes → bytes;
  sha256_size b : zlen (sha256 b) = 32;
  sha1_size b : zlen (sha1 b) = 20;
  ripemd160_size b : zlen (ripemd160 b) = 20
}.

(** A Go [string] constant as bytes. *)
Definition string_bytes (s : string) : bytes := String.list_byte_of_string s.

Section chainhash.
Context `{HashFns}.

Definition HashB (b : bytes) : bytes := sha256 b.
Definition HashH (b : bytes) : bytes := sha256 b.
Definition DoubleHashB (b : bytes) : bytes := sha256 (sha256 b).
Definition DoubleHashH (b : bytes) : bytes := sha256 (sha256 b).

(** [serialize] writes to the hash state; the bytes it writes are the argument. *)
Definition DoubleHashRaw (written : bytes) : bytes :=
  let first := sha256 written in
  sha256 first.

Definition TagTapSighash : bytes := string_bytes "TapSighash".
Definition TagTapLeaf : bytes := string_bytes "TapLeaf".
Definition TagTapBranch : bytes := string_bytes "TapBranch".
Definition TagTapTweak : bytes := string_bytes "TapTweak".
Definition TagBIP0340Challenge : bytes := string_bytes "BIP0340/challenge".
Definition TagBIP0340Aux : bytes := string_bytes "BIP0340/aux".
Definition TagBIP0340Nonce : bytes := string_bytes "BIP0340/nonce".

Definition precomputedTags : list (bytes * bytes) :=
  map (λ tag, (tag, sha256 tag))
    [TagBIP0340Challenge; TagBIP0340Aux; TagBIP0340Nonce; TagTapSighash; TagTapLeaf;
     TagTapBranch; TagTapTweak].

Definition TaggedHash (tag : bytes) (msgs : list bytes) : bytes :=
  let shaTag :=
    match filter (λ p, p.1 = tag) precomputedTags with
    | p :: _ => p.2
    | [] => sha256 tag
    end in
  sha256 (shaTag ++ shaTag ++ concat msgs).

(** [NewHash]: a 32-byte slice as a [Hash]. *)
Definition NewHash (newHash : bytes) : option bytes :=
  if zlen newHash =? 32 then Some newHash else None.

Definition IsEqual (hash target : option bytes) : bool := bool_decide (hash = target).

Lemma TaggedHash_size tag msgs : zlen (TaggedHash tag msgs) = 32.
Proof. apply sha256_size. Qed.

(** The table of precomputed tag hashes changes nothing: a tagged hash is the
    hash BIP-340 defines. *)
Lemma TaggedHash_bip340 tag msgs :
  TaggedHash tag msgs = sha256 (sha256 tag ++ sha256 tag ++ concat msgs).
Proof.
  unfold TaggedHash. cbv zeta.
  destruct (filter _ precomputedTags) as [|p l] eqn:E; [done|].
  assert (p ∈ filter (λ p, p.1 = tag) precomputedTags) as Hp by (rewrite E; left).
  apply list_elem_of_filter in Hp as [<- Hp]. unfold precomputedTags in Hp.
  apply list_elem_of_fmap in Hp as (t & -> & _). done.
Qed.
End chainhash.

(** ** Keys and signatures

    [tweakAdd k h]: the point [k + h*G] in affine form, for a key [k] with an
    even y coordinate. *)
Class Keys := {
  PublicKey : Type;
  Signature : Type;
  SerializeCompressed : PublicKey → bytes;
  schnorr_ParsePubKey : bytes → option PublicKey;
  schnorr_ParseSignature : bytes → option Signature;
  schnorr_Verify : Signature → bytes → PublicKey → bool;
  tweakAdd : PublicKey → bytes → PublicKey;
  xmss_Verify : bytes → bytes → bytes → bool;
  (* a prefix, 0x02 or 0x03, and the 32 bytes of the x coordinate *)
  compressed_format k :
    ∃ p x, SerializeCompressed k = p :: x ∧ zlen x = 32 ∧ (p = x02 ∨ p = x03);
  (* the x-only parser accepts 32 bytes only, and the key it returns has them
     as its x coordinate and an even y coordinate *)
  parse_xonly b k : schnorr_ParsePubKey b = Some k → SerializeCompressed k = x02 :: b;
  (* the x coordinate of a key parses *)
  parse_serialized k : is_Some (schnorr_ParsePubKey (tail (SerializeCompressed k)));
  (* 64 bytes *)
  parse_signature_size b s : schnorr_ParseSignature b = Some s → zlen b = 64
}.

Section keys.
Context `{Keys}.

Definition SerializePubKey (pub : PublicKey) : bytes := drop 1 (SerializeCompressed pub).

Lemma SerializePubKey_size k : zlen (SerializePubKey k) = 32.
Proof.
  unfold SerializePubKey. destruct (compressed_format k) as (p & x & -> & Hx & _). by cbn.
Qed.

Lemma SerializePubKey_parse b k : schnorr_ParsePubKey b = Some k → SerializePubKey k = b.
Proof. intros E. unfold SerializePubKey. by rewrite (parse_xonly b k E). Qed.

Lemma parse_SerializePubKey k :
  ∃ k', schnorr_ParsePubKey (SerializePubKey k) = Some k' ∧ SerializePubKey k' = SerializePubKey k.
Proof.
  destruct (parse_serialized k) as [k' E]. exists k'.
  assert (schnorr_ParsePubKey (SerializePubKey k) = Some k') as E'.
  { rewrite <-E. unfold SerializePubKey. by destruct (SerializeCompressed k). }
  split; [done|]. by apply SerializePubKey_parse.
Qed.

Lemma parse_size b k : schnorr_ParsePubKey b = Some k → zlen b = 32.
Proof. intros E. rewrite <-(SerializePubKey_parse b k E). apply SerializePubKey_size. Qed.
End keys.

(** ** Instances for testing *)

Definition toy_hash (n : nat) (salt : Z) (b : bytes) : bytes :=
  let mask := Z.ones 61 in
  le_put n (foldl (λ acc x, Z.land (acc * 257 + b2z x + 1) mask) salt b).

#[export] Program Instance toy_hashes : HashFns := {|
  sha256 := toy_hash 32 11;
  sha1 := toy_hash 20 5;
  ripemd160 := toy_hash 20 7
|}.
Next Obligation. intros. unfold toy_hash. by rewrite zlen_le_put. Qed.
Next Obligation. intros. unfold toy_hash. by rewrite zlen_le_put. Qed.
Next Obligation. intros. unfold toy_hash. by rewrite zlen_le_put. Qed.

(** Keys are a parity and 32 bytes; a signature verifies when its first half is
    the message and its second half the key. *)
Definition toy_key : Type := { k : bool * bytes | (zlen k.2 =? 32) = true }.

Definition toy_parse (b : bytes) : option toy_key :=
  match Bool.bool_dec (zlen b =? 32) true with
  | left H => Some ((false, b) ↾ H)
  | right _ => None
  end.

Definition toy_serialize (k : toy_key) : bytes :=
  (if (`k).1 then x03 else x02) :: (`k).2.

Program Definition toy_tweak (k : toy_key) (h : bytes) : toy_key :=
  (Z.testbit (le_get h) 3, toy_hash 32 3 ((`k).2 ++ h)) ↾ _.
Next Obligation. intros. unfold toy_hash. cbn [snd]. by rewrite zlen_le_put. Qed.

Lemma toy_parse_ok b k : toy_parse b = Some k → `k = (false, b) ∧ zlen b = 32.
Proof.
  unfold toy_parse. destruct (Bool.bool_dec _ _) as [E|]; [|done].
  intros [= <-]. split; [done|]. by apply Z.eqb_eq.
Qed.

#[export] Program Instance toy_keys : Keys := {|
  PublicKey := toy_key;
  Signature := bytes;
  SerializeCompressed := toy_serialize;
  schnorr_ParsePubKey := toy_parse;
  schnorr_ParseSignature b := if zlen b =? 64 then Some b else None;
  schnorr_Verify s h k := bool_decide (s = h ++ (`k).2);
  tweakAdd := toy_tweak;
  xmss_Verify pk msg sg := bool_decide (take 32 sg = msg)
|}.
Next Obligation.
  intros [[[] x] E]; cbn in *; eexists _, _; (split; [done|]); (split; [by apply Z.eqb_eq|]); auto.
Qed.
Next Obligation. intros b k E. apply toy_parse_ok in E as [E _]. unfold toy_serialize. by rewrite E. Qed.
Next Obligation.
  intros [[p x] E]. cbn in *. unfold toy_parse. destruct (Bool.bool_dec _ _); [by eexists|done].
Qed.
Next Obligation.
  intros b s E. cbn beta in E. apply Z.eqb_eq. by destruct (zlen b =? 64).
Qed.
