(* ===== verification/Taproot.v ===== *)
(** * Taproot commitments ([node/txscript/taproot.go])

    Control blocks, Merkle proofs of tapscript leaves for pay-to-taproot and
    pay-to-merkle-root outputs, and the assembly of a script tree with an
    inclusion proof for every leaf. *)
From stdpp Require Import strings.
From Stdlib Require Import Lia ZArith.
From S2P Require Import Prelude Wire ScriptError Opcode Standard Crypto.

Definition BaseLeafVersion : Z := 0xc0.
Definition ControlBlockBaseSize : Z := 33.
Definition ControlBlockNodeSize : Z := 32.
Definition ControlBlockMaxNodeCount : Z := 128.
Definition ControlBlockMaxSize : Z :=
  ControlBlockBaseSize + ControlBlockNodeSize * ControlBlockMaxNodeCount.
Definition MerkleRootControlBlockBaseSize : Z := 1.
Definition MerkleRootControlBlockMaxSize : Z :=
  MerkleRootControlBlockBaseSize + ControlBlockNodeSize * ControlBlockMaxNodeCount.

(** ** Nodes of a script tree *)

Record TapLeaf := mkTapLeaf { tl_LeafVersion : Z; tl_Script : bytes }.

#[global] Instance TapLeaf_eq_dec : EqDecision TapLeaf.
Proof. solve_decision. Defined.

Inductive TapNode :=
| LeafNode (leaf : TapLeaf)
| TapBranch (leftNode rightNode : TapNode).

Definition NewBaseTapLeaf (script : bytes) : TapLeaf := mkTapLeaf BaseLeafVersion script.
Definition NewTapLeaf (leafVersion : Z) (script : bytes) : TapLeaf := mkTapLeaf leafVersion script.
Definition NewTapBranch (l r : TapNode) : TapNode := TapBranch l r.

Definition Left (node : TapNode) : option TapNode :=
  match node with LeafNode _ => None | TapBranch l _ => Some l end.
Definition Right (node : TapNode) : option TapNode :=
  match node with LeafNode _ => None | TapBranch _ r => Some r end.

(** [bytes.Compare]. *)
Fixpoint Compare (a b : bytes) : comparison :=
  match a, b with
  | [], [] => Eq
  | [], _ :: _ => Lt
  | _ :: _, [] => Gt
  | x :: a, y :: b =>
      match Z.compare (b2z x) (b2z y) with Eq => Compare a b | c => c end
  end.

Section hashes.
Context `{HashFns}.

Definition TapLeaf_TapHash (t : TapLeaf) : bytes :=
  let leafEncoding := [z2b (tl_LeafVersion t)] ++ WriteVarBytes (tl_Script t) in
  TaggedHash TagTapLeaf [leafEncoding].

Definition tapBranchHash (l r : bytes) : bytes :=
  let '(l, r) := match Compare l r with Gt => (r, l) | _ => (l, r) end in
  TaggedHash TagTapBranch [l; r].

Fixpoint TapHash (t : TapNode) : bytes :=
  match t with
  | LeafNode leaf => TapLeaf_TapHash leaf
  | TapBranch l r => tapBranchHash (TapHash l) (TapHash r)
  end.

(** ** Merkle proofs *)

(** [numNodes] rounds over the 32-byte nodes of the proof. *)
Fixpoint computeMerkleRoot_loop (n : nat) (nodeOffset : Z) (inclusionProof merkleAccumulator : bytes)
    : result ScriptErr bytes :=
  match n with
  | O => Ok merkleAccumulator
  | S n =>
      let leafOffset := 32 * nodeOffset in
      nextNode ← go_slice inclusionProof leafOffset (leafOffset + 32);
      computeMerkleRoot_loop n (nodeOffset + 1) inclusionProof
        (tapBranchHash merkleAccumulator nextNode)
  end.

Definition computeMerkleRootFromProof (leafVersion : Z) (inclusionProof revealedScript : bytes)
    : result ScriptErr bytes :=
  let merkleAccumulator := TapLeaf_TapHash (NewTapLeaf leafVersion revealedScript) in
  let numNodes := zlen inclusionProof / ControlBlockNodeSize in
  computeMerkleRoot_loop (Z.to_nat numNodes) 0 inclusionProof merkleAccumulator.

(** ** Pay-to-merkle-root control blocks *)

Record MerkleRootControlBlock := mkMRCB { mr_LeafVersion : Z; mr_InclusionProof : bytes }.

Definition MRCB_RootHash (c : MerkleRootControlBlock) (revealedScript : bytes)
    : result ScriptErr bytes :=
  computeMerkleRootFromProof (mr_LeafVersion c) (mr_InclusionProof c) revealedScript.

Definition MRCB_ToBytes (c : MerkleRootControlBlock) : bytes :=
  z2b (Z.lor (u8 (mr_LeafVersion c)) 0x01) :: mr_InclusionProof c.

Definition ParseMerkleRootControlBlock (ctrlBlock : bytes)
    : result ScriptErr MerkleRootControlBlock :=
  if zlen ctrlBlock <? MerkleRootControlBlockBaseSize then
    Fail (scriptError ErrControlBlockTooSmall)
  else if MerkleRootControlBlockMaxSize <? zlen ctrlBlock then
    Fail (scriptError ErrControlBlockTooLarge)
  else if negb ((zlen ctrlBlock - MerkleRootControlBlockBaseSize) mod ControlBlockNodeSize =? 0) then
    Fail (scriptError ErrControlBlockInvalidLength)
  else
    c0 ← go_index ctrlBlock 0;
    if negb (Z.land (b2z c0) 0x01 =? 0x01) then
      Fail (scriptError ErrMerkleRootControlBlockInvalidParity)
    else
      proofBytes ← go_slice ctrlBlock 1 (zlen ctrlBlock);
      Ok (mkMRCB (Z.land (b2z c0) TaprootLeafMask) proofBytes).

Definition VerifyMerkleRootLeafCommitment (controlBlock : MerkleRootControlBlock)
    (witnessProgram revealedScript : bytes) : result ScriptErr unit :=
  rootHash ← MRCB_RootHash controlBlock revealedScript;
  if negb (bool_decide (rootHash = witnessProgram)) then
    Fail (scriptError ErrMerkleRootMerkleProofInvalid)
  else Ok ().

(** ** Taproot control blocks *)

Section keys.
Context `{Keys}.

Record ControlBlock := mkCB {
  InternalKey : PublicKey;
  OutputKeyYIsOdd : bool;
  LeafVersion : Z;
  InclusionProof : bytes
}.

Definition ToBytes (c : ControlBlock) : bytes :=
  let yParity := if OutputKeyYIsOdd c then 1 else 0 in
  let leafVersionAndParity := Z.lor (u8 (LeafVersion c)) yParity in
  [z2b leafVersionAndParity] ++ SerializePubKey (InternalKey c) ++ InclusionProof c.

Definition RootHash (c : ControlBlock) (revealedScript : bytes) : result ScriptErr bytes :=
  computeMerkleRootFromProof (LeafVersion c) (InclusionProof c) revealedScript.

Definition ParseControlBlock (ctrlBlock : bytes) : result ScriptErr ControlBlock :=
  if zlen ctrlBlock <? ControlBlockBaseSize then Fail (scriptError ErrControlBlockTooSmall)
  else if ControlBlockMaxSize <? zlen ctrlBlock then Fail (scriptError ErrControlBlockTooLarge)
  else if negb ((zlen ctrlBlock - ControlBlockBaseSize) mod ControlBlockNodeSize =? 0) then
    Fail (scriptError ErrControlBlockInvalidLength)
  else
    c0 ← go_index ctrlBlock 0;
    let leafVersion := Z.land (b2z c0) TaprootLeafMask in
    let yIsOdd := Z.land (b2z c0) 0x01 =? 0x01 in
    rawKey ← go_slice ctrlBlock 1 33;
    match schnorr_ParsePubKey rawKey with
    | None => Fail (otherError "schnorr.ParsePubKey")
    | Some pubKey =>
        proofBytes ← go_slice ctrlBlock 33 (zlen ctrlBlock);
        Ok (mkCB pubKey yIsOdd leafVersion proofBytes)
    end.

(** The error of the re-parse is dropped in the source; a key that does not
    parse would be a nil pointer. *)
Definition ComputeTaprootOutputKey (pubKey : PublicKey) (scriptRoot : bytes)
    : result ScriptErr PublicKey :=
  match schnorr_ParsePubKey (SerializePubKey pubKey) with
  | None => Panic
  | Some internalKey =>
      let tapTweakHash := TaggedHash TagTapTweak [SerializePubKey internalKey; scriptRoot] in
      Ok (tweakAdd internalKey tapTweakHash)
  end.

Definition ComputeTaprootKeyNoScript (internalKey : PublicKey) : result ScriptErr PublicKey :=
  ComputeTaprootOutputKey internalKey [].

(** [SerializeCompressed()[0] == PubKeyFormatCompressedOdd] *)
Definition y_is_odd (k : PublicKey) : result ScriptErr bool :=
  b ← go_index (SerializeCompressed k) 0; Ok (b2z b =? 0x03).

Definition VerifyTaprootLeafCommitment (controlBlock : ControlBlock)
    (taprootWitnessProgram revealedScript : bytes) : result ScriptErr unit :=
  rootHash ← RootHash controlBlock revealedScript;
  taprootKey ← ComputeTaprootOutputKey (InternalKey controlBlock) rootHash;
  let expectedWitnessProgram := SerializePubKey taprootKey in
  if negb (bool_decide (expectedWitnessProgram = taprootWitnessProgram)) then
    Fail (scriptError ErrTaprootMerkleProofInvalid)
  else
    derivedYIsOdd ← y_is_odd taprootKey;
    if negb (Bool.eqb (OutputKeyYIsOdd controlBlock) derivedYIsOdd) then
      Fail (scriptError ErrTaprootOutputKeyParityMismatch)
    else Ok ().

Definition PayToTaprootScript (taprootKey : PublicKey) : result ScriptErr bytes :=
  Script (AddData (AddOp NewScriptBuilder OP_1) (SerializePubKey taprootKey)).
End keys.
End hashes.

(** ** Branch hashes are symmetric *)

Lemma Compare_refl a : Compare a a = Eq.
Proof. induction a as [|x a IH]; [done|]. cbn. by rewrite Z.compare_refl. Qed.

Lemma Compare_eq a b : Compare a b = Eq → a = b.
Proof.
  revert b. induction a as [|x a IH]; intros [|y b]; cbn; try done.
  destruct (Z.compare_spec (b2z x) (b2z y)) as [E| |]; try done.
  intros H. apply b2z_inj in E as ->. by rewrite (IH b).
Qed.

Lemma Compare_antisym a b : Compare b a = CompOpp (Compare a b).
Proof.
  revert b. induction a as [|x a IH]; intros [|y b]; cbn; try done.
  rewrite (Z.compare_antisym (b2z x)). by destruct (Z.compare (b2z x) (b2z y)); cbn.
Qed.

Section hash_lemmas.
Context `{HashFns}.

Lemma tapBranchHash_comm l r : tapBranchHash l r = tapBranchHash r l.
Proof.
  unfold tapBranchHash. rewrite (Compare_antisym l r).
  destruct (Compare l r) eqn:E; cbn; try done. by apply Compare_eq in E as ->.
Qed.

Lemma tapBranchHash_size l r : zlen (tapBranchHash l r) = 32.
Proof. unfold tapBranchHash. case_match. apply TaggedHash_size. Qed.

Lemma TapHash_size t : zlen (TapHash t) = 32.
Proof. destruct t; [apply TaggedHash_size|apply tapBranchHash_size]. Qed.

(** ** Proofs as lists of sibling hashes *)

(** The root reached from [acc] along the siblings. *)
Definition climb (acc : bytes) (siblings : list bytes) : bytes :=
  foldl tapBranchHash acc siblings.

Definition nodes (siblings : list bytes) : Prop := Forall (λ h, zlen h = 32) siblings.

Lemma zlen_concat_nodes siblings : nodes siblings → zlen (concat siblings) = 32 * zlen siblings.
Proof.
  induction 1 as [|h hs Hh _ IH]; [done|]. cbn [concat].
  rewrite zlen_app, zlen_cons. lia.
Qed.

Lemma computeMerkleRoot_loop_nodes pre siblings rest acc :
  nodes pre → nodes siblings →
  computeMerkleRoot_loop (length siblings) (zlen pre)
    (concat pre ++ concat siblings ++ rest) acc = Ok (climb acc siblings).
Proof.
  intros Hpre Hs. revert pre acc Hpre.
  induction Hs as [|h hs Hh Hs IH]; intros pre acc Hpre; [done|].
  cbn [length computeMerkleRoot_loop concat]. cbv zeta.
  rewrite <-(assoc_L (++)), go_slice_at by (rewrite zlen_concat_nodes by done; lia).
  cbn [mbind result_bind].
  replace (concat pre ++ h ++ concat hs ++ rest) with (concat (pre ++ [h]) ++ concat hs ++ rest).
  2:{ rewrite concat_app. cbn [concat]. rewrite app_nil_r. by app_norm. }
  replace (zlen pre + 1) with (zlen (pre ++ [h])) by (by rewrite zlen_snoc).
  apply IH. apply Forall_app. split; [done|]. by constructor.
Qed.

(** The first 32-byte nodes of a proof, whatever its length. *)
Lemma split_nodes proof :
  ∃ siblings rest, proof = concat siblings ++ rest ∧ nodes siblings ∧
    zlen siblings = zlen proof / 32 ∧ zlen rest < 32.
Proof.
  remember (length proof) as n eqn:Hn. revert proof Hn.
  induction (lt_wf n) as [n _ IH]. intros proof ->.
  destruct (decide (zlen proof < 32)) as [Hlt|Hge].
  - exists [], proof. split_and!; [done|constructor| |done].
    rewrite Z.div_small; [done|]. pose proof (zlen_nonneg proof). lia.
  - destruct (split_at proof 32) as (h & p & -> & Hh); [lia|].
    destruct (IH (length p)) with (proof := p) as (hs & rest & E & Hn & Hl & Hr).
    + unfold zlen in *. rewrite length_app. lia.
    + done.
    + exists (h :: hs), rest. split_and!; [|by constructor| |done].
      * cbn [concat]. rewrite E. by rewrite (assoc_L (++)).
      * rewrite zlen_cons, zlen_app, Hh, Hl. rewrite <-(Z.div_add_l 1 32) by lia. done.
Qed.

Lemma computeMerkleRoot_climb leafVersion siblings script :
  nodes siblings →
  computeMerkleRootFromProof leafVersion (concat siblings) script =
  Ok (climb (TapLeaf_TapHash (mkTapLeaf leafVersion script)) siblings).
Proof.
  intros Hn. unfold computeMerkleRootFromProof. cbv zeta.
  rewrite zlen_concat_nodes by done. unfold ControlBlockNodeSize.
  rewrite (Z.mul_comm 32), Z.div_mul, to_nat_zlen by done.
  pose proof (computeMerkleRoot_loop_nodes [] siblings [] (TapLeaf_TapHash
    (NewTapLeaf leafVersion script)) (Forall_nil_2 _) Hn) as E.
  change (zlen (@nil bytes)) with 0 in E. cbn [concat app] in E. by rewrite app_nil_r in E.
Qed.

Lemma computeMerkleRoot_total leafVersion proof script :
  ∃ root, computeMerkleRootFromProof leafVersion proof script = Ok root ∧ zlen root = 32.
Proof.
  destruct (split_nodes proof) as (siblings & rest & -> & Hn & Hl & Hr).
  unfold computeMerkleRootFromProof. cbv zeta. unfold ControlBlockNodeSize.
  rewrite <-Hl, to_nat_zlen.
  pose proof (computeMerkleRoot_loop_nodes [] siblings rest (TapLeaf_TapHash
    (NewTapLeaf leafVersion script)) (Forall_nil_2 _) Hn) as E.
  change (zlen (@nil bytes)) with 0 in E. cbn [concat app] in E. rewrite E. eexists. split; [done|].
  destruct siblings as [|h hs] using rev_ind; [apply TaggedHash_size|].
  unfold climb. rewrite foldl_snoc. apply tapBranchHash_size.
Qed.

(** ** Control blocks *)

Lemma byte_version_parity v p :
  0 <= v < 256 → Z.land v 1 = 0 → 0 <= p < 2 →
  Z.land (b2z (z2b (Z.lor (u8 v) p))) TaprootLeafMask = v ∧
  Z.land (b2z (z2b (Z.lor (u8 v) p))) 1 = p.
Proof.
  intros Hv He Hp. rewrite <-(b2z_z2b_small v) in * by done. generalize dependent (z2b v).
  intros b Hb He. assert (p = 0 ∨ p = 1) as [-> | ->] by lia;
    destruct b; vm_compute in *; done.
Qed.

(** Leaf versions fit a byte whose lowest bit is free for the parity. *)
Definition wf_leafVersion (v : Z) : Prop := 0 <= v < 256 ∧ Z.land v 1 = 0.

(** Proofs of at most 128 nodes. *)
Definition wf_proof (p : bytes) : Prop :=
  zlen p mod ControlBlockNodeSize = 0 ∧ zlen p <= ControlBlockNodeSize * ControlBlockMaxNodeCount.

Lemma land_mask_wf b : wf_leafVersion (Z.land (b2z b) TaprootLeafMask).
Proof. split; destruct b; vm_compute; done. Qed.

Lemma b2z_mask_parity b :
  z2b (Z.lor (u8 (Z.land (b2z b) TaprootLeafMask)) (Z.land (b2z b) 1)) = b.
Proof. by destruct b; vm_compute. Qed.

Lemma land_1_cases b : Z.land (b2z b) 1 = 0 ∨ Z.land (b2z b) 1 = 1.
Proof. destruct b; vm_compute; auto. Qed.

Lemma ParseMRCB_ok raw c :
  ParseMerkleRootControlBlock raw = Ok c →
  raw = MRCB_ToBytes c ∧ wf_leafVersion (mr_LeafVersion c) ∧ wf_proof (mr_InclusionProof c).
Proof.
  unfold ParseMerkleRootControlBlock, MerkleRootControlBlockBaseSize, MerkleRootControlBlockMaxSize,
    MRCB_ToBytes, wf_proof.
  destruct raw as [|b proof]; [done|]. rewrite zlen_cons. pose proof (zlen_nonneg proof).
  rewrite (proj2 (Z.ltb_ge _ 1)) by lia.
  destruct (Z.ltb_spec (MerkleRootControlBlockBaseSize + ControlBlockNodeSize * ControlBlockMaxNodeCount) (1 + zlen proof)) as [|Hmax]; [done|].
  destruct (Z.eqb_spec ((1 + zlen proof - 1) mod ControlBlockNodeSize) 0) as [Hm|]; cbn [negb]; [|done].
  rewrite go_index_0.
  cbn [mbind result_bind].
  destruct (Z.eqb_spec (Z.land (b2z b) 1) 1) as [Hp|]; cbn [negb]; [|done].
  rewrite go_slice_cons by done.
  cbn [mbind result_bind]. intros [= <-]. cbn [mr_LeafVersion mr_InclusionProof].
  split; [|split; [apply land_mask_wf|split]].
  - pose proof (b2z_mask_parity b) as Hb. rewrite Hp in Hb. by rewrite Hb.
  - by replace (zlen proof) with (1 + zlen proof - 1) by lia.
  - unfold MerkleRootControlBlockBaseSize in Hmax. lia.
Qed.

Lemma ParseMRCB_run c :
  wf_leafVersion (mr_LeafVersion c) → wf_proof (mr_InclusionProof c) →
  ParseMerkleRootControlBlock (MRCB_ToBytes c) = Ok c.
Proof.
  intros [Hv He] [Hm Hl]. destruct (byte_version_parity (mr_LeafVersion c) 1) as [Hv1 Hp1]; [done..|].
  unfold ParseMerkleRootControlBlock, MRCB_ToBytes, MerkleRootControlBlockBaseSize,
    MerkleRootControlBlockMaxSize, MerkleRootControlBlockBaseSize.
  pose proof (zlen_nonneg (mr_InclusionProof c)). rewrite zlen_cons.
  rewrite !(proj2 (Z.ltb_ge _ _)) by lia.
  replace (1 + zlen (mr_InclusionProof c) - 1) with (zlen (mr_InclusionProof c)) by lia.
  rewrite Hm. cbn [negb Z.eqb].
  rewrite go_index_0.
  cbn [mbind result_bind]. rewrite Hp1. cbn [negb Z.eqb Pos.eqb].
  rewrite go_slice_cons by done. cbn [mbind result_bind].
  rewrite Hv1. by destruct c.
Qed.
End hash_lemmas.

Section keys_lemmas.
Context `{HashFns} `{Keys}.

Lemma ParseCB_ok raw c :
  ParseControlBlock raw = Ok c →
  raw = ToBytes c ∧ wf_leafVersion (LeafVersion c) ∧ wf_proof (InclusionProof c) ∧
  schnorr_ParsePubKey (SerializePubKey (InternalKey c)) = Some (InternalKey c).
Proof.
  unfold ParseControlBlock, ControlBlockBaseSize, ControlBlockMaxSize, ControlBlockBaseSize.
  destruct (Z.ltb_spec (zlen raw) 33) as [|Hmin]; [done|].
  destruct (Z.ltb_spec (33 + ControlBlockNodeSize * ControlBlockMaxNodeCount) (zlen raw)) as [|Hmax];
    [done|].
  destruct (split_at raw 33) as (head & proof & -> & Hh); [lia|].
  destruct head as [|b key]; [done|]. rewrite zlen_cons in Hh. assert (zlen key = 32) as Hk by lia.
  rewrite zlen_app, zlen_cons, Hk.
  destruct (Z.eqb_spec ((1 + 32 + zlen proof - 33) mod ControlBlockNodeSize) 0) as [Hm|];
    cbn [negb]; [|done].
  cbn [app]. rewrite go_index_0. cbn [mbind result_bind]. cbv zeta.
  rewrite (go_slice_at [b] key proof 1 33) by len_solve. cbn [mbind result_bind].
  destruct (schnorr_ParsePubKey key) as [k|] eqn:Ek; [|done].
  change (b :: key ++ proof) with ((b :: key) ++ proof).
  rewrite (go_slice_tail (b :: key) proof)
    by (rewrite ?zlen_cons, ?zlen_app, ?zlen_cons; lia). cbn [mbind result_bind].
  intros [= <-]. cbn [LeafVersion InclusionProof InternalKey].
  pose proof (SerializePubKey_parse key k Ek) as Hser.
  split; [|split; [apply land_mask_wf|split; [split|by rewrite Hser]]].
  - unfold ToBytes. cbn [LeafVersion InclusionProof InternalKey OutputKeyYIsOdd].
    rewrite Hser. cbn [app]. f_equal. cbv zeta. rewrite <-(b2z_mask_parity b) at 1.
    do 2 f_equal. by destruct (land_1_cases b) as [-> | ->].
  - by replace (zlen proof) with (1 + 32 + zlen proof - 33) by lia.
  - rewrite zlen_app, zlen_cons, Hk in Hmax. lia.
Qed.

Lemma ParseCB_run c k :
  wf_leafVersion (LeafVersion c) → wf_proof (InclusionProof c) →
  schnorr_ParsePubKey (SerializePubKey (InternalKey c)) = Some k →
  ParseControlBlock (ToBytes c) =
    Ok (mkCB k (OutputKeyYIsOdd c) (LeafVersion c) (InclusionProof c)).
Proof.
  intros [Hv He] [Hm Hl] Ek.
  unfold ParseControlBlock, ToBytes, ControlBlockBaseSize, ControlBlockMaxSize, ControlBlockBaseSize.
  cbv zeta. set (p := if OutputKeyYIsOdd c then 1 else 0).
  assert (0 <= p < 2) as Hp by (unfold p; destruct (OutputKeyYIsOdd c); lia).
  destruct (byte_version_parity (LeafVersion c) p) as [Hv1 Hp1]; [done..|].
  set (b := z2b (Z.lor (u8 (LeafVersion c)) p)) in *.
  pose proof (SerializePubKey_size (InternalKey c)) as Hk.
  pose proof (zlen_nonneg (InclusionProof c)).
  rewrite !zlen_app, Hk. change (zlen [b]) with 1.
  rewrite !(proj2 (Z.ltb_ge _ _)) by lia.
  replace (1 + (32 + zlen (InclusionProof c)) - 33) with (zlen (InclusionProof c)) by lia.
  rewrite Hm. cbn [negb Z.eqb app]. rewrite go_index_0. cbn [mbind result_bind].
  rewrite (go_slice_at [b] (SerializePubKey (InternalKey c)) (InclusionProof c) 1 33)
    by len_solve. cbn [mbind result_bind].
  rewrite Ek. change (b :: ?x ++ ?y) with ((b :: x) ++ y).
  rewrite (go_slice_tail (b :: _)) by (rewrite zlen_cons; lia). cbn [mbind result_bind].
  rewrite Hv1, Hp1. unfold p. by destruct (OutputKeyYIsOdd c).
Qed.
End keys_lemmas.

(** ** Assembling a script tree *)

Section assemble.
Context `{HashFns}.

(** [RootNode] is nil until the tree is complete. *)
Record TapscriptProof := mkProof {
  tp_TapLeaf : TapLeaf;
  tp_RootNode : option TapNode;
  tp_InclusionProof : bytes
}.

Record IndexedTapScriptTree := mkTree {
  RootNode : option TapNode;
  LeafMerkleProofs : list TapscriptProof;
  LeafProofIndex : gmap bytes Z
}.

Definition zeroProof : TapscriptProof := mkProof (mkTapLeaf 0 []) None [].

Definition NewIndexedTapScriptTree (numLeaves : Z) : IndexedTapScriptTree :=
  mkTree None (replicate (Z.to_nat numLeaves) zeroProof) ∅.

(** [scriptTree.LeafMerkleProofs[i] = f ...], with the bounds check. *)
Definition with_proof (i : Z) (f : TapscriptProof → TapscriptProof) (t : IndexedTapScriptTree)
    : result ScriptErr IndexedTapScriptTree :=
  _ ← go_index (LeafMerkleProofs t) i;
  Ok (mkTree (RootNode t) (alter f (Z.to_nat i) (LeafMerkleProofs t)) (LeafProofIndex t)).

Definition set_leaf (leaf : TapLeaf) (p : TapscriptProof) : TapscriptProof :=
  mkProof leaf (tp_RootNode p) (tp_InclusionProof p).
Definition add_node (h : bytes) (p : TapscriptProof) : TapscriptProof :=
  mkProof (tp_TapLeaf p) (tp_RootNode p) (tp_InclusionProof p ++ h).
Definition set_root (r : option TapNode) (p : TapscriptProof) : TapscriptProof :=
  mkProof (tp_TapLeaf p) r (tp_InclusionProof p).

(** A missing map key reads as zero. *)
Definition proof_index (t : IndexedTapScriptTree) (h : bytes) : Z :=
  default 0 (LeafProofIndex t !! h).

Fixpoint leafDescendants (node : TapNode) : list TapLeaf :=
  match node with
  | LeafNode leaf => [leaf]
  | TapBranch l r => leafDescendants l ++ leafDescendants r
  end.

(** [for i, leaf := range leaves { LeafProofIndex[leaf.TapHash()] = i }] *)
Fixpoint index_leaves (i : Z) (leaves : list TapLeaf) (m : gmap bytes Z) : gmap bytes Z :=
  match leaves with
  | [] => m
  | leaf :: leaves => index_leaves (i + 1) leaves (<[TapLeaf_TapHash leaf := i]> m)
  end.

(** The first phase: pairs of leaves become branches; a last single leaf is
    merged with the last branch. *)
Fixpoint pair_leaves (fuel : nat) (i : Z) (leaves : list TapLeaf) (t : IndexedTapScriptTree)
    (branches : list TapNode) : result ScriptErr (IndexedTapScriptTree * list TapNode) :=
  match fuel with
  | O => Panic
  | S fuel =>
      if negb (i <? zlen leaves) then Ok (t, branches)
      else if i =? zlen leaves - 1 then
        branchToMerge ← go_index branches (zlen branches - 1);
        leaf ← go_index leaves i;
        let newBranch := NewTapBranch branchToMerge (LeafNode leaf) in
        let branches := <[Z.to_nat (zlen branches - 1) := newBranch]> branches in
        let branchHash := TapHash branchToMerge in
        t ← with_proof i (λ p, add_node branchHash (set_leaf leaf p)) t;
        let lastLeafHash := TapLeaf_TapHash leaf in
        match Left branchToMerge, Right branchToMerge with
        | Some l, Some r =>
            t ← with_proof (proof_index t (TapHash l)) (add_node lastLeafHash) t;
            t ← with_proof (proof_index t (TapHash r)) (add_node lastLeafHash) t;
            pair_leaves fuel (i + 2) leaves t branches
        | _, _ => Panic
        end
      else
        left ← go_index leaves i;
        right ← go_index leaves (i + 1);
        let nextBranch := NewTapBranch (LeafNode left) (LeafNode right) in
        let branches := branches ++ [nextBranch] in
        let leftHash := TapLeaf_TapHash left in
        let rightHash := TapLeaf_TapHash right in
        t ← with_proof i (λ p, add_node rightHash (set_leaf left p)) t;
        t ← with_proof (i + 1) (λ p, add_node leftHash (set_leaf right p)) t;
        pair_leaves fuel (i + 2) leaves t branches
  end.

(** Every leaf below a merged branch gets its new sibling. *)
Fixpoint add_sibling (ls : list TapLeaf) (h : bytes) (t : IndexedTapScriptTree)
    : result ScriptErr IndexedTapScriptTree :=
  match ls with
  | [] => Ok t
  | leaf :: ls =>
      t ← with_proof (proof_index t (TapLeaf_TapHash leaf)) (add_node h) t;
      add_sibling ls h t
  end.

(** The second phase: the queue of branches is merged two by two. *)
Fixpoint merge_branches (fuel : nat) (branches : list TapNode) (t : IndexedTapScriptTree)
    : result ScriptErr (option TapNode * IndexedTapScriptTree) :=
  match fuel with
  | O => Panic
  | S fuel =>
      match branches with
      | [] => Ok (None, t)
      | [root] => Ok (Some root, t)
      | l :: r :: branches =>
          let newBranch := NewTapBranch l r in
          let branches := branches ++ [newBranch] in
          t ← add_sibling (leafDescendants l) (TapHash r) t;
          t ← add_sibling (leafDescendants r) (TapHash l) t;
          merge_branches fuel branches t
      end
  end.

Definition AssembleTaprootScriptTree (leaves : list TapLeaf)
    : result ScriptErr IndexedTapScriptTree :=
  match leaves with
  | [leaf] =>
      Ok (mkTree (Some (LeafNode leaf)) [mkProof leaf (Some (LeafNode leaf)) []]
            {[TapLeaf_TapHash leaf := 0]})
  | _ =>
      let t := NewIndexedTapScriptTree (zlen leaves) in
      let t := mkTree (RootNode t) (LeafMerkleProofs t) (index_leaves 0 leaves (LeafProofIndex t)) in
      '(t, branches) ← pair_leaves (S (length leaves)) 0 leaves t [];
      '(rootNode, t) ← merge_branches (S (length branches)) branches t;
      Ok (mkTree rootNode (map (set_root rootNode) (LeafMerkleProofs t)) (LeafProofIndex t))
  end.
End assemble.

(** ** The assembled proofs are valid *)

Section assemble_spec.
Context `{HashFns} (leaves : list TapLeaf).
Context (Hnodup : NoDup (map TapLeaf_TapHash leaves)).

Lemma index_leaves_notin k ls m h :
  h ∉ map TapLeaf_TapHash ls → index_leaves k ls m !! h = m !! h.
Proof.
  revert k m. induction ls as [|l ls IH]; intros k m Hh; [done|].
  cbn in *. apply not_elem_of_cons in Hh as [Hne Hh].
  rewrite IH by done. by apply lookup_insert_ne.
Qed.

Lemma index_leaves_lookup ls k m i leaf :
  NoDup (map TapLeaf_TapHash ls) → ls !! i = Some leaf →
  index_leaves k ls m !! TapLeaf_TapHash leaf = Some (k + Z.of_nat i).
Proof.
  revert k m i. induction ls as [|l ls IH]; intros k m i Hnd Hi; [done|].
  cbn in Hnd. apply NoDup_cons in Hnd as [Hni Hnd]. destruct i as [|i]; cbn in Hi.
  - injection Hi as ->. cbn [index_leaves]. rewrite index_leaves_notin by done.
    rewrite lookup_insert_eq. f_equal. lia.
  - cbn [index_leaves]. rewrite (IH (k + 1) _ i) by done. f_equal. lia.
Qed.

Definition index : gmap bytes Z := index_leaves 0 leaves ∅.

Lemma leaves_nodup : NoDup leaves.
Proof. by eapply NoDup_fmap_1. Qed.

(** The shape every step keeps. *)
Definition shape (t : IndexedTapScriptTree) : Prop :=
  LeafProofIndex t = index ∧ length (LeafMerkleProofs t) = length leaves.

Lemma with_proof_run t i f :
  shape t → (i < length leaves)%nat →
  ∃ t', with_proof (Z.of_nat i) f t = Ok t' ∧ shape t' ∧
    LeafMerkleProofs t' = alter f i (LeafMerkleProofs t).
Proof.
  intros [Hi Hl] Hlt. unfold with_proof.
  destruct (go_index_total (E:=ScriptErr) (LeafMerkleProofs t) (Z.of_nat i)) as (p & -> & _).
  { unfold zlen. lia. }
  cbn [mbind result_bind]. rewrite Nat2Z.id. eexists. split; [done|].
  split; [|done]. split; [done|]. cbn [LeafMerkleProofs]. by rewrite length_alter.
Qed.

Lemma proof_index_run t i leaf :
  shape t → leaves !! i = Some leaf → proof_index t (TapLeaf_TapHash leaf) = Z.of_nat i.
Proof.
  intros [Hi _] Hleaf. unfold proof_index. rewrite Hi. unfold index.
  by rewrite (index_leaves_lookup leaves 0 ∅ i leaf).
Qed.

Lemma add_sibling_run ls h t :
  shape t → NoDup ls → (∀ leaf, leaf ∈ ls → leaf ∈ leaves) →
  ∃ t', add_sibling ls h t = Ok t' ∧ shape t' ∧
    ∀ i leaf, leaves !! i = Some leaf →
      LeafMerkleProofs t' !! i =
      if decide (leaf ∈ ls) then add_node h <$> LeafMerkleProofs t !! i
      else LeafMerkleProofs t !! i.
Proof.
  intros Ht Hnd. revert t Ht. induction Hnd as [|l ls Hni Hnd IH]; intros t Ht Hin.
  { exists t. split; [done|]. split; [done|]. intros i leaf _.
    destruct (decide (leaf ∈ [])) as [E|]; [by apply elem_of_nil in E|done]. }
  destruct (proj1 (list_elem_of_lookup leaves l)) as [j Hj]; [apply Hin; left|].
  pose proof (lookup_lt_Some _ _ _ Hj) as Hlt.
  cbn [add_sibling]. rewrite (proof_index_run t j l) by done.
  destruct (with_proof_run t j (add_node h) Ht Hlt) as (t1 & -> & Ht1 & E1).
  cbn [mbind result_bind].
  destruct (IH t1 Ht1) as (t2 & -> & Ht2 & E2). { intros leaf Hl. apply Hin. by right. }
  exists t2. split; [done|]. split; [done|]. intros i leaf Hi. rewrite (E2 i leaf Hi), E1.
  destruct (decide (i = j)) as [->|Hne].
  - assert (leaf = l) as -> by congruence.
    rewrite decide_False by done. rewrite decide_True by left.
    by rewrite list_lookup_alter_eq.
  - rewrite list_lookup_alter_ne by done.
    assert (leaf ≠ l) as Hneq.
    { intros ->. by destruct Hne, (NoDup_lookup leaves i j l leaves_nodup Hi Hj). }
    destruct (decide (leaf ∈ ls)) as [Hl|Hl].
    + by rewrite decide_True by (by right).
    + rewrite decide_False; [done|]. by intros [?|?]%elem_of_cons.
Qed.

(** The leaves below [b] have the proof that climbs to [b]'s hash. *)
Definition covered (t : IndexedTapScriptTree) (b : TapNode) : Prop :=
  ∀ leaf i, leaf ∈ leafDescendants b → leaves !! i = Some leaf →
  ∃ siblings, LeafMerkleProofs t !! i = Some (mkProof leaf None (concat siblings)) ∧
    nodes siblings ∧ climb (TapLeaf_TapHash leaf) siblings = TapHash b.

Record tree_inv (n : nat) (t : IndexedTapScriptTree) (bs : list TapNode) : Prop := mkInv {
  ti_shape : shape t;
  ti_perm : concat (map leafDescendants bs) ≡ₚ take n leaves;
  ti_covered : Forall (covered t) bs;
  ti_fresh i : (n <= i < length leaves)%nat → LeafMerkleProofs t !! i = Some zeroProof
}.

Lemma climb_snoc acc siblings h : climb acc (siblings ++ [h]) = tapBranchHash (climb acc siblings) h.
Proof. unfold climb. by rewrite foldl_snoc. Qed.

Lemma concat_snoc (siblings : list bytes) h : concat (siblings ++ [h]) = concat siblings ++ h.
Proof. rewrite concat_app. cbn. by rewrite app_nil_r. Qed.

Lemma elem_of_concat {A} (x : A) ls : x ∈ concat ls ↔ ∃ l, l ∈ ls ∧ x ∈ l.
Proof.
  rewrite list_elem_of_In, in_concat. split; intros (l & Hl & Hx); exists l;
    rewrite !list_elem_of_In in *; auto.
Qed.

(** Merging two branches. *)
Lemma merge_step n t l r bs :
  tree_inv n t (l :: r :: bs) →
  ∃ t1 t2, add_sibling (leafDescendants l) (TapHash r) t = Ok t1 ∧
    add_sibling (leafDescendants r) (TapHash l) t1 = Ok t2 ∧
    tree_inv n t2 (bs ++ [TapBranch l r]).
Proof.
  intros [Hsh Hperm Hcov Hfresh]. cbn [map concat] in Hperm.
  assert (NoDup (leafDescendants l ++ leafDescendants r ++ concat (map leafDescendants bs))) as Hnd.
  { rewrite Hperm. eapply sublist_NoDup; [apply leaves_nodup|apply sublist_take]. }
  apply NoDup_app in Hnd as (Hndl & Hlr & Hnd). apply NoDup_app in Hnd as (Hndr & Hrb & _).
  assert (∀ leaf, leaf ∈ leafDescendants l ++ leafDescendants r ++ concat (map leafDescendants bs)
    → leaf ∈ take n leaves) as Hin by (intros leaf; by rewrite Hperm).
  assert (∀ leaf, leaf ∈ take n leaves → leaf ∈ leaves) as Htake
    by (intros leaf (i & Hi & _)%elem_of_take; by apply list_elem_of_lookup_2 in Hi).
  destruct (add_sibling_run (leafDescendants l) (TapHash r) t) as (t1 & E1 & Hsh1 & Hp1); [done..| |].
  { intros leaf Hl. apply Htake, Hin. apply elem_of_app. by left. }
  destruct (add_sibling_run (leafDescendants r) (TapHash l) t1) as (t2 & E2 & Hsh2 & Hp2); [done..| |].
  { intros leaf Hl. apply Htake, Hin. rewrite !elem_of_app. auto. }
  exists t1, t2. split; [done|]. split; [done|].
  apply Forall_cons in Hcov as [Hcl Hcov]. apply Forall_cons in Hcov as [Hcr Hcov].
  split; [done| | |].
  - rewrite map_app, concat_app. cbn [map concat leafDescendants]. rewrite app_nil_r, <-Hperm.
    rewrite (Permutation_app_comm (concat _)). by rewrite <-(assoc_L (++)).
  - apply Forall_app. split; [|apply Forall_singleton].
    + rewrite Forall_forall in Hcov |- *. intros b Hb leaf i Hl Hi.
      assert (leaf ∈ concat (map leafDescendants bs)) as Hlb.
      { apply elem_of_concat. exists (leafDescendants b). split; [by apply list_elem_of_fmap_2|done]. }
      rewrite (Hp2 i leaf Hi), (Hp1 i leaf Hi), !decide_False.
      * by apply Hcov.
      * intros Hc. apply (Hlr leaf Hc). apply elem_of_app. by right.
      * intros Hc. by apply (Hrb leaf Hc).
    + intros leaf i Hl Hi. cbn [leafDescendants] in Hl. apply elem_of_app in Hl.
      rewrite (Hp2 i leaf Hi), (Hp1 i leaf Hi). destruct Hl as [Hl|Hl].
      * rewrite decide_False, decide_True by
          (done || intros Hc; apply (Hlr leaf Hl), elem_of_app; by left).
        destruct (Hcl leaf i Hl Hi) as (sibs & -> & Hn & Hc). exists (sibs ++ [TapHash r]).
        rewrite climb_snoc, concat_snoc, Hc. split; [done|]. split; [|done].
        apply Forall_app. split; [done|]. apply Forall_singleton, TapHash_size.
      * rewrite decide_True, decide_False by
          (done || intros Hc; apply (Hlr leaf Hc), elem_of_app; by left).
        destruct (Hcr leaf i Hl Hi) as (sibs & -> & Hn & Hc). exists (sibs ++ [TapHash l]).
        rewrite climb_snoc, concat_snoc, Hc. split; [done|].
        split; [|apply tapBranchHash_comm].
        apply Forall_app. split; [done|]. apply Forall_singleton, TapHash_size.
  - intros i Hi. destruct (lookup_lt_is_Some_2 leaves i) as [leaf Hleaf]; [lia|].
    assert (leaf ∉ take n leaves) as Hnt.
    { intros (j & Hj)%list_elem_of_lookup. apply lookup_take_Some in Hj as [Hj Hjn].
      pose proof (NoDup_lookup leaves i j leaf leaves_nodup Hleaf Hj). lia. }
    rewrite (Hp2 i leaf Hleaf), (Hp1 i leaf Hleaf), !decide_False; [by apply Hfresh| |];
      intros Hc; apply Hnt, Hin; rewrite !elem_of_app; auto.
Qed.

Lemma merge_branches_run fuel n t bs :
  tree_inv n t bs → bs ≠ [] → (length bs < fuel)%nat →
  ∃ root t', merge_branches fuel bs t = Ok (Some root, t') ∧ tree_inv n t' [root].
Proof.
  revert t bs. induction fuel as [|fuel IH]; intros t bs Hinv Hne Hf; [lia|].
  destruct bs as [|l [|r bs]]; [done|by exists l, t|]. cbn [merge_branches]. cbv zeta.
  destruct (merge_step n t l r bs Hinv) as (t1 & t2 & -> & E2 & Hinv2).
  cbn [mbind result_bind]. rewrite E2. cbn [mbind result_bind]. apply IH; [done| |].
  - by destruct bs.
  - rewrite length_app. cbn in *. lia.
Qed.

(** *** The first phase *)

Definition upd (i : nat) (f : TapscriptProof → TapscriptProof) (t : IndexedTapScriptTree)
    : IndexedTapScriptTree :=
  mkTree (RootNode t) (alter f i (LeafMerkleProofs t)) (LeafProofIndex t).

Lemma with_proof_upd t i f :
  shape t → (i < length leaves)%nat → with_proof (Z.of_nat i) f t = Ok (upd i f t).
Proof.
  intros [_ Hl] Hlt. unfold with_proof.
  destruct (go_index_total (E:=ScriptErr) (LeafMerkleProofs t) (Z.of_nat i)) as (p & -> & _).
  { unfold zlen. lia. }
  cbn [mbind result_bind]. by rewrite Nat2Z.id.
Qed.

Lemma shape_upd i f t : shape t → shape (upd i f t).
Proof. intros [Hi Hl]. split; [done|]. cbn [upd LeafMerkleProofs]. by rewrite length_alter. Qed.

Lemma upd_upd i f g t : upd i g (upd i f t) = upd i (λ p, g (f p)) t.
Proof.
  unfold upd. cbn [RootNode LeafMerkleProofs LeafProofIndex]. f_equal.
  apply list_eq. intros j. rewrite !list_lookup_alter.
  destruct (decide (i = j)) as [->|]; [|done].
  rewrite decide_True by done. by destruct (_ !! j).
Qed.

Lemma upd_comm i j f g t : i ≠ j → upd i f (upd j g t) = upd j g (upd i f t).
Proof.
  intros Hne. unfold upd. cbn [RootNode LeafMerkleProofs LeafProofIndex]. f_equal.
  apply list_eq. intros k. rewrite !list_lookup_alter.
  destruct (decide (i = k)), (decide (j = k)); subst; rewrite ?decide_True, ?decide_False by done; done.
Qed.

Lemma add_sibling_one i leaf h t :
  shape t → leaves !! i = Some leaf → add_sibling [leaf] h t = Ok (upd i (add_node h) t).
Proof.
  intros Ht Hi. cbn [add_sibling]. rewrite (proof_index_run t i leaf) by done.
  by rewrite with_proof_upd by (done || by eapply lookup_lt_Some).
Qed.

(** A leaf joins the forest with an empty proof. *)
Lemma fresh_leaf n t bs leaf :
  tree_inv n t bs → leaves !! n = Some leaf →
  tree_inv (S n) (upd n (set_leaf leaf) t) (LeafNode leaf :: bs).
Proof.
  intros [Hsh Hperm Hcov Hfresh] Hn. pose proof (lookup_lt_Some _ _ _ Hn) as Hlt.
  split; [by apply shape_upd| | |].
  - rewrite (take_S_r _ _ leaf) by done. cbn [map concat leafDescendants app].
    rewrite Hperm. apply Permutation_cons_append.
  - constructor.
    + intros l i Hl Hi. cbn [leafDescendants] in Hl. apply list_elem_of_singleton in Hl as ->.
      pose proof (NoDup_lookup leaves i n leaf leaves_nodup Hi Hn) as ->.
      exists []. split; [|split; [constructor|done]].
      cbn [upd LeafMerkleProofs]. rewrite list_lookup_alter_eq, Hfresh by lia. done.
    + rewrite Forall_forall in Hcov |- *. intros b Hb l i Hl Hi.
      cbn [upd LeafMerkleProofs]. rewrite list_lookup_alter_ne; [by apply Hcov|]. intros ->.
      assert (l ∈ take i leaves) as (j & Hj & Hlt')%elem_of_take.
      { rewrite <-Hperm. apply elem_of_concat. exists (leafDescendants b).
        split; [by apply list_elem_of_fmap_2|done]. }
      pose proof (NoDup_lookup leaves i j l leaves_nodup Hi Hj). lia.
  - intros i Hi. cbn [upd LeafMerkleProofs]. rewrite list_lookup_alter_ne by lia.
    apply Hfresh. lia.
Qed.

Lemma tree_inv_perm n t bs bs' : bs ≡ₚ bs' → tree_inv n t bs → tree_inv n t bs'.
Proof.
  intros Hp [Hsh Hperm Hcov Hfresh]. split; [done| |by rewrite <-Hp|done].
  rewrite <-Hperm. clear -Hp. induction Hp as [|x l l' _ IH|x y l|l l' l'' _ IH _ IH']; cbn.
  - done.
  - by rewrite IH.
  - rewrite !(assoc_L (++)). by rewrite (Permutation_app_comm (leafDescendants y)).
  - by rewrite IH', IH.
Qed.

(** The two sides of a branch may be exchanged: the hash and the leaves below
    are the same. *)
Lemma tree_inv_swap n t bs l r :
  tree_inv n t (bs ++ [TapBranch l r]) → tree_inv n t (bs ++ [TapBranch r l]).
Proof.
  intros [Hsh Hperm Hcov Hfresh]. split; [done| | |done].
  - rewrite <-Hperm, !map_app, !concat_app. cbn. rewrite !app_nil_r.
    by rewrite (Permutation_app_comm (leafDescendants r)).
  - apply Forall_app in Hcov as [Hcov Hb]. apply Forall_app. split; [done|].
    apply Forall_cons in Hb as [Hb _]. apply Forall_cons. split; [|done]. intros leaf i Hl Hi.
    destruct (Hb leaf i) as (sibs & ? & ? & Hc); [|done|].
    + cbn in *. rewrite elem_of_app in *. tauto.
    + exists sibs. split; [done|]. split; [done|]. rewrite Hc. cbn. apply tapBranchHash_comm.
Qed.

(** A step on two leaves. *)
Lemma pair_step n t bs l r :
  tree_inv n t bs → leaves !! n = Some l → leaves !! S n = Some r →
  tree_inv (S (S n))
    (upd (S n) (λ p, add_node (TapLeaf_TapHash l) (set_leaf r p))
      (upd n (λ p, add_node (TapLeaf_TapHash r) (set_leaf l p)) t))
    (bs ++ [TapBranch (LeafNode l) (LeafNode r)]).
Proof.
  intros Hinv Hl Hr. pose proof (fresh_leaf n t bs l Hinv Hl) as H1.
  pose proof (fresh_leaf _ _ _ r H1 Hr) as H2.
  apply (tree_inv_perm _ _ _ (LeafNode l :: LeafNode r :: bs)) in H2; [|constructor].
  destruct (merge_step _ _ _ _ _ H2) as (t1 & t2 & E1 & E2 & H3).
  cbn [leafDescendants TapHash] in E1, E2.
  rewrite (add_sibling_one n) in E1 by (done || apply H2). injection E1 as <-.
  rewrite (add_sibling_one (S n)) in E2 by (done || apply shape_upd, H2). injection E2 as <-.
  rewrite (upd_comm n (S n)), !upd_upd in H3 by lia. exact H3.
Qed.

(** A step on the last leaf of an odd number. *)
Lemma last_step n t bs a b leaf ia ib :
  tree_inv n t (bs ++ [TapBranch (LeafNode a) (LeafNode b)]) → leaves !! n = Some leaf →
  leaves !! ia = Some a → leaves !! ib = Some b → ia ≠ n → ib ≠ n →
  let branchHash := TapHash (TapBranch (LeafNode a) (LeafNode b)) in
  let h := TapLeaf_TapHash leaf in
  tree_inv (S n)
    (upd ib (add_node h) (upd ia (add_node h)
      (upd n (λ p, add_node branchHash (set_leaf leaf p)) t)))
    (bs ++ [TapBranch (TapBranch (LeafNode a) (LeafNode b)) (LeafNode leaf)]).
Proof.
  intros Hinv Hl Ha Hb Hna Hnb. cbv zeta.
  pose proof (fresh_leaf n t _ leaf Hinv Hl) as H1.
  apply (tree_inv_perm _ _ _ (LeafNode leaf :: TapBranch (LeafNode a) (LeafNode b) :: bs)) in H1;
    [|constructor; by rewrite <-Permutation_cons_append].
  destruct (merge_step _ _ _ _ _ H1) as (t1 & t2 & E1 & E2 & H3).
  cbn [leafDescendants app] in E1, E2.
  rewrite (add_sibling_one n) in E1 by (done || apply H1). injection E1 as <-.
  change [a; b] with ([a] ++ [b]) in E2.
  assert (∀ t, shape t → add_sibling ([a] ++ [b]) (TapLeaf_TapHash leaf) t =
    Ok (upd ib (add_node (TapLeaf_TapHash leaf)) (upd ia (add_node (TapLeaf_TapHash leaf)) t))) as Hab.
  { intros t' Ht'. cbn [app add_sibling]. rewrite (proof_index_run t' ia a) by done.
    rewrite with_proof_upd by (done || by eapply lookup_lt_Some). cbn [mbind result_bind].
    apply add_sibling_one; [by apply shape_upd|done]. }
  cbn [TapHash] in E2. rewrite Hab in E2 by (apply shape_upd, H1). injection E2 as <-.
  rewrite upd_upd in H3. by apply tree_inv_swap.
Qed.

(** The last branch holds the last two leaves consumed. *)
Definition last_pair (i : nat) (bs : list TapNode) : Prop :=
  i = O ∨ ∃ bs' a b ia ib, bs = bs' ++ [TapBranch (LeafNode a) (LeafNode b)] ∧
    leaves !! ia = Some a ∧ leaves !! ib = Some b ∧ (ia < i)%nat ∧ (ib < i)%nat.

Lemma go_index_leaf (i : nat) leaf :
  leaves !! i = Some leaf → go_index (E:=ScriptErr) leaves (Z.of_nat i) = Ok leaf.
Proof. intros. apply go_index_ok. rewrite Nat2Z.id. split; [lia|done]. Qed.

Lemma pair_leaves_run fuel i t bs :
  tree_inv i t bs → (i <= length leaves)%nat → last_pair i bs → length leaves ≠ 1%nat →
  (length leaves < fuel + i)%nat →
  ∃ t' bs', pair_leaves fuel (Z.of_nat i) leaves t bs = Ok (t', bs') ∧
    tree_inv (length leaves) t' bs' ∧ (length leaves ≠ 0%nat → bs' ≠ []).
Proof.
  revert i t bs. induction fuel as [|fuel IH]; intros i t bs Hinv Hi Hlast Hne Hf; [lia|].
  cbn [pair_leaves]. pose proof (ti_shape _ _ _ Hinv) as Hsh.
  destruct (Z.ltb_spec (Z.of_nat i) (zlen leaves)) as [Hlt|Hge]; cbn [negb]; unfold zlen in *.
  2:{ assert (i = length leaves) as -> by lia. exists t, bs. split; [done|]. split; [done|].
      intros Hn. destruct Hlast as [|(bs' & a & b & ia & ib & -> & _)]; [done|by destruct bs']. }
  destruct (lookup_lt_is_Some_2 leaves i) as [l Hl]; [lia|].
  destruct (Z.eqb_spec (Z.of_nat i) (Z.of_nat (length leaves) - 1)) as [Elast|Nlast].
  - destruct Hlast as [|(bs' & a & b & ia & ib & -> & Ha & Hb & Hia & Hib)]; [lia|].
    rewrite go_index_mid by len_solve. cbn [mbind result_bind].
    rewrite (go_index_leaf i l Hl). cbn [mbind result_bind]. cbv zeta.
    rewrite with_proof_upd by (done || lia). cbn [mbind result_bind Left Right TapHash].
    set (f := λ p, add_node _ (set_leaf l p)). unfold NewTapBranch.
    rewrite (proof_index_run _ ia a) by (done || by apply shape_upd).
    rewrite with_proof_upd by (by apply shape_upd || lia). cbn [mbind result_bind].
    rewrite (proof_index_run _ ib b) by (done || by repeat apply shape_upd).
    rewrite with_proof_upd by (by repeat apply shape_upd || lia). cbn [mbind result_bind].
    destruct fuel as [|fuel]; [lia|]. cbn [pair_leaves].
    rewrite (proj2 (Z.ltb_ge _ _)) by (unfold zlen; lia). cbn [negb].
    eexists _, _. split; [done|].
    replace (Z.to_nat _) with (length bs' + 0)%nat by len_solve.
    rewrite insert_app_r. cbn [list_insert insert].
    replace (length leaves) with (S i) by lia. split.
    + apply last_step; [done..|lia|lia].
    + intros _. by destruct bs'.
  - destruct (lookup_lt_is_Some_2 leaves (S i)) as [r Hr]; [lia|].
    rewrite (go_index_leaf i l Hl). cbn [mbind result_bind].
    replace (Z.of_nat i + 1) with (Z.of_nat (S i)) by lia.
    rewrite (go_index_leaf (S i) r Hr). cbn [mbind result_bind]. cbv zeta.
    rewrite with_proof_upd by (done || lia). cbn [mbind result_bind].
    rewrite with_proof_upd by (by apply shape_upd || lia). cbn [mbind result_bind].
    replace (Z.of_nat i + 2) with (Z.of_nat (S (S i))) by lia.
    apply IH; [by apply pair_step|lia| |done|lia].
    right. exists bs, l, r, i, (S i). split_and!; [done..|lia|lia].
Qed.

(** Every leaf of the assembled tree has a proof that climbs to the root. *)
Lemma assemble_run :
  leaves ≠ [] →
  ∃ t root, AssembleTaprootScriptTree leaves = Ok t ∧ RootNode t = Some root ∧
    leafDescendants root ≡ₚ leaves ∧
    ∀ i leaf, leaves !! i = Some leaf →
      ∃ siblings, LeafMerkleProofs t !! i = Some (mkProof leaf (Some root) (concat siblings)) ∧
        nodes siblings ∧ climb (TapLeaf_TapHash leaf) siblings = TapHash root ∧
        LeafProofIndex t !! TapLeaf_TapHash leaf = Some (Z.of_nat i).
Proof.
  intros Hne. destruct (decide (length leaves = 1%nat)) as [H1|H1].
  - destruct leaves as [|leaf [|]] eqn:E; try done. clear H1 Hne.
    eexists _, (LeafNode leaf). split; [done|]. split; [done|]. split; [done|].
    intros [|i] l Hl; [|done]. injection Hl as <-. exists []. split_and!; [done|constructor|done|].
    cbn [LeafProofIndex]. by rewrite lookup_singleton_eq.
  - assert (AssembleTaprootScriptTree leaves =
      (let t := mkTree None (replicate (Z.to_nat (zlen leaves)) zeroProof) index in
       '(t, branches) ← pair_leaves (S (length leaves)) 0 leaves t [];
       '(rootNode, t) ← merge_branches (S (length branches)) branches t;
       Ok (mkTree rootNode (map (set_root rootNode) (LeafMerkleProofs t)) (LeafProofIndex t)))) as ->.
    { unfold AssembleTaprootScriptTree, index. by destruct leaves as [|? [|]]. }
    cbv zeta. rewrite to_nat_zlen.
    destruct (pair_leaves_run (S (length leaves)) 0
      (mkTree None (replicate (length leaves) zeroProof) index) []) as (t1 & bs & E1 & Hinv & Hbs).
    + split; [split; [done|apply length_replicate]|done|constructor|].
      intros i Hi. apply lookup_replicate_2. lia.
    + lia.
    + by left.
    + done.
    + lia.
    + change (Z.of_nat 0) with 0 in E1. rewrite E1. cbn [mbind result_bind].
      destruct (merge_branches_run (S (length bs)) _ t1 bs Hinv) as (root & t2 & -> & Hinv2).
      { apply Hbs. by destruct leaves. }
      { lia. }
      cbn [mbind result_bind]. eexists _, root. split; [done|]. split; [done|].
      destruct Hinv2 as [[Hidx _] Hperm Hcov _]. cbn [map concat] in Hperm.
      rewrite app_nil_r, firstn_all in Hperm. split; [done|].
      apply Forall_cons in Hcov as [Hcov _]. intros i leaf Hi.
      destruct (Hcov leaf i) as (sibs & E & Hn & Hc); [|done|].
      { rewrite Hperm. by eapply list_elem_of_lookup_2. }
      exists sibs. cbn [LeafMerkleProofs LeafProofIndex]. split_and!; [|done|done|].
      * rewrite list_lookup_fmap, E. done.
      * rewrite Hidx. unfold index. by rewrite (index_leaves_lookup leaves 0 ∅ i leaf).
Qed.
End assemble_spec.

(** ** Proofs as control blocks *)

Section ToControlBlock.
Context `{HashFns} `{Keys}.

Definition ToControlBlock (t : TapscriptProof) (internalKey : PublicKey)
    : result ScriptErr ControlBlock :=
  match tp_RootNode t with
  | None => Panic
  | Some root =>
      let rootHash := TapHash root in
      taprootKey ← ComputeTaprootOutputKey internalKey rootHash;
      outputKeyYIsOdd ← y_is_odd taprootKey;
      Ok (mkCB internalKey outputKeyYIsOdd (tl_LeafVersion (tp_TapLeaf t)) (tp_InclusionProof t))
  end.

Lemma y_is_odd_total k : ∃ b, y_is_odd k = Ok b.
Proof.
  unfold y_is_odd. destruct (compressed_format k) as (p & x & -> & _ & _).
  rewrite go_index_0. by eexists.
Qed.

Lemma ComputeTaprootOutputKey_total k root : ∃ k', ComputeTaprootOutputKey k root = Ok k'.
Proof.
  unfold ComputeTaprootOutputKey. destruct (parse_SerializePubKey k) as (k' & -> & _). by eexists.
Qed.
End ToControlBlock.

(** ** Properties *)

(** Pay-to-merkle-root control blocks: the parser accepts exactly the
    serializations of control blocks with an even leaf version and a proof of
    at most 128 whole nodes, with the parity bit set, and returns that block. *)
Theorem merkle_root_control_block_codec raw c :
  ParseMerkleRootControlBlock raw = Ok c ↔
  raw = MRCB_ToBytes c ∧ wf_leafVersion (mr_LeafVersion c) ∧ wf_proof (mr_InclusionProof c).
Proof. split; [apply ParseMRCB_ok|]. intros (-> & ? & ?). by apply ParseMRCB_run. Qed.

(** Taproot control blocks: the parser accepts exactly the serializations
    of control blocks whose internal key is a parsed x-only key, with an even
    leaf version and a proof of at most 128 whole nodes. *)
Theorem taproot_control_block_codec `{HashFns} `{Keys} raw c :
  ParseControlBlock raw = Ok c ↔
  raw = ToBytes c ∧ wf_leafVersion (LeafVersion c) ∧ wf_proof (InclusionProof c) ∧
  schnorr_ParsePubKey (SerializePubKey (InternalKey c)) = Some (InternalKey c).
Proof.
  split; [apply ParseCB_ok|]. intros (-> & Hv & Hp & Hk).
  rewrite (ParseCB_run c _ Hv Hp Hk). by destruct c.
Qed.

(** What a merkle-root commitment check accepts: a proof of whole nodes
    opens the witness program for a script exactly when hashing the leaf with
    the siblings, one after the other, gives the program; otherwise the check
    fails with its own error. *)
Theorem VerifyMerkleRootLeafCommitment_spec `{HashFns} c program script :
  wf_proof (mr_InclusionProof c) →
  ∃ siblings, mr_InclusionProof c = concat siblings ∧ nodes siblings ∧ zlen siblings <= 128 ∧
  let root := climb (TapLeaf_TapHash (mkTapLeaf (mr_LeafVersion c) script)) siblings in
  (VerifyMerkleRootLeafCommitment c program script = Ok () ↔ root = program) ∧
  (root ≠ program → VerifyMerkleRootLeafCommitment c program script =
     Fail (scriptError ErrMerkleRootMerkleProofInvalid)).
Proof.
  intros [Hm Hl]. destruct (split_nodes (mr_InclusionProof c)) as (sibs & rest & E & Hn & Hz & Hr).
  unfold ControlBlockNodeSize, ControlBlockMaxNodeCount in *.
  assert (rest = []) as ->.
  { apply zlen_0. rewrite E, zlen_app, zlen_concat_nodes in Hm by done.
    rewrite Z.add_comm, Z.mul_comm, Z.mod_add, Z.mod_small in Hm; [done| |done].
    pose proof (zlen_nonneg rest). lia. }
  rewrite app_nil_r in E. exists sibs. split; [done|]. split; [done|].
  split; [rewrite E, zlen_concat_nodes in Hl by done; lia|]. cbv zeta.
  unfold VerifyMerkleRootLeafCommitment, MRCB_RootHash.
  rewrite E, computeMerkleRoot_climb by done. cbn [mbind result_bind].
  case_bool_decide as Hb; cbn [negb]; [by split|]. by split.
Qed.

(** C35 script tree assembly: for any non-empty list of leaves with pairwise
    different leaf hashes, the tree is built over exactly these leaves and the
    proof stored for each opens both kinds of output for its script: the
    pay-to-merkle-root output of the root, and, as the control block
    [ToControlBlock] makes from it for any internal key, the taproot output of
    that key tweaked with the root. *)
Theorem AssembleTaprootScriptTree_proofs `{HashFns} `{Keys} leaves internalKey :
  NoDup (map TapLeaf_TapHash leaves) → leaves ≠ [] →
  ∃ t root outputKey, AssembleTaprootScriptTree leaves = Ok t ∧ RootNode t = Some root ∧
  leafDescendants root ≡ₚ leaves ∧
  ComputeTaprootOutputKey internalKey (TapHash root) = Ok outputKey ∧
  ∀ i leaf, leaves !! i = Some leaf →
  LeafProofIndex t !! TapLeaf_TapHash leaf = Some (Z.of_nat i) ∧
  ∃ proof cb, LeafMerkleProofs t !! i = Some proof ∧ tp_TapLeaf proof = leaf ∧
    VerifyMerkleRootLeafCommitment
      (mkMRCB (tl_LeafVersion leaf) (tp_InclusionProof proof)) (TapHash root) (tl_Script leaf) = Ok () ∧
    ToControlBlock proof internalKey = Ok cb ∧
    VerifyTaprootLeafCommitment cb (SerializePubKey outputKey) (tl_Script leaf) = Ok ().
Proof.
  intros Hnd Hne. destruct (assemble_run leaves Hnd Hne) as (t & root & E & Hr & Hp & Hall).
  destruct (ComputeTaprootOutputKey_total internalKey (TapHash root)) as [k Hk].
  destruct (y_is_odd_total k) as [odd Hodd].
  exists t, root, k. do 4 (split; [done|]). intros i leaf Hi.
  destruct (Hall i leaf Hi) as (sibs & Hproof & Hn & Hc & Hidx). split; [done|].
  eexists _, _. split; [exact Hproof|]. split; [done|]. split; [|split].
  - unfold VerifyMerkleRootLeafCommitment, MRCB_RootHash. cbn [mr_LeafVersion mr_InclusionProof tp_InclusionProof].
    rewrite computeMerkleRoot_climb by done. cbn [mbind result_bind]. destruct leaf. cbn in *.
    rewrite Hc. by rewrite bool_decide_eq_true_2.
  - unfold ToControlBlock. cbn [tp_RootNode]. cbv zeta. rewrite Hk. cbn [mbind result_bind].
    rewrite Hodd. done.
  - unfold VerifyTaprootLeafCommitment, RootHash.
    cbn [LeafVersion InclusionProof InternalKey OutputKeyYIsOdd tp_TapLeaf tp_InclusionProof].
    rewrite computeMerkleRoot_climb by done. cbn [mbind result_bind]. destruct leaf. cbn in *.
    rewrite Hc, Hk. cbn [mbind result_bind]. rewrite bool_decide_eq_true_2 by done. cbn [negb].
    rewrite Hodd. cbn [mbind result_bind]. by rewrite eqb_reflx.
Qed.

Definition demo_leaves : list TapLeaf :=
  [NewBaseTapLeaf [x51]; NewBaseTapLeaf [x52]; NewBaseTapLeaf [x53]; NewBaseTapLeaf [x51; x69];
   NewBaseTapLeaf []].

Definition demo_key : PublicKey (Keys := toy_keys) := (true, repeat x44 32) ↾ eq_refl.

Lemma merkle_root_control_block_codec_witness :
  ParseMerkleRootControlBlock (xc1 :: repeat x09 64) = Ok (mkMRCB 0xc0 (repeat x09 64)).
Proof.
  apply merkle_root_control_block_codec. split; [by vm_compute|].
  split; split; vm_compute; congruence || (split; congruence).
Defined.

Lemma taproot_control_block_codec_witness :
  ParseControlBlock (xc1 :: repeat x44 32) =
    Ok (mkCB (H0 := toy_keys) ((false, repeat x44 32) ↾ eq_refl) true 0xc0 []).
Proof.
  apply taproot_control_block_codec. split; [by vm_compute|].
  split; [split; vm_compute; congruence || (split; congruence)|].
  split; [split; vm_compute; congruence|by vm_compute].
Defined.

Lemma VerifyMerkleRootLeafCommitment_spec_witness :
  VerifyMerkleRootLeafCommitment (mkMRCB 0xc0 []) (TapLeaf_TapHash (mkTapLeaf 0xc0 [x51])) [x51] = Ok ().
Proof.
  destruct (VerifyMerkleRootLeafCommitment_spec (mkMRCB 0xc0 [])
    (TapLeaf_TapHash (mkTapLeaf 0xc0 [x51])) [x51]) as (sibs & E & Hn & _ & H & _).
  { split; vm_compute; congruence. }
  apply H. destruct Hn as [|h hs Hh _]; [done|]. cbn [mr_InclusionProof concat] in E.
  symmetry in E. apply app_eq_nil in E as [-> _]. discriminate Hh.
Defined.

Lemma AssembleTaprootScriptTree_proofs_witness :
  ∃ t root k, AssembleTaprootScriptTree demo_leaves = Ok t ∧ RootNode t = Some root ∧
    ComputeTaprootOutputKey demo_key (TapHash root) = Ok k.
Proof.
  destruct (AssembleTaprootScriptTree_proofs demo_leaves demo_key) as (t & root & k & E & Hr & _ & Hk & _).
  - by apply (bool_decide_eq_true_1 _); vm_compute.
  - intros Hc. discriminate Hc.
  - exists t, root, k. split; [exact E|]. split; [exact Hr|exact Hk].
Defined.

(** Two equal leaves share an entry of [LeafProofIndex], and siblings meant for
    one land in the proof of the other: neither proof verifies. *)
Lemma assemble_duplicate_leaves :
  ∃ t root, AssembleTaprootScriptTree
      [NewBaseTapLeaf [x51]; NewBaseTapLeaf [x51]; NewBaseTapLeaf [x52]] = Ok t ∧
    RootNode t = Some root ∧
    map (λ p, match VerifyMerkleRootLeafCommitment
                      (mkMRCB (tl_LeafVersion (tp_TapLeaf p)) (tp_InclusionProof p)) (TapHash root)
                      (tl_Script (tp_TapLeaf p)) with Ok _ => true | _ => false end)
      (LeafMerkleProofs t) = [false; false; true].
Proof. eexists _, _. split; [by vm_compute|]. split; [reflexivity|]. by vm_compute. Qed.
