(* ===== verification/SigCache.v ===== *)
(** * Caches ([node/txscript/randevictcache.go], [sigcache.go])

    The bounded map with random eviction and the signature cache over it.  The
    mutex serialises the operations, so a cache is the state they transform one
    after the other; which key [for entry := range c.entries] meets first is
    not specified by Go and is a parameter, asked only to be a key of a
    non-empty map. *)
From stdpp Require Import strings.
From Stdlib Require Import Lia ZArith.
From S2P Require Import Prelude.

(** The first key a [range] over a map yields. *)
Class MapRange (K V : Type) `{Countable K} := {
  first_key : gmap K V → option K;
  first_key_some m : m ≠ ∅ → ∃ k, first_key m = Some k ∧ is_Some (m !! k);
  first_key_none : first_key ∅ = None
}.

Section randEvictCache.
Context {K V : Type} `{Countable K} `{!MapRange K V}.

Record randEvictCache := mkCache { entries : gmap K V; maxEntries : Z }.

Definition newRandEvictCache (maxEntries : Z) : randEvictCache := mkCache ∅ maxEntries.

Definition get (c : randEvictCache) (key : K) : option V :=
  if maxEntries c =? 0 then None else entries c !! key.

Definition contains (c : randEvictCache) (key : K) : bool :=
  if maxEntries c =? 0 then false else bool_decide (is_Some (entries c !! key)).

Definition put (c : randEvictCache) (key : K) (value : V) : randEvictCache :=
  if maxEntries c =? 0 then c
  else
    let exists_ := bool_decide (is_Some (entries c !! key)) in
    let es :=
      if negb exists_ && (maxEntries c <? u64 (Z.of_nat (size (entries c)) + 1)) then
        match first_key (entries c) with
        | Some entry => delete entry (entries c)
        | None => entries c
        end
      else entries c in
    mkCache (<[key := value]> es) (maxEntries c).

Definition remove (c : randEvictCache) (key : K) : randEvictCache :=
  if maxEntries c =? 0 then c else mkCache (delete key (entries c)) (maxEntries c).

Definition len (c : randEvictCache) : Z := Z.of_nat (size (entries c)).

(** ** The size bound and what an operation leaves in the cache *)

Definition bounded (c : randEvictCache) : Prop := 0 <= maxEntries c < 2 ^ 63 ∧ len c <= maxEntries c.

Lemma put_bounded c key value : bounded c → bounded (put c key value).
Proof.
  unfold bounded, put, len. intros [Hm Hl].
  destruct (Z.eqb_spec (maxEntries c) 0) as [|Hz]; [done|]. cbv zeta. cbn [maxEntries entries].
  split; [done|]. rewrite u64_small by lia.
  destruct (entries c !! key) as [v|] eqn:E.
  - rewrite (bool_decide_eq_true_2 _ (mk_is_Some (Some v) v eq_refl)). cbn [negb andb].
    rewrite (map_size_insert_Some _ _ _ (mk_is_Some _ _ E)). lia.
  - rewrite bool_decide_eq_false_2 by (by intros []). cbn [negb andb].
    destruct (Z.ltb_spec (maxEntries c) (Z.of_nat (size (entries c)) + 1)) as [Hlt|Hge].
    + destruct (first_key_some (entries c)) as (k & -> & [v Hv]).
      { intros Hemp. rewrite Hemp, map_size_empty in Hlt. lia. }
      rewrite map_size_insert_None.
      * pose proof (map_size_delete k (entries c)) as Hd. rewrite Hv in Hd. cbn in Hd.
        assert (size (entries c) ≠ 0%nat); [|lia].
        intros H0. apply map_size_empty_inv in H0. by rewrite H0, lookup_empty in Hv.
      * destruct (decide (k = key)) as [->|]; [apply lookup_delete_eq|by rewrite lookup_delete_ne].
    + rewrite map_size_insert_None by done. lia.
Qed.

Lemma remove_bounded c key : bounded c → bounded (remove c key).
Proof.
  unfold bounded, remove, len. intros [Hm Hl]. destruct (maxEntries c =? 0); [done|].
  cbn [maxEntries entries]. split; [done|].
  pose proof (map_size_delete key (entries c)) as Hd. destruct (entries c !! key); cbn in Hd; rewrite Hd; lia.
Qed.

(** After a [put] the key has its value, and any other key has the value it
    had or was evicted. *)
Lemma get_put c key value :
  maxEntries c ≠ 0 → get (put c key value) key = Some value.
Proof.
  intros Hz%Z.eqb_neq. unfold get, put. rewrite Hz. cbv zeta. cbn [maxEntries entries].
  rewrite Hz. apply lookup_insert_eq.
Qed.

Lemma get_put_other c key value key' v :
  key' ≠ key → get (put c key value) key' = Some v → get c key' = Some v.
Proof.
  intros Hne. unfold get, put. destruct (maxEntries c =? 0) eqn:Ez; [by rewrite Ez|].
  cbv zeta. cbn [maxEntries entries]. rewrite Ez, lookup_insert_ne by done.
  case_match; [|done]. case_match; [|done]. intros [_ ?]%lookup_delete_Some. done.
Qed.

Lemma get_remove c key key' :
  get (remove c key) key' = if decide (key = key') then None else get c key'.
Proof.
  unfold get, remove. destruct (maxEntries c =? 0) eqn:Ez.
  - rewrite Ez. by destruct (decide _).
  - cbn [maxEntries entries]. rewrite Ez.
    destruct (decide (key = key')) as [->|]; [apply lookup_delete_eq|by apply lookup_delete_ne].
Qed.
End randEvictCache.
Arguments randEvictCache K V {_ _}.

(** An instance: the first key of the map's list. *)
#[export] Program Instance map_range_list K V `{Countable K} : MapRange K V := {|
  first_key m := fst <$> head (map_to_list m)
|}.
Next Obligation.
  intros K V ? ? m Hm. destruct (map_to_list m) as [|[k v] l] eqn:E.
  - by apply map_to_list_empty_iff in E.
  - exists k. rewrite E. split; [done|]. exists v. apply elem_of_map_to_list. rewrite E. left.
Qed.
Next Obligation. intros K V ? ?. done. Qed.

(** ** The signature cache *)

Record sigCacheEntry := mkEntry { e_sig : bytes; e_pubKey : bytes }.

Section SigCache.
Context `{!MapRange bytes sigCacheEntry}.

Record SigCache := mkSigCache { validSigs : randEvictCache bytes sigCacheEntry }.

Definition NewSigCache (maxEntries : Z) : SigCache := mkSigCache (newRandEvictCache maxEntries).

Definition Exists (s : SigCache) (sigHash sg pubKey : bytes) : bool :=
  match get (validSigs s) sigHash with
  | Some entry => bool_decide (e_pubKey entry = pubKey) && bool_decide (e_sig entry = sg)
  | None => false
  end.

Definition Add (s : SigCache) (sigHash sg pubKey : bytes) : SigCache :=
  mkSigCache (put (validSigs s) sigHash (mkEntry sg pubKey)).

(** A cache holds only signatures [verify] accepts. *)
Definition sound (verify : bytes → bytes → bytes → Prop) (s : SigCache) : Prop :=
  ∀ sigHash sg pubKey, Exists s sigHash sg pubKey = true → verify sigHash sg pubKey.

Lemma Exists_entry s sigHash sg pubKey :
  Exists s sigHash sg pubKey = true ↔ get (validSigs s) sigHash = Some (mkEntry sg pubKey).
Proof.
  unfold Exists. destruct (get (validSigs s) sigHash) as [[s' k']|]; [|by split].
  cbn [e_sig e_pubKey]. rewrite andb_true_iff, !bool_decide_eq_true.
  split; [by intros [-> ->]|by intros [= -> ->]].
Qed.

Lemma NewSigCache_sound verify n : sound verify (NewSigCache n).
Proof.
  intros h sg k Hex. apply Exists_entry in Hex. unfold get, NewSigCache in Hex. cbn in Hex.
  case_match; [done|]. by rewrite lookup_empty in Hex.
Qed.

Lemma Add_sound verify s sigHash sg pubKey :
  sound verify s → verify sigHash sg pubKey → sound verify (Add s sigHash sg pubKey).
Proof.
  intros Hs Hv h sg' k Hex. apply Exists_entry in Hex. unfold Add in Hex. cbn [validSigs] in Hex.
  destruct (decide (h = sigHash)) as [->|Hne].
  - destruct (decide (maxEntries (validSigs s) = 0)) as [Hz|Hz].
    + unfold put, get in Hex. rewrite Hz in Hex. cbn in Hex. by rewrite Hz in Hex.
    + rewrite get_put in Hex by done. by injection Hex as <- <-.
  - apply get_put_other in Hex; [|done]. apply Hs. by apply Exists_entry.
Qed.
End SigCache.

(** ** Properties *)

(** The bounded cache: starting from the new cache no sequence of
    operations makes it hold more than [maxEntries] entries; what is stored is
    found again, storing one key never changes the value another key still has,
    and removing a key removes exactly it; a cache of size zero stays empty. *)
Theorem randEvictCache_spec {K V} `{Countable K} `{!MapRange K V} (max : Z)
    (ops : list (K * option V)) :
  0 <= max < 2 ^ 63 →
  let step c '(k, v) := match v with Some v => put c k v | None => remove c k end in
  let c := foldl step (newRandEvictCache max) ops in
  len c <= max ∧ maxEntries c = max ∧
  (∀ k v, max ≠ 0 → get (put c k v) k = Some v) ∧
  (∀ k v k' v', k' ≠ k → get (put c k v) k' = Some v' → get c k' = Some v') ∧
  (∀ k k', get (remove c k) k' = if decide (k = k') then None else get c k') ∧
  (max = 0 → ∀ k, get c k = None).
Proof.
  intros Hmax step c.
  assert (bounded c ∧ maxEntries c = max) as [[_ Hl] Hm].
  { assert (∀ ops c0, bounded c0 ∧ maxEntries c0 = max →
      bounded (foldl step c0 ops) ∧ maxEntries (foldl step c0 ops) = max) as Hstep.
    { intros ops'. induction ops' as [|[k [v|]] ops' IH]; intros c0 [Hb Hm]; [done| |]; cbn;
        apply IH.
      - split; [by apply put_bounded|]. unfold put. by destruct (maxEntries c0 =? 0).
      - split; [by apply remove_bounded|]. unfold remove. by destruct (maxEntries c0 =? 0). }
    apply Hstep. split; [|done]. split; [done|]. unfold len. cbn. rewrite map_size_empty. lia. }
  rewrite Hm in Hl. split_and!; [done|done| | | |].
  - intros k v Hz. apply get_put. by rewrite Hm.
  - intros k v k' v'. apply get_put_other.
  - intros k k'. apply get_remove.
  - intros Hz k. unfold get. by rewrite Hm, Hz.
Qed.

Lemma randEvictCache_spec_witness :
  len (foldl (λ c '(k, v), match v with Some v => put c k v | None => remove c k end)
    (newRandEvictCache (K := Z) (V := Z) 2) [(1, Some 10); (2, Some 20); (3, Some 30)]) <= 2.
Proof. by apply (randEvictCache_spec 2 [(1, Some 10); (2, Some 20); (3, Some 30)]). Defined.
