(* ===== verification/SigHash.v ===== *)
(** * Signature hashes and signature verification
    ([node/txscript/hashcache.go], [sighash.go], [sigvalidate.go])

    The midstate a transaction's inputs share, the messages that signatures
    commit to under BIP-143, BIP-341 and BIP-342, and the verifiers that hash
    the message and consult the signature cache.  A [bytes.Buffer] never fails,
    so a message is the concatenation of what is written to it.  A fetcher that
    does not know an outpoint returns nil, and using the nil output panics. *)
From stdpp Require Import strings.
From Stdlib Require Import Lia ZArith.
From S2P Require Import Prelude Wire MsgTx ScriptError Opcode Tokenizer Standard Crypto Taproot SigCache.

(** ** Previous outputs *)

Class PrevOutputFetcher := FetchPrevOutput : OutPoint → option TxOut.

Record CannedPrevOutputFetcher := mkCanned { c_pkScript : bytes; c_amt : Z }.

Definition NewCannedPrevOutputFetcher (script : bytes) (amt : Z) : CannedPrevOutputFetcher :=
  mkCanned script amt.

Definition Canned_FetchPrevOutput (c : CannedPrevOutputFetcher) : PrevOutputFetcher :=
  λ _, Some (mkTxOut (c_amt c) (c_pkScript c)).

#[global] Instance OutPoint_countable : Countable OutPoint.
Proof.
  exact (inj_countable' (λ op, (op_Hash op, op_Index op)) (λ '(h, i), mkOutPoint h i)
    (λ op, match op with mkOutPoint h i => eq_refl end)).
Defined.

Definition MultiPrevOutFetcher : Type := gmap OutPoint TxOut.

Definition NewMultiPrevOutFetcher (prevOuts : option (gmap OutPoint TxOut)) : MultiPrevOutFetcher :=
  default ∅ prevOuts.

Definition Multi_FetchPrevOutput (m : MultiPrevOutFetcher) : PrevOutputFetcher := λ op, m !! op.

Definition AddPrevOut (m : MultiPrevOutFetcher) (op : OutPoint) (txOut : TxOut)
    : MultiPrevOutFetcher := <[op := txOut]> m.

Definition Merge (m other : MultiPrevOutFetcher) : MultiPrevOutFetcher := other ∪ m.

(** A dereference of the output a fetcher returns. *)
Definition deref {E A} (p : option A) : result E A :=
  match p with Some a => Ok a | None => Panic end.

(** ** Hash types *)

Abbreviation SigHashType := Z.
Definition SigHashDefault : SigHashType := 0x00.
Definition SigHashOld : SigHashType := 0x0.
Definition SigHashAll : SigHashType := 0x1.
Definition SigHashNone : SigHashType := 0x2.
Definition SigHashSingle : SigHashType := 0x3.
Definition SigHashAnyOneCanPay : SigHashType := 0x80.
Definition sigHashMask : Z := 0x1f.
Definition blankCodeSepValue : Z := 2 ^ 32 - 1.

Definition zeroHash : bytes := repeat x00 32.

Section hashes.
Context `{HashFns}.

Definition TxHash (msg : MsgTx) : bytes := DoubleHashRaw (SerializeNoWitness msg).

Definition WitnessHash (msg : MsgTx) : bytes :=
  if HasWitness msg then DoubleHashRaw (Serialize msg) else TxHash msg.

(** ** The shared midstate *)

Definition calcHashPrevOuts (tx : MsgTx) : bytes :=
  HashH (concat (map (λ i,
    op_Hash (PreviousOutPoint i) ++ le_put 4 (op_Index (PreviousOutPoint i))) (tx_TxIn tx))).

Definition calcHashSequence (tx : MsgTx) : bytes :=
  HashH (concat (map (λ i, le_put 4 (Sequence i)) (tx_TxIn tx))).

Definition calcHashOutputs (tx : MsgTx) : bytes :=
  HashH (concat (map WriteTxOut (tx_TxOut tx))).

Record SegwitSigHashMidstate := mkV0 {
  HashPrevOutsV0 : bytes; HashSequenceV0 : bytes; HashOutputsV0 : bytes
}.

Record TaprootSigHashMidState := mkV1 {
  HashPrevOutsV1 : bytes; HashSequenceV1 : bytes; HashOutputsV1 : bytes;
  HashInputScriptsV1 : bytes; HashInputAmountsV1 : bytes
}.

Record TxSigHashes := mkSigHashes {
  V0 : SegwitSigHashMidstate;
  V1 : TaprootSigHashMidState
}.

Section fetcher.
Context (inputFetcher : PrevOutputFetcher).

(** What [enc] writes for the previous output of every input. *)
Fixpoint write_prevOuts (enc : TxOut → bytes) (ins : list TxIn) : result ScriptErr bytes :=
  match ins with
  | [] => Ok []
  | txIn :: ins =>
      prevOut ← deref (inputFetcher (PreviousOutPoint txIn));
      rest ← write_prevOuts enc ins;
      Ok (enc prevOut ++ rest)
  end.

Definition calcHashInputAmounts (tx : MsgTx) : result ScriptErr bytes :=
  b ← write_prevOuts (λ prevOut, le_put 8 (Value prevOut)) (tx_TxIn tx);
  Ok (HashH b).

Definition calcHashInputScripts (tx : MsgTx) : result ScriptErr bytes :=
  b ← write_prevOuts (λ prevOut, WriteVarBytes (PkScript prevOut)) (tx_TxIn tx);
  Ok (HashH b).

(** The loop of [NewTxSigHashes] over the inputs. *)
Fixpoint scan_inputs (ins : list TxIn) (hasV0Inputs hasV1Inputs : bool)
    : result ScriptErr (bool * bool) :=
  match ins with
  | [] => Ok (hasV0Inputs, hasV1Inputs)
  | txIn :: ins =>
      let outpoint := PreviousOutPoint txIn in
      if (op_Index outpoint =? MaxUint32) && bool_decide (op_Hash outpoint = zeroHash)
      then scan_inputs ins true hasV1Inputs
      else
        prevOut ← deref (inputFetcher outpoint);
        let '(hasV0Inputs, hasV1Inputs) :=
          if IsPayToTaproot (PkScript prevOut) then (hasV0Inputs, true) else (true, hasV1Inputs) in
        if hasV0Inputs && hasV1Inputs then Ok (hasV0Inputs, hasV1Inputs)
        else scan_inputs ins hasV0Inputs hasV1Inputs
  end.

Definition NewTxSigHashes (tx : MsgTx) : result ScriptErr TxSigHashes :=
  '(hasV0Inputs, hasV1Inputs) ← scan_inputs (tx_TxIn tx) false false;
  let prevOutsV1 := calcHashPrevOuts tx in
  let sequenceV1 := calcHashSequence tx in
  let outputsV1 := calcHashOutputs tx in
  let v0 :=
    if (hasV0Inputs : bool)
    then mkV0 (HashH prevOutsV1) (HashH sequenceV1) (HashH outputsV1)
    else mkV0 zeroHash zeroHash zeroHash in
  if (hasV1Inputs : bool) then
    amounts ← calcHashInputAmounts tx;
    scripts ← calcHashInputScripts tx;
    Ok (mkSigHashes v0 (mkV1 prevOutsV1 sequenceV1 outputsV1 scripts amounts))
  else Ok (mkSigHashes v0 (mkV1 prevOutsV1 sequenceV1 outputsV1 zeroHash zeroHash)).

(** *** The cache of midstates *)

Context `{!MapRange bytes TxSigHashes}.

Record HashCache := mkHashCache { sigHashes : randEvictCache bytes TxSigHashes }.

Definition NewHashCache (maxSize : Z) : HashCache := mkHashCache (newRandEvictCache maxSize).

Definition LoadOrComputeSigHashes (tx : MsgTx) : ST ScriptErr HashCache TxSigHashes :=
  h ← st_get;
  let txid := TxHash tx in
  match SigCache.get (sigHashes h) txid with
  | Some s => mret s
  | None =>
      s ← st_lift (NewTxSigHashes tx);
      st_modify (λ h, mkHashCache (put (sigHashes h) txid s)) ;;
      mret s
  end.

Definition PurgeSigHashes (txid : bytes) (h : HashCache) : HashCache :=
  mkHashCache (remove (sigHashes h) txid).
End fetcher.

(** ** The segwit v0 message *)

Definition calcWitnessSignatureHashRaw (subScript : bytes) (sigHashes : TxSigHashes)
    (hashType : SigHashType) (tx : MsgTx) (idx amt : Z) : result ScriptErr bytes :=
  if zlen (tx_TxIn tx) - 1 <? idx then Fail (otherError "idx but txins")
  else
    let anyOneCanPay := negb (Z.land hashType SigHashAnyOneCanPay =? 0) in
    let single := Z.land hashType sigHashMask =? SigHashSingle in
    let none := Z.land hashType sigHashMask =? SigHashNone in
    txIn ← go_index (tx_TxIn tx) idx;
    hashOutputs ←
      (if negb single && negb none then Ok (HashOutputsV0 (V0 sigHashes))
       else if single && (idx <? zlen (tx_TxOut tx)) then
         txOut ← go_index (tx_TxOut tx) idx;
         Ok (DoubleHashRaw (WriteTxOut txOut))
       else Ok zeroHash);
    Ok (DoubleHashRaw (
      le_put 4 (u32 (tx_Version tx)) ++
      (if negb anyOneCanPay then HashPrevOutsV0 (V0 sigHashes) else zeroHash) ++
      (if negb anyOneCanPay && negb single && negb none
       then HashSequenceV0 (V0 sigHashes) else zeroHash) ++
      op_Hash (PreviousOutPoint txIn) ++
      le_put 4 (op_Index (PreviousOutPoint txIn)) ++
      WriteVarBytes subScript ++
      le_put 8 (u64 amt) ++
      le_put 4 (Sequence txIn) ++
      hashOutputs ++
      le_put 4 (tx_LockTime tx) ++
      le_put 4 hashType)).

Definition CalcWitnessSigHash (script : bytes) (sigHashes : TxSigHashes) (hType : SigHashType)
    (tx : MsgTx) (idx amt : Z) : result ScriptErr bytes :=
  e ← checkScriptParses 0 script;
  match e with
  | Some err => Fail err
  | None => calcWitnessSignatureHashRaw script sigHashes hType tx idx amt
  end.

(** ** The taproot message *)

Abbreviation sigHashExtFlag := Z.
Definition baseSigHashExtFlag : sigHashExtFlag := 0.
Definition tapscriptSighashExtFlag : sigHashExtFlag := 1.

Record taprootSigHashOptions := mkOpts {
  extFlag : sigHashExtFlag;
  annexHash : option bytes;
  tapLeafHash : bytes;
  keyVersion : Z;
  codeSepPos : Z
}.

Definition writeDigestExtensions (t : taprootSigHashOptions) : bytes :=
  if extFlag t =? baseSigHashExtFlag then []
  else if extFlag t =? tapscriptSighashExtFlag then
    tapLeafHash t ++ [z2b (keyVersion t)] ++ le_put 4 (codeSepPos t)
  else [].

Definition defaultTaprootSighashOptions : taprootSigHashOptions :=
  mkOpts 0 None [] 0 0.

Abbreviation TaprootSigHashOption := (taprootSigHashOptions → taprootSigHashOptions).

Definition WithAnnex (annex : bytes) : TaprootSigHashOption := λ o,
  mkOpts (extFlag o) (Some (HashB (WriteVarBytes annex))) (tapLeafHash o) (keyVersion o) (codeSepPos o).

Definition WithBaseTapscriptVersion (codeSepPos : Z) (tapLeafHash : bytes) : TaprootSigHashOption :=
  λ o, mkOpts tapscriptSighashExtFlag (annexHash o) tapLeafHash 0 codeSepPos.

Definition isValidTaprootSigHash (hashType : SigHashType) : bool :=
  existsb (Z.eqb hashType)
    [SigHashDefault; SigHashAll; SigHashNone; SigHashSingle; 0x81; 0x82; 0x83].

Section taproot.
Context (prevOutFetcher : PrevOutputFetcher).

(** The part of the message about the signed input. *)
Definition inputMsg (hType : SigHashType) (input : TxIn) (idx : Z) : result ScriptErr bytes :=
  if Z.land hType SigHashAnyOneCanPay =? SigHashAnyOneCanPay then
    prevOut ← deref (prevOutFetcher (PreviousOutPoint input));
    Ok (WriteOutPoint (PreviousOutPoint input) ++ WriteTxOut prevOut ++ le_put 4 (Sequence input))
  else Ok (le_put 4 (u32 idx)).

(** The output [SIGHASH_SINGLE] commits to. *)
Definition singleMsg (hType : SigHashType) (tx : MsgTx) (idx : Z) : result ScriptErr bytes :=
  if Z.land hType sigHashMask =? SigHashSingle then
    if zlen (tx_TxOut tx) <=? idx then Fail (otherError "invalid sighash type for input")
    else
      txOut ← go_index (tx_TxOut tx) idx;
      Ok (sha256 (WriteTxOut txOut))
  else Ok [].

(** [calcTaprootSignatureHashRaw] up to its last step: the buffer [sigMsg]. *)
Definition sigMsg (sigHashes : TxSigHashes) (hType : SigHashType) (tx : MsgTx) (idx : Z)
    (opts : taprootSigHashOptions) : result ScriptErr bytes :=
  if negb (isValidTaprootSigHash hType) then Fail (otherError "invalid taproot sighash type")
  else if zlen (tx_TxIn tx) - 1 <? idx then Fail (otherError "idx but txins")
  else
    input ← go_index (tx_TxIn tx) idx;
    let witnessHasAnnex := bool_decide (is_Some (annexHash opts)) in
    let spendType := u8 (u8 (extFlag opts * 2) + (if witnessHasAnnex then 1 else 0)) in
    inputPart ← inputMsg hType input idx;
    singlePart ← singleMsg hType tx idx;
    Ok ([z2b 0x00; z2b hType] ++
        le_put 4 (tx_Version tx) ++
        le_put 4 (tx_LockTime tx) ++
        (if negb (Z.land hType SigHashAnyOneCanPay =? SigHashAnyOneCanPay) then
           HashPrevOutsV1 (V1 sigHashes) ++ HashInputAmountsV1 (V1 sigHashes) ++
           HashInputScriptsV1 (V1 sigHashes) ++ HashSequenceV1 (V1 sigHashes)
         else []) ++
        (if negb (Z.land hType SigHashSingle =? SigHashSingle) &&
            negb (Z.land hType SigHashSingle =? SigHashNone)
         then HashOutputsV1 (V1 sigHashes) else []) ++
        [z2b spendType] ++
        inputPart ++
        default [] (annexHash opts) ++
        singlePart ++
        writeDigestExtensions opts).

Definition calcTaprootSignatureHashRaw (sigHashes : TxSigHashes) (hType : SigHashType)
    (tx : MsgTx) (idx : Z) (sigHashOpts : list TaprootSigHashOption) : result ScriptErr bytes :=
  let opts := foldl (λ o sigHashOpt, sigHashOpt o) defaultTaprootSighashOptions sigHashOpts in
  msg ← sigMsg sigHashes hType tx idx opts;
  Ok (TaggedHash TagTapSighash [msg]).

Definition CalcTaprootSignatureHash (sigHashes : TxSigHashes) (hType : SigHashType)
    (tx : MsgTx) (idx : Z) : result ScriptErr bytes :=
  calcTaprootSignatureHashRaw sigHashes hType tx idx [].

Definition CalcTapscriptSignaturehash (sigHashes : TxSigHashes) (hType : SigHashType)
    (tx : MsgTx) (idx : Z) (tapLeaf : TapLeaf) (sigHashOpts : list TaprootSigHashOption)
    : result ScriptErr bytes :=
  calcTaprootSignatureHashRaw sigHashes hType tx idx
    (WithBaseTapscriptVersion blankCodeSepValue (TapLeaf_TapHash tapLeaf) :: sigHashOpts).
End taproot.
End hashes.

(** ** Verifying signatures ([sigvalidate.go]) *)

Definition SignatureSize : Z := 64.

Section verifier.
Context `{HashFns} `{Keys} `{!MapRange bytes sigCacheEntry}.

Definition parseTaprootSigAndPubKey (pkBytes rawSig : bytes)
    : result ScriptErr (PublicKey * Signature * SigHashType) :=
  pubKey ← match schnorr_ParsePubKey pkBytes with
           | Some pubKey => Ok pubKey
           | None => Fail (otherError "invalid public key")
           end;
  if zlen rawSig =? SignatureSize then
    match schnorr_ParseSignature rawSig with
    | Some sig => Ok (pubKey, sig, SigHashDefault)
    | None => Fail (otherError "invalid signature")
    end
  else if (zlen rawSig =? SignatureSize + 1) && negb (byte_is rawSig 64 0) then
    sigHashType ← go_index rawSig SignatureSize;
    rawSig ← go_slice rawSig 0 SignatureSize;
    match schnorr_ParseSignature rawSig with
    | Some sig => Ok (pubKey, sig, b2z sigHashType)
    | None => Fail (otherError "invalid signature")
    end
  else Fail (scriptError ErrInvalidTaprootSigLen).

(** The signature cache and the fetcher are shared with the engine: the cache
    is the state the methods thread (nil when caching is off). *)
Record taprootSigVerifier := mkVerifier {
  v_pubKey : PublicKey;
  v_pkBytes : bytes;
  v_fullSigBytes : bytes;
  v_sig : Signature;
  v_hashType : SigHashType;
  v_hashCache : TxSigHashes;
  v_tx : MsgTx;
  v_inputIndex : Z;
  v_annex : option bytes;
  v_prevOuts : PrevOutputFetcher
}.

Definition newTaprootSigVerifier (pkBytes fullSigBytes : bytes) (tx : MsgTx) (inputIndex : Z)
    (prevOuts : PrevOutputFetcher) (hashCache : TxSigHashes) (annex : option bytes)
    : result ScriptErr taprootSigVerifier :=
  '(pubKey, sig, sigHashType) ← parseTaprootSigAndPubKey pkBytes fullSigBytes;
  Ok (mkVerifier pubKey pkBytes fullSigBytes sig sigHashType hashCache tx inputIndex annex prevOuts).

Definition verifySig (t : taprootSigVerifier) (sigHash : bytes)
    : ST ScriptErr (option SigCache) bool :=
  sigCache ← st_get;
  match sigCache with
  | None => mret (schnorr_Verify (v_sig t) sigHash (v_pubKey t))
  | Some cache =>
      cacheKey ← st_lift (deref (NewHash sigHash));
      if Exists cache cacheKey (v_fullSigBytes t) (v_pkBytes t) then mret true
      else if schnorr_Verify (v_sig t) sigHash (v_pubKey t) then
        st_modify (λ _, Some (Add cache cacheKey (v_fullSigBytes t) (v_pkBytes t))) ;;
        mret true
      else mret false
  end.

(** The message of a verifier; an error makes the result invalid. *)
Definition verify_hash (t : taprootSigVerifier) (sigHash : result ScriptErr bytes)
    : ST ScriptErr (option SigCache) bool :=
  match sigHash with
  | Fail _ => mret false
  | Ok sigHash => verifySig t sigHash
  | Panic => st_lift Panic
  end.

Definition Verify (t : taprootSigVerifier) : ST ScriptErr (option SigCache) bool :=
  let opts := match v_annex t with Some annex => [WithAnnex annex] | None => [] end in
  verify_hash t (calcTaprootSignatureHashRaw (v_prevOuts t) (v_hashCache t) (v_hashType t)
    (v_tx t) (v_inputIndex t) opts).

(** [newBaseTapscriptSigVerifier]: the fields it reads from the engine are its
    arguments. *)
Definition newBaseTapscriptSigVerifier (pkBytes rawSig : bytes) (tx : MsgTx) (txIdx : Z)
    (prevOutFetcher : PrevOutputFetcher) (hashCache : TxSigHashes) (annex : option bytes)
    : result ScriptErr taprootSigVerifier :=
  if zlen pkBytes =? 0 then Fail (scriptError ErrTaprootPubkeyIsEmpty)
  else if zlen pkBytes =? 32 then
    newTaprootSigVerifier pkBytes rawSig tx txIdx prevOutFetcher hashCache annex
  else Fail (scriptError ErrDiscourageUpgradeablePubKeyType).

Definition VerifyTaprootKeySpend (witnessProgram rawSig : bytes) (tx : MsgTx) (inputIndex : Z)
    (prevOuts : PrevOutputFetcher) (hashCache : TxSigHashes) : ST ScriptErr (option SigCache) unit :=
  txIn ← st_lift (go_index (tx_TxIn tx) inputIndex);
  let witness := Witness txIn in
  annex ← (if isAnnexedWitness witness
           then a ← st_lift (extractAnnex witness); mret (Some a)
           else mret None);
  keySpendVerifier ← st_lift
    (newTaprootSigVerifier witnessProgram rawSig tx inputIndex prevOuts hashCache annex);
  sigValid ← Verify keySpendVerifier;
  if (sigValid : bool) then mret () else st_fail (scriptError ErrTaprootSigInvalid).
End verifier.

(** ** What a taproot signature commits to *)

Inductive inputs_view :=
| InAll (prevOuts amounts scripts sequences : bytes) (idx : Z)
| InOne (op : OutPoint) (prevOut : TxOut) (sequence : Z).

Inductive outputs_view :=
| OutAll (outputs : bytes)
| OutNone
| OutSingle (output : bytes).

(** The fields of a transaction a signature of a given type covers. *)
Record signed_view := mkSigned {
  s_hashType : Z;
  s_version : Z;
  s_lockTime : Z;
  s_inputs : inputs_view;
  s_outputs : outputs_view;
  s_annex : option bytes;
  s_ext : option (bytes * Z * Z)
}.

Section commitment.
Context `{HashFns}.

(** Bit 7 of the type selects the inputs and the low two bits the outputs. *)
Definition view_inputs (f : PrevOutputFetcher) (sh : TxSigHashes) (hType : Z) (input : TxIn) (idx : Z)
    : option inputs_view :=
  if Z.testbit hType 7
  then prevOut ← f (PreviousOutPoint input);
       Some (InOne (PreviousOutPoint input) prevOut (Sequence input))
  else Some (InAll (HashPrevOutsV1 (V1 sh)) (HashInputAmountsV1 (V1 sh))
               (HashInputScriptsV1 (V1 sh)) (HashSequenceV1 (V1 sh)) idx).

Definition view_outputs (sh : TxSigHashes) (hType : Z) (tx : MsgTx) (idx : Z) : option outputs_view :=
  match hType mod 4 with
  | 2 => Some OutNone
  | 3 => txOut ← tx_TxOut tx !! Z.to_nat idx; Some (OutSingle (sha256 (WriteTxOut txOut)))
  | _ => Some (OutAll (HashOutputsV1 (V1 sh)))
  end.

Definition view_ext (o : taprootSigHashOptions) : option (bytes * Z * Z) :=
  if extFlag o =? tapscriptSighashExtFlag
  then Some (tapLeafHash o, keyVersion o, codeSepPos o) else None.

Definition view (f : PrevOutputFetcher) (sh : TxSigHashes) (hType : Z) (tx : MsgTx) (idx : Z)
    (o : taprootSigHashOptions) : option signed_view :=
  input ← tx_TxIn tx !! Z.to_nat idx;
  ins ← view_inputs f sh hType input idx;
  outs ← view_outputs sh hType tx idx;
  Some (mkSigned hType (tx_Version tx) (tx_LockTime tx) ins outs (annexHash o) (view_ext o)).

(** The encoding of a view. *)
Definition enc_inputs_1 (v : inputs_view) : bytes :=
  match v with InAll p a s q _ => p ++ a ++ s ++ q | InOne _ _ _ => [] end.
Definition enc_inputs_2 (v : inputs_view) : bytes :=
  match v with
  | InAll _ _ _ _ idx => le_put 4 (u32 idx)
  | InOne op prevOut sequence => WriteOutPoint op ++ WriteTxOut prevOut ++ le_put 4 sequence
  end.
Definition enc_outputs_1 (v : outputs_view) : bytes :=
  match v with OutAll h => h | _ => [] end.
Definition enc_outputs_2 (v : outputs_view) : bytes :=
  match v with OutSingle h => h | _ => [] end.
Definition enc_ext (v : option (bytes * Z * Z)) : bytes :=
  match v with Some (leaf, kv, pos) => leaf ++ [z2b kv] ++ le_put 4 pos | None => [] end.
Definition spend_type (v : signed_view) : Z :=
  (if s_ext v is Some _ then 2 else 0) + (if s_annex v is Some _ then 1 else 0).

Definition encode_view (v : signed_view) : bytes :=
  [z2b 0x00; z2b (s_hashType v)] ++ le_put 4 (s_version v) ++ le_put 4 (s_lockTime v) ++
  enc_inputs_1 (s_inputs v) ++ enc_outputs_1 (s_outputs v) ++ [z2b (spend_type v)] ++
  enc_inputs_2 (s_inputs v) ++ default [] (s_annex v) ++ enc_outputs_2 (s_outputs v) ++
  enc_ext (s_ext v).

(** What the caller's arguments always satisfy: field widths and hash sizes. *)
Definition wf_midstate (sh : TxSigHashes) : Prop :=
  Forall (λ h, zlen h = 32)
    [HashPrevOutsV1 (V1 sh); HashInputAmountsV1 (V1 sh); HashInputScriptsV1 (V1 sh);
     HashSequenceV1 (V1 sh); HashOutputsV1 (V1 sh)].

Definition wf_opts (o : taprootSigHashOptions) : Prop :=
  (extFlag o = baseSigHashExtFlag ∨ extFlag o = tapscriptSighashExtFlag ∧
     zlen (tapLeafHash o) = 32 ∧ 0 <= keyVersion o < 256 ∧ is_u32 (codeSepPos o)) ∧
  match annexHash o with Some h => zlen h = 32 | None => True end.

Definition wf_fetcher (f : PrevOutputFetcher) : Prop := ∀ op to, f op = Some to → wf_TxOut to.

Definition wf_inputs (v : inputs_view) : Prop :=
  match v with
  | InAll p a s q idx => zlen p = 32 ∧ zlen a = 32 ∧ zlen s = 32 ∧ zlen q = 32 ∧ is_u32 idx
  | InOne op prevOut sequence => wf_OutPoint op ∧ wf_TxOut prevOut ∧ is_u32 sequence
  end.
Definition wf_outputs (v : outputs_view) : Prop :=
  match v with OutAll h | OutSingle h => zlen h = 32 | OutNone => True end.
Definition wf_ext (v : option (bytes * Z * Z)) : Prop :=
  match v with Some (leaf, kv, pos) => zlen leaf = 32 ∧ 0 <= kv < 256 ∧ is_u32 pos | None => True end.

Record wf_view (v : signed_view) : Prop := mkWf {
  wv_hashType : 0 <= s_hashType v < 256;
  wv_version : is_i32 (s_version v);
  wv_lockTime : is_u32 (s_lockTime v);
  wv_inputs : wf_inputs (s_inputs v);
  wv_outputs : wf_outputs (s_outputs v);
  wv_annex : match s_annex v with Some h => zlen h = 32 | None => True end;
  wv_ext : wf_ext (s_ext v);
  wv_in_kind : (if s_inputs v is InOne _ _ _ then true else false) = Z.testbit (s_hashType v) 7;
  wv_out_kind : match s_outputs v with
                | OutAll _ => s_hashType v mod 4 < 2
                | OutNone => s_hashType v mod 4 = 2
                | OutSingle _ => s_hashType v mod 4 = 3
                end
}.

Lemma app_split {A} (l1 l2 k1 k2 : list A) :
  zlen l1 = zlen l2 → l1 ++ k1 = l2 ++ k2 → l1 = l2 ∧ k1 = k2.
Proof. intros E. apply app_inj_1. unfold zlen in E. lia. Qed.

Lemma le_put_inj n x y :
  x mod 256 ^ Z.of_nat n = y mod 256 ^ Z.of_nat n ↔ le_put n x = le_put n y.
Proof.
  split; intros E.
  - rewrite <-(le_put_get (le_put n x)), <-(le_put_get (le_put n y)), !length_le_put, !le_get_put.
    by rewrite E.
  - by rewrite <-!le_get_put, E.
Qed.

Lemma le_put_u32_inj x y : is_u32 x → is_u32 y → le_put 4 x = le_put 4 y → x = y.
Proof.
  unfold is_u32. intros Hx Hy E. apply le_put_inj in E. change (256 ^ Z.of_nat 4) with (2 ^ 32) in E.
  by rewrite !Z.mod_small in E by lia.
Qed.

Lemma le_put_i32_inj x y : is_i32 x → is_i32 y → le_put 4 x = le_put 4 y → x = y.
Proof.
  unfold is_i32. intros Hx Hy E. apply le_put_inj in E. change (256 ^ Z.of_nat 4) with (2 ^ 32) in E.
  rewrite <-(i32_u32 x), <-(i32_u32 y) by done. unfold u32. by rewrite E.
Qed.

Lemma z2b_inj x y : 0 <= x < 256 → 0 <= y < 256 → z2b x = z2b y → x = y.
Proof. intros Hx Hy E. by rewrite <-(b2z_z2b_small x), <-(b2z_z2b_small y), E. Qed.

Lemma enc_TxOut_split a b k1 k2 :
  wf_TxOut a → wf_TxOut b → WriteTxOut a ++ k1 = WriteTxOut b ++ k2 → a = b ∧ k1 = k2.
Proof.
  intros Ha Hb E. set (s := pkscript_used a + pkscript_used b).
  pose proof (pkscript_used_nonneg a). pose proof (pkscript_used_nonneg b).
  pose proof (readTxOutBuf_decodes s a k1 Ha ltac:(lia)) as Ea.
  pose proof (readTxOutBuf_decodes s b k2 Hb ltac:(lia)) as Eb.
  unfold WriteTxOut in E. rewrite E in Ea. rewrite Ea in Eb. by injection Eb.
Qed.

Lemma enc_OutPoint_inj a b :
  wf_OutPoint a → wf_OutPoint b → WriteOutPoint a = WriteOutPoint b → a = b.
Proof.
  intros [Ha Ha'] [Hb Hb'] [E1 E2]%app_split; [|lia]. apply le_put_u32_inj in E2; [|done..].
  destruct a, b; cbn in *; by subst.
Qed.

Lemma enc_inputs_2_split a b k1 k2 :
  wf_inputs a → wf_inputs b →
  (if a is InOne _ _ _ then true else false) = (if b is InOne _ _ _ then true else false) →
  enc_inputs_1 a = enc_inputs_1 b →
  enc_inputs_2 a ++ k1 = enc_inputs_2 b ++ k2 → a = b ∧ k1 = k2.
Proof.
  destruct a as [p a s q i|op t n], b as [p' a' s' q' i'|op' t' n']; try done;
    cbn [wf_inputs enc_inputs_1 enc_inputs_2].
  - intros (?&?&?&?&?) (?&?&?&?&?) _ E1 E2.
    apply app_split in E1 as [-> E1]; [|lia]. apply app_split in E1 as [-> E1]; [|lia].
    apply app_split in E1 as [-> ->]; [|lia].
    apply app_split in E2 as [E2 ->]; [|by rewrite !zlen_le_put].
    rewrite !u32_small in E2 by done. by apply le_put_u32_inj in E2 as ->.
  - intros (Ho&Ht&Hn) (Ho'&Ht'&Hn') _ _ E. rewrite <-!(assoc_L (++)) in E.
    apply app_split in E as [E1 E].
    2: { unfold WriteOutPoint, writeOutPointBuf. rewrite !zlen_app, !zlen_le_put.
         by rewrite (proj1 Ho), (proj1 Ho'). }
    apply enc_OutPoint_inj in E1 as ->; [|done..].
    apply enc_TxOut_split in E as [-> E]; [|done..].
    apply app_split in E as [E ->]; [|by rewrite !zlen_le_put]. by apply le_put_u32_inj in E as ->.
Qed.

Lemma enc_inputs_1_size a b :
  wf_inputs a → wf_inputs b →
  (if a is InOne _ _ _ then true else false) = (if b is InOne _ _ _ then true else false) →
  zlen (enc_inputs_1 a) = zlen (enc_inputs_1 b).
Proof.
  destruct a, b; try done; cbn. intros (?&?&?&?&?) (?&?&?&?&?) _. rewrite !zlen_app. lia.
Qed.

Lemma encode_view_inj v w : wf_view v → wf_view w → encode_view v = encode_view w → v = w.
Proof.
  intros [Hh Hv Hl Hi Ho Ha He Hik Hok] [Hh' Hv' Hl' Hi' Ho' Ha' He' Hik' Hok'].
  unfold encode_view, spend_type. destruct v as [h ve l i o a e], w as [h' ve' l' i' o' a' e'].
  cbn [s_hashType s_version s_lockTime s_inputs s_outputs s_annex s_ext] in *.
  intros E. apply app_split in E as [E0 E]; [|done]. injection E0 as E0. apply z2b_inj in E0 as <-; [|done..].
  rewrite <-Hik' in Hik.
  apply app_split in E as [E1 E]; [|by rewrite !zlen_le_put].
  apply le_put_i32_inj in E1 as <-; [|done..].
  apply app_split in E as [E1 E]; [|by rewrite !zlen_le_put].
  apply le_put_u32_inj in E1 as <-; [|done..].
  apply app_split in E as [Ei E]; [|by apply enc_inputs_1_size].
  apply app_split in E as [Eo E]; [|destruct o, o'; cbn in *; lia].
  apply app_split in E as [Es E]; [|done]. injection Es as Es. apply z2b_inj in Es; [|by destruct e as [[[]]|], a|by destruct e' as [[[]]|], a'].
  apply enc_inputs_2_split in E as [<- E]; [|done..].
  apply app_split in E as [Ea E]; [|destruct e as [[[]]|], a, e' as [[[]]|], a'; cbn in *; lia].
  apply app_split in E as [Eo2 E]; [|destruct o, o'; cbn in *; lia].
  f_equal.
  - destruct o, o'; cbn in *; try lia; congruence.
  - destruct e as [[[]]|], a, e' as [[[]]|], a'; cbn in *; try done; congruence.
  - destruct e as [[[leaf kv] pos]|], e' as [[[leaf' kv'] pos']|]; cbn [enc_ext wf_ext] in *;
      [|destruct a, a'; lia..|done].
    apply app_split in E as [<- E]; [|lia].
    apply app_split in E as [E0 E]; [|done]. injection E0 as E0.
    apply z2b_inj in E0 as <-; [|tauto..]. apply le_put_u32_inj in E as <-; tauto.
Qed.

(** *** The message is the encoding of the view *)

Record wf_ctx (f : PrevOutputFetcher) (sh : TxSigHashes) (tx : MsgTx) (idx : Z)
    (o : taprootSigHashOptions) : Prop := mkCtx {
  wc_tx : wf_MsgTx tx;
  wc_midstate : wf_midstate sh;
  wc_fetcher : wf_fetcher f;
  wc_idx : 0 <= idx;
  wc_opts : wf_opts o
}.

Lemma isValid_cases h :
  isValidTaprootSigHash h = true → h ∈ [0; 1; 2; 3; 0x81; 0x82; 0x83].
Proof.
  unfold isValidTaprootSigHash. intros (x & Hx & ->%Z.eqb_eq)%existsb_exists.
  by apply list_elem_of_In.
Qed.

(** Splits a goal about a valid type into the seven types. *)
Ltac by_type H :=
  apply isValid_cases in H;
  repeat (apply elem_of_cons in H as [-> | H]); [..|by apply not_elem_of_nil in H].

Lemma go_index_lookup {E A} (l : list A) i x :
  0 <= i → l !! Z.to_nat i = Some x → go_index (E:=E) l i = Ok x.
Proof. intros. by apply go_index_ok. Qed.

Lemma inputMsg_view f sh h input idx :
  isValidTaprootSigHash h = true →
  inputMsg f h input idx =
    match view_inputs f sh h input idx with Some v => Ok (enc_inputs_2 v) | None => Panic end.
Proof.
  intros Hv. by_type Hv; unfold inputMsg, view_inputs; cbn -[u32 le_put]; try done;
    by destruct (f _).
Qed.

Lemma singleMsg_view sh h tx idx :
  isValidTaprootSigHash h = true → 0 <= idx →
  singleMsg h tx idx =
    match view_outputs sh h tx idx with
    | Some v => Ok (enc_outputs_2 v)
    | None => Fail (otherError "invalid sighash type for input")
    end.
Proof.
  intros Hv Hi. assert (∀ h : Z, Z.land h sigHashMask = SigHashSingle → h mod 4 = 3 →
    singleMsg h tx idx = match view_outputs sh h tx idx with
      | Some v => Ok (enc_outputs_2 v) | None => Fail (otherError "invalid sighash type for input") end) as Hs.
  { intros h' E1 E2. unfold singleMsg, view_outputs. rewrite E1, E2. cbn [Z.eqb].
    destruct (tx_TxOut tx !! Z.to_nat idx) as [to|] eqn:E; cbn.
    - pose proof (lookup_lt_Some _ _ _ E). rewrite (proj2 (Z.leb_gt _ _)) by (unfold zlen; lia).
      by rewrite (go_index_lookup _ _ _ Hi E).
    - apply lookup_ge_None in E. by rewrite (proj2 (Z.leb_le _ _)) by (unfold zlen; lia). }
  by_type Hv; try done; by apply Hs.
Qed.

Lemma wf_input tx idx input :
  wf_MsgTx tx → tx_TxIn tx !! idx = Some input → wf_TxIn input.
Proof. intros (_&_&Hi&_) E. rewrite Forall_forall in Hi. eapply Hi, list_elem_of_lookup_2, E. Qed.

Lemma sigMsg_view f sh h tx idx o :
  wf_ctx f sh tx idx o → isValidTaprootSigHash h = true → idx < zlen (tx_TxIn tx) →
  sigMsg f sh h tx idx o =
    (input ← go_index (tx_TxIn tx) idx;
     match view_inputs f sh h input idx with
     | None => Panic
     | Some _ =>
         match view f sh h tx idx o with
         | Some v => Ok (encode_view v)
         | None => Fail (otherError "invalid sighash type for input")
         end
     end).
Proof.
  intros [Htx Hm Hf Hi Ho] Hv Hlt. unfold sigMsg. rewrite Hv. cbn [negb].
  rewrite (proj2 (Z.ltb_ge _ _)) by lia.
  destruct (go_index_total (E := ScriptErr) (tx_TxIn tx) idx ltac:(lia)) as (input & E & El). rewrite E.
  cbn [mbind result_bind]. rewrite (inputMsg_view f sh), (singleMsg_view sh) by done.
  unfold view. rewrite El. cbn [mbind option_bind].
  destruct (view_inputs f sh h input idx) as [vi|] eqn:Evi; [|done]. cbn [mbind result_bind option_bind].
  destruct (view_outputs sh h tx idx) as [vo|] eqn:Evo; [|done]. cbn [mbind result_bind option_bind].
  f_equal. unfold encode_view, spend_type. cbn [s_hashType s_version s_lockTime s_inputs s_outputs s_annex s_ext].
  do 3 f_equal.
  assert ((if negb (Z.land h SigHashAnyOneCanPay =? SigHashAnyOneCanPay)
    then HashPrevOutsV1 (V1 sh) ++ HashInputAmountsV1 (V1 sh) ++
         HashInputScriptsV1 (V1 sh) ++ HashSequenceV1 (V1 sh) else []) = enc_inputs_1 vi) as ->.
  { revert Evi. unfold view_inputs. by_type Hv; cbn; try (by intros [= <-]);
      destruct (f _); cbn; by intros [= <-]. }
  assert ((if negb (Z.land h SigHashSingle =? SigHashSingle) &&
      negb (Z.land h SigHashSingle =? SigHashNone) then HashOutputsV1 (V1 sh) else []) = enc_outputs_1 vo) as ->.
  { revert Evo. unfold view_outputs. by_type Hv; cbn; try (by intros [= <-]);
      destruct (tx_TxOut tx !! _); cbn; by intros [= <-]. }
  f_equal. f_equal. f_equal.
  - f_equal. unfold view_ext, u8. destruct Ho as [[->|[-> _]] _]; cbn; destruct (annexHash o); done.
  - do 3 f_equal. unfold writeDigestExtensions, view_ext, enc_ext.
    destruct Ho as [[->|[-> _]] _]; done.
Qed.

Lemma max_ins_u32 tx idx : wf_MsgTx tx → 0 <= idx < zlen (tx_TxIn tx) → is_u32 idx.
Proof.
  intros (_&_&_&_&_&Hn&_) Hi. unfold is_u32.
  assert (maxTxInPerMessage < 2 ^ 32) by (vm_compute; done). lia.
Qed.

Lemma view_wf f sh h tx idx o v :
  wf_ctx f sh tx idx o → isValidTaprootSigHash h = true → idx < zlen (tx_TxIn tx) →
  view f sh h tx idx o = Some v → wf_view v.
Proof.
  intros [Htx Hm Hf Hi Ho] Hv Hlt. unfold view.
  destruct (tx_TxIn tx !! Z.to_nat idx) as [input|] eqn:El; [|done]. cbn [mbind option_bind].
  destruct (view_inputs f sh h input idx) as [vi|] eqn:Evi; [|done]. cbn [mbind option_bind].
  destruct (view_outputs sh h tx idx) as [vo|] eqn:Evo; [|done]. cbn [mbind option_bind]. intros [= <-].
  pose proof (wf_input _ _ _ Htx El) as (Hop & _ & Hseq).
  pose proof (max_ins_u32 _ _ Htx (conj Hi Hlt)) as Hidx.
  unfold wf_midstate in Hm. rewrite !Forall_cons in Hm. destruct Hm as (?&?&?&?&?&_).
  assert (wf_inputs vi ∧ (if vi is InOne _ _ _ then true else false) = Z.testbit h 7) as [Hwi Hki].
  { revert Evi. unfold view_inputs. destruct (Z.testbit h 7); [|by intros [= <-]].
    destruct (f _) as [p|] eqn:Ef; [|done]. intros [= <-]. split; [|done].
    split; [done|]. split; [by eapply Hf|done]. }
  assert (wf_outputs vo ∧ match vo with OutAll _ => h mod 4 < 2 | OutNone => h mod 4 = 2
    | OutSingle _ => h mod 4 = 3 end) as [Hwo Hko].
  { revert Evo. unfold view_outputs. pose proof (sha256_size).
    by_type Hv; cbn -[sha256]; try (by intros [= <-]);
      destruct (tx_TxOut tx !! _); cbn -[sha256]; try done; intros [= <-]; cbn -[sha256]; auto. }
  destruct Htx as (Hver & Hlock & _). destruct Ho as [Hext Hann].
  split; cbn [s_hashType s_version s_lockTime s_inputs s_outputs s_annex s_ext]; try done.
  - clear -Hv. by_type Hv; lia.
  - unfold view_ext, wf_ext. destruct Hext as [->|(-> & ? & ? & ?)]; [done|]. by cbn.
Qed.
End commitment.

(** ** The midstate *)

Section midstate.
Context `{HashFns} (f : PrevOutputFetcher).

Definition coinbase_outpoint (op : OutPoint) : bool :=
  (op_Index op =? MaxUint32) && bool_decide (op_Hash op = zeroHash).

(** An input that makes [NewTxSigHashes] compute the taproot fields. *)
Definition taproot_input (ti : TxIn) : bool :=
  negb (coinbase_outpoint (PreviousOutPoint ti)) &&
  match f (PreviousOutPoint ti) with Some p => IsPayToTaproot (PkScript p) | None => false end.

Definition known (tx : MsgTx) : Prop :=
  Forall (λ ti, is_Some (f (PreviousOutPoint ti))) (tx_TxIn tx).

Lemma write_prevOuts_run enc ins :
  Forall (λ ti, is_Some (f (PreviousOutPoint ti))) ins →
  write_prevOuts f enc ins =
    Ok (concat (map (λ ti, from_option enc [] (f (PreviousOutPoint ti))) ins)).
Proof.
  induction 1 as [|ti ins [p Hp] _ IH]; [done|]. cbn. by rewrite Hp, IH.
Qed.

Lemma scan_inputs_run ins v0 v1 :
  Forall (λ ti, is_Some (f (PreviousOutPoint ti))) ins →
  ∃ v0', scan_inputs f ins v0 v1 = Ok (v0', v1 || existsb taproot_input ins) ∧
    (existsb taproot_input ins = false → v1 = false → ins ≠ [] ∨ v0 = true → v0' = true).
Proof.
  intros Hk. revert v0 v1. induction Hk as [|ti ins [p Hp] _ IH]; intros v0 v1.
  - exists v0. cbn. rewrite orb_false_r. split; [done|]. by intros _ _ [|].
  - cbn [scan_inputs existsb]. fold (coinbase_outpoint (PreviousOutPoint ti)).
    destruct (coinbase_outpoint (PreviousOutPoint ti)) eqn:Ec.
    + assert (taproot_input ti = false) as -> by (unfold taproot_input; by rewrite Ec).
      destruct (IH true v1) as (v0' & -> & Hv). exists v0'. split; [done|]. cbn. auto.
    + assert (taproot_input ti = IsPayToTaproot (PkScript p)) as ->
        by (unfold taproot_input; by rewrite Ec, Hp).
      rewrite Hp. cbn [deref mbind result_bind]. destruct (IsPayToTaproot (PkScript p)).
      * destruct v0; cbn [andb]; [exists true; by rewrite orb_true_r|].
        destruct (IH false true) as (v0' & -> & Hv). exists v0'. by rewrite orb_true_r.
      * destruct v1; cbn [andb]; [by exists true|].
        destruct (IH true false) as (v0' & -> & Hv). exists v0'. split; [done|]. cbn. auto.
Qed.

(** The midstate [NewTxSigHashes] computes when every output is known. *)
Definition amounts_hash (tx : MsgTx) : bytes :=
  sha256 (concat (map (λ ti, from_option (λ p, le_put 8 (Value p)) [] (f (PreviousOutPoint ti)))
    (tx_TxIn tx))).
Definition scripts_hash (tx : MsgTx) : bytes :=
  sha256 (concat (map (λ ti, from_option (λ p, WriteVarBytes (PkScript p)) [] (f (PreviousOutPoint ti)))
    (tx_TxIn tx))).

Lemma NewTxSigHashes_run tx :
  known tx →
  ∃ sh, NewTxSigHashes f tx = Ok sh ∧
    V1 sh = mkV1 (calcHashPrevOuts tx) (calcHashSequence tx) (calcHashOutputs tx)
      (if existsb taproot_input (tx_TxIn tx) then scripts_hash tx else zeroHash)
      (if existsb taproot_input (tx_TxIn tx) then amounts_hash tx else zeroHash) ∧
    (existsb taproot_input (tx_TxIn tx) = false → tx_TxIn tx ≠ [] →
     V0 sh = mkV0 (HashH (calcHashPrevOuts tx)) (HashH (calcHashSequence tx))
               (HashH (calcHashOutputs tx))).
Proof.
  intros Hk. unfold NewTxSigHashes.
  destruct (scan_inputs_run (tx_TxIn tx) false false Hk) as (v0 & -> & Hv0). cbn [mbind result_bind orb].
  destruct (existsb taproot_input (tx_TxIn tx)).
  - unfold calcHashInputAmounts, calcHashInputScripts. rewrite !write_prevOuts_run by done.
    eexists. split; [done|]. by split.
  - eexists. split; [done|]. split; [done|]. intros _ Hne. rewrite Hv0 by auto. done.
Qed.

Lemma zeroHash_size : zlen zeroHash = 32.
Proof. done. Qed.

Lemma NewTxSigHashes_wf tx sh : known tx → NewTxSigHashes f tx = Ok sh → wf_midstate sh.
Proof.
  intros Hk E. destruct (NewTxSigHashes_run tx Hk) as (sh' & E' & Hv1 & _). rewrite E in E'.
  injection E' as <-. unfold wf_midstate. rewrite Hv1.
  cbn [HashPrevOutsV1 HashInputAmountsV1 HashInputScriptsV1 HashSequenceV1 HashOutputsV1].
  unfold calcHashPrevOuts, calcHashSequence, calcHashOutputs, scripts_hash, amounts_hash, HashH.
  destruct (existsb _ _); rewrite !Forall_cons, !sha256_size; repeat split; try done; by apply Forall_nil.
Qed.
End midstate.

Lemma merkle_root_not_taproot script : IsPayToMerkleRoot script = true → IsPayToTaproot script = false.
Proof.
  unfold IsPayToMerkleRoot, IsPayToTaproot, extractWitnessV2MerkleRootBytes, extractWitnessV1KeyBytes.
  destruct (byte_is script 0 OP_1) eqn:E1.
  - assert (byte_is script 0 OP_2 = false) as ->.
    { revert E1. unfold byte_is. destruct (script !! _); [|done]. intros ->%Z.eqb_eq. done. }
    by rewrite andb_false_r.
  - intros _. by rewrite andb_false_r.
Qed.

(** ** The verifiers and the cache *)

Section verifier_lemmas.
Context `{HashFns} `{Keys} `{!MapRange bytes sigCacheEntry}.

(** What an entry of the signature cache vouches for. *)
Definition valid_sig (sigHash fullSig pkBytes : bytes) : Prop :=
  ∃ pubKey sig hashType, parseTaprootSigAndPubKey pkBytes fullSig = Ok (pubKey, sig, hashType) ∧
    schnorr_Verify sig sigHash pubKey = true.

Definition cache_sound (c : option SigCache) : Prop :=
  match c with Some c => sound valid_sig c | None => True end.

Definition built (t : taprootSigVerifier) : Prop :=
  parseTaprootSigAndPubKey (v_pkBytes t) (v_fullSigBytes t) = Ok (v_pubKey t, v_sig t, v_hashType t).

Lemma verifySig_run t h c :
  built t → zlen h = 32 → cache_sound c →
  ∃ c', verifySig t h c = Ok (schnorr_Verify (v_sig t) h (v_pubKey t), c') ∧ cache_sound c' ∧
    (c = None → c' = None).
Proof.
  intros Hb Hh Hc. unfold verifySig. cbv [mbind st_bind st_get].
  destruct c as [c|]; [|by exists None]. unfold NewHash. rewrite Hh. cbn.
  destruct (Exists c h _ _) eqn:E.
  - apply Hc in E as (pk & sg & ht & E & Hv). rewrite Hb in E. injection E as <- <- <-.
    exists (Some c). by rewrite Hv.
  - destruct (schnorr_Verify _ _ _) eqn:Ev; cbv [mret st_ret].
    + eexists. split; [done|]. split; [|done]. cbn. apply Add_sound; [done|].
      exists (v_pubKey t), (v_sig t), (v_hashType t). done.
    + by exists (Some c).
Qed.

(** The verdict of a verifier on the message [r]. *)
Definition verdict (t : taprootSigVerifier) (r : result ScriptErr bytes) : result ScriptErr bool :=
  match r with
  | Ok h => Ok (schnorr_Verify (v_sig t) h (v_pubKey t))
  | Fail _ => Ok false
  | Panic => Panic
  end.

Definition hash_sized (r : result ScriptErr bytes) : Prop :=
  match r with Ok h => zlen h = 32 | _ => True end.

Lemma verify_hash_run t r c :
  built t → hash_sized r → cache_sound c →
  ∃ c', verify_hash t r c = (b ← verdict t r; Ok (b, c')) ∧ cache_sound c' ∧ (c = None → c' = None).
Proof.
  intros Hb Hr Hc. unfold verify_hash. destruct r as [h|e|]; cbn in *; [|by exists c..].
  destruct (verifySig_run t h c Hb Hr Hc) as (c' & E & ?). exists c'. by rewrite E.
Qed.

Lemma calcTaproot_sized f sh hType tx idx opts :
  hash_sized (calcTaprootSignatureHashRaw f sh hType tx idx opts).
Proof.
  unfold calcTaprootSignatureHashRaw. destruct (sigMsg _ _ _ _ _ _); cbn -[TaggedHash]; [|done..].
  apply TaggedHash_size.
Qed.

Lemma newTaprootSigVerifier_built pk sg tx idx f sh annex t :
  newTaprootSigVerifier pk sg tx idx f sh annex = Ok t →
  built t ∧ v_pkBytes t = pk ∧ v_fullSigBytes t = sg ∧ v_tx t = tx ∧ v_inputIndex t = idx ∧
  v_hashCache t = sh ∧ v_annex t = annex ∧ v_prevOuts t = f.
Proof.
  unfold newTaprootSigVerifier, built. intros ([[k s] ht] & E & [= <-])%bind_ok. split; [exact E|done].
Qed.
(** The annex option the witness gives. *)
Definition annex_opts (witness : list bytes) : list (taprootSigHashOptions → taprootSigHashOptions) :=
  if isAnnexedWitness witness then [WithAnnex (default [] (last witness))] else [].

Lemma annex_run witness :
  ∃ annex, annex_opts witness = match annex with Some a => [WithAnnex a] | None => [] end ∧
    ∀ c : option SigCache,
      (if isAnnexedWitness witness
       then a ← st_lift (extractAnnex witness); mret (Some a) else mret None) c = Ok (annex, c).
Proof.
  unfold annex_opts. destruct (isAnnexedWitness witness) eqn:E; [|by exists None].
  exists (Some (default [] (last witness))). split; [done|]. intros c0.
  unfold extractAnnex. rewrite E. cbn [negb]. unfold isAnnexedWitness in E.
  destruct (zlen witness <? 2) eqn:E2; [done|]. rewrite last_lookup.
  destruct (go_index_total (E := ScriptErr) witness (zlen witness - 1)) as (x & Ex & El); [lia|].
  replace (pred (length witness)) with (Z.to_nat (zlen witness - 1)) by (unfold zlen; lia).
  unfold st_lift. cbv [mbind st_bind]. by rewrite Ex, El.
Qed.

Lemma VerifyTaprootKeySpend_run program rawSig tx idx txIn f sh (c : option SigCache) :
  go_index (E := ScriptErr) (tx_TxIn tx) idx = Ok txIn → cache_sound c →
  ∃ c', cache_sound c' ∧ (c = None → c' = None) ∧
    VerifyTaprootKeySpend program rawSig tx idx f sh c =
      ('(k, s, ht) ← parseTaprootSigAndPubKey program rawSig;
       b ← match calcTaprootSignatureHashRaw f sh ht tx idx (annex_opts (Witness txIn)) with
           | Ok h => Ok (schnorr_Verify s h k) | Fail _ => Ok false | Panic => Panic end;
       if b : bool then Ok ((), c') else Fail (scriptError ErrTaprootSigInvalid)).
Proof.
  intros Ei Hc. unfold VerifyTaprootKeySpend. destruct (annex_run (Witness txIn)) as (annex & -> & Ea).
  specialize (Ea c). cbv [st_lift mbind st_bind] in Ea |- *. rewrite Ei. cbn [result_bind]. rewrite Ea.
  destruct (newTaprootSigVerifier program rawSig tx idx f sh annex) as [t|e|] eqn:Et.
  - pose proof (newTaprootSigVerifier_built _ _ _ _ _ _ _ _ Et) as (Hb & Epk & Esg & Etx & Eidx & Esh & Ean & Ef).
    pose proof Hb as Hp. unfold built in Hp. rewrite Epk, Esg in Hp. rewrite Hp. cbn [result_bind].
    edestruct (verify_hash_run t) as (c' & E & Hs & Hn); [done|apply calcTaproot_sized|done|].
    exists c'. split; [done|]. split; [done|]. unfold Verify. rewrite Ean, Ef, Esh, Etx, Eidx, E. unfold verdict.
    destruct (calcTaprootSignatureHashRaw _ _ _ _ _ _); cbn; [|done..]. by destruct (schnorr_Verify _ _ _).
  - exists c. split; [done|]. split; [done|]. unfold newTaprootSigVerifier in Et.
    destruct (parseTaprootSigAndPubKey program rawSig) as [[[]]| |]; try done. cbn in *. congruence.
  - exists c. split; [done|]. split; [done|]. unfold newTaprootSigVerifier in Et.
    by destruct (parseTaprootSigAndPubKey program rawSig) as [[[]]| |].
Qed.
End verifier_lemmas.

(** ** Properties *)

(** C14 what a taproot signature commits to: the message [calcTaprootSignatureHashRaw]
    hashes exists exactly when the type is one of the seven valid ones, the
    input exists, and the output it spends (ANYONECANPAY) or pairs with (SINGLE)
    exists; it is then the encoding of the fields the type selects, and two
    messages are equal exactly when those fields are: the whole of the other
    inputs or only this one, all, none or one of the outputs, the annex and the
    tapscript extension. *)
Theorem taproot_sighash_commits `{HashFns} f sh tx idx o hType f' sh' tx' idx' o' hType' :
  wf_ctx f sh tx idx o → wf_ctx f' sh' tx' idx' o' →
  (∀ m, sigMsg f sh hType tx idx o = Ok m ↔
    isValidTaprootSigHash hType = true ∧ idx < zlen (tx_TxIn tx) ∧
    ∃ v, view f sh hType tx idx o = Some v ∧ m = encode_view v) ∧
  (∀ m m', sigMsg f sh hType tx idx o = Ok m → sigMsg f' sh' hType' tx' idx' o' = Ok m' →
    m = m' ↔ view f sh hType tx idx o = view f' sh' hType' tx' idx' o').
Proof.
  assert (∀ f sh tx idx o hType m, wf_ctx f sh tx idx o → sigMsg f sh hType tx idx o = Ok m ↔
    isValidTaprootSigHash hType = true ∧ idx < zlen (tx_TxIn tx) ∧
    ∃ v, view f sh hType tx idx o = Some v ∧ m = encode_view v) as Hrun.
  { clear. intros f sh tx idx o hType m Hc.
    destruct (isValidTaprootSigHash hType) eqn:Hv; [|unfold sigMsg; rewrite Hv; naive_solver].
    destruct (decide (idx < zlen (tx_TxIn tx))) as [Hlt|Hge].
    - rewrite (sigMsg_view _ _ _ _ _ _ Hc Hv Hlt).
      destruct (go_index_total (E := ScriptErr) (tx_TxIn tx) idx) as (i & -> & El); [destruct Hc; lia|].
      cbn [mbind result_bind]. unfold view. rewrite El. cbn [mbind option_bind].
      destruct (view_inputs _ _ _ _ _); cbn [mbind option_bind]; [|naive_solver].
      destruct (view_outputs _ _ _ _); cbn [mbind option_bind]; naive_solver.
    - unfold sigMsg. rewrite Hv. cbn [negb]. rewrite (proj2 (Z.ltb_lt _ _)) by lia. naive_solver. }
  intros Hc Hc'. split; [intros m; by apply Hrun|].
  intros m m' (Hv & Hlt & v & Ev & ->)%(Hrun _ _ _ _ _ _ _ Hc)
    (Hv' & Hlt' & v' & Ev' & ->)%(Hrun _ _ _ _ _ _ _ Hc').
  rewrite Ev, Ev'. split; [|by intros [= ->]]. intros E. f_equal.
  apply encode_view_inj; [exact (view_wf _ _ _ _ _ _ _ Hc Hv Hlt Ev)|exact (view_wf _ _ _ _ _ _ _ Hc' Hv' Hlt' Ev')|done].
Qed.

(** The midstate: when every spent output is known [NewTxSigHashes]
    succeeds, the prevouts, sequences and outputs hashes are those of the
    transaction, and the amounts and scripts hashes are those of the spent
    outputs exactly when a non-coinbase input spends a pay-to-taproot output,
    and zero otherwise. *)
Theorem NewTxSigHashes_spec `{HashFns} f tx :
  known f tx →
  ∃ sh, NewTxSigHashes f tx = Ok sh ∧ wf_midstate sh ∧
    HashPrevOutsV1 (V1 sh) = calcHashPrevOuts tx ∧
    HashSequenceV1 (V1 sh) = calcHashSequence tx ∧
    HashOutputsV1 (V1 sh) = calcHashOutputs tx ∧
    (List.Exists (λ ti, taproot_input f ti = true) (tx_TxIn tx) →
      HashInputAmountsV1 (V1 sh) = amounts_hash f tx ∧
      HashInputScriptsV1 (V1 sh) = scripts_hash f tx) ∧
    (Forall (λ ti, taproot_input f ti = false) (tx_TxIn tx) →
      HashInputAmountsV1 (V1 sh) = zeroHash ∧ HashInputScriptsV1 (V1 sh) = zeroHash).
Proof.
  intros Hk. destruct (NewTxSigHashes_run f tx Hk) as (sh & E & Hv1 & _).
  pose proof (NewTxSigHashes_wf f tx sh Hk E) as Hw.
  exists sh. rewrite Hv1. split; [done|]. split; [done|]. do 3 (split; [done|]). cbn. split.
  - intros Hex. apply List.Exists_exists in Hex as (ti & Hin & Ht).
    assert (existsb (taproot_input f) (tx_TxIn tx) = true) as -> by (apply existsb_exists; eauto). done.
  - intros Hall. assert (existsb (taproot_input f) (tx_TxIn tx) = false) as ->; [|done].
    apply not_true_iff_false. intros (ti & Hin & Ht)%existsb_exists.
    rewrite Forall_forall in Hall. rewrite Hall in Ht; [done|]. by apply list_elem_of_In.
Qed.

(** Pay-to-merkle-root inputs alone: when every input spends a pay-to-merkle-root
    output, the midstate, and with it every signature hash of a type without
    ANYONECANPAY, is the same whatever the amounts and scripts of the spent
    outputs: such signatures do not commit to them. *)
Lemma merkle_root_sighash_ignores_amounts `{HashFns} f g tx hType idx opts :
  known f tx → known g tx → tx_TxIn tx ≠ [] →
  Forall (λ ti, ∃ p q, f (PreviousOutPoint ti) = Some p ∧ g (PreviousOutPoint ti) = Some q ∧
    IsPayToMerkleRoot (PkScript p) = true ∧ IsPayToMerkleRoot (PkScript q) = true) (tx_TxIn tx) →
  Z.testbit hType 7 = false →
  ∃ sh, NewTxSigHashes f tx = Ok sh ∧ NewTxSigHashes g tx = Ok sh ∧
    calcTaprootSignatureHashRaw f sh hType tx idx opts =
    calcTaprootSignatureHashRaw g sh hType tx idx opts.
Proof.
  intros Hf Hg Hne Hall Hbit.
  assert (∀ f, (∀ ti, ti ∈ tx_TxIn tx → ∃ p, f (PreviousOutPoint ti) = Some p ∧
    IsPayToMerkleRoot (PkScript p) = true) → existsb (taproot_input f) (tx_TxIn tx) = false) as Hno.
  { clear. intros f Hall. apply not_true_iff_false. intros (ti & Hin & Ht)%existsb_exists.
    apply list_elem_of_In in Hin. destruct (Hall _ Hin) as (p & E & Hp).
    unfold taproot_input in Ht. rewrite E, merkle_root_not_taproot, andb_false_r in Ht; done. }
  rewrite Forall_forall in Hall.
  destruct (NewTxSigHashes_run f tx Hf) as (sf & Ef & Hv1 & Hv0).
  destruct (NewTxSigHashes_run g tx Hg) as (sg & Eg & Hw1 & Hw0).
  rewrite (Hno f) in Hv1, Hv0 by (intros ti Hin; destruct (Hall _ Hin) as (p&q&?&?&?&?); eauto).
  rewrite (Hno g) in Hw1, Hw0 by (intros ti Hin; destruct (Hall _ Hin) as (p&q&?&?&?&?); eauto).
  assert (sf = sg) as ->.
  { destruct sf, sg. cbn in *. rewrite Hv0, Hw0 by done. congruence. }
  exists sg. split; [done|]. split; [done|].
  unfold calcTaprootSignatureHashRaw, sigMsg. cbv zeta.
  destruct (isValidTaprootSigHash hType) eqn:Hv; [|done]. cbn [negb].
  case_match; [done|]. destruct (go_index (tx_TxIn tx) idx) as [i| |]; [|done..]. cbn [mbind result_bind].
  rewrite !(inputMsg_view _ sg) by done. unfold view_inputs. by rewrite Hbit.
Qed.

(** Key-path spends: whatever valid signatures the cache holds,
    [VerifyTaprootKeySpend] gives the result it gives without a cache and
    leaves a cache of valid signatures; without a cache it succeeds exactly
    when key and signature parse, the signature hash exists, and the signature
    verifies against it. *)
Theorem VerifyTaprootKeySpend_spec `{HashFns} `{Keys} `{!MapRange bytes sigCacheEntry}
    program rawSig tx idx txIn f sh c :
  go_index (E := ScriptErr) (tx_TxIn tx) idx = Ok txIn → cache_sound c →
  let opts := annex_opts (Witness txIn) in
  (∃ c', cache_sound c' ∧
    VerifyTaprootKeySpend program rawSig tx idx f sh c =
      ('(u, _) ← VerifyTaprootKeySpend program rawSig tx idx f sh None; Ok (u, c'))) ∧
  (VerifyTaprootKeySpend program rawSig tx idx f sh None = Ok ((), None) ↔
    ∃ k s ht h, parseTaprootSigAndPubKey program rawSig = Ok (k, s, ht) ∧
      calcTaprootSignatureHashRaw f sh ht tx idx opts = Ok h ∧ schnorr_Verify s h k = true).
Proof.
  intros Ei Hc opts.
  pose proof (VerifyTaprootKeySpend_run program rawSig tx idx txIn f sh) as Hrun.
  fold opts in Hrun.
  destruct (Hrun None Ei I) as (n & _ & Hn & En). rewrite Hn in En by done. rewrite En. split.
  - destruct (Hrun c Ei Hc) as (c' & Hs & _ & ->). exists c'. split; [done|].
    destruct (parseTaprootSigAndPubKey program rawSig) as [[[k s] ht]| |]; [|done..]. cbn.
    destruct (calcTaprootSignatureHashRaw _ _ _ _ _ _); cbn; [|done..]. by destruct (schnorr_Verify _ _ _).
  - destruct (parseTaprootSigAndPubKey program rawSig) as [[[k s] ht]| |]; cbn; [|naive_solver..].
    split.
    + intros E. destruct (calcTaprootSignatureHashRaw _ _ _ _ _ _) as [h| |] eqn:Eh; cbn in E; [|done..].
      destruct (schnorr_Verify s h k) eqn:Ev; [|done]. by exists k, s, ht, h.
    + intros (k' & s' & ht' & h & [= <- <- <-] & -> & Ev). cbn. by rewrite Ev.
Qed.

Definition demo_prevOut : TxOut := mkTxOut 5 (z2b OP_2 :: z2b OP_DATA_32 :: repeat x07 32).
Definition demo_fetcher (amt : Z) : PrevOutputFetcher :=
  Canned_FetchPrevOutput (NewCannedPrevOutputFetcher (PkScript demo_prevOut) amt).
Definition demo_hashes : TxSigHashes :=
  mkSigHashes (mkV0 zeroHash zeroHash zeroHash) (mkV1 zeroHash zeroHash zeroHash zeroHash zeroHash).

Lemma demo_known amt : known (demo_fetcher amt) demo_tx.
Proof. apply Forall_true. by eexists. Qed.

Lemma demo_ctx idx : 0 <= idx →
  wf_ctx (demo_fetcher 5) demo_hashes demo_tx idx defaultTaprootSighashOptions.
Proof.
  split; [exact demo_tx_wf|by repeat constructor| |done|].
  - intros op to [= <-]. by vm_compute.
  - split; [by left|done].
Qed.

Lemma taproot_sighash_commits_witness :
  ∃ m, sigMsg (demo_fetcher 5) demo_hashes 0x81 demo_tx 0 defaultTaprootSighashOptions = Ok m.
Proof.
  eexists. apply (taproot_sighash_commits (demo_fetcher 5) demo_hashes demo_tx 0
    defaultTaprootSighashOptions 0x81 (demo_fetcher 5) demo_hashes demo_tx 0
    defaultTaprootSighashOptions 0x81 (demo_ctx 0 ltac:(lia)) (demo_ctx 0 ltac:(lia))).
  split; [reflexivity|]. split; [reflexivity|]. by eexists.
Defined.

Lemma NewTxSigHashes_spec_witness : ∃ sh, NewTxSigHashes (demo_fetcher 5) demo_tx = Ok sh.
Proof.
  destruct (NewTxSigHashes_spec (demo_fetcher 5) demo_tx (demo_known 5)) as (sh & E & _).
  by exists sh.
Defined.

Lemma demo_ignores_amounts :
  ∃ sh, NewTxSigHashes (demo_fetcher 5) demo_tx = Ok sh ∧
    NewTxSigHashes (demo_fetcher 1000000) demo_tx = Ok sh.
Proof.
  destruct (merkle_root_sighash_ignores_amounts (demo_fetcher 5) (demo_fetcher 1000000) demo_tx 0 0 []
    (demo_known _) (demo_known _)) as (sh & E1 & E2 & _); [done| |done|by exists sh].
  apply Forall_true. intros ti. eexists _, _. split; [reflexivity|]. split; [reflexivity|].
  by vm_compute.
Qed.

Definition demo_sighash : bytes :=
  match calcTaprootSignatureHashRaw (demo_fetcher 5) demo_hashes SigHashDefault demo_tx 0 [] with
  | Ok h => h
  | _ => []
  end.

Lemma VerifyTaprootKeySpend_spec_witness :
  VerifyTaprootKeySpend (repeat x44 32) (demo_sighash ++ repeat x44 32) demo_tx 0 (demo_fetcher 5)
    demo_hashes None = Ok ((), None).
Proof.
  apply (VerifyTaprootKeySpend_spec (repeat x44 32) (demo_sighash ++ repeat x44 32) demo_tx 0
    (mkTxIn (mkOutPoint (repeat x11 32) 0) [x51] [] MaxTxInSequenceNum) (demo_fetcher 5) demo_hashes None
    eq_refl I).
  destruct (parseTaprootSigAndPubKey (repeat x44 32) (demo_sighash ++ repeat x44 32))
    as [[[k s] ht]| |] eqn:E; [|vm_compute in E; discriminate E..].
  exists k, s, ht, demo_sighash. split; [done|]. vm_compute in E. injection E as <- <- <-.
  by split; vm_compute.
Defined.
