(* ===== verification/ChainParams.v ===== *)
(** * Network parameters and block headers in context (chaincfg)

    The consensus parameters of the networks, the rules that activate at a
    height, and the interface through which the rules look at earlier
    headers. *)
From Stdlib Require Import Lia ZArith.
From S2P Require Import Prelude.

(** ** Time

    A [time.Duration] is a number of nanoseconds; [int64(d / time.Second)]
    truncates. *)
Definition Second : Z := 1000000000.
Definition Minute : Z := 60 * Second.
Definition Hour : Z := 60 * Minute.
Definition seconds (d : Z) : Z := Z.quot d Second.

(** ** Parameters *)

(** A [wire.PearlNet] is the magic number of a network. *)
Definition MainNet : Z := 0x50524C4D.
Definition RegTest : Z := 0x50524C52.
Definition TestNet : Z := 0x50524C31.
Definition TestNet2 : Z := 0x50524C32.
Definition SimNet : Z := 0x50524C53.

Definition CertificateVersionNull : Z := 0.
Definition CertificateVersionV1 : Z := 1.
Definition CertificateVersionV2 : Z := 2.
Definition CertificateVersionV3 : Z := 3.

Definition IsCertVersionAllowed (v : Z) : bool :=
  (v =? CertificateVersionV1) || (v =? CertificateVersionV2) || (v =? CertificateVersionV3).

(** The consensus parameters of a network. *)
Record Params := {
  Net : Z;
  PowLimit : Z;
  PowLimitBits : Z;
  PoWNoRetargeting : bool;
  CoinbaseMaturity : Z;
  TargetTimePerBlock : Z;
  WTEMAHalfLife : Z;
  ReduceMinDifficulty : bool;
  MinDiffReductionTime : Z;
  MaxTimeOffsetMinutes : Z;
  MoEForkHeight : Z;
  DenseOnlyForkHeight : Z;
  RankPenaltyForkHeight : Z;
  SaltedSeedForkHeight : Z;
}.

Definition mainPowLimit : Z := Z.shiftl 1 208 - 1.
Definition testPowLimit : Z := Z.shiftl 1 208 - 1.
Definition regressionPowLimit : Z := Z.shiftl 1 233 - 1.
Definition simNetPowLimit : Z := Z.shiftl 1 233 - 1.
Definition sigNetPowLimit : Z := Z.shiftl 1 228 - 1.

Definition MainNetParams : Params := {|
  Net := MainNet; PowLimit := mainPowLimit; PowLimitBits := 0x1b00ffff;
  PoWNoRetargeting := false; CoinbaseMaturity := 100;
  TargetTimePerBlock := Minute * 3 + Second * 14; WTEMAHalfLife := Hour * 168;
  ReduceMinDifficulty := false; MinDiffReductionTime := 0; MaxTimeOffsetMinutes := 5;
  MoEForkHeight := 71935; DenseOnlyForkHeight := 91630;
  RankPenaltyForkHeight := 96251; SaltedSeedForkHeight := 99000 |}.

Definition RegressionNetParams : Params := {|
  Net := RegTest; PowLimit := regressionPowLimit; PowLimitBits := 0x1e010000;
  PoWNoRetargeting := true; CoinbaseMaturity := 100;
  TargetTimePerBlock := Minute * 3 + Second * 14; WTEMAHalfLife := Hour * 168;
  ReduceMinDifficulty := true; MinDiffReductionTime := Minute * 6 + Second * 28;
  MaxTimeOffsetMinutes := 120;
  MoEForkHeight := 1; DenseOnlyForkHeight := 0;
  RankPenaltyForkHeight := 1; SaltedSeedForkHeight := 1 |}.

Definition TestNetParams : Params := {|
  Net := TestNet; PowLimit := testPowLimit; PowLimitBits := 0x1b00ffff;
  PoWNoRetargeting := false; CoinbaseMaturity := 100;
  TargetTimePerBlock := Minute * 3 + Second * 14; WTEMAHalfLife := Hour * 168;
  ReduceMinDifficulty := true; MinDiffReductionTime := Hour * 4; MaxTimeOffsetMinutes := 5;
  MoEForkHeight := 1; DenseOnlyForkHeight := 28262;
  RankPenaltyForkHeight := 36761; SaltedSeedForkHeight := 38648 |}.

Definition TestNet2Params : Params := {|
  Net := TestNet2; PowLimit := testPowLimit; PowLimitBits := 0x1b00ffff;
  PoWNoRetargeting := false; CoinbaseMaturity := 100;
  TargetTimePerBlock := Minute * 3 + Second * 14; WTEMAHalfLife := Hour * 168;
  ReduceMinDifficulty := true; MinDiffReductionTime := Hour * 4; MaxTimeOffsetMinutes := 5;
  MoEForkHeight := 54869; DenseOnlyForkHeight := 80051;
  RankPenaltyForkHeight := 80627; SaltedSeedForkHeight := 83109 |}.

Definition SimNetParams : Params := {|
  Net := SimNet; PowLimit := simNetPowLimit; PowLimitBits := 0x1e010000;
  PoWNoRetargeting := true; CoinbaseMaturity := 100;
  TargetTimePerBlock := Minute * 3 + Second * 14; WTEMAHalfLife := Hour * 168;
  ReduceMinDifficulty := true; MinDiffReductionTime := Minute * 6 + Second * 28;
  MaxTimeOffsetMinutes := 120;
  MoEForkHeight := 1; DenseOnlyForkHeight := 0;
  RankPenaltyForkHeight := 0; SaltedSeedForkHeight := 1 |}.

(** ** Rules that activate at a height *)

Definition IsMoEForkActive (p : Params) (height : Z) : bool :=
  negb (MoEForkHeight p =? 0) && (MoEForkHeight p <=? height).

Definition IsDenseOnlyForkActive (p : Params) (height : Z) : bool :=
  negb (DenseOnlyForkHeight p =? 0) && (DenseOnlyForkHeight p <=? height).

Definition IsRankPenaltyForkActive (p : Params) (height : Z) : bool :=
  negb (RankPenaltyForkHeight p =? 0) && (RankPenaltyForkHeight p <=? height).

Definition IsSaltedSeedForkActive (p : Params) (height : Z) : bool :=
  negb (SaltedSeedForkHeight p =? 0) && (SaltedSeedForkHeight p <=? height).

Definition RequiredCertVersion (p : Params) (height : Z) : Z :=
  if IsSaltedSeedForkActive p height then CertificateVersionV3
  else if IsMoEForkActive p height then CertificateVersionV2
  else CertificateVersionV1.

(** ** Headers in context

    What the rules read of an earlier header. *)
Class HeaderCtx (N : Type) := {
  Height : N → Z;
  Bits : N → Z;
  Timestamp : N → Z;
  Parent : N → option N;
}.
