(* ===== verification/MsgBlock.v ===== *)
(** * Headers, certificates and blocks (wire/blockheader.go, certificate*.go, msgheaders.go, msgblock.go)

    Writers that can fail return the bytes they wrote in a [result]; a message
    that failed to encode is not sent. *)
From stdpp Require Import strings.
From Stdlib Require Import Lia ZArith.
From S2P Require Import Prelude Wire MsgTx ChainParams Crypto SigHash.

(** ** Headers *)

(** The timestamp is [Timestamp.Unix()]. *)
Record BlockHeader := mkBlockHeader {
  bh_Version : Z;
  bh_PrevBlock : bytes;
  bh_MerkleRoot : bytes;
  bh_Timestamp : Z;
  bh_Bits : Z;
  bh_ProofCommitment : bytes
}.

Definition MaxBlockHeaderPayload : Z := 12 + HashSize * 3.

Definition readBlockHeader : Reader BlockHeader :=
  buf ← ReadFull 4;
  let Version := i32 (le_get buf) in
  PrevBlock ← ReadFull HashSize;
  MerkleRoot ← ReadFull HashSize;
  buf ← ReadFull 4;
  let Timestamp := le_get buf in
  buf ← ReadFull 4;
  let Bits := le_get buf in
  ProofCommitment ← ReadFull HashSize;
  mret (mkBlockHeader Version PrevBlock MerkleRoot Timestamp Bits ProofCommitment).

Definition writeBlockHeader (bh : BlockHeader) : bytes :=
  le_put 4 (u32 (bh_Version bh)) ++ bh_PrevBlock bh ++ bh_MerkleRoot bh ++
  le_put 4 (u32 (bh_Timestamp bh)) ++ le_put 4 (bh_Bits bh) ++ bh_ProofCommitment bh.

Definition header_SerializeSize (h : BlockHeader) : Z := MaxBlockHeaderPayload.

(** ** Certificates *)

Definition MaxZKProofSize : Z := 60000.
Definition CertificateMaxSize : Z := 65000.
Definition PublicDataSizeV1 : Z := 164.
Definition PublicDataMaxSizeV2 : Z := 4807.
Definition PublicDataSizeDenseV2 : Z := 164.

Record CertificateV1 := mkCertificateV1 {
  v1_Hash : bytes;
  v1_PublicData : bytes;
  v1_ProofData : bytes
}.

(** [PublicData] is the whole array. *)
Record CertificateV2 := mkCertificateV2 {
  v2_Hash : bytes;
  v2_PublicDataLen : Z;
  v2_PublicData : bytes;
  v2_ProofData : bytes
}.

(** The implementations of the interface; version 3 embeds version 2. *)
Inductive BlockCertificate :=
| CertV1 (c : CertificateV1)
| CertV2 (c : CertificateV2)
| CertV3 (c : CertificateV2).

Definition cert_Version (c : BlockCertificate) : Z :=
  match c with CertV1 _ => CertificateVersionV1 | CertV2 _ => CertificateVersionV2 | CertV3 _ => CertificateVersionV3 end.

Definition cert_BlockHash (c : BlockCertificate) : bytes :=
  match c with CertV1 c => v1_Hash c | CertV2 c | CertV3 c => v2_Hash c end.

Definition cert_ProofBytes (c : BlockCertificate) : bytes :=
  match c with CertV1 c => v1_ProofData c | CertV2 c | CertV3 c => v2_ProofData c end.

(** The slice panics past the array. *)
Definition v2_PublicDataBytes {E} (c : CertificateV2) : result E bytes := go_slice (v2_PublicData c) 0 (v2_PublicDataLen c).

Definition PublicDataBytes {E} (c : BlockCertificate) : result E bytes :=
  match c with CertV1 c => Ok (v1_PublicData c) | CertV2 c | CertV3 c => v2_PublicDataBytes c end.

Definition IsMoE (c : BlockCertificate) : bool :=
  match c with CertV1 _ => false | CertV2 c | CertV3 c => PublicDataSizeDenseV2 <? v2_PublicDataLen c end.

Section commitment.
Context `{HashFns}.

Definition proofCommitment (version : Z) (publicData : bytes) : bytes := DoubleHashB (le_put 4 (u32 version) ++ publicData).

Definition ProofCommitment {E} (c : BlockCertificate) : result E bytes :=
  publicData ← PublicDataBytes c;
  Ok (proofCommitment (cert_Version c) publicData).

Definition BlockHash (h : BlockHeader) : bytes := DoubleHashB (writeBlockHeader h).
End commitment.

Definition v1_Serialize (c : CertificateV1) : bytes :=
  v1_Hash c ++ v1_PublicData c ++ le_put 4 (u32 (zlen (v1_ProofData c))) ++ v1_ProofData c.

Definition v2_Serialize (c : CertificateV2) : result WireErr bytes :=
  publicData ← v2_PublicDataBytes c;
  Ok (v2_Hash c ++ le_put 4 (v2_PublicDataLen c) ++ publicData ++ le_put 4 (u32 (zlen (v2_ProofData c))) ++ v2_ProofData c).

Definition cert_Serialize (c : BlockCertificate) : result WireErr bytes :=
  match c with CertV1 c => Ok (v1_Serialize c) | CertV2 c | CertV3 c => v2_Serialize c end.

Definition read_u32 : Reader Z := buf ← ReadFull 4; mret (le_get buf).

Definition read_proof : Reader bytes :=
  proofLen ← read_u32;
  if MaxZKProofSize <? proofLen then st_fail (Errorf "proof data too large") else ReadFull proofLen.

Definition v1_Deserialize : Reader CertificateV1 :=
  Hash ← ReadFull HashSize;
  PublicData ← ReadFull PublicDataSizeV1;
  ProofData ← read_proof;
  mret (mkCertificateV1 Hash PublicData ProofData).

(** Into a new certificate: the rest of the array is zero. *)
Definition v2_Deserialize : Reader CertificateV2 :=
  Hash ← ReadFull HashSize;
  PublicDataLen ← read_u32;
  if PublicDataMaxSizeV2 <? PublicDataLen then st_fail (Errorf "public_data_len exceeds max")
  else
    PublicData ← ReadFull PublicDataLen;
    ProofData ← read_proof;
    mret (mkCertificateV2 Hash PublicDataLen
      (PublicData ++ replicate (Z.to_nat (PublicDataMaxSizeV2 - PublicDataLen)) x00) ProofData).

Definition cert_SerializedSize (c : BlockCertificate) : Z :=
  match c with
  | CertV1 c => 32 + PublicDataSizeV1 + 4 + zlen (v1_ProofData c)
  | CertV2 c | CertV3 c => 32 + 4 + v2_PublicDataLen c + 4 + zlen (v2_ProofData c)
  end.

(** ** The certificate of a message *)

(** [io.LimitReader]: a read sees at most the next [n] bytes. *)
Definition LimitReader {A} (n : Z) (m : Reader A) : Reader A := λ r,
  '(a, rest) ← m (take (Z.to_nat n) r);
  Ok (a, rest ++ drop (Z.to_nat n) r).

(** No certificate is [nil]. *)
Definition MsgCertificate_SerializeSize (m : option BlockCertificate) : Z :=
  match m with None => 4 | Some c => 4 + cert_SerializedSize c end.

Definition MsgCertificate_PrlEncode (m : option BlockCertificate) : result WireErr bytes :=
  match m with
  | None => Ok (le_put 4 CertificateVersionNull)
  | Some c =>
      if CertificateMaxSize <? MsgCertificate_SerializeSize m then Fail (Errorf "certificate too large")
      else
        s ← cert_Serialize c;
        Ok (le_put 4 (cert_Version c) ++ s)
  end.

Definition MsgCertificate_PrlDecode : Reader (option BlockCertificate) :=
  version ← read_u32;
  if version =? CertificateVersionNull then mret None
  else if version =? CertificateVersionV1 then c ← LimitReader CertificateMaxSize v1_Deserialize; mret (Some (CertV1 c))
  else if version =? CertificateVersionV2 then c ← LimitReader CertificateMaxSize v2_Deserialize; mret (Some (CertV2 c))
  else if version =? CertificateVersionV3 then c ← LimitReader CertificateMaxSize v2_Deserialize; mret (Some (CertV3 c))
  else st_fail (Errorf "unsupported certificate version").

(** ** Header messages *)

Record MsgHeader := mkMsgHeader {
  mh_Certificate : option BlockCertificate;
  mh_BlockHeader : BlockHeader
}.

Definition MsgHeader_PrlDecode : Reader MsgHeader :=
  Certificate ← MsgCertificate_PrlDecode;
  BlockHeader ← readBlockHeader;
  mret (mkMsgHeader Certificate BlockHeader).

Definition MsgHeader_PrlEncode (mh : MsgHeader) : result WireErr bytes :=
  c ← MsgCertificate_PrlEncode (mh_Certificate mh);
  Ok (c ++ writeBlockHeader (mh_BlockHeader mh)).

Definition MsgHeader_SerializeSize (mh : MsgHeader) : Z :=
  header_SerializeSize (mh_BlockHeader mh) + MsgCertificate_SerializeSize (mh_Certificate mh).

Definition MaxBlockHeadersPerMsg : Z := 100.

(** The loop returns at the first header that makes the list mixed. *)
Fixpoint inconsistent_loop (headers : list MsgHeader) (hasCert noCert : bool) : bool :=
  match headers with
  | [] => false
  | h :: headers =>
      let '(hasCert, noCert) :=
        match mh_Certificate h with Some _ => (true, noCert) | None => (hasCert, true) end in
      if hasCert && noCert then true else inconsistent_loop headers hasCert noCert
  end.

Definition HasInconsistentCertificates (headers : list MsgHeader) : bool := inconsistent_loop headers false false.

(** [n] values in a row. *)
Fixpoint read_list {A} (n : nat) (m : Reader A) : Reader (list A) :=
  match n with
  | O => mret []
  | S n => a ← m; l ← read_list n m; mret (a :: l)
  end.

Fixpoint write_list {A} (f : A → result WireErr bytes) (l : list A) : result WireErr bytes :=
  match l with
  | [] => Ok []
  | a :: l => s ← f a; t ← write_list f l; Ok (s ++ t)
  end.

Definition MsgHeaders_AddBlockHeader (Headers : list MsgHeader) (bh : BlockHeader) (cert : option BlockCertificate)
    : result WireErr (list MsgHeader) :=
  if MaxBlockHeadersPerMsg <? zlen Headers + 1 then Fail (MessageError "MsgHeaders.AddBlockHeader")
  else Ok (Headers ++ [mkMsgHeader cert bh]).

Definition MsgHeaders_PrlDecode : Reader (list MsgHeader) :=
  count ← ReadVarIntBuf;
  if MaxBlockHeadersPerMsg <? count then st_fail (MessageError "MsgHeaders.PrlDecode")
  else
    Headers ← read_list (Z.to_nat count) MsgHeader_PrlDecode;
    if HasInconsistentCertificates Headers then st_fail (MessageError "MsgHeaders.PrlDecode") else mret Headers.

Definition MsgHeaders_PrlEncode (Headers : list MsgHeader) : result WireErr bytes :=
  let count := zlen Headers in
  if MaxBlockHeadersPerMsg <? count then Fail (MessageError "MsgHeaders.PrlEncode")
  else
    hs ← write_list MsgHeader_PrlEncode Headers;
    Ok (WriteVarIntBuf (u64 count) ++ hs).

Definition MsgHeaders_MaxPayloadLength : Z :=
  u32 (9 + (MaxBlockHeaderPayload + CertificateMaxSize) * MaxBlockHeadersPerMsg).

(** ** Blocks *)

Definition minTxPayload : Z := 10.
Definition MaxBlocksPerMsg : Z := 500.
Definition MaxBlockPayload : Z := 4000000.
Definition maxTxPerBlock : Z := MaxBlockPayload / minTxPayload + 1.

Record TxLoc := mkTxLoc { TxStart : Z; TxLen : Z }.

Record MsgBlock := mkMsgBlock {
  mb_MsgHeader : MsgHeader;
  mb_Transactions : list MsgTx
}.

(** Every transaction is read with the whole script buffer. *)
Definition MsgBlock_PrlDecode (enc : MessageEncoding) : Reader MsgBlock :=
  MsgHeader ← MsgHeader_PrlDecode;
  txCount ← ReadVarIntBuf;
  if maxTxPerBlock <? txCount then st_fail (MessageError "MsgBlock.PrlDecode")
  else
    Transactions ← read_list (Z.to_nat txCount) (prlDecode enc scriptSlabSize);
    mret (mkMsgBlock MsgHeader Transactions).

Definition MsgBlock_PrlEncode (enc : MessageEncoding) (msg : MsgBlock) : result WireErr bytes :=
  h ← MsgHeader_PrlEncode (mb_MsgHeader msg);
  Ok (h ++ WriteVarIntBuf (u64 (zlen (mb_Transactions msg))) ++ concat (map (prlEncode enc) (mb_Transactions msg))).

Definition MsgBlock_Deserialize : Reader MsgBlock := MsgBlock_PrlDecode WitnessEncoding.
Definition MsgBlock_DeserializeNoWitness : Reader MsgBlock := MsgBlock_PrlDecode BaseEncoding.
Definition MsgBlock_Serialize (msg : MsgBlock) : result WireErr bytes := MsgBlock_PrlEncode WitnessEncoding msg.
Definition MsgBlock_SerializeNoWitness (msg : MsgBlock) : result WireErr bytes := MsgBlock_PrlEncode BaseEncoding msg.

(** The locations as the transactions are read. *)
Fixpoint read_locs (n : nat) (fullLen : Z) : Reader (list MsgTx * list TxLoc) :=
  match n with
  | O => mret ([], [])
  | S n =>
      r ← st_get;
      let start := fullLen - zlen r in
      tx ← prlDecode WitnessEncoding scriptSlabSize;
      r ← st_get;
      let loc := mkTxLoc start (fullLen - zlen r - start) in
      '(txs, locs) ← read_locs n fullLen;
      mret (tx :: txs, loc :: locs)
  end.

(** With the block that is filled in. *)
Definition MsgBlock_DeserializeTxLoc : Reader (MsgBlock * list TxLoc) :=
  r ← st_get;
  let fullLen := zlen r in
  MsgHeader ← MsgHeader_PrlDecode;
  txCount ← ReadVarIntBuf;
  if maxTxPerBlock <? txCount then st_fail (MessageError "MsgBlock.DeserializeTxLoc")
  else
    '(Transactions, txLocs) ← read_locs (Z.to_nat txCount) fullLen;
    mret (mkMsgBlock MsgHeader Transactions, txLocs).

Definition MsgBlock_SerializeSize (msg : MsgBlock) : Z :=
  let n := MsgHeader_SerializeSize (mb_MsgHeader msg) + VarIntSerializeSize (u64 (zlen (mb_Transactions msg))) in
  foldl (λ n tx, n + SerializeSize tx) n (mb_Transactions msg).

Definition MsgBlock_SerializeSizeStripped (msg : MsgBlock) : Z :=
  let n := header_SerializeSize (mh_BlockHeader (mb_MsgHeader msg)) + VarIntSerializeSize (u64 (zlen (mb_Transactions msg))) in
  foldl (λ n tx, n + SerializeSizeStripped tx) n (mb_Transactions msg).

Definition MsgBlock_SerializeWitnessSize (msg : MsgBlock) : Z :=
  foldl (λ n tx, n + (SerializeSize tx - SerializeSizeStripped tx)) 0 (mb_Transactions msg).

Definition MsgBlock_MaxPayloadLength : Z := MaxBlockPayload + CertificateMaxSize.

Section hashes.
Context `{HashFns}.
Definition MsgBlock_BlockHash (msg : MsgBlock) : bytes := BlockHash (mh_BlockHeader (mb_MsgHeader msg)).
Definition MsgBlock_TxHashes (msg : MsgBlock) : list bytes := map TxHash (mb_Transactions msg).
End hashes.

(** ** Codecs that can fail

    The reader accepts what the writer produces from well-formed values, and
    nothing else. *)
Class Codec {A} (wf : A → Prop) (enc : A → result WireErr bytes) (dec : Reader A) : Prop :=
  codec r a rest : dec r = Ok (a, rest) ↔ wf a ∧ ∃ s, enc a = Ok s ∧ r = s ++ rest.

#[global] Hint Mode Codec + - - ! : typeclass_instances.

Lemma Ok_inj {E A} (a b : A) : Ok (E:=E) a = Ok b → a = b.
Proof. congruence. Qed.

Lemma ReadFull_iff n r bs rest : 0 <= n → ReadFull n r = Ok (bs, rest) ↔ zlen bs = n ∧ r = bs ++ rest.
Proof.
  intros Hn. split.
  - intros E. by apply ReadFull_ok in E as [-> ?].
  - intros [Hl ->]. by apply ReadFull_app.
Qed.

Lemma ret_iff {A} (a a' : A) (r r' : bytes) : mret (M:=Reader) a r = Ok (a', r') ↔ a = a' ∧ r = r'.
Proof. cbv [mret st_ret]. naive_solver. Qed.

Lemma read_u32_iff r v rest : read_u32 r = Ok (v, rest) ↔ is_u32 v ∧ r = le_put 4 v ++ rest.
Proof.
  unfold read_u32. rewrite st_bind_ok. split.
  - intros (buf & s & E & [= <- <-]). by apply ReadFull_u32_ok in E as [? ->].
  - intros [Hv ->]. exists (le_put 4 v), rest. rewrite MsgTx.read_u32 by done.
    cbv [mret st_ret]. by rewrite le_get_put_u32.
Qed.

Lemma read_list_codec {A} (wf : A → Prop) enc (dec : Reader A) `{!Codec wf enc dec} n :
  Codec (λ l, length l = n ∧ Forall wf l) (write_list enc) (read_list n dec).
Proof.
  induction n as [|n IH]; intros r l rest; cbn [read_list].
  - rewrite ret_iff. split.
    + intros [<- <-]. split; [done|]. by exists [].
    + intros [[Hl _] (s & E & ->)]. destruct l; [|done]. injection E as <-. done.
  - rewrite st_bind_ok. split.
    + intros (a & s & Ha & (k & s' & Hk & [= <- <-])%st_bind_ok).
      apply codec in Ha as [Hwa (ea & Eea & ->)]. apply IH in Hk as [[Hl Hwk] (ek & Eek & ->)].
      split; [split; [cbn; lia|by constructor]|]. exists (ea ++ ek). cbn [write_list]. rewrite Eea.
      cbv [mbind result_bind]. by rewrite Eek, (assoc_L (++)).
    + intros [[Hl Hw] (s & E & ->)]. destruct l as [|a l]; [done|]. apply Forall_cons in Hw as [Ha Hw].
      cbn [write_list] in E. apply bind_ok in E as (ea & Ea & (ek & Ek & [= <-])%bind_ok).
      exists a, (ek ++ rest). split; [apply codec; split; [done|]; exists ea; by rewrite (assoc_L (++))|].
      apply st_bind_ok. exists l, rest. split; [|done]. apply IH. split; [|by eauto]. split; [cbn in Hl; lia|done].
Qed.

Lemma LimitReader_codec {A} (wf : A → Prop) enc (dec : Reader A) n `{!Codec wf enc dec} :
  (∀ a s, wf a → enc a = Ok s → zlen s <= n) → Codec wf enc (LimitReader n dec).
Proof.
  intros Hn r a rest. unfold LimitReader. rewrite bind_ok. split.
  - intros ([a' rest'] & E & [= -> <-]). apply codec in E as [Hw (s & Es & E)]. split; [done|].
    exists s. split; [done|]. by rewrite (assoc_L (++)), <-E, take_drop.
  - intros [Hw (s & Es & ->)]. specialize (Hn a s Hw Es). exists (a, take (Z.to_nat n - length s) rest).
    split.
    + apply codec. split; [done|]. exists s. split; [done|]. rewrite take_app, take_ge; [done|]. unfold zlen in Hn. lia.
    + rewrite drop_app, (drop_ge s) by (unfold zlen in Hn; lia). cbn [app]. by rewrite take_drop.
Qed.

(** ** Headers *)

Definition wf_BlockHeader (h : BlockHeader) : Prop :=
  is_i32 (bh_Version h) ∧ zlen (bh_PrevBlock h) = HashSize ∧ zlen (bh_MerkleRoot h) = HashSize ∧
  is_u32 (bh_Timestamp h) ∧ is_u32 (bh_Bits h) ∧ zlen (bh_ProofCommitment h) = HashSize.

(** One field after the other, from either side. *)
Ltac codec_read :=
  repeat match goal with
  | H : ReadFull 4 _ = _ |- _ => apply ReadFull_u32_ok in H as [? ->]
  | H : ReadFull _ _ = _ |- _ => apply ReadFull_ok in H as [-> ?]; [|done]
  | H : read_u32 _ = _ |- _ => apply read_u32_iff in H as [? ->]
  end.

Ltac codec_write :=
  repeat (rewrite <-(assoc_L (++)));
  repeat (first
    [ erewrite bind_decodes by (apply MsgTx.read_u32; eassumption)
    | erewrite bind_decodes by (apply ReadFull_app; eassumption)
    | erewrite bind_decodes by (apply read_u32_iff; split; [eassumption|reflexivity]) ]).

Lemma u32_i32 z : is_u32 z → u32 (i32 z) = z.
Proof. unfold is_u32, u32, i32. intros. rewrite Zminus_mod_idemp_l, Z.add_simpl_r, Z.mod_small; lia. Qed.

Lemma is_u32_u32 z : is_u32 (u32 z).
Proof. unfold is_u32, u32. apply Z.mod_pos_bound. lia. Qed.

#[export] Instance header_codec : Codec wf_BlockHeader (λ h, Ok (writeBlockHeader h)) readBlockHeader.
Proof.
  intros r h rest. unfold readBlockHeader. cbv zeta. split.
  - intros E. inv_st. codec_read.
    split; [refine (conj (i32_range _) (conj _ (conj _ (conj _ (conj _ _))))); assumption|]. eexists. split; [done|]. unfold writeBlockHeader.
    cbn [bh_Version bh_PrevBlock bh_MerkleRoot bh_Timestamp bh_Bits bh_ProofCommitment].
    rewrite u32_i32, u32_small by done. rewrite <-!(assoc_L (++)). done.
  - intros [(Hv & Hp & Hm & Ht & Hb & Hc) (s & [= <-] & ->)]. unfold writeBlockHeader.
    rewrite (u32_small (bh_Timestamp h)) by done. pose proof (is_u32_u32 (bh_Version h)) as Hu.
    codec_write. cbv [mret st_ret]. rewrite !le_get_put_u32, i32_u32 by done. by destruct h.
Qed.

(** ** Certificates *)

Definition wf_CertificateV1 (c : CertificateV1) : Prop :=
  zlen (v1_Hash c) = HashSize ∧ zlen (v1_PublicData c) = PublicDataSizeV1 ∧ zlen (v1_ProofData c) <= MaxZKProofSize.

(** What was read fills a prefix of the array. *)
Definition wf_CertificateV2 (c : CertificateV2) : Prop :=
  zlen (v2_Hash c) = HashSize ∧ is_u32 (v2_PublicDataLen c) ∧ v2_PublicDataLen c <= PublicDataMaxSizeV2 ∧
  zlen (v2_ProofData c) <= MaxZKProofSize ∧
  ∃ data, zlen data = v2_PublicDataLen c ∧
    v2_PublicData c = data ++ replicate (Z.to_nat (PublicDataMaxSizeV2 - v2_PublicDataLen c)) x00.

Lemma read_proof_iff r p rest :
  read_proof r = Ok (p, rest) ↔ zlen p <= MaxZKProofSize ∧ r = le_put 4 (u32 (zlen p)) ++ p ++ rest.
Proof.
  unfold read_proof. rewrite st_bind_ok. split.
  - intros (n & s & [Hn ->]%read_u32_iff & E). case_match; [done|].
    apply ReadFull_ok in E as [-> <-]; [|unfold is_u32 in Hn; lia]. rewrite u32_small by done. split; [lia|done].
  - intros [Hp ->]. pose proof (zlen_nonneg p). assert (is_u32 (zlen p)) by (unfold is_u32, MaxZKProofSize in *; lia).
    rewrite u32_small by done. exists (zlen p), (p ++ rest). split; [by apply read_u32_iff|].
    rewrite (proj2 (Z.ltb_ge _ _)) by done. by apply ReadFull_app.
Qed.

#[export] Instance v1_codec : Codec wf_CertificateV1 (λ c, Ok (v1_Serialize c)) v1_Deserialize.
Proof.
  intros r c rest. unfold v1_Deserialize, v1_Serialize. split.
  - intros E. inv_st. codec_read.
    match goal with H : read_proof _ = _ |- _ => apply read_proof_iff in H as [? ->] end.
    split; [done|]. eexists. split; [done|]. cbn [v1_Hash v1_PublicData v1_ProofData]. by rewrite <-!(assoc_L (++)).
  - intros [(Hh & Hd & Hp) (s & [= <-] & ->)]. codec_write.
    rewrite (bind_decodes _ _ _ (v1_ProofData c) rest) by by apply read_proof_iff. by destruct c.
Qed.

Lemma v2_PublicDataBytes_prefix {E} c data k :
  zlen data = v2_PublicDataLen c → v2_PublicData c = data ++ k → v2_PublicDataBytes (E:=E) c = Ok data.
Proof. intros Hl E'. unfold v2_PublicDataBytes. rewrite E', <-Hl. by apply go_slice_prefix. Qed.

#[export] Instance v2_codec : Codec wf_CertificateV2 v2_Serialize v2_Deserialize.
Proof.
  intros r c rest. unfold v2_Deserialize, v2_Serialize. split.
  - intros E. apply st_bind_ok in E as (? & ? & ? & E). apply st_bind_ok in E as (n & ? & ? & E). codec_read.
    case_match; [done|]. inv_st. codec_read.
    match goal with H : read_proof _ = _ |- _ => apply read_proof_iff in H as [? ->] end.
    match goal with H : ReadFull n _ = _ |- _ => apply ReadFull_ok in H as [-> ?]; [|unfold is_u32 in *; lia] end.
    split; [refine (conj _ (conj _ (conj _ (conj _ (ex_intro _ _ (conj _ eq_refl)))))); first [assumption|cbn; lia]|].
    erewrite v2_PublicDataBytes_prefix; [|eassumption|reflexivity]. cbv [mbind result_bind].
    cbn [v2_Hash v2_PublicDataLen v2_PublicData v2_ProofData]. eexists. split; [done|]. by rewrite <-!(assoc_L (++)).
  - intros [(Hh & Hn & Hm & Hp & data & Hl & Ed) (s & E & ->)].
    rewrite (v2_PublicDataBytes_prefix c data _ Hl Ed) in E. apply Ok_inj in E as <-. codec_write.
    rewrite (proj2 (Z.ltb_ge _ _)) by done. cbv iota. codec_write.
    rewrite (bind_decodes _ _ _ (v2_ProofData c) rest) by by apply read_proof_iff.
    cbv [mret st_ret]. rewrite <-Ed. by destruct c.
Qed.

Lemma le_u32_size z : zlen (le_put 4 z) = 4.
Proof. by rewrite zlen_le_put. Qed.

Lemma v1_size c : wf_CertificateV1 c → zlen (v1_Serialize c) = cert_SerializedSize (CertV1 c).
Proof.
  intros (Hh & Hd & Hp). unfold v1_Serialize. rewrite !zlen_app, le_u32_size, Hh, Hd. unfold HashSize. cbn. lia.
Qed.

Lemma v2_size c s : wf_CertificateV2 c → v2_Serialize c = Ok s → zlen s = 32 + 4 + v2_PublicDataLen c + 4 + zlen (v2_ProofData c).
Proof.
  intros (Hh & _ & _ & _ & data & Hl & E). unfold v2_Serialize.
  rewrite (v2_PublicDataBytes_prefix c data _ Hl E). intros <-%Ok_inj.
  rewrite !zlen_app, !le_u32_size, Hh, Hl. unfold HashSize. lia.
Qed.

Definition wf_BlockCertificate (c : BlockCertificate) : Prop :=
  match c with CertV1 c => wf_CertificateV1 c | CertV2 c | CertV3 c => wf_CertificateV2 c end.

Lemma cert_size c s : wf_BlockCertificate c → cert_Serialize c = Ok s → zlen s = cert_SerializedSize c.
Proof. destruct c; cbn [wf_BlockCertificate cert_Serialize]; [intros ? [= <-]; by apply v1_size|apply v2_size..]. Qed.

(** A certificate within the limits of the reader is within that of the writer. *)
Lemma cert_size_max c : wf_BlockCertificate c → 4 + cert_SerializedSize c <= CertificateMaxSize.
Proof.
  destruct c as [c|c|c]; cbn [wf_BlockCertificate cert_SerializedSize].
  1: intros (_ & _ & Hp). 2,3: intros (_ & _ & Hl & Hp & _).
  all: unfold MaxZKProofSize, PublicDataMaxSizeV2, CertificateMaxSize, PublicDataSizeV1 in *; lia.
Qed.

Definition wf_MsgCertificate (m : option BlockCertificate) : Prop := from_option wf_BlockCertificate True m.

Lemma MsgCertificate_write m :
  wf_MsgCertificate m →
  MsgCertificate_PrlEncode m =
    match m with None => Ok (le_put 4 CertificateVersionNull)
    | Some c => s ← cert_Serialize c; Ok (le_put 4 (cert_Version c) ++ s) end.
Proof.
  destruct m as [c|]; [|done]. intros Hm%cert_size_max. unfold MsgCertificate_PrlEncode. cbn [MsgCertificate_SerializeSize].
  by rewrite (proj2 (Z.ltb_ge _ _)).
Qed.

#[export] Instance v1_limited : Codec wf_CertificateV1 (λ c, Ok (v1_Serialize c)) (LimitReader CertificateMaxSize v1_Deserialize).
Proof.
  apply LimitReader_codec; [apply _|]. intros c s Hc [= <-]. rewrite v1_size by done.
  pose proof (cert_size_max (CertV1 c) Hc). lia.
Qed.

#[export] Instance v2_limited : Codec wf_CertificateV2 v2_Serialize (LimitReader CertificateMaxSize v2_Deserialize).
Proof.
  apply LimitReader_codec; [apply _|]. intros c s Hc E. rewrite (v2_size c s Hc E).
  pose proof (cert_size_max (CertV2 c) Hc) as Hm. cbn in Hm. lia.
Qed.

(** One version of the certificate, read after its number. *)
Lemma versioned {C} (wf : C → Prop) enc (dec : Reader C) (Hc : Codec wf enc dec) (mk : C → BlockCertificate) r m rest :
  (c ← dec; mret (Some (mk c))) r = Ok (m, rest) ↔
  ∃ c, m = Some (mk c) ∧ wf c ∧ ∃ s, enc c = Ok s ∧ r = s ++ rest.
Proof.
  rewrite st_bind_ok. split.
  - intros (c & s & [Hw (t & Et & ->)]%codec & [= <- <-]). eauto 10.
  - intros (c & -> & Hw & s & Es & ->). exists c, rest. split; [apply codec; eauto|done].
Qed.

#[export] Instance MsgCertificate_codec : Codec wf_MsgCertificate MsgCertificate_PrlEncode MsgCertificate_PrlDecode.
Proof.
  intros r m rest. unfold MsgCertificate_PrlDecode. rewrite st_bind_ok. split.
  - intros (v & s & [Hv ->]%read_u32_iff & E).
    assert (wf_MsgCertificate m ∧ ∃ t, match m with None => Ok (le_put 4 CertificateVersionNull)
      | Some c => s ← cert_Serialize c; Ok (le_put 4 (cert_Version c) ++ s) end = Ok t ∧ le_put 4 v ++ s = t ++ rest) as (Hm & t & Et & ->).
    { revert E. destruct (Z.eqb_spec v CertificateVersionNull) as [Ev|_]; [intros [= <- <-]; rewrite Ev; split; [done|eexists; split; reflexivity]|].
      destruct (Z.eqb_spec v CertificateVersionV1) as [Ev|_];
        [|destruct (Z.eqb_spec v CertificateVersionV2) as [Ev|_];
          [|destruct (Z.eqb_spec v CertificateVersionV3) as [Ev|_]; [|by intros]]].
      all: rewrite Ev; intros E.
      all: first [apply (versioned _ _ _ v1_limited CertV1) in E as (c & -> & Hw & t & Et & ->)|apply (versioned _ _ _ v2_limited CertV2) in E as (c & -> & Hw & t & Et & ->)
        |apply (versioned _ _ _ v2_limited CertV3) in E as (c & -> & Hw & t & Et & ->)]; (split; [exact Hw|]).
      all: eexists; cbn [cert_Serialize]; rewrite Et; cbv [mbind result_bind]; (split; [reflexivity|by rewrite <-(assoc_L (++))]). }
    split; [done|]. exists t. by rewrite MsgCertificate_write.
  - intros [Hm (t & Et & ->)]. rewrite MsgCertificate_write in Et by done. destruct m as [c|].
    + apply bind_ok in Et as (s & Es & <-%Ok_inj). exists (cert_Version c), (s ++ rest).
      split; [apply read_u32_iff; rewrite <-(assoc_L (++)); by destruct c|].
      destruct c as [c|c|c]; cbn [cert_Version Z.eqb Pos.eqb];
        [apply (versioned _ _ _ v1_limited CertV1)|apply (versioned _ _ _ v2_limited CertV2)|apply (versioned _ _ _ v2_limited CertV3)];
        exists c; (split; [done|split; [exact Hm|by exists s]]).
    + apply Ok_inj in Et as <-. exists 0, rest. split; [by apply read_u32_iff|done].
Qed.

(** ** Header messages *)

Definition wf_MsgHeader (mh : MsgHeader) : Prop :=
  wf_MsgCertificate (mh_Certificate mh) ∧ wf_BlockHeader (mh_BlockHeader mh).

#[export] Instance MsgHeader_codec : Codec wf_MsgHeader MsgHeader_PrlEncode MsgHeader_PrlDecode.
Proof.
  intros r [m h] rest. unfold MsgHeader_PrlDecode, MsgHeader_PrlEncode, wf_MsgHeader. cbn [mh_Certificate mh_BlockHeader].
  rewrite st_bind_ok. split.
  - intros (m' & s & [Hm (em & Em & ->)]%codec & (h' & s' & [Hh (eh & <-%Ok_inj & ->)]%codec & [= -> -> ->])%st_bind_ok).
    split; [done|]. rewrite Em. cbv [mbind result_bind]. eexists. split; [done|]. by rewrite <-(assoc_L (++)).
  - intros [[Hm Hh] (s & (em & Em & <-%Ok_inj)%bind_ok & ->)]. rewrite <-(assoc_L (++)).
    exists m, (writeBlockHeader h ++ rest). split; [apply codec; eauto|]. apply st_bind_ok. exists h, rest.
    split; [apply codec; eauto|done].
Qed.

Lemma inconsistent_loop_spec headers a b :
  inconsistent_loop headers a b = false ↔
  headers = [] ∨
  (b = false ∧ Forall (λ h, is_Some (mh_Certificate h)) headers) ∨ (a = false ∧ Forall (λ h, mh_Certificate h = None) headers).
Proof.
  revert a b. induction headers as [|h headers IH]; intros a b; cbn [inconsistent_loop]; [naive_solver|].
  rewrite !Forall_cons. destruct (mh_Certificate h) as [c|] eqn:Ec; cbn [fst snd].
  - destruct b; cbn [andb].
    + split; [done|]. intros [?|[[? ?]|[_ [? _]]]]; done.
    + rewrite IH. split.
      * intros [->|[[_ H]|[? _]]]; [by right; left; eauto|right; left; eauto|done].
      * intros [?|[[_ [_ H]]|[_ [? _]]]]; [done|by auto|done].
  - destruct a; cbn [andb].
    + split; [done|]. intros [?|[[_ [[? ?] _]]|[? _]]]; done.
    + rewrite IH. split.
      * intros [->|[[? _]|[_ H]]]; [right; right; by auto|done|right; right; by auto].
      * intros [?|[[_ [[? ?] _]]|[_ [_ H]]]]; [done..|by auto].
Qed.

Lemma HasInconsistentCertificates_spec headers :
  HasInconsistentCertificates headers = false ↔
  Forall (λ h, is_Some (mh_Certificate h)) headers ∨ Forall (λ h, mh_Certificate h = None) headers.
Proof.
  unfold HasInconsistentCertificates. rewrite inconsistent_loop_spec. split; [|naive_solver].
  intros [->|[[_ H]|[_ H]]]; auto.
Qed.

(** The count of a list, and the list. *)
Lemma counted_codec {A} (wf : A → Prop) enc (dec : Reader A) (Hc : Codec wf enc dec) fn max r l rest :
  0 <= max < 2 ^ 63 →
  (count ← ReadVarIntBuf; if max <? count then st_fail (MessageError fn) else read_list (Z.to_nat count) dec) r = Ok (l, rest) ↔
  zlen l <= max ∧ Forall wf l ∧ ∃ s, write_list enc l = Ok s ∧ r = WriteVarIntBuf (u64 (zlen l)) ++ s ++ rest.
Proof.
  intros Hmax. rewrite st_bind_ok. split.
  - intros (n & s & [Hn ->]%ReadVarIntBuf_ok & E).
    case_match eqn:Hle; [done|]. apply Z.ltb_ge in Hle. apply (read_list_codec wf enc dec) in E as [[Hl Hw] (t & Et & ->)].
    assert (zlen l = n) as Hz by (unfold zlen, is_u64 in *; lia). split; [lia|split; [done|]].
    exists t. rewrite Hz, u64_small by done. done.
  - intros (Hl & Hw & s & Es & ->). pose proof (zlen_nonneg l).
    assert (is_u64 (zlen l)) as Hu by (unfold is_u64; lia). rewrite u64_small by done.
    exists (zlen l), (s ++ rest). split; [by apply varint_decodes|]. rewrite (proj2 (Z.ltb_ge _ _)) by done.
    apply (read_list_codec wf enc dec). rewrite to_nat_zlen. eauto.
Qed.

Definition wf_MsgHeaders (hs : list MsgHeader) : Prop :=
  zlen hs <= MaxBlockHeadersPerMsg ∧ Forall wf_MsgHeader hs ∧
  (Forall (λ h, is_Some (mh_Certificate h)) hs ∨ Forall (λ h, mh_Certificate h = None) hs).

#[export] Instance MsgHeaders_codec : Codec wf_MsgHeaders MsgHeaders_PrlEncode MsgHeaders_PrlDecode.
Proof.
  intros r hs rest. unfold wf_MsgHeaders, MsgHeaders_PrlEncode.
  pose proof (counted_codec _ _ _ MsgHeader_codec "MsgHeaders.PrlDecode" MaxBlockHeadersPerMsg r hs rest ltac:(done)) as Hc.
  rewrite st_bind_ok in Hc. unfold MsgHeaders_PrlDecode. rewrite st_bind_ok. split.
  - intros (n & s & En & E). case_match eqn:Hn; [done|]. apply st_bind_ok in E as (hs' & s' & El & E).
    revert E. case_match eqn:Hi; [done|]. intros [= <- <-]. apply HasInconsistentCertificates_spec in Hi.
    destruct (proj1 Hc) as (Hl & Hw & t & Et & ->); [exists n, s; by rewrite Hn|].
    split; [done|]. rewrite (proj2 (Z.ltb_ge _ _)), Et by done. cbv [mbind result_bind]. eexists. split; [done|].
    by rewrite <-(assoc_L (++)).
  - intros [(Hl & Hw & Hi) (s & E & ->)]. rewrite (proj2 (Z.ltb_ge _ _)) in E by done.
    apply bind_ok in E as (t & Et & <-%Ok_inj).
    destruct (proj2 Hc) as (n & s & En & E); [split; [done|]; split; [done|]; exists t; by rewrite <-(assoc_L (++))|].
    exists n, s. split; [done|]. revert E. case_match; [done|]. intros E. apply st_bind_ok. exists hs, rest. split; [done|].
    by rewrite (proj2 (HasInconsistentCertificates_spec hs) Hi).
Qed.

(** ** Blocks *)

Definition wf_block_tx (tx : MsgTx) : Prop := wf_MsgTx tx ∧ tx_TxIn tx ≠ [].

Definition wf_MsgBlock (blk : MsgBlock) : Prop :=
  wf_MsgHeader (mb_MsgHeader blk) ∧ zlen (mb_Transactions blk) <= maxTxPerBlock ∧ Forall wf_block_tx (mb_Transactions blk).

Lemma tx_decode_iff r tx rest :
  prlDecode WitnessEncoding scriptSlabSize r = Ok (tx, rest) ↔ wf_block_tx tx ∧ r = Serialize tx ++ rest.
Proof.
  split.
  - intros (-> & Hwf & _ & Hne)%prlDecode_ok. split; [split; [exact Hwf|by apply Hne]|done].
  - intros [[Hwf Hne] ->]. change (PrlDecode WitnessEncoding (Serialize tx ++ rest) = Ok (tx, rest)).
    unfold Serialize. rewrite prlDecode_decodes by done. unfold carried.
    destruct (doWitness WitnessEncoding tx) eqn:E; [done|]. by rewrite (strip_no_witness _ E).
Qed.

#[export] Instance tx_codec : Codec wf_block_tx (λ tx, Ok (Serialize tx)) (prlDecode WitnessEncoding scriptSlabSize).
Proof.
  intros r tx rest. rewrite tx_decode_iff. split; [intros [? ->]; eauto|]. by intros [? (s & <-%Ok_inj & ->)].
Qed.

Lemma write_list_ok {A} (f : A → bytes) l : write_list (λ a, Ok (f a)) l = Ok (concat (map f l)).
Proof. induction l as [|a l IH]; [done|]. cbn [write_list]. by rewrite IH. Qed.

Lemma MsgBlock_Serialize_iff blk s :
  MsgBlock_Serialize blk = Ok s ↔
  ∃ h, MsgHeader_PrlEncode (mb_MsgHeader blk) = Ok h ∧
    s = h ++ WriteVarIntBuf (u64 (zlen (mb_Transactions blk))) ++ concat (map Serialize (mb_Transactions blk)).
Proof.
  unfold MsgBlock_Serialize, MsgBlock_PrlEncode. rewrite bind_ok. split.
  - intros (h & Eh & <-%Ok_inj). eauto.
  - intros (h & Eh & ->). eauto.
Qed.

Lemma MsgBlock_txs_iff fn r txs rest :
  (count ← ReadVarIntBuf; if maxTxPerBlock <? count then st_fail (MessageError fn)
   else read_list (Z.to_nat count) (prlDecode WitnessEncoding scriptSlabSize)) r = Ok (txs, rest) ↔
  zlen txs <= maxTxPerBlock ∧ Forall wf_block_tx txs ∧
  r = WriteVarIntBuf (u64 (zlen txs)) ++ concat (map Serialize txs) ++ rest.
Proof.
  rewrite (counted_codec _ _ _ tx_codec) by done. rewrite write_list_ok.
  split; [by intros (? & ? & s & <-%Ok_inj & ->)|]. intros (? & ? & ->). eauto 10.
Qed.

Lemma MsgBlock_codec_iff r blk rest :
  MsgBlock_Deserialize r = Ok (blk, rest) ↔ wf_MsgBlock blk ∧ ∃ s, MsgBlock_Serialize blk = Ok s ∧ r = s ++ rest.
Proof.
  unfold MsgBlock_Deserialize, MsgBlock_PrlDecode. rewrite st_bind_ok. setoid_rewrite MsgBlock_Serialize_iff.
  destruct blk as [mh txs]. unfold wf_MsgBlock. cbn [mb_MsgHeader mb_Transactions]. split.
  - intros (mh' & r' & [Hw (h & Eh & ->)]%codec & E).
    assert (mh' = mh ∧ zlen txs <= maxTxPerBlock ∧ Forall wf_block_tx txs ∧
      r' = WriteVarIntBuf (u64 (zlen txs)) ++ concat (map Serialize txs) ++ rest) as (-> & Hl & Ht & ->).
    { rewrite <-(MsgBlock_txs_iff "MsgBlock.PrlDecode"). rewrite st_bind_ok. apply st_bind_ok in E as (n & s & En & E).
      case_match eqn:Hn; [done|]. apply st_bind_ok in E as (txs' & s' & Et & E). injection E as -> -> ->.
      split; [done|]. exists n, s. by rewrite Hn. }
    split; [done|]. eexists. split; [eauto|]. by rewrite <-!(assoc_L (++)).
  - intros [(Hw & Hl & Ht) (s & (h & Eh & ->) & ->)]. rewrite <-!(assoc_L (++)).
    eexists mh, _. split; [apply codec; eauto|].
    pose proof (proj2 (MsgBlock_txs_iff "MsgBlock.PrlDecode" _ txs rest) (conj Hl (conj Ht eq_refl))) as E.
    apply st_bind_ok in E as (n & s & En & E). apply st_bind_ok. exists n, s. split; [exact En|].
    case_match; [done|]. apply st_bind_ok. exists txs, rest. done.
Qed.

(** ** Where the transactions are *)

Fixpoint locs_from (start : Z) (txs : list MsgTx) : list TxLoc :=
  match txs with
  | [] => []
  | tx :: txs => mkTxLoc start (zlen (Serialize tx)) :: locs_from (start + zlen (Serialize tx)) txs
  end.

Lemma read_locs_iff n r fullLen txs locs rest :
  read_locs n fullLen r = Ok ((txs, locs), rest) ↔
  read_list n (prlDecode WitnessEncoding scriptSlabSize) r = Ok (txs, rest) ∧ locs = locs_from (fullLen - zlen r) txs.
Proof.
  revert r txs locs. induction n as [|n IH]; intros r txs locs; cbn [read_locs read_list].
  { rewrite !ret_iff. split; [by intros [[= <- <-] <-]|by intros [[<- <-] ->]]. }
  rewrite st_bind_ok. split.
  - intros (r' & s & [= <- <-] & (tx & s1 & Etx & (r1 & ? & [= <- <-] & ([txs' locs'] & s2 & El & E)%st_bind_ok)%st_bind_ok)%st_bind_ok).
    injection E as <- <- <-. apply IH in El as [El ->]. apply tx_decode_iff in Etx as [Hw ->].
    split; [apply st_bind_ok; eexists tx, _; split; [by apply tx_decode_iff|]; apply st_bind_ok; eexists _, _; split; [exact El|done]|].
    cbn [locs_from]. rewrite zlen_app. f_equal; [f_equal; lia|f_equal; lia].
  - intros [(tx & s1 & Etx & (txs' & s2 & El & [= <- <-])%st_bind_ok)%st_bind_ok ->].
    exists r, r. split; [done|]. apply st_bind_ok. exists tx, s1. split; [done|]. apply st_bind_ok. exists s1, s1. split; [done|].
    apply st_bind_ok. eexists (txs', _), s2. split; [by apply IH|].
    apply tx_decode_iff in Etx as [Hw ->]. rewrite zlen_app. cbn [locs_from]. cbv [mret st_ret].
    replace (fullLen - zlen s1 - (fullLen - (zlen (Serialize tx) + zlen s1))) with (zlen (Serialize tx)) by lia.
    by replace (fullLen - (zlen (Serialize tx) + zlen s1) + zlen (Serialize tx)) with (fullLen - zlen s1) by lia.
Qed.

Lemma locs_from_spec pre txs rest :
  Forall2 (λ tx loc, go_slice (E:=WireErr) (pre ++ concat (map Serialize txs) ++ rest) (TxStart loc) (TxStart loc + TxLen loc) = Ok (Serialize tx))
    txs (locs_from (zlen pre) txs).
Proof.
  revert pre. induction txs as [|tx txs IH]; intros pre; [constructor|]. cbn [map concat locs_from]. rewrite <-(assoc_L (++)).
  constructor; [cbn [TxStart TxLen]; by apply go_slice_at|].
  specialize (IH (pre ++ Serialize tx)). rewrite zlen_app, <-(assoc_L (++)) in IH. exact IH.
Qed.

(** ** Sizes *)

Lemma header_size h : wf_BlockHeader h → zlen (writeBlockHeader h) = MaxBlockHeaderPayload.
Proof.
  intros (_ & Hp & Hm & _ & _ & Hc). unfold writeBlockHeader. rewrite !zlen_app, !le_u32_size, Hp, Hm, Hc. done.
Qed.

Lemma MsgCertificate_size m s : wf_MsgCertificate m → MsgCertificate_PrlEncode m = Ok s → zlen s = MsgCertificate_SerializeSize m.
Proof.
  intros Hm. rewrite MsgCertificate_write by done. destruct m as [c|]; [|intros <-%Ok_inj; apply le_u32_size].
  intros (t & Et & <-%Ok_inj)%bind_ok. rewrite zlen_app, le_u32_size, (cert_size c t Hm Et). done.
Qed.

Lemma MsgHeader_size mh s : wf_MsgHeader mh → MsgHeader_PrlEncode mh = Ok s → zlen s = MsgHeader_SerializeSize mh.
Proof.
  intros [Hm Hh] (t & Et & <-%Ok_inj)%bind_ok. rewrite zlen_app, header_size by done.
  rewrite (MsgCertificate_size _ t Hm Et). unfold MsgHeader_SerializeSize, header_SerializeSize. lia.
Qed.

Lemma MsgHeader_size_nonneg mh : wf_MsgHeader mh → 0 <= MsgHeader_SerializeSize mh.
Proof.
  intros [Hm _]. unfold MsgHeader_SerializeSize, header_SerializeSize, MaxBlockHeaderPayload, HashSize.
  destruct (mh_Certificate mh) as [[c|c|c]|]; cbn [MsgCertificate_SerializeSize cert_SerializedSize]; [..|lia].
  1: pose proof (zlen_nonneg (v1_ProofData c)); unfold PublicDataSizeV1; lia.
  all: destruct Hm as (_ & Hn & _); pose proof (zlen_nonneg (v2_ProofData c)); unfold is_u32 in Hn; lia.
Qed.

Lemma wf_block_txs_len (txs : list MsgTx) : zlen txs <= maxTxPerBlock → is_u64 (zlen txs).
Proof. pose proof (zlen_nonneg txs). unfold is_u64. change maxTxPerBlock with 400001. lia. Qed.

Lemma Serialize_size tx : wf_block_tx tx → zlen (Serialize tx) = SerializeSize tx.
Proof.
  intros [Hwf _]. unfold Serialize, PrlEncode. rewrite prlEncode_size by done. unfold SerializeSize, doWitness. cbv zeta.
  cbn [bool_decide decide]. by destruct (HasWitness tx).
Qed.

Lemma MsgBlock_size blk s : wf_MsgBlock blk → MsgBlock_Serialize blk = Ok s → zlen s = MsgBlock_SerializeSize blk.
Proof.
  intros (Hh & Hl & Ht) (h & Eh & ->)%MsgBlock_Serialize_iff. pose proof (wf_block_txs_len _ Hl) as Hu.
  rewrite !zlen_app, (MsgHeader_size _ h Hh Eh), WriteVarInt_size by (rewrite u64_small by done; apply Hu).
  rewrite (zlen_concat_map _ SerializeSize) by (eapply Forall_impl; [exact Ht|apply Serialize_size]).
  unfold MsgBlock_SerializeSize. cbv zeta. rewrite foldl_sum. lia.
Qed.

(** What the writer takes and the reader refuses: a proof between the limit of
    the proof and what fits in the limit of the certificate. *)
Lemma oversized_proof c rest :
  zlen (v1_Hash c) = HashSize → zlen (v1_PublicData c) = PublicDataSizeV1 →
  MaxZKProofSize < zlen (v1_ProofData c) <= CertificateMaxSize - 204 →
  ∃ s, MsgCertificate_PrlEncode (Some (CertV1 c)) = Ok s ∧ ∀ m rest', MsgCertificate_PrlDecode (s ++ rest) ≠ Ok (m, rest').
Proof.
  intros Hh Hd [Hlo Hhi]. unfold MsgCertificate_PrlEncode. cbn [MsgCertificate_SerializeSize cert_SerializedSize].
  rewrite (proj2 (Z.ltb_ge _ _)) by (unfold PublicDataSizeV1; lia). eexists. split; [done|].
  intros m rest' [Hm (s & E & Eq)]%codec. revert Eq. cbn [cert_Version].
  rewrite MsgCertificate_write in E by done. destruct m as [c'|]; cbn [from_option wf_MsgCertificate] in Hm.
  2: { apply Ok_inj in E as <-. intros Eq. apply (f_equal (λ l, le_get (take 4 l))) in Eq. done. }
  apply bind_ok in E as (t & Et & <-%Ok_inj). rewrite <-!(assoc_L (++)). intros Eq.
  apply app_inj_1 in Eq as [Ev Eq]; [|by rewrite !length_le_put].
  destruct c' as [c'|c'|c']; [|by apply (f_equal le_get) in Ev..]. cbn [cert_Serialize] in Et. apply Ok_inj in Et as <-.
  destruct Hm as (Hh' & Hd' & Hp'). unfold v1_Serialize in Eq. rewrite <-!(assoc_L (++)) in Eq.
  apply app_inj_1 in Eq as [_ Eq]; [|unfold zlen in *; lia].
  apply app_inj_1 in Eq as [_ Eq]; [|unfold zlen in *; lia].
  apply app_inj_1 in Eq as [En _]; [|by rewrite !length_le_put].
  unfold MaxZKProofSize, CertificateMaxSize in *. apply (f_equal le_get) in En. pose proof (zlen_nonneg (v1_ProofData c')).
  rewrite !u32_small, !le_get_put_u32 in En by (unfold is_u32; lia). lia.
Qed.

(** ** Properties *)

(** C23 the encoding of a block is a codec: [Deserialize] accepts exactly what
    [Serialize] writes of a block within the protocol limits -- a certificate
    of one of three versions or none, the header, the transactions -- and gives
    that block back with the rest of the input.  What was written is as long as
    [SerializeSize] says. *)
Theorem MsgBlock_codec r blk rest :
  (MsgBlock_Deserialize r = Ok (blk, rest) ↔ wf_MsgBlock blk ∧ ∃ s, MsgBlock_Serialize blk = Ok s ∧ r = s ++ rest) ∧
  (wf_MsgBlock blk → ∀ s, MsgBlock_Serialize blk = Ok s → zlen s = MsgBlock_SerializeSize blk).
Proof. split; [apply MsgBlock_codec_iff|intros Hw s; apply MsgBlock_size, Hw]. Qed.

(** [DeserializeTxLoc] reads exactly the blocks that [Deserialize] reads, and
    the start and length it gives for each transaction cut the encoding of that
    transaction out of the input. *)
Theorem block_tx_locations r :
  (∀ blk locs rest, MsgBlock_DeserializeTxLoc r = Ok ((blk, locs), rest) →
    MsgBlock_Deserialize r = Ok (blk, rest) ∧
    Forall2 (λ tx loc, go_slice (E:=WireErr) r (TxStart loc) (TxStart loc + TxLen loc) = Ok (Serialize tx)) (mb_Transactions blk) locs) ∧
  (∀ blk rest, MsgBlock_Deserialize r = Ok (blk, rest) → ∃ locs, MsgBlock_DeserializeTxLoc r = Ok ((blk, locs), rest)).
Proof.
  unfold MsgBlock_Deserialize, MsgBlock_DeserializeTxLoc, MsgBlock_PrlDecode. split.
  - intros blk locs rest (r' & s & [= <- <-] & (mh & s1 & Eh & (n & s2 & En & E)%st_bind_ok)%st_bind_ok)%st_bind_ok.
    revert E. case_match eqn:Hn; [done|]. intros ([txs' locs'] & s3 & [El ->]%read_locs_iff & E)%st_bind_ok. injection E as <- <- <-.
    split.
    + apply st_bind_ok. exists mh, s1. split; [done|]. apply st_bind_ok. exists n, s2. split; [done|]. rewrite Hn.
      apply st_bind_ok. eauto.
    + apply codec in Eh as [_ (h & _ & ->)].
      assert (s2 = concat (map Serialize txs') ++ s3) as ->.
      { apply read_list_codec with (wf := wf_block_tx) (enc := λ tx, Ok (Serialize tx)) in El as [_ (t & Et & ->)]; [|apply _].
        rewrite write_list_ok in Et. by apply Ok_inj in Et as <-. }
      apply ReadVarIntBuf_ok in En as [_ ->]. cbn [mb_Transactions].
      pose proof (locs_from_spec (h ++ WriteVarIntBuf n) txs' s3) as HL. rewrite <-(assoc_L (++)) in HL.
      rewrite (assoc_L (++) h), zlen_app, Z.add_simpl_r, <-(assoc_L (++)). exact HL.
  - intros blk rest (mh & s1 & Eh & (n & s2 & En & E)%st_bind_ok)%st_bind_ok.
    revert E. case_match eqn:Hn; [done|]. intros (txs & s3 & El & [= <- <-])%st_bind_ok. eexists.
    apply st_bind_ok. exists r, r. split; [done|]. apply st_bind_ok. exists mh, s1. split; [done|].
    apply st_bind_ok. exists n, s2. split; [done|]. rewrite Hn. apply st_bind_ok. eexists (txs, _), s3.
    split; [by apply read_locs_iff|done].
Qed.

(** A block of one transaction with a certificate of version 2. *)
Definition demo_cert : CertificateV2 :=
  mkCertificateV2 (replicate 32 x01) 2 ([x0a; x0b] ++ replicate (Z.to_nat (PublicDataMaxSizeV2 - 2)) x00) [x01; x02; x03].

Definition demo_header : BlockHeader :=
  mkBlockHeader 1 (replicate 32 x00) (replicate 32 x02) 1700000000 0x1d00ffff (replicate 32 x03).

Definition demo_block : MsgBlock := mkMsgBlock (mkMsgHeader (Some (CertV3 demo_cert)) demo_header) [demo_tx].

Lemma demo_block_wf : wf_MsgBlock demo_block.
Proof.
  split; [split|split; [done|apply Forall_singleton; split; [apply demo_tx_wf|done]]].
  - refine (conj _ (conj _ (conj _ (conj _ (ex_intro _ [x0a; x0b] (conj _ _)))))); by vm_compute.
  - refine (conj _ (conj _ (conj _ (conj _ (conj _ _))))); by vm_compute.
Qed.

Definition demo_block_bytes : bytes := match MsgBlock_Serialize demo_block with Ok s => s | _ => [] end.

Lemma MsgBlock_codec_witness :
  MsgBlock_Deserialize (demo_block_bytes ++ [xff]) = Ok (demo_block, [xff]) ∧ zlen demo_block_bytes = MsgBlock_SerializeSize demo_block.
Proof.
  assert (MsgBlock_Serialize demo_block = Ok demo_block_bytes) as E by by vm_compute. split.
  - apply (MsgBlock_codec _ demo_block [xff]). split; [apply demo_block_wf|].
    exists demo_block_bytes. exact (conj E eq_refl).
  - exact (proj2 (MsgBlock_codec [] demo_block []) demo_block_wf _ E).
Defined.

Lemma block_tx_locations_witness :
  ∃ locs, MsgBlock_DeserializeTxLoc demo_block_bytes = Ok ((demo_block, locs), []) ∧ locs = [mkTxLoc 158 120].
Proof.
  destruct (proj2 (block_tx_locations demo_block_bytes) demo_block [] ltac:(by vm_compute)) as [locs E].
  exists locs. split; [exact E|]. revert E. vm_compute. congruence.
Defined.
