(* ===== verification/BlockCache.v ===== *)
(** * Blocks and transactions with their caches (btcutil/block.go, tx.go)

    A wrapped transaction keeps its hashes and the bytes it was read from; a
    wrapped block keeps its encodings, its hash and its wrapped transactions,
    made when they are first asked for.  The methods fill the caches, so they
    return the new state too.  A wrapped transaction of a block is shared with
    whoever asked for it; [Block_hash_tx] is [Hash] on it. *)
From stdpp Require Import strings list.
From Stdlib Require Import Lia ZArith.
From S2P Require Import Prelude Wire MsgTx ChainParams Crypto SigHash MsgBlock.

Section cache.
Context `{HashFns}.

(** ** Transactions *)

Definition TxIndexUnknown : Z := -1.

Record Tx := mkTx {
  msgTx : MsgTx;
  txHash : option bytes;
  txHashWitness : option bytes;
  txHasWitness : option bool;
  txIndex : Z;
  rawBytes : option bytes
}.

Definition set_txHash (h : bytes) (t : Tx) : Tx :=
  mkTx (msgTx t) (Some h) (txHashWitness t) (txHasWitness t) (txIndex t) (rawBytes t).
Definition set_txHashWitness (h : bytes) (t : Tx) : Tx :=
  mkTx (msgTx t) (txHash t) (Some h) (txHasWitness t) (txIndex t) (rawBytes t).
Definition set_txHasWitness (b : bool) (t : Tx) : Tx :=
  mkTx (msgTx t) (txHash t) (txHashWitness t) (Some b) (txIndex t) (rawBytes t).
Definition SetIndex (index : Z) (t : Tx) : Tx :=
  mkTx (msgTx t) (txHash t) (txHashWitness t) (txHasWitness t) index (rawBytes t).
Definition setBytes (bs : bytes) (t : Tx) : Tx :=
  mkTx (msgTx t) (txHash t) (txHashWitness t) (txHasWitness t) (txIndex t) (Some bs).

Definition NewTx (m : MsgTx) : Tx := mkTx m None None None TxIndexUnknown None.

Definition Tx_HasWitness (t : Tx) : bool * Tx :=
  match txHasWitness t with
  | Some b => (b, t)
  | None => let hasWitness := HasWitness (msgTx t) in (hasWitness, set_txHasWitness hasWitness t)
  end.

(** The encoding without witnesses, cut out of the raw bytes. *)
Definition stripped_bytes (m : MsgTx) (raw : bytes) : result WireErr bytes :=
  let baseSize := SerializeSizeStripped m in
  let offset := 4 in
  version ← go_slice raw 0 offset;
  let offset := offset + 2 in
  body ← go_slice raw offset (offset + baseSize - 8);
  lockTime ← go_slice raw (zlen raw - 4) (zlen raw);
  Ok (version ++ body ++ lockTime).

Definition Tx_Hash (t : Tx) : result WireErr (bytes * Tx) :=
  match txHash t with
  | Some h => Ok (h, t)
  | None =>
      match rawBytes t with
      | None => let hash := TxHash (msgTx t) in Ok (hash, set_txHash hash t)
      | Some raw =>
          let '(hasWitness, t) := Tx_HasWitness t in
          hash ← (if hasWitness then nonWitnessBytes ← stripped_bytes (msgTx t) raw; Ok (DoubleHashRaw nonWitnessBytes)
                  else Ok (DoubleHashRaw raw));
          Ok (hash, set_txHash hash t)
      end
  end.

Definition Tx_WitnessHash (t : Tx) : bytes * Tx :=
  match txHashWitness t with
  | Some h => (h, t)
  | None =>
      let hash :=
        match rawBytes t with
        | Some raw => if 0 <? zlen raw then DoubleHashH raw else WitnessHash (msgTx t)
        | None => WitnessHash (msgTx t)
        end in
      (hash, set_txHashWitness hash t)
  end.

Definition NewTxFromReader : Reader Tx := m ← Deserialize; mret (NewTx m).

Definition NewTxFromBytes (serializedTx : bytes) : result WireErr Tx :=
  '(tx, br) ← NewTxFromReader serializedTx;
  if 0 <? zlen br then Fail (Errorf "transaction has trailing bytes") else Ok tx.

(** ** Blocks *)

Definition BlockHeightUnknown : Z := -1.

Inductive BlockErr :=
| OutOfRangeError
| WireError (e : WireErr).

Definition lift_wire {A} (r : result WireErr A) : result BlockErr A :=
  match r with Ok a => Ok a | Fail e => Fail (WireError e) | Panic => Panic end.

Record Block := mkBlock {
  msgBlock : MsgBlock;
  serializedBlock : bytes;
  serializedBlockNoWitness : bytes;
  blockHash : option bytes;
  blockHeight : Z;
  transactions : list (option Tx);
  txnsGenerated : bool
}.

Definition set_transactions (txs : list (option Tx)) (gen : bool) (b : Block) : Block :=
  mkBlock (msgBlock b) (serializedBlock b) (serializedBlockNoWitness b) (blockHash b) (blockHeight b) txs gen.
Definition set_serialized (s : bytes) (b : Block) : Block :=
  mkBlock (msgBlock b) s (serializedBlockNoWitness b) (blockHash b) (blockHeight b) (transactions b) (txnsGenerated b).
Definition set_serializedNoWitness (s : bytes) (b : Block) : Block :=
  mkBlock (msgBlock b) (serializedBlock b) s (blockHash b) (blockHeight b) (transactions b) (txnsGenerated b).
Definition set_blockHash (h : bytes) (b : Block) : Block :=
  mkBlock (msgBlock b) (serializedBlock b) (serializedBlockNoWitness b) (Some h) (blockHeight b) (transactions b) (txnsGenerated b).
Definition SetHeight (height : Z) (b : Block) : Block :=
  mkBlock (msgBlock b) (serializedBlock b) (serializedBlockNoWitness b) (blockHash b) height (transactions b) (txnsGenerated b).

Definition Block_Bytes (b : Block) : result WireErr (bytes * Block) :=
  if negb (zlen (serializedBlock b) =? 0) then Ok (serializedBlock b, b)
  else
    s ← MsgBlock_Serialize (msgBlock b);
    Ok (s, set_serialized s b).

Definition Block_BytesNoWitness (b : Block) : result WireErr (bytes * Block) :=
  if negb (zlen (serializedBlockNoWitness b) =? 0) then Ok (serializedBlockNoWitness b, b)
  else
    s ← MsgBlock_SerializeNoWitness (msgBlock b);
    Ok (s, set_serializedNoWitness s b).

Definition Block_Hash (b : Block) : bytes * Block :=
  match blockHash b with
  | Some h => (h, b)
  | None => let hash := MsgBlock_BlockHash (msgBlock b) in (hash, set_blockHash hash b)
  end.

(** The slice that holds the wrapped transactions. *)
Definition alloc (b : Block) : list (option Tx) :=
  if zlen (transactions b) =? 0 then map (λ _, None) (mb_Transactions (msgBlock b)) else transactions b.

Definition Block_Tx (txNum : Z) (b : Block) : result BlockErr (Tx * Block) :=
  let numTx := zlen (mb_Transactions (msgBlock b)) in
  if (txNum <? 0) || (numTx <=? txNum) then Fail OutOfRangeError
  else
    let b := set_transactions (alloc b) (txnsGenerated b) b in
    t ← go_index (transactions b) txNum;
    match t with
    | Some tx => Ok (tx, b)
    | None =>
        m ← go_index (mb_Transactions (msgBlock b)) txNum;
        let newTx := SetIndex txNum (NewTx m) in
        Ok (newTx, set_transactions (<[Z.to_nat txNum := Some newTx]> (transactions b)) (txnsGenerated b) b)
    end.

(** The body of the loop that makes what is missing. *)
Definition make_tx (raw : bytes) (m : MsgTx) (i offset : Z) (tx : option Tx) : result WireErr (Tx * Z) :=
  match tx with
  | Some tx => Ok (tx, offset)
  | None =>
      let newTx := SetIndex i (NewTx m) in
      let size := SerializeSize m in
      if 0 <? zlen raw then
        bs ← go_slice raw offset (offset + size);
        Ok (setBytes bs newTx, offset + size)
      else Ok (newTx, offset)
  end.

Fixpoint txs_loop (raw : bytes) (msgs : list MsgTx) (txs : list (option Tx)) (i offset : Z) : result WireErr (list (option Tx)) :=
  match txs with
  | [] => Ok []
  | tx :: txs =>
      match msgs with
      | [] => Panic
      | m :: msgs =>
          '(tx, offset) ← make_tx raw m i offset tx;
          txs ← txs_loop raw msgs txs (i + 1) offset;
          Ok (Some tx :: txs)
      end
  end.

Definition Block_Transactions (b : Block) : result WireErr (list (option Tx) * Block) :=
  if txnsGenerated b then Ok (transactions b, b)
  else
    let msgs := mb_Transactions (msgBlock b) in
    let offset := MsgHeader_SerializeSize (mb_MsgHeader (msgBlock b)) + VarIntSerializeSize (u64 (zlen msgs)) in
    txs ← txs_loop (serializedBlock b) msgs (alloc b) 0 offset;
    Ok (txs, set_transactions txs true b).

(** [Hash] on the wrapped transaction at a position. *)
Definition Block_hash_tx (i : nat) (b : Block) : result WireErr (option bytes * Block) :=
  match transactions b !! i with
  | Some (Some t) =>
      '(h, t) ← Tx_Hash t;
      Ok (Some h, set_transactions (<[i := Some t]> (transactions b)) (txnsGenerated b) b)
  | _ => Ok (None, b)
  end.

Definition Block_TxHash (txNum : Z) (b : Block) : result BlockErr (option bytes * Block) :=
  '(tx, b) ← Block_Tx txNum b;
  lift_wire (Block_hash_tx (Z.to_nat txNum) b).

Definition Block_TxLoc (b : Block) : result WireErr (list TxLoc * Block) :=
  '(rawMsg, b) ← Block_Bytes b;
  '((mblock, txLocs), rest) ← MsgBlock_DeserializeTxLoc rawMsg;
  Ok (txLocs, b).

Definition NewBlock (m : MsgBlock) : Block := mkBlock m [] [] None BlockHeightUnknown [] false.

Definition NewBlockFromReader : Reader Block := m ← MsgBlock_Deserialize; mret (NewBlock m).

Definition NewBlockFromBytes (s : bytes) : result WireErr Block :=
  '(b, br) ← NewBlockFromReader s;
  if 0 <? zlen br then Fail (Errorf "block has trailing bytes")
  else
    let b := set_serialized s b in
    '(_, b) ← Block_Transactions b;
    Ok b.

Definition NewBlockFromBlockAndBytes (m : MsgBlock) (s : bytes) : result WireErr Block :=
  let b := set_serialized s (NewBlock m) in
  '(_, b) ← Block_Transactions b;
  Ok b.

(** ** Faithful caches *)

(** Everything kept with a transaction is what it would be computed as. *)
Definition tx_ok (m : MsgTx) (i : Z) (t : Tx) : Prop :=
  msgTx t = m ∧ txIndex t = i ∧
  (∀ h, txHash t = Some h → h = TxHash m) ∧ (∀ h, txHashWitness t = Some h → h = WitnessHash m) ∧
  (∀ b, txHasWitness t = Some b → b = HasWitness m) ∧ (∀ raw, rawBytes t = Some raw → raw = Serialize m).

Lemma Serialize_witness m :
  HasWitness m = true →
  ∃ body wit, Serialize m = le_put 4 (u32 (tx_Version m)) ++ [z2b TxFlagMarker; z2b WitnessFlag] ++ body ++ wit ++ le_put 4 (tx_LockTime m) ∧
    SerializeNoWitness m = le_put 4 (u32 (tx_Version m)) ++ body ++ le_put 4 (tx_LockTime m).
Proof.
  intros Hw. exists (WriteVarIntBuf (u64 (zlen (tx_TxIn m))) ++ concat (map writeTxInBuf (tx_TxIn m)) ++
    WriteVarIntBuf (u64 (zlen (tx_TxOut m))) ++ concat (map WriteTxOutBuf (tx_TxOut m))),
    (concat (map (λ ti, writeTxWitnessBuf (Witness ti)) (tx_TxIn m))).
  unfold Serialize, SerializeNoWitness, PrlEncode, prlEncode. rewrite Hw.
  split; [rewrite bool_decide_eq_true_2 by done|rewrite bool_decide_eq_false_2 by done];
    cbn [andb]; cbv zeta iota; rewrite <-!(assoc_L (++)); done.
Qed.

Lemma SerializeNoWitness_size m : wf_MsgTx m → zlen (SerializeNoWitness m) = SerializeSizeStripped m.
Proof. intros Hwf. apply (prlEncode_size BaseEncoding m Hwf). Qed.

Lemma stripped_bytes_ok m :
  wf_MsgTx m → HasWitness m = true → stripped_bytes m (Serialize m) = Ok (SerializeNoWitness m).
Proof.
  intros Hwf Hw. destruct (Serialize_witness m Hw) as (body & wit & Es & En).
  pose proof (SerializeNoWitness_size m Hwf) as Hl. rewrite En, !zlen_app, !le_u32_size in Hl.
  unfold stripped_bytes. cbv zeta. rewrite Es, go_slice_prefix by by rewrite le_u32_size.
  cbv [mbind result_bind]. rewrite (assoc_L (++) (le_put 4 _)), go_slice_at;
    [|by rewrite zlen_app, le_u32_size|rewrite zlen_app, le_u32_size; change (zlen [_; _]) with 2; lia].
  rewrite !(assoc_L (++)), go_slice_tail by (rewrite !zlen_app, !le_u32_size; lia). rewrite En. by rewrite !(assoc_L (++)).
Qed.

Lemma Serialize_no_witness m : HasWitness m = false → Serialize m = SerializeNoWitness m.
Proof. intros Hw. unfold Serialize, SerializeNoWitness, PrlEncode, prlEncode. rewrite Hw, andb_false_r. done. Qed.

Lemma Tx_HasWitness_ok m i t : tx_ok m i t → (Tx_HasWitness t).1 = HasWitness m ∧ tx_ok m i (Tx_HasWitness t).2.
Proof.
  intros Hok. pose proof Hok as (Hm & Hi & Hh & Hw & Hb & Hr). unfold Tx_HasWitness. destruct (txHasWitness t) as [b|] eqn:E.
  - split; [by apply Hb|exact Hok].
  - split; [by rewrite <-Hm|]. unfold tx_ok. cbn. split_and!; try done. intros b [= <-]. by rewrite Hm.
Qed.

Lemma Tx_Hash_ok m i t : wf_MsgTx m → tx_ok m i t → ∃ t', Tx_Hash t = Ok (TxHash m, t') ∧ tx_ok m i t'.
Proof.
  intros Hwf Hok. pose proof Hok as (Hm & Hi & Hh & Hw & Hb & Hr). unfold Tx_Hash.
  destruct (txHash t) as [h|] eqn:Eh; [exists t; by rewrite (Hh h)|].
  assert (∀ t, tx_ok m i t → tx_ok m i (set_txHash (TxHash m) t)) as Hset.
  { intros t' (? & ? & ? & ? & ? & ?). unfold tx_ok. cbn. split_and!; try done. by intros ? [= <-]. }
  destruct (rawBytes t) as [raw|] eqn:Er; [|rewrite Hm; eauto].
  destruct (Tx_HasWitness_ok m i t Hok) as [E1 Hok']. destruct (Tx_HasWitness t) as [b t']. cbn [fst snd] in *. subst b.
  rewrite (Hr raw eq_refl). pose proof Hok' as (Hm' & _). rewrite Hm'.
  destruct (HasWitness m) eqn:Ew; [rewrite stripped_bytes_ok by done|rewrite Serialize_no_witness by done];
    eexists; (split; [reflexivity|by apply Hset]).
Qed.

Lemma Tx_WitnessHash_ok m i t : tx_ok m i t → (Tx_WitnessHash t).1 = WitnessHash m ∧ tx_ok m i (Tx_WitnessHash t).2.
Proof.
  intros Hok. pose proof Hok as (Hm & Hi & Hh & Hw & Hb & Hr). unfold Tx_WitnessHash.
  destruct (txHashWitness t) as [h|] eqn:Eh; [by rewrite (Hw h)|]. cbn [fst snd].
  assert (match rawBytes t with
    | Some raw => if 0 <? zlen raw then DoubleHashH raw else WitnessHash (msgTx t)
    | None => WitnessHash (msgTx t) end = WitnessHash m) as ->.
  { rewrite Hm. destruct (rawBytes t) as [raw|]; [|done]. rewrite (Hr _ eq_refl). case_match; [|done].
    unfold WitnessHash. destruct (HasWitness m) eqn:Ew; [done|]. by rewrite Serialize_no_witness. }
  split; [done|]. unfold tx_ok. cbn. split_and!; try done. by intros ? [= <-].
Qed.

(** The wrapped transactions that were made are faithful. *)
Definition txs_ok (msgs : list MsgTx) (txs : list (option Tx)) : Prop :=
  length txs = length msgs ∧
  ∀ i t, txs !! i = Some (Some t) → ∃ m, msgs !! i = Some m ∧ tx_ok m (Z.of_nat i) t.

Definition all_made (txs : list (option Tx)) : Prop := ∀ i, txs !! i ≠ Some None.

Record block_ok (b : Block) : Prop := {
  ok_wf : wf_MsgBlock (msgBlock b);
  ok_bytes : serializedBlock b = [] ∨ MsgBlock_Serialize (msgBlock b) = Ok (serializedBlock b);
  ok_nowit : serializedBlockNoWitness b = [] ∨ MsgBlock_SerializeNoWitness (msgBlock b) = Ok (serializedBlockNoWitness b);
  ok_hash : ∀ h, blockHash b = Some h → h = MsgBlock_BlockHash (msgBlock b);
  ok_txs : txs_ok (mb_Transactions (msgBlock b)) (alloc b);
  ok_made : txnsGenerated b = true → transactions b = alloc b ∧ all_made (transactions b)
}.

(** The block has no encoding yet, or all its wrapped transactions. *)
Definition settled (b : Block) : Prop := serializedBlock b = [] ∨ txnsGenerated b = true.

Definition faithful (b : Block) : Prop := block_ok b ∧ settled b.

Lemma txs_ok_none msgs : txs_ok msgs (map (λ _, None) msgs).
Proof. split; [by rewrite length_map|]. intros i t Hi. apply list_lookup_fmap_Some in Hi as (? & [=] & _). Qed.

Lemma NewTx_ok m i : tx_ok m i (SetIndex i (NewTx m)).
Proof. unfold tx_ok. cbn. by split_and!. Qed.

Lemma setBytes_ok m i t : tx_ok m i t → tx_ok m i (setBytes (Serialize m) t).
Proof. intros (? & ? & ? & ? & ? & ?). unfold tx_ok. cbn. split_and!; try done. by intros ? [= <-]. Qed.

Lemma txs_ok_insert msgs txs i m t :
  txs_ok msgs txs → msgs !! i = Some m → tx_ok m (Z.of_nat i) t → txs_ok msgs (<[i := Some t]> txs).
Proof.
  intros [Hl Ht] Hm Hok. split; [by rewrite length_insert|]. intros j t' Hj.
  apply list_lookup_insert_Some in Hj as [(<- & [= <-] & _)|[_ Hj]]; eauto.
Qed.

Lemma Serialize_pos m : 0 < zlen (Serialize m).
Proof.
  unfold Serialize, PrlEncode, prlEncode. cbv zeta. rewrite zlen_app, le_u32_size.
  match goal with |- context[_ + zlen ?l] => pose proof (zlen_nonneg l); lia end.
Qed.

(** The loop makes the missing ones; it cuts their bytes out of the encoding
    when there is one and none was made before. *)
Lemma txs_loop_ok raw pre msgs rest txs i :
  Forall wf_block_tx msgs → length txs = length msgs →
  (∀ j t, txs !! j = Some (Some t) → ∃ m, msgs !! j = Some m ∧ tx_ok m (i + Z.of_nat j) t) →
  raw = [] ∨ (Forall (eq None) txs ∧ raw = pre ++ concat (map Serialize msgs) ++ rest) →
  ∃ txs', txs_loop raw msgs txs i (zlen pre) = Ok txs' ∧ length txs' = length msgs ∧ all_made txs' ∧
    ∀ j t, txs' !! j = Some (Some t) → ∃ m, msgs !! j = Some m ∧ tx_ok m (i + Z.of_nat j) t.
Proof.
  revert msgs txs i pre. induction msgs as [|m msgs IH]; intros txs i pre Hwf Hl Hok Hraw; destruct txs as [|o txs]; try done.
  { exists []. by split_and!. }
  apply Forall_cons in Hwf as [Hm Hwf]. injection Hl as Hl. cbn [txs_loop].
  assert (∀ j t, txs !! j = Some (Some t) → ∃ m, msgs !! j = Some m ∧ tx_ok m (i + 1 + Z.of_nat j) t) as Hok'.
  { intros j t Hj. destruct (Hok (S j) t Hj) as (m' & Hm' & Ht). exists m'. split; [done|].
    replace (i + 1 + Z.of_nat j) with (i + Z.of_nat (S j)) by lia. done. }
  assert (∃ t pre', make_tx raw m i (zlen pre) o = Ok (t, zlen pre') ∧ tx_ok m i t ∧
      (raw = [] ∨ (Forall (eq None) txs ∧ raw = pre' ++ concat (map Serialize msgs) ++ rest))) as (t & pre' & E & Ht & Hraw').
  { unfold make_tx. cbv zeta. destruct Hraw as [->|[Hnone ->]].
    - destruct o as [t|].
      + exists t, pre. split; [done|split; [|by left]]. destruct (Hok 0%nat t eq_refl) as (m' & [= <-] & Ht).
        by rewrite Z.add_0_r in Ht.
      + exists (SetIndex i (NewTx m)), pre. split; [done|split; [apply NewTx_ok|by left]].
    - apply Forall_cons in Hnone as [<- Hnone]. exists (setBytes (Serialize m) (SetIndex i (NewTx m))), (pre ++ Serialize m).
      cbn [map concat]. rewrite <-(assoc_L (++)), (proj2 (Z.ltb_lt 0 _)).
      + rewrite go_slice_at by (done || by rewrite Serialize_size). rewrite zlen_app, Serialize_size by done.
        split; [done|split; [apply setBytes_ok, NewTx_ok|right; by rewrite <-(assoc_L (++))]].
      + rewrite !zlen_app. pose proof (zlen_nonneg pre). pose proof (zlen_nonneg (concat (map Serialize msgs))).
        pose proof (zlen_nonneg rest). pose proof (Serialize_pos m). lia. }
  rewrite E. cbv [mbind result_bind].
  destruct (IH txs (i + 1) pre' Hwf Hl Hok' Hraw') as (txs' & E' & Hl' & Hmade & Hok2). rewrite E'.
  exists (Some t :: txs'). split; [done|]. split; [cbn; lia|]. split; [intros [|j]; [done|apply Hmade]|].
  intros [|j] t' Hj; [injection Hj as <-; exists m; rewrite Z.add_0_r; done|].
  destruct (Hok2 j t' Hj) as (m' & Hm' & Ht'). exists m'. split; [done|].
  by replace (i + Z.of_nat (S j)) with (i + 1 + Z.of_nat j) by lia.
Qed.

Lemma go_index_nat {E A} (l : list A) n x : l !! n = Some x → go_index (E:=E) l (Z.of_nat n) = Ok x.
Proof. intros Hn. apply go_index_lookup; [lia|by rewrite Nat2Z.id]. Qed.

(** *** The methods keep the caches faithful *)

Lemma alloc_set txs gen b :
  length txs = length (mb_Transactions (msgBlock b)) → alloc (set_transactions txs gen b) = txs.
Proof.
  intros Hl. unfold alloc, set_transactions. cbn [transactions msgBlock]. destruct txs as [|o txs]; [|done].
  destruct (mb_Transactions (msgBlock b)); done.
Qed.

Lemma set_transactions_ok txs gen b :
  block_ok b → txs_ok (mb_Transactions (msgBlock b)) txs → (gen = true → all_made txs) → block_ok (set_transactions txs gen b).
Proof.
  intros [Hwf Hb Hn Hh Ht Hm] Hok Hmade. pose proof (alloc_set txs gen b (proj1 Hok)) as E.
  constructor; try done; [by rewrite E|]. intros Hg. rewrite E. split; [done|by apply Hmade].
Qed.

Lemma Block_Tx_ok i b m :
  faithful b → mb_Transactions (msgBlock b) !! i = Some m →
  ∃ t b', Block_Tx (Z.of_nat i) b = Ok (t, b') ∧ tx_ok m (Z.of_nat i) t ∧ faithful b' ∧
    msgBlock b' = msgBlock b ∧ serializedBlock b' = serializedBlock b ∧ transactions b' !! i = Some (Some t).
Proof.
  intros [Hok Hs] Hm. pose proof (lookup_lt_Some _ _ _ Hm) as Hi. destruct (ok_txs b Hok) as [Hl Ht].
  unfold Block_Tx. cbv zeta. rewrite orb_false_intro by (rewrite ?Z.ltb_ge, ?Z.leb_gt; unfold zlen; lia).
  destruct (lookup_lt_is_Some_2 (alloc b) i ltac:(lia)) as [o Ho].
  assert (∀ gen, txnsGenerated b = gen → gen = true → all_made (alloc b)) as Hmade.
  { intros gen <- Hg. destruct (ok_made b Hok Hg) as [<- ?]. done. }
  cbn [transactions set_transactions msgBlock txnsGenerated].
  rewrite (go_index_nat _ _ _ Ho). cbv [mbind result_bind]. destruct o as [t|].
  - exists t, (set_transactions (alloc b) (txnsGenerated b) b). destruct (Ht i t Ho) as (m' & Hm' & Hokt).
    rewrite Hm in Hm'. injection Hm' as <-.
    split; [done|]. split; [exact Hokt|]. split; [|by split_and!].
    split; [|exact Hs]. apply set_transactions_ok; [done|by split|]. by apply Hmade.
  - rewrite (go_index_nat _ _ _ Hm), Nat2Z.id. eexists _, _. split; [done|].
    split; [apply NewTx_ok|]. split; [|split_and!; [done..|]].
    + assert (txnsGenerated b ≠ true) as Hg by (intros Hg; by apply (Hmade _ eq_refl Hg i)).
      split; [|destruct Hs as [Hs|Hs]; [by left|by rewrite Hs in Hg]].
      apply (set_transactions_ok _ _ (set_transactions (alloc b) (txnsGenerated b) b)); [apply set_transactions_ok; [done|by split|by apply Hmade]|..|done].
      apply txs_ok_insert with m; [done..|apply NewTx_ok].
    + cbn. apply list_lookup_insert_eq. lia.
Qed.

Lemma Block_Transactions_ok b :
  block_ok b → serializedBlock b = [] ∨ txnsGenerated b = true ∨ transactions b = [] →
  ∃ txs b', Block_Transactions b = Ok (txs, b') ∧ faithful b' ∧ msgBlock b' = msgBlock b ∧
    txs_ok (mb_Transactions (msgBlock b)) txs ∧ all_made txs ∧ txnsGenerated b' = true ∧ serializedBlock b' = serializedBlock b.
Proof.
  intros Hok Hs. unfold Block_Transactions. destruct (txnsGenerated b) eqn:Eg.
  { destruct (ok_made b Hok Eg) as [Ea Hm]. exists (transactions b), b.
    split; [done|]. split; [split; [done|by right]|]. split; [done|]. split; [rewrite Ea; by apply ok_txs|done]. }
  destruct (ok_wf b Hok) as (Hmh & Hlen & Htx). destruct (ok_txs b Hok) as [Hl Ht]. cbv zeta.
  assert (∃ pre rest, zlen pre = MsgHeader_SerializeSize (mb_MsgHeader (msgBlock b)) +
      VarIntSerializeSize (u64 (zlen (mb_Transactions (msgBlock b)))) ∧
    (serializedBlock b = [] ∨ (Forall (eq None) (alloc b) ∧
      serializedBlock b = pre ++ concat (map Serialize (mb_Transactions (msgBlock b))) ++ rest))) as (pre & rest & Hpre & Hraw).
  { destruct (ok_bytes b Hok) as [E|E].
    - exists (replicate (Z.to_nat (MsgHeader_SerializeSize (mb_MsgHeader (msgBlock b)) +
        VarIntSerializeSize (u64 (zlen (mb_Transactions (msgBlock b)))))) x00), []. split; [|by left].
      unfold zlen at 1. rewrite length_replicate, Z2Nat.id; [done|]. pose proof (MsgHeader_size_nonneg (mb_MsgHeader (msgBlock b)) Hmh).
      unfold VarIntSerializeSize. repeat case_match; lia.
    - apply MsgBlock_Serialize_iff in E as (h & Eh & E).
      exists (h ++ WriteVarIntBuf (u64 (zlen (mb_Transactions (msgBlock b))))), []. split.
      + rewrite zlen_app, (MsgHeader_size _ h Hmh Eh), WriteVarInt_size; [done|].
        rewrite u64_small by (apply (wf_block_txs_len _ Hlen)). apply zlen_nonneg.
      + destruct Hs as [Hs|[Hs|Hs]]; [by left|done|]. right. split; [|by rewrite app_nil_r, <-(assoc_L (++))].
        unfold alloc. rewrite Hs. cbn. apply Forall_fmap, Forall_true. done. }
  rewrite <-Hpre.
  destruct (txs_loop_ok (serializedBlock b) pre _ rest (alloc b) 0 Htx Hl Ht Hraw) as (txs & E & Hl' & Hm & Ht'). rewrite E.
  exists txs, (set_transactions txs true b). split; [done|].
  split; [split; [apply set_transactions_ok; [done|by split|done]|by right]|]. done.
Qed.

Lemma Block_TxHash_ok i b m :
  faithful b → mb_Transactions (msgBlock b) !! i = Some m →
  ∃ b', Block_TxHash (Z.of_nat i) b = Ok (Some (TxHash m), b') ∧ faithful b' ∧ msgBlock b' = msgBlock b.
Proof.
  intros Hb Hm. destruct (Block_Tx_ok i b m Hb Hm) as (t & b' & E & Ht & [Hok Hs] & Em & Es & Hi).
  assert (wf_MsgTx m) as Hwf.
  { destruct (ok_wf b (proj1 Hb)) as (_ & _ & Hw). rewrite Forall_lookup in Hw. by apply (Hw i m). }
  destruct (Tx_Hash_ok m _ t Hwf Ht) as (t' & Et & Ht').
  unfold Block_TxHash. rewrite E. cbv [mbind result_bind]. rewrite Nat2Z.id. unfold Block_hash_tx. rewrite Hi, Et.
  eexists. split; [reflexivity|]. split; [|done]. split; [|exact Hs].
  assert (alloc b' = transactions b') as Ea.
  { unfold alloc. destruct (transactions b') as [|o l]; [done|]. rewrite zlen_cons.
    rewrite (proj2 (Z.eqb_neq _ _)); [done|]. pose proof (zlen_nonneg l). lia. }
  apply set_transactions_ok; [done| |].
  - apply txs_ok_insert with m; [rewrite <-Ea; by apply ok_txs|by rewrite Em|done].
  - intros Hg j. destruct (ok_made b' Hok Hg) as [_ Hmade]. intros [(_ & [=] & _)|[_ Hj]]%list_lookup_insert_Some.
    by apply (Hmade j).
Qed.

Lemma Block_Hash_ok b :
  faithful b → (Block_Hash b).1 = MsgBlock_BlockHash (msgBlock b) ∧ faithful (Block_Hash b).2 ∧ msgBlock (Block_Hash b).2 = msgBlock b.
Proof.
  intros Hb. unfold Block_Hash. destruct (blockHash b) as [h|] eqn:E; [split; [by apply (ok_hash b (proj1 Hb))|done]|].
  split; [done|]. split; [|done]. destruct Hb as [[Hwf Hby Hn Hh Ht Hm] Hs]. split; [|exact Hs].
  constructor; try done. by intros ? [= <-].
Qed.

Lemma serialized_nonempty b s : MsgBlock_Serialize b = Ok s → s ≠ [].
Proof.
  intros (h & _ & ->)%MsgBlock_Serialize_iff E. apply app_eq_nil in E as [_ E]. apply app_eq_nil in E as [E _].
  unfold WriteVarIntBuf in E. repeat case_match; done.
Qed.

Lemma Block_Bytes_ok b s b' :
  block_ok b → Block_Bytes b = Ok (s, b') →
  MsgBlock_Serialize (msgBlock b) = Ok s ∧ block_ok b' ∧ msgBlock b' = msgBlock b ∧ txnsGenerated b' = txnsGenerated b.
Proof.
  intros [Hwf Hb Hn Hh Ht Hm]. unfold Block_Bytes. destruct (Z.eqb_spec (zlen (serializedBlock b)) 0) as [E|E]; cbn [negb].
  - intros (s' & Es & [= <- <-])%bind_ok. split; [done|]. split; [|done]. constructor; try done. by right.
  - intros [= <- <-]. destruct Hb as [Hb|Hb]; [by rewrite Hb in E|]. split; [done|]. split; [by constructor; auto|done].
Qed.

Lemma NewBlock_ok m : wf_MsgBlock m → block_ok (NewBlock m).
Proof.
  intros Hwf. constructor; cbn; try done; [by left|by left|apply txs_ok_none].
Qed.

(** Wrapping all the transactions of a message with its encoding. *)
Lemma from_bytes_ok m s :
  wf_MsgBlock m → MsgBlock_Serialize m = Ok s →
  ∃ txs b, Block_Transactions (set_serialized s (NewBlock m)) = Ok (txs, b) ∧ faithful b ∧ msgBlock b = m ∧ txnsGenerated b = true ∧ serializedBlock b = s.
Proof.
  intros Hwf Es. assert (block_ok (set_serialized s (NewBlock m))) as Hok.
  { destruct (NewBlock_ok m Hwf). constructor; try done. by right. }
  destruct (Block_Transactions_ok _ Hok) as (txs & b & Eb & Hf & Em & _ & _ & Hg & Hs); [by right; right|]. by exists txs, b.
Qed.

(** Given the message too, the block is the same. *)
Lemma NewBlockFromBlockAndBytes_same m s :
  wf_MsgBlock m → MsgBlock_Serialize m = Ok s → NewBlockFromBlockAndBytes m s = NewBlockFromBytes s.
Proof.
  intros Hwf Es. unfold NewBlockFromBlockAndBytes, NewBlockFromBytes, NewBlockFromReader. cbv [mbind st_bind mret st_ret result_bind].
  by rewrite (proj2 (MsgBlock_codec_iff s m [])) by (split; [done|]; exists s; by rewrite app_nil_r).
Qed.

(** What a block from bytes is: the encoding of its message, all of it wrapped. *)
Lemma NewBlockFromBytes_made s b :
  NewBlockFromBytes s = Ok b →
  MsgBlock_Deserialize s = Ok (msgBlock b, []) ∧ faithful b ∧ txnsGenerated b = true ∧ serializedBlock b = s.
Proof.
  unfold NewBlockFromBytes, NewBlockFromReader. intros ([b0 rest] & (m & s' & E & [= <- <-])%st_bind_ok & E2)%bind_ok. case_match eqn:Hz; [done|].
  assert (s' = []) as -> by (destruct s' as [|x s']; [done|]; rewrite zlen_cons in Hz; pose proof (zlen_nonneg s'); apply Z.ltb_ge in Hz; lia).
  pose proof (proj1 (MsgBlock_codec_iff _ _ _) E) as (Hwf & t & Et & Es). rewrite app_nil_r in Es. subst t.
  destruct (from_bytes_ok m s Hwf Et) as (txs & b1 & Eb & Hf & Em & Hg & Hs).
  cbv zeta in E2. rewrite Eb in E2. injection E2 as <-. by rewrite Em.
Qed.

(** Nothing but the reading of the message can refuse the bytes. *)
Lemma NewBlockFromBytes_accepts s m : wf_MsgBlock m → MsgBlock_Serialize m = Ok s → ∃ b, NewBlockFromBytes s = Ok b ∧ msgBlock b = m.
Proof.
  intros Hwf Es. unfold NewBlockFromBytes, NewBlockFromReader. cbv [mbind st_bind mret st_ret result_bind].
  rewrite (proj2 (MsgBlock_codec_iff s m [])) by (split; [done|]; exists s; by rewrite app_nil_r).
  change (0 <? zlen []) with false. cbv iota. destruct (from_bytes_ok m s Hwf Es) as (txs & b & -> & _ & Em & _). by exists b.
Qed.

Lemma NewBlockFromBytes_iff s m :
  (∃ b, NewBlockFromBytes s = Ok b ∧ msgBlock b = m) ↔ wf_MsgBlock m ∧ MsgBlock_Serialize m = Ok s.
Proof.
  split; [|intros [Hwf Es]; by apply NewBlockFromBytes_accepts].
  intros (b & (E & _)%NewBlockFromBytes_made & <-). apply MsgBlock_codec_iff in E as (Hwf & t & Et & ->). by rewrite app_nil_r.
Qed.

(** ** Properties *)

(** C24 the caches of a block agree with the block.  For a block made from bytes,
    or from a message as long as its encoding is not asked for before its
    wrapped transactions: its hash is that of its header; the hash of each
    transaction, which is computed from a slice of the block's encoding with the
    witnesses cut out where there is one, is the transaction id; the wrapped
    transactions carry their own encodings; an index out of range is an error;
    and all of this leaves the caches right.  [NewBlockFromBytes] gives a block
    for every encoding of a block within the limits and for nothing else; it is
    the block that was encoded, it keeps the encoding, and all its transactions
    are wrapped. *)
Theorem cached_block_spec b :
  (∀ s m, (∃ b', NewBlockFromBytes s = Ok b' ∧ msgBlock b' = m) ↔ wf_MsgBlock m ∧ MsgBlock_Serialize m = Ok s) ∧
  (∀ s, NewBlockFromBytes s = Ok b → faithful b ∧ txnsGenerated b = true ∧ serializedBlock b = s ∧ MsgBlock_Deserialize s = Ok (msgBlock b, [])) ∧
  (faithful b →
   ((Block_Hash b).1 = MsgBlock_BlockHash (msgBlock b) ∧ faithful (Block_Hash b).2) ∧
   (∀ i m, mb_Transactions (msgBlock b) !! i = Some m →
     ∃ b', Block_TxHash (Z.of_nat i) b = Ok (Some (TxHash m), b') ∧ faithful b') ∧
   (∀ i, ¬ 0 <= i < zlen (mb_Transactions (msgBlock b)) → Block_TxHash i b = Fail OutOfRangeError) ∧
   (∃ txs b', Block_Transactions b = Ok (txs, b') ∧ faithful b' ∧ length txs = length (mb_Transactions (msgBlock b)) ∧
     ∀ i m, mb_Transactions (msgBlock b) !! i = Some m →
       ∃ t, txs !! i = Some (Some t) ∧ msgTx t = m ∧ txIndex t = Z.of_nat i ∧ ∀ raw, rawBytes t = Some raw → raw = Serialize m) ∧
   (∀ s b', Block_Bytes b = Ok (s, b') →
     MsgBlock_Serialize (msgBlock b) = Ok s ∧ (txnsGenerated b = true → faithful b'))).
Proof.
  split; [apply NewBlockFromBytes_iff|]. split; [intros s (? & ? & ? & ?)%NewBlockFromBytes_made; done|].
  intros Hb. split; [by destruct (Block_Hash_ok b Hb) as (? & ? & _)|]. split; [|split; [|split]].
  - intros i m Hm. destruct (Block_TxHash_ok i b m Hb Hm) as (b' & E & Hf & _). eauto.
  - intros i Hi. unfold Block_TxHash, Block_Tx. cbv zeta. rewrite (proj2 (orb_true_iff _ _)); [done|].
    rewrite Z.ltb_lt, Z.leb_le. lia.
  - destruct (Block_Transactions_ok b (proj1 Hb)) as (txs & b' & E & Hf & _ & [Hl Ht] & Hm & _).
    { destruct (proj2 Hb); auto. }
    exists txs, b'. split; [done|]. split; [done|]. split; [done|]. intros i m Hi.
    destruct (lookup_lt_is_Some_2 txs i) as [[t|] Ho]; [rewrite Hl; by apply lookup_lt_Some in Hi| |by destruct (Hm i)].
    exists t. split; [done|]. destruct (Ht i t Ho) as (m' & Hm' & (? & ? & _ & _ & _ & ?)).
    rewrite Hi in Hm'. injection Hm' as <-. done.
  - intros s b' E. destruct (Block_Bytes_ok b s b' (proj1 Hb) E) as (Es & Hok & _ & Eg). split; [done|].
    intros Hg. split; [done|]. right. by rewrite Eg.
Qed.
End cache.

(** Asking for one transaction, then for the encoding, then for all of them
    gives the second one the bytes of the first. *)
Definition demo_tx2 : MsgTx := mkMsgTx 1 [mkTxIn (mkOutPoint (repeat x33 32) 1) [] [] 0] [mkTxOut 7 [x51]] 3.
Definition demo_block2 : MsgBlock := mkMsgBlock (mb_MsgHeader demo_block) [demo_tx; demo_tx2].

Definition sparse_txs : option (list (option Tx)) :=
  match Block_Tx 0 (NewBlock demo_block2) with
  | Ok (_, b) =>
      match Block_Bytes b with
      | Ok (_, b) => match Block_Transactions b with Ok (txs, _) => Some txs | _ => None end
      | _ => None
      end
  | _ => None
  end.

Lemma sparse_block_wrong_bytes :
  ∃ txs t raw, sparse_txs = Some txs ∧ txs !! 1%nat = Some (Some t) ∧ msgTx t = demo_tx2 ∧ rawBytes t = Some raw ∧
    take (length raw) (Serialize demo_tx) = raw ∧ raw ≠ Serialize demo_tx2.
Proof.
  eexists _, _, _. split; [by vm_compute|]. split; [reflexivity|]. split; [by vm_compute|]. split; [reflexivity|].
  split; [by vm_compute|by vm_compute].
Qed.

#[local] Existing Instance toy_hashes.

Lemma demo_block2_wf : wf_MsgBlock demo_block2.
Proof.
  destruct demo_block_wf as (Hh & _ & Ht). split; [exact Hh|]. split; [done|]. apply Forall_cons. split.
  - exact (Forall_inv Ht).
  - apply Forall_singleton. split; [|done]. unfold wf_MsgTx, wf_TxIn, wf_TxOut, wf_TxWitness, wf_OutPoint, wf_script, demo_tx2.
    cbn [tx_Version tx_TxIn tx_TxOut tx_LockTime]. split_and!; repeat constructor; vm_compute; congruence.
Qed.

Definition demo_bytes2 : bytes := match MsgBlock_Serialize demo_block2 with Ok s => s | _ => [] end.

Lemma cached_block_spec_witness :
  ∃ b b', NewBlockFromBytes demo_bytes2 = Ok b ∧ Block_TxHash 1 b = Ok (Some (TxHash demo_tx2), b') ∧ faithful b'.
Proof.
  destruct (proj2 (proj1 (cached_block_spec (NewBlock demo_block2)) demo_bytes2 demo_block2)) as (b & E & Em).
  { split; [exact demo_block2_wf|by vm_compute]. }
  destruct (proj1 (proj2 (cached_block_spec b)) demo_bytes2 E) as (Hf & _).
  destruct (proj1 (proj2 (proj2 (proj2 (cached_block_spec b)) Hf)) 1%nat demo_tx2) as (b' & Eh & Hf'); [by rewrite Em|].
  change (Z.of_nat 1) with 1 in Eh. exists b, b'. exact (conj E (conj Eh Hf')).
Defined.
