(* ===== verification/Engine.v ===== *)
(** * The script engine ([node/txscript/engine.go], the handlers of [opcode.go])

    The state of the virtual machine, a definition per opcode handler, and the
    stepping of the scripts with the validation of the witness program between
    the public key script and the tapscript leaf.

    The fields the constructor sets and nothing changes are in [Config]; the
    others are the state.  An error ends the execution (the source leaves the
    engine undefined then), so a handler returns either the new state or the
    error.  The debugging callback is nil. *)
From stdpp Require Import strings.
From Stdlib Require Import Lia ZArith.
From S2P Require Import Prelude Wire MsgTx ScriptError ScriptNum Stack Opcode Tokenizer Standard Crypto Taproot SigCache SigHash.

Definition MaxStackSize : Z := 1000.
Definition payToTaprootDataSize : Z := 32.
Definition payToMerkleRootDataSize : Z := 32.
Definition BaseSegwitWitnessVersion : Z := 0.
Definition TaprootWitnessVersion : Z := 1.
Definition MerkleRootWitnessVersion : Z := 2.
Definition LockTimeThreshold : Z := 500000000.
Definition sigOpsDelta : Z := 50.
Definition xmss_PKLen : Z := 64.
Definition xmss_SignatureLen : Z := 2340.
Definition numSigChunks : Z := 5.
Definition sigChunkSize : Z := xmss_SignatureLen / numSigChunks.

(** ** State *)

Record tapscriptExecutionCtx := mkTapCtx {
  tc_annex : option bytes;
  tc_codeSepPos : Z;
  tc_tapLeafHash : bytes;
  tc_opsBudget : Z
}.

Definition newTapscriptExecutionCtx (witnessSize : Z) (annex : option bytes) (tapLeafHash : bytes)
    : tapscriptExecutionCtx :=
  mkTapCtx annex blankCodeSepValue tapLeafHash (i32 (sigOpsDelta + witnessSize)).

Section engine.
Context `{HashFns} `{Keys} `{!MapRange bytes sigCacheEntry}.

Record Config := mkConfig {
  flags : Z;
  tx : MsgTx;
  txIdx : Z;
  version : Z;
  hashCache : TxSigHashes;
  prevOutFetcher : PrevOutputFetcher;
  witnessVersion : Z;
  witnessProgram : option bytes;
  inputAmount : Z
}.

Record Engine := mkEngine {
  config : Config;
  scripts : list bytes;
  scriptIdx : Z;
  opcodeIdx : Z;
  lastCodeSep : Z;
  tokenizer : ScriptTokenizer;
  dstack : stack;
  astack : stack;
  condStack : list OpCond;
  numOps : Z;
  tapscriptCtx : option tapscriptExecutionCtx;
  sigCache : option SigCache
}.

Abbreviation VM := (ST ScriptErr Engine).

Definition set_scripts (x : list bytes) (vm : Engine) : Engine :=
  mkEngine (config vm) x (scriptIdx vm) (opcodeIdx vm) (lastCodeSep vm) (tokenizer vm) (dstack vm) (astack vm) (condStack vm) (numOps vm) (tapscriptCtx vm) (sigCache vm).
Definition set_scriptIdx (x : Z) (vm : Engine) : Engine :=
  mkEngine (config vm) (scripts vm) x (opcodeIdx vm) (lastCodeSep vm) (tokenizer vm) (dstack vm) (astack vm) (condStack vm) (numOps vm) (tapscriptCtx vm) (sigCache vm).
Definition set_opcodeIdx (x : Z) (vm : Engine) : Engine :=
  mkEngine (config vm) (scripts vm) (scriptIdx vm) x (lastCodeSep vm) (tokenizer vm) (dstack vm) (astack vm) (condStack vm) (numOps vm) (tapscriptCtx vm) (sigCache vm).
Definition set_lastCodeSep (x : Z) (vm : Engine) : Engine :=
  mkEngine (config vm) (scripts vm) (scriptIdx vm) (opcodeIdx vm) x (tokenizer vm) (dstack vm) (astack vm) (condStack vm) (numOps vm) (tapscriptCtx vm) (sigCache vm).
Definition set_tokenizer (x : ScriptTokenizer) (vm : Engine) : Engine :=
  mkEngine (config vm) (scripts vm) (scriptIdx vm) (opcodeIdx vm) (lastCodeSep vm) x (dstack vm) (astack vm) (condStack vm) (numOps vm) (tapscriptCtx vm) (sigCache vm).
Definition set_dstack (x : stack) (vm : Engine) : Engine :=
  mkEngine (config vm) (scripts vm) (scriptIdx vm) (opcodeIdx vm) (lastCodeSep vm) (tokenizer vm) x (astack vm) (condStack vm) (numOps vm) (tapscriptCtx vm) (sigCache vm).
Definition set_astack (x : stack) (vm : Engine) : Engine :=
  mkEngine (config vm) (scripts vm) (scriptIdx vm) (opcodeIdx vm) (lastCodeSep vm) (tokenizer vm) (dstack vm) x (condStack vm) (numOps vm) (tapscriptCtx vm) (sigCache vm).
Definition set_condStack (x : list OpCond) (vm : Engine) : Engine :=
  mkEngine (config vm) (scripts vm) (scriptIdx vm) (opcodeIdx vm) (lastCodeSep vm) (tokenizer vm) (dstack vm) (astack vm) x (numOps vm) (tapscriptCtx vm) (sigCache vm).
Definition set_numOps (x : Z) (vm : Engine) : Engine :=
  mkEngine (config vm) (scripts vm) (scriptIdx vm) (opcodeIdx vm) (lastCodeSep vm) (tokenizer vm) (dstack vm) (astack vm) (condStack vm) x (tapscriptCtx vm) (sigCache vm).
Definition set_tapscriptCtx (x : option tapscriptExecutionCtx) (vm : Engine) : Engine :=
  mkEngine (config vm) (scripts vm) (scriptIdx vm) (opcodeIdx vm) (lastCodeSep vm) (tokenizer vm) (dstack vm) (astack vm) (condStack vm) (numOps vm) x (sigCache vm).
Definition set_sigCache (x : option SigCache) (vm : Engine) : Engine :=
  mkEngine (config vm) (scripts vm) (scriptIdx vm) (opcodeIdx vm) (lastCodeSep vm) (tokenizer vm) (dstack vm) (astack vm) (condStack vm) (numOps vm) (tapscriptCtx vm) x.

(** A method of one of the two stacks. *)
Definition on_dstack {A} (m : Stk A) : VM A := λ vm,
  '(a, s) ← m (dstack vm); Ok (a, set_dstack s vm).
Definition on_astack {A} (m : Stk A) : VM A := λ vm,
  '(a, s) ← m (astack vm); Ok (a, set_astack s vm).

(** A call that shares the signature cache. *)
Definition on_sigCache {A} (m : ST ScriptErr (option SigCache) A) : VM A := λ vm,
  '(a, c) ← m (sigCache vm); Ok (a, set_sigCache c vm).

Definition vm_err {A} (c : ErrorCode) : VM A := st_fail (scriptError c).

Definition hasFlag (vm : Engine) (flag : Z) : bool := Z.land (flags (config vm)) flag =? flag.

Definition isBranchExecuting (vm : Engine) : bool :=
  match last (condStack vm) with
  | None => true
  | Some OpCondTrue => true
  | Some _ => false
  end.

(** ** The operations budget *)

Definition tallyOpCost (cost : Z) (t : tapscriptExecutionCtx)
    : result ScriptErr tapscriptExecutionCtx :=
  let t := mkTapCtx (tc_annex t) (tc_codeSepPos t) (tc_tapLeafHash t) (i32 (tc_opsBudget t - cost)) in
  if tc_opsBudget t <? 0 then Fail (scriptError ErrTaprootMaxSigOps) else Ok t.

Definition tallysigOp (t : tapscriptExecutionCtx) : result ScriptErr tapscriptExecutionCtx :=
  tallyOpCost sigOpsDelta t.

(** A budget method called through [vm.tapscriptCtx]: a nil context panics. *)
Definition on_tapscriptCtx (f : tapscriptExecutionCtx → result ScriptErr tapscriptExecutionCtx)
    : VM unit :=
  vm ← st_get;
  t ← st_lift (deref (tapscriptCtx vm));
  t ← st_lift (f t);
  st_modify (set_tapscriptCtx (Some t)).

(** ** Opcode handlers

    In the order of the source; each takes the opcode and its data. *)

Definition opcodeDisabled (op : opcode) (data : bytes) : VM unit := vm_err ErrDisabledOpcode.
Definition opcodeReserved (op : opcode) (data : bytes) : VM unit := vm_err ErrReservedOpcode.
Definition opcodeInvalid (op : opcode) (data : bytes) : VM unit := vm_err ErrReservedOpcode.

Definition opcodeFalse (op : opcode) (data : bytes) : VM unit := on_dstack (PushByteArray []).

Definition opcodePushData (op : opcode) (data : bytes) : VM unit :=
  on_dstack (PushByteArray data).

Definition opcode1Negate (op : opcode) (data : bytes) : VM unit := on_dstack (PushInt (-1)).

Definition opcodeN (op : opcode) (data : bytes) : VM unit :=
  on_dstack (PushInt (u8 (value op - (OP_1 - 1)))).

Definition opcodeNop (op : opcode) (data : bytes) : VM unit :=
  if bool_decide (value op ∈ [OP_NOP1; OP_NOP4; OP_NOP5; OP_NOP6; OP_NOP7; OP_NOP8; OP_NOP9; OP_NOP10])
  then vm_err ErrDiscourageUpgradableNOPs
  else mret ().

Definition popIfBool : VM bool :=
  so ← on_dstack PopByteArray;
  if 1 <? zlen so then vm_err ErrMinimalIf
  else if (zlen so =? 1) && negb (byte_is so 0 0x01) then vm_err ErrMinimalIf
  else mret (asBool so).

Definition push_cond (c : OpCond) : VM unit :=
  st_modify (λ vm, set_condStack (condStack vm ++ [c]) vm).

Definition opcodeIf (op : opcode) (data : bytes) : VM unit :=
  vm ← st_get;
  if isBranchExecuting vm then
    ok ← popIfBool;
    push_cond (if ok : bool then OpCondTrue else OpCondFalse)
  else push_cond OpCondSkip.

Definition opcodeNotIf (op : opcode) (data : bytes) : VM unit :=
  vm ← st_get;
  if isBranchExecuting vm then
    ok ← popIfBool;
    push_cond (if negb ok then OpCondTrue else OpCondFalse)
  else push_cond OpCondSkip.

Definition opcodeElse (op : opcode) (data : bytes) : VM unit :=
  vm ← st_get;
  if zlen (condStack vm) =? 0 then vm_err ErrUnbalancedConditional
  else
    let conditionalIdx := zlen (condStack vm) - 1 in
    c ← st_lift (go_index (condStack vm) conditionalIdx);
    let set c := st_modify (set_condStack (<[Z.to_nat conditionalIdx := c]> (condStack vm))) in
    match c with
    | OpCondTrue => set OpCondFalse
    | OpCondFalse => set OpCondTrue
    | OpCondSkip => mret ()
    end.

Definition opcodeEndif (op : opcode) (data : bytes) : VM unit :=
  vm ← st_get;
  if zlen (condStack vm) =? 0 then vm_err ErrUnbalancedConditional
  else
    l ← st_lift (go_slice (condStack vm) 0 (zlen (condStack vm) - 1));
    st_modify (set_condStack l).

Definition abstractVerify (op : opcode) (c : ErrorCode) : VM unit :=
  verified ← on_dstack PopBool;
  if negb verified then vm_err c else mret ().

Definition opcodeVerify (op : opcode) (data : bytes) : VM unit := abstractVerify op ErrVerify.

Definition opcodeReturn (op : opcode) (data : bytes) : VM unit := vm_err ErrEarlyReturn.

Definition verifyLockTime (txLockTime threshold lockTime : Z) : result ScriptErr unit :=
  if negb (((txLockTime <? threshold) && (lockTime <? threshold)) ||
           ((threshold <=? txLockTime) && (threshold <=? lockTime)))
  then Fail (scriptError ErrUnsatisfiedLockTime)
  else if txLockTime <? lockTime then Fail (scriptError ErrUnsatisfiedLockTime)
  else Ok ().

(** [vm.tx.TxIn[vm.txIdx]] *)
Definition this_input (vm : Engine) : result ScriptErr TxIn :=
  go_index (tx_TxIn (tx (config vm))) (txIdx (config vm)).

Definition opcodeCheckLockTimeVerify (op : opcode) (data : bytes) : VM unit :=
  so ← on_dstack (PeekByteArray 0);
  vm ← st_get;
  lockTime ← st_lift (MakeScriptNum so (verifyMinimalData (dstack vm)) 5);
  if lockTime <? 0 then vm_err ErrNegativeLockTime
  else
    st_lift (verifyLockTime (tx_LockTime (tx (config vm))) LockTimeThreshold lockTime) ;;
    txIn ← st_lift (this_input vm);
    if Sequence txIn =? MaxTxInSequenceNum then vm_err ErrUnsatisfiedLockTime
    else mret ().

Definition opcodeCheckSequenceVerify (op : opcode) (data : bytes) : VM unit :=
  so ← on_dstack (PeekByteArray 0);
  vm ← st_get;
  stackSequence ← st_lift (MakeScriptNum so (verifyMinimalData (dstack vm)) 5);
  if stackSequence <? 0 then vm_err ErrNegativeLockTime
  else if negb (Z.land stackSequence SequenceLockTimeDisabled =? 0) then mret ()
  else if u32 (tx_Version (tx (config vm))) <? 2 then vm_err ErrUnsatisfiedLockTime
  else
    txIn ← st_lift (this_input vm);
    let txSequence := Sequence txIn in
    if negb (Z.land txSequence SequenceLockTimeDisabled =? 0) then vm_err ErrUnsatisfiedLockTime
    else
      let lockTimeMask := Z.lor SequenceLockTimeIsSeconds SequenceLockTimeMask in
      st_lift (verifyLockTime (Z.land txSequence lockTimeMask) SequenceLockTimeIsSeconds
        (Z.land stackSequence lockTimeMask)).

Definition opcodeToAltStack (op : opcode) (data : bytes) : VM unit :=
  so ← on_dstack PopByteArray; on_astack (PushByteArray so).

Definition opcodeFromAltStack (op : opcode) (data : bytes) : VM unit :=
  so ← on_astack PopByteArray; on_dstack (PushByteArray so).

Definition opcode2Drop (op : opcode) (data : bytes) : VM unit := on_dstack (DropN 2).
Definition opcode2Dup (op : opcode) (data : bytes) : VM unit := on_dstack (DupN 2).
Definition opcode3Dup (op : opcode) (data : bytes) : VM unit := on_dstack (DupN 3).
Definition opcode2Over (op : opcode) (data : bytes) : VM unit := on_dstack (OverN 2).
Definition opcode2Rot (op : opcode) (data : bytes) : VM unit := on_dstack (RotN 2).
Definition opcode2Swap (op : opcode) (data : bytes) : VM unit := on_dstack (SwapN 2).

Definition opcodeIfDup (op : opcode) (data : bytes) : VM unit :=
  so ← on_dstack (PeekByteArray 0);
  if asBool so then on_dstack (PushByteArray so) else mret ().

Definition opcodeDepth (op : opcode) (data : bytes) : VM unit :=
  vm ← st_get; on_dstack (PushInt (Depth (dstack vm))).

Definition opcodeDrop (op : opcode) (data : bytes) : VM unit := on_dstack (DropN 1).
Definition opcodeDup (op : opcode) (data : bytes) : VM unit := on_dstack (DupN 1).
Definition opcodeNip (op : opcode) (data : bytes) : VM unit := on_dstack (NipN 1).
Definition opcodeOver (op : opcode) (data : bytes) : VM unit := on_dstack (OverN 1).

Definition opcodePick (op : opcode) (data : bytes) : VM unit :=
  val ← on_dstack PopInt; on_dstack (PickN (Int32 val)).

Definition opcodeRoll (op : opcode) (data : bytes) : VM unit :=
  val ← on_dstack PopInt; on_dstack (RollN (Int32 val)).

Definition opcodeRot (op : opcode) (data : bytes) : VM unit := on_dstack (RotN 1).
Definition opcodeSwap (op : opcode) (data : bytes) : VM unit := on_dstack (SwapN 1).
Definition opcodeTuck (op : opcode) (data : bytes) : VM unit := on_dstack Tuck.

Definition opcodeCat (op : opcode) (data : bytes) : VM unit :=
  vm ← st_get;
  match tapscriptCtx vm with
  | None => vm_err ErrDisabledOpcode
  | Some _ =>
      if Depth (dstack vm) <? 2 then vm_err ErrInvalidStackOperation
      else
        vch2 ← on_dstack PopByteArray;
        vch1 ← on_dstack PopByteArray;
        let resultLen := zlen vch1 + zlen vch2 in
        if MaxScriptElementSize <? resultLen then vm_err ErrElementTooBig
        else
          on_tapscriptCtx (tallyOpCost (i32 ((resultLen + 63) / 64))) ;;
          on_dstack (PushByteArray (vch1 ++ vch2))
  end.

Definition opcodeSize (op : opcode) (data : bytes) : VM unit :=
  so ← on_dstack (PeekByteArray 0); on_dstack (PushInt (zlen so)).

Definition opcodeEqual (op : opcode) (data : bytes) : VM unit :=
  a ← on_dstack PopByteArray;
  b ← on_dstack PopByteArray;
  on_dstack (PushBool (bool_decide (a = b))).

Definition opcodeEqualVerify (op : opcode) (data : bytes) : VM unit :=
  opcodeEqual op data ;; abstractVerify op ErrEqualVerify.

(** *** Numbers: [scriptNum] is an [int64] *)

Definition opcode1Add (op : opcode) (data : bytes) : VM unit :=
  m ← on_dstack PopInt; on_dstack (PushInt (i64 (m + 1))).

Definition opcode1Sub (op : opcode) (data : bytes) : VM unit :=
  m ← on_dstack PopInt; on_dstack (PushInt (i64 (m - 1))).

Definition opcodeNegate (op : opcode) (data : bytes) : VM unit :=
  m ← on_dstack PopInt; on_dstack (PushInt (i64 (- m))).

Definition opcodeAbs (op : opcode) (data : bytes) : VM unit :=
  m ← on_dstack PopInt; on_dstack (PushInt (if m <? 0 then i64 (- m) else m)).

Definition opcodeNot (op : opcode) (data : bytes) : VM unit :=
  m ← on_dstack PopInt; on_dstack (PushInt (if m =? 0 then 1 else 0)).

Definition opcode0NotEqual (op : opcode) (data : bytes) : VM unit :=
  m ← on_dstack PopInt; on_dstack (PushInt (if negb (m =? 0) then 1 else m)).

(** The pops every two-operand handler starts with. *)
Definition binop (f : Z → Z → Z) : VM unit :=
  v0 ← on_dstack PopInt;
  v1 ← on_dstack PopInt;
  on_dstack (PushInt (f v0 v1)).

Definition opcodeAdd (op : opcode) (data : bytes) : VM unit := binop (λ v0 v1, i64 (v0 + v1)).
Definition opcodeSub (op : opcode) (data : bytes) : VM unit := binop (λ v0 v1, i64 (v1 - v0)).
Definition opcodeBoolAnd (op : opcode) (data : bytes) : VM unit :=
  binop (λ v0 v1, if negb (v0 =? 0) && negb (v1 =? 0) then 1 else 0).
Definition opcodeBoolOr (op : opcode) (data : bytes) : VM unit :=
  binop (λ v0 v1, if negb (v0 =? 0) || negb (v1 =? 0) then 1 else 0).
Definition opcodeNumEqual (op : opcode) (data : bytes) : VM unit :=
  binop (λ v0 v1, if v0 =? v1 then 1 else 0).
Definition opcodeNumEqualVerify (op : opcode) (data : bytes) : VM unit :=
  opcodeNumEqual op data ;; abstractVerify op ErrNumEqualVerify.
Definition opcodeNumNotEqual (op : opcode) (data : bytes) : VM unit :=
  binop (λ v0 v1, if negb (v0 =? v1) then 1 else 0).
Definition opcodeLessThan (op : opcode) (data : bytes) : VM unit :=
  binop (λ v0 v1, if v1 <? v0 then 1 else 0).
Definition opcodeGreaterThan (op : opcode) (data : bytes) : VM unit :=
  binop (λ v0 v1, if v0 <? v1 then 1 else 0).
Definition opcodeLessThanOrEqual (op : opcode) (data : bytes) : VM unit :=
  binop (λ v0 v1, if v1 <=? v0 then 1 else 0).
Definition opcodeGreaterThanOrEqual (op : opcode) (data : bytes) : VM unit :=
  binop (λ v0 v1, if v0 <=? v1 then 1 else 0).
Definition opcodeMin (op : opcode) (data : bytes) : VM unit :=
  binop (λ v0 v1, if v1 <? v0 then v1 else v0).
Definition opcodeMax (op : opcode) (data : bytes) : VM unit :=
  binop (λ v0 v1, if v0 <? v1 then v1 else v0).

Definition opcodeWithin (op : opcode) (data : bytes) : VM unit :=
  maxVal ← on_dstack PopInt;
  minVal ← on_dstack PopInt;
  x ← on_dstack PopInt;
  on_dstack (PushInt (if (minVal <=? x) && (x <? maxVal) then 1 else 0)).

(** *** Hashes *)

Definition opcodeRipemd160 (op : opcode) (data : bytes) : VM unit :=
  buf ← on_dstack PopByteArray; on_dstack (PushByteArray (ripemd160 buf)).
Definition opcodeSha1 (op : opcode) (data : bytes) : VM unit :=
  buf ← on_dstack PopByteArray; on_dstack (PushByteArray (sha1 buf)).
Definition opcodeSha256 (op : opcode) (data : bytes) : VM unit :=
  buf ← on_dstack PopByteArray; on_dstack (PushByteArray (sha256 buf)).
Definition opcodeHash160 (op : opcode) (data : bytes) : VM unit :=
  buf ← on_dstack PopByteArray; on_dstack (PushByteArray (ripemd160 (sha256 buf))).
Definition opcodeHash256 (op : opcode) (data : bytes) : VM unit :=
  buf ← on_dstack PopByteArray; on_dstack (PushByteArray (DoubleHashB buf)).

Definition opcodeCodeSeparator (op : opcode) (data : bytes) : VM unit :=
  st_modify (λ vm, set_lastCodeSep (ByteIndex (tokenizer vm)) vm) ;;
  st_modify (λ vm,
    match tapscriptCtx vm with
    | Some t =>
        set_tapscriptCtx (Some (mkTapCtx (tc_annex t) (u32 (OpcodePosition (tokenizer vm)))
          (tc_tapLeafHash t) (tc_opsBudget t))) vm
    | None => vm
    end).

(** *** Signatures *)

(** [CalcTapscriptSigHash] on the engine's own transaction, as its callers use it. *)
Definition CalcTapscriptSigHash (vm : Engine) (sigHashes : TxSigHashes) (hashType : SigHashType)
    (t : MsgTx) (inputIndex : Z) (prevOuts : PrevOutputFetcher) : result ScriptErr bytes :=
  match tapscriptCtx vm with
  | None => Fail (scriptError ErrInternal)
  | Some ctx =>
      let opts :=
        WithBaseTapscriptVersion (tc_codeSepPos ctx) (tc_tapLeafHash ctx) ::
        match tc_annex ctx with Some annex => [WithAnnex annex] | None => [] end in
      calcTaprootSignatureHashRaw prevOuts sigHashes hashType t inputIndex opts
  end.

(** [newBaseTapscriptSigVerifier] with the fields of [vm] it reads. *)
Definition new_verifier (pkBytes rawSig : bytes) : VM taprootSigVerifier :=
  vm ← st_get;
  ctx ← st_lift (deref (tapscriptCtx vm));
  st_lift (newBaseTapscriptSigVerifier pkBytes rawSig (tx (config vm)) (txIdx (config vm))
    (prevOutFetcher (config vm)) (hashCache (config vm)) (tc_annex ctx)).

(** [baseTapscriptSigVerifier.Verify] *)
Definition tapscript_Verify (t : taprootSigVerifier) : VM bool :=
  vm ← st_get;
  on_sigCache (verify_hash t
    (CalcTapscriptSigHash vm (v_hashCache t) (v_hashType t) (v_tx t) (v_inputIndex t) (v_prevOuts t))).

Definition opcodeCheckSig (op : opcode) (data : bytes) : VM unit :=
  pkBytes ← on_dstack PopByteArray;
  fullSigBytes ← on_dstack PopByteArray;
  vm ← st_get;
  match tapscriptCtx vm with
  | None => vm_err ErrInternal
  | Some _ =>
      (if 0 <? zlen fullSigBytes then on_tapscriptCtx tallysigOp else mret ()) ;;
      if zlen pkBytes =? 0 then vm_err ErrTaprootPubkeyIsEmpty
      else if zlen fullSigBytes =? 0 then on_dstack (PushByteArray [])
      else
        sigVerifier ← new_verifier pkBytes fullSigBytes;
        valid ← tapscript_Verify sigVerifier;
        if negb valid && negb (zlen fullSigBytes =? 0) then vm_err ErrNullFail
        else on_dstack (PushBool valid)
  end.

(** [for i := range numSigChunks { sigChunks[numSigChunks-1-i] = pop }] *)
Fixpoint pop_chunks (n : nat) (sigChunks : list bytes) : VM (list bytes) :=
  match n with
  | O => mret sigChunks
  | S n => chunk ← on_dstack PopByteArray; pop_chunks n (chunk :: sigChunks)
  end.

Definition opcodeCheckXmssSig (op : opcode) (data : bytes) : VM unit :=
  vm ← st_get;
  match tapscriptCtx vm with
  | None => vm_err ErrReservedOpcode
  | Some _ =>
      pkBytes ← on_dstack PopByteArray;
      sigChunks ← pop_chunks (Z.to_nat numSigChunks) [];
      if negb (zlen pkBytes =? xmss_PKLen) then on_dstack (PushBool false)
      else if existsb (λ chunk, negb (zlen chunk =? sigChunkSize)) sigChunks
      then on_dstack (PushBool false)
      else
        on_tapscriptCtx (tallyOpCost 1000) ;;
        vm ← st_get;
        let c := config vm in
        match CalcTapscriptSigHash vm (hashCache c) SigHashDefault (tx c) (txIdx c) (prevOutFetcher c) with
        | Panic => st_lift Panic
        | Fail _ => on_dstack (PushBool false)
        | Ok sigHash =>
            let valid := xmss_Verify pkBytes sigHash (concat sigChunks) in
            if negb valid then vm_err ErrNullFail else on_dstack (PushBool valid)
        end
  end.

Definition opcodeCheckSigVerify (op : opcode) (data : bytes) : VM unit :=
  opcodeCheckSig op data ;; abstractVerify op ErrCheckSigVerify.

Definition opcodeCheckSigAdd (op : opcode) (data : bytes) : VM unit :=
  vm ← st_get;
  match tapscriptCtx vm with
  | None => vm_err ErrReservedOpcode
  | Some _ =>
      pubKeyBytes ← on_dstack PopByteArray;
      accumulatorInt ← on_dstack PopInt;
      sigBytes ← on_dstack PopByteArray;
      (if negb (zlen sigBytes =? 0) then on_tapscriptCtx tallysigOp else mret ()) ;;
      if zlen pubKeyBytes =? 0 then vm_err ErrTaprootPubkeyIsEmpty
      else if zlen sigBytes =? 0 then on_dstack (PushInt accumulatorInt)
      else
        sigVerifier ← new_verifier pubKeyBytes sigBytes;
        sigValid ← tapscript_Verify sigVerifier;
        if negb sigValid then vm_err ErrNullFail
        else on_dstack (PushInt (i64 (accumulatorInt + 1)))
  end.

Definition opcodeCheckMultiSig (op : opcode) (data : bytes) : VM unit :=
  vm_err ErrTapscriptCheckMultisig.

Definition opcodeCheckMultiSigVerify (op : opcode) (data : bytes) : VM unit :=
  opcodeCheckMultiSig op data ;; abstractVerify op ErrCheckMultiSigVerify.

(** The function an entry of [opcodeArray] points to. *)
Definition run_handler (h : handler) : opcode → bytes → VM unit :=
  match h with
  | h_False => opcodeFalse | h_PushData => opcodePushData | h_1Negate => opcode1Negate
  | h_Reserved => opcodeReserved | h_N => opcodeN | h_Nop => opcodeNop | h_If => opcodeIf
  | h_NotIf => opcodeNotIf | h_Else => opcodeElse | h_Endif => opcodeEndif
  | h_Verify => opcodeVerify | h_Return => opcodeReturn
  | h_CheckLockTimeVerify => opcodeCheckLockTimeVerify
  | h_CheckSequenceVerify => opcodeCheckSequenceVerify
  | h_ToAltStack => opcodeToAltStack | h_FromAltStack => opcodeFromAltStack
  | h_2Drop => opcode2Drop | h_2Dup => opcode2Dup | h_3Dup => opcode3Dup
  | h_2Over => opcode2Over | h_2Rot => opcode2Rot | h_2Swap => opcode2Swap
  | h_IfDup => opcodeIfDup | h_Depth => opcodeDepth | h_Drop => opcodeDrop | h_Dup => opcodeDup
  | h_Nip => opcodeNip | h_Over => opcodeOver | h_Pick => opcodePick | h_Roll => opcodeRoll
  | h_Rot => opcodeRot | h_Swap => opcodeSwap | h_Tuck => opcodeTuck | h_Cat => opcodeCat
  | h_Disabled => opcodeDisabled | h_Size => opcodeSize | h_Equal => opcodeEqual
  | h_EqualVerify => opcodeEqualVerify | h_1Add => opcode1Add | h_1Sub => opcode1Sub
  | h_Negate => opcodeNegate | h_Abs => opcodeAbs | h_Not => opcodeNot
  | h_0NotEqual => opcode0NotEqual | h_Add => opcodeAdd | h_Sub => opcodeSub
  | h_BoolAnd => opcodeBoolAnd | h_BoolOr => opcodeBoolOr | h_NumEqual => opcodeNumEqual
  | h_NumEqualVerify => opcodeNumEqualVerify | h_NumNotEqual => opcodeNumNotEqual
  | h_LessThan => opcodeLessThan | h_GreaterThan => opcodeGreaterThan
  | h_LessThanOrEqual => opcodeLessThanOrEqual
  | h_GreaterThanOrEqual => opcodeGreaterThanOrEqual
  | h_Min => opcodeMin | h_Max => opcodeMax | h_Within => opcodeWithin
  | h_Ripemd160 => opcodeRipemd160 | h_Sha1 => opcodeSha1 | h_Sha256 => opcodeSha256
  | h_Hash160 => opcodeHash160 | h_Hash256 => opcodeHash256
  | h_CodeSeparator => opcodeCodeSeparator | h_CheckSig => opcodeCheckSig
  | h_CheckSigVerify => opcodeCheckSigVerify | h_CheckMultiSig => opcodeCheckMultiSig
  | h_CheckMultiSigVerify => opcodeCheckMultiSigVerify | h_CheckSigAdd => opcodeCheckSigAdd
  | h_CheckXmssSig => opcodeCheckXmssSig | h_Invalid => opcodeInvalid
  end.

(** ** Executing one opcode *)

Definition executeOpcode (op : opcode) (data : bytes) : VM unit :=
  if isOpcodeDisabled (value op) then vm_err ErrDisabledOpcode
  else if isOpcodeAlwaysIllegal (value op) then vm_err ErrReservedOpcode
  else
    vm ← st_get;
    (if bool_decide (tapscriptCtx vm = None ∧ OP_16 < value op) then
       st_modify (set_numOps (numOps vm + 1)) ;;
       if MaxOpsPerScript <? numOps vm + 1 then vm_err ErrTooManyOperations else mret ()
     else if MaxScriptElementSize <? zlen data then vm_err ErrElementTooBig
     else mret ()) ;;
    if negb (isBranchExecuting vm) && negb (isOpcodeConditional (value op)) then mret ()
    else
      (if verifyMinimalData (dstack vm) && isBranchExecuting vm && (value op <=? OP_PUSHDATA4)
       then st_lift (checkMinimalDataPush op data) else mret ()) ;;
      run_handler (opfunc op) op data.

(** ** The witness program *)

Definition checkValidPC : VM unit :=
  vm ← st_get;
  if zlen (scripts vm) <=? scriptIdx vm then vm_err ErrInvalidProgramCounter else mret ().

Definition stripWitnessAnnex (witness : TxWitness) : result ScriptErr (TxWitness * option bytes) :=
  if isAnnexedWitness witness then
    annex ← extractAnnex witness;
    w ← go_slice witness 0 (zlen witness - 1);
    Ok (w, Some annex)
  else Ok (witness, None).

(** The calls whose error the source drops; [DropN] fails before it changes the
    stack ([n < 1]) or not at all. *)
Definition ignore_err (m : Stk unit) : Stk unit := λ s,
  match m s with Ok r => Ok r | Fail _ => Ok ((), s) | Panic => Panic end.

Fixpoint getStack_loop (n : nat) (s : stack) (array : list bytes) : result ScriptErr (list bytes) :=
  match n with
  | O => Ok array
  | S n' =>
      getStack_loop n' s
        (array ++ [match PeekByteArray (Z.of_nat n') s with Ok (x, _) => x | _ => [] end])
  end.

Definition getStack (s : stack) : result ScriptErr (list bytes) :=
  if Depth s <? 0 then Panic else getStack_loop (Z.to_nat (Depth s)) s [].

Definition setStack (data : list bytes) : Stk unit :=
  s ← st_get;
  ignore_err (DropN (Depth s)) ;;
  foldl (λ m d, m ;; PushByteArray d) (mret ()) data.

Definition GetStack (vm : Engine) : result ScriptErr (list bytes) := getStack (dstack vm).
Definition SetStack (data : list bytes) : VM unit := on_dstack (setStack data).
Definition GetAltStack (vm : Engine) : result ScriptErr (list bytes) := getStack (astack vm).
Definition SetAltStack (data : list bytes) : VM unit := on_astack (setStack data).

Definition verifyTaprootKeyPath (program rawSig : bytes) : VM unit :=
  vm ← st_get;
  on_sigCache (VerifyTaprootKeySpend program rawSig (tx (config vm)) (txIdx (config vm))
    (prevOutFetcher (config vm)) (hashCache (config vm))) ;;
  SetStack [[z2b 0x01]].

Definition enforceTapscriptStackLimits : VM unit :=
  vm ← st_get;
  if MaxStackSize <? Depth (dstack vm) then vm_err ErrStackOverflow
  else
    stk ← st_lift (GetStack vm);
    if existsb (λ witElement, MaxScriptElementSize <? zlen witElement) stk
    then vm_err ErrElementTooBig else mret ().

Definition setupScriptPathSpend (stack : TxWitness) (witnessSize : Z) (annex : option bytes)
    (witnessScript : bytes) (leafVersion : Z) : VM unit :=
  if negb (leafVersion =? BaseLeafVersion) then vm_err ErrDiscourageUpgradeableTaprootVersion
  else
    vm ← st_get;
    e ← st_lift (checkScriptParses (version (config vm)) witnessScript);
    match e with
    | Some err => st_fail err
    | None =>
        st_modify (set_tapscriptCtx (Some (newTapscriptExecutionCtx witnessSize annex
          (TapLeaf_TapHash (NewBaseTapLeaf witnessScript))))) ;;
        st_modify (λ vm, set_scripts (scripts vm ++ [witnessScript]) vm) ;;
        items ← st_lift (go_slice stack 0 (zlen stack - 2));
        SetStack items ;;
        enforceTapscriptStackLimits
    end.

Definition verifyTaprootSpend (program : bytes) (witness : TxWitness) : VM unit :=
  if zlen witness =? 0 then vm_err ErrWitnessProgramEmpty
  else
    let witnessSize := i32 (TxWitness_SerializeSize witness) in
    '(stack, annex) ← st_lift (stripWitnessAnnex witness);
    if zlen stack =? 1 then
      rawSig ← st_lift (go_index stack 0);
      verifyTaprootKeyPath program rawSig
    else
      rawControlBlock ← st_lift (go_index stack (zlen stack - 1));
      controlBlock ← st_lift (ParseControlBlock rawControlBlock);
      witnessScript ← st_lift (go_index stack (zlen stack - 2));
      st_lift (VerifyTaprootLeafCommitment controlBlock program witnessScript) ;;
      setupScriptPathSpend stack witnessSize annex witnessScript (LeafVersion controlBlock).

Definition verifyMerkleRootSpend (program : bytes) (witness : TxWitness) : VM unit :=
  if zlen witness =? 0 then vm_err ErrWitnessProgramEmpty
  else
    let witnessSize := i32 (TxWitness_SerializeSize witness) in
    '(stack, annex) ← st_lift (stripWitnessAnnex witness);
    if zlen stack =? 1 then vm_err ErrMerkleRootNoKeyPathSpend
    else
      rawControlBlock ← st_lift (go_index stack (zlen stack - 1));
      controlBlock ← st_lift (ParseMerkleRootControlBlock rawControlBlock);
      witnessScript ← st_lift (go_index stack (zlen stack - 2));
      st_lift (VerifyMerkleRootLeafCommitment controlBlock program witnessScript) ;;
      setupScriptPathSpend stack witnessSize annex witnessScript (mr_LeafVersion controlBlock).

(** The program is the [vm.witnessProgram] the caller found non-nil. *)
Definition verifyWitnessProgram (program : bytes) (witness : TxWitness) : VM unit :=
  vm ← st_get;
  let v := witnessVersion (config vm) in
  if v =? BaseSegwitWitnessVersion then vm_err ErrDiscourageUpgradableWitnessProgram
  else if v =? TaprootWitnessVersion then
    if negb (zlen program =? payToTaprootDataSize) then vm_err ErrDiscourageUpgradableWitnessProgram
    else verifyTaprootSpend program witness
  else if v =? MerkleRootWitnessVersion then
    if negb (zlen program =? payToMerkleRootDataSize) then vm_err ErrDiscourageUpgradableWitnessProgram
    else verifyMerkleRootSpend program witness
  else vm_err ErrDiscourageUpgradableWitnessProgram.

(** ** Stepping *)

Definition CheckErrorCondition (finalScript : bool) : VM unit :=
  vm ← st_get;
  if scriptIdx vm <? zlen (scripts vm) then vm_err ErrScriptUnfinished
  else if finalScript && bool_decide (is_Some (tapscriptCtx vm)) && negb (Depth (dstack vm) =? 1)
  then vm_err ErrCleanStack
  else if Depth (dstack vm) <? 1 then vm_err ErrEmptyStack
  else
    v ← on_dstack PopBool;
    if negb v then vm_err ErrEvalFalse else mret ().

(** [vm.tokenizer.Next()] *)
Definition vm_Next : VM bool := λ vm,
  '(more, t) ← Next (tokenizer vm); Ok (more, set_tokenizer t vm).

(** The reset between scripts. *)
Definition next_script : VM unit :=
  vm ← st_get;
  on_astack (ignore_err (DropN (Depth (astack vm)))) ;;
  st_modify (λ vm, set_scriptIdx (scriptIdx vm + 1)
    (set_lastCodeSep 0 (set_opcodeIdx 0 (set_numOps 0 vm)))).

(** Skipping an empty script and starting the next one. *)
Definition enter_script : VM bool :=
  vm ← st_get;
  (if scriptIdx vm <? zlen (scripts vm) then
     script ← st_lift (go_index (scripts vm) (scriptIdx vm));
     if zlen script =? 0 then st_modify (set_scriptIdx (scriptIdx vm + 1)) else mret ()
   else mret ()) ;;
  vm ← st_get;
  if zlen (scripts vm) <=? scriptIdx vm then mret true
  else
    script ← st_lift (go_index (scripts vm) (scriptIdx vm));
    st_modify (set_tokenizer (MakeScriptTokenizer (version (config vm)) script)) ;;
    mret false.

(** The validation of the witness, between the public key script and the leaf. *)
Definition check_witness : VM unit :=
  vm ← st_get;
  match witnessProgram (config vm) with
  | Some program =>
      if scriptIdx vm =? 2 then
        txIn ← st_lift (this_input vm);
        verifyWitnessProgram program (Witness txIn)
      else mret ()
  | None => mret ()
  end.

(** What [Step] does once the last opcode of a script has run. *)
Definition finish_script : VM bool := next_script ;; check_witness ;; enter_script.

(** The part of [Step] after the opcode. *)
Definition after_opcode : VM bool :=
  vm ← st_get;
  let combinedStackSize := i32 (Depth (dstack vm) + Depth (astack vm)) in
  if MaxStackSize <? combinedStackSize then vm_err ErrStackOverflow
  else
    st_modify (set_opcodeIdx (opcodeIdx vm + 1)) ;;
    if negb (Done (tokenizer vm)) then mret false
    else if negb (zlen (condStack vm) =? 0) then vm_err ErrUnbalancedConditional
    else finish_script.

Definition Step : VM bool :=
  checkValidPC ;;
  more ← vm_Next;
  vm ← st_get;
  if negb more then
    match Err (tokenizer vm) with
    | Some err => st_fail err
    | None =>
        _ ← st_lift (E := ScriptErr) (go_index (scripts vm) (scriptIdx vm));
        vm_err ErrInvalidProgramCounter
    end
  else
    op ← st_lift (deref (t_op (tokenizer vm)));
    executeOpcode op (Data (tokenizer vm)) ;;
    after_opcode.

(** [for !done { done, err = vm.Step() }] *)
Fixpoint step_loop (fuel : nat) : VM unit :=
  match fuel with
  | O => λ _, Panic
  | S fuel => done ← Step; if done : bool then mret () else step_loop fuel
  end.

(** A step runs an opcode, which takes at least a byte, of a script: the two the
    engine starts with or a leaf script from the witness. *)
Definition steps_bound (vm : Engine) : nat :=
  S (length (concat (scripts vm)) +
     match this_input vm with Ok txIn => length (concat (Witness txIn)) | _ => 0%nat end).

Definition Execute : VM unit :=
  vm ← st_get;
  if negb (version (config vm) =? 0) then mret ()
  else step_loop (steps_bound vm) ;; CheckErrorCondition true.

(** ** The constructor *)

Fixpoint check_scripts (scrs : list bytes) : result ScriptErr unit :=
  match scrs with
  | [] => Ok ()
  | scr :: scrs =>
      if MaxScriptSize <? zlen scr then Fail (scriptError ErrScriptTooBig)
      else
        e ← checkScriptParses 0 scr;
        match e with Some err => Fail err | None => check_scripts scrs end
  end.

Definition NewEngine (scriptPubKey : bytes) (tx : MsgTx) (txIdx flags : Z)
    (sigCache : option SigCache) (hashCache : TxSigHashes) (inputAmount : Z)
    (prevOutFetcher : PrevOutputFetcher) : result ScriptErr Engine :=
  if (txIdx <? 0) || (zlen (tx_TxIn tx) <=? txIdx) then Fail (scriptError ErrInvalidIndex)
  else
    txIn ← go_index (tx_TxIn tx) txIdx;
    let scriptSig := SignatureScript txIn in
    if (zlen scriptSig =? 0) && (zlen scriptPubKey =? 0) then Fail (scriptError ErrEvalFalse)
    else
      pushOnly ← IsPushOnlyScript scriptSig;
      if negb pushOnly then Fail (scriptError ErrNotPushOnly)
      else
        let scripts := [scriptSig; scriptPubKey] in
        check_scripts scripts ;;
        let scriptIdx := if zlen scriptSig =? 0 then 1 else 0 in
        isWitness ← IsWitnessProgram scriptPubKey;
        '(witnessVersion, witnessProgram) ←
          (if isWitness : bool then
             if negb (zlen scriptSig =? 0) then Fail (scriptError ErrWitnessMalleated)
             else
               '(v, p) ← ExtractWitnessProgramInfo scriptPubKey;
               Ok (v, Some p)
           else if negb (zlen (Witness txIn) =? 0) then Fail (scriptError ErrWitnessUnexpected)
           else Ok (0, None));
        script ← go_index scripts scriptIdx;
        Ok (mkEngine
          (mkConfig flags tx txIdx 0 hashCache prevOutFetcher witnessVersion witnessProgram inputAmount)
          scripts scriptIdx 0 0 (MakeScriptTokenizer 0 script) (mkStack [] true) (mkStack [] true)
          [] 0 None sigCache).
End engine.
