(* ===== verification/EngineSafety.v ===== *)
(** * Safety of the handlers

    A handler run on an engine within the limits does not panic, grows the two
    stacks by at most three items, keeps every item within 520 bytes, changes
    only the parts of the engine it may, and gives the same result whatever
    valid signatures the cache holds.  The judgement [safe] states all of this
    at once; its rules mirror the constructors of the [VM] monad. *)
From stdpp Require Import strings.
From Stdlib Require Import Lia ZArith.
From S2P Require Import Prelude Wire MsgTx ScriptError ScriptNum Stack Opcode Tokenizer Standard Crypto Taproot SigCache SigHash Engine.

(** ** Numbers *)

Lemma checkMinimal_no_panic v : no_panic (checkMinimalDataEncoding v).
Proof. destruct (checkMinimalDataEncoding_spec v) as [[-> _]|[-> _]]; done. Qed.

Lemma MakeScriptNum_range v m k :
  0 < k <= 7 →
  no_panic (MakeScriptNum v m k) ∧
  ∀ n, MakeScriptNum v m k = Ok n → Z.abs n < 2 ^ (8 * k - 1).
Proof.
  intros Hk.
  assert (∀ m, no_panic (MakeScriptNum v m k) ∧
    ∀ n, MakeScriptNum v m k = Ok n → n = num_value v ∧ zlen v <= k) as Hg.
  { assert (no_panic (MakeScriptNum v false k) ∧
      ∀ n, MakeScriptNum v false k = Ok n → n = num_value v ∧ zlen v <= k) as Hf.
    { destruct (Z.ltb_spec k (zlen v)) as [Hlt|Hge].
      - unfold MakeScriptNum. rewrite (proj2 (Z.ltb_lt _ _)) by done. done.
      - rewrite MakeScriptNum_value by lia. split; [done|]. by intros n [= <-]. }
    intros [|]; [|done]. rewrite MakeScriptNum_minimal. destruct (k <? zlen v); [done|].
    destruct (checkMinimalDataEncoding_spec v) as [[-> _]|[-> _]]; done. }
  destruct (Hg m) as [Hn Hv]. split; [done|]. intros n E. apply Hv in E as [-> Hl].
  destruct (decide (v = [])) as [->|Hne].
  - cbn. apply Z.pow_pos_nonneg; lia.
  - pose proof (num_value_range v Hne). pose proof (zlen_nonneg v).
    assert (2 ^ (8 * zlen v - 1) <= 2 ^ (8 * k - 1)) by (apply Z.pow_le_mono_r; lia). lia.
Qed.

(** ** The stack operations *)

Definition elem_ok (b : bytes) : Prop := zlen b <= MaxScriptElementSize.

Record stk_le (k : Z) (s : stack) : Prop := mkStkLe {
  sl_size : zlen (stk s) <= k;
  sl_elems : Forall elem_ok (stk s);
  sl_minimal : verifyMinimalData s = true
}.

(** Bounds far below where an [int32] depth wraps. *)
Definition small (k : Z) : Prop := k < 2 ^ 30.

Lemma stk_le_mono k k' s : k <= k' → stk_le k s → stk_le k' s.
Proof. intros ? [??]. split; [lia|done..]. Qed.

Lemma stk_split (l : list bytes) idx :
  0 <= idx < zlen l → ∃ l1 x l2, l = l1 ++ x :: l2 ∧ zlen l2 = idx.
Proof.
  intros Hi. destruct (split_at l (zlen l - idx - 1)) as (l1 & r & -> & Hl1); [lia|].
  destruct r as [|x l2]; [rewrite app_nil_r in *; lia|].
  exists l1, x, l2. split; [done|]. rewrite zlen_app, zlen_cons in *. lia.
Qed.

Section stack_triples.
Context (k : Z) (Hk : small k).

Lemma stk_le_ok s : stk_le k s → stk_ok (stk s).
Proof. unfold stk_ok, small in *. intros [Hs _ _]. lia. Qed.

Lemma push_triple so :
  elem_ok so → triple (stk_le k) (PushByteArray so) (λ _, stk_le (k + 1)).
Proof.
  intros Hso s [Hs He Hm]. cbv [PushByteArray mbind st_bind st_get set_stk st_modify].
  split; cbn; [rewrite zlen_snoc; lia| |done]. apply Forall_app. by split; [|constructor].
Qed.

Lemma nip_triple idx :
  triple (stk_le k) (nipN idx) (λ so s, stk_le k s ∧ elem_ok so).
Proof.
  intros s Hs. pose proof (stk_le_ok s Hs) as Hok. destruct Hs as [Hs He Hm]. destruct s as [l m]. cbn in *.
  destruct (decide (0 <= idx < zlen l)) as [Hi|Hi]; [|rewrite nip_fail; [done..|lia]].
  destruct (stk_split l idx Hi) as (l1 & x & l2 & -> & Hl2). rewrite nip_run by done.
  apply Forall_app in He as [H1 H2]. apply Forall_cons in H2 as [Hx H2].
  split; [|done]. split; cbn; [len_solve|by apply Forall_app|done].
Qed.

Lemma peek_triple idx :
  triple (stk_le k) (PeekByteArray idx) (λ so s, stk_le k s ∧ elem_ok so).
Proof.
  intros s Hs. pose proof (stk_le_ok s Hs) as Hok. destruct s as [l m]. cbn in *.
  destruct (decide (0 <= idx < zlen l)) as [Hi|Hi]; [|rewrite peek_fail; [done..|lia]].
  destruct (stk_split l idx Hi) as (l1 & x & l2 & -> & Hl2). rewrite peek_run by done.
  split; [done|]. destruct Hs as [_ He _]. cbn in He.
  apply Forall_app in He as [_ He]. by apply Forall_cons in He as [? _].
Qed.

Lemma pop_triple : triple (stk_le k) PopByteArray (λ so s, stk_le k s ∧ elem_ok so).
Proof. apply nip_triple. Qed.

Lemma triple_pure {E S A} (P : S → Prop) (φ : Prop) (m : ST E S A) Q :
  (φ → triple P m Q) → triple (λ s, P s ∧ φ) m Q.
Proof. intros H s [HP Hφ]. by apply H. Qed.

(** Reading a number: what it returns fits four bytes. *)
Definition num_ok (n : Z) : Prop := Z.abs n < 2 ^ 31.

Lemma read_num_triple (get : Stk bytes) :
  triple (stk_le k) get (λ so s, stk_le k s ∧ elem_ok so) →
  triple (stk_le k) (so ← get; s ← st_get; st_lift (MakeScriptNum so (verifyMinimalData s) maxScriptNumLen))
    (λ n s, stk_le k s ∧ num_ok n).
Proof.
  intros Hg. eapply triple_bind; [exact Hg|]. intros so s [Hs _].
  cbv [mbind st_bind st_get]. destruct (MakeScriptNum_range so (verifyMinimalData s) maxScriptNumLen) as [Hn Hr]; [done|].
  unfold st_lift. destruct (MakeScriptNum so _ _) as [n| |]; [|done..]. cbn. split; [done|]. by apply Hr.
Qed.

Lemma popInt_triple : triple (stk_le k) PopInt (λ n s, stk_le k s ∧ num_ok n).
Proof. apply (read_num_triple PopByteArray), pop_triple. Qed.

Lemma popBool_triple : triple (stk_le k) PopBool (λ _, stk_le k).
Proof.
  eapply triple_bind; [apply pop_triple|]. intros so. apply triple_ret. by intros s [Hs _].
Qed.

Lemma pushInt_triple n :
  Z.abs n < 2 ^ 39 → triple (stk_le k) (PushInt n) (λ _, stk_le (k + 1)).
Proof.
  intros Hn. destruct (Bytes_total n 5) as (v & E & Hv); [lia|done|].
  intros s Hs. unfold PushInt, st_lift. cbv [mbind st_bind]. rewrite E. cbn [result_bind].
  apply push_triple; [|done]. unfold elem_ok, MaxScriptElementSize. lia.
Qed.
End stack_triples.

(** A loop each turn of which pushes at most one item. *)
Lemma repeat_triple n k (m : Stk unit) :
  small (k + Z.of_nat n) → (∀ j, small j → triple (stk_le j) m (λ _, stk_le (j + 1))) →
  triple (stk_le k) (st_repeat n m) (λ _, stk_le (k + Z.of_nat n)).
Proof.
  intros Hk Hm. revert k Hk. induction n as [|n IH]; intros k Hk.
  - cbn. apply triple_ret. intros s. apply stk_le_mono. lia.
  - cbn [st_repeat]. eapply triple_bind; [apply Hm; unfold small in *; lia|]. intros [].
    eapply triple_weaken; [apply (IH (k + 1)); unfold small in *; lia|done|].
    intros [] s. apply stk_le_mono. lia.
Qed.

Section stack_triples2.
Context (k : Z) (Hk : small (k + 3)).

Lemma small_k : small k.
Proof. unfold small in *. lia. Qed.

Lemma DropN_triple n : triple (stk_le k) (DropN n) (λ _, stk_le k).
Proof.
  unfold DropN. destruct (n <? 1); [apply triple_fail|]. apply triple_repeat.
  eapply triple_bind; [apply pop_triple, small_k|]. intros so. apply triple_ret. by intros s [Hs _].
Qed.

Lemma push_loop_triple n (get : Stk bytes) :
  n <= 3 → (∀ j, small j → triple (stk_le j) get (λ so s, stk_le j s ∧ elem_ok so)) →
  triple (stk_le k) (st_repeat (Z.to_nat n) (so ← get; PushByteArray so)) (λ _, stk_le (k + 3)).
Proof.
  intros Hn Hg. eapply triple_weaken; [apply (repeat_triple _ k)| |].
  - unfold small in *. lia.
  - intros j Hj. eapply triple_bind; [by apply Hg|]. intros so. apply triple_pure. intros Hso.
    by apply push_triple.
  - done.
  - intros [] s. apply stk_le_mono. lia.
Qed.

Lemma DupN_triple n : n <= 3 → triple (stk_le k) (DupN n) (λ _, stk_le (k + 3)).
Proof.
  intros. unfold DupN. destruct (n <? 1); [apply triple_fail|].
  apply push_loop_triple; [done|]. intros. by apply peek_triple.
Qed.
Lemma RotN_triple n : n <= 3 → triple (stk_le k) (RotN n) (λ _, stk_le (k + 3)).
Proof.
  intros. unfold RotN. destruct (n <? 1); [apply triple_fail|].
  apply push_loop_triple; [done|]. intros. by apply nip_triple.
Qed.
Lemma SwapN_triple n : n <= 3 → triple (stk_le k) (SwapN n) (λ _, stk_le (k + 3)).
Proof.
  intros. unfold SwapN. destruct (n <? 1); [apply triple_fail|].
  apply push_loop_triple; [done|]. intros. by apply nip_triple.
Qed.
Lemma OverN_triple n : n <= 3 → triple (stk_le k) (OverN n) (λ _, stk_le (k + 3)).
Proof.
  intros. unfold OverN. destruct (n <? 1); [apply triple_fail|].
  apply push_loop_triple; [done|]. intros. by apply peek_triple.
Qed.

Lemma push_triple3 so : elem_ok so → triple (stk_le k) (PushByteArray so) (λ _, stk_le (k + 3)).
Proof.
  intros. eapply triple_weaken; [by apply (push_triple k)|done|].
  intros [] s. apply stk_le_mono. lia.
Qed.

Lemma PickN_triple n : triple (stk_le k) (PickN n) (λ _, stk_le (k + 3)).
Proof.
  eapply triple_bind; [apply peek_triple, small_k|]. intros so. apply triple_pure. apply push_triple3.
Qed.
Lemma RollN_triple n : triple (stk_le k) (RollN n) (λ _, stk_le (k + 3)).
Proof.
  eapply triple_bind; [apply nip_triple, small_k|]. intros so. apply triple_pure. apply push_triple3.
Qed.
Lemma NipN_triple n : triple (stk_le k) (NipN n) (λ _, stk_le k).
Proof.
  eapply triple_bind; [apply nip_triple, small_k|]. intros so. apply triple_ret. by intros s [Hs _].
Qed.

Lemma Tuck_triple : triple (stk_le k) Tuck (λ _, stk_le (k + 3)).
Proof.
  pose proof small_k as Hs. unfold Tuck.
  eapply triple_bind; [by apply pop_triple|]. intros so2. apply triple_pure. intros H2.
  eapply triple_bind; [by apply pop_triple|]. intros so1. apply triple_pure. intros H1.
  eapply triple_bind; [by apply push_triple|]. intros [].
  eapply triple_bind; [apply push_triple; done|]. intros [].
  eapply triple_weaken; [apply push_triple; done|done|].
  intros [] s. apply stk_le_mono. lia.
Qed.
End stack_triples2.

(** ** The judgement *)

Section safety.
Context `{HashFns} `{Keys} `{!MapRange bytes sigCacheEntry}.
Abbreviation VM := (ST ScriptErr Engine).

(** From a state satisfying [P], [m] does not panic; a value comes with a state
    satisfying [Q] and a cache of valid signatures; and started with any other
    cache of valid signatures it gives the same result. *)
Definition safe {A} (P : Engine → Prop) (m : VM A) (Q : A → Engine → Prop) : Prop :=
  ∀ vm c, P vm → cache_sound (sigCache vm) → cache_sound c →
    match m vm with
    | Ok (a, vm') =>
        Q a vm' ∧ cache_sound (sigCache vm') ∧
        ∃ c', cache_sound c' ∧ m (set_sigCache c vm) = Ok (a, set_sigCache c' vm')
    | Fail e => m (set_sigCache c vm) = Fail e
    | Panic => False
    end.

(** Definitions that do not read the cache. *)
Definition cacheless {A} (f : Engine → A) : Prop := ∀ vm c, f (set_sigCache c vm) = f vm.

Lemma safe_ret {A} (P : Engine → Prop) (a : A) (Q : A → Engine → Prop) :
  (∀ vm, P vm → Q a vm) → safe P (mret a) Q.
Proof. intros HQ vm c HP Hs Hc. cbv [mret st_ret]. split; [by apply HQ|]. split; [done|]. by exists c. Qed.

Lemma safe_fail {A} P e (Q : A → Engine → Prop) : safe P (st_fail e) Q.
Proof. by intros vm c HP Hs Hc. Qed.

Lemma safe_bind {A B} P (m : VM A) (f : A → VM B) R Q :
  safe P m R → (∀ a, safe (R a) (f a) Q) → safe P (m ≫= f) Q.
Proof.
  intros Hm Hf vm c HP Hs Hc. specialize (Hm vm c HP Hs Hc). cbv [mbind st_bind].
  destruct (m vm) as [[a vm']|e|]; [|by rewrite Hm|done].
  destruct Hm as (HR & Hs' & c' & Hc' & E). rewrite E. by apply Hf.
Qed.

Lemma safe_weaken {A} (P P' : Engine → Prop) (m : VM A) (Q Q' : A → Engine → Prop) :
  safe P' m Q' → (∀ vm, P vm → P' vm) → (∀ a vm, Q' a vm → Q a vm) → safe P m Q.
Proof.
  intros Hm HP HQ vm c Hp Hs Hc. specialize (Hm vm c (HP vm Hp) Hs Hc).
  destruct (m vm) as [[a vm']| |]; [|done..]. destruct Hm as (?&?&?). split; [by apply HQ|done].
Qed.

Lemma safe_pure {A} P (φ : Prop) (m : VM A) Q :
  (φ → safe P m Q) → safe (λ vm, P vm ∧ φ) m Q.
Proof. intros Hm vm c [HP Hφ]. by apply Hm. Qed.

Lemma safe_get {A} (P : Engine → Prop) (f : Engine → VM A) Q :
  cacheless f → (∀ vm, P vm → safe P (f vm) Q) → safe P (st_get ≫= f) Q.
Proof.
  intros Hf Hm vm c HP Hs Hc. cbv [mbind st_bind st_get]. rewrite (Hf vm c). by apply Hm.
Qed.

Lemma safe_lift {A B} (P : Engine → Prop) (r : result ScriptErr A) (f : A → VM B) Q :
  no_panic r → (∀ a, r = Ok a → safe P (f a) Q) → safe P (st_lift r ≫= f) Q.
Proof.
  intros Hr Hf vm c HP Hs Hc. unfold st_lift. cbv [mbind st_bind].
  destruct r as [a| |]; [|done..]. cbn. by apply Hf.
Qed.

Lemma safe_modify (P Q : Engine → Prop) (g : Engine → Engine) :
  (∀ vm c, g (set_sigCache c vm) = set_sigCache c (g vm)) →
  (∀ vm, sigCache (g vm) = sigCache vm) →
  (∀ vm, P vm → Q (g vm)) → safe P (st_modify g) (λ _, Q).
Proof.
  intros Hg Hs HQ vm c HP Hsm Hc. cbv [st_modify]. split; [by apply HQ|]. split; [by rewrite Hs|].
  exists c. by rewrite Hg.
Qed.

Lemma safe_dstack {A} (P : Engine → Prop) (m : Stk A) (Pd : stack → Prop) (Qd : A → stack → Prop) Q :
  triple Pd m Qd → (∀ vm, P vm → Pd (dstack vm)) →
  (∀ vm a s, P vm → Qd a s → Q a (set_dstack s vm)) → safe P (on_dstack m) Q.
Proof.
  intros Hm HP HQ vm c Hp Hs Hc. specialize (Hm (dstack vm) (HP vm Hp)). unfold on_dstack.
  cbn [dstack set_sigCache]. destruct (m (dstack vm)) as [[a s]| |]; [|done..].
  cbn [mbind result_bind]. split; [by apply HQ|]. split; [done|]. by exists c.
Qed.

Lemma safe_astack {A} (P : Engine → Prop) (m : Stk A) (Pd : stack → Prop) (Qd : A → stack → Prop) Q :
  triple Pd m Qd → (∀ vm, P vm → Pd (astack vm)) →
  (∀ vm a s, P vm → Qd a s → Q a (set_astack s vm)) → safe P (on_astack m) Q.
Proof.
  intros Hm HP HQ vm c Hp Hs Hc. specialize (Hm (astack vm) (HP vm Hp)). unfold on_astack.
  cbn [astack set_sigCache]. destruct (m (astack vm)) as [[a s]| |]; [|done..].
  cbn [mbind result_bind]. split; [by apply HQ|]. split; [done|]. by exists c.
Qed.

(** A call on the cache whose value does not depend on the valid signatures it
    holds. *)
Lemma safe_sigCache {A} (P : Engine → Prop) (m : ST ScriptErr (option SigCache) A) r (Q : A → Engine → Prop) :
  (∀ c, cache_sound c → ∃ c', m c = (a ← r; Ok (a, c')) ∧ cache_sound c') → no_panic r →
  (∀ vm c a, P vm → r = Ok a → Q a (set_sigCache c vm)) → safe P (on_sigCache m) Q.
Proof.
  intros Hm Hr HQ vm c HP Hs Hc. unfold on_sigCache.
  destruct (Hm (sigCache vm) Hs) as (c1 & -> & Hc1).
  destruct (Hm c Hc) as (c2 & E2 & Hc2). cbn [sigCache set_sigCache]. rewrite E2.
  destruct r as [a| |]; [|done..]. cbn. split; [by apply HQ|]. split; [done|]. by exists c2.
Qed.

(** ** What a handler keeps *)

Record config_ok (c : Config) : Prop := mkConfigOk {
  co_version : version c = 0;
  co_tx : wf_MsgTx (tx c);
  co_idx : 0 <= txIdx c < zlen (tx_TxIn (tx c));
  co_fetch ti : tx_TxIn (tx c) !! Z.to_nat (txIdx c) = Some ti →
    is_Some (prevOutFetcher c (PreviousOutPoint ti))
}.

(** The tapscript context may only lose budget and move the code separator. *)
Definition ctx_le (o0 o : option tapscriptExecutionCtx) : Prop :=
  match o0, o with
  | None, None => True
  | Some t0, Some t =>
      tc_annex t = tc_annex t0 ∧ tc_tapLeafHash t = tc_tapLeafHash t0 ∧
      0 <= tc_opsBudget t <= tc_opsBudget t0 ∧ tc_opsBudget t0 < 2 ^ 31
  | _, _ => False
  end.

Record frame (v0 v : Engine) : Prop := mkFrame {
  f_config : config v = config v0;
  f_config_ok : config_ok (config v0);
  f_scripts : scripts v = scripts v0;
  f_scriptIdx : scriptIdx v = scriptIdx v0;
  f_opcodeIdx : opcodeIdx v = opcodeIdx v0;
  f_tokenizer : tokenizer v = tokenizer v0;
  f_numOps : numOps v = numOps v0;
  f_ctx : ctx_le (tapscriptCtx v0) (tapscriptCtx v)
}.

Definition stacks_le (k : Z) (v : Engine) : Prop :=
  ∃ kd ka, kd + ka <= k ∧ stk_le kd (dstack v) ∧ stk_le ka (astack v).

Definition inv (v0 : Engine) (k : Z) (v : Engine) : Prop := frame v0 v ∧ stacks_le k v.

Lemma stk_le_nonneg k s : stk_le k s → 0 <= k.
Proof. intros [Hs _ _]. pose proof (zlen_nonneg (stk s)). lia. Qed.

Lemma inv_mono v0 k k' v : k <= k' → inv v0 k v → inv v0 k' v.
Proof. intros Hk [Hf (kd & ka & ? & ? & ?)]. split; [done|]. exists kd, ka. split; [lia|done]. Qed.

Lemma frame_set v0 v g :
  frame v0 v →
  config (g v) = config v → scripts (g v) = scripts v → scriptIdx (g v) = scriptIdx v →
  opcodeIdx (g v) = opcodeIdx v → tokenizer (g v) = tokenizer v → numOps (g v) = numOps v →
  ctx_le (tapscriptCtx v0) (tapscriptCtx (g v)) → frame v0 (g v).
Proof. intros [] ?????? Hc. split; (done || congruence). Qed.

Section with_v0.
Context (v0 : Engine) (k : Z) (Hk : small (k + 3)).

Lemma inv_dstack {A} (m : Stk A) d (φ : A → Prop) :
  0 <= d → (∀ j, small (j + 3) → triple (stk_le j) m (λ a s, stk_le (j + d) s ∧ φ a)) →
  safe (inv v0 k) (on_dstack m) (λ a v, inv v0 (k + d) v ∧ φ a).
Proof.
  intros Hd Hm vm c [Hf (kd & ka & Hsum & Hsd & Hsa)] Hs Hc.
  pose proof (stk_le_nonneg _ _ Hsa).
  refine (safe_dstack (λ v, v = vm) m (stk_le kd) _ _ (Hm kd _) _ _ vm c eq_refl Hs Hc).
  - unfold small in *. lia.
  - by intros v ->.
  - intros v a s -> [Hs' Hφ]. split; [|done]. split.
    + apply (frame_set v0 vm (set_dstack s)); try done. apply Hf.
    + exists (kd + d), ka. split; [lia|done].
Qed.

Lemma inv_astack {A} (m : Stk A) d (φ : A → Prop) :
  0 <= d → (∀ j, small (j + 3) → triple (stk_le j) m (λ a s, stk_le (j + d) s ∧ φ a)) →
  safe (inv v0 k) (on_astack m) (λ a v, inv v0 (k + d) v ∧ φ a).
Proof.
  intros Hd Hm vm c [Hf (kd & ka & Hsum & Hsd & Hsa)] Hs Hc.
  pose proof (stk_le_nonneg _ _ Hsd).
  refine (safe_astack (λ v, v = vm) m (stk_le ka) _ _ (Hm ka _) _ _ vm c eq_refl Hs Hc).
  - unfold small in *. lia.
  - by intros v ->.
  - intros v a s -> [Hs' Hφ]. split; [|done]. split.
    + apply (frame_set v0 vm (set_astack s)); try done. apply Hf.
    + exists kd, (ka + d). split; [lia|done].
Qed.

(** Reads: a value with a fact about it, the bound unchanged. *)
Lemma safe_read {A B} (m : Stk A) φ (f : A → VM B) Q :
  (∀ j, small j → triple (stk_le j) m (λ a s, stk_le j s ∧ φ a)) →
  (∀ a, φ a → safe (inv v0 k) (f a) Q) → safe (inv v0 k) (on_dstack m ≫= f) Q.
Proof.
  intros Hm Hf. eapply safe_bind.
  - apply (inv_dstack m 0 φ); [done|]. intros j Hj. rewrite Z.add_0_r. apply Hm. unfold small in *. lia.
  - intros a. rewrite Z.add_0_r. apply safe_pure, Hf.
Qed.

Lemma safe_pop {B} (f : bytes → VM B) Q :
  (∀ so, elem_ok so → safe (inv v0 k) (f so) Q) → safe (inv v0 k) (on_dstack PopByteArray ≫= f) Q.
Proof. apply safe_read, pop_triple. Qed.

Lemma safe_peek {B} idx (f : bytes → VM B) Q :
  (∀ so, elem_ok so → safe (inv v0 k) (f so) Q) → safe (inv v0 k) (on_dstack (PeekByteArray idx) ≫= f) Q.
Proof. apply safe_read. intros. by apply peek_triple. Qed.

Lemma safe_popInt {B} (f : Z → VM B) Q :
  (∀ n, num_ok n → safe (inv v0 k) (f n) Q) → safe (inv v0 k) (on_dstack PopInt ≫= f) Q.
Proof. apply safe_read, popInt_triple. Qed.

Lemma safe_popBool {B} (f : bool → VM B) Q :
  (∀ b, safe (inv v0 k) (f b) Q) → safe (inv v0 k) (on_dstack PopBool ≫= f) Q.
Proof.
  intros Hf. eapply (safe_read PopBool (λ _, True)); [|auto]. intros j Hj.
  eapply triple_weaken; [by apply popBool_triple|done|done].
Qed.

Lemma safe_apop {B} (f : bytes → VM B) Q :
  (∀ so, elem_ok so → safe (inv v0 k) (f so) Q) → safe (inv v0 k) (on_astack PopByteArray ≫= f) Q.
Proof.
  intros Hf. eapply safe_bind.
  - apply (inv_astack PopByteArray 0 elem_ok); [done|]. intros j Hj. rewrite Z.add_0_r.
    apply pop_triple. unfold small in *. lia.
  - intros a. rewrite Z.add_0_r. apply safe_pure, Hf.
Qed.

(** The last step of a handler: at most three items more. *)
Lemma safe_grow (m : Stk unit) :
  (∀ j, small (j + 3) → triple (stk_le j) m (λ _, stk_le (j + 3))) →
  safe (inv v0 k) (on_dstack m) (λ _, inv v0 (k + 3)).
Proof.
  intros Hm. eapply safe_weaken; [apply (inv_dstack m 3 (λ _, True)); [done|]|done|by intros [] v [Hv _]].
  intros j Hj. eapply triple_weaken; [by apply Hm|done|done].
Qed.

Lemma safe_push so : elem_ok so → safe (inv v0 k) (on_dstack (PushByteArray so)) (λ _, inv v0 (k + 3)).
Proof. intros. apply safe_grow. intros. by apply push_triple3. Qed.

Lemma safe_apush so : elem_ok so → safe (inv v0 k) (on_astack (PushByteArray so)) (λ _, inv v0 (k + 3)).
Proof.
  intros Hso. eapply safe_weaken; [apply (inv_astack _ 3 (λ _, True)); [done|]|done|by intros [] v [Hv _]].
  intros j Hj. eapply triple_weaken; [by apply push_triple3|done|done].
Qed.

Lemma safe_pushInt n : Z.abs n < 2 ^ 39 → safe (inv v0 k) (on_dstack (PushInt n)) (λ _, inv v0 (k + 3)).
Proof.
  intros Hn. apply safe_grow. intros j Hj. eapply triple_weaken; [by apply pushInt_triple|done|].
  intros [] s. apply stk_le_mono. lia.
Qed.

Lemma safe_pushBool b : safe (inv v0 k) (on_dstack (PushBool b)) (λ _, inv v0 (k + 3)).
Proof. apply safe_push. by destruct b. Qed.

Lemma safe_done : safe (inv v0 k) (mret ()) (λ _, inv v0 (k + 3)).
Proof. apply safe_ret. intros vm. apply inv_mono. lia. Qed.

Lemma safe_set (g : Engine → Engine) :
  (∀ vm c, g (set_sigCache c vm) = set_sigCache c (g vm)) →
  (∀ vm, sigCache (g vm) = sigCache vm) →
  (∀ vm, dstack (g vm) = dstack vm ∧ astack (g vm) = astack vm) →
  (∀ vm, frame v0 vm → frame v0 (g vm)) →
  safe (inv v0 k) (st_modify g) (λ _, inv v0 k).
Proof.
  intros Hc Hs Hst Hf. apply safe_modify; [done..|]. intros vm [Hfr Hsl].
  split; [by apply Hf|]. unfold stacks_le. by destruct (Hst vm) as [-> ->].
Qed.

(** *** The tapscript context *)

Lemma ctx_some vm : inv v0 k vm → is_Some (tapscriptCtx vm) → is_Some (tapscriptCtx v0).
Proof. intros [Hf _] [t E]. pose proof (f_ctx _ _ Hf) as Hc. rewrite E in Hc. by destruct (tapscriptCtx v0). Qed.

Lemma ctx_get vm t0 : inv v0 k vm → tapscriptCtx v0 = Some t0 →
  ∃ t, tapscriptCtx vm = Some t ∧ ctx_le (Some t0) (Some t).
Proof.
  intros [Hf _] E. pose proof (f_ctx _ _ Hf) as Hc. rewrite E in Hc.
  destruct (tapscriptCtx vm) as [t|]; [|done]. by exists t.
Qed.

Lemma safe_tally {B} cost (f : VM B) Q :
  0 <= cost < 2 ^ 31 → is_Some (tapscriptCtx v0) → safe (inv v0 k) f Q →
  safe (inv v0 k) (on_tapscriptCtx (tallyOpCost cost) ;; f) Q.
Proof.
  intros Hcost [t0 Et0] Hf. eapply (safe_bind _ _ _ (λ _, inv v0 k)); [|intros []; exact Hf].
  unfold on_tapscriptCtx. apply safe_get; [done|]. intros vm Hv.
  destruct (ctx_get vm t0 Hv Et0) as (t & Et & Hle). rewrite Et.
  apply safe_lift; [done|]. intros t' [= <-].
  apply safe_lift; [unfold tallyOpCost; cbv zeta; by case_match|]. intros t' E.
  apply safe_set; [done..|]. intros vm' Hf'. apply frame_set; try done.
  rewrite Et0. cbn [tapscriptCtx set_tapscriptCtx].
  unfold tallyOpCost in E. cbv zeta in E. cbn [tc_opsBudget] in E. destruct Hle as (?&?&?&?).
  destruct (Z.ltb_spec (i32 (tc_opsBudget t - cost)) 0) as [|Hge]; [done|]. injection E as <-.
  rewrite i32_small in * by (unfold is_i32; lia). cbn. split_and!; try done; lia.
Qed.

(** *** Signature checks *)

Lemma parseTaproot_no_panic pk sg : no_panic (parseTaprootSigAndPubKey pk sg).
Proof.
  unfold parseTaprootSigAndPubKey. destruct (schnorr_ParsePubKey pk); [|done]. cbn [mbind result_bind].
  case_match; [by case_match|]. destruct (Z.eqb_spec (zlen sg) (SignatureSize + 1)) as [Hl|]; [|done].
  case_match; [|done]. unfold SignatureSize in *.
  destruct (go_index_total (E := ScriptErr) sg 64) as (x & -> & _); [lia|]. cbn [mbind result_bind].
  rewrite go_slice_total by lia. cbn [mbind result_bind]. by case_match.
Qed.

Lemma calcTaproot_no_panic c sh ht opts :
  config_ok c → no_panic (calcTaprootSignatureHashRaw (prevOutFetcher c) sh ht (tx c) (txIdx c) opts).
Proof.
  intros [_ _ Hi Hfetch]. unfold calcTaprootSignatureHashRaw. cbv zeta.
  assert (∀ o, no_panic (sigMsg (prevOutFetcher c) sh ht (tx c) (txIdx c) o)) as Hm.
  { intros o. unfold sigMsg. case_match; [done|]. case_match; [done|].
    destruct (go_index_total (E := ScriptErr) (tx_TxIn (tx c)) (txIdx c) Hi) as (ti & -> & El).
    cbn [mbind result_bind]. destruct (Hfetch ti El) as [p Ep].
    assert (∃ b, inputMsg (prevOutFetcher c) ht ti (txIdx c) = Ok b) as [b ->].
    { unfold inputMsg. rewrite Ep. case_match; by eexists. }
    cbn [mbind result_bind]. unfold singleMsg. destruct (Z.land ht sigHashMask =? SigHashSingle); [|done].
    destruct (Z.leb_spec (zlen (tx_TxOut (tx c))) (txIdx c)); [done|].
    destruct (go_index_total (E := ScriptErr) (tx_TxOut (tx c)) (txIdx c)) as (to & -> & _); [lia|]. done. }
  specialize (Hm (foldl (λ o sigHashOpt, sigHashOpt o) defaultTaprootSighashOptions opts)).
  by destruct (sigMsg _ _ _ _ _ _).
Qed.

Lemma CalcTapscript_no_panic vm sh ht :
  config_ok (config vm) →
  no_panic (CalcTapscriptSigHash vm sh ht (tx (config vm)) (txIdx (config vm)) (prevOutFetcher (config vm))).
Proof.
  intros Hc. unfold CalcTapscriptSigHash. destruct (tapscriptCtx vm); [|done]. by apply calcTaproot_no_panic.
Qed.

Lemma CalcTapscript_sized vm sh ht t i f :
  hash_sized (CalcTapscriptSigHash vm sh ht t i f).
Proof.
  unfold CalcTapscriptSigHash. destruct (tapscriptCtx vm); [|done]. apply calcTaproot_sized.
Qed.

Definition verifier_ok (t : taprootSigVerifier) : Prop :=
  built t ∧ v_tx t = tx (config v0) ∧ v_inputIndex t = txIdx (config v0) ∧
  v_prevOuts t = prevOutFetcher (config v0).

Lemma newBase_no_panic pk sg t i f sh annex :
  no_panic (newBaseTapscriptSigVerifier pk sg t i f sh annex).
Proof.
  unfold newBaseTapscriptSigVerifier. case_match; [done|]. case_match; [|done].
  unfold newTaprootSigVerifier. pose proof (parseTaproot_no_panic pk sg).
  by destruct (parseTaprootSigAndPubKey pk sg) as [[[]]| |].
Qed.

Lemma newBase_built pk sg t i f sh annex v :
  newBaseTapscriptSigVerifier pk sg t i f sh annex = Ok v →
  built v ∧ v_tx v = t ∧ v_inputIndex v = i ∧ v_prevOuts v = f.
Proof.
  unfold newBaseTapscriptSigVerifier. case_match; [done|]. case_match; [|done].
  intros (?&_&_&?&?&_&_&?)%newTaprootSigVerifier_built. done.
Qed.

Lemma safe_new_verifier {B} pk sg (f : taprootSigVerifier → VM B) Q :
  is_Some (tapscriptCtx v0) → (∀ t, verifier_ok t → safe (inv v0 k) (f t) Q) →
  safe (inv v0 k) (new_verifier pk sg ≫= f) Q.
Proof.
  intros [t0 Et0] Hf. eapply (safe_bind _ _ _ (λ t v, inv v0 k v ∧ verifier_ok t)).
  - unfold new_verifier. apply safe_get; [done|]. intros vm Hv.
    destruct (ctx_get vm t0 Hv Et0) as (t & Et & _). rewrite Et.
    apply safe_lift; [done|]. intros t' [= <-]. destruct Hv as [Hfr _].
    intros vm' c Hv' Hs Hc. unfold st_lift.
    pose proof (newBase_no_panic pk sg (tx (config vm)) (txIdx (config vm)) (prevOutFetcher (config vm))
      (hashCache (config vm)) (tc_annex t)) as Hn.
    destruct (newBaseTapscriptSigVerifier _ _ _ _ _ _ _) as [v| |] eqn:E; [|done..].
    apply newBase_built in E as (Hb & Htx & Hi & Hp). rewrite (f_config _ _ Hfr) in Htx, Hi, Hp. cbn.
    split; [done|]. split; [done|]. by exists c.
  - intros t. apply safe_pure, Hf.
Qed.

Lemma safe_tapscript_Verify {B} t (f : bool → VM B) Q :
  verifier_ok t → (∀ b, safe (inv v0 k) (f b) Q) → safe (inv v0 k) (tapscript_Verify t ≫= f) Q.
Proof.
  intros (Hb & Htx & Hi & Hp) Hf. eapply (safe_bind _ _ _ (λ _, inv v0 k)); [|exact Hf].
  unfold tapscript_Verify. apply safe_get; [done|]. intros vm [Hfr _].
  eapply safe_sigCache with (r := verdict t (CalcTapscriptSigHash vm (v_hashCache t) (v_hashType t)
    (v_tx t) (v_inputIndex t) (v_prevOuts t))).
  - intros c Hc. edestruct (verify_hash_run t) as (c' & E & Hc' & _); [done|eapply CalcTapscript_sized|done|].
    exists c'. split; [exact E|done].
  - rewrite Htx, Hi, Hp, <-(f_config _ _ Hfr).
    pose proof (CalcTapscript_no_panic vm (v_hashCache t) (v_hashType t)) as Hn.
    destruct (CalcTapscriptSigHash _ _ _ _ _ _); [done..|]. apply Hn. rewrite (f_config _ _ Hfr). apply Hfr.
  - intros v c a [Hv Hst] _. split; [by apply (frame_set v0 v (set_sigCache c)); try done; apply Hv|done].
Qed.
End with_v0.

(** ** The handlers *)

Section handlers.
Context (v0 : Engine) (k : Z) (Hk : small (k + 9)).

Lemma Hk3 : small (k + 3).
Proof. unfold small in *. lia. Qed.

Lemma i64_num n : Z.abs n < 2 ^ 39 → Z.abs (i64 n) < 2 ^ 39.
Proof. intros. rewrite i64_small; [done|]. unfold is_i64. lia. Qed.

Lemma hash_elem_ok b : zlen b <= 32 → elem_ok b.
Proof. unfold elem_ok, MaxScriptElementSize. lia. Qed.

Lemma elem_ok_nil : elem_ok [].
Proof. done. Qed.

(** One step of a handler. *)
Ltac hside := first
  [ done | apply elem_ok_nil
  | apply hash_elem_ok; rewrite ?sha256_size, ?sha1_size, ?ripemd160_size; lia
  | unfold num_ok, elem_ok, MaxScriptElementSize in *;
    repeat first [apply i64_num | case_match]; lia ].

Ltac hstep := first
  [ apply (safe_done v0 k) | apply safe_fail
  | apply (safe_push v0 k Hk3); hside
  | apply (safe_apush v0 k Hk3); hside
  | apply (safe_pushInt v0 k Hk3); hside
  | apply (safe_pushBool v0 k Hk3)
  | apply (safe_pop v0 k Hk3); intros ?so ?Hso
  | apply (safe_apop v0 k Hk3); intros ?so ?Hso
  | apply (safe_peek v0 k Hk3); intros ?so ?Hso
  | apply (safe_popInt v0 k Hk3); intros ?n ?Hn
  | apply (safe_popBool v0 k Hk3); intros ?b
  | apply safe_get; [done|]; intros ?vm ?Hvm ].

Ltac grow lem := apply (safe_grow v0 k Hk3); intros; apply lem; (done || lia).

Lemma popIfBool_safe {B} (f : bool → VM B) Q :
  (∀ b, safe (inv v0 k) (f b) Q) → safe (inv v0 k) (popIfBool ≫= f) Q.
Proof.
  intros Hf. eapply (safe_bind _ _ _ (λ _, inv v0 k)); [|exact Hf].
  unfold popIfBool. hstep. case_match; [hstep|]. case_match; [hstep|]. by apply safe_ret.
Qed.

Lemma frame_free v g :
  frame v0 v → config (g v) = config v → scripts (g v) = scripts v → scriptIdx (g v) = scriptIdx v →
  opcodeIdx (g v) = opcodeIdx v → tokenizer (g v) = tokenizer v → numOps (g v) = numOps v →
  tapscriptCtx (g v) = tapscriptCtx v → frame v0 (g v).
Proof. intros Hf ?????? E. apply (frame_set v0 v g); try done. rewrite E. apply Hf. Qed.

Lemma cond_safe l : safe (inv v0 k) (st_modify (set_condStack l)) (λ _, inv v0 (k + 3)).
Proof.
  eapply safe_weaken; [apply (safe_set v0 k)|done|]; [done..| |].
  - intros vm Hf. by apply (frame_free vm (set_condStack l)).
  - intros [] vm. apply inv_mono. lia.
Qed.

Lemma push_cond_safe c : safe (inv v0 k) (push_cond c) (λ _, inv v0 (k + 3)).
Proof.
  unfold push_cond. eapply safe_weaken; [apply (safe_set v0 k)|done|]; [done..| |].
  - intros vm Hf. by apply (frame_free vm (λ vm, set_condStack (condStack vm ++ [c]) vm)).
  - intros [] vm. apply inv_mono. lia.
Qed.

Lemma opcodeIf_safe op data : safe (inv v0 k) (opcodeIf op data) (λ _, inv v0 (k + 3)).
Proof. hstep. case_match; [|apply push_cond_safe]. apply popIfBool_safe. intros. apply push_cond_safe. Qed.

Lemma opcodeNotIf_safe op data : safe (inv v0 k) (opcodeNotIf op data) (λ _, inv v0 (k + 3)).
Proof. hstep. case_match; [|apply push_cond_safe]. apply popIfBool_safe. intros. apply push_cond_safe. Qed.

Lemma opcodeElse_safe op data : safe (inv v0 k) (opcodeElse op data) (λ _, inv v0 (k + 3)).
Proof.
  hstep. destruct (Z.eqb_spec (zlen (condStack vm)) 0); [hstep|]. pose proof (zlen_nonneg (condStack vm)).
  cbv zeta. destruct (go_index_total (E := ScriptErr) (condStack vm) (zlen (condStack vm) - 1)) as (c & E & _); [lia|].
  apply safe_lift; [by rewrite E|]. intros a _. destruct a; [apply cond_safe..|hstep].
Qed.

Lemma opcodeEndif_safe op data : safe (inv v0 k) (opcodeEndif op data) (λ _, inv v0 (k + 3)).
Proof.
  hstep. destruct (Z.eqb_spec (zlen (condStack vm)) 0); [hstep|]. pose proof (zlen_nonneg (condStack vm)).
  rewrite go_slice_total by lia. apply safe_lift; [done|]. intros a _. apply cond_safe.
Qed.

Lemma abstractVerify_safe op c : safe (inv v0 (k + 3)) (abstractVerify op c) (λ _, inv v0 (k + 3)).
Proof.
  unfold abstractVerify. apply safe_popBool; [unfold small in *; lia|]. intros b.
  case_match; [hstep|]. by apply safe_ret.
Qed.

Lemma with_verify (m : VM unit) op c :
  safe (inv v0 k) m (λ _, inv v0 (k + 3)) →
  safe (inv v0 k) (m ;; abstractVerify op c) (λ _, inv v0 (k + 3)).
Proof. intros Hm. eapply safe_bind; [exact Hm|]. intros []. apply abstractVerify_safe. Qed.

Lemma opcodeVerify_safe op data : safe (inv v0 k) (opcodeVerify op data) (λ _, inv v0 (k + 3)).
Proof.
  unfold opcodeVerify, abstractVerify. hstep. case_match; hstep.
Qed.

Lemma verifyLockTime_no_panic a b c : no_panic (verifyLockTime a b c).
Proof. unfold verifyLockTime. by repeat case_match. Qed.

Lemma this_input_no_panic vm : inv v0 k vm → no_panic (this_input vm).
Proof.
  intros [Hf _]. unfold this_input. rewrite (f_config _ _ Hf).
  destruct (go_index_total (E := ScriptErr) (tx_TxIn (tx (config v0))) (txIdx (config v0))) as (ti & -> & _);
    [apply Hf|done].
Qed.

Lemma lift_last r : no_panic r → safe (inv v0 k) (st_lift r) (λ _ : unit, inv v0 (k + 3)).
Proof.
  intros Hr vm c Hv Hs Hc. unfold st_lift. destruct r; [|done..]. cbn.
  split; [revert Hv; apply inv_mono; lia|]. split; [done|]. by exists c.
Qed.

Lemma opcodeCLTV_safe op data :
  safe (inv v0 k) (opcodeCheckLockTimeVerify op data) (λ _, inv v0 (k + 3)).
Proof.
  hstep. hstep. apply safe_lift; [by apply MakeScriptNum_range|]. intros n _.
  case_match; [hstep|]. apply safe_lift; [apply verifyLockTime_no_panic|]. intros [] _.
  apply safe_lift; [by apply this_input_no_panic|]. intros ti _. case_match; hstep.
Qed.

Lemma opcodeCSV_safe op data :
  safe (inv v0 k) (opcodeCheckSequenceVerify op data) (λ _, inv v0 (k + 3)).
Proof.
  hstep. hstep. apply safe_lift; [by apply MakeScriptNum_range|]. intros n _.
  case_match; [hstep|]. case_match; [hstep|]. case_match; [hstep|].
  apply safe_lift; [by apply this_input_no_panic|]. intros ti _. cbv zeta. case_match; [hstep|].
  apply lift_last, verifyLockTime_no_panic.
Qed.

Lemma opcodeIfDup_safe op data : safe (inv v0 k) (opcodeIfDup op data) (λ _, inv v0 (k + 3)).
Proof. hstep. case_match; hstep. Qed.

Lemma opcodeDepth_safe op data : safe (inv v0 k) (opcodeDepth op data) (λ _, inv v0 (k + 3)).
Proof.
  hstep. apply (safe_pushInt v0 k Hk3). unfold Depth.
  pose proof (i32_range (zlen (stk (dstack vm)))) as Hr. unfold is_i32 in Hr. lia.
Qed.

Lemma opcodeSize_safe op data : safe (inv v0 k) (opcodeSize op data) (λ _, inv v0 (k + 3)).
Proof. hstep. pose proof (zlen_nonneg so). hstep. Qed.

Lemma opcodeEqual_safe op data : safe (inv v0 k) (opcodeEqual op data) (λ _, inv v0 (k + 3)).
Proof. do 3 hstep. Qed.

Lemma opcodePick_safe op data : safe (inv v0 k) (opcodePick op data) (λ _, inv v0 (k + 3)).
Proof. hstep. grow PickN_triple. Qed.

Lemma opcodeRoll_safe op data : safe (inv v0 k) (opcodeRoll op data) (λ _, inv v0 (k + 3)).
Proof. hstep. grow RollN_triple. Qed.

Lemma binop_safe f :
  (∀ n m, num_ok n → num_ok m → Z.abs (f n m) < 2 ^ 39) →
  safe (inv v0 k) (binop f) (λ _, inv v0 (k + 3)).
Proof. intros Hf. unfold binop. do 2 hstep. apply (safe_pushInt v0 k Hk3). by apply Hf. Qed.

Lemma opcodeWithin_safe op data : safe (inv v0 k) (opcodeWithin op data) (λ _, inv v0 (k + 3)).
Proof. do 4 hstep. Qed.

(** A handler that is only for tapscript. *)
Ltac tapscript_only :=
  apply safe_get; [done|]; intros vm Hvm;
  let E := fresh in
  destruct (tapscriptCtx vm) as [?ctx|] eqn:E; [|hstep];
  assert (is_Some (tapscriptCtx v0)) as Htap
    by (apply (ctx_some v0 k vm Hvm); rewrite E; by eexists);
  clear E.

Lemma opcodeCat_safe op data : safe (inv v0 k) (opcodeCat op data) (λ _, inv v0 (k + 3)).
Proof.
  unfold opcodeCat. tapscript_only. case_match; [hstep|]. do 2 hstep. cbv zeta.
  pose proof (zlen_nonneg so). pose proof (zlen_nonneg so0).
  destruct (Z.ltb_spec MaxScriptElementSize (zlen so0 + zlen so)) as [|Hle]; [hstep|].
  unfold MaxScriptElementSize in *.
  apply (safe_tally v0 k); [|done|].
  - assert (0 <= (zlen so0 + zlen so + 63) / 64 < 2 ^ 31).
    { split; [apply Z.div_pos; lia|apply Z.div_lt_upper_bound; lia]. }
    rewrite i32_small; [done|]. unfold is_i32. lia.
  - apply (safe_push v0 k Hk3). unfold elem_ok, MaxScriptElementSize. rewrite zlen_app. lia.
Qed.

(** The charge for a signature that is not empty. *)
Lemma charge_safe {B} (b : bool) (f : VM B) Q :
  is_Some (tapscriptCtx v0) → safe (inv v0 k) f Q →
  safe (inv v0 k) ((if b then on_tapscriptCtx tallysigOp else mret ()) ;; f) Q.
Proof.
  intros Htap Hf. destruct b.
  - by apply (safe_tally v0 k sigOpsDelta).
  - eapply (safe_bind _ _ _ (λ _, inv v0 k)); [by apply safe_ret|by intros []].
Qed.

Lemma opcodeCheckSig_safe op data : safe (inv v0 k) (opcodeCheckSig op data) (λ _, inv v0 (k + 3)).
Proof.
  unfold opcodeCheckSig. do 2 hstep. tapscript_only. apply charge_safe; [done|].
  case_match; [hstep|]. case_match; [hstep|].
  apply (safe_new_verifier v0 k); [done|]. intros t Ht.
  apply (safe_tapscript_Verify v0 k); [done|]. intros b. case_match; hstep.
Qed.

Lemma pop_chunks_safe {B} n l (f : list bytes → VM B) Q :
  (∀ l, safe (inv v0 k) (f l) Q) → safe (inv v0 k) (pop_chunks n l ≫= f) Q.
Proof.
  intros Hf. eapply (safe_bind _ _ _ (λ _, inv v0 k)); [|exact Hf].
  revert l. induction n as [|n IH]; intros l; [by apply safe_ret|]. cbn [pop_chunks]. hstep. apply IH.
Qed.

Lemma opcodeCheckXmssSig_safe op data :
  safe (inv v0 k) (opcodeCheckXmssSig op data) (λ _, inv v0 (k + 3)).
Proof.
  unfold opcodeCheckXmssSig. tapscript_only. hstep. apply pop_chunks_safe. intros l.
  case_match; [hstep|]. case_match; [hstep|]. apply (safe_tally v0 k); [done..|].
  apply safe_get; [done|]. intros vm' [Hf _]. cbv zeta.
  pose proof (CalcTapscript_no_panic vm' (hashCache (config vm')) SigHashDefault) as Hn.
  rewrite (f_config _ _ Hf) in *. specialize (Hn (f_config_ok _ _ Hf)).
  destruct (CalcTapscriptSigHash _ _ _ _ _ _); [|hstep|done]. case_match; hstep.
Qed.

Lemma opcodeCheckSigAdd_safe op data :
  safe (inv v0 k) (opcodeCheckSigAdd op data) (λ _, inv v0 (k + 3)).
Proof.
  unfold opcodeCheckSigAdd. tapscript_only. do 3 hstep. apply charge_safe; [done|].
  case_match; [hstep|]. case_match; [hstep|].
  apply (safe_new_verifier v0 k); [done|]. intros t Ht.
  apply (safe_tapscript_Verify v0 k); [done|]. intros b. case_match; hstep.
Qed.

Lemma opcodeCodeSeparator_safe op data :
  safe (inv v0 k) (opcodeCodeSeparator op data) (λ _, inv v0 (k + 3)).
Proof.
  unfold opcodeCodeSeparator. eapply (safe_bind _ _ _ (λ _, inv v0 k)); [|intros []].
  - apply safe_set; [done..|]. intros vm Hf.
    by apply (frame_free vm (λ vm, set_lastCodeSep (ByteIndex (tokenizer vm)) vm)).
  - eapply safe_weaken; [apply (safe_set v0 k)|done|intros [] vm; apply inv_mono; lia].
    + intros vm c. cbn. by destruct (tapscriptCtx vm).
    + intros vm. by destruct (tapscriptCtx vm).
    + intros vm. by destruct (tapscriptCtx vm).
    + intros vm Hf. destruct (tapscriptCtx vm) as [t|] eqn:E; [|done].
      apply (frame_set v0 vm (set_tapscriptCtx (Some _))); try done.
      pose proof (f_ctx _ _ Hf) as Hc. rewrite E in Hc. destruct (tapscriptCtx v0); [|done]. exact Hc.
Qed.


Lemma keep_safe (m : Stk unit) :
  (∀ j, small (j + 3) → triple (stk_le j) m (λ _, stk_le j)) →
  safe (inv v0 k) (on_dstack m) (λ _, inv v0 (k + 3)).
Proof.
  intros Hm. apply (safe_grow v0 k Hk3). intros j Hj. eapply triple_weaken; [by apply Hm|done|].
  intros [] s. apply stk_le_mono. lia.
Qed.

Lemma opcodeN_safe op data : safe (inv v0 k) (opcodeN op data) (λ _, inv v0 (k + 3)).
Proof.
  apply (safe_pushInt v0 k Hk3). unfold u8. pose proof (Z.mod_pos_bound (value op - (OP_1 - 1)) (2 ^ 8)). lia.
Qed.

Lemma opcodeNop_safe op data : safe (inv v0 k) (opcodeNop op data) (λ _, inv v0 (k + 3)).
Proof. unfold opcodeNop. case_match; hstep. Qed.

(** A pop and a push of a hash. *)
Lemma hash_safe (h : bytes → bytes) :
  (∀ b, zlen (h b) <= 32) →
  safe (inv v0 k) (buf ← on_dstack PopByteArray; on_dstack (PushByteArray (h buf))) (λ _, inv v0 (k + 3)).
Proof. intros Hh. hstep. apply (safe_push v0 k Hk3), hash_elem_ok, Hh. Qed.

(** A pop and a push of a number. *)
Lemma unop_safe (f : Z → Z) :
  (∀ n, num_ok n → Z.abs (f n) < 2 ^ 39) →
  safe (inv v0 k) (m ← on_dstack PopInt; on_dstack (PushInt (f m))) (λ _, inv v0 (k + 3)).
Proof. intros Hf. hstep. apply (safe_pushInt v0 k Hk3), Hf, Hn. Qed.

(** Every opcode. *)
Lemma handler_safe h op data :
  elem_ok data → safe (inv v0 k) (run_handler h op data) (λ _, inv v0 (k + 3)).
Proof.
  intros Hd. destruct h; cbn [run_handler]; try apply safe_fail;
    try (apply keep_safe; intros; first [apply DropN_triple | apply NipN_triple]; done);
    try (apply (safe_grow v0 k Hk3); intros;
         first [apply DupN_triple | apply OverN_triple | apply RotN_triple | apply SwapN_triple
               | apply Tuck_triple]; done || lia);
    try (apply unop_safe; intros n Hn; hside);
    try (apply binop_safe; intros n m Hn Hm; hside);
    try (apply hash_safe; intros b; unfold DoubleHashB;
         rewrite ?sha256_size, ?sha1_size, ?ripemd160_size; lia).
  - apply (safe_push v0 k Hk3), elem_ok_nil.
  - by apply (safe_push v0 k Hk3).
  - by apply (safe_pushInt v0 k Hk3).
  - apply opcodeN_safe.
  - apply opcodeNop_safe.
  - apply opcodeIf_safe.
  - apply opcodeNotIf_safe.
  - apply opcodeElse_safe.
  - apply opcodeEndif_safe.
  - apply opcodeVerify_safe.
  - apply opcodeCLTV_safe.
  - apply opcodeCSV_safe.
  - apply (safe_pop v0 k Hk3). intros so Hso. by apply (safe_apush v0 k Hk3).
  - apply (safe_apop v0 k Hk3). intros so Hso. by apply (safe_push v0 k Hk3).
  - apply opcodeIfDup_safe.
  - apply opcodeDepth_safe.
  - apply opcodePick_safe.
  - apply opcodeRoll_safe.
  - apply opcodeCat_safe.
  - apply opcodeSize_safe.
  - apply opcodeEqual_safe.
  - apply with_verify, opcodeEqual_safe.
  - apply with_verify. apply binop_safe. intros n m Hn Hm. hside.
  - apply opcodeWithin_safe.
  - apply opcodeCodeSeparator_safe.
  - apply opcodeCheckSig_safe.
  - apply with_verify, opcodeCheckSig_safe.
  - apply opcodeCheckSigAdd_safe.
  - apply opcodeCheckXmssSig_safe.
Qed.
End handlers.
End safety.
