(* ===== verification/EngineExec.v ===== *)
(** * Executing scripts: safety, limits and termination

    The state between two steps, what a step makes of it, and with that the
    execution as a whole: it ends, does not panic, stays within the limits, and
    its verdict does not depend on the signature cache. *)
From stdpp Require Import strings.
From Stdlib Require Import Lia ZArith.
From S2P Require Import Prelude Wire MsgTx ScriptError ScriptNum Stack Opcode Tokenizer Standard Crypto Taproot SigCache SigHash Engine EngineSafety.

(** ** Stacks as a whole *)

Lemma setStack_run data l m :
  stk_ok l → setStack data (mkStack l m) = Ok ((), mkStack data m).
Proof.
  intros Hok. unfold setStack. cbv [mbind st_bind st_get]. unfold ignore_err, Depth. cbn [stk].
  rewrite stk_ok_i32 by done.
  assert ((match DropN (zlen l) (mkStack l m) with
           | Ok r => Ok r | Fail _ => Ok ((), mkStack l m) | Panic => Panic end) = Ok ((), mkStack [] m)
          (E := ScriptErr)) as ->.
  { unfold DropN. destruct (Z.ltb_spec (zlen l) 1) as [Hlt|Hge].
    - assert (l = []) as ->; [|done]. apply zlen_0. pose proof (zlen_nonneg l). lia.
    - rewrite to_nat_zlen. pose proof (pop_loop m [] l Hok) as E. cbn [app] in E. by rewrite E. }
  assert (∀ (data pre : list bytes) (acc : Stk unit), acc (mkStack [] m) = Ok ((), mkStack pre m) →
    foldl (λ m d, m ;; PushByteArray d) acc data (mkStack [] m) = Ok ((), mkStack (pre ++ data) m)) as Hf.
  { clear. intros data. induction data as [|d data IH]; intros pre acc Hacc; [by rewrite app_nil_r|].
    cbn [foldl]. replace (pre ++ d :: data) with ((pre ++ [d]) ++ data) by (by rewrite <-(assoc_L (++))).
    apply IH. cbv [mbind st_bind]. by rewrite Hacc. }
  by apply (Hf data [] (mret ())).
Qed.

Lemma getStack_loop_run l m n k :
  stk_ok l → (n <= length l)%nat → k = take (length l - n) l →
  getStack_loop n (mkStack l m) k = Ok l.
Proof.
  intros Hok. revert k. induction n as [|n IH]; intros k Hn ->.
  - by rewrite Nat.sub_0_r, firstn_all.
  - cbn [getStack_loop]. destruct (stk_split l (Z.of_nat n)) as (l1 & x & l2 & El & Hl2); [unfold zlen; lia|].
    assert (PeekByteArray (Z.of_nat n) (mkStack l m) = Ok (x, mkStack l m)) as ->
      by (rewrite El; apply peek_run; [by rewrite <-El|done]).
    apply IH; [lia|].
    assert (length l - S n = length l1)%nat as ->.
    { rewrite El, length_app. cbn. unfold zlen in Hl2. lia. }
    assert (length l - n = length (l1 ++ [x]))%nat as ->.
    { rewrite El, !length_app. cbn. unfold zlen in Hl2. lia. }
    rewrite El. rewrite take_app_length.
    change (l1 ++ x :: l2) with (l1 ++ [x] ++ l2). rewrite (assoc_L (++)). by rewrite take_app_length.
Qed.

Lemma getStack_run l m : stk_ok l → getStack (mkStack l m) = Ok l.
Proof.
  intros Hok. unfold getStack, Depth. cbn [stk]. rewrite stk_ok_i32 by done.
  pose proof (zlen_nonneg l). rewrite (proj2 (Z.ltb_ge _ _)) by lia. rewrite to_nat_zlen.
  apply getStack_loop_run; [done|done|]. by rewrite Nat.sub_diag.
Qed.

(** ** The size of a witness *)

Lemma total_size_elem {A} (f : A → list bytes) l x : x ∈ l → total_size (f x) <= total_size (concat (map f l)).
Proof.
  induction 1 as [x l|x y l _ IH]; cbn [map concat]; rewrite total_size_app.
  - pose proof (total_size_nonneg (concat (map f l))). lia.
  - pose proof (total_size_nonneg (f y)). lia.
Qed.

Lemma VarInt_size_le n : 0 <= VarIntSerializeSize n <= 9.
Proof. unfold VarIntSerializeSize. repeat case_match; lia. Qed.

Lemma witness_SerializeSize_le w :
  0 <= TxWitness_SerializeSize w <= 9 + 9 * zlen w + total_size w.
Proof.
  unfold TxWitness_SerializeSize.
  assert (∀ n, n <= foldl (λ n witItem, n + VarIntSerializeSize (u64 (zlen witItem)) + zlen witItem) n w
    <= n + 9 * zlen w + total_size w) as Hf.
  { induction w as [|x w IH]; intros n; cbn [foldl total_size]; [change (zlen []) with 0; lia|].
    rewrite zlen_cons. specialize (IH (n + VarIntSerializeSize (u64 (zlen x)) + zlen x)).
    pose proof (VarInt_size_le (u64 (zlen x))). pose proof (zlen_nonneg x). lia. }
  specialize (Hf (VarIntSerializeSize (u64 (zlen w)))). pose proof (VarInt_size_le (u64 (zlen w))). lia.
Qed.

(** Witnesses of well-formed transactions. *)
Definition wit_ok (w : TxWitness) : Prop :=
  wf_TxWitness w ∧ 0 <= TxWitness_SerializeSize w < 2 ^ 30.

Lemma wf_wit_ok tx ti : wf_MsgTx tx → ti ∈ tx_TxIn tx → wit_ok (Witness ti).
Proof.
  intros (_&_&_&Hw&_&_&_&Ht) Hin. rewrite Forall_forall in Hw. specialize (Hw ti Hin).
  split; [done|]. pose proof (witness_SerializeSize_le (Witness ti)) as Hs. destruct Hw as [Hn _].
  assert (total_size (Witness ti) <= scriptSlabSize).
  { etrans; [|exact Ht]. unfold all_scripts. rewrite total_size_app.
    pose proof (total_size_nonneg (map PkScript (tx_TxOut tx))).
    pose proof (total_size_elem in_scripts (tx_TxIn tx) ti Hin) as He.
    unfold in_scripts at 1 in He. cbn [total_size] in He. pose proof (zlen_nonneg (SignatureScript ti)). lia. }
  unfold maxWitnessItemsPerInput, scriptSlabSize in *. change (Z.shiftl 1 22) with 4194304 in *. lia.
Qed.

(** ** The checks of the witness do not panic *)

Lemma strip_run witness :
  ∃ w annex, stripWitnessAnnex witness = Ok (w, annex) ∧
    w = (if isAnnexedWitness witness then removelast witness else witness) ∧
    (witness ≠ [] → w ≠ []).
Proof.
  unfold stripWitnessAnnex. destruct (isAnnexedWitness witness) eqn:E; [|by exists witness, None].
  unfold extractAnnex. rewrite E. cbn [negb].
  unfold isAnnexedWitness in E. destruct (Z.ltb_spec (zlen witness) 2) as [|Hl]; [done|].
  destruct (go_index_total (E := ScriptErr) witness (zlen witness - 1)) as (x & -> & _); [lia|].
  cbn [mbind result_bind]. rewrite go_slice_total by lia. cbn [mbind result_bind].
  eexists _, _. split; [done|].
  rewrite drop_0. replace (Z.to_nat (zlen witness - 1 - 0)) with (length witness - 1)%nat by (unfold zlen; lia).
  split; [|intros _]; destruct witness as [|y witness _] using rev_ind; try done.
  - rewrite removelast_last, length_app, Nat.add_1_r, Nat.sub_succ, Nat.sub_0_r. by rewrite take_app_length.
  - rewrite zlen_snoc in Hl. rewrite length_app, Nat.add_1_r, Nat.sub_succ, Nat.sub_0_r, take_app_length.
    intros ->. change (zlen []) with 0 in Hl. lia.
Qed.

Lemma ParseMRCB_no_panic raw : no_panic (ParseMerkleRootControlBlock raw).
Proof.
  unfold ParseMerkleRootControlBlock, MerkleRootControlBlockBaseSize.
  destruct (Z.ltb_spec (zlen raw) 1); [done|]. case_match; [done|]. case_match; [done|].
  destruct (go_index_total (E := ScriptErr) raw 0) as (c & -> & _); [lia|]. cbn [mbind result_bind].
  case_match; [done|]. by rewrite go_slice_total by lia.
Qed.

Section exec.
Context `{HashFns} `{Keys} `{!MapRange bytes sigCacheEntry}.
Abbreviation VM := (ST ScriptErr Engine).

Lemma ParseCB_no_panic raw : no_panic (ParseControlBlock raw).
Proof.
  unfold ParseControlBlock, ControlBlockBaseSize.
  destruct (Z.ltb_spec (zlen raw) 33); [done|]. case_match; [done|]. case_match; [done|].
  destruct (go_index_total (E := ScriptErr) raw 0) as (c & -> & _); [lia|]. cbn [mbind result_bind].
  rewrite !go_slice_total by lia. cbn [mbind result_bind]. by case_match.
Qed.

Lemma VerifyMR_no_panic c program script :
  no_panic (VerifyMerkleRootLeafCommitment c program script).
Proof.
  unfold VerifyMerkleRootLeafCommitment, MRCB_RootHash.
  destruct (computeMerkleRoot_total (mr_LeafVersion c) (mr_InclusionProof c) script) as (root & -> & _).
  cbn [mbind result_bind]. by case_match.
Qed.

Lemma VerifyTaproot_no_panic c program script :
  no_panic (VerifyTaprootLeafCommitment c program script).
Proof.
  unfold VerifyTaprootLeafCommitment, RootHash.
  destruct (computeMerkleRoot_total (LeafVersion c) (InclusionProof c) script) as (root & -> & _).
  cbn [mbind result_bind]. destruct (ComputeTaprootOutputKey_total (InternalKey c) root) as [k ->].
  cbn [mbind result_bind]. cbv zeta. case_match; [done|]. destruct (y_is_odd_total k) as [b ->].
  cbn [mbind result_bind]. by case_match.
Qed.

(** ** Key-path spends *)

Lemma safe_keySpend P program rawSig c0 Q :
  config_ok c0 →
  (∀ vm c, P vm → Q () (set_sigCache c vm)) →
  safe P (on_sigCache (VerifyTaprootKeySpend program rawSig (tx c0) (txIdx c0) (prevOutFetcher c0) (hashCache c0))) Q.
Proof.
  intros Hc0 HQ. pose proof (co_idx _ Hc0) as Hi.
  destruct (go_index_total (E := ScriptErr) (tx_TxIn (tx c0)) (txIdx c0) Hi) as (ti & Et & _).
  eapply safe_sigCache with (r :=
    ('(k, s, ht) ← parseTaprootSigAndPubKey program rawSig;
     b ← match calcTaprootSignatureHashRaw (prevOutFetcher c0) (hashCache c0) ht (tx c0) (txIdx c0)
                 (annex_opts (Witness ti)) with
         | Ok h => Ok (schnorr_Verify s h k) | Fail _ => Ok false | Panic => Panic end;
     if b : bool then Ok () else Fail (scriptError ErrTaprootSigInvalid))).
  - intros c Hc. destruct (VerifyTaprootKeySpend_run program rawSig (tx c0) (txIdx c0) ti
      (prevOutFetcher c0) (hashCache c0) c Et Hc) as (c' & Hc' & _ & ->).
    exists c'. split; [|done]. destruct (parseTaprootSigAndPubKey _ _) as [[[k s] ht]| |]; [|done..]. cbn.
    destruct (calcTaprootSignatureHashRaw _ _ _ _ _ _); cbn; [|done..]. by destruct (schnorr_Verify _ _ _).
  - pose proof (parseTaproot_no_panic program rawSig).
    destruct (parseTaprootSigAndPubKey _ _) as [[[k s] ht]| |]; [|done..]. cbn.
    pose proof (calcTaproot_no_panic c0 (hashCache c0) ht (annex_opts (Witness ti)) Hc0) as Hn.
    destruct (calcTaprootSignatureHashRaw _ _ _ _ _ _); cbn; [|done..]. by destruct (schnorr_Verify _ _ _).
  - intros vm c [] HP _. by apply HQ.
Qed.

(** ** Running from a known state *)

(** Engines that differ in the signature cache only. *)
Definition same (vm v : Engine) : Prop := ∃ c, v = set_sigCache c vm.

Lemma same_refl vm : same vm vm.
Proof. exists (sigCache vm). by destruct vm. Qed.

Lemma safe_get_same {A} (P : Engine → Prop) (f : Engine → VM A) Q :
  cacheless f → (∀ vm, P vm → safe (same vm) (f vm) Q) → safe P (st_get ≫= f) Q.
Proof.
  intros Hf Hm vm c HP Hs Hc. cbv [mbind st_bind st_get]. rewrite (Hf vm c).
  apply (Hm vm HP); [apply same_refl|done..].
Qed.

(** A step that does not read the cache. *)
Lemma safe_run {A B} vm vm' (a : A) (m : VM A) (f : A → VM B) Q :
  (∀ c, m (set_sigCache c vm) = Ok (a, set_sigCache c vm')) →
  safe (same vm') (f a) Q → safe (same vm) (m ≫= f) Q.
Proof.
  intros Hm Hf. eapply (safe_bind _ _ _ (λ a' v, a' = a ∧ same vm' v)).
  - intros v c [c' ->] Hs Hc. rewrite Hm. split; [split; [done|by exists c']|].
    split; [done|]. exists c. split; [done|]. apply Hm.
  - intros a' v c [-> Hv]. by apply Hf.
Qed.

Lemma safe_run_last {A} vm vm' (a : A) (m : VM A) Q :
  (∀ c, m (set_sigCache c vm) = Ok (a, set_sigCache c vm')) →
  (∀ c, Q a (set_sigCache c vm')) → safe (same vm) m Q.
Proof.
  intros Hm HQ v c [c' ->] Hs Hc. rewrite Hm. split; [apply HQ|]. split; [done|].
  exists c. split; [done|]. apply Hm.
Qed.

Lemma safe_known {A} vm (P : Engine → Prop) (m : VM A) Q :
  (∀ c, P (set_sigCache c vm)) → safe P m Q → safe (same vm) m Q.
Proof. intros HP Hm v c [c' ->]. apply Hm, HP. Qed.

Lemma safe_ret_same {A} vm (a : A) (Q : A → Engine → Prop) :
  (∀ c, Q a (set_sigCache c vm)) → safe (same vm) (mret a) Q.
Proof. intros HQ. apply safe_ret. intros v [c ->]. apply HQ. Qed.

(** ** The state between two steps *)

Definition ctx_ok (o : option tapscriptExecutionCtx) : Prop :=
  match o with Some t => 0 <= tc_opsBudget t < 2 ^ 31 | None => True end.

Record common (k : Z) (vm : Engine) : Prop := mkCommon {
  c_config : config_ok (config vm);
  c_scripts : Forall (λ s, script_ok s ∧ parses s) (scripts vm);
  c_stacks : stacks_le k vm;
  c_numOps : 0 <= numOps vm <= MaxOpsPerScript;
  c_ctx : ctx_ok (tapscriptCtx vm);
  c_idx : 0 <= scriptIdx vm;
  c_two : zlen (scripts vm) <= 3 ∧ (scriptIdx vm < 2 → zlen (scripts vm) = 2);
  c_budget t ti : tapscriptCtx vm = Some t → this_input vm = Ok ti →
    tc_opsBudget t <= sigOpsDelta + TxWitness_SerializeSize (Witness ti)
}.

(** Bytes of leaf scripts that may still be added, and of the scripts to come. *)
Definition leaf_bytes (vm : Engine) : nat :=
  match this_input vm with Ok txIn => length (concat (Witness txIn)) | _ => 0%nat end.

Definition later (vm : Engine) : nat :=
  length (concat (drop (S (Z.to_nat (scriptIdx vm))) (scripts vm))) +
  (if scriptIdx vm <? 2 then leaf_bytes vm else 0).

(** The current script, what has run of it and the tokens left. *)
Record at_tokens (pre : bytes) (tks : list token) (vm : Engine) : Prop := mkAt {
  at_script : scripts vm !! Z.to_nat (scriptIdx vm) = Some (pre ++ script_of tks);
  at_wf : Forall wf_token tks;
  at_tok : ∃ pos last, -1 <= pos < zlen pre ∧
    tokenizer vm = tok_at (pre ++ script_of tks) pre pos last
}.

Record running (n : nat) (vm : Engine) : Prop := mkRunning {
  ru_common : common MaxStackSize vm;
  ru_at : ∃ pre tk tks, at_tokens pre (tk :: tks) vm ∧
    (length (script_of (tk :: tks)) + later vm <= n)%nat
}.

Definition finished (vm : Engine) : Prop :=
  common MaxStackSize vm ∧ zlen (scripts vm) <= scriptIdx vm.

Lemma common_cache k c vm : common k vm → common k (set_sigCache c vm).
Proof. by intros []; split. Qed.

Lemma running_cache n c vm : running n vm → running n (set_sigCache c vm).
Proof.
  intros [Hc (pre & tk & tks & [Hs Hw Ht] & Hn)]. split; [by apply common_cache|].
  exists pre, tk, tks. split; [by split|]. exact Hn.
Qed.

Lemma at_tokens_len k pre tks vm : common k vm → at_tokens pre tks vm →
  script_ok (pre ++ script_of tks).
Proof.
  intros Hc Ha. pose proof (c_scripts _ _ Hc) as Hs. rewrite Forall_forall in Hs.
  apply (Hs (pre ++ script_of tks)). eapply list_elem_of_lookup_2, at_script, Ha.
Qed.

(** ** One opcode *)

Lemma wf_token_data tk :
  wf_token tk → OP_16 < b2z (tk_op tk) → default [] (tk_data tk) = [].
Proof.
  unfold wf_token, tk_opcode. intros Hw Hop.
  assert (op_length (opcode_at (tk_op tk)) = 1) as Hl.
  { revert Hop. unfold OP_16. clear. destruct (tk_op tk); vm_compute; done. }
  destruct (tk_data tk); [|done]. by destruct Hw as [? _].
Qed.

Lemma checkMinimal_push_no_panic op data : no_panic (checkMinimalDataPush op data).
Proof. unfold checkMinimalDataPush. cbv zeta. by repeat (case_match; try done). Qed.

Lemma safe_when {B} P (b : bool) (m : VM unit) (f : VM B) R Q :
  safe P m (λ _, R) → (∀ v, P v → R v) → safe R f Q → safe P ((if b then m else mret ()) ;; f) Q.
Proof.
  intros Hm HR Hf. eapply (safe_bind _ _ _ (λ _, R)); [|intros []; exact Hf].
  destruct b; [done|]. by apply safe_ret.
Qed.

Lemma frame_refl v : config_ok (config v) → ctx_ok (tapscriptCtx v) → frame v v.
Proof.
  intros Hc Hx. split; try done. unfold ctx_ok, ctx_le in *. destruct (tapscriptCtx v); [|done].
  split_and!; try done; lia.
Qed.

(** The tail of [executeOpcode]. *)
Lemma dispatch_safe v0 (b1 b2 : bool) op data k :
  small (k + 9) → elem_ok data →
  safe (inv v0 k)
    (if b1 then mret ()
     else (if b2 then st_lift (checkMinimalDataPush op data) else mret ()) ;;
          run_handler (opfunc op) op data) (λ _, inv v0 (k + 3)).
Proof.
  intros Hk Hd. destruct b1; [apply safe_done|].
  eapply (safe_when _ _ _ _ (inv v0 k)); [|done|by apply handler_safe].
  intros v c Hv Hs Hc. unfold st_lift. pose proof (checkMinimal_push_no_panic op data).
  destruct (checkMinimalDataPush op data) as [[]| |]; [|done..]. cbn.
  split; [done|]. split; [done|]. by exists c.
Qed.

Lemma executeOpcode_safe vm op data k :
  small (k + 9) → config_ok (config vm) → ctx_ok (tapscriptCtx vm) → stacks_le k vm →
  0 <= numOps vm <= MaxOpsPerScript → (OP_16 < value op → data = []) →
  safe (same vm) (executeOpcode op data)
    (λ _ v, ∃ n, 0 <= n <= MaxOpsPerScript ∧ inv (set_numOps n vm) (k + 3) v).
Proof.
  intros Hk Hco Hctx Hst Hn Hd. unfold executeOpcode. case_match; [apply safe_fail|].
  case_match; [apply safe_fail|].
  apply safe_get_same; [done|]. intros vm' [c ->].
  assert (∀ n c', inv (set_numOps n vm) k (set_numOps n (set_sigCache c' vm))) as Hinv.
  { intros n c'. split; [|exact Hst]. apply (frame_set _ (set_numOps n vm) (set_sigCache c')); try done;
      [by apply frame_refl|]. by apply (f_ctx _ _ (frame_refl vm Hco Hctx)). }
  assert (∀ n c', inv (set_numOps n vm) k (set_sigCache c' (set_numOps n (set_sigCache c vm)))) as Hinv2.
  { intros n c'. apply (Hinv n c'). }
  assert (∀ (b1 b2 : bool) n, 0 <= n <= MaxOpsPerScript → elem_ok data →
    safe (same (set_numOps n (set_sigCache c vm)))
    (if b1 then mret ()
     else (if b2 then st_lift (checkMinimalDataPush op data) else mret ()) ;;
          run_handler (opfunc op) op data)
    (λ _ v, ∃ n, 0 <= n <= MaxOpsPerScript ∧ inv (set_numOps n vm) (k + 3) v)) as Hrest.
  { intros b1 b2 n Hn' Hel. eapply safe_known; [apply (Hinv2 n)|].
    eapply safe_weaken; [by apply dispatch_safe|done|]. intros [] v Hv. by exists n. }
  case_bool_decide as Hc.
  - eapply (safe_bind _ _ _ (λ _ v, same (set_numOps (numOps vm + 1) (set_sigCache c vm)) v ∧
      numOps vm + 1 <= MaxOpsPerScript)).
    + eapply (safe_run _ (set_numOps (numOps vm + 1) (set_sigCache c vm))); [by intros c'|].
      cbn [numOps set_sigCache].
      destruct (Z.ltb_spec MaxOpsPerScript (numOps vm + 1)); [apply safe_fail|].
      apply safe_ret. intros v Hv. split; [exact Hv|lia].
    + intros []. apply safe_pure. intros Hle. apply Hrest; [lia|]. destruct Hc as [_ Hop].
      by rewrite Hd by done.
  - eapply (safe_bind _ _ _ (λ _ v, same (set_numOps (numOps vm) (set_sigCache c vm)) v ∧ elem_ok data)).
    + destruct (Z.ltb_spec MaxScriptElementSize (zlen data)); [apply safe_fail|].
      apply safe_ret. intros v [c' ->]. split; [|done]. exists c'. by destruct vm.
    + intros []. apply safe_pure. intros Hel. by apply Hrest.
Qed.

(** ** The witness program *)

(** What the validation of a witness leaves: the engine as it was, except for
    the data stack, the cache and, for a script path, the leaf to run. *)
Record validated (witness : TxWitness) (vm v : Engine) : Prop := mkValidated {
  va_common : common MaxStackSize v;
  va_config : config v = config vm;
  va_idx : scriptIdx v = scriptIdx vm;
  va_cond : condStack v = condStack vm;
  va_scripts : scripts v = scripts vm ∨
    ∃ leaf, leaf ∈ witness ∧ script_ok leaf ∧ parses leaf ∧ scripts v = scripts vm ++ [leaf]
}.

Lemma SetStack_run vm data c m :
  stk_ok (stk (dstack vm)) → verifyMinimalData (dstack vm) = m →
  SetStack data (set_sigCache c vm) = Ok ((), set_sigCache c (set_dstack (mkStack data m) vm)).
Proof.
  intros Hok Hm. unfold SetStack, on_dstack. cbn [dstack set_sigCache].
  destruct (dstack vm) as [l m']. cbn in *. subst m'. by rewrite setStack_run.
Qed.

Lemma stacks_le_ok k vm : small k → stacks_le k vm →
  stk_ok (stk (dstack vm)) ∧ verifyMinimalData (dstack vm) = true.
Proof.
  intros Hk (kd & ka & ? & Hd & Ha). pose proof (stk_le_nonneg _ _ Ha).
  split; [|apply Hd]. apply (stk_le_ok kd); [unfold small in *; lia|done].
Qed.

Lemma stacks_le_iff k vm :
  stacks_le k vm ↔
  zlen (stk (dstack vm)) + zlen (stk (astack vm)) <= k ∧
  Forall elem_ok (stk (dstack vm)) ∧ Forall elem_ok (stk (astack vm)) ∧
  verifyMinimalData (dstack vm) = true ∧ verifyMinimalData (astack vm) = true.
Proof.
  split.
  - intros (kd & ka & ? & [] & []). split_and!; (done || lia).
  - intros (?&?&?&?&?). eexists _, _. split; [done|]. by split; split.
Qed.

Lemma max_small : small (MaxStackSize + 9).
Proof. done. Qed.

(** The data stack replaced while the other is empty. *)
Lemma common_dstack data vm :
  common MaxStackSize vm → stk (astack vm) = [] → zlen data <= MaxStackSize → Forall elem_ok data →
  common MaxStackSize (set_dstack (mkStack data true) vm).
Proof.
  intros [Hco Hsc Hst Hn Hx Hi Ht Hb] Ha Hl Hd. split; try done.
  apply stacks_le_iff in Hst as (_&_&?&_&?). apply stacks_le_iff. cbn. rewrite Ha.
  change (zlen []) with 0. split_and!; (done || lia).
Qed.

Lemma keyPath_safe vm program rawSig witness :
  common MaxStackSize vm → stk (astack vm) = [] →
  safe (same vm) (verifyTaprootKeyPath program rawSig) (λ _, validated witness vm).
Proof.
  intros Hc Ha. unfold verifyTaprootKeyPath. apply safe_get_same; [done|]. intros vm' [c ->].
  eapply (safe_bind _ _ _ (λ _, same vm)).
  - apply safe_keySpend; [exact (c_config _ _ Hc)|]. intros v c' [c1 ->].
    eexists. reflexivity.
  - intros []. destruct (stacks_le_ok MaxStackSize vm) as [Hok Hm]; [done|exact (c_stacks _ _ Hc)|].
    eapply safe_run_last; [intros c'; by apply (SetStack_run vm _ c' true)|]. intros c'.
    split; [|done..|by left]. apply common_cache, common_dstack; try done. by repeat constructor.
Qed.

(** The engine with a leaf script set up. *)
Definition with_leaf (witnessSize : Z) (annex : option bytes) (leaf : bytes) (items : list bytes)
    (vm : Engine) : Engine :=
  set_dstack (mkStack items true) (set_scripts (scripts vm ++ [leaf])
    (set_tapscriptCtx (Some (newTapscriptExecutionCtx witnessSize annex
      (TapLeaf_TapHash (NewBaseTapLeaf leaf)))) vm)).

Lemma safe_lift_same {A B} vm (r : result ScriptErr A) (f : A → VM B) Q :
  no_panic r → (∀ a, r = Ok a → safe (same vm) (f a) Q) → safe (same vm) (st_lift r ≫= f) Q.
Proof. apply safe_lift. Qed.

Lemma existsb_false_Forall {A} (f : A → bool) l : existsb f l = false → Forall (λ x, f x = false) l.
Proof.
  induction l as [|x l IH]; cbn; [constructor|]. intros [Hx Hl]%orb_false_iff. constructor; auto.
Qed.

Lemma setup_safe vm stack witnessSize annex leaf leafVersion witness :
  common MaxStackSize vm → stk (astack vm) = [] → 2 <= scriptIdx vm → zlen (scripts vm) = 2 →
  2 <= zlen stack <= zlen witness → wf_TxWitness witness → leaf ∈ witness →
  0 <= witnessSize < 2 ^ 30 →
  (∀ ti, this_input vm = Ok ti → witnessSize = TxWitness_SerializeSize (Witness ti)) →
  safe (same vm) (setupScriptPathSpend stack witnessSize annex leaf leafVersion)
    (λ _, validated witness vm).
Proof.
  intros Hc Ha Hi H2 Hst [Hn Hw] Hleaf Hsz Hti. unfold setupScriptPathSpend. case_match; [apply safe_fail|].
  apply safe_get_same; [done|]. intros vm' [c ->]. change (config (set_sigCache c vm)) with (config vm).
  rewrite (co_version _ (c_config _ _ Hc)).
  assert (script_ok leaf) as Hok.
  { rewrite Forall_forall in Hw. specialize (Hw leaf Hleaf).
    unfold wf_script, maxWitnessItemSize, script_ok in *. lia. }
  destruct (checkScriptParses_cases leaf Hok) as [[Hp ->]|[_ ->]];
    (apply safe_lift; [done|]; intros e [= <-]); [|apply safe_fail].
  destruct (stacks_le_ok MaxStackSize vm) as [Hsok Hm]; [done|exact (c_stacks _ _ Hc)|].
  eapply (safe_run _ (set_tapscriptCtx _ vm)); [intros c'; reflexivity|].
  eapply (safe_run _ (set_scripts (scripts vm ++ [leaf]) (set_tapscriptCtx _ vm))); [intros c'; reflexivity|].
  rewrite go_slice_total by lia. apply safe_lift; [done|]. intros items [= <-].
  rewrite drop_0. set (items := take _ stack).
  assert (zlen items <= 4000000) as Hitems.
  { unfold items, zlen. rewrite length_take. unfold zlen, maxWitnessItemsPerInput in *. lia. }
  eapply (safe_run _ (with_leaf witnessSize annex leaf items vm)).
  { intros c'. apply (SetStack_run (set_scripts _ (set_tapscriptCtx _ vm)) items c' true); done. }
  unfold enforceTapscriptStackLimits. apply safe_get_same; [done|]. intros vm' [c' ->].
  change (dstack (set_sigCache c' (with_leaf witnessSize annex leaf items vm))) with (mkStack items true).
  assert (stk_ok items) as Hiok by (unfold stk_ok; lia).
  unfold Depth. cbn [stk]. rewrite (stk_ok_i32 _ Hiok).
  destruct (Z.ltb_spec MaxStackSize (zlen items)) as [|Hle]; [apply safe_fail|].
  unfold GetStack. change (dstack (set_sigCache c' (with_leaf witnessSize annex leaf items vm))) with (mkStack items true).
  rewrite getStack_run by done. apply safe_lift; [done|]. intros l [= <-].
  destruct (existsb _ items) eqn:Ee; [apply safe_fail|].
  assert (Forall elem_ok items) as Hel.
  { apply existsb_false_Forall in Ee. eapply Forall_impl; [exact Ee|]. intros x Hx%Z.ltb_ge. exact Hx. }
  apply safe_ret_same. intros c2. split; [|done..|].
  - apply common_cache, common_cache. unfold with_leaf.
    apply common_dstack; [|done..]. destruct Hc as [Hco Hsc Hstk Hnum Hx Hidx Ht Hb]. split; try done.
    + cbn. apply Forall_app. split; [done|]. by repeat constructor.
    + cbn. unfold newTapscriptExecutionCtx, sigOpsDelta. cbn. rewrite i32_small; [lia|]. unfold is_i32. lia.
    + cbn. rewrite zlen_snoc. lia.
    + intros t ti [= <-] Et. unfold newTapscriptExecutionCtx. cbn.
      rewrite i32_small by (unfold is_i32, sigOpsDelta; lia). rewrite (Hti ti Et). lia.
  - right. exists leaf. done.
Qed.

Lemma strip_facts witness :
  witness ≠ [] →
  ∃ w annex, stripWitnessAnnex witness = Ok (w, annex) ∧ 1 <= zlen w <= zlen witness ∧
    (∀ x, x ∈ w → x ∈ witness).
Proof.
  intros Hne. destruct (strip_run witness) as (w & annex & E & Hw & Hn). exists w, annex.
  split; [done|]. specialize (Hn Hne).
  assert (1 <= zlen w) by (destruct w; [done|]; rewrite zlen_cons; pose proof (zlen_nonneg w); lia).
  destruct (isAnnexedWitness witness); subst w; [|split; [lia|done]].
  destruct witness as [|x l _] using rev_ind; [done|]. rewrite removelast_last in *.
  split; [rewrite zlen_snoc; lia|]. intros y Hy. apply elem_of_app. by left.
Qed.

(** The part the two script paths share, after the annex is gone. *)
Lemma scriptPath_safe {B} vm stack annex witness (parse : bytes → result ScriptErr B)
    (verify : B → bytes → result ScriptErr unit) (leafV : B → Z) :
  common MaxStackSize vm → stk (astack vm) = [] → 2 <= scriptIdx vm → zlen (scripts vm) = 2 → wit_ok witness →
  (∀ ti, this_input vm = Ok ti → Witness ti = witness) →
  2 <= zlen stack <= zlen witness → (∀ x, x ∈ stack → x ∈ witness) →
  (∀ raw, no_panic (parse raw)) → (∀ b script, no_panic (verify b script)) →
  safe (same vm)
    (rawControlBlock ← st_lift (go_index stack (zlen stack - 1));
     controlBlock ← st_lift (parse rawControlBlock);
     witnessScript ← st_lift (go_index stack (zlen stack - 2));
     st_lift (verify controlBlock witnessScript) ;;
     setupScriptPathSpend stack (i32 (TxWitness_SerializeSize witness)) annex witnessScript
       (leafV controlBlock)) (λ _, validated witness vm).
Proof.
  intros Hc Ha Hi H2 [Hw Hsz] Hti Hst Hin Hp Hv.
  destruct (go_index_total (E := ScriptErr) stack (zlen stack - 1)) as (cb & -> & _); [lia|].
  apply safe_lift; [done|]. intros _ [= <-]. apply safe_lift; [apply Hp|]. intros b _.
  destruct (go_index_total (E := ScriptErr) stack (zlen stack - 2)) as (leaf & -> & El); [lia|].
  apply safe_lift; [done|]. intros _ [= <-]. apply safe_lift; [apply Hv|]. intros [] _.
  rewrite i32_small by (unfold is_i32; lia).
  apply setup_safe; try done; [by apply Hin; eapply list_elem_of_lookup_2|].
  intros ti Et. by rewrite (Hti ti Et).
Qed.

Lemma verifyWitnessProgram_safe vm program witness :
  common MaxStackSize vm → stk (astack vm) = [] → 2 <= scriptIdx vm → zlen (scripts vm) = 2 → wit_ok witness →
  (∀ ti, this_input vm = Ok ti → Witness ti = witness) →
  safe (same vm) (verifyWitnessProgram program witness) (λ _, validated witness vm).
Proof.
  intros Hc Ha Hi H2 Hw Hti. unfold verifyWitnessProgram. apply safe_get_same; [done|]. intros vm' [c ->].
  change (safe (same vm) (if witnessVersion (config vm) =? BaseSegwitWitnessVersion
    then vm_err ErrDiscourageUpgradableWitnessProgram
    else if witnessVersion (config vm) =? TaprootWitnessVersion then
      if negb (zlen program =? payToTaprootDataSize) then vm_err ErrDiscourageUpgradableWitnessProgram
      else verifyTaprootSpend program witness
    else if witnessVersion (config vm) =? MerkleRootWitnessVersion then
      if negb (zlen program =? payToMerkleRootDataSize) then vm_err ErrDiscourageUpgradableWitnessProgram
      else verifyMerkleRootSpend program witness
    else vm_err ErrDiscourageUpgradableWitnessProgram) (λ _, validated witness vm)).
  case_match; [apply safe_fail|]. case_match.
  - case_match; [apply safe_fail|]. unfold verifyTaprootSpend.
    destruct (Z.eqb_spec (zlen witness) 0) as [|Hne]; [apply safe_fail|].
    destruct (strip_facts witness) as (w & annex & -> & Hl & Hin); [by intros ->|].
    apply safe_lift; [done|]. intros _ [= <-].
    destruct (Z.eqb_spec (zlen w) 1) as [E|].
    + destruct (go_index_total (E := ScriptErr) w 0) as (x & -> & _); [lia|].
      apply safe_lift; [done|]. intros _ [= <-]. by apply keyPath_safe.
    + apply (scriptPath_safe vm w annex witness ParseControlBlock
        (λ cb, VerifyTaprootLeafCommitment cb program) LeafVersion); try done; [lia|..].
      * apply ParseCB_no_panic.
      * intros. apply VerifyTaproot_no_panic.
  - case_match; [|apply safe_fail]. case_match; [apply safe_fail|]. unfold verifyMerkleRootSpend.
    destruct (Z.eqb_spec (zlen witness) 0) as [|Hne]; [apply safe_fail|].
    destruct (strip_facts witness) as (w & annex & -> & Hl & Hin); [by intros ->|].
    apply safe_lift; [done|]. intros _ [= <-].
    destruct (Z.eqb_spec (zlen w) 1) as [E|]; [apply safe_fail|].
    apply (scriptPath_safe vm w annex witness ParseMerkleRootControlBlock
      (λ cb, VerifyMerkleRootLeafCommitment cb program) mr_LeafVersion); try done; [lia|..].
    + apply ParseMRCB_no_panic.
    + intros. apply VerifyMR_no_panic.
Qed.

(** ** Between scripts *)

(** The state [next_script] leaves. *)
Definition reset (vm : Engine) : Engine :=
  set_scriptIdx (scriptIdx vm + 1) (set_lastCodeSep 0 (set_opcodeIdx 0 (set_numOps 0
    (set_astack (mkStack [] true) vm)))).

Lemma next_script_run vm c :
  stk_ok (stk (astack vm)) → verifyMinimalData (astack vm) = true →
  next_script (set_sigCache c vm) = Ok ((), set_sigCache c (reset vm)).
Proof.
  intros Hok Hm. unfold next_script. cbv [mbind st_bind st_get on_astack st_modify].
  cbn [astack set_sigCache]. destruct (astack vm) as [l m] eqn:Ea. cbn in Hok, Hm. subst m.
  unfold Depth. cbn [stk]. rewrite (stk_ok_i32 _ Hok).
  assert (ignore_err (DropN (zlen l)) (mkStack l true) = Ok ((), mkStack [] true)) as ->; [|done].
  unfold ignore_err, DropN. destruct (Z.ltb_spec (zlen l) 1) as [Hlt|Hge].
  - assert (l = []) as ->; [|done]. apply zlen_0. pose proof (zlen_nonneg l). lia.
  - rewrite to_nat_zlen. pose proof (pop_loop true [] l Hok) as E. cbn [app] in E. by rewrite E.
Qed.

(** Bytes from the current script on. *)
Definition from_here (vm : Engine) : nat :=
  length (concat (drop (Z.to_nat (scriptIdx vm)) (scripts vm))) +
  (if scriptIdx vm <? 2 then leaf_bytes vm else 0).

Lemma drop_index {A} (l : list A) i x :
  l !! i = Some x → drop i l = x :: drop (S i) l.
Proof. intros E. by apply drop_S. Qed.

Lemma start_script_running vm n :
  common MaxStackSize vm → scriptIdx vm < zlen (scripts vm) → (from_here vm <= n)%nat →
  (∀ s, scripts vm !! Z.to_nat (scriptIdx vm) = Some s → s ≠ []) →
  safe (same vm)
    (script ← st_lift (go_index (scripts vm) (scriptIdx vm));
     st_modify (set_tokenizer (MakeScriptTokenizer (version (config vm)) script)) ;;
     mret false)
    (λ (b : bool) v, b = false ∧ running n v).
Proof.
  intros Hc Hlt Hn Hne. pose proof (c_idx _ _ Hc) as Hi.
  destruct (go_index_total (E := ScriptErr) (scripts vm) (scriptIdx vm)) as (s & -> & El); [lia|].
  apply safe_lift; [done|]. intros _ [= <-].
  eapply (safe_run _ (set_tokenizer (MakeScriptTokenizer (version (config vm)) s) vm)); [done|].
  apply safe_ret_same. intros c. split; [done|].
  apply running_cache. pose proof (c_scripts _ _ Hc) as Hs. rewrite Forall_forall in Hs.
  destruct (Hs s) as [Hok Hp]; [by eapply list_elem_of_lookup_2|].
  destruct Hp as (tks & Hw & ->). destruct tks as [|tk tks]; [by destruct (Hne [] El)|].
  split; [by destruct Hc; split|]. exists [], tk, tks. split.
  - split; [exact El|done|]. exists (-1), None. split; [done|]. cbn.
    by rewrite (co_version _ (c_config _ _ Hc)).
  - unfold from_here in Hn. rewrite (drop_index _ _ _ El) in Hn. cbn [concat] in Hn.
    rewrite length_app in Hn. change (later (set_tokenizer _ vm)) with (later vm). unfold later. lia.
Qed.

Lemma enter_script_safe vm n :
  common MaxStackSize vm → 1 <= scriptIdx vm → (from_here vm <= n)%nat →
  safe (same vm) enter_script
    (λ (b : bool) v, if b then finished v else running n v).
Proof.
  intros Hc Hi Hn. pose proof (c_two _ _ Hc) as [H3 H2].
  unfold enter_script. apply safe_get_same; [done|]. intros v [c ->].
  change (scripts (set_sigCache c vm)) with (scripts vm).
  change (scriptIdx (set_sigCache c vm)) with (scriptIdx vm).
  assert (∀ vm, common MaxStackSize vm → zlen (scripts vm) <= scriptIdx vm →
    safe (same vm) (vm ← st_get; if zlen (scripts vm) <=? scriptIdx vm then mret true
      else script ← st_lift (go_index (scripts vm) (scriptIdx vm));
           st_modify (set_tokenizer (MakeScriptTokenizer (version (config vm)) script)) ;; mret false)
      (λ (b : bool) v, if b then finished v else running n v)) as Hend.
  { clear. intros vm Hc Hle. apply safe_get_same; [done|]. intros v [c ->]. cbn [scripts scriptIdx set_sigCache].
    rewrite (proj2 (Z.leb_le _ _)) by done. apply safe_ret_same. intros c'.
    split; [by repeat apply common_cache|done]. }
  destruct (Z.ltb_spec (scriptIdx vm) (zlen (scripts vm))) as [Hlt|Hge].
  - destruct (go_index_total (E := ScriptErr) (scripts vm) (scriptIdx vm)) as (s & -> & El); [lia|].
    destruct (Z.eqb_spec (zlen s) 0) as [Hz|Hz].
    + eapply (safe_run _ (set_scriptIdx (scriptIdx vm + 1) vm)).
      { intros c'. cbv [mbind st_bind st_lift]. cbn. by rewrite (proj2 (Z.eqb_eq _ _)). }
      apply Hend; [|cbn; lia]. destruct Hc. split; try done; cbn; [lia|]. split; [done|lia].
    + eapply (safe_run _ vm).
      { intros c'. cbv [mbind st_bind st_lift]. cbn. by rewrite (proj2 (Z.eqb_neq _ _)). }
      apply safe_get_same; [done|]. intros v [c' ->]. cbn [scripts scriptIdx set_sigCache].
      rewrite (proj2 (Z.leb_gt _ _)) by done. eapply safe_weaken;
        [apply (start_script_running vm n); [done..|]|done|].
      * intros s'. rewrite El. intros [= <-] ->. by apply Hz.
      * by intros b v [-> Hv].
  - eapply (safe_run _ vm); [done|]. by apply Hend.
Qed.

Lemma leaf_in_bytes (leaf : bytes) witness : leaf ∈ witness → (length leaf <= length (concat witness))%nat.
Proof. induction 1; cbn; rewrite length_app; lia. Qed.

Lemma this_input_ok vm :
  config_ok (config vm) → ∃ ti, this_input vm = Ok ti ∧ wit_ok (Witness ti).
Proof.
  intros Hc. unfold this_input.
  destruct (go_index_total (E := ScriptErr) (tx_TxIn (tx (config vm))) (txIdx (config vm))) as (ti & -> & El);
    [apply Hc|].
  exists ti. split; [done|]. eapply wf_wit_ok; [apply Hc|]. by eapply list_elem_of_lookup_2.
Qed.

(** Bytes to go once the current script is over. *)
Lemma check_witness_safe vm :
  common MaxStackSize vm → stk (astack vm) = [] → 1 <= scriptIdx vm →
  (scriptIdx vm <= 2 → zlen (scripts vm) = 2) →
  safe (same vm) check_witness
    (λ _ v, common MaxStackSize v ∧ scriptIdx v = scriptIdx vm ∧
       (from_here v <= length (concat (drop (Z.to_nat (scriptIdx vm)) (scripts vm))) +
          (if (scriptIdx vm <=? 2)%Z then leaf_bytes vm else 0))%nat).
Proof.
  intros Hc Ha Hi H2. unfold check_witness. apply safe_get_same; [done|]. intros v [c ->].
  change (config (set_sigCache c vm)) with (config vm).
  change (scriptIdx (set_sigCache c vm)) with (scriptIdx vm).
  change (this_input (set_sigCache c vm)) with (this_input vm).
  assert (safe (same vm) (mret ()) (λ _ v, common MaxStackSize v ∧ scriptIdx v = scriptIdx vm ∧
    (from_here v <= length (concat (drop (Z.to_nat (scriptIdx vm)) (scripts vm))) +
          (if (scriptIdx vm <=? 2)%Z then leaf_bytes vm else 0))%nat)) as Hskip.
  { apply safe_ret_same. intros c'. split; [by apply common_cache|]. split; [done|].
    unfold from_here. change (leaf_bytes (set_sigCache c' vm)) with (leaf_bytes vm). cbn [scriptIdx scripts set_sigCache].
    destruct (Z.ltb_spec (scriptIdx vm) 2), (Z.leb_spec (scriptIdx vm) 2); lia. }
  destruct (witnessProgram (config vm)) as [program|]; [|exact Hskip].
  destruct (Z.eqb_spec (scriptIdx vm) 2) as [E2|]; [|exact Hskip].
  destruct (this_input_ok vm) as (ti & Et & Hw); [apply Hc|].
  rewrite Et. apply safe_lift; [done|]. intros _ [= <-].
  eapply safe_weaken; [apply (verifyWitnessProgram_safe vm program (Witness ti)); try done; [lia|auto with lia|rewrite Et; by intros ? [= <-]]|done|].
  intros [] v [Hv Hcfg Hidx _ Hscr]. split; [done|]. split; [done|].
  unfold from_here. rewrite Hidx, E2. cbn [Z.ltb Z.leb Z.compare Pos.compare Pos.compare_cont].
  destruct Hscr as [->|(leaf & Hin & _ & _ & ->)]; [lia|].
  assert (leaf_bytes vm = length (concat (Witness ti))) as -> by (unfold leaf_bytes; by rewrite Et).
  pose proof (leaf_in_bytes leaf (Witness ti) Hin).
  rewrite drop_app_le by (specialize (H2 ltac:(lia)); unfold zlen in H2; lia).
  rewrite concat_app, length_app. cbn. rewrite app_nil_r. lia.
Qed.

Lemma safe_all {A} (P : Engine → Prop) (m : VM A) Q :
  (∀ v, P v → safe (same v) m Q) → safe P m Q.
Proof. intros Hm vm c HP. apply (Hm vm HP), same_refl. Qed.

Lemma finish_script_safe vm :
  common MaxStackSize vm →
  safe (same vm) finish_script (λ (b : bool) v, if b then finished v else running (later vm) v).
Proof.
  intros Hc. unfold finish_script.
  assert (stk_ok (stk (astack vm)) ∧ verifyMinimalData (astack vm) = true) as [Hok Hm].
  { pose proof (c_stacks _ _ Hc) as (kd & ka & ? & Hd & Ha). pose proof (stk_le_nonneg _ _ Hd).
    split; [|apply Ha]. apply (stk_le_ok ka); [unfold small, MaxStackSize in *; lia|done]. }
  eapply (safe_run _ (reset vm)); [intros c; by apply next_script_run|].
  assert (common MaxStackSize (reset vm)) as Hr.
  { destruct Hc as [Hco Hsc Hst Hn Hx Hi [H3 H2] Hb]. split; try done; cbn.
    - apply stacks_le_iff in Hst as (?&?&?&?&?). apply stacks_le_iff. cbn. change (zlen []) with 0.
      pose proof (zlen_nonneg (stk (astack vm))). split_and!; (done || lia).
    - lia.
    - split; [done|]. intros. apply H2. lia. }
  pose proof (c_idx _ _ Hc) as Hi. pose proof (c_two _ _ Hc) as [_ H2].
  eapply safe_bind; [apply (check_witness_safe (reset vm)); [done..|cbn; lia|cbn; intros; apply H2; lia]|].
  intros []. apply safe_all. intros v (Hv & Hidx & Hn). cbn in Hidx.
  apply enter_script_safe; [done|lia|]. etrans; [exact Hn|].
  unfold later. cbn [reset scriptIdx set_scriptIdx scripts].
  replace (Z.to_nat (scriptIdx vm + 1)) with (S (Z.to_nat (scriptIdx vm))) by lia.
  change (leaf_bytes (reset vm)) with (leaf_bytes vm).
  cbn [scripts set_scriptIdx set_lastCodeSep set_opcodeIdx set_numOps set_astack].
  destruct (Z.leb_spec (scriptIdx vm + 1) 2), (Z.ltb_spec (scriptIdx vm) 2); lia.
Qed.

Lemma Depth_small k s : small k → stk_le k s → Depth s = zlen (stk s).
Proof. intros Hk Hs. apply stk_ok_i32, (stk_le_ok k); done. Qed.

Lemma after_opcode_safe vm pre tks n :
  common (MaxStackSize + 3) vm → at_tokens pre tks vm → pre ≠ [] →
  (length (script_of tks) + later vm <= n)%nat →
  safe (same vm) after_opcode (λ (b : bool) v, if b then finished v else running n v).
Proof.
  intros Hc Hat Hpre Hn. unfold after_opcode. apply safe_get_same; [done|]. intros v [c ->].
  cbn [dstack astack opcodeIdx condStack set_sigCache tokenizer].
  pose proof (at_tokens_len _ _ _ _ Hc Hat) as Hlen.
  pose proof (proj1 (stacks_le_iff _ _) (c_stacks _ _ Hc)) as (Hz & Hd & Ha & Hm1 & Hm2).
  pose proof (zlen_nonneg (stk (dstack vm))). pose proof (zlen_nonneg (stk (astack vm))).
  unfold MaxStackSize in Hz.
  assert (Depth (dstack vm) = zlen (stk (dstack vm))) as -> by (apply stk_ok_i32; unfold stk_ok; lia).
  assert (Depth (astack vm) = zlen (stk (astack vm))) as -> by (apply stk_ok_i32; unfold stk_ok; lia).
  rewrite i32_small by (unfold is_i32; lia). cbv zeta.
  destruct (Z.ltb_spec MaxStackSize (zlen (stk (dstack vm)) + zlen (stk (astack vm)))) as [|Hle];
    [apply safe_fail|].
  eapply (safe_run _ (set_opcodeIdx (opcodeIdx vm + 1) vm)); [done|].
  assert (common MaxStackSize (set_opcodeIdx (opcodeIdx vm + 1) vm)) as Hc'.
  { destruct Hc. split; try done. apply stacks_le_iff. cbn. done. }
  destruct Hat as [Hs Hw (pos & last & Hpos & Ht)]. rewrite Ht.
  unfold Done, tok_at. cbn [t_err t_script t_offset].
  pose proof Hlen as Hlen'. unfold script_ok in Hlen'. pose proof (zlen_nonneg pre).
  rewrite i32_small by (unfold is_i32; pose proof (zlen_nonneg (pre ++ script_of tks)); lia).
  rewrite zlen_app.
  destruct tks as [|tk tks].
  - change (zlen (script_of [])) with 0. rewrite (proj2 (Z.leb_le _ _)) by lia. cbn [negb].
    case_match; [apply safe_fail|].
    eapply safe_weaken; [apply (finish_script_safe _ Hc')|done|]. intros b v Hv. destruct b; [done|].
    change (later (set_opcodeIdx (opcodeIdx vm + 1) vm)) with (later vm) in Hv.
    destruct Hv as [Hv (pre' & tk & tks & Hat & Hl)]. split; [done|]. exists pre', tk, tks.
    split; [done|]. lia.
  - rewrite script_of_cons, zlen_app. pose proof (tk_bytes_nonempty tk). pose proof (zlen_nonneg (script_of tks)).
    rewrite (proj2 (Z.leb_gt _ _)) by lia. cbn [negb]. apply safe_ret_same. intros c'.
    apply running_cache. split; [done|]. exists pre, tk, tks. split; [|exact Hn].
    split; [done..|]. exists pos, last. done.
Qed.

Lemma inv_common vm n v :
  common MaxStackSize vm → 0 <= n <= MaxOpsPerScript → inv (set_numOps n vm) (MaxStackSize + 3) v →
  common (MaxStackSize + 3) v ∧ scripts v = scripts vm ∧ scriptIdx v = scriptIdx vm ∧
  tokenizer v = tokenizer vm ∧ config v = config vm.
Proof.
  intros [Hco Hsc Hst Hn Hx Hi Ht Hb] Hn' [[Hcf _ Hs Hidx Hop Htok Hnum Hctx] Hstk].
  cbn in *. split; [|done]. split.
  - rewrite Hcf. exact Hco.
  - rewrite Hs. exact Hsc.
  - exact Hstk.
  - rewrite Hnum. exact Hn'.
  - unfold ctx_ok, ctx_le in *. destruct (tapscriptCtx vm), (tapscriptCtx v); try done. lia.
  - rewrite Hidx. exact Hi.
  - rewrite Hs, Hidx. exact Ht.
  - intros t ti Et Eti. unfold ctx_le in Hctx. destruct (tapscriptCtx vm) as [t0|] eqn:E0; rewrite Et in Hctx; [|done].
    unfold this_input in Eti. rewrite Hcf in Eti. specialize (Hb t0 ti eq_refl Eti). lia.
Qed.

(** A step runs one opcode of the current script. *)
Lemma Step_safe n :
  safe (running n) Step
    (λ (b : bool) v, 0 < n ∧ if b then finished v else running (pred n) v)%nat.
Proof.
  apply safe_all. intros vm [Hc (pre & tk & tks & Hat & Hn)].
  pose proof (at_tokens_len _ _ _ _ Hc Hat) as Hlen. pose proof (c_idx _ _ Hc).
  pose proof Hat as [Hs Hw (pos & last & Hpos & Ht)]. apply Forall_cons in Hw as [Hw Hws].
  rewrite script_of_cons in *. pose proof (tk_bytes_nonempty tk) as Hne.
  pose proof (lookup_lt_Some _ _ _ Hs). unfold Step.
  eapply (safe_run _ vm).
  { intros c. unfold checkValidPC. cbv [mbind st_bind st_get]. cbn [scripts scriptIdx set_sigCache].
    rewrite (proj2 (Z.leb_gt _ _)) by (unfold zlen; lia). done. }
  set (t' := tok_at (pre ++ tk_bytes tk ++ script_of tks) (pre ++ tk_bytes tk) (pos + 1) (Some tk)).
  eapply (safe_run _ (set_tokenizer t' vm) true).
  { intros c. unfold vm_Next. cbn [tokenizer set_sigCache]. rewrite Ht.
    rewrite (Next_run _ pre tk (script_of tks) pos last); try done.
    unfold script_ok in Hlen. rewrite zlen_app in Hlen.
    pose proof (zlen_nonneg (tk_bytes tk ++ script_of tks)). lia. }
  apply safe_get_same; [done|]. intros v [c ->]. cbn [negb tokenizer set_sigCache set_tokenizer].
  apply safe_lift; [done|]. intros op [= <-].
  eapply safe_bind.
  - apply (executeOpcode_safe (set_tokenizer t' vm) (tk_opcode tk) (default [] (tk_data tk)) MaxStackSize);
      try apply Hc; try done.
    intros Hop. apply wf_token_data; [done|]. unfold tk_opcode in Hop. by rewrite opcode_at_value in Hop.
  - intros []. apply safe_all. intros v (n' & Hn' & Hinv).
    destruct (inv_common (set_tokenizer t' vm) n' v) as (Hcv & Hsv & Hiv & Htv & Hfv); try done.
    { by destruct Hc. }
    rewrite length_app in Hn. unfold zlen in Hne.
    eapply safe_weaken; [apply (after_opcode_safe v (pre ++ tk_bytes tk) tks (pred n)); try done| |].
    + split; [|done|].
      * rewrite Hsv, Hiv, <-(assoc_L (++)). exact Hs.
      * exists (pos + 1), (Some tk). rewrite Htv, zlen_app. split; [unfold zlen in *; lia|].
        by rewrite <-(assoc_L (++)).
    + intros [_ E]%app_eq_nil. rewrite E in Hne. cbn in Hne. lia.
    + assert (later v = later vm) as ->; [|lia].
      unfold later, leaf_bytes, this_input. by rewrite Hsv, Hiv, Hfv.
    + done.
    + intros b v' Hv'. split; [lia|done].
Qed.

Lemma step_loop_safe n fuel :
  (n < fuel)%nat → safe (running n) (step_loop fuel) (λ _, finished).
Proof.
  revert n. induction fuel as [|fuel IH]; intros n Hf; [lia|]. cbn [step_loop].
  eapply safe_bind; [apply Step_safe|]. intros [].
  - apply safe_ret. by intros v [_ Hv].
  - apply safe_all. intros v [Hn Hv]. apply safe_known with (P := running (pred n)).
    + intros c. by apply running_cache.
    + apply IH. lia.
Qed.

Lemma CheckErrorCondition_safe b :
  safe finished (CheckErrorCondition b) (λ _ _, True).
Proof.
  apply safe_all. intros vm [Hc Hi]. unfold CheckErrorCondition. apply safe_get_same; [done|]. intros v [c ->].
  case_match; [apply safe_fail|]. case_match; [apply safe_fail|]. case_match; [apply safe_fail|].
  eapply (safe_bind _ _ _ (λ _ _, True)).
  - apply (safe_dstack _ PopBool (stk_le MaxStackSize) (λ _, stk_le MaxStackSize)); [by apply popBool_triple| |done].
    intros v [c' ->]. pose proof (c_stacks _ _ Hc) as (kd & ka & ? & Hd & Ha).
    pose proof (stk_le_nonneg _ _ Ha). eapply stk_le_mono; [|exact Hd]. lia.
  - intros b'. case_match; [apply safe_fail|]. by apply safe_ret.
Qed.

(** ** Whole executions *)

Lemma length_concat_le (l : list bytes) i s :
  l !! i = Some s → (length (concat (drop i l)) <= length (concat l))%nat.
Proof. intros _. rewrite <-(take_drop i l) at 2. rewrite concat_app, length_app. lia. Qed.

Lemma running_bound vm n : running n vm → running (length (concat (scripts vm)) + leaf_bytes vm) vm.
Proof.
  intros [Hc (pre & tk & tks & Hat & _)]. split; [done|]. exists pre, tk, tks. split; [done|].
  destruct Hat as [Hs _ _]. pose proof (length_concat_le _ _ _ Hs) as Hl.
  rewrite (drop_index _ _ _ Hs) in Hl. cbn [concat] in Hl. rewrite !length_app in Hl.
  unfold later. case_match; lia.
Qed.

Lemma Execute_safe n :
  safe (running n) Execute (λ _ _, True).
Proof.
  apply safe_all. intros vm Hr. unfold Execute. apply safe_get_same; [done|]. intros v [c ->].
  change (steps_bound (set_sigCache c vm)) with (steps_bound vm). cbn [config set_sigCache].
  rewrite (co_version _ (c_config _ _ (ru_common _ _ Hr))). cbn [Z.eqb negb].
  eapply (safe_bind _ _ _ (λ _, finished)); [|intros []; apply CheckErrorCondition_safe].
  apply safe_known with (P := running (length (concat (scripts vm)) + leaf_bytes vm)).
  - intros c'. apply running_cache, running_cache. by eapply running_bound.
  - apply step_loop_safe. unfold steps_bound, leaf_bytes. destruct (this_input vm); lia.
Qed.

(** ** The engine [NewEngine] makes *)

Lemma check_scripts_ok scrs :
  check_scripts scrs = Ok () →
  Forall (λ s, zlen s <= MaxScriptSize ∧ script_ok s ∧ parses s) scrs.
Proof.
  induction scrs as [|s scrs IH]; [constructor|]. cbn [check_scripts].
  destruct (Z.ltb_spec MaxScriptSize (zlen s)) as [|Hle]; [done|].
  assert (script_ok s) as Hok by (unfold script_ok, MaxScriptSize in *; lia).
  destruct (checkScriptParses_cases s Hok) as [[Hp ->]|[_ ->]]; [|done].
  cbn [mbind result_bind]. intros E. constructor; [done|]. by apply IH.
Qed.

Lemma NewEngine_running spk t idx fl c sh amt f vm :
  NewEngine spk t idx fl c sh amt f = Ok vm → wf_MsgTx t →
  (∀ ti, tx_TxIn t !! Z.to_nat idx = Some ti → is_Some (f (PreviousOutPoint ti))) →
  (∃ n, running n vm) ∧ sigCache vm = c.
Proof.
  unfold NewEngine. destruct (Z.ltb_spec idx 0) as [|Hi]; [done|]. cbn [orb].
  destruct (Z.leb_spec (zlen (tx_TxIn t)) idx) as [|Hlt]; [done|].
  intros E Htx Hf.
  destruct (go_index_total (E := ScriptErr) (tx_TxIn t) idx) as (ti & Et & El); [lia|].
  rewrite Et in E. cbn [mbind result_bind] in E. cbv zeta in E.
  destruct ((zlen (SignatureScript ti) =? 0) && (zlen spk =? 0)) eqn:Eempty; [done|].
  apply bind_ok in E as (po & _ & E). destruct po; cbn [negb] in E; [|done].
  apply bind_ok in E as ([] & Hsc & E). apply check_scripts_ok in Hsc.
  rewrite !Forall_cons in Hsc. destruct Hsc as ((?&Hok1&Hp1)&(?&Hok2&Hp2)&_).
  apply bind_ok in E as (w & _ & E). apply bind_ok in E as ([v p] & _ & E).
  apply bind_ok in E as (s & Es & E). injection E as <-. split; [|done].
  set (i := if zlen (SignatureScript ti) =? 0 then 1 else 0) in *.
  apply go_index_ok in Es as [Hi' Es].
  assert (parses s ∧ s ≠ []) as [(tks & Hw & ->) Hne].
  { destruct (zlen (SignatureScript ti) =? 0) eqn:E0; cbn in Es; injection Es as <-;
      (split; [done|]); intros E1; rewrite E1 in *; done. }
  destruct tks as [|tk tks]; [done|]. eexists. split.
  - split; [|by repeat constructor|apply stacks_le_iff; cbn; split_and!; done || by constructor|done|done|exact Hi'|done|done].
    split; [done|done|cbn; lia|exact Hf].
  - exists [], tk, tks. split; [|done]. split; [exact Es|done|]. exists (-1), None. split; [done|]. done.
Qed.

(** More fuel than enough changes nothing. *)
Lemma step_loop_mono n m vm :
  (n <= m)%nat → no_panic (step_loop n vm) → step_loop m vm = step_loop n vm.
Proof.
  revert m vm. induction n as [|n IH]; intros m vm Hle Hp; [done|].
  destruct m as [|m]; [lia|]. cbn [step_loop] in *. cbv [mbind st_bind] in *.
  destruct (Step vm) as [[b vm']| |]; [|done..]. destruct b; [done|]. apply IH; [lia|exact Hp].
Qed.

(** The states an execution goes through. *)
Inductive reach (vm0 : Engine) : Engine → Prop :=
| reach_start : reach vm0 vm0
| reach_step v done v' : reach vm0 v → Step v = Ok (done, v') → reach vm0 v'.

Lemma safe_ok {A} P (m : VM A) Q vm a vm' :
  safe P m Q → P vm → cache_sound (sigCache vm) → m vm = Ok (a, vm') →
  Q a vm' ∧ cache_sound (sigCache vm').
Proof.
  intros Hm HP Hs E. specialize (Hm vm None HP Hs I). rewrite E in Hm. destruct Hm as (?&?&_). done.
Qed.

Lemma finished_no_step v : finished v → Step v = Fail (scriptError ErrInvalidProgramCounter).
Proof.
  intros [_ Hi]. unfold Step, checkValidPC. cbv [mbind st_bind st_get].
  by rewrite (proj2 (Z.leb_le _ _)).
Qed.

Lemma reach_inv vm0 n v :
  running n vm0 → cache_sound (sigCache vm0) → reach vm0 v →
  (finished v ∨ ∃ n', running n' v) ∧ cache_sound (sigCache v).
Proof.
  intros Hr Hs Hv. induction Hv as [|v b v' _ [[Hf|[n' Hv]] Hsv] E].
  - split; [|done]. right. by exists n.
  - by rewrite (finished_no_step v Hf) in E.
  - destruct (safe_ok _ _ _ _ _ _ (Step_safe n') Hv Hsv E) as [[_ HQ] Hs'].
    split; [|done]. destruct b; [by left|]. right. by eexists.
Qed.

Lemma reach_common vm0 n v :
  running n vm0 → cache_sound (sigCache vm0) → reach vm0 v → common MaxStackSize v.
Proof. intros Hr Hs Hv. destruct (reach_inv vm0 n v Hr Hs Hv) as [[[Hc _]|[n' [Hc _]]] _]; done. Qed.

(** What the callers of [NewEngine] provide: a transaction as the decoder
    makes it and the output its input spends. *)
Definition spend_ok (t : MsgTx) (idx : Z) (f : PrevOutputFetcher) : Prop :=
  wf_MsgTx t ∧ ∀ ti, tx_TxIn t !! Z.to_nat idx = Some ti → is_Some (f (PreviousOutPoint ti)).
End exec.

(** ** Properties *)

(** C5 execution ends and does not panic: for a well-formed transaction whose
    spent output is known, and any cache of valid signatures, [Execute] returns
    a result, and the loop of [Step]s has ended within [steps_bound] steps: any
    more fuel gives the same. *)
Theorem Execute_total `{HashFns} `{Keys} `{!MapRange bytes sigCacheEntry}
    spk t idx flags c sh amt f vm :
  NewEngine spk t idx flags c sh amt f = Ok vm → spend_ok t idx f → cache_sound c →
  no_panic (Execute vm) ∧
  ∀ fuel, (steps_bound vm <= fuel)%nat →
    no_panic (step_loop fuel vm) ∧ step_loop fuel vm = step_loop (steps_bound vm) vm.
Proof.
  intros E [Htx Hf] Hc. destruct (NewEngine_running _ _ _ _ _ _ _ _ _ E Htx Hf) as [[n Hr] Hs].
  rewrite <-Hs in Hc. split.
  - pose proof (Execute_safe n vm None Hr Hc I). by destruct (Execute vm) as [[]| |].
  - assert (no_panic (step_loop (steps_bound vm) vm)) as Hp.
    { apply running_bound in Hr.
      assert (length (concat (scripts vm)) + leaf_bytes vm < steps_bound vm)%nat as Hlt
        by (unfold steps_bound, leaf_bytes; destruct (this_input vm); lia).
      pose proof (step_loop_safe _ _ Hlt vm None Hr Hc I). by destruct (step_loop _ vm) as [[]| |]. }
    intros fuel Hle. by rewrite (step_loop_mono _ fuel vm Hle Hp).
Qed.

(** C15 the signature cache is transparent: started with any two caches of
    valid signatures the engine gives the same result and ends in the same
    state, the caches apart, and a cache it leaves holds valid signatures. *)
Theorem Execute_cache_transparent `{HashFns} `{Keys} `{!MapRange bytes sigCacheEntry}
    spk t idx flags c sh amt f vm c' :
  NewEngine spk t idx flags c sh amt f = Ok vm → spend_ok t idx f → cache_sound c → cache_sound c' →
  NewEngine spk t idx flags c' sh amt f = Ok (set_sigCache c' vm) ∧
  match Execute vm with
  | Ok (_, vm1) => cache_sound (sigCache vm1) ∧
      ∃ c1, cache_sound c1 ∧ Execute (set_sigCache c' vm) = Ok ((), set_sigCache c1 vm1)
  | Fail e => Execute (set_sigCache c' vm) = Fail e
  | Panic => False
  end.
Proof.
  intros E [Htx Hf] Hc Hc'. destruct (NewEngine_running _ _ _ _ _ _ _ _ _ E Htx Hf) as [[n Hr] Hs].
  rewrite <-Hs in Hc. split.
  - clear -E. unfold NewEngine in *. case_match; [done|].
    destruct (go_index (tx_TxIn t) idx) as [ti| |]; [|done..]. cbn [mbind result_bind] in *. cbv zeta in *.
    case_match; [done|]. destruct (IsPushOnlyScript _) as [po| |]; [|done..]. cbn [mbind result_bind] in *.
    case_match; [done|]. destruct (check_scripts _) as [[]| |]; [|done..]. cbn [mbind result_bind] in *.
    destruct (IsWitnessProgram spk) as [w| |]; [|done..]. cbn [mbind result_bind] in *.
    match type of E with context [mbind _ ?r] => destruct r as [[v p]| |]; [|done..] end.
    cbn [mbind result_bind] in *.
    match type of E with context [mbind _ ?r] => destruct r as [s| |]; [|done..] end.
    by injection E as <-.
  - pose proof (Execute_safe n vm c' Hr Hc Hc') as Hx.
    destruct (Execute vm) as [[[] vm1]| |]; [|done..]. by destruct Hx as [_ Hx].
Qed.

(** C34 the limits: in every state an execution reaches the two stacks hold at
    most 1000 items, of at most 520 bytes each; at most 201 operations were
    counted; and the tapscript budget is between zero and 50 plus the size of
    the input's witness. *)
Theorem execution_limits `{HashFns} `{Keys} `{!MapRange bytes sigCacheEntry}
    spk t idx flags c sh amt f vm0 vm :
  NewEngine spk t idx flags c sh amt f = Ok vm0 → spend_ok t idx f → cache_sound c →
  reach vm0 vm →
  zlen (stk (dstack vm)) + zlen (stk (astack vm)) <= MaxStackSize ∧
  Forall (λ x, zlen x <= MaxScriptElementSize) (stk (dstack vm) ++ stk (astack vm)) ∧
  0 <= numOps vm <= MaxOpsPerScript ∧
  ∀ ctx txIn, tapscriptCtx vm = Some ctx → this_input vm = Ok txIn →
    0 <= tc_opsBudget ctx <= sigOpsDelta + TxWitness_SerializeSize (Witness txIn).
Proof.
  intros E [Htx Hf] Hc Hv. destruct (NewEngine_running _ _ _ _ _ _ _ _ _ E Htx Hf) as [[n Hr] Hs].
  rewrite <-Hs in Hc. destruct (reach_common vm0 n vm Hr Hc Hv) as [_ _ Hst Hn Hx _ _ Hb].
  apply stacks_le_iff in Hst as (Hl & Hd & Ha & _ & _).
  split; [done|]. split; [by apply Forall_app|]. split; [done|].
  intros ctx ti Et Ei. split; [|by apply Hb]. rewrite Et in Hx. apply Hx.
Qed.

(** *** A spend of a pay-to-merkle-root output *)

Definition demo_leaf : bytes := map z2b [OP_1; OP_1; OP_ADD; OP_2; OP_NUMEQUAL].
Definition demo_spk : bytes :=
  z2b OP_2 :: z2b OP_DATA_32 :: TapLeaf_TapHash (NewBaseTapLeaf demo_leaf).
Definition demo_spend : MsgTx :=
  mkMsgTx 2 [mkTxIn (mkOutPoint (repeat x11 32) 0) [] [demo_leaf; [xc1]] 5] [mkTxOut 5000 [x6a]] 99.
Definition demo_prevOuts : PrevOutputFetcher := Canned_FetchPrevOutput (mkCanned demo_spk 5000).

Definition demo_vm : Engine :=
  match NewEngine demo_spk demo_spend 0 0 None demo_hashes 5000 demo_prevOuts with
  | Ok vm => vm
  | _ => mkEngine (mkConfig 0 demo_spend 0 0 demo_hashes demo_prevOuts 0 None 0) [] 0 0 0
           (MakeScriptTokenizer 0 []) (mkStack [] true) (mkStack [] true) [] 0 None None
  end.

Lemma demo_vm_ok : NewEngine demo_spk demo_spend 0 0 None demo_hashes 5000 demo_prevOuts = Ok demo_vm.
Proof. by vm_compute. Qed.

Lemma demo_spend_ok : spend_ok demo_spend 0 demo_prevOuts.
Proof.
  split; [|intros; by eexists].
  unfold wf_MsgTx, wf_TxIn, wf_TxOut, wf_TxWitness, wf_OutPoint, wf_script, demo_spend.
  cbn [tx_Version tx_TxIn tx_TxOut tx_LockTime].
  split_and!; repeat constructor; vm_compute; congruence.
Qed.

Lemma Execute_total_witness :
  no_panic (Execute demo_vm) ∧ (∃ vm, Execute demo_vm = Ok ((), vm)).
Proof.
  split; [|eexists; vm_compute; reflexivity].
  exact (proj1 (Execute_total demo_spk demo_spend 0 0 None demo_hashes 5000 demo_prevOuts demo_vm
    demo_vm_ok demo_spend_ok I)).
Defined.

Lemma Execute_cache_transparent_witness :
  NewEngine demo_spk demo_spend 0 0 (Some (NewSigCache 10)) demo_hashes 5000 demo_prevOuts =
    Ok (set_sigCache (Some (NewSigCache 10)) demo_vm).
Proof.
  exact (proj1 (Execute_cache_transparent demo_spk demo_spend 0 0 None demo_hashes 5000 demo_prevOuts
    demo_vm (Some (NewSigCache 10)) demo_vm_ok demo_spend_ok I (NewSigCache_sound _ _))).
Defined.

Lemma execution_limits_witness : zlen (stk (dstack demo_vm)) + zlen (stk (astack demo_vm)) <= MaxStackSize.
Proof.
  exact (proj1 (execution_limits demo_spk demo_spend 0 0 None demo_hashes 5000 demo_prevOuts demo_vm
    demo_vm demo_vm_ok demo_spend_ok I (reach_start _))).
Defined.
