(* ===== verification/EngineSpend.v ===== *)
(** * Spending witness programs

    What an execution does for an output that is a witness program: the public
    key script pushes the version and the program, the witness is validated
    against the program, and a leaf script, if there is one, runs on the rest of
    the witness.  The theorems say which spends succeed. *)
From stdpp Require Import strings.
From Stdlib Require Import Lia ZArith.
From S2P Require Import Prelude Wire MsgTx ScriptError ScriptNum Stack Opcode Tokenizer Standard Crypto Taproot SigCache SigHash Engine EngineSafety EngineExec.

(** ** The two opcodes of the public key script *)

Lemma push_opcode b :
  1 <= b2z b <= 75 → opfunc (opcode_at b) = h_PushData ∧ isOpcodeDisabled (b2z b) = false ∧
    isOpcodeAlwaysIllegal (b2z b) = false.
Proof. intros Hb. destruct b; first [by vm_compute | exfalso; revert Hb; vm_compute; intros [H1 H2]; congruence]. Qed.

(** What a small integer opcode pushes. *)
Definition small_item (v : Z) : bytes := if v =? 0 then [] else [z2b v].

Lemma small_opcode v :
  0 <= v <= 16 →
  let op := opcode_at (z2b (witness_op v)) in
  isOpcodeDisabled (value op) = false ∧ isOpcodeAlwaysIllegal (value op) = false ∧
  value op <= OP_16 ∧ (OP_PUSHDATA4 < value op ∨ v = 0 ∧ value op = OP_0) ∧
  (opfunc op = h_False ∧ v = 0 ∨
   opfunc op = h_N ∧ v ≠ 0 ∧ Bytes (u8 (value op - (OP_1 - 1))) = Ok [z2b v]).
Proof.
  intros Hv. assert (v ∈ map Z.of_nat (seq 0 17)) as Hin.
  { apply list_elem_of_fmap. exists (Z.to_nat v). rewrite elem_of_seq. lia. }
  clear Hv. revert v Hin. apply Forall_forall.
  repeat (apply Forall_cons; split; [by vm_compute; intuition (try lia; try congruence)|]). by apply Forall_nil.
Qed.

Section spend.
Context `{HashFns} `{Keys} `{!MapRange bytes sigCacheEntry}.
Abbreviation VM := (ST ScriptErr Engine).

(** A state in which nothing but the public key script can interfere. *)
Record quiet (vm : Engine) : Prop := mkQuiet {
  q_ctx : tapscriptCtx vm = None;
  q_cond : condStack vm = [];
  q_minimal : verifyMinimalData (dstack vm) = true
}.

(** Pushing an item, on the engine. *)
Definition pushed_on (x : bytes) (vm : Engine) : Engine :=
  set_dstack (mkStack (stk (dstack vm) ++ [x]) (verifyMinimalData (dstack vm))) vm.

Lemma executeOpcode_quiet vm op data :
  quiet vm → isOpcodeDisabled (value op) = false → isOpcodeAlwaysIllegal (value op) = false →
  value op <= OP_16 → zlen data <= MaxScriptElementSize →
  (value op <= OP_PUSHDATA4 → checkMinimalDataPush op data = Ok ()) →
  executeOpcode op data vm = run_handler (opfunc op) op data vm.
Proof.
  intros [Hx Hc Hm] Hd Hi Hop Hl Hmin. unfold executeOpcode. rewrite Hd, Hi.
  cbv [mbind st_bind st_get]. rewrite bool_decide_eq_false_2 by lia.
  rewrite (proj2 (Z.ltb_ge _ _)) by done. cbv [mret st_ret].
  assert (isBranchExecuting vm = true) as -> by (unfold isBranchExecuting; by rewrite Hc).
  rewrite Hm. cbn [negb andb]. destruct (Z.leb_spec (value op) OP_PUSHDATA4) as [Hle|]; [|done].
  rewrite Hmin by done. done.
Qed.

Lemma execute_small vm v :
  quiet vm → 0 <= v <= 16 →
  executeOpcode (opcode_at (z2b (witness_op v))) [] vm = Ok ((), pushed_on (small_item v) vm).
Proof.
  intros Hq Hv. destruct (small_opcode v Hv) as (Hd & Hi & Hop & Hp & Hf).
  rewrite executeOpcode_quiet; try done.
  - destruct Hf as [[-> ->]|(-> & Hne & Hb)]; [done|]. cbn [run_handler].
    unfold opcodeN, on_dstack, PushInt, st_lift. cbv [mbind st_bind]. rewrite Hb.
    cbn [result_bind]. unfold pushed_on, small_item. by rewrite (proj2 (Z.eqb_neq _ _)).
  - intros Hle. destruct Hp as [|[-> E]]; [lia|]. unfold checkMinimalDataPush. by rewrite E.
Qed.

Lemma execute_push vm p :
  quiet vm → 2 <= zlen p <= 75 →
  executeOpcode (opcode_at (z2b (zlen p))) p vm = Ok ((), pushed_on p vm).
Proof.
  intros Hq Hp. assert (b2z (z2b (zlen p)) = zlen p) as Hb by (apply b2z_z2b_small; lia).
  destruct (push_opcode (z2b (zlen p))) as (Hf & Hd & Hi); [lia|].
  rewrite executeOpcode_quiet; rewrite ?opcode_at_value; rewrite ?Hb in *; try done.
  - by rewrite Hf.
  - unfold OP_16. lia.
  - unfold MaxScriptElementSize. lia.
  - intros _. unfold checkMinimalDataPush. rewrite opcode_at_value, Hb. cbv zeta.
    rewrite (proj2 (Z.eqb_neq (zlen p) 0)), (proj2 (Z.eqb_neq (zlen p) 1)) by lia. cbn [andb].
    rewrite (proj2 (Z.leb_le _ _)) by lia. by rewrite Z.eqb_refl.
Qed.

(** ** From the first opcode to the validation of the witness *)

Lemma Step_run vm t' op :
  scriptIdx vm < zlen (scripts vm) → Next (tokenizer vm) = Ok (true, t') → t_op t' = Some op →
  Step vm = (executeOpcode op (Data t') ;; after_opcode) (set_tokenizer t' vm).
Proof.
  intros Hi Hn Ho. unfold Step, checkValidPC, vm_Next. cbv [mbind st_bind st_get].
  rewrite (proj2 (Z.leb_gt _ _)) by done. cbv [mret st_ret]. rewrite Hn. cbn [result_bind negb].
  cbn [tokenizer set_tokenizer]. rewrite Ho. done.
Qed.

Definition program_tokens (v : Z) (p : bytes) : list token :=
  [mkToken (z2b (witness_op v)) None; mkToken (z2b (zlen p)) (Some p)].

Lemma program_tokens_ok v p :
  0 <= v <= 16 → 2 <= zlen p <= 40 →
  witness_script v p = script_of (program_tokens v p) ∧ Forall wf_token (program_tokens v p).
Proof.
  intros Hv Hp. destruct (op_token_wf (witness_op v)) as [Hw1 Hb1].
  { unfold witness_op, OP_0, OP_1. destruct (Z.eqb_spec v 0); lia. }
  destruct (short_push_wf p) as [Hw2 Hb2]; [lia|].
  split; [|apply Forall_cons; split; [done|]; apply Forall_cons; split; [done|]; apply Forall_nil, I]. unfold script_of, program_tokens. cbn [map concat].
  rewrite Hb1, Hb2, app_nil_r. done.
Qed.

(** The engine before the first step and when the program has been pushed. *)
Definition start_vm (cfg : Config) (spk : bytes) (c : option SigCache) : Engine :=
  mkEngine cfg [[]; spk] 1 0 0 (MakeScriptTokenizer 0 spk) (mkStack [] true) (mkStack [] true)
    [] 0 None c.

Definition program_vm (cfg : Config) (v : Z) (p : bytes) (c : option SigCache) : Engine :=
  mkEngine cfg [[]; witness_script v p] 2 0 0
    (tok_at (witness_script v p) (witness_script v p) 1 (Some (mkToken (z2b (zlen p)) (Some p))))
    (mkStack [small_item v; p] true) (mkStack [] true) [] 0 None c.

Lemma program_steps cfg v p c :
  0 <= v <= 16 → 2 <= zlen p <= 40 →
  let spk := witness_script v p in
  ∃ vm1, Step (start_vm cfg spk c) = Ok (false, vm1) ∧
    Step vm1 = (check_witness ;; enter_script) (program_vm cfg v p c).
Proof.
  intros Hv Hp spk. destruct (program_tokens_ok v p Hv Hp) as [Hspk Hw]. fold spk in Hspk.
  unfold program_tokens in *. set (tk1 := mkToken (z2b (witness_op v)) None) in *.
  set (tk2 := mkToken (z2b (zlen p)) (Some p)) in *.
  rewrite !Forall_cons in Hw. destruct Hw as (Hw1 & Hw2 & _).
  assert (spk = tk_bytes tk1 ++ tk_bytes tk2) as Hs
    by (rewrite Hspk; unfold script_of; cbn [map concat]; by rewrite app_nil_r).
  assert (zlen spk = 2 + zlen p) as Hz by (unfold spk, witness_script; rewrite !zlen_cons; lia).
  assert (script_ok spk) as Hok by (unfold script_ok; lia).
  pose proof (tk_bytes_nonempty tk2) as Hne.
  assert (zlen (tk_bytes tk1) = 1 ∧ zlen (tk_bytes tk2) = 1 + zlen p) as [Hz1 Hz2].
  { destruct (short_push_wf p) as [_ E]; [lia|]. unfold tk2. rewrite E, zlen_cons.
    split; [|done]. apply (f_equal zlen) in Hs. rewrite zlen_app, Hz in Hs. unfold tk2 in Hs.
    rewrite E, zlen_cons in Hs. lia. }
  set (t1 := tok_at spk (tk_bytes tk1) 0 (Some tk1)).
  set (t2 := tok_at spk (tk_bytes tk1 ++ tk_bytes tk2) 1 (Some tk2)).
  set (vm1 := mkEngine cfg [[]; spk] 1 1 0 t1 (mkStack [small_item v] true) (mkStack [] true) [] 0 None c).
  exists vm1. split.
  - rewrite (Step_run _ t1 (tk_opcode tk1)); [|done| |done].
    2:{ change (tokenizer (start_vm cfg spk c)) with (tok_at spk [] (-1) None).
        rewrite (Next_run spk [] tk1 (tk_bytes tk2) (-1) None); done. }
    cbv [mbind st_bind]. change (Data t1) with (@nil byte). unfold tk_opcode. cbn [tk_op tk1].
    rewrite execute_small by done. unfold after_opcode. cbv [mbind st_bind st_get].
    assert (Done t1 = false) as Hd.
    { unfold Done, t1, tok_at. cbn [t_err t_script t_offset]. rewrite i32_small by (unfold is_i32; lia).
      apply Z.leb_gt. lia. }
    cbn [dstack astack pushed_on set_dstack set_tokenizer start_vm tokenizer condStack].
    unfold Depth. cbn [stk app]. change (i32 (i32 (zlen [small_item v]) + i32 (zlen (@nil bytes)))) with 1.
    cbn [Z.ltb Z.compare MaxStackSize]. cbv [st_modify]. cbn [set_opcodeIdx tokenizer condStack opcodeIdx].
    rewrite Hd. done.
  - rewrite (Step_run _ t2 (tk_opcode tk2)); [|done| |done].
    2:{ change (tokenizer vm1) with t1. unfold t1, t2.
        rewrite (Next_run spk (tk_bytes tk1) tk2 [] 0 (Some tk1)); try done. }
    cbv [mbind st_bind]. change (Data t2) with p. unfold tk_opcode. cbn [tk_op tk2].
    rewrite execute_push by (done || lia). unfold after_opcode. cbv [mbind st_bind st_get].
    assert (Done t2 = true) as Hd.
    { unfold Done, t2, tok_at. cbn [t_err t_script t_offset]. rewrite i32_small by (unfold is_i32; lia).
      apply Z.leb_le. rewrite <-Hs. lia. }
    cbn [dstack astack pushed_on set_dstack set_tokenizer vm1 tokenizer condStack].
    unfold Depth. cbn [stk app]. change (i32 (i32 (zlen [small_item v; p]) + i32 (zlen (@nil bytes)))) with 2.
    cbn [Z.ltb Z.compare MaxStackSize]. cbv [st_modify]. cbn [set_opcodeIdx tokenizer condStack opcodeIdx].
    rewrite Hd. cbn [negb]. change (zlen (@nil OpCond) =? 0) with true. cbn [negb].
    unfold finish_script. cbv [mbind st_bind]. unfold program_vm. fold spk tk2.
    replace (tok_at spk spk 1 (Some tk2)) with t2 by (unfold t2; by rewrite <-Hs). done.
Qed.

(** An execution of a witness program, from the validation on. *)
Definition after_program (n : nat) (vm : Engine) : result ScriptErr (unit * Engine) :=
  (check_witness ;; done ← enter_script; if done : bool then mret () else step_loop n) vm.

Lemma step_loop_program cfg v p c n :
  0 <= v <= 16 → 2 <= zlen p <= 40 →
  step_loop (S (S n)) (start_vm cfg (witness_script v p) c) = after_program n (program_vm cfg v p c).
Proof.
  intros Hv Hp. destruct (program_steps cfg v p c Hv Hp) as (vm1 & E1 & E2).
  cbn [step_loop]. cbv [mbind st_bind] in *. rewrite E1. cbn [step_loop]. cbv [mbind st_bind]. rewrite E2.
  unfold after_program. cbv [mbind st_bind]. by destruct (check_witness _) as [[]| |].
Qed.

Lemma NewEngine_program spk t idx fl c sh amt f vm :
  NewEngine spk t idx fl c sh amt f = Ok vm → IsWitnessProgram spk = Ok true →
  ∃ v p, 0 <= v <= 16 ∧ 2 <= zlen p <= 40 ∧ spk = witness_script v p ∧
    vm = start_vm (mkConfig fl t idx 0 sh f v (Some p) amt) spk c.
Proof.
  unfold NewEngine. case_match; [done|]. intros E Hw.
  apply bind_ok in E as (ti & _ & E). cbv zeta in E. case_match; [done|].
  apply bind_ok in E as (po & _ & E). destruct po; cbn [negb] in E; [|done].
  apply bind_ok in E as ([] & _ & E). rewrite Hw in E. cbn [mbind result_bind] in E.
  destruct (Z.eqb_spec (zlen (SignatureScript ti)) 0) as [Es|]; cbn [negb] in E; [|done].
  unfold IsWitnessProgram, ExtractWitnessProgramInfo in *.
  apply bind_ok in Hw as ([[v p] valid] & Ex & Hw). injection Hw as ->. rewrite Ex in E.
  cbn in E. injection E as <-. exists v, p.
  destruct (decide (4 <= zlen spk <= 42)) as [Hl|Hl].
  - destruct (extract_ok spk _ Hl Ex eq_refl) as (v' & p' & [= <- <-] & ? & ? & ?).
    apply zlen_0 in Es. unfold start_vm. by rewrite Es.
  - unfold extractWitnessProgramInfo in Ex.
    rewrite (proj2 (orb_true_iff _ _)) in Ex; [done|]. rewrite !Z.ltb_lt. lia.
Qed.

(** ** Which witnesses are accepted *)

Lemma st_lift_ok {A B} (r : result ScriptErr A) (f : A → VM B) vm x :
  (st_lift r ≫= f) vm = Ok x ↔ ∃ a, r = Ok a ∧ f a vm = Ok x.
Proof. unfold st_lift. cbv [mbind st_bind]. destruct r; cbn; naive_solver. Qed.

Lemma lift_run {A B} (r : result ScriptErr A) (f : A → VM B) vm a :
  r = Ok a → (st_lift r ≫= f) vm = f a vm.
Proof. by intros ->. Qed.

Lemma enforce_ok vm items v :
  dstack vm = mkStack items true → stk_ok items →
  enforceTapscriptStackLimits vm = Ok ((), v) ↔
  zlen items <= MaxStackSize ∧ Forall elem_ok items ∧ v = vm.
Proof.
  intros Hd Hok. unfold enforceTapscriptStackLimits. cbv [mbind st_bind st_get]. rewrite Hd.
  unfold Depth. cbn [stk]. rewrite (stk_ok_i32 _ Hok).
  destruct (Z.ltb_spec MaxStackSize (zlen items)) as [|Hle]; [split; [done|lia]|].
  unfold GetStack, st_lift. rewrite Hd, getStack_run by done. cbn [mbind result_bind].
  destruct (existsb _ items) eqn:Ee.
  - split; [done|]. intros (_ & Hel & _). apply existsb_exists in Ee as (x & Hin & Hx%Z.ltb_lt).
    rewrite Forall_forall in Hel. specialize (Hel x). unfold elem_ok in Hel.
    specialize (Hel ltac:(by apply list_elem_of_In)). lia.
  - apply existsb_false_Forall in Ee. split.
    + intros [= <-]. split; [done|]. split; [|done].
      eapply Forall_impl; [exact Ee|]. intros x Hx%Z.ltb_ge. exact Hx.
    + by intros (_ & _ & ->).
Qed.

Lemma setup_ok vm items leaf cb size annex lv v :
  version (config vm) = 0 → stk_ok (stk (dstack vm)) → verifyMinimalData (dstack vm) = true →
  stk_ok (items ++ [leaf; cb]) → script_ok leaf →
  setupScriptPathSpend (items ++ [leaf; cb]) size annex leaf lv vm = Ok ((), v) ↔
  lv = BaseLeafVersion ∧ parses leaf ∧ zlen items <= MaxStackSize ∧ Forall elem_ok items ∧
  v = with_leaf size annex leaf items vm.
Proof.
  intros Hver Hok Hm Hsk Hl. unfold setupScriptPathSpend.
  destruct (Z.eqb_spec lv BaseLeafVersion) as [->|]; cbn [negb]; [|split; [done|tauto]].
  cbv [mbind st_bind st_get]. rewrite Hver. unfold st_lift at 1.
  destruct (checkScriptParses_cases leaf Hl) as [[Hp ->]|[Hp ->]]; cbn [mbind result_bind];
    [|split; [done|tauto]].
  cbv [st_modify]. cbn [set_tapscriptCtx].
  assert (go_slice (E := ScriptErr) (items ++ [leaf; cb]) 0 (zlen (items ++ [leaf; cb]) - 2) = Ok items) as E.
  { apply go_slice_prefix. rewrite zlen_app. change (zlen [leaf; cb]) with 2. lia. }
  unfold st_lift. rewrite E. cbn [mbind result_bind].
  change (SetStack items _) with (SetStack items (set_scripts (scripts vm ++ [leaf])
    (set_tapscriptCtx (Some (newTapscriptExecutionCtx size annex (TapLeaf_TapHash (NewBaseTapLeaf leaf)))) vm))).
  set (vm1 := set_scripts _ _).
  assert (SetStack items vm1 = Ok ((), with_leaf size annex leaf items vm)) as ->.
  { pose proof (SetStack_run vm1 items (sigCache vm1) true Hok Hm) as Hr. exact Hr. }
  rewrite (enforce_ok _ items); [|done|].
  - tauto.
  - unfold stk_ok in *. rewrite zlen_app in Hsk. change (zlen [leaf; cb]) with 2 in Hsk. lia.
Qed.

Lemma split_last2 {A} (l : list A) : 2 <= zlen l → ∃ k x y, l = k ++ [x; y].
Proof.
  intros Hl. destruct l as [|y l _] using rev_ind; [done|].
  destruct l as [|x l _] using rev_ind; [done|]. exists l, x, y. by rewrite <-(assoc_L (++)).
Qed.

(** The part the two script paths share. *)
Lemma scriptPath_ok {B} vm stack size annex (parse : bytes → result ScriptErr B)
    (verify : B → bytes → result ScriptErr unit) (leafV : B → Z) v :
  version (config vm) = 0 → stk_ok (stk (dstack vm)) → verifyMinimalData (dstack vm) = true →
  2 <= zlen stack → stk_ok stack → Forall wf_script stack →
  (rawControlBlock ← st_lift (go_index stack (zlen stack - 1));
   controlBlock ← st_lift (parse rawControlBlock);
   witnessScript ← st_lift (go_index stack (zlen stack - 2));
   st_lift (verify controlBlock witnessScript) ;;
   setupScriptPathSpend stack size annex witnessScript (leafV controlBlock)) vm = Ok ((), v) ↔
  ∃ items leaf cb b, stack = items ++ [leaf; cb] ∧ parse cb = Ok b ∧ verify b leaf = Ok () ∧
    leafV b = BaseLeafVersion ∧ parses leaf ∧ zlen items <= MaxStackSize ∧ Forall elem_ok items ∧
    v = with_leaf size annex leaf items vm.
Proof.
  intros Hver Hok Hm Hl Hsk Hw. destruct (split_last2 stack Hl) as (items & leaf & cb & ->).
  assert (script_ok leaf) as Hlok.
  { rewrite Forall_forall in Hw. specialize (Hw leaf ltac:(apply elem_of_app; right; left)).
    unfold wf_script, maxWitnessItemSize, script_ok in *. lia. }
  assert (zlen (items ++ [leaf; cb]) = zlen items + 2) as Hz by (by rewrite zlen_app).
  assert (go_index (E := ScriptErr) (items ++ [leaf; cb]) (zlen (items ++ [leaf; cb]) - 1) = Ok cb) as E1.
  { change [leaf; cb] with ([leaf] ++ [cb]). rewrite (assoc_L (++)). apply go_index_mid. rewrite !zlen_snoc. lia. }
  assert (go_index (E := ScriptErr) (items ++ [leaf; cb]) (zlen (items ++ [leaf; cb]) - 2) = Ok leaf) as E2.
  { apply go_index_mid. lia. }
  split.
  - intros (cb' & Ec & (b & Hb & (leaf' & El & ([] & Hv & Hs)%st_lift_ok)%st_lift_ok)%st_lift_ok)%st_lift_ok.
    rewrite E1 in Ec. injection Ec as <-. rewrite E2 in El. injection El as <-.
    apply setup_ok in Hs as (?&?&?&?&?); [|done..]. by exists items, leaf, cb, b.
  - intros (items' & leaf' & cb' & b & Heq & Hb & Hv & Hlv & Hp & Hn & Hel & ->).
    apply app_inj_2 in Heq as [<- [= <- <-]]; [|done].
    apply st_lift_ok. exists cb. split; [done|]. apply st_lift_ok. exists b. split; [done|].
    apply st_lift_ok. exists leaf. split; [done|]. apply st_lift_ok. exists (). split; [done|].
    by apply setup_ok.
Qed.

(** ** The execution from the witness check on *)

Lemma steps_bound_two cfg v p c : (2 <= steps_bound (start_vm cfg (witness_script v p) c))%nat.
Proof. unfold steps_bound. cbn [scripts start_vm concat length app]. unfold witness_script. cbn. lia. Qed.

Lemma Execute_program spk t idx fl sh amt f cfg v p c :
  NewEngine spk t idx fl c sh amt f = Ok (start_vm cfg (witness_script v p) c) →
  spend_ok t idx f → cache_sound c → version cfg = 0 → 0 <= v <= 16 → 2 <= zlen p <= 40 →
  let vm := start_vm cfg (witness_script v p) c in
  Execute vm = (after_program (steps_bound vm - 2) ;; CheckErrorCondition true) (program_vm cfg v p c) ∧
  ((∃ v', Execute vm = Ok ((), v')) ↔
   ∃ n v', (after_program n ;; CheckErrorCondition true) (program_vm cfg v p c) = Ok ((), v')).
Proof.
  intros E Hs Hc Hver Hv Hp vm.
  assert (∀ n, (2 <= n)%nat → step_loop n vm = after_program (n - 2) (program_vm cfg v p c)) as Hl.
  { intros n Hn. replace n with (S (S (n - 2))) at 1 by lia. by apply step_loop_program. }
  assert (Execute vm = (step_loop (steps_bound vm) ;; CheckErrorCondition true) vm) as Hx.
  { unfold Execute. cbv [mbind st_bind st_get]. subst vm. cbn [config start_vm]. by rewrite Hver. }
  pose proof (steps_bound_two cfg v p c) as H2. fold vm in H2.
  assert (Execute vm = (after_program (steps_bound vm - 2) ;; CheckErrorCondition true) (program_vm cfg v p c)) as Hx'.
  { rewrite Hx. cbv [mbind st_bind]. by rewrite Hl. }
  split; [done|]. split; [intros [v' Hv']; exists (steps_bound vm - 2)%nat, v'; by rewrite <-Hx'|].
  intros (n & v' & Hn). exists v'. rewrite Hx. cbv [mbind st_bind] in *.
  destruct (Execute_total _ _ _ _ _ _ _ _ _ E Hs Hc) as [_ Htot]. fold vm in Htot.
  destruct (Htot (Nat.max (S (S n)) (steps_bound vm)) ltac:(lia)) as [_ <-].
  rewrite (step_loop_mono (S (S n))); [|lia|].
  - by rewrite Hl, !Nat.sub_succ, Nat.sub_0_r by lia.
  - rewrite Hl, !Nat.sub_succ, Nat.sub_0_r by lia. by destruct (after_program n _).
Qed.

(** ** The run of a leaf script *)

(** The engine before the first opcode of a leaf script. *)
Definition leaf_vm (cfg : Config) (spk leaf : bytes) (size : Z) (annex : option bytes)
    (items : list bytes) (c : option SigCache) : Engine :=
  mkEngine cfg [[]; spk; leaf] 2 0 0 (MakeScriptTokenizer 0 leaf) (mkStack items true)
    (mkStack [] true) [] 0
    (Some (newTapscriptExecutionCtx size annex (TapLeaf_TapHash (NewBaseTapLeaf leaf)))) c.

(** A leaf script accepts the items: run on them it leaves one true item. *)
Definition leaf_accepts (cfg : Config) (spk leaf : bytes) (size : Z) (annex : option bytes)
    (items : list bytes) (c : option SigCache) : Prop :=
  leaf = [] ∧ (∃ x, items = [x] ∧ asBool x = true) ∨
  leaf ≠ [] ∧ ∃ n v, (step_loop n ;; CheckErrorCondition true)
    (leaf_vm cfg spk leaf size annex items c) = Ok ((), v).

(** What an execution has to leave behind. *)
Definition final_stack (vm : Engine) : Prop :=
  ∃ l x, stk (dstack vm) = l ++ [x] ∧ asBool x = true ∧ (is_Some (tapscriptCtx vm) → l = []).

Lemma CheckErrorCondition_ok vm :
  stk_ok (stk (dstack vm)) →
  (∃ v : Engine, CheckErrorCondition true vm = Ok ((), v)) ↔
  zlen (scripts vm) <= scriptIdx vm ∧ final_stack vm.
Proof.
  intros Hok. unfold CheckErrorCondition, final_stack. cbv [mbind st_bind st_get].
  destruct (Z.ltb_spec (scriptIdx vm) (zlen (scripts vm))) as [|Hi]; [split; [by intros []|lia]|].
  unfold Depth. rewrite stk_ok_i32 by done. cbn [andb].
  destruct (dstack vm) as [l m] eqn:Ed. cbn [stk] in *.
  destruct l as [|x l _] using rev_ind.
  { change (zlen []) with 0. cbn. rewrite andb_true_r.
    split; [case_bool_decide; by intros []|]. intros (_ & l & x & E & _). by destruct l. }
  rewrite zlen_snoc. pose proof (zlen_nonneg l). rewrite (proj2 (Z.ltb_ge _ 1)) by lia.
  assert (on_dstack PopBool vm = Ok (asBool x, set_dstack (mkStack l m) vm)) as E.
  { unfold on_dstack, PopBool, PopByteArray. rewrite Ed. cbv [mbind st_bind].
    rewrite (nip_run m l x []) by done. by rewrite app_nil_r. }
  case_bool_decide as Hx; cbn [andb].
  - destruct (Z.eqb_spec (zlen l + 1) 1) as [Hl|Hl]; cbn [negb].
    + assert (l = []) as -> by (apply zlen_0; lia). rewrite E.
      destruct (asBool x) eqn:Eb; cbn [negb].
      * split; [|by eexists]. intros _. split; [done|]. by exists [], x.
      * split; [by intros []|]. intros (_ & l' & x' & Hl' & Hb & _).
        apply app_inj_2 in Hl' as [_ [= <-]]; [congruence|done].
    + split; [by intros []|]. intros (_ & l' & x' & Hl' & _ & Hn).
      apply app_inj_2 in Hl' as [<- _]; [|done]. rewrite (Hn Hx) in Hl. done.
  - rewrite E. destruct (asBool x) eqn:Eb; cbn [negb].
    + split; [|by eexists]. intros _. split; [done|]. by exists l, x.
    + split; [by intros []|]. intros (_ & l' & x' & Hl' & Hb & _).
      apply app_inj_2 in Hl' as [_ [= <-]]; [congruence|done].
Qed.

Lemma bind_cond {A B} (m : VM A) (f : A → VM B) vm (r : B * Engine) :
  (m ≫= f) vm = Ok r → ∃ a vm', m vm = Ok (a, vm') ∧ f a vm' = Ok r.
Proof. cbv [mbind st_bind]. destruct (m vm) as [[a vm']| |]; cbn; [|done..]. by exists a, vm'. Qed.

Lemma leaf_run cfg v p leaf size annex items c :
  stk_ok items → version cfg = 0 →
  (∃ n v', ((done ← enter_script; if done : bool then mret () else step_loop n) ;;
     CheckErrorCondition true) (with_leaf size annex leaf items (program_vm cfg v p c)) = Ok ((), v')) ↔
  leaf_accepts cfg (witness_script v p) leaf size annex items c.
Proof.
  intros Hok Hver. unfold leaf_accepts.
  set (vm := with_leaf size annex leaf items (program_vm cfg v p c)).
  destruct (decide (leaf = [])) as [->|Hne].
  - set (vm' := set_scriptIdx 3 vm).
    assert (∀ n, ((done ← enter_script; if done : bool then mret () else step_loop n) ;;
      CheckErrorCondition true) vm = CheckErrorCondition true vm') as E by done.
    assert ((∃ v', CheckErrorCondition true vm' = Ok ((), v')) ↔ ∃ x, items = [x] ∧ asBool x = true) as Hce.
    { rewrite CheckErrorCondition_ok by done. unfold final_stack. cbn. split.
      - intros (_ & l & x & -> & Hx & Hl). rewrite (Hl ltac:(by eexists)). by exists x.
      - intros (x & -> & Hx). split; [done|]. by exists [], x. }
    split.
    + intros (n & v' & Hx). rewrite E in Hx. left. split; [done|]. apply Hce. by exists v'.
    + intros [[_ Hx]|[Hne _]]; [|done]. apply Hce in Hx as [v' Hx]. exists 0%nat, v'. by rewrite E.
  - assert (∀ n, ((done ← enter_script; if done : bool then mret () else step_loop n) ;;
      CheckErrorCondition true) vm =
      (step_loop n ;; CheckErrorCondition true)
        (leaf_vm cfg (witness_script v p) leaf size annex items c)) as E.
    { intros n. assert (enter_script vm = Ok (false, leaf_vm cfg (witness_script v p) leaf size annex items c)) as Hen.
      { assert ((zlen leaf =? 0) = false) as Hz by (apply Z.eqb_neq; intros Hz%zlen_0; done).
        unfold enter_script. cbv [mbind st_bind st_get st_lift]. subst vm.
        assert (go_index (E := ScriptErr) [[]; witness_script v p; leaf] 2 = Ok leaf) as Hg by done.
        change (zlen [[]; witness_script v p; leaf]) with 3. cbn. rewrite Hg. cbn. rewrite Hz. cbn.
        change (zlen [[]; witness_script v p; leaf]) with 3. cbn. rewrite Hg. cbn. unfold leaf_vm.
        by rewrite Hver. }
      cbv [mbind st_bind]. by rewrite Hen. }
    split.
    + intros (n & v' & Hx). right. split; [done|]. exists n, v'. by rewrite <-E.
    + intros [[? _]|(_ & n & v' & Hx)]; [done|]. exists n, v'. by rewrite E.
Qed.

(** What remains once the witness has been validated. *)
Definition rest (n : nat) : VM unit :=
  (done ← enter_script; if done : bool then mret () else step_loop n) ;; CheckErrorCondition true.

Lemma after_program_ok vm :
  (∃ n v', (after_program n ;; CheckErrorCondition true) vm = Ok ((), v')) ↔
  ∃ v1, check_witness vm = Ok ((), v1) ∧ ∃ n v', rest n v1 = Ok ((), v').
Proof.
  unfold after_program, rest. split.
  - intros (n & v' & E). cbv [mbind st_bind] in E. destruct (check_witness vm) as [[[] v1]| |] eqn:Ew; [|done..].
    exists v1. split; [done|]. exists n, v'. done.
  - intros (v1 & Ew & n & v' & E). exists n, v'. cbv [mbind st_bind] in *. by rewrite Ew.
Qed.

(** The engine of a spend of a witness program. *)
Lemma NewEngine_this_input v p t idx fl c sh amt f vm ti :
  NewEngine (witness_script v p) t idx fl c sh amt f = Ok vm → 0 <= v <= 16 → 2 <= zlen p <= 40 →
  spend_ok t idx f → tx_TxIn t !! Z.to_nat idx = Some ti →
  let cfg := mkConfig fl t idx 0 sh f v (Some p) amt in
  vm = start_vm cfg (witness_script v p) c ∧ wit_ok (Witness ti) ∧
  (∀ v', check_witness (program_vm cfg v p c) = Ok ((), v') ↔
         verifyWitnessProgram p (Witness ti) (program_vm cfg v p c) = Ok ((), v')) ∧
  (∀ e, verifyWitnessProgram p (Witness ti) (program_vm cfg v p c) = Fail e →
        check_witness (program_vm cfg v p c) = Fail e).
Proof.
  intros E Hv Hp [Htx Hf] Hti cfg.
  destruct (NewEngine_running _ _ _ _ _ _ _ _ _ E Htx Hf) as [[n [Hc _]] _].
  assert (IsWitnessProgram (witness_script v p) = Ok true) as Hw.
  { unfold IsWitnessProgram, ExtractWitnessProgramInfo. by rewrite extract_witness_script by done. }
  destruct (NewEngine_program _ _ _ _ _ _ _ _ _ E Hw) as (v' & p' & Hv' & Hp' & Es & ->).
  assert (v' = v ∧ p' = p) as [-> ->].
  { pose proof (extract_witness_script v p Hv Hp) as E1. rewrite Es, extract_witness_script in E1 by done.
    by injection E1 as -> ->. }
  split; [done|]. split; [eapply wf_wit_ok; [exact Htx|by eapply list_elem_of_lookup_2]|].
  assert (this_input (program_vm cfg v p c) = Ok ti) as Et.
  { pose proof (co_idx _ (c_config _ _ Hc)) as Hi. cbn in Hi. unfold this_input. cbn.
    destruct (go_index_total (E := ScriptErr) (tx_TxIn t) idx Hi) as (ti' & -> & El). congruence. }
  assert (check_witness (program_vm cfg v p c) =
    verifyWitnessProgram p (Witness ti) (program_vm cfg v p c)) as ->; [|done].
  unfold check_witness. cbv [mbind st_bind st_get]. cbn [config program_vm witnessProgram cfg scriptIdx].
  cbn [Z.eqb Pos.eqb]. unfold st_lift. rewrite Et. done.
Qed.

(** A key path leaves a true item, and nothing else runs. *)
Lemma key_path_rest cfg v p c n :
  ∃ v', rest n (set_dstack (mkStack [[z2b 1]] true) (program_vm cfg v p c)) = Ok ((), v').
Proof.
  set (vm := set_dstack (mkStack [[z2b 1]] true) (program_vm cfg v p c)).
  assert (rest n vm = CheckErrorCondition true vm) as -> by done.
  apply CheckErrorCondition_ok; [done|]. split; [done|]. by exists [], [z2b 1].
Qed.

(** The spend of a leaf script a witness presents. *)
Definition script_spend {B} (parse : bytes → result ScriptErr B)
    (verify : B → bytes → result ScriptErr unit) (leafV : B → Z) (w : TxWitness)
    (items : list bytes) (leaf : bytes) (annex : option bytes) : Prop :=
  ∃ cb b, stripWitnessAnnex w = Ok (items ++ [leaf; cb], annex) ∧ parse cb = Ok b ∧
    verify b leaf = Ok () ∧ leafV b = BaseLeafVersion ∧ parses leaf ∧
    zlen items <= MaxStackSize ∧ Forall (λ x, zlen x <= MaxScriptElementSize) items.

Lemma script_spend_items {B} (parse : bytes → result ScriptErr B)
    (verify : B → bytes → result ScriptErr unit) (leafV : B → Z) w items leaf annex :
  script_spend parse verify leafV w items leaf annex → stk_ok items.
Proof. intros (cb & b & _ & _ & _ & _ & _ & Hl & _). unfold stk_ok, MaxStackSize in *. lia. Qed.

Lemma strip_wf w stack annex :
  wit_ok w → stripWitnessAnnex w = Ok (stack, annex) → w ≠ [] →
  1 <= zlen stack ∧ stk_ok stack ∧ Forall wf_script stack.
Proof.
  intros [[Hn Hw] _] E Hne. destruct (strip_facts w Hne) as (w' & annex' & E' & Hl & Hin).
  rewrite E' in E. injection E as <- <-. split; [lia|]. split.
  - unfold stk_ok, maxWitnessItemsPerInput in *. lia.
  - rewrite Forall_forall in *. auto.
Qed.

Lemma stripped_script {B} (parse : bytes → result ScriptErr B)
    (verify : B → bytes → result ScriptErr unit) (leafV : B → Z) w stack annex cfg v p c v' :
  wit_ok w → stripWitnessAnnex w = Ok (stack, annex) → w ≠ [] → zlen stack ≠ 1 → version cfg = 0 →
  (rawControlBlock ← st_lift (go_index stack (zlen stack - 1));
   controlBlock ← st_lift (parse rawControlBlock);
   witnessScript ← st_lift (go_index stack (zlen stack - 2));
   st_lift (verify controlBlock witnessScript) ;;
   setupScriptPathSpend stack (i32 (TxWitness_SerializeSize w)) annex witnessScript (leafV controlBlock))
     (program_vm cfg v p c) = Ok ((), v') ↔
  ∃ items leaf annex, script_spend parse verify leafV w items leaf annex ∧
    v' = with_leaf (TxWitness_SerializeSize w) annex leaf items (program_vm cfg v p c).
Proof.
  intros Hw E Hne H1 Hver. destruct (strip_wf w stack annex Hw E Hne) as (Hl & Hsk & Hwf).
  destruct Hw as [_ Hsz]. rewrite (i32_small (TxWitness_SerializeSize w)) by (unfold is_i32; lia).
  rewrite scriptPath_ok; [|done|done|done|lia|done|done]. unfold script_spend. split.
  - intros (items & leaf & cb & b & -> & ?&?&?&?&?&?& ->). exists items, leaf, annex. split; [|done].
    by exists cb, b.
  - intros (items & leaf & annex' & (cb & b & E' & ?&?&?&?&?&?) & ->). rewrite E in E'.
    injection E' as -> ->. by exists items, leaf, cb, b.
Qed.

Lemma merkle_root_path w cfg v p c v' :
  wit_ok w → version cfg = 0 →
  verifyMerkleRootSpend p w (program_vm cfg v p c) = Ok ((), v') ↔
  ∃ items leaf annex,
    script_spend ParseMerkleRootControlBlock (λ b, VerifyMerkleRootLeafCommitment b p) mr_LeafVersion
      w items leaf annex ∧
    v' = with_leaf (TxWitness_SerializeSize w) annex leaf items (program_vm cfg v p c).
Proof.
  intros Hw Hver. unfold verifyMerkleRootSpend. destruct (Z.eqb_spec (zlen w) 0) as [Hz|Hz].
  - apply zlen_0 in Hz as ->. split; [done|]. intros (items & leaf & annex & (cb & b & E & _) & _).
    injection E as E _. by destruct items.
  - assert (w ≠ []) as Hne by (by intros ->).
    destruct (strip_facts w Hne) as (stack & annex & E & _ & _). rewrite (lift_run _ _ _ _ E).
    cbv beta iota. destruct (Z.eqb_spec (zlen stack) 1) as [H1|H1].
    + split; [done|]. intros (items & leaf & annex' & (cb & b & E' & _) & _). rewrite E in E'.
      injection E' as -> _. rewrite zlen_app in H1. change (zlen [leaf; cb]) with 2 in H1.
      pose proof (zlen_nonneg items). lia.
    + by apply (stripped_script ParseMerkleRootControlBlock (λ b, VerifyMerkleRootLeafCommitment b p)
        mr_LeafVersion).
Qed.

Lemma taproot_path w cfg v p c v' :
  wit_ok w → version cfg = 0 →
  verifyTaprootSpend p w (program_vm cfg v p c) = Ok ((), v') ↔
  (∃ rawSig annex c', stripWitnessAnnex w = Ok ([rawSig], annex) ∧
     VerifyTaprootKeySpend p rawSig (tx cfg) (txIdx cfg) (prevOutFetcher cfg) (hashCache cfg) c = Ok ((), c') ∧
     v' = set_dstack (mkStack [[z2b 1]] true) (program_vm cfg v p c')) ∨
  (∃ items leaf annex,
    script_spend ParseControlBlock (λ b, VerifyTaprootLeafCommitment b p) LeafVersion w items leaf annex ∧
    v' = with_leaf (TxWitness_SerializeSize w) annex leaf items (program_vm cfg v p c)).
Proof.
  intros Hw Hver. unfold verifyTaprootSpend. destruct (Z.eqb_spec (zlen w) 0) as [Hz|Hz].
  - apply zlen_0 in Hz as ->. split; [done|].
    intros [(s & a & c' & E & _)|(items & leaf & annex & (cb & b & E & _) & _)]; [done|].
    injection E as E _. by destruct items.
  - assert (w ≠ []) as Hne by (by intros ->).
    destruct (strip_facts w Hne) as (stack & annex & E & _ & _). rewrite (lift_run _ _ _ _ E).
    cbv beta iota. destruct (Z.eqb_spec (zlen stack) 1) as [H1|H1].
    + destruct stack as [|rawSig [|l l0]]; [done| |rewrite !zlen_cons in H1; pose proof (zlen_nonneg l0); lia].
      transitivity (verifyTaprootKeyPath p rawSig (program_vm cfg v p c) = Ok ((), v')); [done|].
      unfold verifyTaprootKeyPath, on_sigCache. cbv [mbind st_bind st_get]. cbn [config program_vm sigCache].
      split.
      * intros Hk. left. destruct (VerifyTaprootKeySpend _ _ _ _ _ _ _) as [[[] c']| |] eqn:Ek; [|done..].
        exists rawSig, annex, c'. split; [done|]. split; [done|].
        pose proof (SetStack_run (program_vm cfg v p c) [[z2b 1]] c' true) as Hr.
        specialize (Hr eq_refl eq_refl). assert (∀ x y : result ScriptErr (unit * Engine), x = y → x = Ok ((), v') →
          y = Ok ((), v')) as Hxy by congruence.
        apply (Hxy _ _ Hr) in Hk. by injection Hk as <-.
      * intros [(s & a & c' & E' & Ek & ->)|(items & leaf & annex' & (cb & b & E' & _) & _)].
        -- rewrite E in E'. injection E' as <- <-. rewrite Ek.
           apply (SetStack_run (program_vm cfg v p c) [[z2b 1]] c' true); done.
        -- rewrite E in E'. injection E' as E' _. by destruct items as [|? []].
    + transitivity (∃ items leaf annex,
        script_spend ParseControlBlock (λ b, VerifyTaprootLeafCommitment b p) LeafVersion w items leaf annex ∧
        v' = with_leaf (TxWitness_SerializeSize w) annex leaf items (program_vm cfg v p c)).
      * by apply (stripped_script ParseControlBlock (λ b, VerifyTaprootLeafCommitment b p) LeafVersion).
      * split; [by right|]. intros [(s & a & c' & E' & _)|?]; [|done]. rewrite E in E'. by injection E' as -> _.
Qed.
End spend.



(** ** Properties *)


(** C11 which witnesses spend a pay-to-merkle-root output: exactly those that,
    once the annex is gone, hold the items, a leaf script and a control block,
    where the control block proves that the program commits to the script, the
    script has the base leaf version and parses, there are at most 1000 items of
    at most 520 bytes each, and the script accepts the items.  There is no key
    path. *)
Theorem merkle_root_spend `{HashFns} `{Keys} `{!MapRange bytes sigCacheEntry}
    p t idx flags c sh amt f vm ti :
  zlen p = 32 → NewEngine (witness_script MerkleRootWitnessVersion p) t idx flags c sh amt f = Ok vm →
  spend_ok t idx f → cache_sound c → tx_TxIn t !! Z.to_nat idx = Some ti →
  (∃ vm', Execute vm = Ok ((), vm')) ↔
  ∃ items leaf annex,
    script_spend ParseMerkleRootControlBlock (λ b, VerifyMerkleRootLeafCommitment b p) mr_LeafVersion
      (Witness ti) items leaf annex ∧
    leaf_accepts (config vm) (witness_script MerkleRootWitnessVersion p) leaf
      (TxWitness_SerializeSize (Witness ti)) annex items c.
Proof.
  intros Hp E Hs Hc Hti. assert (0 <= MerkleRootWitnessVersion <= 16) as Hv by done.
  assert (2 <= zlen p <= 40) as Hp' by lia.
  destruct (NewEngine_this_input _ _ _ _ _ _ _ _ _ _ _ E Hv Hp' Hs Hti) as (-> & Hw & Hok & _).
  destruct (Execute_program _ _ _ _ _ _ _ _ _ _ _ E Hs Hc eq_refl Hv Hp') as [_ Hx]. rewrite Hx.
  cbn [config start_vm]. rewrite after_program_ok. set (cfg := mkConfig _ _ _ _ _ _ _ _ _) in *.
  assert (∀ v1, check_witness (program_vm cfg 2 p c) = Ok ((), v1) ↔
    verifyMerkleRootSpend p (Witness ti) (program_vm cfg 2 p c) = Ok ((), v1)) as Hck.
  { intros v1. rewrite Hok. unfold verifyWitnessProgram. cbv [mbind st_bind st_get].
    cbn [config program_vm]. change (witnessVersion cfg) with 2. by rewrite Hp. }
  setoid_rewrite Hck. setoid_rewrite (merkle_root_path (Witness ti) cfg 2 p c _ Hw eq_refl).
  split.
  - intros (v1 & (items & leaf & annex & Hsp & ->) & Hr). exists items, leaf, annex. split; [done|].
    apply leaf_run; [by eapply script_spend_items|done|exact Hr].
  - intros (items & leaf & annex & Hsp & Hl). eexists. split; [by exists items, leaf, annex|].
    apply leaf_run; [by eapply script_spend_items|done..].
Qed.

(** C12 which witnesses spend a taproot output: exactly those that, once the
    annex is gone, are one signature that spends the output key, or hold the
    items, a leaf script and a control block, where the control block proves
    that the output key commits to the script, the script has the base leaf
    version and parses, there are at most 1000 items of at most 520 bytes each,
    and the script accepts the items. *)
Theorem taproot_spend `{HashFns} `{Keys} `{!MapRange bytes sigCacheEntry}
    p t idx flags c sh amt f vm ti :
  zlen p = 32 → NewEngine (witness_script TaprootWitnessVersion p) t idx flags c sh amt f = Ok vm →
  spend_ok t idx f → cache_sound c → tx_TxIn t !! Z.to_nat idx = Some ti →
  (∃ vm', Execute vm = Ok ((), vm')) ↔
  (∃ rawSig annex c', stripWitnessAnnex (Witness ti) = Ok ([rawSig], annex) ∧
     VerifyTaprootKeySpend p rawSig t idx f sh c = Ok ((), c')) ∨
  ∃ items leaf annex,
    script_spend ParseControlBlock (λ b, VerifyTaprootLeafCommitment b p) LeafVersion
      (Witness ti) items leaf annex ∧
    leaf_accepts (config vm) (witness_script TaprootWitnessVersion p) leaf
      (TxWitness_SerializeSize (Witness ti)) annex items c.
Proof.
  intros Hp E Hs Hc Hti. assert (0 <= TaprootWitnessVersion <= 16) as Hv by done.
  assert (2 <= zlen p <= 40) as Hp' by lia.
  destruct (NewEngine_this_input _ _ _ _ _ _ _ _ _ _ _ E Hv Hp' Hs Hti) as (-> & Hw & Hok & _).
  destruct (Execute_program _ _ _ _ _ _ _ _ _ _ _ E Hs Hc eq_refl Hv Hp') as [_ Hx]. rewrite Hx.
  cbn [config start_vm]. rewrite after_program_ok. set (cfg := mkConfig _ _ _ _ _ _ _ _ _) in *.
  assert (∀ v1, check_witness (program_vm cfg 1 p c) = Ok ((), v1) ↔
    verifyTaprootSpend p (Witness ti) (program_vm cfg 1 p c) = Ok ((), v1)) as Hck.
  { intros v1. rewrite Hok. unfold verifyWitnessProgram. cbv [mbind st_bind st_get].
    cbn [config program_vm]. change (witnessVersion cfg) with 1. by rewrite Hp. }
  setoid_rewrite Hck. setoid_rewrite (taproot_path (Witness ti) cfg 1 p c _ Hw eq_refl).
  split.
  - intros (v1 & [(s & a & c' & Es & Ek & ->)|(items & leaf & annex & Hsp & ->)] & Hr);
      [left; by exists s, a, c'|right].
    exists items, leaf, annex. split; [done|].
    apply leaf_run; [by eapply script_spend_items|done|exact Hr].
  - intros [(s & a & c' & Es & Ek)|(items & leaf & annex & Hsp & Hl)].
    + eexists. split; [left; by exists s, a, c'|]. exists 0%nat. by apply key_path_rest.
    + eexists. split; [right; by exists items, leaf, annex|].
      apply leaf_run; [by eapply script_spend_items|done..].
Qed.

(** *** Spends of witness programs *)

Definition key_spk : bytes := witness_script TaprootWitnessVersion (repeat x44 32).
Definition key_prevOuts : PrevOutputFetcher := Canned_FetchPrevOutput (mkCanned key_spk 5000).
Definition key_spend (w : TxWitness) : MsgTx :=
  mkMsgTx 2 [mkTxIn (mkOutPoint (repeat x11 32) 0) [] w 5] [mkTxOut 5000 [x6a]] 99.
Definition key_sig : bytes :=
  match calcTaprootSignatureHashRaw key_prevOuts demo_hashes SigHashDefault (key_spend []) 0 [] with
  | Ok h => h ++ repeat x44 32
  | _ => []
  end.
Definition key_input : TxIn := mkTxIn (mkOutPoint (repeat x11 32) 0) [] [key_sig] 5.
Definition key_vm (v : Z) (w : TxWitness) : Engine :=
  start_vm (mkConfig 0 (key_spend w) 0 0 demo_hashes key_prevOuts v (Some (repeat x44 32)) 5000)
    (witness_script v (repeat x44 32)) None.

Lemma key_vm_ok v w :
  v = 1 ∨ v = 5 → w = [key_sig] →
  NewEngine (witness_script v (repeat x44 32)) (key_spend w) 0 0 None demo_hashes 5000 key_prevOuts =
    Ok (key_vm v w).
Proof. intros [->| ->] ->; vm_compute; reflexivity. Qed.

Lemma key_spend_ok : spend_ok (key_spend [key_sig]) 0 key_prevOuts.
Proof.
  split; [|intros; by eexists].
  unfold wf_MsgTx, wf_TxIn, wf_TxOut, wf_TxWitness, wf_OutPoint, wf_script, key_spend.
  cbn [tx_Version tx_TxIn tx_TxOut tx_LockTime].
  split_and!; repeat constructor; vm_compute; congruence.
Qed.


Lemma demo_program_len : zlen (TapLeaf_TapHash (NewBaseTapLeaf demo_leaf)) = 32.
Proof. by vm_compute. Qed.

Lemma demo_vm_accepts : ∃ vm', Execute demo_vm = Ok ((), vm').
Proof. eexists. vm_compute. reflexivity. Qed.

Lemma merkle_root_spend_witness :
  ∃ items leaf annex,
    script_spend ParseMerkleRootControlBlock
      (λ b, VerifyMerkleRootLeafCommitment b (TapLeaf_TapHash (NewBaseTapLeaf demo_leaf))) mr_LeafVersion
      [demo_leaf; [xc1]] items leaf annex ∧
    leaf_accepts (config demo_vm) demo_spk leaf (TxWitness_SerializeSize [demo_leaf; [xc1]]) annex items None.
Proof.
  exact (proj1 (merkle_root_spend (TapLeaf_TapHash (NewBaseTapLeaf demo_leaf)) demo_spend 0 0 None
    demo_hashes 5000 demo_prevOuts demo_vm
    (mkTxIn (mkOutPoint (repeat x11 32) 0) [] [demo_leaf; [xc1]] 5)
    demo_program_len demo_vm_ok demo_spend_ok I eq_refl) demo_vm_accepts).
Defined.

Lemma key_spend_accepts :
  ∃ rawSig annex c', stripWitnessAnnex [key_sig] = Ok ([rawSig], annex) ∧
    VerifyTaprootKeySpend (repeat x44 32) rawSig (key_spend [key_sig]) 0 key_prevOuts demo_hashes None =
      Ok ((), c').
Proof. exists key_sig, None, None. split; vm_compute; reflexivity. Qed.

Lemma taproot_spend_witness : ∃ vm', Execute (key_vm 1 [key_sig]) = Ok ((), vm').
Proof.
  exact (proj2 (taproot_spend (repeat x44 32) (key_spend [key_sig]) 0 0 None demo_hashes 5000
    key_prevOuts (key_vm 1 [key_sig]) key_input eq_refl
    (key_vm_ok 1 _ (or_introl eq_refl) eq_refl) key_spend_ok I eq_refl)
    (or_introl key_spend_accepts)).
Defined.
