(* ===== verification/EngineOps.v ===== *)
(** * What the opcodes compute

    The meaning of the handlers in terms of integers, lock times, conditions and
    signatures: for each group, when a handler succeeds and the state it leaves. *)
From stdpp Require Import strings.
From Stdlib Require Import Lia ZArith.
From S2P Require Import Prelude Wire MsgTx ScriptError ScriptNum Stack Opcode Tokenizer Standard Crypto Taproot SigCache SigHash Engine EngineSafety EngineExec.

(** Reading the state. *)
Ltac run_get :=
  match goal with |- context [(st_get ≫= ?f) ?v] => change ((st_get ≫= f) v) with (f v v); cbv beta end.

(** An operand of an arithmetic opcode. *)
Definition operand (x : bytes) (n : Z) : Prop := MakeScriptNum x true maxScriptNumLen = Ok n.

Lemma operand_range x n : operand x n → - 2 ^ 31 < n < 2 ^ 31.
Proof. intros Hx. destruct (MakeScriptNum_range x true maxScriptNumLen) as [_ Hr]; [done|]. specialize (Hr n Hx). change (2 ^ (8 * maxScriptNumLen - 1)) with (2 ^ 31) in Hr. lia. Qed.

Definition bool_to_Z (b : bool) : Z := if b then 1 else 0.

(** What the arithmetic opcodes mean, the deepest operand first. *)
Definition arith (h : handler) (args : list Z) : option Z :=
  match h, args with
  | h_1Add, [a] => Some (a + 1)
  | h_1Sub, [a] => Some (a - 1)
  | h_Negate, [a] => Some (- a)
  | h_Abs, [a] => Some (Z.abs a)
  | h_Not, [a] => Some (bool_to_Z (a =? 0))
  | h_0NotEqual, [a] => Some (bool_to_Z (negb (a =? 0)))
  | h_Add, [a; b] => Some (a + b)
  | h_Sub, [a; b] => Some (a - b)
  | h_BoolAnd, [a; b] => Some (bool_to_Z (negb (a =? 0) && negb (b =? 0)))
  | h_BoolOr, [a; b] => Some (bool_to_Z (negb (a =? 0) || negb (b =? 0)))
  | h_NumEqual, [a; b] => Some (bool_to_Z (a =? b))
  | h_NumNotEqual, [a; b] => Some (bool_to_Z (negb (a =? b)))
  | h_LessThan, [a; b] => Some (bool_to_Z (a <? b))
  | h_GreaterThan, [a; b] => Some (bool_to_Z (b <? a))
  | h_LessThanOrEqual, [a; b] => Some (bool_to_Z (a <=? b))
  | h_GreaterThanOrEqual, [a; b] => Some (bool_to_Z (b <=? a))
  | h_Min, [a; b] => Some (Z.min a b)
  | h_Max, [a; b] => Some (Z.max a b)
  | h_Within, [x; lo; hi] => Some (bool_to_Z ((lo <=? x) && (x <? hi)))
  | _, _ => None
  end.

Definition is_arith (h : handler) : bool :=
  match h with
  | h_1Add | h_1Sub | h_Negate | h_Abs | h_Not | h_0NotEqual | h_Add | h_Sub | h_BoolAnd | h_BoolOr
  | h_NumEqual | h_NumNotEqual | h_LessThan | h_GreaterThan | h_LessThanOrEqual
  | h_GreaterThanOrEqual | h_Min | h_Max | h_Within => true
  | _ => false
  end.

(** ** Running the stack primitives *)

Lemma pop_run l x m : stk_ok (l ++ [x]) → PopByteArray (mkStack (l ++ [x]) m) = Ok (x, mkStack l m).
Proof. intros Hok. unfold PopByteArray. rewrite (nip_run m l x []) by done. by rewrite app_nil_r. Qed.

Lemma pop_ok s x s' :
  stk_ok (stk s) → PopByteArray s = Ok (x, s') ↔
  ∃ l, stk s = l ++ [x] ∧ s' = mkStack l (verifyMinimalData s).
Proof.
  intros Hok. destruct s as [st m]. cbn [stk] in *. split.
  - destruct st as [|y st _] using rev_ind; [done|]. rewrite pop_run by done.
    intros [= -> <-]. by exists st.
  - intros (l & -> & ->). by apply pop_run.
Qed.

Lemma popInt_ok s n s' :
  stk_ok (stk s) → verifyMinimalData s = true → PopInt s = Ok (n, s') ↔
  ∃ l x, stk s = l ++ [x] ∧ operand x n ∧ s' = mkStack l true.
Proof.
  intros Hok Hm. destruct s as [st m]. cbn in *. subst m. split.
  - destruct st as [|y st _] using rev_ind; [done|]. unfold PopInt. cbv [mbind st_bind].
    rewrite pop_run by done. cbv [st_get st_lift]. cbn [verifyMinimalData].
    intros (n' & E & [= -> <-])%bind_ok. exists st, y. split; [done|]. split; [exact E|done].
  - intros (l & x & -> & Hx & ->). unfold PopInt. cbv [mbind st_bind]. rewrite pop_run by done.
    cbv [st_get st_lift]. cbn [verifyMinimalData]. by rewrite Hx.
Qed.

Section ops.
Context `{HashFns} `{Keys} `{!MapRange bytes sigCacheEntry}.
Abbreviation VM := (ST ScriptErr Engine).

Lemma dstack_bind {A B} (m : Stk A) (f : A → VM B) vm r :
  (on_dstack m ≫= f) vm = Ok r ↔ ∃ a s, m (dstack vm) = Ok (a, s) ∧ f a (set_dstack s vm) = Ok r.
Proof.
  unfold on_dstack. cbv [mbind st_bind]. destruct (m (dstack vm)) as [[a s]| |]; cbn; [|naive_solver..].
  split; [intros E; by exists a, s|]. by intros (a' & s' & [= <- <-] & E).
Qed.

(** A data stack the arithmetic opcodes can read. *)
Definition readable (vm : Engine) : Prop :=
  stk_ok (stk (dstack vm)) ∧ verifyMinimalData (dstack vm) = true.

Lemma readable_rest vm l xs : readable vm → stk (dstack vm) = l ++ xs → stk_ok l.
Proof. intros [Hok _] E. rewrite E in Hok. unfold stk_ok in *. rewrite zlen_app in Hok. pose proof (zlen_nonneg xs). lia. Qed.

Lemma readable_set vm l xs : readable vm → stk (dstack vm) = l ++ xs → readable (set_dstack (mkStack l true) vm).
Proof. intros Hr E. split; [by eapply readable_rest|done]. Qed.

Lemma popInt_bind {B} (f : Z → VM B) vm r :
  readable vm →
  (on_dstack PopInt ≫= f) vm = Ok r ↔
  ∃ l x n, stk (dstack vm) = l ++ [x] ∧ operand x n ∧ f n (set_dstack (mkStack l true) vm) = Ok r.
Proof.
  intros [Hok Hm]. rewrite dstack_bind. split.
  - intros (n & s & (l & x & E & Hx & ->)%popInt_ok & Hf); [|done..]. by exists l, x, n.
  - intros (l & x & n & E & Hx & Hf). exists n, (mkStack l true). split; [|done].
    apply popInt_ok; [done..|]. by exists l, x.
Qed.

Lemma pushInt_last n vm l v :
  on_dstack (PushInt n) (set_dstack (mkStack l true) vm) = Ok ((), v) ↔
  ∃ w, Bytes n = Ok w ∧ v = set_dstack (mkStack (l ++ [w]) true) vm.
Proof.
  unfold on_dstack, PushInt. cbv [mbind st_bind st_lift]. cbn [dstack set_dstack].
  destruct (Bytes n) as [w| |]; cbn; [|naive_solver..].
  split; [intros [= <-]; by exists w|]. by intros (w' & [= <-] & ->).
Qed.

(** The handlers with one, two and three operands. *)
Lemma unop_ok f vm v :
  readable vm →
  (m ← on_dstack PopInt; on_dstack (PushInt (f m))) vm = Ok ((), v) ↔
  ∃ l x a w, stk (dstack vm) = l ++ [x] ∧ operand x a ∧ Bytes (f a) = Ok w ∧
    v = set_dstack (mkStack (l ++ [w]) true) vm.
Proof.
  intros Hr. rewrite popInt_bind by done. setoid_rewrite pushInt_last. naive_solver.
Qed.

Lemma binop_ok f vm v :
  readable vm →
  binop f vm = Ok ((), v) ↔
  ∃ l x y a b w, stk (dstack vm) = l ++ [x; y] ∧ operand x a ∧ operand y b ∧ Bytes (f b a) = Ok w ∧
    v = set_dstack (mkStack (l ++ [w]) true) vm.
Proof.
  intros Hr. unfold binop. rewrite popInt_bind by done. split.
  - intros (l & y & b & E & Hy & Hf). pose proof (readable_set _ _ _ Hr E) as Hr'.
    apply (unop_ok (f b)) in Hf as (l' & x & a & w & E' & Hx & Hw & ->); [|done].
    cbn in E'. subst l. rewrite <-(assoc_L (++)) in E. by exists l', x, y, a, b, w.
  - intros (l & x & y & a & b & w & E & Hx & Hy & Hw & ->).
    change [x; y] with ([x] ++ [y]) in E. rewrite (assoc_L (++)) in E.
    exists (l ++ [x]), y, b. split; [done|]. split; [done|].
    apply (unop_ok (f b)); [by eapply readable_set|]. by exists l, x, a, w.
Qed.

Lemma within_ok op data vm v :
  readable vm →
  opcodeWithin op data vm = Ok ((), v) ↔
  ∃ l x y z a lo hi w, stk (dstack vm) = l ++ [x; y; z] ∧ operand x a ∧ operand y lo ∧ operand z hi ∧
    Bytes (bool_to_Z ((lo <=? a) && (a <? hi))) = Ok w ∧
    v = set_dstack (mkStack (l ++ [w]) true) vm.
Proof.
  intros Hr. unfold opcodeWithin. rewrite popInt_bind by done. split.
  - intros (l & z & hi & E & Hz & Hf). pose proof (readable_set _ _ _ Hr E) as Hr'.
    apply (binop_ok (λ lo a, bool_to_Z ((lo <=? a) && (a <? hi)))) in Hf
      as (l' & x & y & a & lo & w & E' & Hx & Hy & Hw & ->); [|done].
    cbn in E'. subst l. rewrite <-(assoc_L (++)) in E. by exists l', x, y, z, a, lo, hi, w.
  - intros (l & x & y & z & a & lo & hi & w & E & Hx & Hy & Hz & Hw & ->).
    change [x; y; z] with ([x; y] ++ [z]) in E. rewrite (assoc_L (++)) in E.
    exists (l ++ [x; y]), z, hi. split; [done|]. split; [done|].
    apply (binop_ok (λ lo a, bool_to_Z ((lo <=? a) && (a <? hi)))); [by eapply readable_set|].
    by exists l, x, y, a, lo, w.
Qed.

(** A handler computes [F] on the operands it pops. *)
Definition computes (F : list Z → option Z) (vm v : Engine) : Prop :=
  ∃ l xs ns r w, stk (dstack vm) = l ++ xs ∧ Forall2 operand xs ns ∧ F ns = Some r ∧ Bytes r = Ok w ∧
    v = set_dstack (mkStack (l ++ [w]) true) vm.

Lemma unop_computes f g F vm v :
  readable vm → (∀ ns, F ns = match ns with [a] => Some (g a) | _ => None end) →
  (∀ a, - 2 ^ 31 < a < 2 ^ 31 → f a = g a) →
  (m ← on_dstack PopInt; on_dstack (PushInt (f m))) vm = Ok ((), v) ↔ computes F vm v.
Proof.
  intros Hr HF Hf. rewrite unop_ok by done. unfold computes. split.
  - intros (l & x & a & w & E & Hx & Hw & ->). rewrite Hf in Hw by by eapply operand_range.
    exists l, [x], [a], (g a), w. rewrite HF. repeat (done || constructor).
  - intros (l & xs & ns & r & w & E & Hxs & HF' & Hw & ->). rewrite HF in HF'.
    destruct ns as [|a [|]]; try done. injection HF' as <-.
    apply Forall2_cons_inv_r in Hxs as (x & ? & Hx & ->%Forall2_nil_inv_r & ->).
    exists l, x, a, w. by rewrite Hf by by eapply operand_range.
Qed.

Lemma binop_computes f g F vm v :
  readable vm → (∀ ns, F ns = match ns with [a; b] => Some (g a b) | _ => None end) →
  (∀ a b, - 2 ^ 31 < a < 2 ^ 31 → - 2 ^ 31 < b < 2 ^ 31 → f b a = g a b) →
  binop f vm = Ok ((), v) ↔ computes F vm v.
Proof.
  intros Hr HF Hf. rewrite binop_ok by done. unfold computes. split.
  - intros (l & x & y & a & b & w & E & Hx & Hy & Hw & ->). rewrite Hf in Hw by by eapply operand_range.
    exists l, [x; y], [a; b], (g a b), w. rewrite HF. repeat (done || constructor).
  - intros (l & xs & ns & r & w & E & Hxs & HF' & Hw & ->). rewrite HF in HF'.
    destruct ns as [|a [|b [|]]]; try done. injection HF' as <-.
    apply Forall2_cons_inv_r in Hxs as (x & ? & Hx & Hxs & ->).
    apply Forall2_cons_inv_r in Hxs as (y & ? & Hy & ->%Forall2_nil_inv_r & ->).
    exists l, x, y, a, b, w. by rewrite Hf by by eapply operand_range.
Qed.

Lemma within_computes op data vm v :
  readable vm → opcodeWithin op data vm = Ok ((), v) ↔ computes (arith h_Within) vm v.
Proof.
  intros Hr. rewrite within_ok by done. unfold computes. split.
  - intros (l & x & y & z & a & lo & hi & w & E & Hx & Hy & Hz & Hw & ->).
    exists l, [x; y; z], [a; lo; hi], (bool_to_Z ((lo <=? a) && (a <? hi))), w.
    repeat (done || constructor).
  - intros (l & xs & ns & r & w & E & Hxs & HF' & Hw & ->).
    destruct ns as [|a [|lo [|hi [|]]]]; try done. injection HF' as <-.
    apply Forall2_cons_inv_r in Hxs as (x & ? & Hx & Hxs & ->).
    apply Forall2_cons_inv_r in Hxs as (y & ? & Hy & Hxs & ->).
    apply Forall2_cons_inv_r in Hxs as (z & ? & Hz & ->%Forall2_nil_inv_r & ->).
    by exists l, x, y, z, a, lo, hi, w.
Qed.

Lemma arith_run h op data vm v :
  is_arith h = true → readable vm →
  run_handler h op data vm = Ok ((), v) ↔ computes (arith h) vm v.
Proof.
  intros Hh Hr. destruct h; try done; cbn [run_handler]; clear Hh.
  all: lazymatch goal with
  | |- opcodeWithin _ _ _ = _ ↔ _ => by apply within_computes
  | |- _ ↔ computes (arith ?h) _ _ =>
      lazymatch eval cbv in (arith h [0; 0]) with
      | Some _ => apply (binop_computes _ (λ a b, default 0 (arith h [a; b]))); [done| |]
      | None => apply (unop_computes _ (λ a, default 0 (arith h [a]))); [done| |]
      end
  end.
  all: try (by intros [|? [|? [|]]]).
  all: intros; cbn; rewrite ?i64_small by (unfold is_i64; lia); unfold bool_to_Z; try done.
  all: try (repeat case_match; lia).
Qed.

(** ** Lock times *)

(** The operand of the lock time opcodes, at the top of the stack. *)
Definition lock_operand (vm : Engine) (n : Z) : Prop :=
  ∃ l x, stk (dstack vm) = l ++ [x] ∧ MakeScriptNum x true 5 = Ok n.

Lemma peek0_bind {B} (f : bytes → VM B) vm r :
  readable vm →
  (on_dstack (PeekByteArray 0) ≫= f) vm = Ok r ↔ ∃ l x, stk (dstack vm) = l ++ [x] ∧ f x vm = Ok r.
Proof.
  intros [Hok Hm]. rewrite dstack_bind. destruct (dstack vm) as [st m] eqn:Ed. cbn [stk] in *.
  assert (set_dstack (mkStack st m) vm = vm) as Hv by (destruct vm; cbn in *; by subst).
  destruct st as [|x l _] using rev_ind.
  - split; [|intros (l & x & E & _); by destruct l]. intros (a & s & E & _). done.
  - rewrite (peek_run m l x []) by done. split.
    + intros (a & s & [= <- <-] & Hf). rewrite Hv in Hf. by exists l, x.
    + intros (l' & x' & E & Hf). apply app_inj_2 in E as [<- [= <-]]; [|done].
      eexists _, _. split; [done|]. by rewrite Hv.
Qed.

Lemma lift_bind {A B} (r : result ScriptErr A) (f : A → VM B) vm x :
  (st_lift r ≫= f) vm = Ok x ↔ ∃ a, r = Ok a ∧ f a vm = Ok x.
Proof. unfold st_lift. cbv [mbind st_bind]. destruct r; cbn; naive_solver. Qed.

Lemma verifyLockTime_ok txLockTime threshold lockTime :
  verifyLockTime txLockTime threshold lockTime = Ok () ↔
  (txLockTime < threshold ↔ lockTime < threshold) ∧ lockTime <= txLockTime.
Proof.
  unfold verifyLockTime. destruct (Z.ltb_spec txLockTime threshold), (Z.ltb_spec lockTime threshold),
    (Z.leb_spec threshold txLockTime), (Z.leb_spec threshold lockTime), (Z.ltb_spec txLockTime lockTime);
    cbn; (split; [done||lia|]); try done; lia.
Qed.

Lemma verifyLockTime_cases a b c :
  verifyLockTime a b c = Ok () ∨ verifyLockTime a b c = Fail (scriptError ErrUnsatisfiedLockTime).
Proof. unfold verifyLockTime. repeat case_match; by (left + right). Qed.

(** The bits of a relative lock time: its unit and its value. *)
Lemma lock_mask n :
  Z.land n (Z.lor SequenceLockTimeIsSeconds SequenceLockTimeMask) =
  (if Z.testbit n 22 then SequenceLockTimeIsSeconds else 0) + n mod 65536.
Proof.
  rewrite Z.land_lor_distr_r. change SequenceLockTimeMask with (Z.ones 16).
  rewrite Z.land_ones by lia. change (2 ^ 16) with 65536.
  assert (Z.land n SequenceLockTimeIsSeconds = if Z.testbit n 22 then SequenceLockTimeIsSeconds else 0) as ->.
  { change SequenceLockTimeIsSeconds with (2 ^ 22). apply Z.bits_inj'. intros i Hi.
    rewrite Z.land_spec, Z.pow2_bits_eqb by lia. destruct (Z.eqb_spec 22 i) as [<-|].
    - destruct (Z.testbit n 22); [by rewrite Z.pow2_bits_true|done].
    - rewrite andb_false_r. destruct (Z.testbit n 22); [by rewrite Z.pow2_bits_false|by rewrite Z.bits_0]. }
  pose proof (Z.mod_pos_bound n 65536 ltac:(lia)).
  destruct (Z.testbit n 22); [|by rewrite Z.lor_0_l]. rewrite Z.lor_comm.
  replace SequenceLockTimeIsSeconds with (Z.shiftl 64 16) by done.
  rewrite lor_shiftl by (change (2 ^ 16) with 65536; lia). change (Z.shiftl 64 16) with (64 * 2 ^ 16). lia.
Qed.

Lemma lock_mask_compare a b :
  verifyLockTime (Z.land a (Z.lor SequenceLockTimeIsSeconds SequenceLockTimeMask)) SequenceLockTimeIsSeconds
    (Z.land b (Z.lor SequenceLockTimeIsSeconds SequenceLockTimeMask)) = Ok () ↔
  Z.testbit a 22 = Z.testbit b 22 ∧ b mod 65536 <= a mod 65536.
Proof.
  rewrite verifyLockTime_ok, !lock_mask. change SequenceLockTimeIsSeconds with 4194304.
  pose proof (Z.mod_pos_bound a 65536 ltac:(lia)). pose proof (Z.mod_pos_bound b 65536 ltac:(lia)).
  destruct (Z.testbit a 22), (Z.testbit b 22); (split; [intros [? ?]; split; (done || lia)|intros [E ?]; try done; lia]).
Qed.

Lemma disabled_bit n : (Z.land n SequenceLockTimeDisabled =? 0) = negb (Z.testbit n 31).
Proof.
  change SequenceLockTimeDisabled with (2 ^ 31).
  destruct (Z.testbit n 31) eqn:E; cbn [negb].
  - apply Z.eqb_neq. intros H1. apply (f_equal (λ x, Z.testbit x 31)) in H1.
    rewrite Z.land_spec, Z.pow2_bits_true, E, Z.bits_0 in H1 by lia. done.
  - apply Z.eqb_eq, Z.bits_inj'. intros i Hi. rewrite Z.land_spec, Z.pow2_bits_eqb, Z.bits_0 by lia.
    destruct (Z.eqb_spec 31 i) as [<-|]; [by rewrite E|apply andb_false_r].
Qed.

Lemma cltv_run op data vm v ti :
  readable vm → this_input vm = Ok ti →
  opcodeCheckLockTimeVerify op data vm = Ok ((), v) ↔
  v = vm ∧ ∃ n, lock_operand vm n ∧ 0 <= n <= tx_LockTime (tx (config vm)) ∧
    (tx_LockTime (tx (config vm)) < LockTimeThreshold ↔ n < LockTimeThreshold) ∧
    Sequence ti ≠ MaxTxInSequenceNum.
Proof.
  intros Hr Hti. unfold opcodeCheckLockTimeVerify, lock_operand. rewrite peek0_bind by done.
  destruct Hr as [_ Hm]. cbv [mbind st_bind st_get]. rewrite Hm. fold (@st_bind ScriptErr Engine).
  split.
  - intros (l & x & E & Hf). apply (lift_bind (MakeScriptNum x true 5)) in Hf as (n & En & Hf).
    destruct (Z.ltb_spec n 0) as [|Hn]; [done|].
    apply (lift_bind (verifyLockTime _ _ _)) in Hf as ([] & [Ht Hle]%verifyLockTime_ok & Hf).
    apply (lift_bind (this_input vm)) in Hf as (ti' & Eti & Hf). rewrite Hti in Eti. injection Eti as <-.
    destruct (Z.eqb_spec (Sequence ti) MaxTxInSequenceNum); [done|]. injection Hf as <-.
    split; [done|]. exists n. split; [by exists l, x|]. split; [lia|]. done.
  - intros (-> & n & (l & x & E & En) & Hn & Ht & Hs). exists l, x. split; [done|].
    apply (lift_bind (MakeScriptNum x true 5)). exists n. split; [done|].
    rewrite (proj2 (Z.ltb_ge _ _)) by lia. apply (lift_bind (verifyLockTime _ _ _)). exists ().
    split; [apply verifyLockTime_ok; split; [done|lia]|].
    apply (lift_bind (this_input vm)). exists ti. split; [done|]. by rewrite (proj2 (Z.eqb_neq _ _)).
Qed.

Lemma csv_run op data vm v ti :
  readable vm → this_input vm = Ok ti →
  opcodeCheckSequenceVerify op data vm = Ok ((), v) ↔
  v = vm ∧ ∃ n, lock_operand vm n ∧ 0 <= n ∧
    (Z.testbit n 31 = true ∨
     2 <= u32 (tx_Version (tx (config vm))) ∧ Z.testbit (Sequence ti) 31 = false ∧
     Z.testbit (Sequence ti) 22 = Z.testbit n 22 ∧ n mod 65536 <= Sequence ti mod 65536).
Proof.
  intros Hr Hti. unfold opcodeCheckSequenceVerify, lock_operand. rewrite peek0_bind by done.
  destruct Hr as [_ Hm]. cbv [mbind st_bind st_get]. rewrite Hm. fold (@st_bind ScriptErr Engine).
  assert (∀ n, 0 <= n → (if n <? 0 then vm_err ErrNegativeLockTime else
    if negb (Z.land n SequenceLockTimeDisabled =? 0) then mret () else
    if u32 (tx_Version (tx (config vm))) <? 2 then vm_err ErrUnsatisfiedLockTime else
      txIn ← st_lift (this_input vm);
      let txSequence := Sequence txIn in
      if negb (Z.land txSequence SequenceLockTimeDisabled =? 0) then vm_err ErrUnsatisfiedLockTime
      else
        let lockTimeMask := Z.lor SequenceLockTimeIsSeconds SequenceLockTimeMask in
        st_lift (verifyLockTime (Z.land txSequence lockTimeMask) SequenceLockTimeIsSeconds
          (Z.land n lockTimeMask))) vm = Ok ((), v) ↔ v = vm ∧
    (Z.testbit n 31 = true ∨
     2 <= u32 (tx_Version (tx (config vm))) ∧ Z.testbit (Sequence ti) 31 = false ∧
     Z.testbit (Sequence ti) 22 = Z.testbit n 22 ∧ n mod 65536 <= Sequence ti mod 65536)) as Hrun.
  { intros n Hn. rewrite (proj2 (Z.ltb_ge _ _)), disabled_bit by lia.
    destruct (Z.testbit n 31); cbn [negb]; [split; [intros [= <-]; auto|by intros [-> _]]|].
    destruct (Z.ltb_spec (u32 (tx_Version (tx (config vm)))) 2); [split; [done|]; intros [_ [|[? _]]]; (done || lia)|].
    rewrite lift_bind. setoid_rewrite Hti.
    assert (∀ v, st_lift (verifyLockTime
      (Z.land (Sequence ti) (Z.lor SequenceLockTimeIsSeconds SequenceLockTimeMask)) SequenceLockTimeIsSeconds
      (Z.land n (Z.lor SequenceLockTimeIsSeconds SequenceLockTimeMask))) vm = Ok ((), v) ↔
      v = vm ∧ Z.testbit (Sequence ti) 22 = Z.testbit n 22 ∧ n mod 65536 <= Sequence ti mod 65536) as Hl.
    { intros v'. rewrite <-lock_mask_compare. unfold st_lift.
      destruct (verifyLockTime_cases (Z.land (Sequence ti) (Z.lor SequenceLockTimeIsSeconds SequenceLockTimeMask))
        SequenceLockTimeIsSeconds (Z.land n (Z.lor SequenceLockTimeIsSeconds SequenceLockTimeMask))) as [-> | ->];
        cbn; naive_solver. }
    split.
    - intros (ti' & [= <-] & Hf). cbv zeta in Hf. rewrite disabled_bit in Hf.
      destruct (Z.testbit (Sequence ti) 31); cbn [negb] in Hf; [done|]. apply Hl in Hf as (-> & ? & ?). auto 10.
    - intros (-> & [?|(? & Hd & ? & ?)]); [done|]. exists ti. split; [done|]. cbv zeta.
      rewrite disabled_bit, Hd. cbn [negb]. by apply Hl. }
  split.
  - intros (l & x & E & Hf). apply (lift_bind (MakeScriptNum x true 5)) in Hf as (n & En & Hf).
    destruct (decide (0 <= n)) as [Hn|Hn]; [|by rewrite (proj2 (Z.ltb_lt _ _)) in Hf by lia].
    apply (Hrun n Hn) in Hf as [-> Hf]. split; [done|]. exists n. split; [by exists l, x|done].
  - intros (-> & n & (l & x & E & En) & Hn & Hf). exists l, x. split; [done|].
    apply (lift_bind (MakeScriptNum x true 5)). exists n. split; [done|]. by apply Hrun.
Qed.

(** ** Signatures *)

(** The state after an operation of a given cost was charged. *)
Definition charge (cost : Z) (t : tapscriptExecutionCtx) (vm : Engine) : Engine :=
  set_tapscriptCtx (Some (mkTapCtx (tc_annex t) (tc_codeSepPos t) (tc_tapLeafHash t)
    (tc_opsBudget t - cost))) vm.

Definition ctx_at (vm : Engine) (t : tapscriptExecutionCtx) : Prop :=
  tapscriptCtx vm = Some t ∧ 0 <= tc_opsBudget t < 2 ^ 31.

Lemma charge_bind {B} cost t vm (f : unit → VM B) r :
  ctx_at vm t → 0 <= cost < 2 ^ 31 →
  (on_tapscriptCtx (tallyOpCost cost) ≫= f) vm = Ok r ↔
  cost <= tc_opsBudget t ∧ f () (charge cost t vm) = Ok r.
Proof.
  intros [Hx Hb] Hc.
  assert (on_tapscriptCtx (tallyOpCost cost) vm =
    if tc_opsBudget t - cost <? 0 then Fail (scriptError ErrTaprootMaxSigOps)
    else Ok ((), charge cost t vm)) as E.
  { unfold on_tapscriptCtx, tallyOpCost. cbv [mbind st_bind st_get]. rewrite Hx. cbn.
    rewrite i32_small by (unfold is_i32; lia). by destruct (tc_opsBudget t - cost <? 0). }
  cbv [mbind st_bind]. rewrite E. destruct (Z.ltb_spec (tc_opsBudget t - cost) 0).
  - split; [done|lia].
  - split; [intros Hf; split; [lia|done]|tauto].
Qed.




Lemma pop_bind {B} (f : bytes → VM B) vm r :
  readable vm →
  (on_dstack PopByteArray ≫= f) vm = Ok r ↔
  ∃ l x, stk (dstack vm) = l ++ [x] ∧ f x (set_dstack (mkStack l true) vm) = Ok r.
Proof.
  intros [Hok Hm]. rewrite dstack_bind. split.
  - intros (x & s & (l & E & ->)%pop_ok & Hf); [|done]. rewrite Hm in Hf. by exists l, x.
  - intros (l & x & E & Hf). exists x, (mkStack l true). split; [|done]. apply pop_ok; [done|].
    exists l. by rewrite Hm.
Qed.

Lemma pop_known {B} (f : bytes → VM B) vm l x :
  dstack vm = mkStack (l ++ [x]) true → stk_ok (l ++ [x]) →
  (on_dstack PopByteArray ≫= f) vm = f x (set_dstack (mkStack l true) vm).
Proof. intros E Hok. unfold on_dstack. cbv [mbind st_bind]. rewrite E, pop_run by done. done. Qed.

Lemma push_last x vm l v :
  on_dstack (PushByteArray x) (set_dstack (mkStack l true) vm) = Ok ((), v) ↔
  v = set_dstack (mkStack (l ++ [x]) true) vm.
Proof. unfold on_dstack. cbn. split; [by intros [= <-]|by intros ->]. Qed.

Lemma stk_ok_prefix l xs : stk_ok (l ++ xs) → stk_ok l.
Proof. unfold stk_ok. rewrite zlen_app. pose proof (zlen_nonneg xs). lia. Qed.










Lemma pop_chunks_known {B} (f : list bytes → VM B) cs vm l acc :
  dstack vm = mkStack (l ++ cs) true → stk_ok (l ++ cs) →
  (pop_chunks (length cs) acc ≫= f) vm = f (cs ++ acc) (set_dstack (mkStack l true) vm).
Proof.
  revert vm acc. induction cs as [|x cs IH] using rev_ind; intros vm acc Hd Hok.
  - rewrite app_nil_r in Hd. change (f acc vm = f acc (set_dstack (mkStack l true) vm)).
    f_equal. destruct vm; cbn in *; by subst.
  - rewrite length_app, Nat.add_1_r. rewrite (assoc_L (++)) in Hd, Hok. cbn [pop_chunks].
    transitivity ((chunk ← on_dstack PopByteArray; pop_chunks (length cs) (chunk :: acc) ≫= f) vm).
    { cbv [mbind st_bind]. by destruct (on_dstack PopByteArray vm) as [[]| |]. }
    rewrite (pop_known _ _ _ _ Hd Hok), IH; [|done|by eapply stk_ok_prefix].
    by rewrite <-(assoc_L (++)).
Qed.

Definition xmss_sized (pk : bytes) (chunks : list bytes) : Prop :=
  zlen pk = xmss_PKLen ∧ Forall (λ c, zlen c = sigChunkSize) chunks.
End ops.

(** ** Properties *)

(** C40 arithmetic opcodes: each of the nineteen arithmetic opcodes succeeds
    exactly when the top of the stack holds its operands, minimally encoded in
    at most four bytes; it then replaces them with the encoding of the number
    [arith] defines and changes nothing else.  The result always has an
    encoding, of at most five bytes. *)
Theorem arithmetic_opcodes `{HashFns} `{Keys} `{!MapRange bytes sigCacheEntry} h op data vm :
  is_arith h = true → readable vm →
  (∀ vm', run_handler h op data vm = Ok ((), vm') ↔ computes (arith h) vm vm') ∧
  (∀ l xs ns r, stk (dstack vm) = l ++ xs → Forall2 operand xs ns → arith h ns = Some r →
    ∃ w, Bytes r = Ok w ∧ zlen w <= 5 ∧
      run_handler h op data vm = Ok ((), set_dstack (mkStack (l ++ [w]) true) vm)).
Proof.
  intros Hh Hr. split; [intros; by apply arith_run|]. intros l xs ns r E Hxs Har.
  assert (Forall (λ n, - 2 ^ 31 < n < 2 ^ 31) ns) as Hns.
  { clear -Hxs. induction Hxs as [|x n xs ns Hx _ IH]; constructor; [by eapply operand_range|done]. }
  destruct (Bytes_total r 5) as (w & Hw & Hl); [lia| |].
  - assert (Z.abs r <= 2 ^ 32); [|lia]. rewrite Forall_forall in Hns.
    assert (∀ b, Z.abs (bool_to_Z b) <= 2 ^ 32) as Hb by (intros []; cbn; lia).
    destruct h, ns as [|a [|b [|c [|]]]]; try done; injection Har as <-; try apply Hb.
    all: assert (- 2 ^ 31 < a < 2 ^ 31) by (apply Hns; left); try lia.
    all: assert (- 2 ^ 31 < b < 2 ^ 31) by (apply Hns; right; left); lia.
  - exists w. split; [done|]. split; [done|]. apply arith_run; [done..|]. by exists l, xs, ns, r, w.
Qed.

(** Lock times: OP_CHECKLOCKTIMEVERIFY passes, and leaves the state alone,
    exactly when the operand is a non-negative number of at most five bytes that
    is a height or a time as the transaction's lock time is, the lock time has
    reached it, and the input is not final.  OP_CHECKSEQUENCEVERIFY passes
    exactly when the operand is such a number and either has bit 31 set, or the
    transaction has at least version 2 (as an unsigned number), the input's
    sequence has bit 31 clear and the same unit (bit 22), and its low 16 bits
    have reached those of the operand. *)
Theorem lock_time_opcodes `{HashFns} `{Keys} `{!MapRange bytes sigCacheEntry} op data vm vm' ti :
  readable vm → this_input vm = Ok ti →
  (opcodeCheckLockTimeVerify op data vm = Ok ((), vm') ↔
   vm' = vm ∧ ∃ n, lock_operand vm n ∧ 0 <= n <= tx_LockTime (tx (config vm)) ∧
     (tx_LockTime (tx (config vm)) < LockTimeThreshold ↔ n < LockTimeThreshold) ∧
     Sequence ti ≠ MaxTxInSequenceNum) ∧
  (opcodeCheckSequenceVerify op data vm = Ok ((), vm') ↔
   vm' = vm ∧ ∃ n, lock_operand vm n ∧ 0 <= n ∧
     (Z.testbit n 31 = true ∨
      2 <= u32 (tx_Version (tx (config vm))) ∧ Z.testbit (Sequence ti) 31 = false ∧
      Z.testbit (Sequence ti) 22 = Z.testbit n 22 ∧ n mod 65536 <= Sequence ti mod 65536)).
Proof. intros Hr Hti. split; [by apply cltv_run|by apply csv_run]. Qed.


(** C36 OP_CHECKXMSSSIG: with five chunks and a key on the stack the opcode
    succeeds exactly in three cases: a key or chunk of the wrong length pushes
    false at no cost; otherwise the budget must cover 1000, which is charged,
    and false is pushed when the leaf's message does not exist, true when the
    concatenated chunks are a valid signature of it.  An invalid signature of
    the right length never lets a script go on. *)
Theorem xmss_opcode `{HashFns} `{Keys} `{!MapRange bytes sigCacheEntry} op data vm vm' t l chunks pk :
  ctx_at vm t → dstack vm = mkStack (l ++ chunks ++ [pk]) true → stk_ok (l ++ chunks ++ [pk]) →
  zlen chunks = numSigChunks →
  let sigHash := CalcTapscriptSigHash vm (hashCache (config vm)) SigHashDefault (tx (config vm))
    (txIdx (config vm)) (prevOutFetcher (config vm)) in
  opcodeCheckXmssSig op data vm = Ok ((), vm') ↔
  ¬ xmss_sized pk chunks ∧ vm' = set_dstack (mkStack (l ++ [[]]) true) vm ∨
  xmss_sized pk chunks ∧ 1000 <= tc_opsBudget t ∧
  ((∃ e, sigHash = Fail e) ∧ vm' = charge 1000 t (set_dstack (mkStack (l ++ [[]]) true) vm) ∨
   ∃ h, sigHash = Ok h ∧ xmss_Verify pk h (concat chunks) = true ∧
     vm' = charge 1000 t (set_dstack (mkStack (l ++ [[z2b 1]]) true) vm)).
Proof.
  intros Hx Hd Hok Hn sigHash. rewrite (assoc_L (++)) in Hd, Hok.
  set (vm1 := set_dstack (mkStack l true) vm). unfold opcodeCheckXmssSig, xmss_sized. run_get.
  rewrite (proj1 Hx), (pop_known _ _ _ _ Hd Hok).
  replace (Z.to_nat numSigChunks) with (length chunks) by (rewrite <-Hn; unfold zlen; lia).
  rewrite (pop_chunks_known _ chunks _ l); [|done|by eapply stk_ok_prefix]. rewrite app_nil_r.
  change (set_dstack (mkStack l true) _) with vm1.
  assert (∀ u, on_dstack (PushBool false) u = on_dstack (PushByteArray []) u) as Hfalse by done.
  destruct (Z.eqb_spec (zlen pk) xmss_PKLen) as [Hpk|Hpk]; cbn [negb].
  2:{ rewrite Hfalse. unfold vm1. rewrite push_last. tauto. }
  destruct (existsb _ chunks) eqn:Ec.
  { rewrite Hfalse. unfold vm1. rewrite push_last. apply existsb_exists in Ec as (c & Hin & Hc).
    assert (¬ Forall (λ c, zlen c = sigChunkSize) chunks) as Hnot; [|tauto].
    rewrite Forall_forall. intros Hall. apply list_elem_of_In in Hin. by rewrite (Hall c Hin), Z.eqb_refl in Hc. }
  assert (Forall (λ c, zlen c = sigChunkSize) chunks) as Hall.
  { apply existsb_false_Forall in Ec. eapply Forall_impl; [exact Ec|].
    intros c Hc%negb_false_iff. by apply Z.eqb_eq. }
  etransitivity; [apply (charge_bind 1000 t vm1 _ ((), vm')); done|]. cbv beta. run_get. cbv zeta.
  assert (CalcTapscriptSigHash (charge 1000 t vm1) (hashCache (config vm)) SigHashDefault (tx (config vm))
    (txIdx (config vm)) (prevOutFetcher (config vm)) = sigHash) as Hsh.
  { unfold sigHash, CalcTapscriptSigHash. cbn [charge tapscriptCtx set_tapscriptCtx]. by rewrite (proj1 Hx). }
  change (config (charge 1000 t vm1)) with (config vm). rewrite Hsh.
  change (charge 1000 t vm1) with (set_dstack (mkStack l true) (charge 1000 t vm)).
  assert (xmss_sized pk chunks) as Hsz by done. unfold xmss_sized in Hsz.
  destruct sigHash as [h|e|].
  - destruct (xmss_Verify pk h (concat chunks)) eqn:Ev; cbn [negb].
    + change (PushBool true) with (PushByteArray [z2b 1]). rewrite push_last. split.
      * intros [Hb ->]. right. split; [done|]. split; [done|]. right. by exists h.
      * intros [[? _]|(_ & Hb & [[[e E] _]|(h' & _ & _ & ->)])]; done.
    + split; [by intros [_ ?]|]. intros [[? _]|(_ & Hb & [[[e E] _]|(h' & [= <-] & E & _)])]; congruence.
  - rewrite Hfalse, push_last. split.
    + intros [Hb ->]. right. split; [done|]. split; [done|]. left. split; [by exists e|done].
    + intros [[? _]|(_ & Hb & [[_ ->]|(h' & E & _)])]; done.
  - split; [by intros [_ ?]|]. intros [[? _]|(_ & Hb & [[[e E] _]|(h' & E & _)])]; done.
Qed.

(** *** On a concrete engine *)

(** The spend of [demo_vm] while its leaf runs, with a given stack. *)
Definition ops_vm (items : list bytes) : Engine :=
  set_dstack (mkStack items true) (set_tapscriptCtx (Some (newTapscriptExecutionCtx 3000 None
    (TapLeaf_TapHash (NewBaseTapLeaf demo_leaf)))) demo_vm).

Definition ops_ctx : tapscriptExecutionCtx :=
  newTapscriptExecutionCtx 3000 None (TapLeaf_TapHash (NewBaseTapLeaf demo_leaf)).

(** The message of the leaf, the same whatever the stack holds. *)
Definition ops_hash : bytes :=
  match CalcTapscriptSigHash (ops_vm []) demo_hashes SigHashDefault demo_spend 0 demo_prevOuts with
  | Ok h => h
  | _ => []
  end.

Lemma ops_hash_ok :
  CalcTapscriptSigHash (ops_vm []) demo_hashes SigHashDefault demo_spend 0 demo_prevOuts = Ok ops_hash.
Proof. by vm_compute. Qed.

Lemma ops_readable items : stk_ok items → readable (ops_vm items).
Proof. by split. Qed.

Lemma ops_ctx_at items : ctx_at (ops_vm items) ops_ctx.
Proof. split; [reflexivity|by vm_compute]. Qed.



Lemma arithmetic_opcodes_witness :
  opcodeSub (opcode_at (z2b OP_SUB)) [] (ops_vm [[x05]; [x07]]) = Ok ((), ops_vm [[x82]]).
Proof.
  destruct (proj2 (arithmetic_opcodes h_Sub (opcode_at (z2b OP_SUB)) [] (ops_vm [[x05]; [x07]]) eq_refl
    (ops_readable [[x05]; [x07]] eq_refl)) [] [[x05]; [x07]] [5; 7] (-2) eq_refl
    ltac:(repeat constructor) eq_refl) as (w & Hw & _ & E).
  injection Hw as <-. exact E.
Defined.

Lemma lock_time_opcodes_witness :
  opcodeCheckLockTimeVerify (opcode_at (z2b OP_CHECKLOCKTIMEVERIFY)) [] (ops_vm [[x63]]) = Ok ((), ops_vm [[x63]]) ∧
  opcodeCheckSequenceVerify (opcode_at (z2b OP_CHECKSEQUENCEVERIFY)) [] (ops_vm [[x05]]) = Ok ((), ops_vm [[x05]]).
Proof.
  split.
  - apply (lock_time_opcodes (opcode_at (z2b OP_CHECKLOCKTIMEVERIFY)) [] (ops_vm [[x63]]) (ops_vm [[x63]])
      (mkTxIn (mkOutPoint (repeat x11 32) 0) [] [demo_leaf; [xc1]] 5) (ops_readable [[x63]] eq_refl) eq_refl).
    split; [reflexivity|]. exists 99. split; [by exists [], [x63]|]. by vm_compute.
  - apply (lock_time_opcodes (opcode_at (z2b OP_CHECKSEQUENCEVERIFY)) [] (ops_vm [[x05]]) (ops_vm [[x05]])
      (mkTxIn (mkOutPoint (repeat x11 32) 0) [] [demo_leaf; [xc1]] 5) (ops_readable [[x05]] eq_refl) eq_refl).
    split; [reflexivity|]. exists 5. split; [by exists [], [x05]|]. split; [done|]. right. by vm_compute.
Defined.






Definition xmss_chunks : list bytes := (ops_hash ++ repeat x00 436) :: repeat (repeat x00 468) 4.
Definition xmss_items : list bytes := [] ++ xmss_chunks ++ [repeat x01 64].

Lemma xmss_items_ok :
  stk_ok xmss_items ∧ zlen xmss_chunks = numSigChunks ∧ xmss_sized (repeat x01 64) xmss_chunks.
Proof. split; [done|]. split; [done|]. split; [done|]. repeat constructor; by vm_compute. Qed.

Lemma xmss_sig_ok h :
  CalcTapscriptSigHash (ops_vm []) demo_hashes SigHashDefault demo_spend 0 demo_prevOuts = Ok h →
  xmss_Verify (repeat x01 64) h (concat xmss_chunks) = true ∧ 1000 <= tc_opsBudget ops_ctx.
Proof. rewrite ops_hash_ok. intros [= <-]. by vm_compute. Qed.

Lemma ops_config items :
  hashCache (config (ops_vm items)) = demo_hashes ∧ tx (config (ops_vm items)) = demo_spend ∧
  txIdx (config (ops_vm items)) = 0 ∧ prevOutFetcher (config (ops_vm items)) = demo_prevOuts.
Proof. vm_compute. repeat split. Qed.

Lemma xmss_opcode_witness :
  ∃ vm, opcodeCheckXmssSig (opcode_at (z2b OP_CHECKXMSSSIG)) [] (ops_vm xmss_items) = Ok ((), vm) ∧
    stk (dstack vm) = [[x01]].
Proof.
  pose proof (λ vm', xmss_opcode (opcode_at (z2b OP_CHECKXMSSSIG)) [] (ops_vm xmss_items) vm'
    ops_ctx [] xmss_chunks (repeat x01 64) (ops_ctx_at _) eq_refl (proj1 xmss_items_ok)
    (proj1 (proj2 xmss_items_ok))) as Hx.
  cbv zeta in Hx. destruct (ops_config xmss_items) as (E1 & E2 & E3 & E4). rewrite E1, E2, E3, E4 in Hx.
  exists (charge 1000 ops_ctx (set_dstack (mkStack [[x01]] true) (ops_vm xmss_items))).
  split; [|reflexivity]. apply Hx. right. split; [exact (proj2 (proj2 xmss_items_ok))|].
  split; [exact (proj2 (xmss_sig_ok _ ops_hash_ok))|]. right. exists ops_hash.
  split; [exact ops_hash_ok|]. split; [exact (proj1 (xmss_sig_ok _ ops_hash_ok))|reflexivity].
Defined.
