(* ===== verification/EngineCond.v ===== *)
(** * Conditional execution

    The stack of conditions: what each opcode makes of it, and that a branch
    runs exactly when every condition around it holds. *)
From stdpp Require Import strings.
From Stdlib Require Import Lia ZArith.
From S2P Require Import Prelude Wire MsgTx ScriptError ScriptNum Stack Opcode Tokenizer Standard Crypto Taproot SigCache SigHash Engine EngineSafety EngineExec EngineOps.

#[export] Instance OpCond_eq_dec : EqDecision OpCond.
Proof. solve_decision. Defined.

(** ** The reference meaning *)

(** A branch runs when all the conditions around it hold. *)
Definition executing (l : list OpCond) : bool := forallb (λ c, bool_decide (c = OpCondTrue)) l.

Definition cond_of (b : bool) : OpCond := if b then OpCondTrue else OpCondFalse.

(** What a handler makes of the conditions; [b] is the item a condition tests. *)
Definition next_cond (h : handler) (b : bool) (l : list OpCond) : option (list OpCond) :=
  match h with
  | h_If => Some (l ++ [if executing l then cond_of b else OpCondSkip])
  | h_NotIf => Some (l ++ [if executing l then cond_of (negb b) else OpCondSkip])
  | h_Else =>
      match last l with
      | None => None
      | Some OpCondTrue => Some (removelast l ++ [OpCondFalse])
      | Some OpCondFalse => Some (removelast l ++ [OpCondTrue])
      | Some OpCondSkip => Some l
      end
  | h_Endif => match l with [] => None | _ => Some (removelast l) end
  | _ => Some l
  end.

Definition conditional (h : handler) : bool :=
  match h with h_If | h_NotIf | h_Else | h_Endif => true | _ => false end.

(** The handlers that pop the item they test. *)
Definition tests_item (h : handler) : bool := match h with h_If | h_NotIf => true | _ => false end.

(** The shape of the stack: conditions that hold, then perhaps one that does
    not, and inside it only skipped ones. *)
Definition cond_wf (l : list OpCond) : Prop :=
  ∃ n m, l = replicate n OpCondTrue ∨ l = replicate n OpCondTrue ++ OpCondFalse :: replicate m OpCondSkip.

(** ** The shape is kept *)

Lemma replicate_snoc {A} n (x : A) : replicate n x ++ [x] = replicate (S n) x.
Proof. rewrite <-replicate_S_end. done. Qed.

Lemma executing_replicate n : executing (replicate n OpCondTrue) = true.
Proof. induction n as [|n IH]; [done|exact IH]. Qed.

Lemma executing_false l k : executing (l ++ OpCondFalse :: k) = false.
Proof. unfold executing. rewrite forallb_app. cbn. apply andb_false_r. Qed.

(** With this shape the last condition decides. *)
Lemma executing_last l :
  cond_wf l → executing l = match last l with None | Some OpCondTrue => true | Some _ => false end.
Proof.
  intros (n & m & [->| ->]).
  - rewrite executing_replicate. destruct n; [done|]. rewrite <-replicate_snoc. by rewrite last_snoc.
  - rewrite executing_false. destruct m as [|m]; [cbn [replicate]; by rewrite last_snoc|].
    rewrite <-replicate_snoc, app_comm_cons, (assoc_L (++)). by rewrite last_snoc.
Qed.

Lemma removelast_snoc {A} (l : list A) x : removelast (l ++ [x]) = l.
Proof. apply removelast_last. Qed.

(** The last condition of a well-shaped stack, and what is below it. *)
Lemma cond_wf_snoc l c :
  cond_wf (l ++ [c]) → cond_wf l ∧
  match c with
  | OpCondTrue | OpCondFalse => ∃ n, l = replicate n OpCondTrue
  | OpCondSkip => executing l = false
  end.
Proof.
  intros (n & m & [E|E]).
  - destruct n as [|n]; [by destruct l|]. rewrite <-replicate_snoc in E.
    apply app_inj_2 in E as [-> [= ->]]; [|done]. split; [exists n, 0%nat; by left|by exists n].
  - destruct m as [|m].
    + apply app_inj_2 in E as [-> [= ->]]; [|done]. split; [exists n, 0%nat; by left|by exists n].
    + rewrite <-replicate_snoc, app_comm_cons, (assoc_L (++)) in E.
      apply app_inj_2 in E as [-> [= ->]]; [|done].
      split; [exists n, m; by right|apply executing_false].
Qed.

Lemma cond_wf_true n : cond_wf (replicate n OpCondTrue).
Proof. exists n, 0%nat. by left. Qed.

Lemma cond_wf_push l b :
  cond_wf l → cond_wf (l ++ [if executing l then cond_of b else OpCondSkip]).
Proof.
  intros (n & m & [->| ->]).
  - rewrite executing_replicate. destruct b; cbn.
    + rewrite replicate_snoc. apply cond_wf_true.
    + exists n, 0%nat. by right.
  - rewrite executing_false. exists n, (S m). right. by rewrite <-replicate_snoc, app_comm_cons, (assoc_L (++)).
Qed.

Lemma next_cond_wf h b l l' : cond_wf l → next_cond h b l = Some l' → cond_wf l'.
Proof.
  intros Hl. destruct h; cbn [next_cond]; try (by intros [= <-]).
  - intros [= <-]. by apply cond_wf_push.
  - intros [= <-]. by apply cond_wf_push.
  - destruct l as [|c l _] using rev_ind; [done|]. rewrite last_snoc, removelast_snoc.
    destruct (cond_wf_snoc l c Hl) as [_ Hc]. destruct c; intros [= <-]; [| |done].
    + destruct Hc as [n ->]. rewrite replicate_snoc. apply cond_wf_true.
    + destruct Hc as [n ->]. exists n, 0%nat. by right.
  - destruct l as [|c l _] using rev_ind; [done|]. rewrite removelast_snoc.
    destruct (cond_wf_snoc l c Hl) as [Hw _]. destruct (l ++ [c]) eqn:E; [by destruct l|]. by intros [= <-].
Qed.

(** ** Computations that leave the conditions alone *)

Section keeps.
Context `{HashFns} `{Keys} `{!MapRange bytes sigCacheEntry}.
Abbreviation VM := (ST ScriptErr Engine).

(** The conditions are the same and a leaf's context does not go away. *)
Definition kept (vm v : Engine) : Prop :=
  condStack v = condStack vm ∧ (is_Some (tapscriptCtx vm) → is_Some (tapscriptCtx v)).

Definition keeps {A} (m : VM A) : Prop := ∀ vm a v, m vm = Ok (a, v) → kept vm v.

#[export] Instance kept_preorder : PreOrder kept.
Proof.
  split; [by split|]. intros u v w [E1 H1] [E2 H2]. split; [congruence|auto].
Qed.

Lemma keeps_ret {A} (a : A) : keeps (mret a).
Proof. intros vm ? v [= _ <-]. reflexivity. Qed.

Lemma keeps_fail {A} e : keeps (st_fail (A := A) e).
Proof. done. Qed.

Lemma keeps_lift {A} (r : result ScriptErr A) : keeps (st_lift r).
Proof. intros vm a v. unfold st_lift. destruct r; cbn; [|done..]. intros [= _ <-]. reflexivity. Qed.

Lemma keeps_bind {A B} (m : VM A) (f : A → VM B) : keeps m → (∀ a, keeps (f a)) → keeps (m ≫= f).
Proof.
  intros Hm Hf vm b v. cbv [mbind st_bind]. destruct (m vm) as [[a v1]| |] eqn:E; [|done..].
  intros E2. etransitivity; [by eapply Hm|by eapply Hf].
Qed.

Lemma keeps_get {B} (f : Engine → VM B) : (∀ vm, keeps (f vm)) → keeps (st_get ≫= f).
Proof. intros Hf vm b v E. by apply (Hf vm vm b v). Qed.

Lemma keeps_modify g : (∀ vm, kept vm (g vm)) → keeps (st_modify g).
Proof. intros Hg vm a v [= _ <-]. apply Hg. Qed.

Lemma keeps_dstack {A} (m : Stk A) : keeps (on_dstack m).
Proof.
  intros vm a v. unfold on_dstack. intros ([a' s] & _ & [= _ <-])%bind_ok. done.
Qed.

Lemma keeps_astack {A} (m : Stk A) : keeps (on_astack m).
Proof. intros vm a v. unfold on_astack. intros ([a' s] & _ & [= _ <-])%bind_ok. done. Qed.

Lemma keeps_sigCache {A} (m : ST ScriptErr (option SigCache) A) : keeps (on_sigCache m).
Proof. intros vm a v. unfold on_sigCache. intros ([a' s] & _ & [= _ <-])%bind_ok. done. Qed.

Lemma keeps_tapscriptCtx f : keeps (on_tapscriptCtx f).
Proof.
  apply keeps_get. intros vm. apply keeps_bind; [apply keeps_lift|]. intros t.
  apply keeps_bind; [apply keeps_lift|]. intros t'. apply keeps_modify. intros v. split; [done|]. by eexists.
Qed.

Lemma keeps_pop_chunks n acc : keeps (pop_chunks n acc).
Proof.
  revert acc. induction n as [|n IH]; intros acc; [apply keeps_ret|]. cbn [pop_chunks].
  apply keeps_bind; [apply keeps_dstack|]. auto.
Qed.
End keeps.

Create HintDb keeps discriminated.
#[export] Hint Resolve keeps_ret keeps_fail keeps_lift keeps_dstack keeps_astack keeps_sigCache
  keeps_tapscriptCtx keeps_pop_chunks : keeps.

(** One step into a computation. *)
Ltac keeps_step :=
  lazymatch goal with
  | |- keeps (st_get ≫= _) => apply keeps_get; intros ?
  | |- keeps (_ ≫= _) => apply keeps_bind; [|intros ?]
  | |- keeps (match ?x with _ => _ end) => destruct x
  | |- keeps (let _ := _ in _) => cbv zeta
  | |- keeps (vm_err _) => apply keeps_fail
  | |- keeps (st_modify _) => apply keeps_modify; intros ?
  end.
Ltac keeps_tac := repeat (eauto with keeps; keeps_step); eauto with keeps.

Section handlers.
Context `{HashFns} `{Keys} `{!MapRange bytes sigCacheEntry}.

Lemma keeps_abstractVerify op e : keeps (abstractVerify op e).
Proof. unfold abstractVerify. keeps_tac. Qed.

Lemma keeps_new_verifier pk sg : keeps (new_verifier pk sg).
Proof. unfold new_verifier. keeps_tac. Qed.

Lemma keeps_tapscript_Verify t : keeps (tapscript_Verify t).
Proof. unfold tapscript_Verify. keeps_tac. Qed.

Lemma keeps_opcodeCheckSig op data : keeps (opcodeCheckSig op data).
Proof.
  pose proof keeps_new_verifier. pose proof keeps_tapscript_Verify. unfold opcodeCheckSig. keeps_tac.
Qed.

Lemma keeps_binop f : keeps (binop f).
Proof. unfold binop. keeps_tac. Qed.

Lemma keeps_opcodeEqual op data : keeps (opcodeEqual op data).
Proof. unfold opcodeEqual. keeps_tac. Qed.

Lemma keeps_handler h op data : conditional h = false → keeps (run_handler h op data).
Proof.
  pose proof keeps_abstractVerify. pose proof keeps_opcodeCheckSig. pose proof keeps_binop.
  pose proof keeps_new_verifier. pose proof keeps_tapscript_Verify. pose proof keeps_opcodeEqual.
  destruct h; intros Hh; try done; clear Hh; cbn [run_handler].
  all: try (by apply keeps_fail). all: try apply keeps_dstack.
  all: unfold opcodeFalse, opcodePushData, opcode1Negate, opcodeReserved, opcodeN, opcodeNop,
    opcodeVerify, opcodeReturn, opcodeCheckLockTimeVerify, opcodeCheckSequenceVerify,
    opcodeToAltStack, opcodeFromAltStack, opcode2Drop, opcode2Dup, opcode3Dup, opcode2Over,
    opcode2Rot, opcode2Swap, opcodeIfDup, opcodeDepth, opcodeDrop, opcodeDup, opcodeNip,
    opcodeOver, opcodePick, opcodeRoll, opcodeRot, opcodeSwap, opcodeTuck, opcodeCat,
    opcodeDisabled, opcodeSize, opcodeEqual, opcodeEqualVerify, opcode1Add, opcode1Sub,
    opcodeNegate, opcodeAbs, opcodeNot, opcode0NotEqual, opcodeAdd, opcodeSub, opcodeBoolAnd,
    opcodeBoolOr, opcodeNumEqual, opcodeNumEqualVerify, opcodeNumNotEqual, opcodeLessThan,
    opcodeGreaterThan, opcodeLessThanOrEqual, opcodeGreaterThanOrEqual, opcodeMin, opcodeMax,
    opcodeWithin, opcodeRipemd160, opcodeSha1, opcodeSha256, opcodeHash160, opcodeHash256,
    opcodeCodeSeparator, opcodeCheckSigVerify, opcodeCheckMultiSig, opcodeCheckMultiSigVerify,
    opcodeCheckSigAdd, opcodeCheckXmssSig, opcodeInvalid; keeps_tac.
  all: try (by split).
  lazymatch goal with |- kept ?v _ =>
    split; [by destruct (tapscriptCtx v)|destruct (tapscriptCtx v); intros [? [=]]; eexists; reflexivity] end.
Qed.

(** ** The conditional handlers *)

Lemma popIfBool_ok vm b v :
  readable vm → popIfBool vm = Ok (b, v) →
  ∃ l x, stk (dstack vm) = l ++ [x] ∧ b = asBool x ∧ v = set_dstack (mkStack l true) vm.
Proof.
  intros Hr. unfold popIfBool. rewrite pop_bind by done. intros (l & x & E & Hf).
  exists l, x. split; [done|]. case_match; [done|]. case_match; [done|]. by injection Hf as <- <-.
Qed.

(** A handler changes the conditions as [next_cond] says: the tested item is
    popped if the branch runs, and nothing else is touched. *)
Definition cond_effect (h : handler) (vm v : Engine) : Prop :=
  ∃ b, next_cond h b (condStack vm) = Some (condStack v) ∧
    if executing (condStack vm) && tests_item h
    then ∃ l x, stk (dstack vm) = l ++ [x] ∧ b = asBool x ∧ dstack v = mkStack l true ∧ astack v = astack vm
    else dstack v = dstack vm ∧ astack v = astack vm.

Lemma executing_branch vm : cond_wf (condStack vm) → isBranchExecuting vm = executing (condStack vm).
Proof. intros Hw. rewrite executing_last by done. unfold isBranchExecuting. by repeat case_match. Qed.

Lemma go_slice_but_last {E A} (l : list A) x : go_slice (E := E) (l ++ [x]) 0 (zlen (l ++ [x]) - 1) = Ok l.
Proof. apply go_slice_prefix. rewrite zlen_snoc. lia. Qed.

Lemma conditional_effect h op data vm v :
  readable vm → cond_wf (condStack vm) → conditional h = true →
  run_handler h op data vm = Ok ((), v) → cond_effect h vm v ∧ tapscriptCtx v = tapscriptCtx vm.
Proof.
  intros Hr Hw Hh E. pose proof (executing_branch vm Hw) as Hb. unfold cond_effect.
  destruct h; try done; clear Hh; cbn [run_handler] in E; cbn [next_cond].
  - unfold opcodeIf in E. cbv [mbind st_bind st_get] in E. rewrite Hb in E. destruct (executing (condStack vm)) eqn:Ee.
    + destruct (popIfBool vm) as [[b v1]| |] eqn:Ep; [|done..]. apply popIfBool_ok in Ep as (l & x & Es & -> & ->); [|done].
      injection E as <-. split; [|done]. exists (asBool x). split; [by destruct (asBool x)|]. by exists l, x.
    + injection E as <-. split; [|done]. by exists true.
  - unfold opcodeNotIf in E. cbv [mbind st_bind st_get] in E. rewrite Hb in E. destruct (executing (condStack vm)) eqn:Ee.
    + destruct (popIfBool vm) as [[b v1]| |] eqn:Ep; [|done..]. apply popIfBool_ok in Ep as (l & x & Es & -> & ->); [|done].
      injection E as <-. split; [|done]. exists (asBool x). split; [by destruct (asBool x)|]. by exists l, x.
    + injection E as <-. split; [|done]. by exists true.
  - rewrite andb_false_r. unfold opcodeElse in E. cbv [mbind st_bind st_get] in E.
    remember (condStack vm) as cs eqn:Ec. destruct cs as [|c l _] using rev_ind; [done|]. rewrite zlen_snoc in E.
    pose proof (zlen_nonneg l). rewrite (proj2 (Z.eqb_neq _ _)) in E by lia.
    unfold st_lift in E. rewrite go_index_mid in E by (cbn; lia). cbn [mbind result_bind] in E.
    rewrite last_snoc, removelast_snoc.
    replace (Z.to_nat (zlen l + 1 - 1)) with (length l + 0)%nat in E by (unfold zlen; lia).
    rewrite !insert_app_r in E. cbn in E. destruct c; injection E as <-; (split; [|done]);
      exists true; rewrite <-?Ec; (split; [reflexivity|split; reflexivity]).
  - rewrite andb_false_r. unfold opcodeEndif in E. cbv [mbind st_bind st_get] in E.
    destruct (condStack vm) as [|c l _] using rev_ind; [done|].
    rewrite (proj2 (Z.eqb_neq (zlen (l ++ [c])) 0)) in E
      by (rewrite zlen_snoc; pose proof (zlen_nonneg l); lia).
    unfold st_lift in E. rewrite go_slice_but_last in E. injection E as <-. split; [|done].
    exists true. rewrite removelast_snoc. cbn. split; [|done]. by destruct (l ++ [c]) eqn:El; [destruct l|].
Qed.

(** ** One opcode of a script *)

(** What an opcode does to the conditions and, where no branch runs, to the
    stacks. *)
Definition cond_step (h : handler) (vm v : Engine) : Prop :=
  ∃ b, next_cond h b (condStack vm) = Some (condStack v) ∧
    (executing (condStack vm) = true → tests_item h = true →
     ∃ l x, stk (dstack vm) = l ++ [x] ∧ b = asBool x ∧ stk (dstack v) = l) ∧
    (executing (condStack vm) = false → dstack v = dstack vm ∧ astack v = astack vm).

Lemma opcode_conditional b :
  isOpcodeConditional (value (opcode_at b)) = conditional (opfunc (opcode_at b)).
Proof. by destruct b. Qed.

Lemma next_cond_plain h b l : conditional h = false → next_cond h b l = Some l.
Proof. by destruct h. Qed.

Lemma executeOpcode_ok op data vm v :
  executeOpcode op data vm = Ok ((), v) →
  ∃ n, let vm1 := set_numOps n vm in
    if negb (isBranchExecuting vm) && negb (isOpcodeConditional (value op)) then v = vm1
    else run_handler (opfunc op) op data vm1 = Ok ((), v).
Proof.
  assert (∀ n (c m : bool) (u : Engine), (if c then mret () else
    (if m then st_lift (checkMinimalDataPush op data) else mret ()) ;; run_handler (opfunc op) op data) u = Ok ((), v) →
    u = set_numOps n vm → if c then v = set_numOps n vm else run_handler (opfunc op) op data (set_numOps n vm) = Ok ((), v)) as Hrest.
  { intros n c m u E ->. destruct c; [by injection E as <-|]. destruct m; [|exact E].
    cbv [mbind st_bind] in E. unfold st_lift in E. by destruct (checkMinimalDataPush op data) as [[]| |]. }
  unfold executeOpcode. case_match; [done|]. case_match; [done|].
  cbv [mbind st_bind st_get]. destruct (bool_decide _).
  - destruct (MaxOpsPerScript <? numOps vm + 1); [done|]. intros E. exists (numOps vm + 1).
    by eapply Hrest in E.
  - destruct (MaxScriptElementSize <? zlen data); [done|]. intros E. exists (numOps vm).
    eapply Hrest in E; [exact E|]. by destruct vm.
Qed.

Lemma executeOpcode_cond b data vm v :
  readable vm → cond_wf (condStack vm) →
  executeOpcode (opcode_at b) data vm = Ok ((), v) →
  cond_step (opfunc (opcode_at b)) vm v ∧ (is_Some (tapscriptCtx vm) → is_Some (tapscriptCtx v)).
Proof.
  intros Hr Hw E. apply executeOpcode_ok in E as [n E]. cbv zeta in E.
  rewrite opcode_conditional, (executing_branch vm Hw) in E. set (h := opfunc (opcode_at b)) in *.
  unfold cond_step. destruct (conditional h) eqn:Hh.
  - rewrite andb_false_r in E. apply conditional_effect in E as [(c & En & Es) Ex]; [|done..].
    cbn [condStack dstack astack tapscriptCtx set_numOps] in *. split; [|by rewrite Ex].
    exists c. split; [done|]. split; intros He; rewrite He in Es; [|done].
    intros Ht. rewrite Ht in Es. destruct Es as (l & x & Es & Eb & -> & _). by exists l, x.
  - assert (tests_item h = false) as Ht by (by destruct h).
    setoid_rewrite (next_cond_plain h _ _ Hh). destruct (executing (condStack vm)) eqn:He; cbn in E.
    + destruct (keeps_handler h _ _ Hh _ _ _ E) as [Ec Ex]. cbn in Ec, Ex. split; [|exact Ex].
      exists true. rewrite Ec, Ht. done.
    + subst v. split; [|done]. by exists true.
Qed.

(** ** Steps *)

Lemma Next_opcode t t' : Next t = Ok (true, t') → ∃ b, t_op t' = Some (opcode_at b).
Proof.
  unfold Next. destruct (Done t); [done|]. intros (b & _ & E)%bind_ok. exists b.
  repeat first
    [ discriminate E
    | case_match; try done
    | apply bind_ok in E as (? & _ & E)
    | injection E as <-; reflexivity ].
Qed.

Lemma keeps_SetStack data : keeps (SetStack data).
Proof. apply keeps_dstack. Qed.

Lemma keeps_setup stack size annex leaf lv : keeps (setupScriptPathSpend stack size annex leaf lv).
Proof.
  pose proof keeps_SetStack. unfold setupScriptPathSpend, enforceTapscriptStackLimits. keeps_tac.
  - split; [done|]. intros _. eexists. reflexivity.
  - by split.
Qed.

Lemma keeps_check_witness : keeps check_witness.
Proof.
  pose proof keeps_setup. pose proof keeps_SetStack.
  unfold check_witness, verifyWitnessProgram, verifyTaprootSpend, verifyMerkleRootSpend, verifyTaprootKeyPath.
  keeps_tac.
Qed.

Lemma keeps_finish_script : keeps finish_script.
Proof.
  pose proof keeps_check_witness. unfold finish_script, next_script, enter_script. keeps_tac.
  all: by split.
Qed.

Lemma keeps_after_opcode : keeps after_opcode.
Proof. pose proof keeps_finish_script. unfold after_opcode. keeps_tac. by split. Qed.

(** A step is an opcode and what follows it. *)
Lemma Step_ok vm done v :
  Step vm = Ok (done, v) →
  ∃ b t' v1, Next (tokenizer vm) = Ok (true, t') ∧ t_op t' = Some (opcode_at b) ∧
    executeOpcode (opcode_at b) (Data t') (set_tokenizer t' vm) = Ok ((), v1) ∧
    after_opcode v1 = Ok (done, v).
Proof.
  unfold Step, checkValidPC, vm_Next. cbv [mbind st_bind st_get].
  destruct (zlen (scripts vm) <=? scriptIdx vm); [done|]. cbv [mret st_ret].
  destruct (Next (tokenizer vm)) as [[[] t']| |] eqn:En; cbn [result_bind negb]; [| |done..].
  - destruct (Next_opcode _ _ En) as [b Eb]. change (tokenizer (set_tokenizer t' vm)) with t'.
    rewrite Eb. unfold st_lift. cbn [deref mbind result_bind].
    destruct (executeOpcode (opcode_at b) (Data t') _) as [[[] v1]| |] eqn:Ex; [|done..].
    intros Ea. by exists b, t', v1.
  - destruct (Err _); [done|]. unfold st_lift. by destruct (go_index _ _).
Qed.

Lemma Step_cond vm done v :
  readable vm → cond_wf (condStack vm) → Step vm = Ok (done, v) →
  cond_wf (condStack v) ∧ (is_Some (tapscriptCtx vm) → is_Some (tapscriptCtx v)).
Proof.
  intros Hr Hw (b & t' & v1 & _ & _ & Ex & Ea)%Step_ok.
  apply executeOpcode_cond in Ex as [(c & En & _) Ht]; [|done..].
  apply keeps_after_opcode in Ea as [Ec Ht']. split; [|auto]. rewrite Ec.
  by eapply next_cond_wf in En.
Qed.

Lemma common_readable k vm : small k → common k vm → readable vm.
Proof. intros Hk Hc. apply (stacks_le_ok k); [done|apply Hc]. Qed.

Lemma reach_cond vm0 n v :
  running n vm0 → cache_sound (sigCache vm0) → cond_wf (condStack vm0) → reach vm0 v → cond_wf (condStack v).
Proof.
  intros Hr Hs Hw Hv. induction Hv as [|v b v' Hv IH E]; [done|].
  eapply Step_cond; [|exact IH|exact E].
  eapply (common_readable MaxStackSize); [done|]. by eapply reach_common.
Qed.

Lemma NewEngine_cond spk t idx fl c sh amt f vm :
  NewEngine spk t idx fl c sh amt f = Ok vm → condStack vm = [].
Proof.
  unfold NewEngine. case_match; [done|]. intros (ti & _ & E)%bind_ok. cbv zeta in E. case_match; [done|].
  apply bind_ok in E as (po & _ & E). case_match; [done|].
  apply bind_ok in E as ([] & _ & E). apply bind_ok in E as (w & _ & E).
  apply bind_ok in E as ([v p] & _ & E). apply bind_ok in E as (s & _ & E). by injection E as <-.
Qed.
End handlers.

(** ** Properties *)

(** C30 conditional execution: in every state an execution reaches, the
    conditions are some that hold, then perhaps one that does not with skipped
    ones inside it, so that opcodes run exactly when every condition around
    them holds; and every opcode of a script changes the conditions as
    [next_cond] defines, testing and popping the top item for an OP_IF or
    OP_NOTIF that runs, and leaves both stacks alone where no branch runs. *)
Theorem conditional_execution `{HashFns} `{Keys} `{!MapRange bytes sigCacheEntry}
    spk t idx flags c sh amt f vm0 vm :
  NewEngine spk t idx flags c sh amt f = Ok vm0 → spend_ok t idx f → cache_sound c → reach vm0 vm →
  cond_wf (condStack vm) ∧
  (isBranchExecuting vm = true ↔ Forall (λ c, c = OpCondTrue) (condStack vm)) ∧
  ∀ b data vm', executeOpcode (opcode_at b) data vm = Ok ((), vm') →
    cond_step (opfunc (opcode_at b)) vm vm' ∧ cond_wf (condStack vm').
Proof.
  intros E [Htx Hf] Hc Hv. destruct (NewEngine_running _ _ _ _ _ _ _ _ _ E Htx Hf) as [[n Hr] Hs].
  rewrite <-Hs in Hc. assert (cond_wf (condStack vm0)) as Hw0 by (rewrite (NewEngine_cond _ _ _ _ _ _ _ _ _ E); apply (cond_wf_true 0)).
  pose proof (reach_cond vm0 n vm Hr Hc Hw0 Hv) as Hw. split; [done|]. split.
  - rewrite executing_branch by done. unfold executing. rewrite forallb_forall, Forall_forall.
    setoid_rewrite list_elem_of_In. by setoid_rewrite bool_decide_eq_true.
  - intros b data vm' Ex. apply executeOpcode_cond in Ex as [Hstep _]; [| |done].
    + split; [done|]. destruct Hstep as (b' & En & _). by eapply next_cond_wf in En.
    + eapply (common_readable MaxStackSize); [done|]. by eapply reach_common.
Qed.

Lemma conditional_execution_witness : cond_wf (condStack demo_vm).
Proof.
  exact (proj1 (conditional_execution demo_spk demo_spend 0 0 None demo_hashes 5000 demo_prevOuts demo_vm
    demo_vm demo_vm_ok demo_spend_ok I (reach_start _))).
Defined.
