(* ===== verification/Work.v ===== *)
(** * Targets and work (blockchain/internal/workmath)

    The compact form of difficulty targets, the work a target stands for, and
    hashes as numbers.  A [big.Int] is a [Z]: [Rsh] floors, [Div] is the
    Euclidean division, [Bytes] and [Bits] give the absolute value. *)
From Stdlib Require Import Lia ZArith.
From S2P Require Import Prelude.

(** ** Definitions *)

(** [big.Int.Div]: Euclidean, the divisor zero panics. *)
Definition big_div (x y : Z) : result Empty_set Z :=
  if y =? 0 then Panic
  else Ok (if 0 <? y then x / y else - (x / - y)).

(** [int64] division truncates, zero panics. *)
Definition i64_div (x y : Z) : result Empty_set Z :=
  if y =? 0 then Panic else Ok (i64 (Z.quot x y)).

(** [for i := 0; i < blen/2; i++ { buf[i], buf[blen-1-i] = buf[blen-1-i], buf[i] }] *)
Fixpoint swap_loop (n : nat) (i blen : nat) (buf : bytes) : bytes :=
  match n with
  | O => buf
  | S n =>
      let buf :=
        match buf !! i, buf !! (blen - 1 - i)%nat with
        | Some x, Some y => <[(blen - 1 - i)%nat := x]> (<[i := y]> buf)
        | _, _ => buf
        end in
      swap_loop n (S i) blen buf
  end.

(** [big.Int.SetBytes]: big-endian. *)
Definition SetBytes (bs : bytes) : Z := foldl (λ z b, z * 256 + b2z b) 0 bs.

Definition HashToBig (hash : bytes) : Z :=
  let blen := length hash in
  SetBytes (swap_loop (blen / 2) 0 blen hash).

Definition CompactToBig (compact : Z) : Z :=
  let mantissa := Z.land compact 0x007fffff in
  let isNegative := negb (Z.land compact 0x00800000 =? 0) in
  let exponent := Z.shiftr compact 24 in
  let bn := if exponent <=? 3
            then Z.shiftr mantissa (8 * (3 - exponent))
            else Z.shiftl mantissa (8 * (exponent - 3)) in
  if isNegative then - bn else bn.

(** [len(n.Bytes())] *)
Definition byte_len (n : Z) : Z := if n =? 0 then 0 else Z.log2 (Z.abs n) / 8 + 1.

(** [uint32(n.Bits()[0])], for a non-zero [n] *)
Definition low_word (n : Z) : Z := u32 (Z.abs n).

Definition BigToCompact (n : Z) : Z :=
  if n =? 0 then 0
  else
    let exponent := byte_len n in
    let mantissa :=
      if exponent <=? 3
      then u32 (Z.shiftl (low_word n) (8 * (3 - exponent)))
      else low_word (Z.shiftr n (8 * (exponent - 3))) in
    let '(mantissa, exponent) :=
      if negb (Z.land mantissa 0x00800000 =? 0)
      then (Z.shiftr mantissa 8, exponent + 1)
      else (mantissa, exponent) in
    let compact := Z.lor (u32 (Z.shiftl exponent 24)) mantissa in
    if n <? 0 then Z.lor compact 0x00800000 else compact.

Definition oneLsh256 : Z := Z.shiftl 1 256.

Definition CalcWork (bits : Z) : Z :=
  let difficultyNum := CompactToBig bits in
  if Z.sgn difficultyNum <=? 0 then 0
  else oneLsh256 / (difficultyNum + 1).

(** ** Hashes as numbers *)

Lemma swap_loop_lookup n i blen buf k :
  length buf = blen → (2 * (i + n) <= blen)%nat →
  swap_loop n i blen buf !! k =
    (if decide ((i <= k < i + n) ∨ (i <= blen - 1 - k < i + n ∧ k < blen))%nat
     then buf !! (blen - 1 - k)%nat else buf !! k).
Proof.
  revert i buf k. induction n as [|n IH]; intros i buf k Hlen Hn; cbn [swap_loop].
  - rewrite decide_False by lia. done.
  - destruct (lookup_lt_is_Some_2 buf i) as [x Hx]; [lia|].
    destruct (lookup_lt_is_Some_2 buf (blen - 1 - i)) as [y Hy]; [lia|].
    rewrite Hx, Hy. rewrite IH by (rewrite ?length_insert; lia).
    set (j := (blen - 1 - i)%nat) in *.
    assert (Hj : (j = blen - 1 - i)%nat) by done. clearbody j.
    destruct (decide (k = i)) as [->|Hki]; [|destruct (decide (k = j)) as [->|Hkj]].
    + rewrite decide_False by lia. rewrite decide_True by lia.
      rewrite list_lookup_insert_ne by lia. rewrite list_lookup_insert_eq by lia. by rewrite <-Hj.
    + rewrite decide_False by lia. rewrite decide_True by lia.
      rewrite list_lookup_insert_eq by (rewrite length_insert; lia).
      rewrite <-Hx. f_equal. lia.
    + destruct (decide _) as [Hin|Hout].
      * rewrite decide_True by lia. rewrite !list_lookup_insert_ne by lia. done.
      * rewrite decide_False by lia. rewrite !list_lookup_insert_ne by lia. done.
Qed.

Lemma swap_loop_reverse buf : swap_loop (length buf / 2) 0 (length buf) buf = reverse buf.
Proof.
  apply list_eq. intros k.
  pose proof (Nat.div_mod_eq (length buf) 2). pose proof (Nat.mod_upper_bound (length buf) 2).
  rewrite swap_loop_lookup by lia.
  destruct (decide (k < length buf)%nat) as [Hk|Hk].
  - rewrite reverse_lookup by done.
    destruct (decide _); f_equal; lia.
  - rewrite decide_False by lia.
    rewrite !lookup_ge_None_2 by (rewrite ?length_reverse; lia). done.
Qed.

Lemma SetBytes_reverse bs : SetBytes (reverse bs) = le_get bs.
Proof.
  unfold SetBytes. induction bs as [|b bs IH]; [done|].
  rewrite reverse_cons, foldl_app. cbn [foldl le_get]. rewrite IH. lia.
Qed.

(** A hash is a little-endian number. *)
Lemma HashToBig_le hash : HashToBig hash = le_get hash.
Proof. unfold HashToBig. by rewrite swap_loop_reverse, SetBytes_reverse. Qed.

(** ** The compact form *)

Lemma land_pow2 x k : 0 <= k → Z.land x (2 ^ k) = if Z.testbit x k then 2 ^ k else 0.
Proof.
  intros Hk. apply Z.bits_inj'. intros i Hi. rewrite Z.land_spec, Z.pow2_bits_eqb by done.
  destruct (Z.eqb_spec k i) as [->|Hne].
  - rewrite andb_true_r. destruct (Z.testbit x i) eqn:E; [by rewrite Z.pow2_bits_true|by rewrite Z.bits_0].
  - rewrite andb_false_r. destruct (Z.testbit x k); [by rewrite Z.pow2_bits_false by lia|by rewrite Z.bits_0].
Qed.

Lemma land_sign_bit x : negb (Z.land x 0x00800000 =? 0) = Z.odd (x / 2 ^ 23).
Proof.
  change 0x00800000 with (2 ^ 23). rewrite land_pow2 by done.
  rewrite Z.testbit_odd, Z.shiftr_div_pow2 by done. by destruct (Z.odd _).
Qed.

Lemma land_mantissa x : Z.land x 0x007fffff = x mod 2 ^ 23.
Proof. change 0x007fffff with (Z.ones 23). by apply Z.land_ones. Qed.

(** A mantissa at the place its exponent says. *)
Definition scaled (e m : Z) : Z := if e <=? 3 then m / 256 ^ (3 - e) else m * 256 ^ (e - 3).

Lemma pow256_shift k : 0 <= k → 2 ^ (8 * k) = 256 ^ k.
Proof. intros. by rewrite Z.pow_mul_r. Qed.

Lemma CompactToBig_pack (e m : Z) (s : bool) :
  0 <= e → 0 <= m < 2 ^ 23 →
  CompactToBig (e * 2 ^ 24 + Z.b2z s * 2 ^ 23 + m) = (if s then - scaled e m else scaled e m).
Proof.
  intros He Hm. unfold CompactToBig. rewrite land_sign_bit, land_mantissa, Z.shiftr_div_pow2 by done.
  assert (Hs : 0 <= Z.b2z s <= 1) by (destruct s; cbn; lia).
  replace ((_ + m) / 2 ^ 24) with e
    by (apply (Z.div_unique_pos _ _ _ (Z.b2z s * 2 ^ 23 + m)); lia).
  replace ((_ + m) / 2 ^ 23) with (e * 2 + Z.b2z s)
    by (apply (Z.div_unique_pos _ _ _ m); lia).
  replace ((_ + m) mod 2 ^ 23) with m
    by (apply (Z.mod_unique_pos _ _ (e * 2 + Z.b2z s)); lia).
  replace (Z.odd (e * 2 + Z.b2z s)) with s
    by (rewrite Z.odd_add, Z.odd_mul, andb_false_r; by destruct s).
  unfold scaled. destruct (Z.leb_spec e 3).
  - by rewrite Z.shiftr_div_pow2, pow256_shift by lia.
  - by rewrite Z.shiftl_mul_pow2, pow256_shift by lia.
Qed.

(** Every 32-bit number is an exponent, a sign and a mantissa. *)
Lemma compact_unpack c :
  is_u32 c → ∃ e s m, 0 <= e < 256 ∧ 0 <= m < 2 ^ 23 ∧ c = e * 2 ^ 24 + Z.b2z s * 2 ^ 23 + m.
Proof.
  intros Hc. unfold is_u32 in Hc.
  exists (c / 2 ^ 24), (Z.odd (c / 2 ^ 23)), (c mod 2 ^ 23).
  assert (E : Z.b2z (Z.odd (c / 2 ^ 23)) = (c / 2 ^ 23) mod 2) by (by rewrite Zmod_odd; destruct (Z.odd _)).
  rewrite E. change (2 ^ 24) with (2 ^ 23 * 2). rewrite <-Z.div_div by lia.
  pose proof (Z.div_mod c (2 ^ 23) ltac:(lia)). pose proof (Z.mod_pos_bound c (2 ^ 23) ltac:(lia)).
  pose proof (Z.div_mod (c / 2 ^ 23) 2 ltac:(lia)). pose proof (Z.mod_pos_bound (c / 2 ^ 23) 2 ltac:(lia)).
  lia.
Qed.

(** The length in bytes. *)
Lemma byte_len_spec n :
  0 < n → ∃ k, byte_len n = Z.of_nat (S k) ∧ 256 ^ Z.of_nat k <= n < 256 ^ Z.of_nat (S k).
Proof.
  intros Hn. unfold byte_len. rewrite (proj2 (Z.eqb_neq _ _)), Z.abs_eq by lia.
  pose proof (Z.log2_spec n Hn) as Hl. pose proof (Z.log2_nonneg n).
  pose proof (Z.div_mod (Z.log2 n) 8 ltac:(lia)). pose proof (Z.mod_pos_bound (Z.log2 n) 8 ltac:(lia)).
  assert (0 <= Z.log2 n / 8) by (apply Z.div_pos; lia).
  exists (Z.to_nat (Z.log2 n / 8)). rewrite Nat2Z.inj_succ, Z2Nat.id by lia.
  rewrite <-!pow256_shift by lia.
  split; [lia|]. split.
  - etrans; [|apply Hl]. apply Z.pow_le_mono_r; lia.
  - eapply Z.lt_le_trans; [apply Hl|]. apply Z.pow_le_mono_r; lia.
Qed.

Lemma div_pow_small n j b : 0 <= j → 0 <= n < b * 256 ^ j → 0 <= n / 256 ^ j < b.
Proof.
  intros Hj Hn. assert (0 < 256 ^ j) by (apply Z.pow_pos_nonneg; lia).
  split; [apply Z.div_pos; lia|apply Z.div_lt_upper_bound; lia].
Qed.

Lemma lor_add x m k : 0 <= k → 0 <= m < 2 ^ k → Z.lor (x * 2 ^ k) m = x * 2 ^ k + m.
Proof.
  intros Hk Hm. rewrite <-Z.add_lor_land, (Z.land_comm _ m).
  replace (Z.land m (x * 2 ^ k)) with 0; [lia|].
  symmetry. apply Z.bits_inj'. intros i Hi. rewrite Z.land_spec, Z.bits_0.
  destruct (Z.lt_ge_cases i k).
  - by rewrite Z.mul_pow2_bits_low, andb_false_r.
  - rewrite <-(Z.mod_small m (2 ^ k)), Z.mod_pow2_bits_high by lia. done.
Qed.

(** The mantissa of a positive number of [k + 1] bytes, before its sign bit is
    looked at. *)
Definition raw_mantissa (n exponent : Z) : Z :=
  if exponent <=? 3
  then u32 (Z.shiftl (low_word n) (8 * (3 - exponent)))
  else low_word (Z.shiftr n (8 * (exponent - 3))).

Lemma raw_mantissa_form n k :
  256 ^ Z.of_nat k <= n < 256 ^ Z.of_nat (S k) →
  let mant := raw_mantissa n (Z.of_nat (S k)) in
  2 ^ 16 <= mant < 2 ^ 24 ∧
    (Z.of_nat (S k) <= 3 ∧ mant = n * 256 ^ (3 - Z.of_nat (S k)) ∨
     3 < Z.of_nat (S k) ∧ mant = n / 256 ^ (Z.of_nat (S k) - 3)).
Proof.
  intros Hk. assert (0 < n) by (pose proof (pow256_pos k); lia).
  unfold raw_mantissa, low_word. cbn zeta. destruct (Z.leb_spec (Z.of_nat (S k)) 3) as [Hle|Hgt].
  - rewrite Z.abs_eq, Z.shiftl_mul_pow2, pow256_shift by lia.
    assert (HE : 2 ^ 16 <= n * 256 ^ (3 - Z.of_nat (S k)) < 2 ^ 24).
    { assert (E1 : 256 ^ Z.of_nat k * 256 ^ (3 - Z.of_nat (S k)) = 256 ^ 2)
        by (rewrite <-Z.pow_add_r by lia; f_equal; lia).
      assert (E2 : 256 ^ Z.of_nat (S k) * 256 ^ (3 - Z.of_nat (S k)) = 256 ^ 3)
        by (rewrite <-Z.pow_add_r by lia; f_equal; lia).
      change (2 ^ 16) with (256 ^ 2). change (2 ^ 24) with (256 ^ 3). rewrite <-E1, <-E2.
      assert (0 < 256 ^ (3 - Z.of_nat (S k))) by (apply Z.pow_pos_nonneg; lia).
      split; [apply Z.mul_le_mono_nonneg_r|apply Z.mul_lt_mono_pos_r]; lia. }
    assert (256 ^ Z.of_nat (S k) <= 256 ^ 3) by (apply Z.pow_le_mono_r; lia).
    rewrite (u32_small n) by lia.
    rewrite u32_small by lia. split; [done|by left].
  - rewrite Z.shiftr_div_pow2, pow256_shift by lia.
    assert (HE : 2 ^ 16 <= n / 256 ^ (Z.of_nat (S k) - 3) < 2 ^ 24).
    { change (2 ^ 16) with (256 ^ 2). change (2 ^ 24) with (256 ^ 3).
      assert (0 < 256 ^ (Z.of_nat (S k) - 3)) by (apply Z.pow_pos_nonneg; lia). split.
      - apply Z.div_le_lower_bound; [done|]. rewrite <-Z.pow_add_r by lia.
        replace (_ + 2) with (Z.of_nat k) by lia. lia.
      - apply Z.div_lt_upper_bound; [done|]. rewrite <-Z.pow_add_r by lia.
        replace (_ + 3) with (Z.of_nat (S k)) by lia. lia. }
    rewrite Z.abs_eq, u32_small by lia. split; [done|right; auto].
Qed.

(** The compact form of a positive number: a normalized mantissa and its
    exponent.  2^2039 is the bound under which the exponent fits its byte. *)
Lemma BigToCompact_form n :
  0 < n < 2 ^ 2039 →
  ∃ e m, BigToCompact n = e * 2 ^ 24 + m ∧ 0 < e < 256 ∧ 2 ^ 15 <= m < 2 ^ 23 ∧
    (e <= 3 ∧ m = n * 256 ^ (3 - e) ∨ 3 < e ∧ m = n / 256 ^ (e - 3)).
Proof.
  intros Hn. destruct (byte_len_spec n ltac:(lia)) as (k & Hlen & Hk).
  unfold BigToCompact. rewrite (proj2 (Z.eqb_neq n 0)), (proj2 (Z.ltb_ge n 0)), Hlen by lia.
  (* the mantissa before the sign bit is cleared *)
  fold (raw_mantissa n (Z.of_nat (S k))).
  pose proof (raw_mantissa_form n k Hk) as Hm. cbn zeta in Hm.
  set (mant := raw_mantissa n (Z.of_nat (S k))) in *.
  clearbody mant. destruct Hm as [Hm Hval].
  rewrite land_sign_bit.
  assert (Hodd : Z.odd (mant / 2 ^ 23) = (2 ^ 23 <=? mant)).
  { destruct (Z.leb_spec (2 ^ 23) mant).
    - by replace (mant / 2 ^ 23) with 1 by (apply (Z.div_unique_pos _ _ _ (mant - 2 ^ 23)); lia).
    - by rewrite Z.div_small by lia. }
  assert (Hbig : 2 ^ 23 <= mant → Z.of_nat (S k) + 1 < 256).
  { intros Hb. destruct Hval as [[? _]|[Hgt Em]]; [lia|].
    destruct (Z.lt_ge_cases (Z.of_nat (S k)) 255); [lia|exfalso].
    assert (H255 : 256 ^ 252 <= 256 ^ (Z.of_nat (S k) - 3)) by (apply Z.pow_le_mono_r; lia).
    pose proof (Z.mul_div_le n (256 ^ (Z.of_nat (S k) - 3)) ltac:(lia)) as Hd.
    rewrite <-Em in Hd. assert (HH : 256 ^ 252 * 2 ^ 23 = 2 ^ 2039) by done.
    clear -Hd Hb H255 HH Hn. nia. }
  assert (Hk256 : Z.of_nat (S k) < 256).
  { destruct (Z.lt_ge_cases (Z.of_nat (S k)) 256); [done|exfalso].
    assert (256 ^ 255 <= 256 ^ Z.of_nat k) by (apply Z.pow_le_mono_r; lia).
    assert (2 ^ 2039 < 256 ^ 255) by done. lia. }
  rewrite Hodd. destruct (Z.leb_spec (2 ^ 23) mant) as [Hb|Hb].
  - exists (Z.of_nat (S k) + 1), (mant / 256). specialize (Hbig Hb).
    assert (Hm' : 2 ^ 15 <= mant / 256 < 2 ^ 23).
    { split; [apply Z.div_le_lower_bound; lia|apply Z.div_lt_upper_bound; lia]. }
    rewrite Z.shiftr_div_pow2 by done. change (2 ^ 8) with 256.
    rewrite Z.shiftl_mul_pow2, u32_small, lor_add by lia.
    split_and!; [done|lia|lia|lia|lia|].
    destruct Hval as [[Hle ->]|[Hgt ->]].
    + destruct k as [|[|[|]]]; [| | |lia].
      * left. split; [done|]. change (256 ^ (3 - Z.of_nat 1)) with (256 * 256).
        rewrite Z.mul_assoc, Z.div_mul by lia. done.
      * left. split; [done|]. change (256 ^ (3 - Z.of_nat 2)) with 256.
        rewrite Z.div_mul by lia. change (256 ^ (3 - (Z.of_nat 2 + 1))) with 1. lia.
      * right. split; [done|]. change (256 ^ (3 - Z.of_nat 3)) with 1. by rewrite Z.mul_1_r.
    + right. split; [lia|]. rewrite Z.div_div by (try lia; apply Z.pow_pos_nonneg; lia).
      f_equal. replace (Z.of_nat (S k) + 1 - 3) with (Z.of_nat (S k) - 3 + 1) by lia.
      rewrite Z.pow_add_r by lia. done.
  - exists (Z.of_nat (S k)), mant. rewrite Z.shiftl_mul_pow2, u32_small, lor_add by lia.
    split_and!; [done|lia|lia|lia|lia|done].
Qed.

Lemma BigToCompact_u32 n : 0 <= n < 2 ^ 2039 → is_u32 (BigToCompact n).
Proof.
  intros Hn. destruct (Z.eq_dec n 0) as [->|]; [done|].
  destruct (BigToCompact_form n ltac:(lia)) as (e & m & -> & He & Hm & _). unfold is_u32. lia.
Qed.

Lemma CompactToBig_normal e m : 0 <= e → 0 <= m < 2 ^ 23 → CompactToBig (e * 2 ^ 24 + m) = scaled e m.
Proof. intros. rewrite <-(CompactToBig_pack e m false) by done. f_equal. cbn. lia. Qed.

(** What the compact form of [n] stands for. *)
Lemma compact_value n :
  0 < n < 2 ^ 2039 →
  ∃ j, 0 <= j ∧ CompactToBig (BigToCompact n) = n / 256 ^ j * 256 ^ j ∧
       (j = 0 ∨ 2 ^ 15 <= n / 256 ^ j) ∧ n / 256 ^ j < 2 ^ 23.
Proof.
  intros Hn. destruct (BigToCompact_form n Hn) as (e & m & -> & He & Hm & [[Hle ->]|[Hgt ->]]).
  - exists 0. rewrite CompactToBig_normal by lia. unfold scaled. rewrite (proj2 (Z.leb_le _ _)) by done.
    rewrite Z.div_mul by (assert (0 < 256 ^ (3 - e)) by (apply Z.pow_pos_nonneg; lia); lia).
    rewrite Z.pow_0_r, Z.div_1_r, Z.mul_1_r. split_and!; [done|done|by left|].
    assert (0 < 256 ^ (3 - e)) by (apply Z.pow_pos_nonneg; lia). nia.
  - exists (e - 3). rewrite CompactToBig_normal by lia. unfold scaled. rewrite (proj2 (Z.leb_gt _ _)) by done.
    split_and!; [lia|done|right; lia|lia].
Qed.

(** A value the compact form can stand for is a scaled mantissa. *)
Lemma compact_scaled c :
  is_u32 c → CompactToBig c <= 0 ∨
  ∃ m j, 0 <= j ∧ 0 <= m < 2 ^ 23 ∧ CompactToBig c = m * 256 ^ j.
Proof.
  intros (e & s & m & He & Hm & ->)%compact_unpack. rewrite CompactToBig_pack by lia.
  assert (Hs : ∃ m' j, 0 <= j ∧ 0 <= m' < 2 ^ 23 ∧ scaled e m = m' * 256 ^ j).
  { unfold scaled. destruct (Z.leb_spec e 3).
    - exists (m / 256 ^ (3 - e)), 0. assert (0 < 256 ^ (3 - e)) by (apply Z.pow_pos_nonneg; lia).
      rewrite Z.pow_0_r, Z.mul_1_r. split_and!; [done|apply Z.div_pos; lia| |done].
      eapply Z.le_lt_trans; [|apply Hm]. apply Z.div_le_upper_bound; nia.
    - exists m, (e - 3). split_and!; [lia|lia|lia|done]. }
  destruct Hs as (m' & j & Hj & Hm' & E). rewrite E.
  destruct s; [left|right; eauto].
  assert (0 < 256 ^ j) by (apply Z.pow_pos_nonneg; lia). nia.
Qed.

(** Rounding down to a multiple keeps every smaller multiple. *)
Lemma floor_multiple n j m i :
  0 <= i → 0 <= j → 0 <= m < 2 ^ 23 → m * 256 ^ i <= n → 0 < n →
  j = 0 ∨ 2 ^ 15 <= n / 256 ^ j → m * 256 ^ i <= n / 256 ^ j * 256 ^ j.
Proof.
  intros Hi Hj Hm Hle Hn Hq. assert (Hp : 0 < 256 ^ j) by (apply Z.pow_pos_nonneg; lia).
  destruct (Z.le_gt_cases j i) as [Hji|Hji].
  - replace (256 ^ i) with (256 ^ (i - j) * 256 ^ j) in * by (rewrite <-Z.pow_add_r by lia; f_equal; lia).
    rewrite Z.mul_assoc. apply Z.mul_le_mono_nonneg_r; [lia|].
    apply Z.div_le_lower_bound; lia.
  - destruct Hq as [->|Hq]; [lia|].
    replace (256 ^ j) with (256 ^ (j - 1) * 256) in * by (rewrite Z.mul_comm, <-Z.pow_succ_r by lia; f_equal; lia).
    assert (256 ^ i <= 256 ^ (j - 1)) by (apply Z.pow_le_mono_r; lia).
    assert (0 < 256 ^ i) by (apply Z.pow_pos_nonneg; lia). nia.
Qed.

Lemma compact_le n : 0 <= n < 2 ^ 2039 → 0 <= CompactToBig (BigToCompact n) <= n.
Proof.
  intros Hn. destruct (Z.eq_dec n 0) as [->|]; [done|].
  destruct (compact_value n ltac:(lia)) as (j & Hj & -> & Hq & _).
  assert (Hp : 0 < 256 ^ j) by (apply Z.pow_pos_nonneg; lia).
  assert (0 <= n / 256 ^ j) by (apply Z.div_pos; lia).
  pose proof (Z.mul_div_le n (256 ^ j) Hp). nia.
Qed.

Lemma compact_greatest n c :
  0 <= n < 2 ^ 2039 → is_u32 c → CompactToBig c <= n → CompactToBig c <= CompactToBig (BigToCompact n).
Proof.
  intros Hn Hc Hle. destruct (Z.eq_dec n 0) as [->|]; [done|].
  pose proof (compact_le n Hn).
  destruct (compact_scaled c Hc) as [|(m & i & Hi & Hm & E)]; [lia|].
  destruct (compact_value n ltac:(lia)) as (j & Hj & -> & Hq & _).
  rewrite E in *. apply floor_multiple; auto with lia.
Qed.

(** Rounding targets is monotone. *)
Lemma compact_mono n n' :
  0 <= n <= n' → n' < 2 ^ 2039 →
  CompactToBig (BigToCompact n) <= CompactToBig (BigToCompact n').
Proof.
  intros Hn Hn'. apply compact_greatest; [lia|apply BigToCompact_u32; lia|].
  pose proof (compact_le n ltac:(lia)). lia.
Qed.

Lemma compact_idem n :
  0 <= n < 2 ^ 2039 →
  CompactToBig (BigToCompact (CompactToBig (BigToCompact n))) = CompactToBig (BigToCompact n).
Proof.
  intros Hn. pose proof (compact_le n Hn) as H1.
  pose proof (compact_le (CompactToBig (BigToCompact n)) ltac:(lia)).
  pose proof (compact_greatest (CompactToBig (BigToCompact n)) (BigToCompact n) ltac:(lia)
    (BigToCompact_u32 _ Hn) ltac:(lia)). lia.
Qed.

(** C33 The compact form of a number below 2^2039 stands for the greatest
    number not above it that any 32-bit compact form stands for; it is within
    one part in 2^15 of the number, exact below 2^23, and encoding what it
    stands for again changes nothing more. *)
Theorem compact_rounding n :
  0 <= n < 2 ^ 2039 →
  let v := CompactToBig (BigToCompact n) in
  is_u32 (BigToCompact n) ∧ 0 <= v <= n ∧ (n - v) * 2 ^ 15 <= n ∧ (n < 2 ^ 23 → v = n) ∧
  (∀ c, is_u32 c → CompactToBig c <= n → CompactToBig c <= v) ∧
  CompactToBig (BigToCompact v) = v.
Proof.
  intros Hn v. unfold v.
  split_and!; [by apply BigToCompact_u32|by apply compact_le|by apply compact_le| | | |by apply compact_idem].
  - destruct (Z.eq_dec n 0) as [->|]; [done|].
    destruct (compact_value n ltac:(lia)) as (j & Hj & -> & [->|Hq] & _).
    + rewrite Z.pow_0_r, Z.div_1_r, Z.mul_1_r. lia.
    + assert (Hp : 0 < 256 ^ j) by (apply Z.pow_pos_nonneg; lia).
      pose proof (Z.mod_eq n (256 ^ j) ltac:(lia)). pose proof (Z.mod_pos_bound n (256 ^ j) Hp). nia.
  - intros Hsmall. destruct (Z.eq_dec n 0) as [->|]; [done|].
    destruct (compact_value n ltac:(lia)) as (j & Hj & -> & [->|Hq] & _).
    + rewrite Z.pow_0_r, Z.div_1_r. lia.
    + destruct (Z.eq_dec j 0) as [->|]; [rewrite Z.pow_0_r, Z.div_1_r; lia|].
      assert (n / 256 ^ j < 2 ^ 15); [|lia].
      assert (256 ^ 1 <= 256 ^ j) by (apply Z.pow_le_mono_r; lia).
      apply Z.div_lt_upper_bound; nia.
  - intros c. by apply compact_greatest.
Qed.

Lemma compact_rounding_witness :
  let n := 2 ^ 208 - 1 in
  let v := CompactToBig (BigToCompact n) in
  is_u32 (BigToCompact n) ∧ 0 <= v <= n ∧ (n - v) * 2 ^ 15 <= n ∧ (n < 2 ^ 23 → v = n) ∧
  (∀ c, is_u32 c → CompactToBig c <= n → CompactToBig c <= v) ∧
  CompactToBig (BigToCompact v) = v.
Proof. apply (compact_rounding (2 ^ 208 - 1)). lia. Defined.

(** ** Work *)

Lemma CalcWork_nonneg bits : 0 <= CalcWork bits.
Proof.
  unfold CalcWork. case_match eqn:E; [done|]. apply Z.div_pos; [done|].
  apply Z.leb_gt in E. lia.
Qed.

Lemma CalcWork_pos bits : 0 < CompactToBig bits < 2 ^ 256 → 0 < CalcWork bits.
Proof.
  intros H. unfold CalcWork. rewrite (proj2 (Z.leb_gt _ _)) by lia.
  apply Z.div_str_pos. change oneLsh256 with (2 ^ 256). lia.
Qed.

(** A lower target is at least as much work. *)
Lemma CalcWork_antitone b b' :
  0 < CompactToBig b <= CompactToBig b' → CalcWork b' <= CalcWork b.
Proof.
  intros H. unfold CalcWork. rewrite !(proj2 (Z.leb_gt _ _)) by lia.
  apply Z.div_le_compat_l; [done|lia].
Qed.
