(* ===== verification/BlockIndex.v ===== *)
(** * Nodes of the block tree (blockchain/blockindex.go)

    Block nodes with their parent and skip pointers, ancestor lookup, the past
    median time.  A node is immutable once made but for its status bits, which
    are the node's at the time it is looked at. *)
From stdpp Require Import sorting.
From Stdlib Require Import Lia ZArith.
From S2P Require Import Prelude Work ChainParams.

(** ** Status bits *)

Definition statusDataStored : Z := Z.shiftl 1 0.
Definition statusValid : Z := Z.shiftl 1 1.
Definition statusValidateFailed : Z := Z.shiftl 1 2.
Definition statusInvalidAncestor : Z := Z.shiftl 1 3.
Definition statusNone : Z := 0.

Definition HaveData (status : Z) : bool := negb (Z.land status statusDataStored =? 0).
Definition KnownValid (status : Z) : bool := negb (Z.land status statusValid =? 0).
Definition KnownInvalid (status : Z) : bool :=
  negb (Z.land status (Z.lor statusValidateFailed statusInvalidAncestor) =? 0).

(** [status |= flags] and [status &^= flags] of [SetStatusFlags] and [UnsetStatusFlags] *)
Definition set_flags (status flags : Z) : Z := Z.lor status flags.
Definition unset_flags (status flags : Z) : Z := Z.ldiff status flags.

(** ** Nodes *)

(** The fields of a [wire.BlockHeader] a node keeps, with its hash; [timestamp]
    is [Timestamp.Unix()]. *)
Record header := {
  h_hash : bytes;
  h_version : Z;
  h_merkleRoot : bytes;
  h_timestamp : Z;
  h_bits : Z;
  h_proofCommitment : bytes;
}.

Inductive blockNode := BlockNode {
  parent : option blockNode;
  ancestor : option blockNode;
  hash : bytes;
  workSum : Z;
  height : Z;
  version : Z;
  bits : Z;
  timestamp : Z;
  merkleRoot : bytes;
  proofCommitment : bytes;
  vsize : Z;
  status : Z;
}.

#[export] Instance blockNode_HeaderCtx : HeaderCtx blockNode := {
  Height := height; Bits := bits; Timestamp := timestamp; Parent := parent
}.

Definition Equals (node other : blockNode) : bool :=
  bool_decide (hash node = hash other) && (workSum node =? workSum other) &&
  (height node =? height other) && (version node =? version other) &&
  (bits node =? bits other) && (timestamp node =? timestamp other) &&
  bool_decide (merkleRoot node = merkleRoot other) &&
  bool_decide (proofCommitment node = proofCommitment other) &&
  (vsize node =? vsize other) && (status node =? status other).

(** [n & (n - 1)] *)
Definition invertLowestOne (n : Z) : Z := Z.land n (i32 (n - 1)).

Definition getAncestorHeight (height : Z) : Z := invertLowestOne (invertLowestOne height).

(** [for n != nil && n.height != height] *)
Fixpoint ancestor_loop (n : blockNode) (target : Z) : option blockNode :=
  if height n =? target then Some n
  else
    let follow_parent :=
      match parent n with Some p => ancestor_loop p target | None => None end in
    match ancestor n with
    | Some a =>
        if target <=? getAncestorHeight (height n)
        then ancestor_loop a target
        else follow_parent
    | None => follow_parent
    end.

Definition Ancestor (node : blockNode) (target : Z) : option blockNode :=
  if (target <? 0) || (height node <? target) then None
  else ancestor_loop node target.

Definition RelativeAncestor (node : blockNode) (distance : Z) : option blockNode :=
  Ancestor node (i32 (height node - distance)).

Definition IsAncestor (node : blockNode) (otherNode : option blockNode) : bool :=
  match otherNode with
  | None => false
  | Some otherNode =>
      match Ancestor node (height otherNode) with
      | None => false
      | Some a => if height node =? height a then false else Equals a otherNode
      end
  end.

(** [newBlockNode], with [buildAncestor] *)
Definition newBlockNode (h : header) (parent : option blockNode) (status vsize : Z) : blockNode :=
  let node ancestor height workSum := {|
    parent := parent; ancestor := ancestor; hash := h_hash h; workSum := workSum;
    height := height; version := h_version h; bits := h_bits h; timestamp := h_timestamp h;
    merkleRoot := h_merkleRoot h; proofCommitment := h_proofCommitment h;
    vsize := vsize; status := status |} in
  let work := CalcWork (h_bits h) in
  match parent with
  | Some p =>
      let ht := i32 (height p + 1) in
      node (Ancestor p (getAncestorHeight ht)) ht (workSum p + work)
  | None => node None 0 work
  end.

(** ** The past median time *)

Definition medianTimeBlocks : nat := 11.

Section median.
Context {N : Type} `{!HeaderCtx N}.

(** [for i := 0; i < medianTimeBlocks && iterNode != nil; i++] *)
Fixpoint past_timestamps (i : nat) (iterNode : option N) : list Z :=
  match i, iterNode with
  | S i, Some n => Timestamp n :: past_timestamps i (Parent n)
  | _, _ => []
  end.

Definition CalcPastMedianTime (node : option N) : result Empty_set Z :=
  let timestamps := past_timestamps medianTimeBlocks node in
  let numNodes := zlen timestamps in
  go_index (merge_sort Z.le timestamps) (numNodes / 2).
End median.

(** ** Well-formed trees *)

(** The [k]-th node back along the parents. *)
Fixpoint back (k : nat) (n : blockNode) : option blockNode :=
  match k with
  | O => Some n
  | S k => match parent n with Some p => back k p | None => None end
  end.

(** Nodes made by [newBlockNode]. *)
Inductive node_wf : blockNode → Prop :=
| wf_genesis h st vs : node_wf (newBlockNode h None st vs)
| wf_child h p st vs : node_wf p → height p + 1 < 2 ^ 31 → node_wf (newBlockNode h (Some p) st vs).

(** ** Skip heights *)

Lemma land_le a b : 0 <= a → 0 <= b → 0 <= Z.land a b <= b.
Proof.
  intros Ha Hb. split; [apply Z.land_nonneg; auto|].
  pose proof (Z.lor_ldiff_and b a) as E. rewrite (Z.land_comm b a) in E.
  pose proof (Z.add_lor_land (Z.ldiff b a) (Z.land a b)) as E2. rewrite E in E2.
  assert (Z.land (Z.ldiff b a) (Z.land a b) = 0) as E3.
  { apply Z.bits_inj'. intros i Hi. rewrite !Z.land_spec, Z.ldiff_spec, Z.bits_0.
    by destruct (Z.testbit a i), (Z.testbit b i). }
  assert (0 <= Z.ldiff b a) by (apply Z.ldiff_nonneg; auto). lia.
Qed.

Lemma invertLowestOne_range n : 0 <= n < 2 ^ 31 → 0 <= invertLowestOne n ∧ (invertLowestOne n < n ∨ invertLowestOne n = 0 ∧ n = 0).
Proof.
  intros Hn. unfold invertLowestOne. destruct (Z.eq_dec n 0) as [->|]; [by split; [|right]|].
  rewrite i32_small by (unfold is_i32; lia). pose proof (land_le n (n - 1)). lia.
Qed.

Lemma getAncestorHeight_range n : 0 < n < 2 ^ 31 → 0 <= getAncestorHeight n < n.
Proof.
  intros Hn. unfold getAncestorHeight.
  pose proof (invertLowestOne_range n ltac:(lia)). pose proof (invertLowestOne_range (invertLowestOne n) ltac:(lia)). lia.
Qed.

(** ** Ancestors *)

Lemma node_wf_height n : node_wf n → 0 <= height n < 2 ^ 31.
Proof.
  induction 1 as [|h p st vs Hp IH Hlt]; [done|]. cbn [newBlockNode height].
  rewrite i32_small by (unfold is_i32; lia). lia.
Qed.

(** The inversion of well-formedness the proofs use. *)
Lemma node_wf_inv n :
  node_wf n →
  (parent n = None ∧ ancestor n = None ∧ height n = 0) ∨
  ∃ p, parent n = Some p ∧ node_wf p ∧ height n = height p + 1 ∧
       ancestor n = Ancestor p (getAncestorHeight (height n)) ∧
       workSum n = workSum p + CalcWork (bits n).
Proof.
  destruct 1 as [h st vs|h p st vs Hp Hlt]; [by left|right]. exists p.
  pose proof (node_wf_height p Hp).
  cbn [newBlockNode height parent ancestor workSum bits].
  rewrite i32_small by (unfold is_i32; lia). auto.
Qed.

Lemma back_add i j n a b : back i n = Some a → back j a = Some b → back (i + j) n = Some b.
Proof.
  revert n. induction i as [|i IH]; intros n; cbn [back Nat.add]; [congruence|].
  destruct (parent n); [apply IH|done].
Qed.

Lemma back_wf k n a : node_wf n → back k n = Some a → node_wf a ∧ height a = height n - Z.of_nat k.
Proof.
  revert n. induction k as [|k IH]; intros n Hn; cbn [back].
  - intros [= <-]. split; [done|lia].
  - destruct (node_wf_inv n Hn) as [(-> & _)|(p & -> & Hp & Hh & _)]; [done|].
    intros Hb. destruct (IH _ Hp Hb). split; [done|lia].
Qed.

Lemma ancestor_loop_back n t :
  node_wf n → 0 <= t <= height n →
  ∃ a, ancestor_loop n t = Some a ∧ back (Z.to_nat (height n - t)) n = Some a.
Proof.
  remember (Z.to_nat (height n)) as N eqn:EN. revert n t EN.
  induction N as [N IH] using lt_wf_ind. intros n t -> Hn Ht.
  pose proof (node_wf_height n Hn) as Hh.
  destruct (Z.eq_dec (height n) t) as [<-|Hne].
  { exists n. rewrite Z.sub_diag. split; [|done].
    destruct n; cbn [ancestor_loop height]. by rewrite Z.eqb_refl. }
  destruct (node_wf_inv n Hn) as [(_ & _ & H0)|(p & Ep & Hp & Hhp & Ea & _)]; [lia|].
  destruct (node_wf_height p Hp) as [Hp0 _].
  pose proof (getAncestorHeight_range (height n) ltac:(lia)) as Hg.
  destruct (IH (Z.to_nat (height p)) ltac:(lia) p (getAncestorHeight (height n)) eq_refl Hp ltac:(lia))
    as (a & Ela & Eba).
  destruct (back_wf _ _ _ Hp Eba) as [Hwa Hha].
  assert (Ean : ancestor n = Some a).
  { rewrite Ea. unfold Ancestor. rewrite (proj2 (orb_false_iff _ _)); [done|]. split; apply Z.ltb_ge; lia. }
  assert (Eunf : ancestor_loop n t =
    if t <=? getAncestorHeight (height n) then ancestor_loop a t else ancestor_loop p t).
  { destruct n; cbn [ancestor_loop height ancestor parent] in *. rewrite Ean, Ep.
    by rewrite (proj2 (Z.eqb_neq _ _)). }
  rewrite Eunf. destruct (Z.leb_spec t (getAncestorHeight (height n))).
  - destruct (IH (Z.to_nat (height a)) ltac:(lia) a t eq_refl Hwa ltac:(lia)) as (b & -> & Eb).
    exists b. split; [done|].
    pose proof (back_add _ _ _ _ _ Eba Eb) as E.
    replace (Z.to_nat (height n - t)) with
      (S (Z.to_nat (height p - getAncestorHeight (height n)) + Z.to_nat (height a - t)))%nat by lia.
    cbn [back]. by rewrite Ep.
  - destruct (IH (Z.to_nat (height p)) ltac:(lia) p t eq_refl Hp ltac:(lia)) as (b & -> & Eb).
    exists b. split; [done|].
    replace (Z.to_nat (height n - t)) with (S (Z.to_nat (height p - t))) by lia.
    cbn [back]. by rewrite Ep.
Qed.

(** C32 In a tree built by [newBlockNode] the skip pointers do not change what
    [Ancestor] finds: the node reached by following parents down to the height
    asked for, and nothing for a height above the node's or negative. *)
Theorem Ancestor_spec n t :
  node_wf n →
  if (0 <=? t) && (t <=? height n)
  then ∃ a, Ancestor n t = Some a ∧ back (Z.to_nat (height n - t)) n = Some a ∧ node_wf a ∧ height a = t
  else Ancestor n t = None.
Proof.
  intros Hn. unfold Ancestor. destruct (Z.leb_spec 0 t) as [H0|H0]; cbn [andb].
  - destruct (Z.leb_spec t (height n)) as [H1|H1].
    + rewrite (proj2 (Z.ltb_ge t 0)), (proj2 (Z.ltb_ge _ _)) by lia.
      destruct (ancestor_loop_back n t Hn ltac:(lia)) as (a & Ea & Eb).
      exists a. destruct (back_wf _ _ _ Hn Eb). split_and!; [done|done|done|lia].
    + rewrite (proj2 (Z.ltb_lt (height n) t)) by lia. by rewrite orb_true_r.
  - by rewrite (proj2 (Z.ltb_lt t 0)) by lia.
Qed.

(** A chain of [k] blocks after a first one, for examples. *)
Fixpoint demo_chain (k : nat) : blockNode :=
  let h k := {| h_hash := le_put 32 (Z.of_nat k); h_version := 1; h_merkleRoot := le_put 32 0;
                h_timestamp := 1700000000 + 194 * Z.of_nat k; h_bits := 0x1b00ffff;
                h_proofCommitment := le_put 32 0 |} in
  match k with
  | O => newBlockNode (h O) None statusNone 0
  | S k' => newBlockNode (h k) (Some (demo_chain k')) statusNone 0
  end.

Lemma demo_chain_wf k : (k < 100)%nat → node_wf (demo_chain k) ∧ height (demo_chain k) = Z.of_nat k.
Proof.
  induction k as [|k IH]; intros Hk; [split; [constructor|done]|].
  destruct (IH ltac:(lia)) as [Hw Hh]. split; [apply (wf_child _ (demo_chain k)); [done|lia]|].
  cbn [demo_chain newBlockNode height]. rewrite Hh, i32_small by (unfold is_i32; lia). lia.
Qed.

Lemma Ancestor_spec_witness :
  ∃ a, Ancestor (demo_chain 12) 5 = Some a ∧ back 7 (demo_chain 12) = Some a ∧ node_wf a ∧ height a = 5.
Proof. exact (Ancestor_spec (demo_chain 12) 5 (proj1 (demo_chain_wf 12 ltac:(lia)))). Defined.

(** ** Work *)

(** The work of the blocks from [n] back to the first one. *)
Fixpoint total_work (n : blockNode) : Z :=
  CalcWork (bits n) + match parent n with Some p => total_work p | None => 0 end.

Lemma workSum_total n : node_wf n → workSum n = total_work n.
Proof.
  induction 1 as [h st vs|h p st vs Hp IH _]; cbn [newBlockNode workSum total_work bits parent]; [lia|].
  rewrite IH. lia.
Qed.

(** A block with a target below 2^256 adds work. *)
Lemma workSum_grows n p :
  node_wf n → parent n = Some p → 0 < CompactToBig (bits n) < 2 ^ 256 → workSum p < workSum n.
Proof.
  intros Hn Ep Hb. pose proof (CalcWork_pos _ Hb).
  destruct (node_wf_inv n Hn) as [(E & _)|(q & Eq & _ & _ & _ & ->)]; [congruence|].
  rewrite Ep in Eq. injection Eq as <-. lia.
Qed.

(** ** The median *)

#[local] Instance Zle_total : Total Z.le.
Proof. intros x y. lia. Qed.

Definition count_lt (m : Z) (l : list Z) : nat := length (filter (λ x, x < m) l).
Definition count_gt (m : Z) (l : list Z) : nat := length (filter (λ x, m < x) l).

Lemma count_all_false (P : Z → Prop) `{!∀ x, Decision (P x)} l :
  Forall (λ x, ¬ P x) l → length (filter P l) = 0%nat.
Proof. induction 1 as [|x l Hx _ IH]; [done|]. by rewrite filter_cons_False. Qed.

(** At index [i] of a sorted list at most [i] entries are smaller and at most
    the entries behind it greater. *)
Lemma sorted_rank (l : list Z) i m :
  StronglySorted Z.le l → l !! i = Some m → (count_lt m l <= i)%nat ∧ (count_gt m l <= length l - 1 - i)%nat.
Proof.
  intros Hs Hi. pose proof (lookup_lt_Some _ _ _ Hi) as Hlt.
  rewrite <-(take_drop_middle l i m Hi) in Hs.
  assert (El : l = take i l ++ m :: drop (S i) l) by (by rewrite take_drop_middle).
  apply StronglySorted_app in Hs as (Hpre & _ & [Hpost _]%StronglySorted_cons).
  unfold count_lt, count_gt.
  assert (E1 : filter (λ x, x < m) l = filter (λ x, x < m) (take i l)).
  { rewrite El at 1. rewrite filter_app, (nil_length_inv (filter _ (m :: _))), app_nil_r; [done|].
    apply count_all_false. constructor; [lia|]. eapply Forall_impl; [exact Hpost|]. cbn. lia. }
  assert (E2 : filter (λ x, m < x) l = filter (λ x, m < x) (drop (S i) l)).
  { rewrite El at 1. rewrite filter_app, filter_cons_False, (nil_length_inv (filter _ (take i l))); [done| |lia].
    apply count_all_false, Forall_forall. intros x Hx.
    pose proof (Hpre x m Hx ltac:(left)). lia. }
  rewrite E1, E2.
  pose proof (length_filter (λ x, x < m) (take i l)). pose proof (length_filter (λ x, m < x) (drop (S i) l)).
  rewrite length_take, length_drop in *. lia.
Qed.

Lemma count_perm (P : Z → Prop) `{!∀ x, Decision (P x)} l k :
  l ≡ₚ k → length (filter P l) = length (filter P k).
Proof. by intros ->. Qed.

Section median_proofs.
Context {N : Type} `{!HeaderCtx N}.

Lemma length_past_timestamps i (n : option N) : (length (past_timestamps i n) <= i)%nat.
Proof. revert n. induction i as [|i IH]; intros [n|]; cbn; try lia. specialize (IH (Parent n)). lia. Qed.

(** The median time of a node: one of the last timestamps, with at most half of
    them before it and fewer than half of them after it. *)
Lemma CalcPastMedianTime_rank (n : N) :
  let ts := past_timestamps medianTimeBlocks (Some n) in
  ∃ m, CalcPastMedianTime (Some n) = Ok m ∧ m ∈ ts ∧
       (2 * count_lt m ts <= length ts)%nat ∧ (2 * count_gt m ts < length ts)%nat.
Proof.
  intros ts. assert (Hlen : (0 < length ts)%nat) by (cbn; lia).
  unfold CalcPastMedianTime. fold ts.
  set (l := merge_sort Z.le ts). assert (Hp : l ≡ₚ ts) by apply merge_sort_Permutation.
  assert (Hll : length l = length ts) by (by rewrite Hp).
  destruct (go_index_total (E:=Empty_set) l (zlen ts / 2)) as (m & Em & Hm).
  { unfold zlen. rewrite Hll. pose proof (Z.div_lt (Z.of_nat (length ts)) 2 ltac:(lia) ltac:(lia)).
    split; [apply Z.div_pos|]; lia. }
  exists m. split; [done|].
  assert (Hin : m ∈ ts) by (rewrite <-Hp; by eapply list_elem_of_lookup_2).
  split; [done|].
  destruct (sorted_rank l _ m (StronglySorted_merge_sort _ _) Hm) as [H1 H2].
  unfold count_lt, count_gt in *. rewrite (count_perm _ _ _ Hp) in H1. rewrite (count_perm _ _ _ Hp) in H2. rewrite Hll in H2.
  pose proof (Z.div_mod (zlen ts) 2 ltac:(lia)). pose proof (Z.mod_pos_bound (zlen ts) 2 ltac:(lia)).
  unfold zlen in *. lia.
Qed.

(** Two sorted lists with the same entries are equal. *)
Lemma sorted_perm_eq (l k : list Z) : StronglySorted Z.le l → StronglySorted Z.le k → l ≡ₚ k → l = k.
Proof.
  intros Hl Hk Hp. apply (StronglySorted_unique Z.le); done.
Qed.

(** When timestamps grow along the chain, the median is the timestamp of the
    middle block of the last eleven. *)
Lemma CalcPastMedianTime_middle (n : N) :
  let ts := past_timestamps medianTimeBlocks (Some n) in
  StronglySorted Z.le (reverse ts) →
  ∃ m, CalcPastMedianTime (Some n) = Ok m ∧ ts !! ((length ts - 1) / 2)%nat = Some m.
Proof.
  intros ts Hs. assert (Hlen : (0 < length ts)%nat) by (cbn; lia).
  unfold CalcPastMedianTime. fold ts.
  rewrite (sorted_perm_eq (merge_sort Z.le ts) (reverse ts)).
  2:{ apply StronglySorted_merge_sort; apply _. }
  2:{ done. }
  2:{ by rewrite merge_sort_Permutation, reverse_Permutation. }
  destruct (go_index_total (E:=Empty_set) (reverse ts) (zlen ts / 2)) as (m & Em & Hm).
  { unfold zlen. rewrite length_reverse. pose proof (Z.div_lt (Z.of_nat (length ts)) 2 ltac:(lia) ltac:(lia)).
    split; [apply Z.div_pos|]; lia. }
  exists m. split; [done|].
  pose proof (Z.div_mod (zlen ts) 2 ltac:(lia)). pose proof (Z.mod_pos_bound (zlen ts) 2 ltac:(lia)).
  rewrite reverse_lookup in Hm by (unfold zlen in *; lia).
  rewrite <-Hm. f_equal.
  pose proof (Nat.div_mod_eq (length ts - 1) 2). pose proof (Nat.mod_upper_bound (length ts - 1) 2).
  unfold zlen in *. lia.
Qed.
End median_proofs.
