(* ===== verification/Difficulty.v ===== *)
(** * Difficulty (blockchain/difficulty.go, checkpoint test of process.go)

    The retargeting of every block (WTEMA), the easiest target that can follow
    a checkpoint, and that the latter bounds every chain of the former. *)
From Stdlib Require Import Lia ZArith Reals Lra.
From S2P Require Import Prelude Work ChainParams BlockIndex.

(** ** Definitions *)

Section difficulty.
Context {N : Type} `{!HeaderCtx N}.

(** The target before it is written in compact form. *)
Definition retarget (p : Params) (lastNode parentNode : N) : result Empty_set Z :=
  let t := i64 (Timestamp lastNode - Timestamp parentNode) in
  let T := seconds (TargetTimePerBlock p) in
  let halfLife := seconds (WTEMAHalfLife p) in
  let oldTarget := CompactToBig (Bits lastNode) in
  adjustment ← big_div (i64 (t - T) * oldTarget) halfLife;
  let newTarget := oldTarget + adjustment in
  let newTarget := if PowLimit p <? newTarget then PowLimit p else newTarget in
  Ok (if Z.sgn newTarget <=? 0 then 1 else newTarget).

Definition calcNextRequiredDifficulty (lastNode : option N) (newBlockTime : Z) (p : Params) : result Empty_set Z :=
  match lastNode with
  | None => Ok (PowLimitBits p)
  | Some lastNode =>
      if PoWNoRetargeting p then Ok (PowLimitBits p)
      else if ReduceMinDifficulty p && (Net p =? MainNet) then Panic
      else if ReduceMinDifficulty p &&
              (i64 (Timestamp lastNode + seconds (MinDiffReductionTime p)) <? newBlockTime)
      then Ok (PowLimitBits p)
      else
        match Parent lastNode with
        | None => Ok (Bits lastNode)
        | Some parentNode =>
            newTarget ← retarget p lastNode parentNode;
            Ok (BigToCompact newTarget)
        end
  end.
End difficulty.

Definition calcEasiestDifficulty (p : Params) (bits duration : Z) : result Empty_set Z :=
  let durationVal := seconds duration in
  if ReduceMinDifficulty p && (seconds (MinDiffReductionTime p) <? durationVal)
  then Ok (PowLimitBits p)
  else
    let halfLifeSec := seconds (WTEMAHalfLife p) in
    let newTarget := CompactToBig bits in
    let clamp newTarget :=
      BigToCompact (if PowLimit p <? newTarget then PowLimit p else newTarget) in
    if 0 <? durationVal then
      periods ← i64_div (i64 (i64 (durationVal + halfLifeSec) - 1)) halfLifeSec;
      if 177 <? periods then Ok (PowLimitBits p)
      else
        let pow87 := 87 ^ periods in
        Ok (clamp (Z.shiftr (newTarget * pow87) (5 * periods)))
    else Ok (clamp newTarget).

(** The test of [ProcessBlock] against the last checkpoint: a block of these
    [bits], its timestamp [duration] after the checkpoint's, is not too easy. *)
Definition checkpoint_target_ok (p : Params) (checkpointBits duration bits : Z) : result Empty_set bool :=
  easiest ← calcEasiestDifficulty p checkpointBits duration;
  let requiredTarget := CompactToBig easiest in
  let currentTarget := CompactToBig bits in
  Ok (negb (requiredTarget <? currentTarget)).

(** ** Growth over a half-life *)

Section growth.
Local Open Scope R_scope.

Lemma exp_scale (n : nat) x : exp (INR n * x) = exp x ^ n.
Proof.
  induction n as [|n IH]; [cbn; by rewrite Rmult_0_l, exp_0|].
  rewrite S_INR, Rmult_plus_distr_r, exp_plus, IH, Rmult_1_l. cbn. lra.
Qed.

(** [n] squarings of [q / 2^64], rounded down. *)
Fixpoint squarings (n : nat) (q : Z) : Z :=
  match n with O => q | S n => squarings n (q * q / 2 ^ 64)%Z end.

Lemma squarings_exp n q y :
  (0 <= q)%Z → IZR q / IZR (2 ^ 64) <= exp y → IZR (squarings n q) / IZR (2 ^ 64) <= exp (INR (2 ^ n) * y).
Proof.
  revert q y. induction n as [|n IH]; intros q y Hq Hle; cbn [squarings].
  - rewrite Nat.pow_0_r. cbn [INR]. by rewrite Rmult_1_l.
  - replace (INR (2 ^ S n) * y) with (INR (2 ^ n) * (y + y)) by (rewrite Nat.pow_succ_r', mult_INR; cbn; lra).
    apply IH; [apply Z.div_pos; lia|]. rewrite exp_plus.
    assert (Hd : IZR (2 ^ 64 * (q * q / 2 ^ 64)) <= IZR (q * q)) by (apply IZR_le, Z.mul_div_le; lia).
    rewrite !mult_IZR in Hd. apply IZR_le in Hq.
    assert (Hp : 0 < IZR (2 ^ 64)) by (apply IZR_lt; lia).
    generalize dependent (IZR (q * q / 2 ^ 64)). generalize dependent (IZR (2 ^ 64)).
    intros d IH Hle Hp z Hd. clear IH. pose proof (exp_pos y).
    transitivity ((IZR q / d) * (IZR q / d)).
    + apply Rmult_le_reg_r with (d * d); [nra|].
      replace (IZR q / d * (IZR q / d) * (d * d)) with (IZR q * IZR q) by (field; lra).
      replace (z / d * (d * d)) with (d * z) by (field; lra). done.
    + assert (0 <= IZR q / d) by (apply Rmult_le_pos; [done|left; by apply Rinv_0_lt_compat]). nra.
Qed.

(** 87/32 exceeds the base of the exponential: [1 - 1/2^12 <= exp (-1/2^12)],
    squared twelve times. *)
Lemma exp_bound : exp 1 <= 87 / 32.
Proof.
  assert (H : IZR (squarings 12 (4095 * 2 ^ 52)) / IZR (2 ^ 64) <= exp (INR (2 ^ 12) * (- 1 / 4096))).
  { apply squarings_exp; [done|]. pose proof (exp_ineq1_le (- 1 / 4096)) as H.
    eapply Rle_trans; [|exact H]. rewrite mult_IZR.
    replace (IZR (2 ^ 64)) with (4096 * IZR (2 ^ 52)) by (rewrite <-mult_IZR; done).
    assert (0 < IZR (2 ^ 52)) by (apply IZR_lt; lia). right. field. lra. }
  replace (INR (2 ^ 12) * (- 1 / 4096)) with (- (1)) in H
    by (rewrite INR_IZR_INZ; change (Z.of_nat (2 ^ 12)) with 4096%Z; lra).
  rewrite exp_Ropp in H. pose proof (exp_pos 1) as He.
  assert (H32 : 32 / 87 <= IZR (squarings 12 (4095 * 2 ^ 52)) / IZR (2 ^ 64)).
  { assert (Hz : (32 * 2 ^ 64 <= 87 * squarings 12 (4095 * 2 ^ 52))%Z) by (by apply Z.leb_le).
    apply IZR_le in Hz. rewrite !mult_IZR in Hz.
    assert (Hp : 0 < IZR (2 ^ 64)) by (apply IZR_lt; lia).
    apply Rmult_le_reg_r with (87 * IZR (2 ^ 64)); [lra|]. unfold Rdiv.
    replace (IZR (squarings 12 (4095 * 2 ^ 52)) * / IZR (2 ^ 64) * (87 * IZR (2 ^ 64)))
      with (87 * IZR (squarings 12 (4095 * 2 ^ 52))) by (field; lra).
    lra. }
  assert (H1 : 32 / 87 <= / exp 1) by lra. clear H H32.
  apply Rmult_le_compat_r with (r := exp 1) in H1; [|lra].
  rewrite Rinv_l in H1 by lra. lra.
Qed.

Lemma exp_le_mono x y : x <= y → exp x <= exp y.
Proof. intros [H| ->]; [left; by apply exp_increasing|lra]. Qed.

(** Over [n] whole half-lives. *)
Lemma exp_periods (n : nat) x : x <= INR n → exp x <= (87 / 32) ^ n.
Proof.
  intros H. eapply Rle_trans; [by apply exp_le_mono|].
  replace (INR n) with (INR n * 1) by lra. rewrite exp_scale.
  apply pow_incr. split; [left; apply exp_pos|apply exp_bound].
Qed.
End growth.

(** ** Retargeting *)

(** The parameters of a network that retargets. *)
Record params_ok (p : Params) : Prop := {
  ok_limit : 0 < PowLimit p < 2 ^ 2039;
  ok_bits : is_u32 (PowLimitBits p) ∧ CompactToBig (BigToCompact (PowLimit p)) <= CompactToBig (PowLimitBits p);
  ok_half : 0 < seconds (WTEMAHalfLife p) < 2 ^ 40;
  ok_spacing : 0 <= seconds (TargetTimePerBlock p) < 2 ^ 40;
  ok_reduction : 0 <= seconds (MinDiffReductionTime p) < 2 ^ 40;
  ok_retargets : PoWNoRetargeting p = false;
  ok_main : ReduceMinDifficulty p && (Net p =? MainNet) = false;
}.

Lemma main_params_ok : params_ok MainNetParams.
Proof. by split; vm_compute. Qed.
Lemma test_params_ok : params_ok TestNetParams.
Proof. by split; vm_compute. Qed.
Lemma test2_params_ok : params_ok TestNet2Params.
Proof. by split; vm_compute. Qed.

(** The target the weighted exponential moving average asks for after a block
    of target [old] that took [t] seconds. *)
Definition wtema (p : Params) (old t : Z) : Z :=
  Z.max 1 (Z.min (PowLimit p)
    (old + (t - seconds (TargetTimePerBlock p)) * old / seconds (WTEMAHalfLife p))).

Lemma wtema_range p old t : params_ok p → 1 <= wtema p old t <= PowLimit p.
Proof. intros H. pose proof (ok_limit _ H). unfold wtema. lia. Qed.

Lemma wtema_mono p old t t' : params_ok p → 0 <= old → t <= t' → wtema p old t <= wtema p old t'.
Proof.
  intros H Hold Ht. unfold wtema. apply Z.max_le_compat_l, Z.min_le_compat_l.
  apply Z.add_le_mono_l, Z.div_le_mono; [apply (ok_half _ H)|]. nia.
Qed.

Lemma wtema_steady p old :
  params_ok p → 0 < old <= PowLimit p → wtema p old (seconds (TargetTimePerBlock p)) = old.
Proof.
  intros H Hold. unfold wtema. rewrite Z.sub_diag, Z.mul_0_l, Z.div_0_l by (pose proof (ok_half _ H); lia). lia.
Qed.

Section chain.
Context {N : Type} `{!HeaderCtx N} (p : Params).
Hypothesis Hp : params_ok p.

Lemma retarget_wtema (n m : N) :
  is_u32 (Timestamp n) → is_u32 (Timestamp m) →
  retarget p n m = Ok (wtema p (CompactToBig (Bits n)) (Timestamp n - Timestamp m)).
Proof.
  intros Hn Hm. pose proof (ok_half _ Hp) as Hh. pose proof (ok_spacing _ Hp) as Hs.
  pose proof (ok_limit _ Hp) as Hl. unfold is_u32 in *.
  unfold retarget, big_div, wtema. rewrite (i64_small (Timestamp n - Timestamp m)) by (unfold is_i64; lia).
  rewrite i64_small by (unfold is_i64; lia).
  rewrite (proj2 (Z.eqb_neq _ _)), (proj2 (Z.ltb_lt 0 _)) by lia. cbn [mbind result_bind]. f_equal.
  set (x := _ + _ / _). destruct (Z.ltb_spec (PowLimit p) x).
  - rewrite (proj2 (Z.leb_gt _ _)) by (rewrite Z.sgn_pos; lia). lia.
  - destruct (Z.leb_spec (Z.sgn x) 0); lia.
Qed.

(** The easy block a test network allows after a long gap. *)
Definition gap_rule (n : N) (now : Z) : bool :=
  ReduceMinDifficulty p && (Timestamp n + seconds (MinDiffReductionTime p) <? now).

Lemma calcNext_eq (n : N) now :
  is_u32 (Timestamp n) → (∀ m, Parent n = Some m → is_u32 (Timestamp m)) →
  calcNextRequiredDifficulty (Some n) now p =
    Ok (if gap_rule n now then PowLimitBits p
        else match Parent n with
             | None => Bits n
             | Some m => BigToCompact (wtema p (CompactToBig (Bits n)) (Timestamp n - Timestamp m))
             end).
Proof.
  intros Hn Hm. unfold calcNextRequiredDifficulty, gap_rule.
  rewrite (ok_retargets _ Hp), (ok_main _ Hp).
  rewrite i64_small by (pose proof (ok_reduction _ Hp); unfold is_u32, is_i64 in *; lia).
  destruct (_ && _); [done|]. destruct (Parent n) as [m|] eqn:E; [|done].
  rewrite retarget_wtema; auto.
Qed.

(** The target of a retargeted block. *)
Lemma wtema_compact_range old t :
  0 < CompactToBig (BigToCompact (wtema p old t)) <= CompactToBig (BigToCompact (PowLimit p)).
Proof.
  pose proof (wtema_range p old t Hp). pose proof (ok_limit _ Hp). split.
  - eapply Z.lt_le_trans; [|apply (compact_mono 1); lia]. done.
  - apply compact_mono; lia.
Qed.
End chain.

(** C29 After a block with a parent the required bits are the easiest ones
    when a test network's gap rule applies, and otherwise the compact form of
    the average [old + (t - T) * old / halfLife] held between 1 and the limit;
    the target is then positive and not above the limit, it is the old one when
    the block took the time it should, and it never falls when the block took
    longer. *)
Theorem calcNextRequiredDifficulty_spec {N} `{!HeaderCtx N} p (n m : N) now :
  params_ok p → Parent n = Some m → is_u32 (Timestamp n) → is_u32 (Timestamp m) →
  let old := CompactToBig (Bits n) in
  let bits := if gap_rule p n now then PowLimitBits p
              else BigToCompact (wtema p old (Timestamp n - Timestamp m)) in
  calcNextRequiredDifficulty (Some n) now p = Ok bits ∧
  (gap_rule p n now = false →
    0 < CompactToBig bits <= PowLimit p ∧
    (Timestamp n - Timestamp m = seconds (TargetTimePerBlock p) → is_u32 (Bits n) →
       0 < old <= PowLimit p → CompactToBig bits = old) ∧
    (∀ t, Timestamp n - Timestamp m <= t → 0 <= old →
       CompactToBig bits <= CompactToBig (BigToCompact (wtema p old t)))).
Proof.
  intros Hp Hpar Hn Hm old bits. split.
  { unfold bits. rewrite (calcNext_eq p Hp) by (auto; naive_solver). by rewrite Hpar. }
  intros Hgap. unfold bits. rewrite Hgap. pose proof (ok_limit _ Hp) as Hl.
  pose proof (wtema_range p old (Timestamp n - Timestamp m) Hp) as Hr. split_and!.
  - apply (wtema_compact_range p Hp).
  - etrans; [apply (wtema_compact_range p Hp)|]. apply compact_le. lia.
  - intros -> Hb Hold. rewrite wtema_steady by done.
    pose proof (compact_le old ltac:(lia)).
    pose proof (compact_greatest old (Bits n) ltac:(lia) Hb ltac:(unfold old; lia)). unfold old in *. lia.
  - intros t Ht Hold. apply compact_mono; [|pose proof (wtema_range p old t Hp); lia].
    split; [lia|]. by apply wtema_mono.
Qed.

(** ** Chains after a checkpoint *)

Section follows.
Context {N : Type} `{!HeaderCtx N} (p : Params).
Hypothesis Hp : params_ok p.

Abbreviation target n := (CompactToBig (Bits n)).

(** [n] carries the bits required after [m], and is not older. *)
Record next_block (m n : N) : Prop := {
  next_parent : Parent n = Some m;
  next_time : Timestamp m <= Timestamp n;
  next_u32 : is_u32 (Timestamp n);
  next_bits : calcNextRequiredDifficulty (Some m) (Timestamp n) p = Ok (Bits n);
}.

Inductive follows (c : N) : N → Prop :=
| follows_refl : follows c c
| follows_next m n : follows c m → next_block m n → follows c n.

(** The time from which the first retargeting after the checkpoint measures. *)
Definition base (c : N) : Z := match Parent c with Some k => Timestamp k | None => Timestamp c end.

(** A checkpoint whose own header is valid. *)
Record checkpoint_ok (c : N) : Prop := {
  cp_u32 : is_u32 (Timestamp c);
  cp_bits : is_u32 (Bits c);
  cp_target : 0 < target c <= PowLimit p;
  cp_parent : ∀ k, Parent c = Some k → is_u32 (Timestamp k) ∧ Timestamp k <= Timestamp c;
}.

Context (c : N) (Hc : checkpoint_ok c).

Lemma base_le : is_u32 (base c) ∧ base c <= Timestamp c.
Proof.
  unfold base. destruct (Parent c) eqn:E; [by apply (cp_parent _ Hc)|].
  split; [apply (cp_u32 _ Hc)|done].
Qed.

Lemma follows_time n : follows c n → is_u32 (Timestamp n) ∧ Timestamp c <= Timestamp n.
Proof.
  induction 1 as [|m n Hm [IH1 IH2] Hn]; [split; [apply (cp_u32 _ Hc)|done]|].
  destruct Hn. split; [done|lia].
Qed.

Lemma follows_parent n k : follows c n → Parent n = Some k → is_u32 (Timestamp k).
Proof.
  destruct 1 as [|m n Hm Hn]; intros E; [by apply (cp_parent _ Hc)|].
  destruct Hn as [Hpar _ _ _]. rewrite Hpar in E. injection E as <-. by apply follows_time.
Qed.

(** What the bits of the next block are. *)
Lemma next_bits_eq m n :
  follows c m → next_block m n →
  Bits n = (if gap_rule p m (Timestamp n) then PowLimitBits p
            else match Parent m with
                 | None => Bits m
                 | Some k => BigToCompact (wtema p (target m) (Timestamp m - Timestamp k))
                 end).
Proof.
  intros Hm Hn. pose proof (next_bits _ _ Hn) as E.
  rewrite (calcNext_eq p Hp) in E; [by injection E|by apply follows_time|].
  intros k Hk. by apply (follows_parent m).
Qed.

(** Only the checkpoint can lack a parent. *)
Lemma follows_orphan m : follows c m → Parent m = None → m = c.
Proof. destruct 1 as [|m n Hm Hn]; [done|]. destruct Hn as [Hpar _ _ _]. by rewrite Hpar. Qed.

(** The targets of a chain: within the limit, or the easiest one. *)
Lemma follows_target n :
  follows c n → is_u32 (Bits n) ∧ 0 < target n ∧ (target n <= PowLimit p ∨ Bits n = PowLimitBits p).
Proof.
  intros H. pose proof (ok_limit _ Hp) as Hl. pose proof (ok_bits _ Hp) as [Hb1 Hb2].
  destruct H as [|m n Hm Hn]; [pose proof (cp_target _ Hc); split_and!; [apply (cp_bits _ Hc)|lia|left; lia]|].
  rewrite (next_bits_eq _ _ Hm Hn). destruct (gap_rule _ _ _).
  - pose proof (wtema_compact_range p Hp 1 0). split_and!; [done|lia|by right].
  - destruct (Parent m) as [k|] eqn:Ek.
    + set (t := Timestamp m - Timestamp k). pose proof (wtema_compact_range p Hp (target m) t) as Hw.
      pose proof (wtema_range p (target m) t Hp). pose proof (compact_le (PowLimit p) ltac:(lia)).
      split_and!; [apply BigToCompact_u32; lia|lia|left; lia].
    + rewrite (follows_orphan _ Hm Ek). pose proof (cp_target _ Hc).
      split_and!; [apply (cp_bits _ Hc)|lia|left; lia].
Qed.

Lemma follows_limit n : follows c n → target n <= CompactToBig (PowLimitBits p).
Proof.
  intros H. destruct (follows_target n H) as (Hu & H0 & [Hle| ->]); [|done].
  etrans; [|apply (ok_bits _ Hp)]. apply compact_greatest; [|done|done]. pose proof (ok_limit _ Hp). lia.
Qed.
(** *** Growth *)

Abbreviation half := (seconds (WTEMAHalfLife p)).

(** One retargeting multiplies the target by at most [exp (t / halfLife)]. *)
Lemma wtema_growth old t (X : R) :
  0 <= old → 0 <= t → (IZR old <= X)%R → (1 <= X)%R →
  (IZR (CompactToBig (BigToCompact (wtema p old t))) <= X * exp (IZR t / IZR half))%R.
Proof.
  intros Hold Ht HX HX1. pose proof (ok_half _ Hp) as Hh. pose proof (ok_spacing _ Hp) as Hs.
  pose proof (ok_limit _ Hp). pose proof (wtema_range p old t Hp).
  assert (HhR : (0 < IZR half)%R) by (apply IZR_lt; lia).
  assert (HtR : (0 <= IZR t / IZR half)%R).
  { apply Rmult_le_pos; [by apply IZR_le|left; by apply Rinv_0_lt_compat]. }
  pose proof (exp_ineq1_le (IZR t / IZR half)) as He.
  assert (Hw : CompactToBig (BigToCompact (wtema p old t)) <= Z.max 1 (old + t * old / half)).
  { etrans; [apply compact_le; lia|]. unfold wtema.
    assert ((t - seconds (TargetTimePerBlock p)) * old / half <= t * old / half)
      by (apply Z.div_le_mono; nia). lia. }
  apply IZR_le in Hw. eapply Rle_trans; [exact Hw|]. clear Hw.
  assert (HoldR : (0 <= IZR old)%R) by (by apply IZR_le).
  destruct (Z.max_spec 1 (old + t * old / half)) as [[_ ->]|[_ ->]]; [|nra].
  rewrite plus_IZR.
  assert (Hd : (IZR (half * (t * old / half)) <= IZR (t * old))%R) by (apply IZR_le, Z.mul_div_le; lia).
  rewrite !mult_IZR in Hd.
  assert ((IZR (t * old / half) <= IZR t / IZR half * IZR old)%R); [|nra].
  apply Rmult_le_reg_l with (IZR half); [done|].
  replace (IZR half * (IZR t / IZR half * IZR old))%R with (IZR t * IZR old)%R by (field; lra). done.
Qed.

Lemma exp_ge_1 a : 0 <= a → (1 <= exp (IZR a / IZR half))%R.
Proof.
  intros Ha. pose proof (ok_half _ Hp).
  rewrite <-exp_0. apply exp_le_mono, Rmult_le_pos; [by apply IZR_le|].
  left. apply Rinv_0_lt_compat, IZR_lt. lia.
Qed.

(** As long as no gap was long enough for the easiest target, the target of a
    block is bounded by the time from [base] to its parent. *)
Lemma follows_growth m n :
  follows c m → next_block m n →
  (∀ m' n', follows c m' → next_block m' n' → Timestamp n' <= Timestamp n → gap_rule p m' (Timestamp n') = false) →
  (IZR (target n) <= IZR (target c) * exp (IZR (Timestamp m - base c) / IZR half))%R.
Proof.
  intros Hm. revert n. induction Hm as [|k m Hk IH Hkm]; intros n Hn Hgap.
  - destruct base_le as [_ Hb]. pose proof (cp_target _ Hc) as Ht. 
    assert (Hd : 0 <= Timestamp c - base c) by lia. pose proof (exp_ge_1 _ Hd) as He.
    rewrite (next_bits_eq _ _ (follows_refl _) Hn).
    rewrite (Hgap c n) by (done || constructor).
    destruct (Parent c) as [k|] eqn:Ek; unfold base in *; rewrite Ek in *.
    + apply wtema_growth; [lia|lia|lra|apply IZR_le; lia].
    + assert (1 <= IZR (target c))%R by (apply IZR_le; lia). nra.
  - destruct base_le as [_ Hb].
    assert (Hm : follows c m) by (by econstructor).
    pose proof (next_time _ _ Hkm). pose proof (next_time _ _ Hn).
    destruct (follows_time k Hk) as [_ Hck].
    rewrite (next_bits_eq _ _ Hm Hn). rewrite (Hgap m n) by done.
    rewrite (next_parent _ _ Hkm).
    replace (Timestamp m - base c) with ((Timestamp k - base c) + (Timestamp m - Timestamp k)) by lia.
    rewrite plus_IZR. unfold Rdiv. rewrite Rmult_plus_distr_r, exp_plus, <-Rmult_assoc.
    pose proof (follows_target m Hm) as (_ & Hmpos & _).
    apply wtema_growth; [lia|lia| |].
    + apply IH; [done|]. intros m' n' ? ? ?. apply Hgap; [done|done|lia].
    + assert (1 <= IZR (target c))%R by (apply IZR_le; pose proof (cp_target _ Hc); lia).
      assert (Hd : 0 <= Timestamp k - base c) by lia. pose proof (exp_ge_1 _ Hd). nra.
Qed.
End follows.

(** The number of half-lives, rounded up, that [calcEasiestDifficulty] counts. *)
Definition half_lives (p : Params) (d : Z) : Z :=
  (d + seconds (WTEMAHalfLife p) - 1) / seconds (WTEMAHalfLife p).

Lemma seconds_mul d : seconds (d * Second) = d.
Proof. unfold seconds. by apply Z.quot_mul. Qed.

Lemma half_lives_nonneg p d : params_ok p → 0 <= d → 0 <= half_lives p d.
Proof. intros Hp Hd. pose proof (ok_half _ Hp). apply Z.div_pos; lia. Qed.

(** What [calcEasiestDifficulty] computes. *)
Lemma calcEasiest_eq p bits d :
  params_ok p → 0 <= d < 2 ^ 32 → 0 <= CompactToBig bits →
  calcEasiestDifficulty p bits (d * Second) =
    Ok (if (ReduceMinDifficulty p && (seconds (MinDiffReductionTime p) <? d)) || (177 <? half_lives p d)
        then PowLimitBits p
        else BigToCompact (Z.min (PowLimit p)
               (CompactToBig bits * 87 ^ half_lives p d / 32 ^ half_lives p d))).
Proof.
  intros Hp Hd Hb. pose proof (ok_half _ Hp) as Hh. unfold calcEasiestDifficulty. rewrite seconds_mul.
  destruct (ReduceMinDifficulty p && _) eqn:Er; [done|].
  assert (Hclamp : ∀ x, (if PowLimit p <? x then PowLimit p else x) = Z.min (PowLimit p) x).
  { intros x. destruct (Z.ltb_spec (PowLimit p) x); lia. }
  destruct (Z.ltb_spec 0 d) as [H0|H0].
  - unfold i64_div. rewrite (proj2 (Z.eqb_neq _ _)) by lia.
    rewrite (i64_small (d + _)), (i64_small (_ - 1)) by (unfold is_i64; lia).
    rewrite Z.quot_div_nonneg by lia. pose proof (half_lives_nonneg p d Hp ltac:(lia)) as Hn.
    fold (half_lives p d). rewrite i64_small.
    2:{ unfold is_i64. split; [lia|]. apply Z.div_lt_upper_bound; lia. }
    cbn [mbind result_bind]. destruct (Z.ltb_spec 177 (half_lives p d)); [done|]. cbn [orb].
    rewrite Hclamp, Z.shiftr_div_pow2 by lia. by rewrite Z.pow_mul_r by lia.
  - replace d with 0 in * by lia. rewrite Hclamp.
    assert (half_lives p 0 = 0) as ->.
    { unfold half_lives. rewrite Z.div_small; lia. }
    cbn [orb Z.ltb Z.compare]. by rewrite !Z.pow_0_r, Z.div_1_r, Z.mul_1_r.
Qed.

(** From the bound over the reals to the integers [calcEasiestDifficulty] uses. *)
Lemma growth_floor tn tc a h k :
  0 <= tc → 0 < h → 0 <= k → a <= h * k →
  (IZR tn <= IZR tc * exp (IZR a / IZR h))%R → tn <= tc * 87 ^ k / 32 ^ k.
Proof.
  intros Htc Hh Hk Ha Hle. assert (0 < 32 ^ k) by (apply Z.pow_pos_nonneg; lia).
  apply Z.div_le_lower_bound; [done|]. apply le_IZR. rewrite !mult_IZR.
  assert (HhR : (0 < IZR h)%R) by (apply IZR_lt; lia).
  assert (He : (exp (IZR a / IZR h) <= (87 / 32) ^ Z.to_nat k)%R).
  { apply exp_periods. rewrite INR_IZR_INZ, Z2Nat.id by done.
    apply Rmult_le_reg_r with (IZR h); [done|].
    replace (IZR a / IZR h * IZR h)%R with (IZR a) by (field; lra).
    rewrite <-mult_IZR. apply IZR_le. lia. }
  unfold Rdiv in He. rewrite Rpow_mult_distr, pow_inv, !pow_IZR, Z2Nat.id in He by done.
  assert (HtcR : (0 <= IZR tc)%R) by (by apply IZR_le).
  assert (H32 : (0 < IZR (32 ^ k))%R) by (by apply IZR_lt).
  generalize dependent (IZR (87 ^ k)). generalize dependent (IZR (32 ^ k)). intros q Hq r Hr.
  assert (IZR tn <= IZR tc * (r * / q))%R by nra.
  apply Rmult_le_compat_r with (r := q) in H0; [|lra].
  replace (IZR tc * (r * / q) * q)%R with (IZR tc * r)%R in H0 by (field; lra). lra.
Qed.

(** The half lives counted cover the time they are counted for, so the window of
    the next theorem holds when the interval before the checkpoint is no longer
    than the block's own. *)
Lemma half_lives_cover p d x : params_ok p → x <= d → x <= seconds (WTEMAHalfLife p) * half_lives p d.
Proof.
  intros Hp Hx. pose proof (ok_half _ Hp). unfold half_lives.
  pose proof (Z.div_mod (d + seconds (WTEMAHalfLife p) - 1) (seconds (WTEMAHalfLife p)) ltac:(lia)).
  pose proof (Z.mod_pos_bound (d + seconds (WTEMAHalfLife p) - 1) (seconds (WTEMAHalfLife p)) ltac:(lia)). lia.
Qed.

(** C26 The easiest target computed from a checkpoint bounds the retargeting, as
    far as the time that eased the targets is counted.  For a chain of retargeted
    blocks after the checkpoint, take the time that entered the retargetings: from
    the parent of the checkpoint to the parent of the last block.  If that is
    within the half lives counted since the checkpoint, the last block passes the
    test of [ProcessBlock] whatever the intervals between; so it does when the
    interval before the checkpoint is no longer than the block's own
    ([half_lives_cover]).  Without the condition there are chains that fail the
    test ([checkpoint_window_counterexample]). *)
Theorem checkpoint_target_sound {N} `{!HeaderCtx N} p (c m n : N) :
  params_ok p → checkpoint_ok p c → follows p c m → next_block p m n →
  let d := Timestamp n - Timestamp c in
  Timestamp m - base c <= seconds (WTEMAHalfLife p) * half_lives p d →
  checkpoint_target_ok p (Bits c) (d * Second) (Bits n) = Ok true.
Proof.
  intros Hp Hc Hm Hn d Hwin.
  assert (Hfn : follows p c n) by (by econstructor).
  pose proof (follows_time p c Hc m Hm) as [Hmu Hcm].
  pose proof (follows_time p c Hc n Hfn) as [Hnu Hcn].
  pose proof (cp_target _ _ Hc) as Ht. pose proof (cp_u32 _ _ Hc) as Hcu.
  assert (Hd : 0 <= d < 2 ^ 32) by (unfold d, is_u32 in *; lia).
  pose proof (half_lives_nonneg p d Hp ltac:(lia)) as Hk.
  unfold checkpoint_target_ok. rewrite calcEasiest_eq by (done || lia). cbn [mbind result_bind].
  do 2 f_equal. apply negb_true_iff, Z.ltb_ge.
  destruct (_ || _) eqn:Eeasy; [by apply (follows_limit p Hp c Hc)|].
  apply orb_false_iff in Eeasy as [Egap _].
  destruct (follows_target p Hp c Hc n Hfn) as (Hbn & Hpos & _).
  pose proof (ok_limit _ Hp) as Hl.
  assert (Hnogap : ∀ m' n', follows p c m' → next_block p m' n' → Timestamp n' <= Timestamp n →
                   gap_rule p m' (Timestamp n') = false).
  { intros m' n' Hm' Hn' Hle. pose proof (follows_time p c Hc m' Hm') as [_ ?]. unfold gap_rule.
    apply andb_false_iff in Egap as [->|Hg]; [done|]. apply Z.ltb_ge in Hg.
    rewrite (proj2 (Z.ltb_ge _ _)) by (unfold d in *; lia). apply andb_false_r. }
  pose proof (follows_growth p Hp c Hc m n Hm Hn Hnogap) as Hg.
  apply (growth_floor _ _ _ _ (half_lives p d)) in Hg; [|lia|apply (ok_half _ Hp)|done|done].
  assert (0 <= CompactToBig (Bits c) * 87 ^ half_lives p d / 32 ^ half_lives p d).
  { apply Z.div_pos; [|by apply Z.pow_pos_nonneg]. apply Z.mul_nonneg_nonneg; [lia|by apply Z.pow_nonneg]. }
  apply compact_greatest; [lia|done|].
  apply Z.min_glb; [|done].
  rewrite (next_bits_eq p Hp c Hc m n Hm Hn), (Hnogap m n) by done.
  destruct (Parent m) eqn:Ek.
  - etrans; [apply (wtema_compact_range p Hp)|]. apply compact_le. lia.
  - rewrite (follows_orphan p c m Hm Ek). apply Ht.
Qed.

(** *** Examples on nodes of the main network *)

(** The block mined [dt] seconds after [m] with the bits required of it. *)
Definition demo_next (p : Params) (m : blockNode) (dt : Z) : blockNode :=
  let t := timestamp m + dt in
  newBlockNode {| h_hash := le_put 32 t; h_version := 1; h_merkleRoot := le_put 32 0; h_timestamp := t;
                  h_bits := match calcNextRequiredDifficulty (Some m) t p with Ok b => b | _ => 0 end;
                  h_proofCommitment := le_put 32 0 |} (Some m) statusNone 0.

(** A first block of low difficulty, a checkpoint [dt] after it and blocks
    after that. *)
Definition demo_first : blockNode :=
  newBlockNode {| h_hash := le_put 32 0; h_version := 1; h_merkleRoot := le_put 32 0;
                  h_timestamp := 1700000000; h_bits := 0x1a00ffff; h_proofCommitment := le_put 32 0 |}
    None statusNone 0.
Definition demo_checkpoint (dt : Z) : blockNode := demo_next MainNetParams demo_first dt.
Definition demo_after (dt : Z) : blockNode := demo_next MainNetParams (demo_checkpoint dt) 200.

Lemma demo_parent : Parent (demo_checkpoint 500) = Some demo_first.
Proof. reflexivity. Qed.
Lemma demo_checkpoint_u32 : is_u32 (Timestamp (demo_checkpoint 500)).
Proof. by vm_compute. Qed.
Lemma demo_first_u32 : is_u32 (Timestamp demo_first).
Proof. by vm_compute. Qed.
Lemma demo_gap : gap_rule MainNetParams (demo_checkpoint 500) 1700001000 = false.
Proof. reflexivity. Qed.

Lemma calcNextRequiredDifficulty_spec_witness :
  let n := demo_checkpoint 500 in
  let bits := BigToCompact (wtema MainNetParams (CompactToBig 0x1a00ffff) 500) in
  calcNextRequiredDifficulty (Some n) 1700001000 MainNetParams = Ok bits ∧
  0 < CompactToBig bits <= PowLimit MainNetParams.
Proof.
  destruct (calcNextRequiredDifficulty_spec MainNetParams (demo_checkpoint 500) demo_first 1700001000
    main_params_ok demo_parent demo_checkpoint_u32 demo_first_u32) as [H1 H2].
  rewrite demo_gap in *. split; [exact H1|exact (proj1 (H2 eq_refl))].
Defined.

Lemma demo_checkpoint_ok : checkpoint_ok MainNetParams (demo_checkpoint 500).
Proof.
  split; [by vm_compute|by vm_compute|by vm_compute|].
  intros k [= <-]. split; by vm_compute.
Qed.

Lemma demo_next_block : next_block MainNetParams (demo_checkpoint 500) (demo_after 500).
Proof. split; by vm_compute. Qed.

Lemma demo_next_block2 : next_block MainNetParams (demo_after 500) (demo_next MainNetParams (demo_after 500) 300).
Proof. split; by vm_compute. Qed.

Lemma demo_window :
  Timestamp (demo_after 500) - base (demo_checkpoint 500) <=
  seconds (WTEMAHalfLife MainNetParams) *
    half_lives MainNetParams (Timestamp (demo_next MainNetParams (demo_after 500) 300) - Timestamp (demo_checkpoint 500)).
Proof. by vm_compute. Qed.

Lemma checkpoint_target_sound_witness :
  checkpoint_target_ok MainNetParams (bits (demo_checkpoint 500)) (500 * Second)
    (bits (demo_next MainNetParams (demo_after 500) 300)) = Ok true.
Proof.
  exact (checkpoint_target_sound MainNetParams (demo_checkpoint 500) (demo_after 500) _
    main_params_ok demo_checkpoint_ok (follows_next _ _ _ _ (follows_refl _ _) demo_next_block)
    demo_next_block2 demo_window).
Defined.

(** Without the window the test fails on a chain the retargeting asks for: the
    interval before the checkpoint, here five weeks, eases the block after the
    checkpoint, and [calcEasiestDifficulty] counts only the 200 seconds since. *)
Lemma checkpoint_window_counterexample :
  let c := demo_checkpoint (5 * 7 * 86400) in
  let n := demo_after (5 * 7 * 86400) in
  next_block MainNetParams c n ∧
  checkpoint_target_ok MainNetParams (bits c) (200 * Second) (bits n) = Ok false.
Proof. split; [split|]; by vm_compute. Qed.

(** On the regression test and simulation networks the easiest bits are not the
    compact form of the limit. *)
Lemma regression_limit_bits :
  BigToCompact (PowLimit RegressionNetParams) = 0x1e01ffff ∧ PowLimitBits RegressionNetParams = 0x1e010000.
Proof. by vm_compute. Qed.
