(* ===== verification/Subsidy.v ===== *)
(** * The block subsidy ([CalcBlockSubsidy] of blockchain/validate.go)

    The smooth emission schedule and the bound on everything it ever pays. *)
From Stdlib Require Import Lia ZArith.
From S2P Require Import Prelude Work ChainParams.

(** ** Definitions *)

Definition GrainPerPearl : Z := 100000000.
Definition totalSupply : Z := 2100000000 * GrainPerPearl.
Definition defaultEmissionConstant : Z := 650226.

Definition emissionConstant (chainParams : option Params) : result Empty_set Z :=
  match chainParams with
  | Some p =>
      if 0 <? TargetTimePerBlock p
      then i64_div (4 * 365 * 24 * 60 * 60) (seconds (TargetTimePerBlock p))
      else Ok defaultEmissionConstant
  | None => Ok defaultEmissionConstant
  end.

Definition CalcBlockSubsidy (height : Z) (chainParams : option Params) : result Empty_set Z :=
  if height =? 0 then Ok 0
  else
    emissionConstant ← emissionConstant chainParams;
    let h := height in
    let numerator := totalSupply * emissionConstant in
    let denominator := i64 (h + emissionConstant) * i64 (i64 (h - 1) + emissionConstant) in
    subsidy ← big_div numerator denominator;
    Ok (i64 subsidy).

(** ** The schedule *)

(** The subsidy without machine arithmetic, for an emission constant [c]. *)
Definition emission (c h : Z) : Z := totalSupply * c / ((h + c) * (h - 1 + c)).

(** A schedule has an emission constant that fits the arithmetic. *)
Definition schedule (chainParams : option Params) (c : Z) : Prop :=
  emissionConstant chainParams = Ok c ∧ 0 < c < 2 ^ 32.

Lemma main_schedule : schedule (Some MainNetParams) 650226.
Proof. by split. Qed.

Lemma emission_nonneg c h : 0 < c → 1 <= h → 0 <= emission c h.
Proof. intros. apply Z.div_pos; [unfold totalSupply, GrainPerPearl|]; nia. Qed.

Lemma emission_le_supply c h : 0 < c → 1 <= h → emission c h <= totalSupply.
Proof.
  intros. apply Z.div_le_upper_bound; [nia|].
  assert (0 < totalSupply) by done. assert (c <= (h + c) * (h - 1 + c)) by nia. nia.
Qed.

Lemma CalcBlockSubsidy_eq p c h :
  schedule p c → 1 <= h < 2 ^ 31 → CalcBlockSubsidy h p = Ok (emission c h).
Proof.
  intros [Hc Hr] Hh. unfold CalcBlockSubsidy. rewrite (proj2 (Z.eqb_neq _ _)), Hc by lia.
  cbn [mbind result_bind]. rewrite (i64_small (h - 1)) by (unfold is_i64; lia).
  rewrite (i64_small (h + c)), (i64_small (h - 1 + c)) by (unfold is_i64; lia).
  unfold big_div. rewrite (proj2 (Z.eqb_neq _ _)), (proj2 (Z.ltb_lt _ _)) by nia.
  cbn [mbind result_bind]. fold (emission c h). f_equal. apply i64_small.
  pose proof (emission_nonneg c h ltac:(lia) ltac:(lia)).
  pose proof (emission_le_supply c h ltac:(lia) ltac:(lia)).
  unfold is_i64, totalSupply, GrainPerPearl in *. lia.
Qed.

Lemma emission_antitone c h : 0 < c → 1 <= h → emission c (h + 1) <= emission c h.
Proof. intros. apply Z.div_le_compat_l; [unfold totalSupply, GrainPerPearl|]; nia. Qed.

(** What the blocks up to height [n] are paid. *)
Fixpoint emitted (c : Z) (n : nat) : Z :=
  match n with
  | O => 0
  | S k => emitted c k + emission c (Z.of_nat (S k))
  end.

Lemma emitted_bound c n : 0 < c → (Z.of_nat n + c) * emitted c n <= totalSupply * Z.of_nat n.
Proof.
  intros Hc. induction n as [|n IH]; [cbn; lia|]. cbn [emitted]. rewrite Nat2Z.inj_succ in *.
  set (k := Z.of_nat n) in *. assert (0 <= k) by (unfold k; lia). clearbody k.
  unfold emission. set (q := _ / _).
  assert (Hq : (Z.succ k + c) * (k + c) * q <= totalSupply * c).
  { unfold q. replace (Z.succ k - 1 + c) with (k + c) by lia. apply Z.mul_div_le. nia. }
  clearbody q. generalize dependent (emitted c n). intros e IH.
  generalize dependent totalSupply. intros s IH Hq. 
  apply (Z.mul_le_mono_pos_l _ _ (k + c)); [lia|]. nia.
Qed.

(** The rounding loses less than a grain a block. *)
Lemma emitted_lower c n : 0 < c → totalSupply * Z.of_nat n <= (Z.of_nat n + c) * (emitted c n + Z.of_nat n).
Proof.
  intros Hc. induction n as [|n IH]; [cbn; lia|]. cbn [emitted]. rewrite Nat2Z.inj_succ in *.
  set (k := Z.of_nat n) in *. assert (0 <= k) by (unfold k; lia). clearbody k.
  unfold emission. set (q := _ / _).
  assert (Hq : totalSupply * c < (Z.succ k + c) * (k + c) * (q + 1)).
  { unfold q. replace (Z.succ k - 1 + c) with (k + c) by lia.
    pose proof (Z.mul_succ_div_gt (totalSupply * c) ((Z.succ k + c) * (k + c)) ltac:(nia)). lia. }
  clearbody q. generalize dependent (emitted c n). intros e IH.
  generalize dependent totalSupply. intros s IH Hq.
  apply (Z.mul_le_mono_pos_l _ _ (k + c)); [lia|]. nia.
Qed.

(** C18 With an emission constant [c] the subsidy of every height from 1 on is
    [totalSupply * c / ((h + c) * (h - 1 + c))], it never grows, and the blocks
    up to height [n] are together paid at most [totalSupply * n / (n + c)],
    less than the total supply, and short of that by less than a grain a
    block. *)
Theorem CalcBlockSubsidy_supply p c :
  schedule p c →
  (∀ h, 1 <= h < 2 ^ 31 → CalcBlockSubsidy h p = Ok (emission c h) ∧
     0 <= emission c h ∧ emission c (h + 1) <= emission c h) ∧
  CalcBlockSubsidy 0 p = Ok 0 ∧
  ∀ n, emitted c n <= totalSupply * Z.of_nat n / (Z.of_nat n + c) ∧
       emitted c n < totalSupply ∧
       totalSupply * Z.of_nat n / (Z.of_nat n + c) <= emitted c n + Z.of_nat n.
Proof.
  intros Hs. pose proof Hs as [_ Hc]. split_and!; [|done|].
  - intros h Hh. split_and!; [by apply CalcBlockSubsidy_eq|apply emission_nonneg; lia|apply emission_antitone; lia].
  - intros n. pose proof (emitted_bound c n ltac:(lia)). pose proof (emitted_lower c n ltac:(lia)).
    assert (0 < totalSupply) by done. split_and!.
    + apply Z.div_le_lower_bound; lia.
    + nia.
    + apply Z.div_le_upper_bound; lia.
Qed.

Lemma CalcBlockSubsidy_supply_witness :
  CalcBlockSubsidy 1 (Some MainNetParams) = Ok (emission 650226 1) ∧ ∀ n, emitted 650226 n < totalSupply.
Proof.
  destruct (CalcBlockSubsidy_supply (Some MainNetParams) 650226 main_schedule) as (H1 & _ & H2).
  split; [exact (proj1 (H1 1 ltac:(lia)))|intros n; apply H2].
Defined.

(** A target time below a second divides by zero. *)
Lemma CalcBlockSubsidy_panics p h :
  h ≠ 0 → 0 < TargetTimePerBlock p < Second → CalcBlockSubsidy h (Some p) = Panic.
Proof.
  intros Hh Ht. unfold CalcBlockSubsidy. rewrite (proj2 (Z.eqb_neq _ _)) by done.
  unfold emissionConstant. rewrite (proj2 (Z.ltb_lt _ _)) by lia.
  assert (seconds (TargetTimePerBlock p) = 0) as -> by (unfold seconds; apply Z.quot_small; lia). done.
Qed.
