(* ===== verification/RuleError.v ===== *)
(** * Rule errors ([blockchain/error.go])

    The codes of the consensus rules, in the order of the source.  A [RuleError]
    carries a code and a description; the description is only for humans and is
    left out. *)
From stdpp Require Import strings.
From S2P Require Import Prelude ScriptError.

Inductive RuleErrorCode :=
  | ErrDuplicateBlock | ErrBlockTooBig | ErrBlockVersionTooOld | ErrInvalidTime
  | ErrTimeTooOld | ErrTimeTooNew | ErrDifficultyTooLow | ErrUnexpectedDifficulty
  | ErrHighHash | ErrCertificateTooLarge | ErrCertificateMissing
  | ErrDisallowedCertVersion | ErrBadMerkleRoot | ErrBadCheckpoint | ErrForkTooOld
  | ErrCheckpointTimeTooOld | ErrNoTransactions | ErrNoTxInputs | ErrNoTxOutputs
  | ErrTxTooBig | ErrBadTxOutValue | ErrDuplicateTxInputs | ErrBadTxInput
  | ErrMissingTxOut | ErrUnfinalizedTx | ErrDuplicateTx | ErrOverwriteTx
  | ErrImmatureSpend | ErrSpendTooHigh | ErrBadFees | ErrInsufficientFee
  | ErrFirstTxNotCoinbase | ErrMultipleCoinbases | ErrBadCoinbaseScriptLen
  | ErrBadCoinbaseValue | ErrMissingCoinbaseHeight | ErrBadCoinbaseHeight
  | ErrScriptMalformed | ErrScriptValidation | ErrUnexpectedWitness
  | ErrInvalidWitnessCommitment | ErrWitnessCommitmentMismatch | ErrPreviousBlockUnknown
  | ErrInvalidAncestorBlock | ErrPrevBlockNotBest | ErrTimewarpAttack | ErrRankPenalty.

(** The errors of the package: a broken rule, an internal inconsistency
    ([AssertError]), bytes of the database that do not parse ([errDeserialize],
    which its readers turn into [database.ErrCorruption]), an error of the
    script package passed through, or a block the database does not have. *)
Inductive RuleErr :=
| ruleError (c : RuleErrorCode)
| assertError (what : string)
| errDeserialize (what : string)
| ErrCorruption (what : string)
| scriptFailure (e : ScriptErr)
| ErrBlockNotFound.

#[global] Instance RuleErrorCode_eq_dec : EqDecision RuleErrorCode.
Proof. solve_decision. Defined.
#[global] Instance RuleErr_eq_dec : EqDecision RuleErr.
Proof. solve_decision. Defined.

(** A result whose error is one of the script package. *)
Definition lift_script {A} (r : result ScriptErr A) : result RuleErr A :=
  match r with Ok a => Ok a | Fail e => Fail (scriptFailure e) | Panic => Panic end.
