(* ===== verification/Compress.v ===== *)
(** * Compact storage of outputs (blockchain/compress.go)

    Variable length quantities, and the compression of amounts, scripts and
    outputs in the database.  The writers fill a buffer the caller has sized;
    writing past its end panics, so the size functions are part of what is
    proved. *)
From stdpp Require Import strings.
From Stdlib Require Import Lia ZArith.
From S2P Require Import Prelude MsgTx Opcode ScriptNum Standard RuleError.

(** ** Buffers *)

(** [l[i] = x] *)
Definition go_set {E A} (l : list A) (i : Z) (x : A) : result E (list A) :=
  if (0 <=? i) && (i <? zlen l) then Ok (<[Z.to_nat i := x]> l) else Panic.

(** [f(target[offset:])] for an [f] that writes to its argument. *)
Definition on_tail {E A} (target : bytes) (offset : Z) (f : bytes → result E (bytes * A))
    : result E (bytes * A) :=
  tail ← go_slice target offset (zlen target);
  '(tail, a) ← f tail;
  Ok (take (Z.to_nat offset) target ++ tail, a).

(** [copy(target[lo:hi], src)] *)
Definition copy_range {E} (target : bytes) (lo hi : Z) (src : bytes) : result E bytes :=
  _ ← go_slice target lo hi;
  Ok (copy_at target lo (take (Z.to_nat (hi - lo)) src)).

(** ** Variable length quantities *)

Fixpoint serializeSizeVLQ_loop (fuel : nat) (n size : Z) : Z :=
  match fuel with
  | O => size
  | S fuel => if 0x7f <? n then serializeSizeVLQ_loop fuel (u64 (Z.shiftr n 7 - 1)) (size + 1) else size
  end.

(** Ten groups of seven bits hold 64 bits. *)
Definition vlq_fuel : nat := 10.

Definition serializeSizeVLQ (n : Z) : Z := serializeSizeVLQ_loop vlq_fuel n 1.

Fixpoint putVLQ_loop {E} (fuel : nat) (offset : Z) (target : bytes) (n : Z)
    : result E (bytes * Z) :=
  match fuel with
  | O => Panic
  | S fuel =>
      let highBitMask := if offset =? 0 then 0x00 else 0x80 in
      target ← go_set target offset (z2b (Z.lor (u8 (Z.land n 0x7f)) highBitMask));
      if n <=? 0x7f then Ok (target, offset)
      else putVLQ_loop fuel (offset + 1) target (u64 (Z.shiftr n 7 - 1))
  end.

Fixpoint reverse_loop {E} (fuel : nat) (i j : Z) (target : bytes) : result E bytes :=
  match fuel with
  | O => Ok target
  | S fuel =>
      if i <? j then
        ti ← go_index target i;
        tj ← go_index target j;
        target ← go_set target i tj;
        target ← go_set target j ti;
        reverse_loop fuel (i + 1) (j - 1) target
      else Ok target
  end.

Definition putVLQ {E} (target : bytes) (n : Z) : result E (bytes * Z) :=
  '(target, offset) ← putVLQ_loop vlq_fuel 0 target n;
  target ← reverse_loop (Z.to_nat offset) 0 offset target;
  Ok (target, offset + 1).

Fixpoint deserializeVLQ_loop (serialized : bytes) (n size : Z) : Z * Z :=
  match serialized with
  | [] => (n, size)
  | val :: serialized =>
      let size := size + 1 in
      let n := Z.lor (u64 (Z.shiftl n 7)) (Z.land (b2z val) 0x7f) in
      if negb (Z.land (b2z val) 0x80 =? 0x80) then (n, size)
      else deserializeVLQ_loop serialized (u64 (n + 1)) size
  end.

Definition deserializeVLQ (serialized : bytes) : Z * Z := deserializeVLQ_loop serialized 0 0.

(** ** Scripts *)

Definition cstPayToPubKeyHash : Z := 0.
Definition cstPayToScriptHash : Z := 1.
Definition cstPayToPubKeyComp2 : Z := 2.
Definition cstPayToPubKeyComp3 : Z := 3.
Definition cstPayToPubKeyUncomp4 : Z := 4.
Definition cstPayToPubKeyUncomp5 : Z := 5.
Definition numSpecialScripts : Z := 6.

(** Keys in the formats the scripts hold: [ParsePubKey] reads a compressed or an
    uncompressed key, and a key read from its uncompressed form is read from
    the x coordinate and the parity of y as well. *)
Class PubKeyFormats := {
  CurveKey : Type;
  btcec_ParsePubKey : bytes → option CurveKey;
  SerializeUncompressed : CurveKey → bytes;
  parse_compressed_of x y k :
    zlen x = 32 → zlen y = 32 → btcec_ParsePubKey (x04 :: x ++ y) = Some k →
    ∃ k', btcec_ParsePubKey (z2b (2 + Z.land (b2z (default x00 (last y))) 1) :: x) = Some k' ∧
          SerializeUncompressed k' = x04 :: x ++ y
}.

Definition isPubKeyHash (script : bytes) : bool * bytes :=
  if (zlen script =? 25) && byte_is script 0 OP_DUP && byte_is script 1 OP_HASH160 &&
     byte_is script 2 OP_DATA_20 && byte_is script 23 OP_EQUALVERIFY &&
     byte_is script 24 OP_CHECKSIG
  then (true, slice script 3 23) else (false, []).

Definition isScriptHash (script : bytes) : bool * bytes :=
  if (zlen script =? 23) && byte_is script 0 OP_HASH160 && byte_is script 1 OP_DATA_20 &&
     byte_is script 22 OP_EQUAL
  then (true, slice script 2 22) else (false, []).

Section scripts.
Context `{PubKeyFormats}.

Definition isPubKey (script : bytes) : bool * bytes :=
  let uncompressed :=
    if (zlen script =? 67) && byte_is script 0 OP_DATA_65 && byte_is script 66 OP_CHECKSIG &&
       byte_is script 1 0x04
    then
      let serializedPubKey := slice script 1 66 in
      if bool_decide (is_Some (btcec_ParsePubKey serializedPubKey))
      then (true, serializedPubKey) else (false, [])
    else (false, []) in
  if (zlen script =? 35) && byte_is script 0 OP_DATA_33 && byte_is script 34 OP_CHECKSIG &&
     (byte_is script 1 0x02 || byte_is script 1 0x03)
  then
    let serializedPubKey := slice script 1 34 in
    if bool_decide (is_Some (btcec_ParsePubKey serializedPubKey))
    then (true, serializedPubKey) else uncompressed
  else uncompressed.

Definition compressedScriptSize (pkScript : bytes) : Z :=
  if (isPubKeyHash pkScript).1 then 21
  else if (isScriptHash pkScript).1 then 21
  else if (isPubKey pkScript).1 then 33
  else serializeSizeVLQ (u64 (zlen pkScript + numSpecialScripts)) + zlen pkScript.

Definition decodeCompressedScriptSize (serialized : bytes) : Z :=
  let '(scriptSize, bytesRead) := deserializeVLQ serialized in
  if bytesRead =? 0 then 0
  else if (scriptSize =? cstPayToPubKeyHash) || (scriptSize =? cstPayToScriptHash) then 21
  else if (scriptSize =? cstPayToPubKeyComp2) || (scriptSize =? cstPayToPubKeyComp3) ||
          (scriptSize =? cstPayToPubKeyUncomp4) || (scriptSize =? cstPayToPubKeyUncomp5) then 33
  else i64 (u64 (u64 (scriptSize - numSpecialScripts) + bytesRead)).

Definition putCompressedScript {E} (target pkScript : bytes) : result E (bytes * Z) :=
  let '(pkh, hash) := isPubKeyHash pkScript in
  let '(sh, shash) := isScriptHash pkScript in
  let '(pk, serializedPubKey) := isPubKey pkScript in
  let general :=
    let encodedSize := u64 (zlen pkScript + numSpecialScripts) in
    '(target, vlqSizeLen) ← putVLQ target encodedSize;
    target ← copy_range target vlqSizeLen (zlen target) pkScript;
    Ok (target, vlqSizeLen + zlen pkScript) in
  if pkh then
    target ← go_set target 0 (z2b cstPayToPubKeyHash);
    target ← copy_range target 1 21 hash;
    Ok (target, 21)
  else if sh then
    target ← go_set target 0 (z2b cstPayToScriptHash);
    target ← copy_range target 1 21 shash;
    Ok (target, 21)
  else if pk then
    pubKeyFormat ← go_index serializedPubKey 0;
    if (b2z pubKeyFormat =? 0x02) || (b2z pubKeyFormat =? 0x03) then
      target ← go_set target 0 pubKeyFormat;
      key ← go_slice serializedPubKey 1 33;
      target ← copy_range target 1 33 key;
      Ok (target, 33)
    else if b2z pubKeyFormat =? 0x04 then
      oddness ← go_index serializedPubKey 64;
      target ← go_set target 0 (z2b (Z.lor (b2z pubKeyFormat) (Z.land (b2z oddness) 0x01)));
      key ← go_slice serializedPubKey 1 33;
      target ← copy_range target 1 33 key;
      Ok (target, 33)
    else general
  else general.

Definition op_byte (o : Z) : byte := z2b o.

Definition decompressScript {E} (compressedPkScript : bytes) : result E bytes :=
  if zlen compressedPkScript =? 0 then Ok []
  else
    let '(encodedScriptSize, bytesRead) := deserializeVLQ compressedPkScript in
    if encodedScriptSize =? cstPayToPubKeyHash then
      hash ← go_slice compressedPkScript bytesRead (bytesRead + 20);
      Ok ([op_byte OP_DUP; op_byte OP_HASH160; op_byte OP_DATA_20] ++ hash ++ [op_byte OP_EQUALVERIFY; op_byte OP_CHECKSIG])
    else if encodedScriptSize =? cstPayToScriptHash then
      hash ← go_slice compressedPkScript bytesRead (bytesRead + 20);
      Ok ([op_byte OP_HASH160; op_byte OP_DATA_20] ++ hash ++ [op_byte OP_EQUAL])
    else if (encodedScriptSize =? cstPayToPubKeyComp2) || (encodedScriptSize =? cstPayToPubKeyComp3) then
      key ← go_slice compressedPkScript bytesRead (bytesRead + 32);
      Ok ([op_byte OP_DATA_33; z2b encodedScriptSize] ++ key ++ [op_byte OP_CHECKSIG])
    else if (encodedScriptSize =? cstPayToPubKeyUncomp4) || (encodedScriptSize =? cstPayToPubKeyUncomp5) then
      rest ← go_slice compressedPkScript 1 (zlen compressedPkScript);
      let compressedKey := z2b (u64 (encodedScriptSize - 2)) :: copy_at (replicate 32 x00) 0 rest in
      match btcec_ParsePubKey compressedKey with
      | None => Ok []
      | Some key =>
          Ok (op_byte OP_DATA_65 :: copy_at (replicate 65 x00) 0 (SerializeUncompressed key) ++ [op_byte OP_CHECKSIG])
      end
    else
      let scriptSize := i64 (u64 (encodedScriptSize - numSpecialScripts)) in
      if scriptSize <? 0 then Panic
      else go_slice compressedPkScript bytesRead (i64 (bytesRead + scriptSize)).

(** ** Amounts *)

Fixpoint compress_loop (fuel : nat) (amount exponent : Z) : Z * Z :=
  match fuel with
  | O => (amount, exponent)
  | S fuel =>
      if (amount mod 10 =? 0) && (exponent <? 9)
      then compress_loop fuel (amount / 10) (exponent + 1)
      else (amount, exponent)
  end.

(** The exponent is below ten. *)
Definition compressTxOutAmount (amount : Z) : Z :=
  if amount =? 0 then 0
  else
    let '(amount, exponent) := compress_loop 10 amount 0 in
    if exponent <? 9 then
      let lastDigit := amount mod 10 in
      let amount := amount / 10 in
      u64 (1 + 10 * (9 * amount + lastDigit - 1) + exponent)
    else u64 (10 + 10 * (amount - 1)).

Fixpoint decompress_loop (exponent : nat) (n : Z) : Z :=
  match exponent with
  | O => n
  | S exponent => decompress_loop exponent (u64 (n * 10))
  end.

Definition decompressTxOutAmount (amount : Z) : Z :=
  if amount =? 0 then 0
  else
    let amount := amount - 1 in
    let exponent := amount mod 10 in
    let amount := amount / 10 in
    let n :=
      if exponent <? 9 then
        let lastDigit := amount mod 9 + 1 in
        let amount := amount / 9 in
        u64 (amount * 10 + lastDigit)
      else u64 (amount + 1) in
    decompress_loop (Z.to_nat exponent) n.

(** ** Outputs *)

Definition compressedTxOutSize (amount : Z) (pkScript : bytes) : Z :=
  serializeSizeVLQ (compressTxOutAmount amount) + compressedScriptSize pkScript.

Definition putCompressedTxOut {E} (target : bytes) (amount : Z) (pkScript : bytes)
    : result E (bytes * Z) :=
  '(target, offset) ← putVLQ target (compressTxOutAmount amount);
  '(target, n) ← on_tail target offset (λ tail, putCompressedScript tail pkScript);
  Ok (target, offset + n).

Definition decodeCompressedTxOut (serialized : bytes) : result RuleErr (Z * bytes * Z) :=
  let '(compressedAmount, bytesRead) := deserializeVLQ serialized in
  if zlen serialized <=? bytesRead
  then Fail (errDeserialize "unexpected end of data after compressed amount")
  else
    tail ← go_slice serialized bytesRead (zlen serialized);
    let scriptSize := decodeCompressedScriptSize tail in
    if zlen tail <? scriptSize
    then Fail (errDeserialize "unexpected end of data after script size")
    else
      let amount := decompressTxOutAmount compressedAmount in
      compressed ← go_slice serialized bytesRead (i64 (bytesRead + scriptSize));
      script ← decompressScript compressed;
      Ok (amount, script, bytesRead + scriptSize).
End scripts.

(** *** The encoding as a list *)

(** The groups before the last one, all with the high bit. *)
Fixpoint vlq_high (fuel : nat) (n : Z) : bytes :=
  match fuel with
  | O => []
  | S fuel =>
      (if n <=? 0x7f then [] else vlq_high fuel (n / 128 - 1)) ++ [z2b (n mod 128 + 128)]
  end.

Definition vlq (n : Z) : bytes :=
  (if n <=? 0x7f then [] else vlq_high 9 (n / 128 - 1)) ++ [z2b (n mod 128)].

(** Integers of at most [k] groups are below [cap k]. *)
Fixpoint cap (k : nat) : Z := match k with O => 0 | S k => 128 * (cap k + 1) end.

(** ** Lemmas *)

Lemma go_set_mid {E A} (l : list A) x y k n :
  n = zlen l → go_set (E:=E) (l ++ x :: k) n y = Ok (l ++ y :: k).
Proof.
  intros ->. unfold go_set. pose proof (zlen_nonneg l). pose proof (zlen_nonneg k).
  rewrite (proj2 (andb_true_iff _ _)) by (rewrite zlen_app, zlen_cons; lia).
  by rewrite to_nat_zlen, insert_app_r_alt, Nat.sub_diag by lia.
Qed.

Lemma on_tail_ok {E A} pre tail tail' (a : A) f offset :
  offset = zlen pre → f tail = Ok (tail', a) →
  on_tail (E:=E) (pre ++ tail) offset f = Ok (pre ++ tail', a).
Proof.
  intros -> Hf. unfold on_tail. rewrite go_slice_tail by (rewrite ?zlen_app; lia).
  cbn [mbind result_bind]. rewrite Hf. cbn [mbind result_bind].
  by rewrite to_nat_zlen, take_app_length.
Qed.

Lemma copy_range_mid {E} pre mid post src lo hi :
  lo = zlen pre → hi = lo + zlen mid → zlen src = zlen mid →
  copy_range (E:=E) (pre ++ mid ++ post) lo hi src = Ok (pre ++ src ++ post).
Proof.
  intros -> -> Hs. unfold copy_range. rewrite (go_slice_at pre mid post) by lia.
  cbn [mbind result_bind]. f_equal.
  pose proof (zlen_nonneg pre). pose proof (zlen_nonneg post).
  replace (Z.to_nat (zlen pre + zlen mid - zlen pre)) with (length src) by (unfold zlen in *; lia).
  rewrite firstn_all, copy_at_spec by (rewrite ?zlen_app; lia).
  rewrite to_nat_zlen, take_app_length. f_equal. f_equal.
  rewrite (assoc_L (++)), Hs, <-zlen_app, to_nat_zlen. apply drop_app_length.
Qed.

Lemma div_mod_128 n : n = 128 * (n / 128) + n mod 128 ∧ 0 <= n mod 128 < 128.
Proof. split; [apply Z.div_mod; lia|apply Z.mod_pos_bound; lia]. Qed.

Lemma vlq_next n : 127 < n < 2 ^ 64 → u64 (Z.shiftr n 7 - 1) = n / 128 - 1.
Proof. intros Hn. rewrite Z.shiftr_div_pow2 by lia. change (2 ^ 7) with 128. apply u64_small. pose proof (div_mod_128 n). lia. Qed.

Lemma vlq_byte n : 0 <= n →
  z2b (Z.lor (u8 (Z.land n 0x7f)) 0) = z2b (n mod 128) ∧
  z2b (Z.lor (u8 (Z.land n 0x7f)) 0x80) = z2b (n mod 128 + 128).
Proof.
  intros Hn. pose proof (div_mod_128 n) as [_ Hm].
  change 0x7f with (Z.ones 7). rewrite Z.land_ones by lia. change (2 ^ 7) with 128.
  rewrite u8_small by lia. split; [by rewrite Z.lor_0_r|].
  f_equal. apply (lor_shiftl (n mod 128) 1 7); lia.
Qed.

Lemma vlq_vlq_high n : vlq n = (if n <=? 0x7f then [] else vlq_high 9 (n / 128 - 1)) ++ [z2b (n mod 128)].
Proof. done. Qed.

Lemma vlq_pos n : 0 < zlen (vlq n).
Proof.
  rewrite vlq_vlq_high, zlen_snoc.
  pose proof (zlen_nonneg (if n <=? 0x7f then [] else vlq_high 9 (n / 128 - 1))). lia.
Qed.

Lemma zlen_vlq n : zlen (vlq n) = zlen (vlq_high 10 n).
Proof. rewrite vlq_vlq_high. cbn [vlq_high]. by rewrite !zlen_snoc. Qed.

Lemma size_loop k n s :
  0 <= n < cap k → n < 2 ^ 64 → serializeSizeVLQ_loop k n s = s + zlen (vlq_high k n) - 1.
Proof.
  revert n s. induction k as [|k IH]; intros n s Hn H64; cbn [cap] in Hn; [lia|].
  pose proof (div_mod_128 n) as [Hd Hm'].
  cbn [serializeSizeVLQ_loop vlq_high]. rewrite zlen_snoc.
  destruct (Z.ltb_spec 0x7f n); [|rewrite (proj2 (Z.leb_le _ _)), zlen_nil by lia; lia].
  rewrite (proj2 (Z.leb_gt _ _)), vlq_next, IH by lia. lia.
Qed.

Lemma serializeSizeVLQ_length n : is_u64 n → serializeSizeVLQ n = zlen (vlq n).
Proof.
  unfold is_u64. intros Hn. unfold serializeSizeVLQ, vlq_fuel. assert (2 ^ 64 < cap 10) by done.
  rewrite size_loop, zlen_vlq by lia. lia.
Qed.

Lemma put_loop {E} k n pre mid post :
  0 <= n < cap k → n < 2 ^ 64 → 0 < zlen pre → zlen mid = zlen (vlq_high k n) →
  putVLQ_loop (E:=E) k (zlen pre) (pre ++ mid ++ post) n =
    Ok (pre ++ reverse (vlq_high k n) ++ post, zlen pre + zlen mid - 1).
Proof.
  revert n pre mid. induction k as [|k IH]; intros n pre mid Hn H64 Hp; cbn [cap] in Hn; [lia|].
  pose proof (div_mod_128 n) as [Hd Hm'].
  cbn [putVLQ_loop vlq_high]. rewrite zlen_snoc. destruct mid as [|x mid].
  { rewrite zlen_nil. pose proof (zlen_nonneg (if n <=? 0x7f then [] else vlq_high k (n / 128 - 1))). lia. }
  rewrite zlen_cons. intros Hm. rewrite (proj2 (Z.eqb_neq (zlen pre) 0)) by lia.
  rewrite <-app_comm_cons, go_set_mid by done. cbn [mbind result_bind].
  rewrite (proj2 (vlq_byte n ltac:(lia))), reverse_snoc.
  destruct (Z.leb_spec n 0x7f).
  - rewrite zlen_nil in Hm. rewrite (zlen_0 mid), zlen_nil by lia. cbn [app reverse rev_append].
    do 2 f_equal. lia.
  - rewrite vlq_next by lia.
    replace (pre ++ z2b (n mod 128 + 128) :: mid ++ post)
      with ((pre ++ [z2b (n mod 128 + 128)]) ++ mid ++ post) by by rewrite <-app_assoc.
    replace (zlen pre + 1) with (zlen (pre ++ [z2b (n mod 128 + 128)])) by by rewrite zlen_snoc.
    rewrite IH by (rewrite ?zlen_snoc; lia). rewrite zlen_snoc, <-app_assoc. do 2 f_equal. lia.
Qed.

Lemma reverse_loop_ok {E} fuel pre mid post :
  (length mid <= 2 * fuel + 1)%nat →
  reverse_loop (E:=E) fuel (zlen pre) (zlen pre + zlen mid - 1) (pre ++ mid ++ post) =
    Ok (pre ++ reverse mid ++ post).
Proof.
  revert pre mid post. induction fuel as [|fuel IH]; intros pre mid post Hf; cbn [reverse_loop].
  { destruct mid as [|x [|y mid]]; [| |cbn in Hf; lia]; by rewrite ?reverse_singleton. }
  destruct mid as [|x mid]; [rewrite zlen_nil, (proj2 (Z.ltb_ge _ _)) by lia; done|].
  destruct mid as [|y mid _] using rev_ind.
  { rewrite zlen_cons, zlen_nil, (proj2 (Z.ltb_ge _ _)) by lia. by rewrite reverse_singleton. }
  rewrite zlen_cons, zlen_snoc. pose proof (zlen_nonneg mid).
  rewrite (proj2 (Z.ltb_lt _ _)) by lia.
  rewrite <-!app_comm_cons, (go_index_mid _ _ _ (zlen pre)) by done. cbn [mbind result_bind].
  rewrite <-app_assoc. cbn [app].
  assert (∀ z, pre ++ z :: mid ++ y :: post = (pre ++ z :: mid) ++ y :: post) as Hs
    by (intros; by rewrite <-app_assoc).
  rewrite Hs, (go_index_mid (pre ++ x :: mid)) by (rewrite zlen_app, zlen_cons; lia).
  cbn [mbind result_bind]. rewrite <-Hs, go_set_mid by done. cbn [mbind result_bind].
  rewrite Hs, go_set_mid by (rewrite zlen_app, zlen_cons; lia). cbn [mbind result_bind].
  replace ((pre ++ y :: mid) ++ x :: post) with ((pre ++ [y]) ++ mid ++ (x :: post))
    by (rewrite <-!app_assoc; done).
  replace (zlen pre + 1) with (zlen (pre ++ [y])) by by rewrite zlen_snoc.
  replace (zlen pre + (1 + (zlen mid + 1)) - 1 - 1) with (zlen (pre ++ [y]) + zlen mid - 1)
    by (rewrite zlen_snoc; lia).
  rewrite IH by (cbn in Hf; rewrite length_app in Hf; cbn in Hf; lia).
  rewrite reverse_cons, reverse_snoc, <-!app_assoc. done.
Qed.

Lemma putVLQ_loop_S {E} k offset target n :
  putVLQ_loop (E:=E) (S k) offset target n =
    (let highBitMask := if offset =? 0 then 0x00 else 0x80 in
     target ← go_set target offset (z2b (Z.lor (u8 (Z.land n 0x7f)) highBitMask));
     if n <=? 0x7f then Ok (target, offset)
     else putVLQ_loop k (offset + 1) target (u64 (Z.shiftr n 7 - 1))).
Proof. done. Qed.

(** [putVLQ] writes the encoding at the front of a buffer with room for it. *)
Lemma putVLQ_ok {E} n target :
  is_u64 n → zlen (vlq n) <= zlen target →
  putVLQ (E:=E) target n = Ok (vlq n ++ drop (length (vlq n)) target, zlen (vlq n)).
Proof.
  unfold is_u64. intros Hn Ht. assert (2 ^ 64 < cap 10) by done.
  rewrite <-(take_drop (length (vlq n)) target) at 1. set (post := drop _ target).
  assert (zlen (take (length (vlq n)) target) = zlen (vlq n)) as Hl
    by (unfold zlen in *; rewrite length_take; lia).
  generalize dependent (take (length (vlq n)) target). intros mid Hl. clearbody post. clear Ht.
  destruct mid as [|x mid]; [rewrite zlen_nil in Hl; pose proof (vlq_pos n); lia|].
  assert (putVLQ_loop (E:=E) vlq_fuel 0 ((x :: mid) ++ post) n =
    Ok (reverse (vlq n) ++ post, zlen (vlq n) - 1)) as E1.
  { change vlq_fuel with (S 9). rewrite putVLQ_loop_S, <-app_comm_cons. cbv zeta.
    rewrite (go_set_mid (E:=E) [] x _ (mid ++ post) 0 eq_refl :
      go_set (x :: mid ++ post) 0 _ = Ok (_ :: mid ++ post)).
    cbn [mbind result_bind app Z.eqb]. rewrite (proj1 (vlq_byte n ltac:(lia))). rewrite vlq_vlq_high in Hl |- *.
    rewrite zlen_snoc, zlen_cons in Hl. rewrite reverse_snoc, zlen_snoc.
    destruct (Z.leb_spec n 0x7f).
    - rewrite zlen_nil in Hl. rewrite (zlen_0 mid) by lia. done.
    - rewrite vlq_next by lia. pose proof (div_mod_128 n).
      assert (n / 128 - 1 < cap 9) by (change (cap 10) with (128 * (cap 9 + 1)) in *; lia).
      pose proof (put_loop (E:=E) 9 (n / 128 - 1) [z2b (n mod 128)] mid post
        ltac:(lia) ltac:(lia) ltac:(by cbn) ltac:(lia)) as E1.
      change (zlen [z2b (n mod 128)]) with 1 in E1. cbn [app] in E1.
      change (0 + 1) with 1. rewrite E1. do 2 f_equal. lia. }
  unfold putVLQ. rewrite E1. cbn [mbind result_bind].
  pose proof (vlq_pos n).
  pose proof (reverse_loop_ok (E:=E) (Z.to_nat (zlen (vlq n) - 1)) [] (reverse (vlq n)) post) as E2.
  rewrite zlen_nil in E2. cbn [app] in E2.
  replace (0 + zlen (reverse (vlq n)) - 1) with (zlen (vlq n) - 1) in E2 by (unfold zlen; rewrite length_reverse; lia).
  rewrite E2, reverse_involutive by (rewrite length_reverse; unfold zlen in *; lia).
  cbn [mbind result_bind]. do 2 f_equal. lia.
Qed.

(** *** Decoding *)

Lemma vlq_step n b :
  0 <= n → n * 128 < 2 ^ 64 →
  Z.lor (u64 (Z.shiftl n 7)) (Z.land (b2z b) 0x7f) = n * 128 + b2z b mod 128.
Proof.
  intros Hn Hb. pose proof (div_mod_128 (b2z b)).
  rewrite land_7f, Z.shiftl_mul_pow2, u64_small by lia.
  rewrite <-Z.shiftl_mul_pow2, Z.lor_comm, lor_shiftl by lia. lia.
Qed.

Lemma high_bit b : negb (Z.land (b2z b) 0x80 =? 0x80) = (b2z b <? 128).
Proof. by destruct b. Qed.

Lemma decode_high k n rest s :
  0 <= n < cap k → n + 1 < 2 ^ 64 →
  deserializeVLQ_loop (vlq_high k n ++ rest) 0 s =
    deserializeVLQ_loop rest (n + 1) (s + zlen (vlq_high k n)).
Proof.
  revert n rest s. induction k as [|k IH]; intros n rest s Hn H64; cbn [cap] in Hn; [lia|].
  pose proof (div_mod_128 n) as [Hd Hm]. cbn [vlq_high].
  rewrite zlen_snoc, <-app_assoc. cbn [app].
  assert (b2z (z2b (n mod 128 + 128)) = n mod 128 + 128) as Hb by (apply b2z_z2b_small; lia).
  assert ((n mod 128 + 128) mod 128 = n mod 128) as Hmod
    by (rewrite <-(Z.mul_1_l 128) at 2; rewrite Z_mod_plus_full; apply Z.mod_mod; lia).
  destruct (Z.leb_spec n 0x7f) as [Hs|Hs].
  - cbn [app deserializeVLQ_loop]. rewrite vlq_step, high_bit, Hb, Hmod by lia.
    rewrite (proj2 (Z.ltb_ge _ _)), (@zlen_nil byte) by lia.
    rewrite u64_small by lia. rewrite (Z.mod_small n) by lia. f_equal; lia.
  - rewrite IH by lia. cbn [deserializeVLQ_loop]. replace (n / 128 - 1 + 1) with (n / 128) by lia.
    rewrite vlq_step, high_bit, Hb, Hmod by lia. rewrite (proj2 (Z.ltb_ge _ _)) by lia.
    rewrite u64_small by lia. f_equal; lia.
Qed.

Lemma deserializeVLQ_vlq n rest :
  is_u64 n → deserializeVLQ (vlq n ++ rest) = (n, zlen (vlq n)).
Proof.
  unfold is_u64. intros Hn. pose proof (div_mod_128 n) as [Hd Hm].
  assert (2 ^ 64 < 128 * (cap 9 + 1)) by done.
  unfold deserializeVLQ. rewrite vlq_vlq_high, zlen_snoc, <-app_assoc. cbn [app].
  assert (b2z (z2b (n mod 128)) = n mod 128) as Hb by (apply b2z_z2b_small; lia).
  destruct (Z.leb_spec n 0x7f) as [Hs|Hs].
  - cbn [app deserializeVLQ_loop]. rewrite vlq_step, high_bit, Hb by lia.
    rewrite (proj2 (Z.ltb_lt _ _)), (@zlen_nil byte), Z.mod_mod by lia.
    rewrite Z.mod_small by lia. f_equal; lia.
  - rewrite decode_high by lia. cbn [deserializeVLQ_loop].
    replace (n / 128 - 1 + 1) with (n / 128) by lia.
    rewrite vlq_step, high_bit, Hb by lia. rewrite (proj2 (Z.ltb_lt _ _)), Z.mod_mod by lia.
    f_equal; lia.
Qed.

(** The reader takes at least one byte where there is one, and never more than
    there are. *)
Lemma deserializeVLQ_size_loop bs n s :
  s <= (deserializeVLQ_loop bs n s).2 <= s + zlen bs ∧
  (bs ≠ [] → s < (deserializeVLQ_loop bs n s).2).
Proof.
  revert n s. induction bs as [|b bs IH]; intros n s; cbn [deserializeVLQ_loop].
  { cbn [snd]. rewrite zlen_nil. split; [lia|done]. }
  rewrite zlen_cons. pose proof (zlen_nonneg bs). destruct (negb _); cbn [snd]; [split; [lia|intros; lia]|].
  destruct (IH (u64 (Z.lor (u64 (Z.shiftl n 7)) (Z.land (b2z b) 0x7f) + 1)) (s + 1)).
  split; [lia|intros; lia].
Qed.

(** *** One encoding only *)

(** The value the high groups of a quantity stand for. *)
Definition high_value (hi : bytes) : Z := foldl (λ n b, n * 128 + b2z b mod 128 + 1) 0 hi.

Lemma high_value_snoc hi b : high_value (hi ++ [b]) = high_value hi * 128 + b2z b mod 128 + 1.
Proof. unfold high_value. by rewrite foldl_app. Qed.

Lemma high_value_pos hi : 0 <= high_value hi ∧ (hi ≠ [] → 0 < high_value hi).
Proof.
  induction hi as [|b hi IH] using rev_ind; [done|].
  destruct IH as [IH _]. rewrite high_value_snoc. pose proof (div_mod_128 (b2z b)).
  split; [lia|intros; lia].
Qed.

Lemma byte_high b : 128 <= b2z b → z2b (b2z b mod 128 + 128) = b.
Proof. destruct b; first [done|intros H; by destruct H]. Qed.

Lemma vlq_high_value k hi :
  Forall (λ b, 128 <= b2z b) hi → hi ≠ [] → (length hi <= k)%nat →
  vlq_high k (high_value hi - 1) = hi.
Proof.
  revert k. induction hi as [|b hi IH] using rev_ind; intros k Hf Hne Hk; [done|].
  rewrite length_app in Hk. cbn in Hk. destruct k as [|k]; [lia|].
  apply Forall_app in Hf as [Hf Hb]. apply Forall_cons_1 in Hb as [Hb _].
  rewrite high_value_snoc. replace (high_value hi * 128 + b2z b mod 128 + 1 - 1)
    with (b2z b mod 128 + high_value hi * 128) by lia.
  pose proof (div_mod_128 (b2z b)) as [_ Hm].
  cbn [vlq_high]. rewrite Z_mod_plus_full, Z.mod_mod, byte_high, Z_div_plus_full by lia.
  rewrite Z.div_small by lia. f_equal.
  destruct (decide (hi = [])) as [->|Hne'].
  - rewrite (proj2 (Z.leb_le _ _)); [done|]. unfold high_value. cbn. lia.
  - pose proof (proj2 (high_value_pos hi) Hne'). rewrite (proj2 (Z.leb_gt _ _)) by lia.
    rewrite <-(IH k) at 2 by (done || lia). done.
Qed.

Lemma vlq_value hi lo :
  Forall (λ b, 128 <= b2z b) hi → b2z lo < 128 → (length hi <= 9)%nat →
  vlq (high_value hi * 128 + b2z lo) = hi ++ [lo].
Proof.
  intros Hf Hlo Hl. pose proof (b2z_range lo). rewrite vlq_vlq_high.
  rewrite (Z.add_comm _ (b2z lo)), Z_mod_plus_full, Z.mod_small, z2b_b2z by lia. f_equal.
  rewrite Z_div_plus_full, Z.div_small by lia.
  destruct (decide (hi = [])) as [->|Hne].
  - rewrite (proj2 (Z.leb_le _ _)); [done|]. unfold high_value. cbn. lia.
  - pose proof (proj2 (high_value_pos hi) Hne). rewrite (proj2 (Z.leb_gt _ _)) by lia.
    by apply vlq_high_value.
Qed.

Lemma decode_high_value hi rest s :
  Forall (λ b, 128 <= b2z b) hi → high_value hi < 2 ^ 64 →
  deserializeVLQ_loop (hi ++ rest) 0 s = deserializeVLQ_loop rest (high_value hi) (s + zlen hi).
Proof.
  revert rest. induction hi as [|b hi IH] using rev_ind; intros rest Hf Hv.
  { cbn [app]. unfold high_value. cbn [foldl]. change (zlen (@nil byte)) with 0. by rewrite Z.add_0_r. }
  rewrite high_value_snoc in Hv |- *. pose proof (div_mod_128 (b2z b)) as [_ Hm].
  pose proof (high_value_pos hi) as [Hp _]. apply Forall_app in Hf as [Hf Hb]. apply Forall_cons_1 in Hb as [Hb _].
  rewrite <-app_assoc, IH by (done || lia). cbn [app deserializeVLQ_loop].
  rewrite vlq_step, high_bit, (proj2 (Z.ltb_ge _ _)), zlen_snoc by lia.
  rewrite u64_small by lia. f_equal. lia.
Qed.

(** A complete quantity of at most nine bytes that is read as [n] is what is
    written for [n]. *)
Lemma vlq_canonical hi lo rest :
  Forall (λ b, 128 <= b2z b) hi → b2z lo < 128 → zlen hi < 9 →
  ∃ n, deserializeVLQ (hi ++ lo :: rest) = (n, zlen hi + 1) ∧ is_u64 n ∧ vlq n = hi ++ [lo].
Proof.
  intros Hf Hlo Hl. exists (high_value hi * 128 + b2z lo). pose proof (b2z_range lo).
  assert (∀ l, (length l <= 8)%nat → 0 <= high_value l < 2 ^ 56 + 2 ^ 50) as Hbound.
  { assert (∀ l, high_value l <= (128 ^ zlen l - 1) * 128 / 127) as Hb.
    { induction l as [|b l IHl] using rev_ind; [done|].
      rewrite high_value_snoc, zlen_snoc, Z.pow_add_r by (pose proof (zlen_nonneg l); lia).
      pose proof (div_mod_128 (b2z b)). apply Z.div_le_lower_bound; [lia|].
      pose proof (Z.mul_div_le ((128 ^ zlen l - 1) * 128) 127). lia. }
    intros l Hll. split; [apply high_value_pos|]. eapply Z.le_lt_trans; [apply Hb|].
    assert (128 ^ zlen l <= 128 ^ 8) by (apply Z.pow_le_mono_r; unfold zlen; lia).
    apply Z.div_lt_upper_bound; [lia|]. change (128 ^ 8) with (2 ^ 56) in *. lia. }
  pose proof (Hbound hi ltac:(unfold zlen in Hl; lia)). split_and!.
  - unfold deserializeVLQ. rewrite decode_high_value by (done || lia). cbn [deserializeVLQ_loop].
    rewrite vlq_step, high_bit, (proj2 (Z.ltb_lt _ _)) by lia. rewrite Z.mod_small; [done|lia].
  - unfold is_u64. lia.
  - apply vlq_value; [done|done|]. unfold zlen in Hl. lia.
Qed.

(** Byte-wise comparison of the encodings is not comparison of the numbers:
    16512 is encoded below 256. *)
Lemma vlq_order_counterexample :
  vlq 256 = [x81; x00] ∧ vlq 16512 = [x80; x80; x00] ∧ b2z x80 < b2z x81.
Proof. done. Qed.

(** ** Script codec *)

Lemma shape (s : bytes) n a b :
  zlen s = n → 0 <= a <= b → b <= n →
  ∃ pre mid post, s = pre ++ mid ++ post ∧ zlen pre = a ∧ zlen mid = b - a ∧ zlen post = n - b ∧
    slice s a b = mid.
Proof.
  intros Hn Hab Hb. destruct (split_at s a) as (pre & r & -> & Ha); [lia|]. rewrite zlen_app in Hn.
  destruct (split_at r (b - a)) as (mid & post & -> & Hm); [lia|]. rewrite zlen_app in Hn.
  exists pre, mid, post. split_and!; [done..|lia|].
  unfold slice. replace (Z.to_nat a) with (length pre) by (unfold zlen in Ha; lia).
  rewrite drop_app_length. replace (Z.to_nat (b - a)) with (length mid) by (unfold zlen in Hm; lia).
  apply take_app_length.
Qed.

Lemma byte_is_skip pre l i v : zlen pre <= i → byte_is (pre ++ l) i v = byte_is l (i - zlen pre) v.
Proof.
  intros Hi. unfold byte_is. rewrite lookup_app_r by (unfold zlen in Hi; lia).
  unfold zlen. by replace (Z.to_nat (i - Z.of_nat (length pre))) with (Z.to_nat i - length pre)%nat by lia.
Qed.

Lemma byte_eqb x v : (b2z x =? v) = true → x = z2b v.
Proof. intros <-%Z.eqb_eq. by rewrite z2b_b2z. Qed.

Lemma zlen_S {A} (l : list A) n : zlen l = n → 0 < n → ∃ x l', l = x :: l' ∧ zlen l' = n - 1.
Proof. destruct l as [|x l']; [rewrite zlen_nil; lia|]. rewrite zlen_cons. intros. exists x, l'. split; [done|lia]. Qed.

(** Names the elements of a list of known length. *)
Ltac explode H :=
  let x := fresh "b" in let l := fresh "l" in
  first [apply zlen_0 in H as ->
        |apply zlen_S in H as (x & l & -> & H); [|lia]; explode H].

(** Reads the bytes a recogniser has compared. *)
Ltac read_bytes :=
  repeat match goal with
  | E : byte_is (?x :: ?y :: ?l ++ ?k) ?i ?v = true |- _ =>
      first [rewrite (byte_is_skip (x :: y :: l) k i v) in E by (unfold zlen in *; cbn [length] in *; lia)
            |rewrite (byte_is_skip [x; y] (l ++ k) i v), byte_is_skip in E by (unfold zlen in *; cbn [length] in *; lia)]
  end.

Lemma isPubKeyHash_shape s h :
  isPubKeyHash s = (true, h) →
  zlen h = 20 ∧ s = [op_byte OP_DUP; op_byte OP_HASH160; op_byte OP_DATA_20] ++ h ++
                    [op_byte OP_EQUALVERIFY; op_byte OP_CHECKSIG].
Proof.
  unfold isPubKeyHash. destruct (_ && _) eqn:E; [|done]. intros [= <-].
  rewrite !andb_true_iff in E. destruct E as [[[[[El E0] E1] E2] E3] E4].
  destruct (shape s 25 3 23) as (pre & h & post & -> & Hp & Hh & Hq & ->); [lia..|].
  explode Hp. explode Hq. split; [done|].
  rewrite (assoc_L (++)), byte_is_skip in E3, E4 by (rewrite zlen_app, Hh; done).
  rewrite zlen_app, Hh in E3, E4. cbn in E0, E1, E2, E3, E4.
  by apply byte_eqb in E0 as ->, E1 as ->, E2 as ->, E3 as ->, E4 as ->.
Qed.

Lemma isScriptHash_shape s h :
  isScriptHash s = (true, h) →
  zlen h = 20 ∧ s = [op_byte OP_HASH160; op_byte OP_DATA_20] ++ h ++ [op_byte OP_EQUAL].
Proof.
  unfold isScriptHash. destruct (_ && _) eqn:E; [|done]. intros [= <-].
  rewrite !andb_true_iff in E. destruct E as [[[El E0] E1] E2].
  destruct (shape s 23 2 22) as (pre & h & post & -> & Hp & Hh & Hq & ->); [lia..|].
  explode Hp. explode Hq. split; [done|].
  rewrite (assoc_L (++)), byte_is_skip in E2 by (rewrite zlen_app, Hh; done).
  rewrite zlen_app, Hh in E2. cbn in E0, E1, E2.
  by apply byte_eqb in E0 as ->, E1 as ->, E2 as ->.
Qed.

Section script_codec.
Context `{PubKeyFormats}.

Lemma isPubKey_shape s key :
  isPubKey s = (true, key) →
  is_Some (btcec_ParsePubKey key) ∧
  ((∃ f x, key = f :: x ∧ zlen x = 32 ∧ (f = x02 ∨ f = x03) ∧
           s = op_byte OP_DATA_33 :: key ++ [op_byte OP_CHECKSIG]) ∨
   (∃ x y, key = x04 :: x ++ y ∧ zlen x = 32 ∧ zlen y = 32 ∧
           s = op_byte OP_DATA_65 :: key ++ [op_byte OP_CHECKSIG])).
Proof.
  unfold isPubKey. cbv zeta.
  set (unc := if _ && byte_is s 1 0x04 then _ else _).
  assert (unc = (true, key) → is_Some (btcec_ParsePubKey key) ∧
    ∃ x y, key = x04 :: x ++ y ∧ zlen x = 32 ∧ zlen y = 32 ∧
           s = op_byte OP_DATA_65 :: key ++ [op_byte OP_CHECKSIG]) as Hunc.
  { unfold unc. destruct (_ && _) eqn:E; [|done]. case_bool_decide as Hp; [|done]. intros [= <-].
    rewrite !andb_true_iff in E. destruct E as [[[El E0] E1] E2].
    destruct (shape s 67 1 66) as (pre & key & post & -> & Hpre & Hk & Hq & Es); [lia..|].
    rewrite Es in Hp |- *. split; [done|]. explode Hpre. explode Hq.
    apply zlen_S in Hk as (f & r & -> & Hr); [|lia].
    destruct (split_at r 32) as (x & y & -> & Hx); [lia|]. rewrite zlen_app in Hr.
    assert (zlen (b :: f :: x ++ y) = 66) as Hl by (rewrite !zlen_cons, zlen_app; lia).
    rewrite (byte_is_skip (b :: f :: x ++ y) [b0]), Hl in E1 by lia.
    cbn in E0, E1, E2. apply byte_eqb in E0 as ->, E1 as ->, E2 as ->.
    exists x, y. split_and!; [done|done|lia|done]. }
  destruct (_ && (_ || _)) eqn:E; [|naive_solver].
  case_bool_decide as Hp; [|naive_solver]. intros [= <-].
  rewrite !andb_true_iff, orb_true_iff in E. destruct E as [[[El E0] E1] E2].
  destruct (shape s 35 1 34) as (pre & key & post & -> & Hpre & Hk & Hq & Es); [lia..|].
  rewrite Es in Hp |- *. split; [done|]. left. explode Hpre. explode Hq.
  apply zlen_S in Hk as (f & x & -> & Hx); [|lia].
  assert (zlen (b :: f :: x) = 34) as Hl by (rewrite !zlen_cons; lia).
  rewrite (byte_is_skip (b :: f :: x) [b0]), Hl in E1 by lia.
  cbn in E0, E1, E2. apply byte_eqb in E0 as ->, E1 as ->.
  exists f, x. split_and!; [done|lia| |done].
  destruct E2 as [->%byte_eqb| ->%byte_eqb]; auto.
Qed.

(** The bytes a script is stored as. *)
Definition script_code (pkScript : bytes) : bytes :=
  if (isPubKeyHash pkScript).1 then z2b cstPayToPubKeyHash :: (isPubKeyHash pkScript).2
  else if (isScriptHash pkScript).1 then z2b cstPayToScriptHash :: (isScriptHash pkScript).2
  else if (isPubKey pkScript).1 then
    let key := (isPubKey pkScript).2 in
    let format := default x00 (head key) in
    (if (b2z format =? 2) || (b2z format =? 3) then format
     else z2b (Z.lor (b2z format) (Z.land (b2z (default x00 (key !! 64%nat))) 1))) :: take 32 (drop 1 key)
  else vlq (zlen pkScript + numSpecialScripts) ++ pkScript.

(** The four ways a script is stored. *)
Lemma script_cases s :
  zlen s < 2 ^ 62 →
  (∃ h, isPubKeyHash s = (true, h) ∧ zlen h = 20 ∧ script_code s = x00 :: h) ∨
  (∃ h, (isPubKeyHash s).1 = false ∧ isScriptHash s = (true, h) ∧ zlen h = 20 ∧ script_code s = x01 :: h) ∨
  (∃ f x, (isPubKeyHash s).1 = false ∧ (isScriptHash s).1 = false ∧ isPubKey s = (true, f :: x) ∧
     (f = x02 ∨ f = x03) ∧ zlen x = 32 ∧ script_code s = f :: x ∧
     s = op_byte OP_DATA_33 :: f :: x ++ [op_byte OP_CHECKSIG]) ∨
  (∃ x y b k', (isPubKeyHash s).1 = false ∧ (isScriptHash s).1 = false ∧
     isPubKey s = (true, x04 :: x ++ y) ∧
     zlen x = 32 ∧ zlen y = 32 ∧ (x04 :: x ++ y) !! 64%nat = Some b ∧
     script_code s = z2b (4 + Z.land (b2z b) 1) :: x ∧
     s = op_byte OP_DATA_65 :: x04 :: x ++ y ++ [op_byte OP_CHECKSIG] ∧
     btcec_ParsePubKey (z2b (2 + Z.land (b2z b) 1) :: x) = Some k' ∧
     SerializeUncompressed k' = x04 :: x ++ y) ∨
  ((isPubKeyHash s).1 = false ∧ (isScriptHash s).1 = false ∧ (isPubKey s).1 = false ∧
     script_code s = vlq (zlen s + 6) ++ s).
Proof.
  intros Hs. unfold script_code.
  destruct (isPubKeyHash s) as [[] h] eqn:E1; cbn [fst snd].
  { left. exists h. split_and!; [done| |done]. by apply isPubKeyHash_shape in E1 as [? _]. }
  right. destruct (isScriptHash s) as [[] h'] eqn:E2; cbn [fst snd].
  { left. exists h'. split_and!; [done|done| |done]. by apply isScriptHash_shape in E2 as [? _]. }
  right. destruct (isPubKey s) as [[] key] eqn:E3; cbn [fst snd].
  - pose proof (isPubKey_shape s key E3) as ([k Hk] & [(f & x & -> & Hx & Hf & ->)|(x & y & -> & Hx & Hy & ->)]).
    + left. exists f, x. change (default x00 (head (f :: x))) with f. change (drop 1 (f :: x)) with x.
      split_and!; try done. rewrite take_ge by (unfold zlen in Hx; lia). by destruct Hf as [->| ->].
    + right. left. destruct (parse_compressed_of x y k Hx Hy Hk) as (k' & Hk' & Hu).
      assert (∃ y' b, y = y' ++ [b]) as (y' & b & ->).
      { destruct y as [|b y' _] using rev_ind; [by rewrite zlen_nil in Hy|eauto]. }
      rewrite last_snoc in Hk'. cbn [default] in Hk'.
      assert ((x04 :: x ++ y' ++ [b]) !! 64%nat = Some b) as Hb.
      { rewrite zlen_snoc in Hy. rewrite (assoc_L (++)), app_comm_cons. apply list_lookup_middle.
        cbn. rewrite length_app. unfold zlen in *. lia. }
      exists x, (y' ++ [b]), b, k'. change (default x00 (head (x04 :: x ++ y' ++ [b]))) with x04.
      change (drop 1 (x04 :: x ++ y' ++ [b])) with (x ++ y' ++ [b]). rewrite Hb. cbn [default].
      split_and!; try done.
      * f_equal; [by destruct b|].
        rewrite take_app_le by (unfold zlen in Hx; lia). by rewrite take_ge by (unfold zlen in Hx; lia).
      * by rewrite <-app_comm_cons, <-(assoc_L (++)).
  - right. right. done.
Qed.

Lemma script_code_pos s : 0 < zlen (script_code s).
Proof.
  unfold script_code. repeat case_match; rewrite ?zlen_cons, ?zlen_app.
  all: try (pose proof (vlq_pos (zlen s + numSpecialScripts)); pose proof (zlen_nonneg s); lia).
  all: apply Z.add_pos_nonneg; [lia|apply zlen_nonneg].
Qed.

Lemma general_size (s : bytes) : zlen s < 2 ^ 62 → u64 (zlen s + numSpecialScripts) = zlen s + 6 ∧ is_u64 (zlen s + 6).
Proof.
  intros Hs. pose proof (zlen_nonneg s). unfold numSpecialScripts, is_u64.
  split; [apply u64_small|]; lia.
Qed.

Lemma compressedScriptSize_length s : zlen s < 2 ^ 62 → compressedScriptSize s = zlen (script_code s).
Proof.
  intros Hs. destruct (general_size s Hs) as [Eu Hu]. unfold compressedScriptSize.
  destruct (script_cases s Hs) as [(h & -> & Hh & ->)|[(h & -> & -> & Hh & ->)|[(f & x & -> & -> & -> & _ & Hx & -> & _)
    |[(x & y & b & k' & -> & -> & -> & Hx & _ & _ & -> & _)|(-> & -> & -> & ->)]]]]; cbn [fst].
  - by rewrite zlen_cons, Hh.
  - by rewrite zlen_cons, Hh.
  - by rewrite zlen_cons, Hx.
  - by rewrite zlen_cons, Hx.
  - by rewrite zlen_app, Eu, serializeSizeVLQ_length.
Qed.

(** Writing a first byte and a range after it. *)
Lemma put_prefix {E} (b : byte) (src target : bytes) n :
  n = 1 + zlen src → n <= zlen target →
  (target ← go_set (E:=E) target 0 b; target ← copy_range target 1 n src; Ok (target, n)) =
    Ok ((b :: src) ++ drop (length (b :: src)) target, zlen (b :: src)).
Proof.
  intros -> Ht. destruct target as [|t target]; [rewrite zlen_nil in Ht; pose proof (zlen_nonneg src); lia|].
  rewrite zlen_cons in Ht. rewrite (go_set_mid [] t b target 0 eq_refl : go_set (t :: target) 0 b = Ok (b :: target)).
  cbn [mbind result_bind length drop].
  destruct (split_at target (zlen src)) as (mid & post & -> & Hm); [pose proof (zlen_nonneg src); lia|].
  rewrite (copy_range_mid [b] mid post src) by (rewrite ?Hm; done). cbn [mbind result_bind].
  replace (length src) with (length mid) by (unfold zlen in Hm; lia).
  by rewrite drop_app_length, zlen_cons.
Qed.

Lemma putCompressedScript_ok {E} s target :
  zlen s < 2 ^ 62 → zlen (script_code s) <= zlen target →
  putCompressedScript (E:=E) target s =
    Ok (script_code s ++ drop (length (script_code s)) target, zlen (script_code s)).
Proof.
  intros Hs. destruct (general_size s Hs) as [Eu Hu]. unfold putCompressedScript.
  destruct (isPubKeyHash s) as [p1 h1] eqn:E1, (isScriptHash s) as [p2 h2] eqn:E2, (isPubKey s) as [p3 h3] eqn:E3.
  destruct (script_cases s Hs) as [(h & E1' & Hh & ->)|[(h & E1' & E2' & Hh & ->)|[(f & x & E1' & E2' & E3' & Hf & Hx & -> & _)
    |[(x & y & b & k' & E1' & E2' & E3' & Hx & Hy & Hb & -> & _)|(E1' & E2' & E3' & ->)]]]];
    rewrite ?E1, ?E2, ?E3 in *; cbn [fst] in *; simplify_eq; cbv iota; intros Ht; try (rewrite zlen_cons in Ht).
  - change x00 with (z2b cstPayToPubKeyHash). by apply put_prefix; [rewrite Hh|lia].
  - change x01 with (z2b cstPayToScriptHash). by apply put_prefix; [rewrite Hh|lia].
  - rewrite go_index_0. cbn [mbind result_bind].
    assert ((b2z f =? 2) || (b2z f =? 3) = true) as -> by (by destruct Hf as [->| ->]).
    rewrite go_slice_cons by (rewrite Hx; done). cbn [mbind result_bind].
    pose proof (put_prefix (E:=E) f x target 33 ltac:(lia) ltac:(lia)) as Hp.
    destruct (go_set target 0 f); cbn [mbind result_bind] in Hp |- *; done.
  - rewrite go_index_0. cbn [mbind result_bind]. change ((b2z x04 =? 2) || (b2z x04 =? 3)) with false.
    change (b2z x04 =? 4) with true. cbv iota.
    rewrite (proj2 (go_index_ok _ 64 b)) by (split; [lia|exact Hb]). cbn [mbind result_bind].
    rewrite (go_slice_at [x04] x y) by (rewrite ?Hx; done).
    replace (z2b (Z.lor (b2z x04) (Z.land (b2z b) 1))) with (z2b (4 + Z.land (b2z b) 1)) by (by destruct b).
    pose proof (put_prefix (E:=E) (z2b (4 + Z.land (b2z b) 1)) x target 33 ltac:(lia) ltac:(lia)) as Hp.
    destruct (go_set target 0 _); cbn [mbind result_bind] in Hp |- *; done.
  - rewrite Eu. rewrite zlen_app in Ht. pose proof (zlen_nonneg s).
    rewrite putVLQ_ok by (done || lia). cbn [mbind result_bind].
    pose proof (vlq_pos (zlen s + 6)) as Hv. set (v := vlq (zlen s + 6)) in *. clearbody v.
    destruct (split_at target (zlen v)) as (pre & r & -> & Hp); [lia|].
    rewrite zlen_app in Ht. destruct (split_at r (zlen s)) as (mid & post & -> & Hm); [lia|].
    assert (length v = length pre) as Hl by (unfold zlen in Hp; lia).
    rewrite Hl, drop_app_length, zlen_app, !length_app, Hl.
    replace (v ++ mid ++ post) with (v ++ (mid ++ post)) by done.
    rewrite <-drop_drop, drop_app_length. replace (length s) with (length mid) by (unfold zlen in Hm; lia).
    rewrite drop_app_length. unfold copy_range.
    pose proof (zlen_nonneg post). rewrite go_slice_tail by (rewrite ?zlen_app; lia). cbn [mbind result_bind].
    rewrite take_ge by (unfold zlen in *; rewrite ?length_app in *; lia).
    rewrite copy_at_spec by (rewrite ?zlen_app; lia).
    rewrite to_nat_zlen, take_app_length, <-(assoc_L (++)), zlen_app. do 4 f_equal.
    replace (Z.to_nat (zlen v + zlen s)) with (length v + length mid)%nat by (unfold zlen in *; lia).
    by rewrite <-drop_drop, !drop_app_length.
Qed.

(** A quantity of one byte. *)
Lemma decode_small f x : b2z f < 128 → deserializeVLQ (f :: x) = (b2z f, 1).
Proof.
  intros Hf. pose proof (b2z_range f). unfold deserializeVLQ. cbn [deserializeVLQ_loop].
  rewrite vlq_step, high_bit, (proj2 (Z.ltb_lt _ _)), Z.mod_small by lia. f_equal.
Qed.

Lemma vlq_short n : is_u64 n → zlen (vlq n) <= 11.
Proof.
  intros Hn. rewrite <-serializeSizeVLQ_length by done. unfold serializeSizeVLQ.
  assert (∀ k n t, serializeSizeVLQ_loop k n t <= t + Z.of_nat k) as Hk.
  { clear. induction k as [|k IH]; intros n t; cbn [serializeSizeVLQ_loop]; [lia|].
    destruct (_ <? _); [|lia]. pose proof (IH (u64 (Z.shiftr n 7 - 1)) (t + 1)). lia. }
  apply (Hk vlq_fuel).
Qed.

(** A general script: the size is at least six. *)
Lemma decode_general s rest :
  zlen s < 2 ^ 61 →
  deserializeVLQ ((vlq (zlen s + 6) ++ s) ++ rest) = (zlen s + 6, zlen (vlq (zlen s + 6))) ∧
  ∀ c, c < 6 → (zlen s + 6 =? c) = false.
Proof.
  intros Hs. pose proof (zlen_nonneg s). split; [|intros; apply Z.eqb_neq; lia].
  rewrite <-(assoc_L (++)). apply deserializeVLQ_vlq. unfold is_u64. lia.
Qed.

Lemma copy_all n (x : bytes) : length x = n → copy_at (replicate n x00) 0 x = x.
Proof.
  intros Hx. rewrite copy_at_spec; [|done|unfold zlen; rewrite length_replicate; lia].
  cbn [Z.to_nat take app]. rewrite drop_ge; [apply app_nil_r|].
  rewrite length_replicate. unfold zlen. lia.
Qed.

Ltac special := unfold cstPayToPubKeyHash, cstPayToScriptHash, cstPayToPubKeyComp2,
  cstPayToPubKeyComp3, cstPayToPubKeyUncomp4, cstPayToPubKeyUncomp5.

(** What is stored tells its own size. *)
Lemma decodeCompressedScriptSize_code s rest :
  zlen s < 2 ^ 61 → decodeCompressedScriptSize (script_code s ++ rest) = zlen (script_code s).
Proof.
  intros Hs. unfold decodeCompressedScriptSize. special.
  destruct (script_cases s ltac:(lia)) as [(h & _ & Hh & ->)|[(h & _ & _ & Hh & ->)|[(f & x & _ & _ & _ & Hf & Hx & -> & _)
    |[(x & y & b & k' & _ & _ & _ & Hx & _ & _ & -> & _)|(_ & _ & _ & ->)]]]].
  - rewrite <-app_comm_cons, decode_small, zlen_cons, Hh by done. done.
  - rewrite <-app_comm_cons, decode_small, zlen_cons, Hh by done. done.
  - rewrite <-app_comm_cons, zlen_cons, Hx. by destruct Hf as [->| ->]; rewrite decode_small.
  - rewrite <-app_comm_cons, zlen_cons, Hx. by destruct b; rewrite decode_small.
  - destruct (decode_general s rest Hs) as [-> Hc]. rewrite !Hc by lia. cbn [orb].
    pose proof (vlq_pos (zlen s + 6)). rewrite (proj2 (Z.eqb_neq _ 0)) by lia.
    pose proof (zlen_nonneg s). unfold numSpecialScripts. rewrite zlen_app.
    pose proof (vlq_short (zlen s + 6) ltac:(unfold is_u64; lia)).
    rewrite u64_small, u64_small, i64_small by (rewrite ?u64_small; unfold is_i64; lia). lia.
Qed.

(** ... and gives the script back. *)
Lemma decompressScript_code {E} s :
  zlen s < 2 ^ 61 → decompressScript (E:=E) (script_code s) = Ok s.
Proof.
  intros Hs. unfold decompressScript. special.
  rewrite (proj2 (Z.eqb_neq (zlen (script_code s)) 0)) by (pose proof (script_code_pos s); lia).
  destruct (script_cases s ltac:(lia)) as [(h & E1 & Hh & ->)|[(h & _ & E2 & Hh & ->)|[(f & x & _ & _ & _ & Hf & Hx & -> & ->)
    |[(x & y & b & k' & _ & _ & _ & Hx & Hy & Hb & -> & -> & Hk & Hu)|(_ & _ & _ & ->)]]]].
  - rewrite decode_small by done. change (b2z x00 =? 0) with true. cbv iota.
    rewrite go_slice_cons by (rewrite Hh; done). by apply isPubKeyHash_shape in E1 as [_ ->].
  - rewrite decode_small by done. change (b2z x01 =? 0) with false. change (b2z x01 =? 1) with true. cbv iota.
    rewrite go_slice_cons by (rewrite Hh; done). by apply isScriptHash_shape in E2 as [_ ->].
  - assert (b2z f < 128 ∧ (b2z f =? 0) = false ∧ (b2z f =? 1) = false ∧ (b2z f =? 2) || (b2z f =? 3) = true)
      as (Hlt & E0 & E1 & E2) by (by destruct Hf as [->| ->]).
    rewrite decode_small, E0, E1, E2 by done. rewrite go_slice_cons by (rewrite Hx; done).
    cbn [mbind result_bind]. by rewrite z2b_b2z.
  - set (f := z2b (4 + Z.land (b2z b) 1)).
    assert (b2z f < 128 ∧ (b2z f =? 0) = false ∧ (b2z f =? 1) = false ∧ (b2z f =? 2) || (b2z f =? 3) = false ∧
      (b2z f =? 4) || (b2z f =? 5) = true ∧ z2b (u64 (b2z f - 2)) = z2b (2 + Z.land (b2z b) 1))
      as (Hlt & E0 & E1 & E2 & E3 & E4) by (unfold f; by destruct b).
    rewrite decode_small, E0, E1, E2, E3 by done. rewrite go_slice_cons by by rewrite zlen_cons.
    cbn [mbind result_bind]. rewrite copy_all by (unfold zlen in Hx; lia). rewrite E4, Hk, Hu.
    rewrite copy_all by (cbn; rewrite length_app; unfold zlen in *; lia).
    cbn [app]. by rewrite <-(assoc_L (++)).
  - destruct (decode_general s [] Hs) as [Ed Hc]. rewrite app_nil_r in Ed. rewrite Ed, !Hc by lia.
    cbn [orb]. pose proof (zlen_nonneg s). unfold numSpecialScripts.
    rewrite u64_small, i64_small by (rewrite ?u64_small; unfold is_i64; lia).
    rewrite (proj2 (Z.ltb_ge _ _)) by lia.
    pose proof (vlq_short (zlen s + 6) ltac:(unfold is_u64; lia)). pose proof (vlq_pos (zlen s + 6)).
    rewrite i64_small by (unfold is_i64; lia). apply go_slice_tail; [done|lia].
Qed.
End script_codec.

(** ** Amount codec *)

Lemma compress_loop_spec fuel a e :
  0 < a → 0 <= e <= 9 → 9 - e < Z.of_nat fuel →
  let '(a', e') := compress_loop fuel a e in
  a = a' * 10 ^ (e' - e) ∧ 0 < a' ∧ e <= e' <= 9 ∧ (e' < 9 → a' mod 10 ≠ 0).
Proof.
  revert a e. induction fuel as [|fuel IH]; intros a e Ha He Hf; [lia|]. cbn [compress_loop].
  destruct (Z.eqb_spec (a mod 10) 0) as [E0|E0]; [|cbn [andb]; rewrite Z.sub_diag; split_and!; lia].
  destruct (Z.ltb_spec e 9) as [H9|H9]; [|cbn [andb]; rewrite Z.sub_diag; split_and!; lia]. cbn [andb].
  assert (a = 10 * (a / 10)) as Hd by (rewrite (Z.div_mod a 10) at 1; lia).
  specialize (IH (a / 10) (e + 1) ltac:(lia) ltac:(lia) ltac:(lia)).
  destruct (compress_loop fuel (a / 10) (e + 1)) as [a' e'].
  destruct IH as (IH & Ha' & He' & Hm). split_and!; [|lia..|done].
  rewrite Hd, IH. replace (e' - e) with (1 + (e' - (e + 1))) by lia.
  rewrite Z.pow_add_r by lia. lia.
Qed.

Lemma decompress_loop_spec k n :
  0 <= n → n * 10 ^ Z.of_nat k < 2 ^ 64 → decompress_loop k n = n * 10 ^ Z.of_nat k.
Proof.
  revert n. induction k as [|k IH]; intros n Hn Hk; cbn [decompress_loop]; [rewrite Z.pow_0_r; lia|].
  rewrite Nat2Z.inj_succ, Z.pow_succ_r in Hk |- * by lia.
  assert (0 < 10 ^ Z.of_nat k) by (apply Z.pow_pos_nonneg; lia).
  rewrite u64_small by nia. rewrite IH by nia. lia.
Qed.

(** Amounts whose code fits 64 bits; the total supply is far below. *)
Definition amount_fits (amount : Z) : Prop := 0 <= amount ∧ 9 * amount + 9 < 2 ^ 64.

Lemma decompress_compress_amount a :
  amount_fits a → decompressTxOutAmount (compressTxOutAmount a) = a ∧ is_u64 (compressTxOutAmount a).
Proof.
  intros [Ha H64]. unfold compressTxOutAmount, is_u64. destruct (Z.eqb_spec a 0) as [->|Hne]; [done|].
  pose proof (compress_loop_spec 10 a 0 ltac:(lia) ltac:(lia) ltac:(lia)) as Hs.
  destruct (compress_loop 10 a 0) as [n e]. destruct Hs as (-> & Hn & He & Hm). rewrite Z.sub_0_r in *.
  assert (1 <= 10 ^ e) by (apply (Z.pow_le_mono_r 10 0 e); lia).
  assert (n <= n * 10 ^ e) by nia. unfold decompressTxOutAmount.
  destruct (Z.ltb_spec e 9) as [H9|H9].
  - specialize (Hm H9). pose proof (Z.div_mod n 10 ltac:(lia)). pose proof (Z.mod_pos_bound n 10 ltac:(lia)).
    set (q := n / 10) in *. set (d := n mod 10) in *.
    assert (0 <= e → 9 * n + 9 < 2 ^ 64) by nia.
    assert (1 <= e → 90 * n + 9 < 2 ^ 64).
    { intros. assert (10 <= 10 ^ e) by (apply (Z.pow_le_mono_r 10 1 e); lia). nia. }
    assert (0 <= 1 + 10 * (9 * q + d - 1) + e < 2 ^ 64) by (destruct (decide (1 <= e)); lia).
    rewrite u64_small by done. split; [|done]. rewrite (proj2 (Z.eqb_neq _ 0)) by lia.
    replace (1 + 10 * (9 * q + d - 1) + e - 1) with (e + (9 * q + d - 1) * 10) by lia.
    rewrite Z_mod_plus_full, Z.mod_small, Z_div_plus_full, (Z.div_small e) by lia.
    rewrite (proj2 (Z.ltb_lt e 9)) by lia. replace (0 + (9 * q + d - 1)) with (d - 1 + q * 9) by lia.
    rewrite Z_mod_plus_full, Z.mod_small, Z_div_plus_full, (Z.div_small (d - 1)) by lia.
    replace ((0 + q) * 10 + (d - 1 + 1)) with n by lia.
    rewrite u64_small by lia. rewrite decompress_loop_spec by (rewrite ?Z2Nat.id; nia). by rewrite Z2Nat.id by lia.
  - assert (e = 9) as -> by lia. change (10 ^ 9) with 1000000000 in *.
    assert (0 <= 10 + 10 * (n - 1) < 2 ^ 64) by lia. rewrite u64_small by done. split; [|done].
    rewrite (proj2 (Z.eqb_neq _ 0)) by lia. replace (10 + 10 * (n - 1) - 1) with (9 + (n - 1) * 10) by lia.
    rewrite Z_mod_plus_full, Z_div_plus_full by lia. change (9 mod 10) with 9. change (9 / 10) with 0.
    cbn [Z.ltb Z.compare Pos.compare Pos.compare_cont]. rewrite u64_small by lia. change (Z.to_nat 9) with 9%nat.
    rewrite decompress_loop_spec by (change (10 ^ Z.of_nat 9) with 1000000000; lia).
    change (10 ^ Z.of_nat 9) with 1000000000. lia.
Qed.

(** Of the amounts a transaction may carry, the largest do not fit. *)
Lemma amount_overflow :
  decompressTxOutAmount (compressTxOutAmount 2099999999999999999) = 5555605888118076368.
Proof. done. Qed.

(** ** Output codec *)

Section txout_codec.
Context `{PubKeyFormats}.

Definition txout_code (amount : Z) (pkScript : bytes) : bytes :=
  vlq (compressTxOutAmount amount) ++ script_code pkScript.

Lemma compressedTxOutSize_length a s :
  amount_fits a → zlen s < 2 ^ 61 → compressedTxOutSize a s = zlen (txout_code a s).
Proof.
  intros Ha Hs. unfold compressedTxOutSize, txout_code.
  rewrite serializeSizeVLQ_length, compressedScriptSize_length, zlen_app
    by (lia || by apply decompress_compress_amount). done.
Qed.

Lemma putCompressedTxOut_ok {E} a s target :
  amount_fits a → zlen s < 2 ^ 61 → zlen (txout_code a s) <= zlen target →
  putCompressedTxOut (E:=E) target a s =
    Ok (txout_code a s ++ drop (length (txout_code a s)) target, zlen (txout_code a s)).
Proof.
  unfold txout_code. intros Ha Hs. rewrite zlen_app, length_app. intros Ht.
  pose proof (zlen_nonneg (script_code s)). unfold putCompressedTxOut.
  rewrite putVLQ_ok by (lia || by apply decompress_compress_amount). cbn [mbind result_bind].
  assert (zlen (script_code s) <= zlen (drop (length (vlq (compressTxOutAmount a))) target)) as Hr
    by (unfold zlen in *; rewrite length_drop; lia).
  rewrite (on_tail_ok _ _ _ _ (λ tail, putCompressedScript tail s) _ eq_refl
    (putCompressedScript_ok s _ ltac:(lia) Hr)).
  cbn [mbind result_bind]. by rewrite drop_drop, (assoc_L (++)).
Qed.

Lemma decodeCompressedTxOut_code a s rest :
  amount_fits a → zlen s < 2 ^ 61 →
  decodeCompressedTxOut (txout_code a s ++ rest) = Ok (a, s, zlen (txout_code a s)).
Proof.
  intros Ha Hs. destruct (decompress_compress_amount a Ha) as [Hd Hu].
  unfold decodeCompressedTxOut, txout_code. rewrite <-(assoc_L (++)), deserializeVLQ_vlq by done.
  pose proof (script_code_pos s). pose proof (zlen_nonneg rest). pose proof (vlq_short _ Hu).
  pose proof (vlq_pos (compressTxOutAmount a)).
  rewrite (proj2 (Z.leb_gt _ _)) by (rewrite !zlen_app; lia).
  rewrite go_slice_tail by (rewrite ?zlen_app; lia). cbn [mbind result_bind].
  rewrite decodeCompressedScriptSize_code, (proj2 (Z.ltb_ge _ _)) by (rewrite ?zlen_app; lia).
  assert (zlen (script_code s) < 2 ^ 62).
  { destruct (script_cases s ltac:(lia)) as [(h & _ & Hh & ->)|[(h & _ & _ & Hh & ->)|[(f & x & _ & _ & _ & _ & Hx & -> & _)
    |[(x & y & b & k' & _ & _ & _ & Hx & _ & _ & -> & _)|(_ & _ & _ & ->)]]]]; rewrite ?zlen_cons, ?zlen_app; try lia.
    pose proof (zlen_nonneg s). pose proof (vlq_short (zlen s + 6) ltac:(unfold is_u64; lia)). lia. }
  rewrite (go_slice_at _ (script_code s)) by (rewrite ?i64_small; unfold is_i64; lia).
  cbn [mbind result_bind]. rewrite decompressScript_code by done. cbn [mbind result_bind].
  by rewrite Hd, zlen_app.
Qed.
End txout_codec.
