(* ===== verification/TxRules.v ===== *)
(** * Rules on transactions (blockchain/validate.go, vsize.go)

    Coinbase transactions, finality, virtual sizes, the context-free checks and
    the height in a coinbase script. *)
From stdpp Require Import strings.
From Stdlib Require Import Lia ZArith.
From S2P Require Import Prelude Wire MsgTx ScriptError ScriptNum Opcode Tokenizer Standard SigHash Engine RuleError Subsidy.

(** ** Definitions *)

Definition zeroHash : bytes := replicate 32 x00.
Definition MaxUint32 : Z := 0xffffffff.
Definition MaxGrain : Z := 21000000000 * GrainPerPearl.
Definition MinCoinbaseScriptLen : Z := 2.
Definition MaxCoinbaseScriptLen : Z := 100.
Definition MaxBlockVsize : Z := 1000000.
Definition WitnessScaleFactor : Z := 4.

Definition isNullOutpoint (outpoint : OutPoint) : bool :=
  (op_Index outpoint =? MaxUint32) && bool_decide (op_Hash outpoint = zeroHash).

Definition IsCoinBaseTx (msgTx : MsgTx) : bool :=
  match tx_TxIn msgTx with
  | [txIn] =>
      let prevOut := PreviousOutPoint txIn in
      negb (negb (op_Index prevOut =? MaxUint32) || bool_decide (op_Hash prevOut ≠ zeroHash))
  | _ => false
  end.

Definition IsCoinBase (tx : MsgTx) : bool := IsCoinBaseTx tx.

Record SequenceLock := { Seconds : Z; BlockHeight : Z }.

Definition SequenceLockActive (sequenceLock : SequenceLock) (blockHeight medianTimePast : Z) : bool :=
  if (medianTimePast <=? Seconds sequenceLock) || (blockHeight <=? BlockHeight sequenceLock)
  then false else true.

Definition IsFinalizedTransaction (msgTx : MsgTx) (blockHeight blockTime : Z) : bool :=
  let lockTime := tx_LockTime msgTx in
  if lockTime =? 0 then true
  else
    let blockTimeOrHeight := if lockTime <? LockTimeThreshold then blockHeight else blockTime in
    if lockTime <? blockTimeOrHeight then true
    else forallb (λ txIn, Sequence txIn =? MaxUint32) (tx_TxIn msgTx).

(** [int] arithmetic on sizes; the division truncates. *)
Definition CalcVsize (baseSize witnessSize : Z) : Z :=
  baseSize + Z.quot (witnessSize + WitnessScaleFactor - 1) WitnessScaleFactor.

Definition GetTransactionVsize (msgTx : MsgTx) : Z :=
  let baseSize := SerializeSizeStripped msgTx in
  let witnessSize := SerializeSize msgTx - baseSize in
  CalcVsize baseSize witnessSize.

(** *** [CheckTransactionSanity] *)

Definition supported_class (c : ScriptClass) : bool :=
  match c with WitnessV1TaprootTy | WitnessV2MerkleRootTy | NullDataTy => true | _ => false end.

(** The loop over the outputs. *)
Fixpoint check_outputs (outs : list TxOut) (totalGrain : Z) : result RuleErr unit :=
  match outs with
  | [] => Ok ()
  | txOut :: outs =>
      let scriptClass := GetScriptClass (PkScript txOut) in
      if negb (supported_class scriptClass) then Fail (ruleError ErrScriptMalformed)
      else
        let grain := Value txOut in
        if grain <? 0 then Fail (ruleError ErrBadTxOutValue)
        else if MaxGrain <? grain then Fail (ruleError ErrBadTxOutValue)
        else
          let totalGrain := i64 (totalGrain + grain) in
          if totalGrain <? 0 then Fail (ruleError ErrBadTxOutValue)
          else if MaxGrain <? totalGrain then Fail (ruleError ErrBadTxOutValue)
          else check_outputs outs totalGrain
  end.

(** The loop over the inputs with its map of outpoints seen. *)
Fixpoint check_duplicates (ins : list TxIn) (existingTxOut : gset OutPoint) : result RuleErr unit :=
  match ins with
  | [] => Ok ()
  | txIn :: ins =>
      if bool_decide (PreviousOutPoint txIn ∈ existingTxOut) then Fail (ruleError ErrDuplicateTxInputs)
      else check_duplicates ins ({[PreviousOutPoint txIn]} ∪ existingTxOut)
  end.

Definition CheckTransactionSanity (msgTx : MsgTx) : result RuleErr unit :=
  if zlen (tx_TxIn msgTx) =? 0 then Fail (ruleError ErrNoTxInputs)
  else if zlen (tx_TxOut msgTx) =? 0 then Fail (ruleError ErrNoTxOutputs)
  else if MaxBlockVsize <? GetTransactionVsize msgTx then Fail (ruleError ErrTxTooBig)
  else
    check_outputs (tx_TxOut msgTx) 0 ≫= λ _,
    check_duplicates (tx_TxIn msgTx) ∅ ≫= λ _,
    if IsCoinBase msgTx then
      txIn ← go_index (tx_TxIn msgTx) 0;
      let slen := zlen (SignatureScript txIn) in
      if (slen <? MinCoinbaseScriptLen) || (MaxCoinbaseScriptLen <? slen)
      then Fail (ruleError ErrBadCoinbaseScriptLen)
      else Ok ()
    else if existsb (λ txIn, isNullOutpoint (PreviousOutPoint txIn)) (tx_TxIn msgTx)
    then Fail (ruleError ErrBadTxInput)
    else Ok ().

(** *** The height in the coinbase script *)

Definition compareScript (height : Z) (script : bytes) : result RuleErr unit :=
  scriptHeight ← lift_script (b ← AddInt64 NewScriptBuilder height; Script b);
  if bool_decide (scriptHeight `prefix_of` script) then Ok ()
  else Fail (ruleError ErrBadCoinbaseHeight).

Definition ExtractCoinbaseHeight (coinbaseTx : MsgTx) : result RuleErr Z :=
  txIn ← go_index (tx_TxIn coinbaseTx) 0;
  let sigScript := SignatureScript txIn in
  if zlen sigScript <? 1 then Fail (ruleError ErrMissingCoinbaseHeight)
  else
    b0 ← go_index sigScript 0;
    let opcode := b2z b0 in
    if opcode =? OP_0 then Ok 0
    else if (OP_1 <=? opcode) && (opcode <=? OP_16) then Ok (i32 (opcode - (OP_1 - 1)))
    else
      let serializedLen := opcode in
      rest ← go_slice sigScript 1 (zlen sigScript);
      if zlen rest <? serializedLen then Fail (ruleError ErrMissingCoinbaseHeight)
      else
        data ← go_slice sigScript 1 (serializedLen + 1);
        (* copy into an array of four zero bytes *)
        let serializedHeightBytes := take 4 (data ++ replicate 4 x00) in
        let serializedHeight := i32 (le_get serializedHeightBytes) in
        compareScript serializedHeight sigScript ≫= λ _,
        Ok serializedHeight.

Definition CheckSerializedHeight (coinbaseTx : MsgTx) (wantHeight : Z) : result RuleErr unit :=
  serializedHeight ← ExtractCoinbaseHeight coinbaseTx;
  if negb (serializedHeight =? wantHeight) then Fail (ruleError ErrBadCoinbaseHeight)
  else Ok ().

(** ** Sanity *)

Fixpoint total_value (outs : list TxOut) : Z :=
  match outs with [] => 0 | o :: outs => Value o + total_value outs end.

Lemma total_value_nonneg outs : Forall (λ o, 0 <= Value o) outs → 0 <= total_value outs.
Proof. induction 1; cbn [total_value]; lia. Qed.

Lemma check_outputs_ok outs total :
  Forall (λ o, is_i64 (Value o)) outs → 0 <= total <= MaxGrain →
  check_outputs outs total = Ok () ↔
  Forall (λ o, supported_class (GetScriptClass (PkScript o)) = true ∧ 0 <= Value o) outs ∧
  total + total_value outs <= MaxGrain.
Proof.
  revert total. induction outs as [|o outs IH]; intros total Hi Ht; cbn [check_outputs total_value].
  { split; [intros _; split; [done|lia]|done]. }
  inversion Hi as [|? ? Hio Hi']; subst.
  destruct (supported_class _) eqn:Ec; cbn [negb].
  2:{ split; [done|]. intros [[[? _] _]%Forall_cons _]. congruence. }
  destruct (Z.ltb_spec (Value o) 0).
  { split; [done|]. intros [[[_ ?] _]%Forall_cons _]. lia. }
  destruct (Z.ltb_spec MaxGrain (Value o)).
  { split; [done|]. intros [[_ Hf']%Forall_cons Hle].
    pose proof (total_value_nonneg outs ltac:(eapply Forall_impl; [exact Hf'|naive_solver])). lia. }
  assert (HM : MaxGrain = 2100000000000000000) by done.
  rewrite i64_small by (unfold is_i64; lia). rewrite (proj2 (Z.ltb_ge _ 0)) by lia.
  destruct (Z.ltb_spec MaxGrain (total + Value o)).
  { split; [done|]. intros [[_ Hf']%Forall_cons Hle].
    pose proof (total_value_nonneg outs ltac:(eapply Forall_impl; [exact Hf'|naive_solver])). lia. }
  rewrite IH by (done || lia). rewrite Forall_cons, <-Z.add_assoc. naive_solver.
Qed.

Lemma check_duplicates_ok ins seen :
  check_duplicates ins seen = Ok () ↔
  NoDup (PreviousOutPoint <$> ins) ∧ ∀ i, i ∈ ins → PreviousOutPoint i ∉ seen.
Proof.
  revert seen. induction ins as [|i ins IH]; intros seen; cbn [check_duplicates fmap list_fmap].
  { split; [intros _; split; [constructor|set_solver]|done]. }
  case_bool_decide as Hin.
  - split; [done|]. intros [_ H]. destruct (H i); [left|done].
  - rewrite IH, NoDup_cons. split.
    + intros [Hnd Hs]. split_and!; [|done|set_solver].
      intros (j & E & Hj)%list_elem_of_fmap. destruct (Hs j Hj). rewrite <-E. set_solver.
    + intros [[Hni Hnd] Hs]. split; [done|]. intros j Hj [E%elem_of_singleton|?]%elem_of_union.
      * destruct Hni. apply list_elem_of_fmap. eauto.
      * destruct (Hs j); [by right|done].
Qed.

Lemma foldl_add_ge {A} (f : A → Z) l n : (∀ x, 0 <= f x) → n <= foldl (λ n x, n + f x) n l.
Proof.
  intros Hf. revert n. induction l as [|x l IH]; intros n; cbn [foldl]; [done|].
  etrans; [|apply IH]. pose proof (Hf x). lia.
Qed.

Lemma VarIntSerializeSize_nonneg n : 0 <= VarIntSerializeSize n.
Proof. unfold VarIntSerializeSize. repeat case_match; lia. Qed.

Lemma TxWitness_SerializeSize_nonneg w : 0 <= TxWitness_SerializeSize w.
Proof.
  unfold TxWitness_SerializeSize. etrans; [apply (VarIntSerializeSize_nonneg (u64 (zlen w)))|].
  generalize (VarIntSerializeSize (u64 (zlen w))). intros n. revert n.
  induction w as [|x w IH]; intros n; cbn [foldl]; [done|]. etrans; [|apply IH].
  pose proof (zlen_nonneg x). pose proof (VarIntSerializeSize_nonneg (u64 (zlen x))). lia.
Qed.

Lemma SerializeSize_ge tx : baseSize tx <= SerializeSize tx.
Proof.
  unfold SerializeSize. cbv zeta. destruct (HasWitness tx); [|done].
  etrans; [|apply (foldl_add_ge (λ i, TxWitness_SerializeSize (Witness i)))].
  - lia.
  - intros i. apply TxWitness_SerializeSize_nonneg.
Qed.

(** The virtual size of a transaction counts the bytes without witnesses in
    full and the others by quarters, rounded up. *)
Lemma GetTransactionVsize_le tx m :
  wf_MsgTx tx →
  GetTransactionVsize tx <= m ↔
  4 * zlen (SerializeNoWitness tx) + (zlen (Serialize tx) - zlen (SerializeNoWitness tx)) <= 4 * m.
Proof.
  intros Hwf. unfold SerializeNoWitness, Serialize, PrlEncode. rewrite !prlEncode_size by done.
  assert (doWitness BaseEncoding tx = false) as -> by done.
  assert (Hs : (if doWitness WitnessEncoding tx then SerializeSize tx else baseSize tx) = SerializeSize tx).
  { unfold doWitness, SerializeSize. cbn [bool_decide decide]. by destruct (HasWitness tx). }
  rewrite Hs. unfold GetTransactionVsize, CalcVsize, SerializeSizeStripped, WitnessScaleFactor.
  pose proof (SerializeSize_ge tx).
  rewrite Z.quot_div_nonneg by lia.
  pose proof (Z.div_mod (SerializeSize tx - baseSize tx + 4 - 1) 4 ltac:(lia)).
  pose proof (Z.mod_pos_bound (SerializeSize tx - baseSize tx + 4 - 1) 4 ltac:(lia)). lia.
Qed.

(** What the context-free checks ask of a transaction. *)
Record sane_tx (tx : MsgTx) : Prop := {
  sane_ins : tx_TxIn tx ≠ [];
  sane_outs : tx_TxOut tx ≠ [];
  sane_size : 4 * zlen (SerializeNoWitness tx) + (zlen (Serialize tx) - zlen (SerializeNoWitness tx)) <= 4 * MaxBlockVsize;
  sane_scripts : Forall (λ o, supported_class (GetScriptClass (PkScript o)) = true ∧ 0 <= Value o) (tx_TxOut tx);
  sane_total : total_value (tx_TxOut tx) <= MaxGrain;
  sane_nodup : NoDup (PreviousOutPoint <$> tx_TxIn tx);
  sane_prevouts :
    if IsCoinBase tx
    then ∀ i, tx_TxIn tx = [i] → MinCoinbaseScriptLen <= zlen (SignatureScript i) <= MaxCoinbaseScriptLen
    else Forall (λ i, isNullOutpoint (PreviousOutPoint i) = false) (tx_TxIn tx);
}.

Lemma IsCoinBase_single tx : IsCoinBase tx = true → ∃ i, tx_TxIn tx = [i].
Proof. unfold IsCoinBase, IsCoinBaseTx. destruct (tx_TxIn tx) as [|i [|]]; [done|eauto|done]. Qed.

(** The last of the checks. *)
Lemma sanity_inputs tx :
  (if IsCoinBase tx then
      txIn ← go_index (tx_TxIn tx) 0;
      let slen := zlen (SignatureScript txIn) in
      if (slen <? MinCoinbaseScriptLen) || (MaxCoinbaseScriptLen <? slen)
      then Fail (ruleError ErrBadCoinbaseScriptLen)
      else Ok ()
    else if existsb (λ txIn, isNullOutpoint (PreviousOutPoint txIn)) (tx_TxIn tx)
    then Fail (ruleError ErrBadTxInput)
    else Ok ()) = Ok () ↔
  if IsCoinBase tx
  then ∀ i, tx_TxIn tx = [i] → MinCoinbaseScriptLen <= zlen (SignatureScript i) <= MaxCoinbaseScriptLen
  else Forall (λ i, isNullOutpoint (PreviousOutPoint i) = false) (tx_TxIn tx).
Proof.
  destruct (IsCoinBase tx) eqn:Ecb.
  - destruct (IsCoinBase_single tx Ecb) as [i ->]. rewrite go_index_0. cbn [mbind result_bind].
    destruct (_ || _) eqn:E.
    + split; [done|]. intros H. specialize (H i eq_refl). apply orb_true_iff in E as [E|E]; lia.
    + split; [|done]. intros _ j [= <-]. apply orb_false_iff in E as [E1 E2]. lia.
  - destruct (existsb _ _) eqn:E.
    + split; [done|]. rewrite Forall_forall. apply existsb_exists in E as (i & Hi & E). intros H.
      apply list_elem_of_In in Hi. apply H in Hi. congruence.
    + split; [|done]. intros _. apply Forall_forall. intros i Hi. apply not_true_is_false. intros Ei.
      apply not_true_iff_false in E. apply E, existsb_exists. exists i. split; [by apply list_elem_of_In|done].
Qed.

Lemma check_outputs_no_panic outs total : no_panic (check_outputs outs total).
Proof. revert total. induction outs; intros; cbn; [done|]. repeat case_match; (done || apply IHouts). Qed.

Lemma check_duplicates_no_panic ins seen : no_panic (check_duplicates ins seen).
Proof. revert seen. induction ins; intros; cbn; [done|]. repeat case_match; (done || apply IHins). Qed.

Lemma go_index_first {E A} (x : A) l : ∃ y, go_index (E:=E) (x :: l) 0 = Ok y.
Proof. exists x. apply go_index_0. Qed.

Lemma CheckTransactionSanity_iff tx :
  wf_MsgTx tx →
  no_panic (CheckTransactionSanity tx) ∧ (CheckTransactionSanity tx = Ok () ↔ sane_tx tx).
Proof.
  intros Hwf.
  assert (Hi : Forall (λ o, is_i64 (Value o)) (tx_TxOut tx)).
  { destruct Hwf as (_ & _ & _ & _ & Ho & _). eapply Forall_impl; [exact Ho|]. by intros o [? _]. }
  pose proof (GetTransactionVsize_le tx MaxBlockVsize Hwf) as Hv.
  pose proof (check_outputs_ok (tx_TxOut tx) 0 Hi ltac:(done)) as Ho.
  pose proof (check_duplicates_ok (tx_TxIn tx) ∅) as Hd. pose proof (sanity_inputs tx) as Hin.
  pose proof (check_outputs_no_panic (tx_TxOut tx) 0). pose proof (check_duplicates_no_panic (tx_TxIn tx) ∅).
  unfold CheckTransactionSanity.
  destruct (tx_TxIn tx) as [|i0 ins] eqn:Ei.
  { split; [done|]. split; [done|]. intros []; by rewrite Ei in *. }
  destruct (tx_TxOut tx) as [|o0 outs] eqn:Eo.
  { split; [done|]. split; [done|]. intros []; by rewrite Eo in *. }
  rewrite !(proj2 (Z.eqb_neq (zlen _) 0)) by (rewrite zlen_cons; pose proof (zlen_nonneg ins); pose proof (zlen_nonneg outs); lia).
  destruct (Z.ltb_spec MaxBlockVsize (GetTransactionVsize tx)) as [Hbig|Hsmall].
  { split; [done|]. split; [done|]. intros []. lia. }
  destruct (check_outputs _ _) as [[]| |] eqn:Eco; cbn [mbind result_bind]; [|split; [done|]; split; [done|]|done].
  2:{ intros []. rewrite Eo in *. destruct Ho as [_ Ho]. by discriminate Ho. }
  destruct (check_duplicates _ _) as [[]| |] eqn:Ecd; cbn [mbind result_bind]; [|split; [done|]; split; [done|]|done].
  2:{ intros []. rewrite Ei in *. destruct Hd as [_ Hd]. discriminate Hd. set_solver. }
  split.
  { destruct (IsCoinBase tx); [rewrite go_index_0; cbn [mbind result_bind]|]; cbn zeta; by case_match. }
  rewrite Hin. destruct (proj1 Ho eq_refl) as [Hsc Htot]. destruct (proj1 Hd eq_refl) as [Hnd _].
  split; [|intros []; by rewrite Ei in *].
  intros Hlast. constructor; rewrite ?Ei, ?Eo; try done. by apply Hv.
Qed.

(** C28 [CheckTransactionSanity] does not panic, and accepts exactly the
    transactions with inputs and outputs, a virtual size within that of a
    block, outputs to supported scripts of non-negative amounts that sum up to
    at most [MaxGrain] without overflow, distinct previous outputs, none of them
    null except the coinbase's, whose script is of 2 to 100 bytes. *)
Theorem CheckTransactionSanity_spec tx :
  wf_MsgTx tx →
  no_panic (CheckTransactionSanity tx) ∧ (CheckTransactionSanity tx = Ok () ↔ sane_tx tx).
Proof. apply CheckTransactionSanity_iff. Qed.

(** ** The height in the coinbase *)

(** The script that pushes a height. *)
Definition height_script (h : Z) : result ScriptErr bytes := b ← AddInt64 NewScriptBuilder h; Script b.

(** Heights above 16 are pushed as their little-endian bytes. *)
Lemma height_bytes h :
  17 <= h < 2 ^ 31 →
  ∃ v, Bytes h = Ok v ∧ 1 <= zlen v <= 4 ∧ le_get v = h ∧
       (zlen v = 1 → ∃ b, v = [b] ∧ 17 <= b2z b < 128).
Proof.
  intros Hh. destruct (Bytes_sign_extend h) as (lo & b & Hb & Hv & E); [unfold is_i64; lia|lia|lia|].
  rewrite (proj2 (Z.ltb_ge h 0)) in E by lia. rewrite Z.abs_eq in Hv by lia.
  pose proof (sign_extend_length false lo b 4 Hb ltac:(rewrite Hv; lia) ltac:(lia)) as Hl.
  exists (sign_extend false lo b). split; [done|]. unfold sign_extend in *.
  pose proof (b2z_range b).
  destruct (Z.ltb_spec (b2z b) 128).
  - rewrite Z.add_0_r, z2b_b2z in *. rewrite zlen_snoc in *. pose proof (zlen_nonneg lo).
    split_and!; [lia|lia|done|]. intros Hlo. assert (lo = []) as -> by (apply zlen_0; lia).
    exists b. split; [done|]. cbn in Hv. lia.
  - rewrite !zlen_snoc in *. pose proof (zlen_nonneg lo). split_and!; [lia|lia| |lia].
    rewrite le_get_app. cbn [le_get]. rewrite b2z_z2b_small by lia. lia.
Qed.

(** Two to four bytes, or one that no opcode stands for, are pushed with their
    length. *)
Lemma AddData_short v :
  1 <= zlen v <= 4 → (zlen v = 1 → ∃ b, v = [b] ∧ 17 <= b2z b < 128) →
  AddData (mkBuilder [] None) v = mkBuilder (z2b (zlen v) :: v) None.
Proof.
  intros Hl H1. unfold AddData, addData, canonicalDataSize. cbn [b_err b_script].
  assert (Hn : zlen v = 1 → 17 <= match v with d :: _ => b2z d | [] => 0 end < 128).
  { intros Hz. by destruct (H1 Hz) as (b & -> & Hb). }
  set (d0 := match v with d :: _ => b2z d | [] => 0 end) in *.
  assert (E0 : (zlen v =? 1) && (d0 =? 0) = false ∧ (zlen v =? 1) && (d0 <=? 16) = false ∧
               (zlen v =? 1) && (d0 =? 0x81) = false).
  { destruct (Z.eqb_spec (zlen v) 1) as [Hz|Hz]; [|done]. specialize (Hn Hz). cbn [andb].
    by rewrite (proj2 (Z.leb_gt d0 16)), (proj2 (Z.eqb_neq d0 0x81)), (proj2 (Z.eqb_neq d0 0)) by lia. }
  destruct E0 as (-> & -> & ->).
  assert (Hp : (zlen v <? OP_PUSHDATA1) = true) by (apply Z.ltb_lt; unfold OP_PUSHDATA1; lia).
  rewrite (proj2 (Z.eqb_neq (zlen v) 0)), Hp by lia. cbn [orb].
  rewrite (proj2 (Z.ltb_ge MaxScriptSize _)) by (unfold MaxScriptSize; rewrite zlen_nil; lia).
  rewrite (proj2 (Z.ltb_ge MaxScriptElementSize _)) by (unfold MaxScriptElementSize; lia).
  unfold append_script. cbn [b_script b_err app]. unfold OP_DATA_1. done.
Qed.

Lemma height_script_spec h :
  0 <= h < 2 ^ 31 →
  ∃ s, height_script h = Ok s ∧
    (h = 0 ∧ s = [z2b OP_0] ∨ 1 <= h <= 16 ∧ s = [z2b (OP_1 - 1 + h)] ∨
     17 <= h ∧ ∃ v, s = z2b (zlen v) :: v ∧ 1 <= zlen v <= 4 ∧ le_get v = h).
Proof.
  intros Hh. unfold height_script, AddInt64. cbn [NewScriptBuilder b_err].
  change (MaxScriptSize <? zlen (b_script (mkBuilder [] None)) + 1) with false. cbn match.
  destruct (Z.eqb_spec h 0) as [->|H0]; [eexists; split; [done|by left]|].
  rewrite (proj2 (Z.eqb_neq h (-1))) by lia. cbn [orb].
  destruct ((1 <=? h) && (h <=? 16)) eqn:Esmall.
  { eexists. split; [done|]. right; left. apply andb_true_iff in Esmall. split; [lia|done]. }
  assert (17 <= h) by (apply andb_false_iff in Esmall as [E|E]; lia).
  destruct (height_bytes h) as (v & E & Hl & Hv & H1); [lia|].
  rewrite E. cbn [mbind result_bind]. unfold NewScriptBuilder. rewrite AddData_short by done.
  exists (z2b (zlen v) :: v). split; [done|]. right; right. eauto 10.
Qed.

Lemma le_get_zeros n : le_get (replicate n x00) = 0.
Proof. induction n as [|n IH]; cbn [replicate le_get]; [done|]. by rewrite IH. Qed.

(** Reading the height back. *)
Lemma ExtractCoinbaseHeight_script tx i ins h s rest :
  tx_TxIn tx = i :: ins → 0 <= h < 2 ^ 31 → height_script h = Ok s →
  SignatureScript i = s ++ rest → ExtractCoinbaseHeight tx = Ok h.
Proof.
  intros Ei Hh Hs Esig. unfold ExtractCoinbaseHeight. rewrite Ei, go_index_0. cbn [mbind result_bind]. rewrite Esig.
  destruct (height_script_spec h Hh) as (s' & Hs' & Hc). rewrite Hs in Hs'. injection Hs' as <-.
  pose proof (zlen_nonneg rest).
  destruct Hc as [[-> ->]|[[Hsm ->]|(H17 & v & -> & Hl & Hv)]]; cbn [app].
  - rewrite zlen_cons, (proj2 (Z.ltb_ge _ _)), go_index_0 by lia. done.
  - rewrite zlen_cons, (proj2 (Z.ltb_ge _ _)), go_index_0 by lia. cbn [mbind result_bind].
    unfold OP_0, OP_1, OP_16. rewrite b2z_z2b_small by lia.
    rewrite (proj2 (Z.eqb_neq _ _)), !(proj2 (Z.leb_le _ _)) by lia. cbn [andb].
    f_equal. rewrite i32_small; unfold is_i32; lia.
  - rewrite zlen_cons, zlen_app, (proj2 (Z.ltb_ge _ 1)), go_index_0 by lia. cbn [mbind result_bind].
    unfold OP_0, OP_1, OP_16. rewrite b2z_z2b_small by lia.
    rewrite (proj2 (Z.eqb_neq _ _)), (proj2 (Z.leb_gt _ _)) by lia. cbn [andb].
    rewrite (go_slice_cons _ (v ++ rest) (1 + (zlen v + zlen rest))) by (rewrite zlen_app; lia). cbn [mbind result_bind].
    rewrite zlen_app, (proj2 (Z.ltb_ge _ _)) by lia.
    rewrite (go_slice_at [z2b (zlen v)] v rest) by (rewrite ?zlen_cons, ?zlen_nil; lia). cbn [mbind result_bind].
    assert (El : i32 (le_get (take 4 (v ++ replicate 4 x00))) = h).
    { assert (Hz : take 4 (v ++ replicate 4 x00) = v ++ replicate (4 - length v) x00).
      { rewrite take_app_ge by (unfold zlen in *; lia). by rewrite take_replicate, Nat.min_l by lia. }
      rewrite Hz, le_get_app, le_get_zeros, Z.mul_0_r, Z.add_0_r, Hv. apply i32_small. unfold is_i32. lia. }
    rewrite El. unfold compareScript. fold (height_script h). rewrite Hs. cbn [lift_script mbind result_bind].
    rewrite bool_decide_true; [done|]. by exists rest.
Qed.

(** What a script is read as, it starts with. *)
Lemma ExtractCoinbaseHeight_prefix tx i ins h :
  tx_TxIn tx = i :: ins → 0 <= h → ExtractCoinbaseHeight tx = Ok h →
  ∃ s, height_script h = Ok s ∧ s `prefix_of` SignatureScript i.
Proof.
  intros Ei Hh. unfold ExtractCoinbaseHeight. rewrite Ei, go_index_0. cbn [mbind result_bind].
  destruct (SignatureScript i) as [|b0 script] eqn:Esig; [done|].
  case_match; [done|]. rewrite go_index_0. cbn [mbind result_bind].
  pose proof (b2z_range b0).
  destruct (Z.eqb_spec (b2z b0) OP_0) as [E0|E0].
  { intros [= <-]. exists [z2b OP_0]. split; [done|]. exists script. cbn. by rewrite <-E0, z2b_b2z. }
  destruct (_ && _) eqn:Esm.
  { apply andb_true_iff in Esm as [E1 E2]. unfold OP_1, OP_16 in *. intros [= <-].
    rewrite i32_small in * by (unfold is_i32; lia).
    destruct (height_script_spec (b2z b0 - (81 - 1)) ltac:(lia)) as (s & Hs & [[? _]|[[_ ->]|[? _]]]); [lia| |lia].
    exists [z2b (OP_1 - 1 + (b2z b0 - (81 - 1)))]. split; [done|]. exists script. cbn [app]. f_equal.
    unfold OP_1. symmetry. etrans; [|apply z2b_b2z]. f_equal. lia. }
  rewrite (go_slice_cons _ script (zlen (b0 :: script))) by apply zlen_cons. cbn [mbind result_bind].
  case_match; [done|]. destruct (go_slice _ _ _) as [data| |]; [|done..]. cbn [mbind result_bind].
  unfold compareScript. set (h' := i32 _). fold (height_script h').
  destruct (height_script h') as [s| |] eqn:Es; cbn [lift_script mbind result_bind]; [|done..].
  case_bool_decide as Hpre; [|done]. intros [= <-]. eauto.
Qed.

Lemma CheckSerializedHeight_ok tx want :
  CheckSerializedHeight tx want = Ok () ↔ ExtractCoinbaseHeight tx = Ok want.
Proof.
  unfold CheckSerializedHeight. destruct (ExtractCoinbaseHeight tx) as [h| |]; cbn [mbind result_bind]; [|done..].
  destruct (Z.eqb_spec h want); cbn [negb]; naive_solver.
Qed.

(** [CheckSerializedHeight] accepts a height of a block exactly when the
    coinbase script starts with the script the builder makes to push it. *)
Theorem CheckSerializedHeight_spec tx i ins want :
  tx_TxIn tx = i :: ins → 0 <= want < 2 ^ 31 →
  ∃ s, height_script want = Ok s ∧
       (CheckSerializedHeight tx want = Ok () ↔ s `prefix_of` SignatureScript i).
Proof.
  intros Ei Hw. destruct (height_script_spec want Hw) as (s & Hs & _). exists s. split; [done|].
  rewrite CheckSerializedHeight_ok. split.
  - intros E. destruct (ExtractCoinbaseHeight_prefix tx i ins want Ei ltac:(lia) E) as (s' & Hs' & Hp). congruence.
  - intros [rest Hr]. by eapply ExtractCoinbaseHeight_script.
Qed.

(** A negative number the reading of the height takes for canonical. *)
Definition odd_coinbase : MsgTx :=
  mkMsgTx 1 [mkTxIn (mkOutPoint zeroHash MaxUint32) [x04; x00; x00; x00; xc0] [] MaxUint32] [] 0.

Lemma ExtractCoinbaseHeight_negative : ExtractCoinbaseHeight odd_coinbase = Ok (- 2 ^ 30).
Proof. reflexivity. Qed.

(** ** Examples *)

(** A coinbase of block 300. *)
Definition demo_coinbase : MsgTx :=
  mkMsgTx 1 [mkTxIn (mkOutPoint zeroHash MaxUint32) [x02; x2c; x01; x00] [] MaxUint32]
    [mkTxOut 5000 (z2b OP_1 :: x20 :: replicate 32 x07)] 0.

Lemma demo_coinbase_wf : wf_MsgTx demo_coinbase.
Proof.
  unfold wf_MsgTx, wf_TxIn, wf_TxOut, wf_TxWitness, wf_OutPoint, wf_script, demo_coinbase.
  cbn [tx_Version tx_TxIn tx_TxOut tx_LockTime].
  split_and!; repeat constructor; vm_compute; congruence.
Qed.

Lemma demo_coinbase_sane : CheckTransactionSanity demo_coinbase = Ok ().
Proof. by vm_compute. Qed.

Lemma CheckTransactionSanity_spec_witness : sane_tx demo_coinbase.
Proof. exact (proj1 (proj2 (CheckTransactionSanity_spec demo_coinbase demo_coinbase_wf)) demo_coinbase_sane). Defined.

Lemma CheckSerializedHeight_spec_witness :
  ∃ s, height_script 300 = Ok s ∧ (CheckSerializedHeight demo_coinbase 300 = Ok () ↔ s `prefix_of` [x02; x2c; x01; x00]).
Proof. exact (CheckSerializedHeight_spec demo_coinbase _ [] 300 eq_refl ltac:(lia)). Defined.
