(* ===== verification/Merkle.v ===== *)
(** * Merkle trees (blockchain/merkle.go, rolling_merkle.go)

    The tree stored as an array, the rolling computation of its root, and the
    commitment to the witnesses in the coinbase.  The tree of no transactions
    indexes an empty slice. *)
From stdpp Require Import strings.
From Stdlib Require Import Lia ZArith.
From S2P Require Import Prelude Wire MsgTx ScriptError Opcode Standard Crypto SigHash RuleError TxRules.

(** ** Definitions *)

(** [1 << (uint(math.Log2(float64(n))) + 1)]: the integer part of the logarithm
    is exact for the lengths of slices. *)
Definition nextPowerOfTwo (n : Z) : Z :=
  if Z.land n (n - 1) =? 0 then n
  else Z.shiftl 1 (Z.log2 n + 1).

Section merkle.
Context `{HashFns}.

(** Both halves are hashes of 32 bytes. *)
Definition HashMerkleBranches (left right : bytes) : bytes := DoubleHashRaw (left ++ right).

(** The leaf of the [i]-th transaction. *)
Definition leaf_hash (witness : bool) (i : nat) (tx : MsgTx) : bytes :=
  if witness && (i =? 0)%nat then zeroHash
  else if witness then WitnessHash tx
  else TxHash tx.

(** *** The array *)

(** [merkles[i] = x] *)
Definition go_store {E A} (l : list A) (i : Z) (x : A) : result E (list A) :=
  if (0 <=? i) && (i <? zlen l) then Ok (<[Z.to_nat i := x]> l) else Panic.

(** The parent of two entries. *)
Definition parent_entry (left right : option bytes) : option bytes :=
  match left, right with
  | None, _ => None
  | Some l, None => Some (HashMerkleBranches l l)
  | Some l, Some r => Some (HashMerkleBranches l r)
  end.

(** [for i := 0; i < arraySize-1; i += 2], with [n] rounds left. *)
Fixpoint build_loop (n : nat) (i offset : Z) (merkles : list (option bytes)) : result Empty_set (list (option bytes)) :=
  match n with
  | O => Ok merkles
  | S n =>
      left ← go_index merkles i;
      right ← (if bool_decide (left = None) then Ok None else go_index merkles (i + 1));
      merkles ← go_store merkles offset (parent_entry left right);
      build_loop n (i + 2) (offset + 1) merkles
  end.

Definition BuildMerkleTreeStore (transactions : list MsgTx) (witness : bool) : result Empty_set (list (option bytes)) :=
  let nextPoT := nextPowerOfTwo (zlen transactions) in
  let arraySize := nextPoT * 2 - 1 in
  if arraySize <? 0 then Panic
  else
    let leaves := imap (leaf_hash witness) transactions in
    let merkles := map Some leaves ++ replicate (Z.to_nat (arraySize - zlen transactions)) None in
    build_loop (Z.to_nat (Z.quot arraySize 2)) 0 nextPoT merkles.

(** *** The rolling computation *)

Record rollingMerkleTreeStore := mkStore { roots : list bytes; numLeaves : Z }.

Definition newRollingMerkleTreeStore (size : Z) : rollingMerkleTreeStore := mkStore [] 0.

(** [for h := uint8(0); (s.numLeaves>>h)&1 == 1; h++]: at most 64 bits are set. *)
Fixpoint add_loop (fuel : nat) (h : Z) (n : Z) (rs : list bytes) (newRoot : bytes) : result Empty_set (list bytes * bytes) :=
  match fuel with
  | O => Panic
  | S fuel =>
      if Z.land (Z.shiftr n h) 1 =? 1 then
        root ← go_index rs (zlen rs - 1);
        rs ← go_slice rs 0 (zlen rs - 1);
        add_loop fuel (h + 1) n rs (HashMerkleBranches root newRoot)
      else Ok (rs, newRoot)
  end.

Definition add (s : rollingMerkleTreeStore) (x : bytes) : result Empty_set rollingMerkleTreeStore :=
  '(rs, newRoot) ← add_loop 65 0 (numLeaves s) (roots s) x;
  Ok (mkStore (rs ++ [newRoot]) (u64 (numLeaves s + 1))).

(** [for i := range adds] *)
Fixpoint add_all (s : rollingMerkleTreeStore) (l : list bytes) : result Empty_set rollingMerkleTreeStore :=
  match l with
  | [] => Ok s
  | x :: l => s ← add s x; add_all s l
  end.

(** [for h := uint8(0); (currentLeaves>>h)&1 == 0; h++ { s.numLeaves >>= 1 }] *)
Fixpoint strip_loop (fuel : nat) (h : Z) (currentLeaves n : Z) : result Empty_set Z :=
  match fuel with
  | O => Panic
  | S fuel =>
      if Z.land (Z.shiftr currentLeaves h) 1 =? 0
      then strip_loop fuel (h + 1) currentLeaves (Z.shiftr n 1)
      else Ok n
  end.

(** [for len(s.roots) > 1] *)
Fixpoint fold_loop (fuel : nat) (s : rollingMerkleTreeStore) : result Empty_set rollingMerkleTreeStore :=
  if zlen (roots s) <=? 1 then Ok s
  else
    match fuel with
    | O => Panic
    | S fuel =>
        n ← strip_loop 65 0 (numLeaves s) (numLeaves s);
        h ← go_index (roots s) (zlen (roots s) - 1);
        s ← add (mkStore (roots s) n) h;
        fold_loop fuel s
    end.

Definition calcMerkleRoot (s : rollingMerkleTreeStore) (adds : list MsgTx) (witness : bool) : result Empty_set bytes :=
  s ← add_all s (imap (leaf_hash witness) adds);
  if numLeaves s =? 1 then go_index (roots s) 0
  else
    s ← (if (0 <? zlen adds) && negb (Z.rem (zlen adds) 2 =? 0) then
           tx ← go_index adds (zlen adds - 1);
           add s (if witness then WitnessHash tx else TxHash tx)
         else Ok s);
    s ← fold_loop 64 s;
    go_index (roots s) 0.

Definition CalcMerkleRoot (transactions : list MsgTx) (witness : bool) : result Empty_set bytes :=
  let s := newRollingMerkleTreeStore (zlen transactions) in
  calcMerkleRoot s transactions witness.

(** ** The tree *)

(** The row above: pairs hashed, an odd last one with itself. *)
Fixpoint row_above (l : list bytes) : list bytes :=
  match l with
  | [] => []
  | [x] => [HashMerkleBranches x x]
  | x :: y :: l => HashMerkleBranches x y :: row_above l
  end.

Inductive merkle_root : list bytes → bytes → Prop :=
| root_single x : merkle_root [x] x
| root_above x y l r : merkle_root (row_above (x :: y :: l)) r → merkle_root (x :: y :: l) r.

Lemma merkle_root_det l r r' : merkle_root l r → merkle_root l r' → r' = r.
Proof. intros Hr. revert r'. induction Hr as [x|x y l r Hr IH]; intros r'; inversion 1; subst; auto. Qed.

(** The rows of a tree of height [k], each filled up with empty entries to the
    power of two. *)
Fixpoint rows (k : nat) (l : list bytes) : list (option bytes) :=
  map Some l ++ replicate (2 ^ k - length l) None ++
  match k with O => [] | S k => rows k (row_above l) end.

(** ** The array holds the rows *)

Lemma length_row_above l : length (row_above l) = ((length l + 1) / 2)%nat.
Proof.
  induction l as [l IH] using (induction_ltof1 _ (@length bytes)). unfold ltof in IH.
  destruct l as [|x [|y l]]; [done|done|]. cbn [row_above length].
  rewrite IH by (cbn; lia). replace (S (S (length l)) + 1)%nat with (length l + 1 + 1 * 2)%nat by lia.
  rewrite Nat.div_add by lia. lia.
Qed.

Lemma row_above_bounds l : (length l <= 2 * length (row_above l) <= length l + 1)%nat.
Proof.
  rewrite length_row_above. pose proof (Nat.div_mod_eq (length l + 1) 2).
  pose proof (Nat.mod_upper_bound (length l + 1) 2). lia.
Qed.

Fixpoint pairs_above (l : list (option bytes)) : list (option bytes) :=
  match l with x :: y :: l => parent_entry x y :: pairs_above l | _ => [] end.

Lemma pairs_above_none m : pairs_above (replicate (2 * m) None) = replicate m None.
Proof.
  induction m as [|m IH]; [done|]. replace (2 * S m)%nat with (S (S (2 * m))) by lia.
  cbn [replicate pairs_above parent_entry]. by rewrite IH.
Qed.

Lemma pairs_above_row m l :
  (length l <= 2 * m)%nat →
  pairs_above (map Some l ++ replicate (2 * m - length l) None) =
  map Some (row_above l) ++ replicate (m - length (row_above l)) None.
Proof.
  revert m. induction l as [l IH] using (induction_ltof1 _ (@length bytes)). unfold ltof in IH.
  intros m Hm. destruct l as [|x [|y l]]; cbn [map app length row_above] in *.
  - rewrite !Nat.sub_0_r. apply pairs_above_none.
  - destruct m as [|m]; [lia|]. replace (2 * S m - 1)%nat with (S (2 * m)) by lia.
    cbn [replicate pairs_above parent_entry]. rewrite pairs_above_none. by replace (S m - 1)%nat with m by lia.
  - destruct m as [|m]; [lia|]. cbn [pairs_above parent_entry]. f_equal.
    replace (2 * S m - S (S (length l)))%nat with (2 * m - length l)%nat by lia.
    apply IH; cbn; lia.
Qed.

Lemma length_pairs_above l m : length l = (2 * m)%nat → length (pairs_above l) = m.
Proof.
  revert l. induction m as [|m IH]; intros [|x [|y l]] Hl; cbn [pairs_above length] in *; try lia.
  rewrite IH; lia.
Qed.

Lemma go_store_mid {E A} (pre : list A) x k y i :
  i = zlen pre → go_store (E:=E) (pre ++ x :: k) i y = Ok (pre ++ y :: k).
Proof.
  intros ->. unfold go_store. pose proof (zlen_nonneg pre). pose proof (zlen_nonneg k).
  rewrite (proj2 (andb_true_iff _ _)) by (rewrite zlen_app, zlen_cons; lia).
  f_equal. rewrite to_nat_zlen. by rewrite insert_app_r_alt, Nat.sub_diag by done.
Qed.

(** One round. *)
Lemma build_round n pre x y k mid z rest i offset :
  i = zlen pre → offset = zlen pre + 2 + zlen k + zlen mid →
  build_loop (S n) i offset (pre ++ x :: y :: k ++ mid ++ z :: rest) =
  build_loop n (i + 2) (offset + 1) (pre ++ x :: y :: k ++ mid ++ parent_entry x y :: rest).
Proof.
  intros Hi Ho. cbn [build_loop]. rewrite (go_index_mid pre _ _ i) by done. cbn [mbind result_bind].
  assert (Hr : (if bool_decide (x = None) then Ok None
                else go_index (E:=Empty_set) (pre ++ x :: y :: k ++ mid ++ z :: rest) (i + 1)) =
               Ok (if bool_decide (x = None) then None else y)).
  { case_bool_decide; [done|]. replace (pre ++ x :: y :: k ++ mid ++ z :: rest) with ((pre ++ [x]) ++ y :: k ++ mid ++ z :: rest) by (by app_norm).
    apply go_index_mid. rewrite zlen_snoc. lia. }
  rewrite Hr. cbn [mbind result_bind].
  replace (parent_entry x (if bool_decide (x = None) then None else y)) with (parent_entry x y)
    by (destruct x; [by rewrite bool_decide_false|done]).
  replace (pre ++ x :: y :: k ++ mid ++ z :: rest) with ((pre ++ x :: y :: k ++ mid) ++ z :: rest) by (by app_norm).
  rewrite go_store_mid. 2:{ rewrite !zlen_app, !zlen_cons, zlen_app. lia. }
  cbn [mbind result_bind]. f_equal. by app_norm.
Qed.

(** One row. *)
Lemma build_row m n pre row mid rest i offset :
  length row = (2 * m)%nat → (m <= length rest)%nat →
  i = zlen pre → offset = zlen pre + zlen row + zlen mid →
  build_loop (m + n) i offset (pre ++ row ++ mid ++ rest) =
  build_loop n (i + 2 * Z.of_nat m) (offset + Z.of_nat m) (pre ++ row ++ mid ++ pairs_above row ++ drop m rest).
Proof.
  revert pre row mid rest i offset.
  induction m as [|m IH]; intros pre row mid rest i offset Hrow Hrest Hi Ho.
  { destruct row; [|done]. cbn [pairs_above Nat.add drop app]. by rewrite Z.mul_0_r, !Z.add_0_r. }
  destruct row as [|x [|y row]]; cbn [length] in *; [lia|lia|].
  destruct rest as [|z rest]; cbn [length] in *; [lia|].
  cbn [Nat.add app]. rewrite build_round by (rewrite ?zlen_cons in *; done || lia).
  replace (pre ++ x :: y :: row ++ mid ++ parent_entry x y :: rest)
    with ((pre ++ [x; y]) ++ row ++ (mid ++ [parent_entry x y]) ++ rest) by (by app_norm).
  rewrite IH; rewrite ?zlen_app, ?zlen_cons, ?zlen_nil in *; try lia.
  cbn [pairs_above drop]. f_equal; [lia|lia|]. by app_norm.
Qed.

(** A row filled up. *)
Definition padded (k : nat) (l : list bytes) : list (option bytes) :=
  map Some l ++ replicate (2 ^ k - length l) None.

Lemma length_padded k l : (length l <= 2 ^ k)%nat → length (padded k l) = (2 ^ k)%nat.
Proof. intros. unfold padded. rewrite length_app, length_map, length_replicate. lia. Qed.

Lemma build_rows k pre l rest :
  (length l <= 2 ^ k)%nat → length rest = (2 ^ k - 1)%nat →
  build_loop (2 ^ k - 1) (zlen pre) (zlen pre + 2 ^ Z.of_nat k) (pre ++ padded k l ++ rest) = Ok (pre ++ rows k l).
Proof.
  revert pre l rest. induction k as [|k IH]; intros pre l rest Hl Hrest.
  { destruct rest; [|done]. cbn [rows]. unfold padded. by rewrite !app_nil_r. }
  assert (Hpow : (0 < 2 ^ k)%nat) by (apply Nat.neq_0_lt_0, Nat.pow_nonzero; lia).
  assert (Hz : 2 ^ Z.of_nat (S k) = 2 * Z.of_nat (2 ^ k)) by (rewrite Nat2Z.inj_pow, Nat2Z.inj_succ, Z.pow_succ_r; lia).
  rewrite Nat.pow_succ_r' in *.
  replace (2 * 2 ^ k - 1)%nat with (2 ^ k + (2 ^ k - 1))%nat by lia.
  pose proof (length_padded (S k) l ltac:(rewrite Nat.pow_succ_r'; lia)) as Hpad. rewrite Nat.pow_succ_r' in Hpad.
  pose proof (row_above_bounds l) as Hup.
  rewrite (build_row (2 ^ k) _ pre (padded (S k) l) [] rest) by (unfold zlen in *; cbn; lia).
  cbn [app]. rewrite Hz.
  assert (Epairs : pairs_above (padded (S k) l) = padded k (row_above l)).
  { unfold padded. rewrite Nat.pow_succ_r'. apply pairs_above_row. lia. }
  rewrite Epairs.
  replace (pre ++ padded (S k) l ++ padded k (row_above l) ++ drop (2 ^ k) rest)
    with ((pre ++ padded (S k) l) ++ padded k (row_above l) ++ drop (2 ^ k) rest) by (by rewrite <-(assoc_L (++))).
  replace (zlen pre + 2 * Z.of_nat (2 ^ k)) with (zlen (pre ++ padded (S k) l))
    by (rewrite zlen_app; unfold zlen; lia).
  replace (zlen (pre ++ padded (S k) l) + Z.of_nat (2 ^ k)) with (zlen (pre ++ padded (S k) l) + 2 ^ Z.of_nat k)
    by (rewrite Nat2Z.inj_pow; lia).
  rewrite IH by (rewrite ?length_drop; lia).
  cbn [rows]. fold (padded (S k) l). unfold padded at 1. f_equal. rewrite <-!(assoc_L (++)). done.
Qed.
(** The height of the tree of [n] leaves. *)
Definition tree_height (k n : nat) : Prop := (n <= 2 ^ k)%nat ∧ (k = 0%nat ∨ (2 ^ (k - 1) < n)%nat).

Lemma rows_root k l :
  l ≠ [] → tree_height k (length l) → ∃ r, merkle_root l r ∧ last (rows k l) = Some (Some r).
Proof.
  revert l. induction k as [|k IH]; intros l Hne [Hl Hk].
  { cbn in Hl. destruct l as [|x [|]]; [done| |cbn in Hl; lia]. exists x. split; [constructor|done]. }
  destruct Hk as [?|Hk]; [done|]. rewrite Nat.sub_succ, Nat.sub_0_r in Hk.
  pose proof (row_above_bounds l) as Hb. rewrite Nat.pow_succ_r' in Hl.
  assert (Hpow : (0 < 2 ^ k)%nat) by (apply Nat.neq_0_lt_0, Nat.pow_nonzero; lia).
  destruct l as [|x [|y l]]; [done|cbn in Hk; lia|].
  destruct (IH (row_above (x :: y :: l))) as (r & Hr & Hlast).
  { by destruct l. }
  { split; [lia|]. destruct k as [|k]; [by left|right]. rewrite Nat.sub_succ, Nat.sub_0_r.
    rewrite Nat.pow_succ_r' in Hk. lia. }
  exists r. split; [by constructor|]. cbn [rows]. rewrite !last_app. by rewrite Hlast.
Qed.
End merkle.

(** *** The power of two *)

Lemma nextPowerOfTwo_height n :
  (0 < n)%nat → ∃ k, nextPowerOfTwo (Z.of_nat n) = 2 ^ Z.of_nat k ∧ tree_height k n.
Proof.
  intros Hn. set (z := Z.of_nat n). assert (Hz : 0 < z) by lia.
  pose proof (Z.log2_spec z Hz) as Hl. pose proof (Z.log2_nonneg z) as Hl0.
  assert (Hj : Z.of_nat (Z.to_nat (Z.log2 z)) = Z.log2 z) by lia.
  assert (Hp : Z.of_nat (2 ^ Z.to_nat (Z.log2 z)) = 2 ^ Z.log2 z) by (rewrite Nat2Z.inj_pow, Hj; done).
  unfold nextPowerOfTwo. destruct (Z.eqb_spec (Z.land z (z - 1)) 0) as [E|E].
  - exists (Z.to_nat (Z.log2 z)). rewrite Hj.
    assert (Epow : z = 2 ^ Z.log2 z).
    { destruct (Z.eq_dec z (2 ^ Z.log2 z)) as [|Hne]; [done|exfalso].
      assert (Hbit : Z.testbit (Z.land z (z - 1)) (Z.log2 z) = true).
      { rewrite Z.land_spec, Z.bit_log2 by done.
        rewrite <-(Z.log2_unique (z - 1) (Z.log2 z)), Z.bit_log2; [done| |done|]; lia. }
      by rewrite E, Z.bits_0 in Hbit. }
    split; [done|]. split; [lia|]. destruct (Z.to_nat (Z.log2 z)) as [|j] eqn:Ej; [by left|right].
    rewrite Nat.sub_succ, Nat.sub_0_r. rewrite Nat.pow_succ_r' in Hp.
    assert (0 < 2 ^ j)%nat by (apply Nat.neq_0_lt_0, Nat.pow_nonzero; lia). lia.
  - exists (S (Z.to_nat (Z.log2 z))). rewrite Z.shiftl_mul_pow2, Z.mul_1_l, Nat2Z.inj_succ, Hj by lia.
    split; [done|]. split.
    + rewrite Nat.pow_succ_r'. replace (Z.succ (Z.log2 z)) with (Z.log2 z + 1) in Hl by lia.
      rewrite Z.pow_add_r in Hl by lia. lia.
    + right. rewrite Nat.sub_succ, Nat.sub_0_r.
      assert (z ≠ 2 ^ Z.log2 z); [|lia]. intros Epow. apply E. rewrite Epow.
      replace (2 ^ Z.log2 z - 1) with (Z.ones (Z.log2 z)) by (rewrite Z.ones_equiv; lia).
      rewrite Z.land_ones by done. apply Z.mod_same. lia.
Qed.

Section merkle.
Context `{HashFns}.

Lemma length_imap_leaves w txs : length (imap (leaf_hash w) txs) = length txs.
Proof. apply length_imap. Qed.

(** What [BuildMerkleTreeStore] returns: the rows of the tree, one after the
    other. *)
Lemma BuildMerkleTreeStore_rows txs w :
  txs ≠ [] → ∃ k, tree_height k (length txs) ∧
    BuildMerkleTreeStore txs w = Ok (rows k (imap (leaf_hash w) txs)).
Proof.
  intros Hne. assert (Hlen : (0 < length txs)%nat) by (destruct txs; [done|cbn; lia]).
  destruct (nextPowerOfTwo_height _ Hlen) as (k & Ek & Hk). exists k. split; [done|].
  assert (Hpow : (0 < 2 ^ k)%nat) by (apply Nat.neq_0_lt_0, Nat.pow_nonzero; lia).
  assert (Hz : 2 ^ Z.of_nat k = Z.of_nat (2 ^ k)) by (by rewrite Nat2Z.inj_pow).
  unfold BuildMerkleTreeStore, zlen. rewrite Ek, Hz.
  rewrite (proj2 (Z.ltb_ge _ 0)) by lia.
  set (leaves := imap _ txs). assert (Hll : length leaves = length txs) by apply length_imap_leaves.
  replace (Z.to_nat (Z.quot _ 2)) with (2 ^ k - 1)%nat.
  2:{ rewrite Z.quot_div_nonneg by lia.
      rewrite <-(Z.div_unique_pos (Z.of_nat (2 ^ k) * 2 - 1) 2 (Z.of_nat (2 ^ k) - 1) 1) by lia. lia. }
  destruct Hk as [Hk _].
  pose proof (build_rows k [] leaves (replicate (2 ^ k - 1) None) ltac:(lia) (length_replicate _ _)) as Hb.
  cbn [app] in Hb. rewrite zlen_nil, Hz, Z.add_0_l in Hb. rewrite <-Hb. f_equal.
  unfold padded. rewrite <-(assoc_L (++)). f_equal. rewrite <-replicate_add. f_equal. lia.
Qed.
(** ** The rolling computation finds the same root *)

(** The roots kept for a row of leaves: one tree for every bit of its length,
    the smallest last. *)
Inductive forest : list bytes → list bytes → Prop :=
| forest_nil : forest [] []
| forest_even l rs : l ≠ [] → Nat.Even (length l) → forest (row_above l) rs → forest l rs
| forest_odd l x rs : Nat.Even (length l) → forest (row_above l) rs → forest (l ++ [x]) (rs ++ [x]).

Lemma even_list_ind (P : list bytes → Prop) :
  P [] → (∀ x y l, Nat.Even (length l) → P l → P (x :: y :: l)) → ∀ l, Nat.Even (length l) → P l.
Proof.
  intros H0 H2 l. induction l as [l IH] using (induction_ltof1 _ (@length bytes)). unfold ltof in IH.
  destruct l as [|x [|y l]]; [done|intros [k Hk]; cbn in Hk; lia|]. intros [k Hk]. cbn in Hk.
  assert (Nat.Even (length l)) by (exists (k - 1)%nat; lia). apply H2; [done|]. apply IH; [cbn; lia|done].
Qed.

Lemma row_above_snoc2 l x y :
  Nat.Even (length l) → row_above (l ++ [x; y]) = row_above l ++ [HashMerkleBranches x y].
Proof. revert l. apply even_list_ind; [done|]. intros a b l _ IH. cbn [app row_above]. by rewrite IH. Qed.

(** An odd row and the row with its last leaf twice have the same row above. *)
Lemma row_above_dup l x : Nat.Even (length l) → row_above ((l ++ [x]) ++ [x]) = row_above (l ++ [x]).
Proof.
  rewrite <-(assoc_L (++)). cbn [app]. revert l. apply even_list_ind; [done|].
  intros a b l _ IH. cbn [app row_above]. by rewrite IH.
Qed.

Lemma zlen_row_even l : Nat.Even (length l) → zlen l = 2 * zlen (row_above l).
Proof. intros [k Hk]. pose proof (row_above_bounds l). unfold zlen. lia. Qed.

Lemma land_1_mod z : Z.land z 1 = z mod 2.
Proof. change 1 with (Z.ones 1) at 1. by rewrite Z.land_ones. Qed.

(** Popping the last root. *)
Lemma pop_last {E} (rs : list bytes) z :
  go_index (E:=E) (rs ++ [z]) (zlen (rs ++ [z]) - 1) = Ok z ∧
  go_slice (E:=E) (rs ++ [z]) 0 (zlen (rs ++ [z]) - 1) = Ok rs.
Proof.
  replace (zlen (rs ++ [z]) - 1) with (zlen rs) by (rewrite zlen_snoc; lia).
  split; [by apply go_index_mid|by apply go_slice_prefix].
Qed.

Lemma pop_last_any {E A} (l : list A) z : go_index (E:=E) (l ++ [z]) (zlen (l ++ [z]) - 1) = Ok z.
Proof. replace (zlen (l ++ [z]) - 1) with (zlen l) by (rewrite zlen_snoc; lia). by apply go_index_mid. Qed.

Lemma zlen_lt_pow0 (l : list bytes) : ¬ zlen l + 1 < 2 ^ Z.of_nat 0.
Proof. pose proof (zlen_nonneg l). cbn. lia. Qed.

Lemma add_loop_forest l rs :
  forest l rs → ∀ fuel h n x, 0 <= h → Z.shiftr n h = zlen l → zlen l + 1 < 2 ^ Z.of_nat fuel →
  ∃ rs' y, add_loop fuel h n rs x = Ok (rs', y) ∧ forest (l ++ [x]) (rs' ++ [y]).
Proof.
  induction 1 as [|l rs Hne Hev Hf _|l z rs Hev Hf IH]; intros [|fuel] h n x Hh Hn Hfuel;
    try (by apply zlen_lt_pow0 in Hfuel); cbn [add_loop]; rewrite Hn, land_1_mod.
  - exists [], x. split; [done|]. apply (forest_odd [] x []); [by exists 0%nat|constructor].
  - rewrite (zlen_row_even l Hev), Z.mul_comm, Z.mod_mul by lia. exists rs, x. split; [done|]. by constructor.
  - rewrite zlen_snoc, (zlen_row_even l Hev) in *.
    rewrite (Z.mul_comm 2), Z.add_comm, Z.mod_add by lia. cbn [Z.modulo Z.eqb].
    destruct (pop_last (E:=Empty_set) rs z) as [-> ->]. cbn [mbind result_bind].
    rewrite Nat2Z.inj_succ, Z.pow_succ_r in Hfuel by lia.
    destruct (IH fuel (h + 1) n (HashMerkleBranches z x)) as (rs' & y & E & Hf'); [lia| |lia|].
    { rewrite <-Z.shiftr_shiftr, Hn, Z.shiftr_div_pow2 by lia. change (2 ^ 1) with 2.
      symmetry. apply (Z.div_unique_pos _ _ _ 1); lia. }
    exists rs', y. split; [exact E|].
    rewrite <-row_above_snoc2 in Hf' by done.
    rewrite <-(assoc_L (++)). cbn [app]. apply forest_even; [by destruct l| |done].
    destruct Hev as [k Hk]. exists (S k). rewrite length_app, Hk. cbn. lia.
Qed.

Lemma add_forest l rs x :
  forest l rs → zlen l < 2 ^ 63 →
  ∃ rs', add (mkStore rs (zlen l)) x = Ok (mkStore rs' (zlen (l ++ [x]))) ∧ forest (l ++ [x]) rs'.
Proof.
  intros Hf Hl. unfold add. cbn [roots numLeaves].
  destruct (add_loop_forest l rs Hf 65 0 (zlen l) x) as (rs' & y & -> & Hf'); [lia|by rewrite Z.shiftr_0_r| |].
  { change (2 ^ Z.of_nat 65) with (4 * 2 ^ 63). lia. }
  exists (rs' ++ [y]). cbn [mbind result_bind]. split; [|done].
  pose proof (zlen_nonneg l). rewrite zlen_snoc, u64_small by lia. done.
Qed.

Lemma add_all_forest k l rs :
  forest l rs → zlen (l ++ k) < 2 ^ 63 →
  ∃ rs', add_all (mkStore rs (zlen l)) k = Ok (mkStore rs' (zlen (l ++ k))) ∧ forest (l ++ k) rs'.
Proof.
  revert l rs. induction k as [|x k IH]; intros l rs Hf Hl; cbn [add_all].
  { exists rs. by rewrite app_nil_r. }
  rewrite zlen_app, zlen_cons in Hl. pose proof (zlen_nonneg k).
  destruct (add_forest l rs x Hf ltac:(lia)) as (rs1 & -> & Hf1). cbn [mbind result_bind].
  destruct (IH (l ++ [x]) rs1 Hf1) as (rs2 & -> & Hf2).
  { rewrite zlen_app, zlen_snoc. lia. }
  exists rs2. rewrite <-(assoc_L (++)) in *. done.
Qed.

(** A single root is the root of the tree. *)
Lemma merkle_root_even l r : l ≠ [] → Nat.Even (length l) → merkle_root (row_above l) r → merkle_root l r.
Proof.
  intros Hne [k Hk] Hr. destruct l as [|x [|y l]]; [done|cbn in Hk; lia|]. by constructor.
Qed.

Lemma forest_length l rs : forest l rs → l ≠ [] → rs ≠ [].
Proof.
  induction 1 as [|l rs Hne [k Hk] Hf IH|l z rs Hev Hf IH]; [done| |by destruct rs].
  intros _. apply IH. destruct l as [|x [|y l]]; [done|cbn in Hk; lia|done].
Qed.

Lemma forest_single l r : forest l [r] → l ≠ [] → merkle_root l r.
Proof.
  intros Hf. remember [r] as rs eqn:Ers. revert r Ers.
  induction Hf as [|l rs Hne Hev Hf IH|l z rs Hev Hf IH]; intros r Ers Hl; [done| |].
  - apply merkle_root_even; [done..|]. apply IH; [done|].
    destruct Hev as [k Hk], l as [|x [|y l]]; [done|cbn in Hk; lia|done].
  - apply (app_inj_2 rs []) in Ers as [-> [= ->]]; [|done].
    destruct l as [|a l]; [constructor|].
    exfalso. eapply (forest_length _ _ Hf); [|done].
    destruct Hev as [k Hk], l as [|y l]; [cbn in Hk; lia|done].
Qed.

Lemma zlen_ge_pow0 (l : list bytes) : l ≠ [] → ¬ zlen l < 2 ^ Z.of_nat 0.
Proof. destruct l as [|x l]; [done|]. rewrite zlen_cons. pose proof (zlen_nonneg l). cbn. lia. Qed.

(** Moving up past the rows of even length. *)
Lemma strip_forest l rs :
  forest l rs → ∀ fuel h cur, l ≠ [] → 0 <= h → Z.shiftr cur h = zlen l → zlen l < 2 ^ Z.of_nat fuel →
  ∃ l' x rs', strip_loop fuel h cur (zlen l) = Ok (zlen (l' ++ [x])) ∧ rs = rs' ++ [x] ∧
    Nat.Even (length l') ∧ forest (row_above l') rs' ∧
    (∀ r, merkle_root (l' ++ [x]) r → merkle_root l r) ∧
    zlen (l' ++ [x]) <= zlen l ∧ (Nat.Even (length l) → 2 * zlen (l' ++ [x]) <= zlen l).
Proof.
  induction 1 as [|l rs Hne Hev Hf IH|l z rs Hev Hf _]; intros [|fuel] h cur Hl Hh Hcur Hfuel; try done;
    try (by apply zlen_ge_pow0 in Hfuel); cbn [strip_loop]; rewrite Hcur, land_1_mod.
  - rewrite Nat2Z.inj_succ, Z.pow_succ_r in Hfuel by lia.
    pose proof (zlen_row_even l Hev) as Hz. pose proof (zlen_nonneg (row_above l)).
    assert (zlen l mod 2 = 0) as -> by (rewrite Hz, Z.mul_comm, Z.mod_mul; lia). cbn [Z.eqb].
    assert (Hrow : row_above l ≠ []).
    { destruct Hev as [k Hk], l as [|x [|y l]]; [done|cbn in Hk; lia|done]. }
    assert (E1 : ∀ c, c = 2 * zlen (row_above l) → Z.shiftr c 1 = zlen (row_above l)).
    { intros c ->. rewrite Z.shiftr_div_pow2 by lia. symmetry. apply (Z.div_unique_pos _ _ _ 0); lia. }
    rewrite (E1 _ Hz).
    destruct (IH fuel (h + 1) cur Hrow) as (l' & x & rs' & E & Ers & Hev' & Hf' & Hr & Hle & _); [lia| |lia|].
    { rewrite <-Z.shiftr_shiftr, Hcur by lia. by apply E1. }
    exists l', x, rs'. split_and!; [exact E|done|done|done| |lia|lia].
    intros r Hr'. apply merkle_root_even; auto.
  - assert (zlen (l ++ [z]) mod 2 = 1) as ->.
    { rewrite zlen_snoc, (zlen_row_even l Hev), (Z.mul_comm 2), Z.add_comm, Z.mod_add by lia. done. }
    exists l, z, rs. split_and!; [done|done|done|done|done|done|].
    intros [k Hk]. destruct Hev as [j Hj]. rewrite length_app, Hj in Hk. cbn in Hk. lia.
Qed.

(** Doubling an odd last leaf does not change the root. *)
Lemma merkle_root_dup l x r :
  Nat.Even (length l) → l ≠ [] → merkle_root ((l ++ [x]) ++ [x]) r → merkle_root (l ++ [x]) r.
Proof.
  intros Hev Hne Hr. destruct l as [|a [|b l]]; [done|destruct Hev as [k Hk]; cbn in Hk; lia|].
  cbn [app] in *. inversion Hr as [|? ? ? ? Hr']; subst. constructor.
  pose proof (row_above_dup (a :: b :: l) x Hev) as E. cbn [app] in E. by rewrite E in Hr'.
Qed.

Lemma even_snoc2 (l : list bytes) x : Nat.Even (length l) → Nat.Even (length ((l ++ [x]) ++ [x])).
Proof. intros [k Hk]. exists (S k). rewrite !length_app, Hk. cbn. lia. Qed.

Lemma forest_nil_inv rs : forest [] rs → rs = [].
Proof. intros Hf. remember [] as l eqn:El. destruct Hf; [done|done|by destruct l]. Qed.

Lemma fold_forest fuel l rs :
  forest l rs → l ≠ [] → Nat.Even (length l) → zlen l <= 2 ^ Z.of_nat fuel → zlen l < 2 ^ 63 →
  ∃ n r, fold_loop fuel (mkStore rs (zlen l)) = Ok (mkStore [r] n) ∧ merkle_root l r.
Proof.
  revert l rs. induction fuel as [|fuel IH]; intros l rs Hf Hne Hev Hfuel H63; cbn [fold_loop roots numLeaves].
  all: destruct (Z.leb_spec (zlen rs) 1) as [H1|H1].
  1, 3: destruct rs as [|r [|r2 rs]];
    [by destruct (forest_length _ _ Hf Hne)
    |exists (zlen l), r; split; [done|]; by apply forest_single
    |rewrite !zlen_cons in H1; pose proof (zlen_nonneg rs); lia].
  { exfalso. destruct Hev as [k Hk]. unfold zlen in Hfuel. cbn in Hfuel. destruct l; [done|]. cbn in *. lia. }
  rewrite Nat2Z.inj_succ, Z.pow_succ_r in Hfuel by lia.
  destruct (strip_forest l rs Hf 65 0 (zlen l) Hne) as (l' & x & rs' & -> & -> & Hev' & Hf' & Hr & _ & Hhalf);
    [lia|by rewrite Z.shiftr_0_r|change (2 ^ Z.of_nat 65) with (4 * 2 ^ 63); lia|].
  specialize (Hhalf Hev). cbn [mbind result_bind].
  destruct (pop_last (E:=Empty_set) rs' x) as [-> _]. cbn [mbind result_bind].
  destruct (add_forest (l' ++ [x]) (rs' ++ [x]) x) as (rs2 & -> & Hf2); [by constructor|lia|].
  cbn [mbind result_bind].
  assert (Hl' : l' ≠ []).
  { intros ->. apply forest_nil_inv in Hf' as ->. rewrite zlen_snoc, zlen_nil in H1. lia. }
  destruct (IH ((l' ++ [x]) ++ [x]) rs2 Hf2) as (n & r & -> & Hroot).
  - by destruct l'.
  - by apply even_snoc2.
  - rewrite !zlen_snoc in *. pose proof (zlen_row_even l' Hev').
    assert (0 < zlen l') by (destruct l'; [done|rewrite zlen_cons; pose proof (zlen_nonneg l'); lia]).
    destruct fuel as [|fuel]; [cbn in *; lia|]. rewrite Nat2Z.inj_succ, Z.pow_succ_r in * by lia. lia.
  - rewrite !zlen_snoc in *. lia.
  - exists n, r. split; [done|]. apply Hr. by apply merkle_root_dup.
Qed.
Lemma last_leaf w (txs : list MsgTx) tx :
  leaf_hash w (length txs) tx = (if w then WitnessHash tx else TxHash tx) ∨ txs = [].
Proof. destruct txs; [by right|left]. unfold leaf_hash. by destruct w. Qed.

Lemma Zrem2_even (n : nat) : negb (Z.rem (Z.of_nat n) 2 =? 0) = Nat.odd n.
Proof.
  rewrite Z.rem_mod_nonneg by lia. rewrite <-Nat.negb_even. f_equal.
  destruct (Nat.Even_or_Odd n) as [[k ->]|[k ->]].
  - rewrite Nat.even_mul. cbn [Nat.even orb]. rewrite Nat2Z.inj_mul, Z.mul_comm, Z.mod_mul by lia. done.
  - rewrite Nat.even_add, Nat.even_mul. cbn [Nat.even orb Bool.eqb].
    replace (Z.of_nat (2 * k + 1)) with (1 + Z.of_nat k * 2) by lia. by rewrite Z.mod_add by lia.
Qed.

Lemma CalcMerkleRoot_root txs w :
  txs ≠ [] → zlen txs < 2 ^ 62 →
  ∃ r, CalcMerkleRoot txs w = Ok r ∧ merkle_root (imap (leaf_hash w) txs) r.
Proof.
  intros Hne Hlen. set (L := imap (leaf_hash w) txs).
  assert (HL : length L = length txs) by apply length_imap_leaves.
  assert (HzL : zlen L = zlen txs) by (unfold zlen; by rewrite HL).
  unfold CalcMerkleRoot, calcMerkleRoot, newRollingMerkleTreeStore. fold L.
  destruct (add_all_forest L [] [] forest_nil) as (rs & E & Hf); [cbn [app]; lia|].
  cbn [app] in *. rewrite zlen_nil in E. rewrite E. cbn [mbind result_bind numLeaves roots].
  assert (HLne : L ≠ []) by (intros HLn; rewrite HLn in HL; by destruct txs).
  destruct (Z.eqb_spec (zlen L) 1) as [H1|H1].
  { destruct L as [|x [|y L']] eqn:EL; [done| |rewrite !zlen_cons in H1; pose proof (zlen_nonneg L'); lia].
    remember [x] as l1 eqn:El1. destruct Hf as [|l1 rs1 _ [k Hk] _|l0 x0 rs0 Hev Hf]; [done|rewrite El1 in Hk; cbn in Hk; lia|].
    apply (app_inj_2 l0 []) in El1 as [-> [= ->]]; [|done]. apply forest_nil_inv in Hf as ->.
    exists x. split; [done|constructor]. }
  assert (Hfold : ∀ l rs, forest l rs → l ≠ [] → Nat.Even (length l) → zlen l < 2 ^ 63 →
    (∀ r, merkle_root l r → merkle_root L r) →
    ∃ r, (s ← fold_loop 64 (mkStore rs (zlen l)); go_index (roots s) 0) = Ok r ∧ merkle_root L r).
  { intros l rs1 Hf1 Hne1 Hev1 Hl1 Hr1.
    destruct (fold_forest 64 l rs1 Hf1 Hne1 Hev1) as (n & r & -> & Hr);
      [change (2 ^ Z.of_nat 64) with (2 * 2 ^ 63); lia|done|].
    exists r. split; [done|auto]. }
  assert (Hpos : 0 < zlen txs) by (destruct txs; [done|rewrite zlen_cons; pose proof (zlen_nonneg txs); lia]).
  rewrite (proj2 (Z.ltb_lt 0 _)) by done. cbn [andb].
  unfold zlen at 1. rewrite Zrem2_even. destruct (Nat.odd (length txs)) eqn:Eodd.
  - destruct txs as [|tx txs' _] using rev_ind; [done|].
    rewrite pop_last_any. cbn [mbind result_bind].
    assert (Et' : txs' ≠ []).
    { intros ->. apply H1. rewrite HzL. done. }
    assert (EL : L = imap (leaf_hash w) txs' ++ [leaf_hash w (length txs') tx]).
    { unfold L. rewrite imap_app. cbn [imap]. by rewrite Nat.add_0_r. }
    destruct (last_leaf w txs' tx) as [Elast|]; [|done]. rewrite <-Elast.
    set (l0 := imap (leaf_hash w) txs') in *. set (x := leaf_hash w (length txs') tx) in *. rewrite EL in *.
    assert (Hev : Nat.Even (length l0)).
    { unfold l0. rewrite length_imap. apply Nat.even_spec. rewrite length_app in Eodd. cbn in Eodd.
      rewrite Nat.odd_add, Nat.odd_1 in Eodd. rewrite <-Nat.negb_odd. by destruct (Nat.odd (length txs')). }
    destruct (add_forest (l0 ++ [x]) rs x Hf) as (rs2 & -> & Hf2); [lia|]. cbn [mbind result_bind].
    apply Hfold; [done|by destruct l0|by apply even_snoc2|rewrite zlen_snoc; lia|].
    intros r. apply merkle_root_dup; [done|]. unfold l0. by destruct txs'.
  - cbn [mbind result_bind]. apply Hfold; [done|done| |lia|done].
    rewrite HL. apply Nat.even_spec. rewrite <-Nat.negb_odd, Eodd. done.
Qed.
End merkle.

(** C20 For a non-empty list of transactions the rolling computation, the last
    entry of the stored tree and the definition of a Merkle root, rows of hashed
    pairs with an odd last one doubled, agree; and the store holds the rows of
    the tree one after the other. *)
Theorem CalcMerkleRoot_spec `{HashFns} txs w :
  txs ≠ [] → zlen txs < 2 ^ 62 →
  ∃ k r, merkle_root (imap (leaf_hash w) txs) r ∧ CalcMerkleRoot txs w = Ok r ∧
    tree_height k (length txs) ∧ BuildMerkleTreeStore txs w = Ok (rows k (imap (leaf_hash w) txs)) ∧
    last (rows k (imap (leaf_hash w) txs)) = Some (Some r).
Proof.
  intros Hne Hlen. destruct (CalcMerkleRoot_root txs w Hne Hlen) as (r & E & Hr).
  destruct (BuildMerkleTreeStore_rows txs w Hne) as (k & Hk & EB).
  set (L := imap (leaf_hash w) txs) in *.
  assert (HL : length L = length txs) by apply length_imap_leaves.
  destruct (rows_root k L) as (r' & Hr' & Hlast); [intros HLn; rewrite HLn in HL; by destruct txs|by rewrite HL|].
  exists k, r. split_and!; [done|done|done|done|].
  by rewrite (merkle_root_det _ _ _ Hr Hr') in Hlast.
Qed.

(** No transactions, no tree: both functions panic. *)
Lemma empty_tree_panics `{HashFns} w : CalcMerkleRoot [] w = Panic ∧ BuildMerkleTreeStore [] w = Panic.
Proof. done. Qed.

(** ** The witness commitment *)

Definition CoinbaseWitnessDataLen : Z := 32.
Definition CoinbaseWitnessPkScriptLength : Z := 38.
Definition WitnessMagicBytes : bytes := [z2b OP_RETURN; z2b OP_DATA_36; xaa; x21; xa9; xed].

(** [for i := len(msgTx.TxOut) - 1; i >= 0; i--] *)
Fixpoint find_commitment (outs : list TxOut) : result RuleErr (option bytes) :=
  match outs with
  | [] => Ok None
  | o :: outs =>
      let pkScript := PkScript o in
      if (CoinbaseWitnessPkScriptLength <=? zlen pkScript) && bool_decide (WitnessMagicBytes `prefix_of` pkScript)
      then c ← go_slice pkScript (zlen WitnessMagicBytes) CoinbaseWitnessPkScriptLength; Ok (Some c)
      else find_commitment outs
  end.

Definition ExtractWitnessCommitment (tx : MsgTx) : result RuleErr (option bytes) :=
  if negb (IsCoinBase tx) then Ok None
  else find_commitment (reverse (tx_TxOut tx)).

(** A result whose error type is empty. *)
Definition lift_empty {E A} (r : result Empty_set A) : result E A :=
  match r with Ok a => Ok a | Fail e => match e with end | Panic => Panic end.

Section commitment.
Context `{HashFns}.

Definition ValidateWitnessCommitment (transactions : list MsgTx) : result RuleErr unit :=
  if zlen transactions =? 0 then Fail (ruleError ErrNoTransactions)
  else
    coinbaseTx ← go_index transactions 0;
    if zlen (tx_TxIn coinbaseTx) =? 0 then Fail (ruleError ErrNoTxInputs)
    else
      witnessCommitment ← ExtractWitnessCommitment coinbaseTx;
      match witnessCommitment with
      | None =>
          if existsb HasWitness transactions then Fail (ruleError ErrUnexpectedWitness) else Ok ()
      | Some witnessCommitment =>
          txIn ← go_index (tx_TxIn coinbaseTx) 0;
          let coinbaseWitness := Witness txIn in
          if negb (zlen coinbaseWitness =? 1) then Fail (ruleError ErrInvalidWitnessCommitment)
          else
            witnessNonce ← go_index coinbaseWitness 0;
            if negb (zlen witnessNonce =? CoinbaseWitnessDataLen) then Fail (ruleError ErrInvalidWitnessCommitment)
            else
              witnessMerkleRoot ← lift_empty (CalcMerkleRoot transactions true);
              let computedCommitment := DoubleHashB (witnessMerkleRoot ++ witnessNonce) in
              if negb (bool_decide (computedCommitment = witnessCommitment))
              then Fail (ruleError ErrWitnessCommitmentMismatch)
              else Ok ()
      end.

(** An output that carries a commitment. *)
Definition commits (o : TxOut) (c : bytes) : Prop :=
  ∃ rest, PkScript o = WitnessMagicBytes ++ c ++ rest ∧ zlen c = 32.

Lemma find_commitment_spec outs :
  (∃ c pre o post, find_commitment outs = Ok (Some c) ∧ outs = pre ++ o :: post ∧ commits o c ∧
     Forall (λ o, ∀ c, ¬ commits o c) pre) ∨
  (find_commitment outs = Ok None ∧ Forall (λ o, ∀ c, ¬ commits o c) outs).
Proof.
  induction outs as [|o outs IH]; cbn [find_commitment]; [by right|].
  destruct (_ && _) eqn:E.
  - left. apply andb_true_iff in E as [Hlen [rest Hpre]%bool_decide_eq_true].
    apply Z.leb_le in Hlen. unfold CoinbaseWitnessPkScriptLength in *.
    rewrite Hpre, zlen_app in Hlen. change (zlen WitnessMagicBytes) with 6 in *.
    destruct (split_at rest 32) as (c & rest' & -> & Hc); [lia|].
    exists c, [], o, outs. rewrite Hpre. split_and!; [|done| |done].
    + rewrite (go_slice_at WitnessMagicBytes c rest') by (done || (rewrite Hc; done)). done.
    + by exists rest'.
  - assert (Hno : ∀ c, ¬ commits o c).
    { intros c (rest & Epk & Hc). apply andb_false_iff in E as [E|E].
      - apply Z.leb_gt in E. rewrite Epk, !zlen_app, Hc in E. change (zlen WitnessMagicBytes) with 6 in E.
        unfold CoinbaseWitnessPkScriptLength in E. pose proof (zlen_nonneg rest). lia.
      - apply bool_decide_eq_false in E. apply E. by exists (c ++ rest). }
    destruct IH as [(c & pre & o' & post & -> & -> & Hc & Hpre)|[-> Hall]]; [left|right].
    + exists c, (o :: pre), o', post. split_and!; [done|done|done|by constructor].
    + split; [done|by constructor].
Qed.

(** The commitment of a coinbase: that of its last output with one. *)
Definition commitment (tx : MsgTx) (c : bytes) : Prop :=
  IsCoinBase tx = true ∧ ∃ pre o post, tx_TxOut tx = pre ++ o :: post ∧ commits o c ∧
  Forall (λ o, ∀ c, ¬ commits o c) post.

Lemma commits_inj o c c' : commits o c → commits o c' → c = c'.
Proof.
  intros (r & E & Hc) (r' & E' & Hc'). rewrite E in E'. apply app_inv_head in E'.
  apply app_inj_1 in E' as [? _]; [done|]. unfold zlen in *. lia.
Qed.

Lemma ExtractWitnessCommitment_spec tx :
  (∃ c, ExtractWitnessCommitment tx = Ok (Some c) ∧ commitment tx c) ∨
  (ExtractWitnessCommitment tx = Ok None ∧ ∀ c, ¬ commitment tx c).
Proof.
  unfold ExtractWitnessCommitment, commitment. destruct (IsCoinBase tx); cbn [negb].
  2:{ right. split; [done|]. by intros c [? _]. }
  destruct (find_commitment_spec (reverse (tx_TxOut tx)))
    as [(c & pre & o & post & -> & E & Hc & Hpre)|[-> Hall]].
  - left. exists c. split; [done|]. split; [done|].
    exists (reverse post), o, (reverse pre). split_and!; [|done|by apply Forall_reverse].
    rewrite <-(reverse_involutive (tx_TxOut tx)), E, reverse_app, reverse_cons. by rewrite <-(assoc_L (++)).
  - right. split; [done|]. intros c (_ & pre & o & post & E & Hc & _).
    rewrite E, reverse_app, reverse_cons in Hall. apply Forall_app in Hall as [[_ Hall]%Forall_app _].
    inversion Hall as [|? ? Hno]; subst. by apply (Hno c).
Qed.
Lemma find_commitment_at pre o post c :
  Forall (λ o, ∀ c, ¬ commits o c) pre → commits o c → find_commitment (pre ++ o :: post) = Ok (Some c).
Proof.
  intros Hpre Hc. induction Hpre as [|p pre Hp _ IH]; cbn [app find_commitment].
  - destruct (find_commitment_spec [o]) as [(c' & pre & o' & post' & E & El & Hc' & _)|[_ Hall]].
    + destruct pre as [|? [|]]; [|discriminate El..]. injection El as <- _.
      cbn [find_commitment] in E. destruct (_ && _); [|done]. by rewrite E, (commits_inj o c' c).
    + inversion Hall as [|? ? Hno]; subst. by destruct (Hno c).
  - destruct (find_commitment_spec [p]) as [(c' & pre' & o' & post' & _ & El & Hc' & _)|[E _]].
    + destruct pre' as [|? [|]]; [|discriminate El..]. injection El as <- _. by destruct (Hp c').
    + cbn [find_commitment] in E. destruct (_ && _); [|exact IH].
      by destruct (go_slice _ _ _).
Qed.

Lemma ExtractWitnessCommitment_iff tx c : ExtractWitnessCommitment tx = Ok (Some c) ↔ commitment tx c.
Proof.
  split.
  - destruct (ExtractWitnessCommitment_spec tx) as [(c' & -> & Hc)|[-> _]]; [|done]. by intros [= <-].
  - intros (Hcb & pre & o & post & E & Hc & Hpost). unfold ExtractWitnessCommitment. rewrite Hcb, E.
    cbn [negb]. rewrite reverse_app, reverse_cons, <-(assoc_L (++)). cbn [app].
    apply find_commitment_at; [by apply Forall_reverse|done].
Qed.
End commitment.

Lemma ValidateWitnessCommitment_iff `{HashFns} cb txs :
  tx_TxIn cb ≠ [] → zlen (cb :: txs) < 2 ^ 62 →
  no_panic (ValidateWitnessCommitment (cb :: txs)) ∧
  (ValidateWitnessCommitment (cb :: txs) = Ok () ↔
   (∃ c i nonce root, commitment cb c ∧ tx_TxIn cb = [i] ∧ Witness i = [nonce] ∧ zlen nonce = 32 ∧
      merkle_root (imap (leaf_hash true) (cb :: txs)) root ∧ DoubleHashB (root ++ nonce) = c) ∨
   (∀ c, ¬ commitment cb c) ∧ Forall (λ tx, HasWitness tx = false) (cb :: txs)).
Proof.
  intros Hin Hlen. destruct (CalcMerkleRoot_root (cb :: txs) true ltac:(done) Hlen) as (root & Eroot & Hroot).
  pose proof (λ r, merkle_root_det _ _ r Hroot) as Huniq.
  unfold ValidateWitnessCommitment.
  rewrite (proj2 (Z.eqb_neq (zlen (cb :: txs)) 0)) by (rewrite zlen_cons; pose proof (zlen_nonneg txs); lia).
  rewrite go_index_0. cbn [mbind result_bind].
  destruct (tx_TxIn cb) as [|i ins] eqn:Ei; [done|].
  rewrite (proj2 (Z.eqb_neq (zlen (i :: ins)) 0)) by (rewrite zlen_cons; pose proof (zlen_nonneg ins); lia).
  destruct (ExtractWitnessCommitment_spec cb) as [(c & E & Hc)|[E Hno]]; rewrite E; cbn [mbind result_bind].
  - assert (ins = []) as ->.
    { destruct Hc as [Hcb _]. destruct (IsCoinBase_single cb Hcb) as [j Ej]. rewrite Ei in Ej. by injection Ej. }
    rewrite go_index_0. cbn [mbind result_bind].
    assert (Honly : (∃ c i0 nonce root0, commitment cb c ∧ [i] = [i0] ∧ Witness i0 = [nonce] ∧ zlen nonce = 32 ∧
        merkle_root (imap (leaf_hash true) (cb :: txs)) root0 ∧ DoubleHashB (root0 ++ nonce) = c) ∨
      (∀ c, ¬ commitment cb c) ∧ Forall (λ tx, HasWitness tx = false) (cb :: txs) ↔
      ∃ nonce, Witness i = [nonce] ∧ zlen nonce = 32 ∧ DoubleHashB (root ++ nonce) = c).
    { split.
      - intros [(c' & i0 & nonce & r & Hc' & [= <-] & Hw & Hn & Hr & Hd)|[Hno _]]; [|by destruct (Hno c)].
        rewrite (Huniq r Hr) in Hd. apply ExtractWitnessCommitment_iff in Hc'. rewrite E in Hc'. injection Hc' as <-. eauto.
      - intros (nonce & Hw & Hn & Hd). left. exists c, i, nonce, root. auto 10. }
    rewrite Honly. clear Honly. destruct (Witness i) as [|nonce [|n2 w]] eqn:Ew.
    + split; [done|]. naive_solver.
    + rewrite go_index_0, Eroot. cbn [zlen length Z.of_nat Z.eqb mbind result_bind lift_empty].
      destruct (Z.eqb_spec (zlen nonce) CoinbaseWitnessDataLen) as [Hn|Hn]; cbn [negb].
      * case_bool_decide as Hd; cbn [negb]; (split; [done|]); naive_solver.
      * split; [done|]. naive_solver.
    + rewrite (proj2 (Z.eqb_neq _ 1)) by (rewrite !zlen_cons; pose proof (zlen_nonneg w); lia).
      split; [done|]. naive_solver.
  - destruct (existsb HasWitness (cb :: txs)) eqn:Ew; (split; [done|]); (split; try done).
    + intros [(c & ? & ? & ? & Hc & _)|[_ Hall]]; [by destruct (Hno c)|].
      apply existsb_exists in Ew as (tx & Hin' & Hw). rewrite Forall_forall in Hall.
      apply list_elem_of_In, Hall in Hin'. congruence.
    + intros _. right. split; [done|]. apply Forall_forall. intros tx Htx. apply not_true_is_false. intros Hw.
      apply not_true_iff_false in Ew. apply Ew, existsb_exists. exists tx. split; [by apply list_elem_of_In|done].
Qed.

(** C31 [ValidateWitnessCommitment] does not panic on a block whose first
    transaction has an input, and accepts exactly: when an output of the coinbase
    carries a commitment, the last such being [c], a coinbase witness of one
    32-byte nonce such that [c] is the double hash of the witness root and the
    nonce; when none does, blocks without witness data. *)
Theorem ValidateWitnessCommitment_spec `{HashFns} cb txs :
  tx_TxIn cb ≠ [] → zlen (cb :: txs) < 2 ^ 62 →
  no_panic (ValidateWitnessCommitment (cb :: txs)) ∧
  (ValidateWitnessCommitment (cb :: txs) = Ok () ↔
   (∃ c i nonce root, commitment cb c ∧ tx_TxIn cb = [i] ∧ Witness i = [nonce] ∧ zlen nonce = 32 ∧
      merkle_root (imap (leaf_hash true) (cb :: txs)) root ∧ DoubleHashB (root ++ nonce) = c) ∨
   (∀ c, ¬ commitment cb c) ∧ Forall (λ tx, HasWitness tx = false) (cb :: txs)).
Proof. apply ValidateWitnessCommitment_iff. Qed.

(** ** Examples *)

(** A second transaction for blocks of the examples. *)
Definition demo_spend_tx : MsgTx :=
  mkMsgTx 2 [mkTxIn (mkOutPoint (replicate 32 x33) 1) [] [] MaxUint32] [mkTxOut 10 [x6a]] 0.

Lemma CalcMerkleRoot_spec_witness :
  let txs := [demo_coinbase; demo_spend_tx; demo_spend_tx] in
  ∃ k r, merkle_root (imap (leaf_hash false) txs) r ∧ CalcMerkleRoot txs false = Ok r ∧
    tree_height k 3 ∧ BuildMerkleTreeStore txs false = Ok (rows k (imap (leaf_hash false) txs)) ∧
    last (rows k (imap (leaf_hash false) txs)) = Some (Some r).
Proof. exact (CalcMerkleRoot_spec [demo_coinbase; demo_spend_tx; demo_spend_tx] false ltac:(done) ltac:(done)). Defined.

Lemma ValidateWitnessCommitment_spec_witness :
  no_panic (ValidateWitnessCommitment [demo_coinbase; demo_spend_tx]).
Proof. exact (proj1 (ValidateWitnessCommitment_spec demo_coinbase [demo_spend_tx] ltac:(done) ltac:(done))). Defined.
