(* ===== verification/UtxoView.v ===== *)
(** * The view of unspent outputs (blockchain/utxoviewpoint.go)

    Entries, and the view of the outputs around a block: outputs are added,
    spent, and restored from the spend journal.  A [nil] entry of the map is
    [Some None]: an output that was looked up and is not there.  Each entry is
    referenced by the view's map only (what is loaded is cloned), so updating it
    in place is updating the map.  Loading from the cache is in ConnectBlock.v. *)
From stdpp Require Import strings.
From Stdlib Require Import Lia ZArith.
From S2P Require Import Prelude Wire MsgTx ScriptError Tokenizer Standard Crypto SigHash RuleError TxRules.

(** ** Entries *)

Definition tfCoinBase : Z := Z.shiftl 1 0.
Definition tfSpent : Z := Z.shiftl 1 1.
Definition tfModified : Z := Z.shiftl 1 2.
Definition tfFresh : Z := Z.shiftl 1 3.

Record UtxoEntry := mkUtxoEntry {
  amount : Z;
  pkScript : bytes;
  blockHeight : Z;
  packedFlags : Z
}.

#[global] Instance UtxoEntry_eq_dec : EqDecision UtxoEntry.
Proof. solve_decision. Defined.

Definition set_packedFlags (entry : UtxoEntry) (f : Z) : UtxoEntry :=
  mkUtxoEntry (amount entry) (pkScript entry) (blockHeight entry) f.

Definition isModified (entry : UtxoEntry) : bool := Z.land (packedFlags entry) tfModified =? tfModified.
Definition isFresh (entry : UtxoEntry) : bool := Z.land (packedFlags entry) tfFresh =? tfFresh.
Definition entry_IsCoinBase (entry : UtxoEntry) : bool := Z.land (packedFlags entry) tfCoinBase =? tfCoinBase.
Definition IsSpent (entry : UtxoEntry) : bool := Z.land (packedFlags entry) tfSpent =? tfSpent.

Definition baseEntrySize : Z := 40.

(** The capacity of a script of the cache is its length: it was allocated for
    the entry. *)
Definition memoryUsage (entry : option UtxoEntry) : Z :=
  match entry with None => 0 | Some entry => baseEntrySize + zlen (pkScript entry) end.

Definition Spend (entry : UtxoEntry) : UtxoEntry :=
  if IsSpent entry then entry
  else set_packedFlags entry (Z.lor (packedFlags entry) (Z.lor tfSpent tfModified)).

Definition Clone (entry : option UtxoEntry) : option UtxoEntry :=
  match entry with
  | None => None
  | Some entry => Some (mkUtxoEntry (amount entry) (pkScript entry) (blockHeight entry) (packedFlags entry))
  end.

Definition NewUtxoEntry (txOut : TxOut) (blockHeight : Z) (isCoinbase : bool) : UtxoEntry :=
  mkUtxoEntry (Value txOut) (PkScript txOut) blockHeight (if isCoinbase then tfCoinBase else 0).

Record SpentTxOut := mkSpentTxOut {
  stxo_Amount : Z;
  stxo_PkScript : bytes;
  stxo_Height : Z;
  stxo_IsCoinBase : bool
}.

(** What a spend of the entry records. *)
Definition stxo_of (entry : UtxoEntry) : SpentTxOut :=
  mkSpentTxOut (amount entry) (pkScript entry) (blockHeight entry) (entry_IsCoinBase entry).

(** ** The view *)

Record UtxoViewpoint := mkView {
  entries : gmap OutPoint (option UtxoEntry);
  bestHash : bytes
}.

Definition set_entries (view : UtxoViewpoint) m : UtxoViewpoint := mkView m (bestHash view).
Definition SetBestHash (hash : bytes) (view : UtxoViewpoint) : UtxoViewpoint := mkView (entries view) hash.
Definition BestHash (view : UtxoViewpoint) : bytes := bestHash view.

Definition NewUtxoViewpoint : UtxoViewpoint := mkView ∅ zeroHash.

(** A missing key reads as [nil]. *)
Definition LookupEntry (view : UtxoViewpoint) (outpoint : OutPoint) : option UtxoEntry :=
  mjoin (entries view !! outpoint).

Definition view_FetchPrevOutput (view : UtxoViewpoint) : PrevOutputFetcher := λ op,
  match LookupEntry view op with
  | None => None
  | Some prevOut => Some (mkTxOut (amount prevOut) (pkScript prevOut))
  end.

Definition RemoveEntry (outpoint : OutPoint) (view : UtxoViewpoint) : UtxoViewpoint :=
  set_entries view (delete outpoint (entries view)).

(** A created output's flags. *)
Definition created_flags (isCoinBase : bool) : Z :=
  Z.lor (Z.lor tfFresh tfModified) (if isCoinBase then tfCoinBase else 0).

Definition view_addTxOut (view : UtxoViewpoint) (outpoint : OutPoint) (txOut : TxOut)
    (isCoinBase : bool) (blockHeight : Z) : result RuleErr UtxoViewpoint :=
  unspendable ← lift_script (IsUnspendable (PkScript txOut));
  if (unspendable : bool) then Ok view
  else
    let entry := mkUtxoEntry (Value txOut) (PkScript txOut) blockHeight (created_flags isCoinBase) in
    Ok (set_entries view (<[outpoint := Some entry]> (entries view))).

Section view.
Context `{HashFns}.

Definition AddTxOut (view : UtxoViewpoint) (tx : MsgTx) (txOutIdx blockHeight : Z)
    : result RuleErr UtxoViewpoint :=
  if u32 (zlen (tx_TxOut tx)) <=? txOutIdx then Ok view
  else
    let prevOut := mkOutPoint (TxHash tx) txOutIdx in
    txOut ← go_index (tx_TxOut tx) txOutIdx;
    view_addTxOut view prevOut txOut (IsCoinBase tx) blockHeight.

Fixpoint AddTxOuts_loop (view : UtxoViewpoint) (hash : bytes) (outs : list TxOut) (txOutIdx : Z)
    (isCoinBase : bool) (blockHeight : Z) : result RuleErr UtxoViewpoint :=
  match outs with
  | [] => Ok view
  | txOut :: outs =>
      view ← view_addTxOut view (mkOutPoint hash (u32 txOutIdx)) txOut isCoinBase blockHeight;
      AddTxOuts_loop view hash outs (txOutIdx + 1) isCoinBase blockHeight
  end.

Definition AddTxOuts (view : UtxoViewpoint) (tx : MsgTx) (blockHeight : Z)
    : result RuleErr UtxoViewpoint :=
  AddTxOuts_loop view (TxHash tx) (tx_TxOut tx) 0 (IsCoinBase tx) blockHeight.

(** [stxos] is [nil] where no journal is asked for. *)
Fixpoint spend_loop (view : UtxoViewpoint) (ins : list TxIn) (stxos : option (list SpentTxOut))
    : result RuleErr (UtxoViewpoint * option (list SpentTxOut)) :=
  match ins with
  | [] => Ok (view, stxos)
  | txIn :: ins =>
      match LookupEntry view (PreviousOutPoint txIn) with
      | None => Fail (assertError "view missing input")
      | Some entry =>
          let stxos := (λ l, l ++ [stxo_of entry]) <$> stxos in
          spend_loop (set_entries view (<[PreviousOutPoint txIn := Some (Spend entry)]> (entries view))) ins stxos
      end
  end.

Definition view_connectTransaction (view : UtxoViewpoint) (tx : MsgTx) (blockHeight : Z)
    (stxos : option (list SpentTxOut)) : result RuleErr (UtxoViewpoint * option (list SpentTxOut)) :=
  if IsCoinBase tx then
    view ← AddTxOuts view tx blockHeight;
    Ok (view, stxos)
  else
    '(view, stxos) ← spend_loop view (tx_TxIn tx) stxos;
    view ← AddTxOuts view tx blockHeight;
    Ok (view, stxos).

Fixpoint connect_loop (view : UtxoViewpoint) (txs : list MsgTx) (blockHeight : Z)
    (stxos : option (list SpentTxOut)) : result RuleErr (UtxoViewpoint * option (list SpentTxOut)) :=
  match txs with
  | [] => Ok (view, stxos)
  | tx :: txs =>
      '(view, stxos) ← view_connectTransaction view tx blockHeight stxos;
      connect_loop view txs blockHeight stxos
  end.

(** The parts of a [btcutil.Block] the functions use. *)
Record Block := mkBlock {
  b_Hash : bytes;
  b_PrevBlock : bytes;
  b_Height : Z;
  b_Transactions : list MsgTx
}.

Definition view_connectTransactions (view : UtxoViewpoint) (block : Block)
    (stxos : option (list SpentTxOut)) : result RuleErr (UtxoViewpoint * option (list SpentTxOut)) :=
  '(view, stxos) ← connect_loop view (b_Transactions block) (b_Height block) stxos;
  Ok (SetBestHash (b_Hash block) view, stxos).

(** *** Disconnecting *)

(** [block.Transactions()[1:]] panics on an empty block. *)
Definition countSpentOutputs {E} (block : Block) : result E Z :=
  txs ← go_slice (b_Transactions block) 1 (zlen (b_Transactions block));
  Ok (foldl (λ numSpent tx, numSpent + zlen (tx_TxIn tx)) 0 txs).

(** Marks the outputs of a transaction as spent, with an entry for each. *)
Fixpoint unconnect_outs (view : UtxoViewpoint) (hash : bytes) (outs : list TxOut) (txOutIdx : Z)
    (packedFlags blockHeight : Z) : result RuleErr UtxoViewpoint :=
  match outs with
  | [] => Ok view
  | txOut :: outs =>
      unspendable ← lift_script (IsUnspendable (PkScript txOut));
      let view :=
        if (unspendable : bool) then view
        else
          let prevOut := mkOutPoint hash (u32 txOutIdx) in
          let entry := default (mkUtxoEntry (Value txOut) (PkScript txOut) blockHeight packedFlags)
                         (LookupEntry view prevOut) in
          set_entries view (<[prevOut := Some (Spend entry)]> (entries view)) in
      unconnect_outs view hash outs (txOutIdx + 1) packedFlags blockHeight
  end.

(** Restores what the inputs spent; the inputs come last first. *)
Fixpoint restore_ins (view : UtxoViewpoint) (rev_ins : list TxIn) (stxos : list SpentTxOut) (stxoIdx : Z)
    : result RuleErr (UtxoViewpoint * Z) :=
  match rev_ins with
  | [] => Ok (view, stxoIdx)
  | txIn :: rev_ins =>
      stxo ← go_index stxos stxoIdx;
      let entry := mkUtxoEntry (stxo_Amount stxo) (stxo_PkScript stxo) (stxo_Height stxo)
        (Z.lor tfModified (if stxo_IsCoinBase stxo then tfCoinBase else 0)) in
      restore_ins (set_entries view (<[PreviousOutPoint txIn := Some entry]> (entries view)))
        rev_ins stxos (stxoIdx - 1)
  end.

(** The transactions come last first; [txIdx] is the index of the first of
    them. *)
Fixpoint disconnect_loop (view : UtxoViewpoint) (rev_txs : list MsgTx) (txIdx : Z) (blockHeight : Z)
    (stxos : list SpentTxOut) (stxoIdx : Z) : result RuleErr UtxoViewpoint :=
  match rev_txs with
  | [] => Ok view
  | tx :: rev_txs =>
      let isCoinBase := txIdx =? 0 in
      let packedFlags := if isCoinBase then tfCoinBase else 0 in
      view ← unconnect_outs view (TxHash tx) (tx_TxOut tx) 0 packedFlags blockHeight;
      if isCoinBase then disconnect_loop view rev_txs (txIdx - 1) blockHeight stxos stxoIdx
      else
        '(view, stxoIdx) ← restore_ins view (rev (tx_TxIn tx)) stxos stxoIdx;
        disconnect_loop view rev_txs (txIdx - 1) blockHeight stxos stxoIdx
  end.

Definition disconnectTransactions (view : UtxoViewpoint) (block : Block) (stxos : list SpentTxOut)
    : result RuleErr UtxoViewpoint :=
  n ← countSpentOutputs block;
  if negb (zlen stxos =? n) then Fail (assertError "disconnectTransactions called with bad spent transaction out information")
  else
    let transactions := b_Transactions block in
    view ← disconnect_loop view (rev transactions) (zlen transactions - 1) (b_Height block) stxos (zlen stxos - 1);
    Ok (SetBestHash (b_PrevBlock block) view).

(** [commit]: the loop over the map acts on each entry alone. *)
Definition commit (view : UtxoViewpoint) : UtxoViewpoint :=
  set_entries view (omap (λ entry,
    match entry with
    | None => None
    | Some entry =>
        if isModified entry && IsSpent entry then None
        else Some (Some (set_packedFlags entry (Z.lxor (packedFlags entry) tfModified)))
    end) (entries view)).

(** *** What a block needs *)

(** [txInFlight]: where in the block a transaction is; of two with the same hash
    the later one. *)
Fixpoint in_flight (txs : list MsgTx) (i : Z) (txInFlight : gmap bytes Z) : gmap bytes Z :=
  match txs with
  | [] => txInFlight
  | tx :: txs => in_flight txs (i + 1) (<[TxHash tx := i]> txInFlight)
  end.

Fixpoint find_ins (view : UtxoViewpoint) (transactions : list MsgTx) (blockHeight : Z)
    (txInFlight : gmap bytes Z) (i : Z) (ins : list TxIn) (needed : list OutPoint)
    : result RuleErr (UtxoViewpoint * list OutPoint) :=
  match ins with
  | [] => Ok (view, needed)
  | txIn :: ins =>
      let fetch :=
        match entries view !! PreviousOutPoint txIn with
        | Some _ => find_ins view transactions blockHeight txInFlight i ins needed
        | None => find_ins view transactions blockHeight txInFlight i ins (needed ++ [PreviousOutPoint txIn])
        end in
      match txInFlight !! op_Hash (PreviousOutPoint txIn) with
      | Some inFlightIndex =>
          if inFlightIndex <=? i then
            originTx ← go_index transactions inFlightIndex;
            view ← AddTxOuts view originTx blockHeight;
            find_ins view transactions blockHeight txInFlight i ins needed
          else fetch
      | None => fetch
      end
  end.

Fixpoint find_txs (view : UtxoViewpoint) (transactions : list MsgTx) (blockHeight : Z)
    (txInFlight : gmap bytes Z) (i : Z) (txs : list MsgTx) (needed : list OutPoint)
    : result RuleErr (UtxoViewpoint * list OutPoint) :=
  match txs with
  | [] => Ok (view, needed)
  | tx :: txs =>
      '(view, needed) ← find_ins view transactions blockHeight txInFlight i (tx_TxIn tx) needed;
      find_txs view transactions blockHeight txInFlight (i + 1) txs needed
  end.

Definition findInputsToFetch (view : UtxoViewpoint) (block : Block)
    : result RuleErr (UtxoViewpoint * list OutPoint) :=
  let transactions := b_Transactions block in
  txs ← go_slice transactions 1 (zlen transactions);
  find_txs view transactions (b_Height block) (in_flight transactions 0 ∅) 0 txs [].
End view.
