(* ===== verification/Ledger.v ===== *)
(** * The ledger: what the UTXO code keeps

    The set of unspent outputs as a finite map of coins, and the effect of a
    transaction and of a block on it.  The view, the cache and the database are
    proved to implement it. *)
From stdpp Require Import fin_maps strings.
From Stdlib Require Import Lia ZArith.
From S2P Require Import Prelude Wire MsgTx ScriptError Opcode Tokenizer Standard Crypto SigHash RuleError TxRules UtxoView.

(** ** Coins *)

Record Coin := mkCoin {
  coin_amount : Z;
  coin_script : bytes;
  coin_height : Z;
  coin_coinbase : bool
}.

Abbreviation UtxoSet := (gmap OutPoint Coin).

(** The coin of an entry, as long as it is unspent. *)
Definition entry_coin (e : UtxoEntry) : Coin :=
  mkCoin (amount e) (pkScript e) (blockHeight e) (entry_IsCoinBase e).

Definition coin_of (e : option UtxoEntry) : option Coin :=
  match e with Some e => if IsSpent e then None else Some (entry_coin e) | None => None end.

Definition stxo_coin (s : SpentTxOut) : Coin :=
  mkCoin (stxo_Amount s) (stxo_PkScript s) (stxo_Height s) (stxo_IsCoinBase s).

Definition unspendable (script : bytes) : bool :=
  match IsUnspendable script with Ok b => b | _ => true end.

(** Adds what [mk] makes of each spendable output. *)
Fixpoint add_outs {A} (mk : TxOut → A) (hash : bytes) (outs : list TxOut) (idx : Z)
    (m : gmap OutPoint A) : gmap OutPoint A :=
  match outs with
  | [] => m
  | o :: outs =>
      add_outs mk hash outs (idx + 1)
        (if unspendable (PkScript o) then m else <[mkOutPoint hash idx := mk o]> m)
  end.

(** Takes the coins of the previous outputs, in order. *)
Fixpoint take_coins (U : UtxoSet) (ops : list OutPoint) : option (list Coin * UtxoSet) :=
  match ops with
  | [] => Some ([], U)
  | op :: ops =>
      c ← U !! op;
      '(cs, U) ← take_coins (delete op U) ops;
      Some (c :: cs, U)
  end.

Definition sum_coins (cs : list Coin) : Z := foldr (λ c t, coin_amount c + t) 0 cs.

Definition mature (maturity h : Z) (c : Coin) : Prop :=
  coin_coinbase c = true → maturity <= h - coin_height c.

Section ledger.
Context `{HashFns}.

Definition new_coin (isCoinBase : bool) (h : Z) (o : TxOut) : Coin :=
  mkCoin (Value o) (PkScript o) h isCoinBase.

Definition add_tx_coins (h : Z) (tx : MsgTx) (U : UtxoSet) : UtxoSet :=
  add_outs (new_coin (IsCoinBase tx) h) (TxHash tx) (tx_TxOut tx) 0 U.

Definition prevouts (tx : MsgTx) : list OutPoint := PreviousOutPoint <$> tx_TxIn tx.

(** A transaction takes the coins it spends, all there and all mature, and adds
    its own, worth no more; the difference is the fee. *)
Inductive tx_step (maturity h : Z) (tx : MsgTx) (U : UtxoSet) : list Coin → Z → UtxoSet → Prop :=
| step_coinbase :
    IsCoinBase tx = true → tx_step maturity h tx U [] 0 (add_tx_coins h tx U)
| step_spend cs U' fee :
    IsCoinBase tx = false →
    take_coins U (prevouts tx) = Some (cs, U') →
    Forall (mature maturity h) cs →
    fee = sum_coins cs - total_value (tx_TxOut tx) → 0 <= fee →
    tx_step maturity h tx U cs fee (add_tx_coins h tx U').

(** A block's transactions in order, with the coins spent by each and the sum of
    the fees. *)
Inductive txs_step (maturity h : Z) : list MsgTx → UtxoSet → list (list Coin) → Z → UtxoSet → Prop :=
| steps_nil U : txs_step maturity h [] U [] 0 U
| steps_cons tx txs U cs fee U1 css fees U2 :
    tx_step maturity h tx U cs fee U1 →
    txs_step maturity h txs U1 css fees U2 →
    txs_step maturity h (tx :: txs) U (cs :: css) (fee + fees) U2.

(** The spendable output of a transaction an outpoint names. *)
Definition spendable_out (tx : MsgTx) (op : OutPoint) : option TxOut :=
  if bool_decide (op_Hash op = TxHash tx) && (0 <=? op_Index op) then
    o ← tx_TxOut tx !! Z.to_nat (op_Index op);
    if unspendable (PkScript o) then None else Some o
  else None.
End ledger.

(** The value of all coins. *)
Definition total (U : UtxoSet) : Z := map_fold (λ _ c t, coin_amount c + t) 0 U.

(** ** Scripts and outputs *)

Lemma IsUnspendable_total s : IsUnspendable s = Ok (unspendable s).
Proof.
  unfold unspendable, IsUnspendable. destruct (_ && _); [done|].
  destruct (Z.ltb_spec MaxScriptSize (zlen s)); [done|].
  assert (script_ok s) as Hs by (unfold script_ok, MaxScriptSize in *; lia).
  by destruct (checkScriptParses_cases s Hs) as [[_ ->]|[_ ->]].
Qed.

Lemma add_outs_lookup {A} (mk : TxOut → A) hash outs idx m op :
  0 <= idx →
  add_outs mk hash outs idx m !! op =
    match
      (if bool_decide (op_Hash op = hash) && (idx <=? op_Index op) then
         o ← outs !! Z.to_nat (op_Index op - idx);
         if unspendable (PkScript o) then None else Some o
       else None)
    with Some o => Some (mk o) | None => m !! op end.
Proof.
  revert idx m. induction outs as [|o outs IH]; intros idx m Hi; cbn [add_outs].
  { by destruct (_ && _). }
  rewrite IH by lia. case_bool_decide as Eh; cbn [andb].
  - destruct (Z.leb_spec (idx + 1) (op_Index op)).
    + rewrite (proj2 (Z.leb_le idx _)) by lia.
      replace (Z.to_nat (op_Index op - idx)) with (S (Z.to_nat (op_Index op - (idx + 1)))) by lia.
      cbn [lookup list_lookup]. destruct (outs !! Z.to_nat (op_Index op - (idx + 1))) as [o'|]; cbn.
      * destruct (unspendable (PkScript o')); [|done].
        destruct (unspendable (PkScript o)); [done|]. apply lookup_insert_ne. intros <-. cbn in *. lia.
      * destruct (unspendable (PkScript o)); [done|]. apply lookup_insert_ne. intros <-. cbn in *. lia.
    + destruct (Z.leb_spec idx (op_Index op)).
      * destruct op as [oh oi]. cbn [op_Hash op_Index] in *. assert (oi = idx) as -> by lia. subst oh.
        rewrite Z.sub_diag. change ((o :: outs) !! Z.to_nat 0) with (Some o). cbn [mbind option_bind].
        destruct (unspendable (PkScript o)); [done|]. apply lookup_insert_eq.
      * destruct (unspendable (PkScript o)); [done|]. apply lookup_insert_ne. intros <-. cbn in *. lia.
  - destruct (unspendable (PkScript o)); [done|]. apply lookup_insert_ne. intros <-. by cbn in *.
Qed.

Lemma total_insert op c U : U !! op = None → total (<[op := c]> U) = coin_amount c + total U.
Proof. intros Hn. unfold total. rewrite map_fold_insert_L; [done| |done]. intros. lia. Qed.

Lemma total_delete op c U : U !! op = Some c → total U = coin_amount c + total (delete op U).
Proof. intros Hn. unfold total. rewrite (map_fold_delete_L _ _ op c); [done| |done]. intros. lia. Qed.

Lemma take_coins_total U ops cs U' : take_coins U ops = Some (cs, U') → total U = sum_coins cs + total U'.
Proof.
  revert U cs U'. induction ops as [|op ops IH]; intros U cs U'; cbn [take_coins].
  { intros [= <- <-]. done. }
  destruct (U !! op) as [c|] eqn:Ec; cbn; [|done].
  destruct (take_coins (delete op U) ops) as [[cs1 U1]|] eqn:E1; cbn; [|done].
  intros [= <- <-]. apply IH in E1. rewrite (total_delete op c) by done.
  change (sum_coins (c :: cs1)) with (coin_amount c + sum_coins cs1). lia.
Qed.

(** Taking coins removes the outpoints named, and leaves the others. *)
Lemma take_coins_lookup U ops cs U' op :
  take_coins U ops = Some (cs, U') → U' !! op = if decide (op ∈ ops) then None else U !! op.
Proof.
  revert U cs U'. induction ops as [|o ops IH]; intros U cs U'; cbn [take_coins].
  { intros [= <- <-]. by rewrite decide_False by apply not_elem_of_nil. }
  destruct (U !! o) as [c|] eqn:Ec; cbn; [|done].
  destruct (take_coins (delete o U) ops) as [[cs1 U1]|] eqn:E1; cbn; [|done].
  intros [= <- <-]. rewrite (IH _ _ _ E1). destruct (decide (op ∈ ops)) as [Hin|Hin].
  - by rewrite decide_True by by right.
  - destruct (decide (op = o)) as [->|Hne].
    + rewrite decide_True by by left. apply lookup_delete_eq.
    + rewrite decide_False by by (intros [|]%elem_of_cons). by apply lookup_delete_ne.
Qed.

(** A coin that is taken was there. *)
Lemma take_coins_coins U ops cs U' :
  take_coins U ops = Some (cs, U') → NoDup ops ∧ Forall2 (λ op c, U !! op = Some c) ops cs.
Proof.
  revert U cs U'. induction ops as [|o ops IH]; intros U cs U'; cbn [take_coins].
  { intros [= <- <-]. split; constructor. }
  destruct (U !! o) as [c|] eqn:Ec; cbn; [|done].
  destruct (take_coins (delete o U) ops) as [[cs1 U1]|] eqn:E1; cbn; [|done].
  intros [= <- <-]. destruct (IH _ _ _ E1) as [Hnd Hf]. split.
  - constructor; [|done]. intros Hin. apply list_elem_of_lookup in Hin as [i Hi]. destruct (Forall2_lookup_l _ _ _ _ _ Hf Hi) as (c' & _ & Hc).
    by rewrite lookup_delete_eq in Hc.
  - constructor; [done|]. eapply Forall2_impl; [exact Hf|]. intros op c' Hc. cbn beta in *.
    by apply lookup_delete_Some in Hc as [_ ?].
Qed.

Lemma take_coins_ok U ops cs :
  NoDup ops → Forall2 (λ op c, U !! op = Some c) ops cs → ∃ U', take_coins U ops = Some (cs, U').
Proof.
  intros Hnd. revert U cs. induction Hnd as [|o ops Hni Hnd IH]; intros U cs Hf.
  { inversion Hf; subst. by exists U. }
  inversion Hf as [|? c ? cs' Hc Hf']; subst. cbn [take_coins]. rewrite Hc. cbn.
  destruct (IH (delete o U) cs') as [U' ->]; [|by exists U'].
  apply Forall2_same_length_lookup. split; [by eapply Forall2_length|].
  intros i op c' Hi Hc'. rewrite lookup_delete_ne.
  - by eapply Forall2_lookup_lr in Hf'.
  - intros ->. apply Hni. by eapply list_elem_of_lookup_2.
Qed.

(** ** Steps of the ledger *)

(** Every coin has a block height. *)
Definition heights_ok (U : UtxoSet) : Prop :=
  ∀ op c, U !! op = Some c → 0 <= coin_height c < 2 ^ 31.

Section ledger_steps.
Context `{HashFns}.

Lemma add_tx_coins_lookup h tx U op :
  add_tx_coins h tx U !! op =
    match spendable_out tx op with Some o => Some (new_coin (IsCoinBase tx) h o) | None => U !! op end.
Proof.
  unfold add_tx_coins, spendable_out. rewrite add_outs_lookup, Z.sub_0_r by lia. done.
Qed.

Lemma spendable_out_hash tx op o : spendable_out tx op = Some o → op_Hash op = TxHash tx.
Proof. unfold spendable_out. case_bool_decide; [done|]. done. Qed.

(** None of the outputs of the transaction is in the set. *)
Definition fresh_tx (tx : MsgTx) (U : UtxoSet) : Prop :=
  ∀ op, op_Hash op = TxHash tx → 0 <= op_Index op < zlen (tx_TxOut tx) → U !! op = None.

Lemma add_outs_total mk hash outs idx U :
  (∀ j, idx <= j < idx + zlen outs → U !! mkOutPoint hash j = None) →
  Forall (λ o, 0 <= Value o) outs → (∀ o, coin_amount (mk o) = Value o) →
  total (add_outs mk hash outs idx U) <= total U + total_value outs.
Proof.
  intros Hf Hv Hmk. revert idx U Hf. induction Hv as [|o outs Ho Hv IH]; intros idx U Hf; cbn [add_outs total_value].
  { lia. }
  rewrite zlen_cons in Hf. pose proof (zlen_nonneg outs). destruct (unspendable (PkScript o)).
  - etrans; [apply IH; intros; apply Hf; lia|]. lia.
  - etrans; [apply IH|].
    + intros j Hj. rewrite lookup_insert_ne by (intros [=]; lia). apply Hf. lia.
    + rewrite total_insert, Hmk by (apply Hf; lia). lia.
Qed.

Lemma add_tx_coins_total h tx U :
  fresh_tx tx U → Forall (λ o, 0 <= Value o) (tx_TxOut tx) →
  total (add_tx_coins h tx U) <= total U + total_value (tx_TxOut tx).
Proof. intros Hf Hv. apply add_outs_total; [|done|done]. intros j Hj. by apply Hf. Qed.

Lemma tx_step_fresh maturity h tx U cs fee U' t :
  tx_step maturity h tx U cs fee U' → TxHash t ≠ TxHash tx → fresh_tx t U → fresh_tx t U'.
Proof.
  intros Hs Hne Hf op Hop Hi. assert (spendable_out tx op = None) as Hn.
  { destruct (spendable_out tx op) eqn:E; [|done]. apply spendable_out_hash in E. congruence. }
  destruct Hs as [|cs U' fee _ Ht]; rewrite add_tx_coins_lookup, Hn; [by apply Hf|].
  rewrite (take_coins_lookup _ _ _ _ _ Ht). case_decide; [done|]. by apply Hf.
Qed.

Lemma tx_step_total maturity h tx U cs fee U' :
  tx_step maturity h tx U cs fee U' → fresh_tx tx U → Forall (λ o, 0 <= Value o) (tx_TxOut tx) →
  0 <= fee ∧ total U' + fee <= total U + (if IsCoinBase tx then total_value (tx_TxOut tx) else 0).
Proof.
  intros Hs Hf Hv. destruct Hs as [Hc|cs U' fee Hc Ht Hm -> Hfee].
  - rewrite Hc. pose proof (add_tx_coins_total h tx U Hf Hv). lia.
  - rewrite Hc. split; [done|]. assert (fresh_tx tx U') as Hf'.
    { intros op Hop Hi. rewrite (take_coins_lookup _ _ _ _ _ Ht). case_decide; [done|]. by apply Hf. }
    pose proof (add_tx_coins_total h tx U' Hf' Hv). pose proof (take_coins_total _ _ _ _ Ht). lia.
Qed.

(** Nothing but the coinbase creates value. *)
Lemma txs_step_total maturity h txs U css fees U' :
  txs_step maturity h txs U css fees U' →
  NoDup (TxHash <$> txs) → Forall (λ tx, fresh_tx tx U) txs → Forall sane_tx txs →
  0 <= fees ∧
  total U' + fees <= total U + foldr (λ tx t, (if IsCoinBase tx then total_value (tx_TxOut tx) else 0) + t) 0 txs.
Proof.
  induction 1 as [U|tx txs U cs fee U1 css fees U2 Hs Hss IH]; intros Hnd Hf Hsane; cbn [foldr]; [lia|].
  cbn [fmap list_fmap] in Hnd. apply NoDup_cons in Hnd as [Hni Hnd].
  apply Forall_cons in Hf as [Hf1 Hf]. apply Forall_cons in Hsane as [Hs1 Hsane].
  destruct (tx_step_total _ _ _ _ _ _ _ Hs Hf1) as [Hp Ht].
  { eapply Forall_impl; [apply (sane_scripts _ Hs1)|naive_solver]. }
  destruct IH as [Hp2 Ht2]; [done| |done|].
  { rewrite Forall_forall in Hf |- *. intros t Hin. eapply tx_step_fresh; [exact Hs| |by apply Hf].
    intros Eq. apply Hni. rewrite <-Eq. by apply list_elem_of_fmap_2. }
  split; lia.
Qed.

Lemma tx_step_heights maturity h tx U cs fee U' :
  tx_step maturity h tx U cs fee U' → 0 <= h < 2 ^ 31 → heights_ok U → heights_ok U'.
Proof.
  intros Hs Hh Hok op c Hc.
  destruct Hs as [|cs U' fee _ Ht]; rewrite add_tx_coins_lookup in Hc;
    (destruct (spendable_out tx op); [by injection Hc as <-|]); [by eapply Hok|].
  rewrite (take_coins_lookup _ _ _ _ _ Ht) in Hc. case_decide; [done|]. by eapply Hok.
Qed.
End ledger_steps.

(** ** Flags *)

Lemma Spend_coin e : entry_coin (Spend e) = entry_coin e.
Proof.
  unfold Spend. destruct (IsSpent e); [done|]. unfold entry_coin, entry_IsCoinBase, set_packedFlags. cbn.
  f_equal. unfold tfCoinBase, tfSpent, tfModified. f_equal. apply Z.bits_inj'. intros i Hi.
  rewrite !Z.land_spec, Z.lor_spec. destruct (decide (i = 0)) as [->|Hne].
  - cbn. by rewrite orb_false_r.
  - assert (Z.testbit (Z.shiftl 1 0) i = false) as E; [|rewrite E; by rewrite !andb_false_r].
    change (Z.shiftl 1 0) with (2 ^ 0). apply Z.pow2_bits_false. lia.
Qed.

Lemma Spend_spent e : IsSpent (Spend e) = true.
Proof.
  unfold Spend. destruct (IsSpent e) eqn:E; [done|]. unfold IsSpent, set_packedFlags. cbn.
  apply Z.eqb_eq. unfold tfSpent, tfModified. apply Z.bits_inj'. intros i Hi.
  rewrite Z.land_spec, Z.lor_spec. destruct (decide (i = 1)) as [->|Hne]; [cbn; by rewrite orb_true_r|].
  assert (Z.testbit (Z.shiftl 1 1) i = false) as E2; [|by rewrite E2, andb_false_r].
  change (Z.shiftl 1 1) with (2 ^ 1). apply Z.pow2_bits_false. lia.
Qed.

Lemma coin_of_Clone e : coin_of (Clone e) = coin_of e.
Proof. by destruct e as [[]|]. Qed.

Lemma coin_of_Some e c : coin_of e = Some c ↔ ∃ u, e = Some u ∧ IsSpent u = false ∧ entry_coin u = c.
Proof.
  destruct e as [u|]; cbn [coin_of]; [|naive_solver]. destruct (IsSpent u) eqn:E; naive_solver congruence.
Qed.

(** The entry of a created output. *)
Definition created_entry (isCoinBase : bool) (h : Z) (o : TxOut) : UtxoEntry :=
  mkUtxoEntry (Value o) (PkScript o) h (created_flags isCoinBase).

Lemma created_coin cb h o : coin_of (Some (created_entry cb h o)) = Some (new_coin cb h o).
Proof. by destruct cb. Qed.

(** The journal entry of a coin. *)
Definition coin_stxo (c : Coin) : SpentTxOut :=
  mkSpentTxOut (coin_amount c) (coin_script c) (coin_height c) (coin_coinbase c).

(** ** Transactions *)

Section txs.
Context `{HashFns}.

Lemma wf_outs_count tx : wf_MsgTx tx → zlen (tx_TxOut tx) <= 2 ^ 32.
Proof.
  intros (_ & _ & _ & _ & _ & _ & Ho & _). assert (maxTxOutPerMessage <= 2 ^ 32) by done. lia.
Qed.

Lemma TxHash_size tx : zlen (TxHash tx) = 32.
Proof. unfold TxHash, DoubleHashRaw. apply sha256_size. Qed.
End txs.
