(* ===== verification/ConnectBlock.v ===== *)
(** * Connecting a block (blockchain/validate.go, scriptval.go, chain.go)

    The checks a block must pass against the unspent outputs before it is
    connected: loading what it spends, no overwritten outputs, the inputs of
    each transaction, the subsidy, the sequence locks and the scripts.  The
    cache the outputs are loaded from is an interface, [UtxoSource]. *)
From stdpp Require Import fin_maps strings.
From Stdlib Require Import Lia ZArith.
From S2P Require Import Prelude Wire MsgTx ScriptError Crypto SigCache SigHash Engine ChainParams BlockIndex Subsidy RuleError TxRules Merkle UtxoView Ledger.

(** ** The interface of the cache

    From a state that represents a set of coins, [fetchEntries] returns an entry
    or [nil] per outpoint, in order: an unspent one for each coin of the set and
    no other unspent one; the set stays the same. *)
Class UtxoSource (S : Type) := {
  fetchEntries : list OutPoint → ST RuleErr S (list (option UtxoEntry));
  utxo_repr : S → UtxoSet → Prop;
  fetchEntries_ok s U ops :
    utxo_repr s U → Forall wf_OutPoint ops →
    ∃ es s', fetchEntries ops s = Ok (es, s') ∧ utxo_repr s' U ∧
      Forall2 (λ op e, coin_of e = U !! op) ops es
}.

(** ** Loading entries into a view *)

(** [for i, entry := range entries { view.entries[outpoints[i]] = entry.Clone() }] *)
Fixpoint store_entries (view : UtxoViewpoint) (outpoints : list OutPoint) (es : list (option UtxoEntry))
    : result RuleErr UtxoViewpoint :=
  match es, outpoints with
  | [], _ => Ok view
  | entry :: es, outpoint :: outpoints =>
      store_entries (set_entries view (<[outpoint := Clone entry]> (entries view))) outpoints es
  | _ :: _, [] => Panic
  end.

Section load.
Context `{HashFns} {S : Type} `{!UtxoSource S}.

Definition fetchUtxosFromCache (view : UtxoViewpoint) (outpoints : list OutPoint)
    : ST RuleErr S UtxoViewpoint :=
  if zlen outpoints =? 0 then mret view
  else
    entries ← fetchEntries outpoints;
    st_lift (store_entries view outpoints entries).

Definition fetchUtxos (view : UtxoViewpoint) (outpoints : list OutPoint) : ST RuleErr S UtxoViewpoint :=
  if zlen outpoints =? 0 then mret view
  else
    let needed := filter (λ op, entries view !! op = None) outpoints in
    fetchUtxosFromCache view needed.

Definition fetchInputUtxos (view : UtxoViewpoint) (block : Block) : ST RuleErr S UtxoViewpoint :=
  '(view, needed) ← st_lift (findInputsToFetch view block);
  fetchUtxosFromCache view needed.

(** ** Duplicate transactions *)

Fixpoint out_indices (hash : bytes) (outs : list TxOut) (txOutIdx : Z) : list OutPoint :=
  match outs with
  | [] => []
  | _ :: outs => mkOutPoint hash (u32 txOutIdx) :: out_indices hash outs (txOutIdx + 1)
  end.

Definition bip30_fetch (txs : list MsgTx) : list OutPoint :=
  concat (map (λ tx, out_indices (TxHash tx) (tx_TxOut tx) 0) txs).

Definition checkBIP0030 (block : Block) (view : UtxoViewpoint) : ST RuleErr S UtxoViewpoint :=
  let fetch := bip30_fetch (b_Transactions block) in
  view ← fetchUtxos view fetch;
  if existsb (λ outpoint,
       match LookupEntry view outpoint with None => false | Some utxo => negb (IsSpent utxo) end) fetch
  then st_fail (ruleError ErrOverwriteTx)
  else mret view.
End load.

(** ** The inputs of a transaction *)

(** The loop over the inputs, with the sum so far. *)
Fixpoint check_inputs (ins : list TxIn) (txHeight : Z) (utxoView : UtxoViewpoint) (p : Params)
    (totalGrainIn : Z) : result RuleErr Z :=
  match ins with
  | [] => Ok totalGrainIn
  | txIn :: ins =>
      match LookupEntry utxoView (PreviousOutPoint txIn) with
      | None => Fail (ruleError ErrMissingTxOut)
      | Some utxo =>
          if IsSpent utxo then Fail (ruleError ErrMissingTxOut)
          else if entry_IsCoinBase utxo &&
                  (i32 (txHeight - blockHeight utxo) <? i32 (CoinbaseMaturity p))
          then Fail (ruleError ErrImmatureSpend)
          else
            let originTxGrain := amount utxo in
            if originTxGrain <? 0 then Fail (ruleError ErrBadTxOutValue)
            else if MaxGrain <? originTxGrain then Fail (ruleError ErrBadTxOutValue)
            else
              let lastGrainIn := totalGrainIn in
              let totalGrainIn := i64 (totalGrainIn + originTxGrain) in
              if (totalGrainIn <? lastGrainIn) || (MaxGrain <? totalGrainIn)
              then Fail (ruleError ErrBadTxOutValue)
              else check_inputs ins txHeight utxoView p totalGrainIn
      end
  end.

(** [for _, txOut := range outs { total += txOut.Value }] *)
Definition sum_outs (outs : list TxOut) : Z :=
  foldl (λ totalGrainOut txOut, i64 (totalGrainOut + Value txOut)) 0 outs.

Definition CheckTransactionInputs (tx : MsgTx) (txHeight : Z) (utxoView : UtxoViewpoint) (p : Params)
    : result RuleErr Z :=
  if IsCoinBase tx then Ok 0
  else
    totalGrainIn ← check_inputs (tx_TxIn tx) txHeight utxoView p 0;
    let totalGrainOut := sum_outs (tx_TxOut tx) in
    if totalGrainIn <? totalGrainOut then Fail (ruleError ErrSpendTooHigh)
    else Ok (i64 (totalGrainIn - totalGrainOut)).

(** ** Sequence locks (chain.go) *)

Definition SequenceLockTimeGranularity : Z := 9.

Fixpoint sequence_loop (node : blockNode) (ins : list TxIn) (utxoView : UtxoViewpoint)
    (lock : SequenceLock) : result RuleErr SequenceLock :=
  match ins with
  | [] => Ok lock
  | txIn :: ins =>
      match LookupEntry utxoView (PreviousOutPoint txIn) with
      | None => Fail (ruleError ErrMissingTxOut)
      | Some utxo =>
          let inputHeight := blockHeight utxo in
          let inputHeight := if inputHeight =? 0x7fffffff then i32 (height node + 1) else inputHeight in
          let sequenceNum := Sequence txIn in
          let relativeLock := Z.land sequenceNum SequenceLockTimeMask in
          if Z.land sequenceNum SequenceLockTimeDisabled =? SequenceLockTimeDisabled
          then sequence_loop node ins utxoView lock
          else if Z.land sequenceNum SequenceLockTimeIsSeconds =? SequenceLockTimeIsSeconds then
            let prevInputHeight := i32 (inputHeight - 1) in
            let prevInputHeight := if prevInputHeight <? 0 then 0 else prevInputHeight in
            let blockNode := Ancestor node prevInputHeight in
            medianTime ← lift_empty (CalcPastMedianTime blockNode);
            let timeLockSeconds := Z.shiftl relativeLock SequenceLockTimeGranularity - 1 in
            let timeLock := i64 (medianTime + timeLockSeconds) in
            sequence_loop node ins utxoView
              {| Seconds := if Seconds lock <? timeLock then timeLock else Seconds lock;
                 BlockHeight := BlockHeight lock |}
          else
            let blockHeight := i32 (inputHeight + i32 (relativeLock - 1)) in
            sequence_loop node ins utxoView
              {| Seconds := Seconds lock;
                 BlockHeight := if BlockHeight lock <? blockHeight then blockHeight else BlockHeight lock |}
      end
  end.

Definition calcSequenceLock (node : blockNode) (tx : MsgTx) (utxoView : UtxoViewpoint)
    : result RuleErr SequenceLock :=
  let sequenceLock := {| Seconds := -1; BlockHeight := -1 |} in
  if (u32 (tx_Version tx) <? 2) || IsCoinBase tx then Ok sequenceLock
  else sequence_loop node (tx_TxIn tx) utxoView sequenceLock.

Definition LockTimeToSequence (isSeconds : bool) (locktime : Z) : Z :=
  if negb isSeconds then locktime
  else Z.lor SequenceLockTimeIsSeconds (Z.shiftr locktime SequenceLockTimeGranularity).

(** ** Scripts (scriptval.go)

    Goroutines run the scripts in an order of their own; here it is the order of
    the inputs.  All of them are run unless one fails, which one is reported
    then depends on the order. *)
Section scripts.
Context `{HashFns} `{Keys} `{!MapRange bytes sigCacheEntry} `{!MapRange bytes TxSigHashes}.

Record txValidateItem := mkItem {
  vi_txInIndex : Z;
  vi_txIn : TxIn;
  vi_tx : MsgTx;
  vi_sigHashes : TxSigHashes
}.

(** One item of [validateHandler]. *)
Definition validate_item (utxoView : UtxoViewpoint) (flags : Z) (item : txValidateItem)
    : ST RuleErr (option SigCache) unit := λ sigCache,
  match LookupEntry utxoView (PreviousOutPoint (vi_txIn item)) with
  | None => Fail (ruleError ErrMissingTxOut)
  | Some utxo =>
      match NewEngine (pkScript utxo) (vi_tx item) (vi_txInIndex item) flags sigCache
              (vi_sigHashes item) (amount utxo) (view_FetchPrevOutput utxoView) with
      | Panic => Panic
      | Fail _ => Fail (ruleError ErrScriptMalformed)
      | Ok vm =>
          match Execute vm with
          | Panic => Panic
          | Fail _ => Fail (ruleError ErrScriptValidation)
          | Ok (_, vm) => Ok ((), Engine.sigCache vm)
          end
      end
  end.

Fixpoint Validate (utxoView : UtxoViewpoint) (flags : Z) (items : list txValidateItem)
    : ST RuleErr (option SigCache) unit :=
  match items with
  | [] => mret ()
  | item :: items => validate_item utxoView flags item ;; Validate utxoView flags items
  end.

Definition tx_items (tx : MsgTx) (cachedHashes : TxSigHashes) : list txValidateItem :=
  imap (λ txInIdx txIn, mkItem (Z.of_nat txInIdx) txIn tx cachedHashes) (tx_TxIn tx).

(** The items of all transactions, with the midstates loaded into the cache. *)
Fixpoint collect_items (utxoView : UtxoViewpoint) (txs : list MsgTx)
    : ST RuleErr HashCache (list txValidateItem) :=
  match txs with
  | [] => mret []
  | tx :: txs =>
      if IsCoinBase tx then collect_items utxoView txs
      else
        cachedHashes ← (λ h, lift_script (LoadOrComputeSigHashes (view_FetchPrevOutput utxoView) tx h));
        items ← collect_items utxoView txs;
        mret (tx_items tx cachedHashes ++ items)
  end.

Definition ValidateTransactionScripts (tx : MsgTx) (utxoView : UtxoViewpoint) (flags : Z)
    (sigCache : option SigCache) (hashCache : HashCache)
    : result RuleErr (option SigCache * HashCache) :=
  if IsCoinBase tx then Ok (sigCache, hashCache)
  else
    '(cachedHashes, hashCache) ←
      lift_script (LoadOrComputeSigHashes (view_FetchPrevOutput utxoView) tx hashCache);
    '(_, sigCache) ← Validate utxoView flags (tx_items tx cachedHashes) sigCache;
    Ok (sigCache, hashCache).

Definition checkBlockScripts (block : Block) (utxoView : UtxoViewpoint) (scriptFlags : Z)
    (sigCache : option SigCache) (hashCache : HashCache)
    : result RuleErr (option SigCache * HashCache) :=
  '(items, hashCache) ← collect_items utxoView (b_Transactions block) hashCache;
  '(_, sigCache) ← Validate utxoView scriptFlags items sigCache;
  Ok (sigCache, foldl (λ h tx, PurgeSigHashes (TxHash tx) h) hashCache (b_Transactions block)).
End scripts.

(** ** [checkConnectBlock] *)

Record Checkpoint := mkCheckpoint { cp_Height : Z; cp_Hash : bytes }.

Section connect.
Context `{HashFns} `{Keys} `{!MapRange bytes sigCacheEntry} `{!MapRange bytes TxSigHashes}.
Context {S : Type} `{!UtxoSource S}.

(** The fields of [BlockChain] the check uses. *)
Record BlockChain := mkBlockChain {
  chainParams : Params;
  GenesisHash : bytes;
  checkpoints : list Checkpoint;
  utxoCache : S;
  bc_sigCache : option SigCache;
  bc_hashCache : HashCache
}.

Definition set_utxoCache (b : BlockChain) (s : S) : BlockChain :=
  mkBlockChain (chainParams b) (GenesisHash b) (checkpoints b) s (bc_sigCache b) (bc_hashCache b).
Definition set_caches (b : BlockChain) (sc : option SigCache) (hc : HashCache) : BlockChain :=
  mkBlockChain (chainParams b) (GenesisHash b) (checkpoints b) (utxoCache b) sc hc.

Definition HasCheckpoints (b : BlockChain) : bool := 0 <? zlen (checkpoints b).

Definition LatestCheckpoint (b : BlockChain) : option Checkpoint :=
  if negb (HasCheckpoints b) then None else last (checkpoints b).

(** The loop over the transactions: inputs, fees, and the view moves on. *)
Fixpoint connect_txs (txs : list MsgTx) (height : Z) (p : Params) (view : UtxoViewpoint)
    (stxos : option (list SpentTxOut)) (totalFees : Z)
    : result RuleErr (UtxoViewpoint * option (list SpentTxOut) * Z) :=
  match txs with
  | [] => Ok (view, stxos, totalFees)
  | tx :: txs =>
      txFee ← CheckTransactionInputs tx height view p;
      let lastTotalFees := totalFees in
      let totalFees := i64 (totalFees + txFee) in
      if totalFees <? lastTotalFees then Fail (ruleError ErrBadFees)
      else
        '(view, stxos) ← view_connectTransaction view tx height stxos;
        connect_txs txs height p view stxos totalFees
  end.

Fixpoint check_sequence_locks (txs : list MsgTx) (node : blockNode) (view : UtxoViewpoint)
    (medianTime : Z) : result RuleErr unit :=
  match txs with
  | [] => Ok ()
  | tx :: txs =>
      sequenceLock ← calcSequenceLock node tx view;
      if negb (SequenceLockActive sequenceLock (height node) medianTime)
      then Fail (ruleError ErrUnfinalizedTx)
      else check_sequence_locks txs node view medianTime
  end.

(** Between loading the outputs and running the scripts. *)
Definition check_and_connect (p : Params) (node : blockNode) (block : Block) (view : UtxoViewpoint)
    (stxos : option (list SpentTxOut)) : result RuleErr (UtxoViewpoint * option (list SpentTxOut)) :=
  let transactions := b_Transactions block in
  '(view, stxos, totalFees) ← connect_txs transactions (height node) p view stxos 0;
  coinbase ← go_index transactions 0;
  let totalGrainOut := sum_outs (tx_TxOut coinbase) in
  subsidy ← lift_empty (CalcBlockSubsidy (height node) (Some p));
  let expectedGrainOut := i64 (subsidy + totalFees) in
  if expectedGrainOut <? totalGrainOut then Fail (ruleError ErrBadCoinbaseValue)
  else
    medianTime ← lift_empty (CalcPastMedianTime (parent node));
    check_sequence_locks transactions node view medianTime ;;
    Ok (view, stxos).

(** The block chain is the state: its caches are filled. *)
Definition checkConnectBlock (node : blockNode) (block : Block) (view : UtxoViewpoint)
    (stxos : option (list SpentTxOut))
    : ST RuleErr BlockChain (UtxoViewpoint * option (list SpentTxOut)) := λ b,
  if bool_decide (hash node = GenesisHash b) then Fail (ruleError ErrMissingTxOut)
  else if negb (bool_decide (BestHash view = b_PrevBlock block))
  then Fail (assertError "inconsistent view when checking block connection")
  else
    '(view, s) ← checkBIP0030 block view (utxoCache b);
    '(view, s) ← fetchInputUtxos view block s;
    let b := set_utxoCache b s in
    '(view, stxos) ← check_and_connect (chainParams b) node block view stxos;
    let runScripts :=
      match LatestCheckpoint b with
      | Some checkpoint => negb (height node <=? cp_Height checkpoint)
      | None => true
      end in
    if runScripts then
      '(sc, hc) ← checkBlockScripts block view 0 (bc_sigCache b) (bc_hashCache b);
      Ok (SetBestHash (hash node) view, stxos, set_caches b sc hc)
    else Ok (SetBestHash (hash node) view, stxos, b).
End connect.
