(* ===== verification/ConnectSpec.v ===== *)
(** * Connecting a block implements the ledger

    What [checkConnectBlock] accepts, in terms of the ledger of Ledger.v, for a
    block whose transactions spend no output of a later one; and what it accepts
    when that does not hold. *)
From stdpp Require Import fin_maps strings.
From Stdlib Require Import Lia ZArith.
From S2P Require Import Prelude Wire MsgTx ScriptError Taproot Tokenizer Standard Crypto SigCache SigHash Engine EngineExec ChainParams BlockIndex Subsidy RuleError TxRules Merkle UtxoView Ledger ConnectBlock.

(** ** The operations of the view as functions on its map *)

Lemma set_entries_id view : set_entries view (entries view) = view.
Proof. by destruct view. Qed.

Lemma AddTxOuts_loop_eq view hash outs idx cb h :
  0 <= idx → idx + zlen outs <= 2 ^ 32 →
  AddTxOuts_loop view hash outs idx cb h =
    Ok (set_entries view (add_outs (λ o, Some (created_entry cb h o)) hash outs idx (entries view))).
Proof.
  revert view idx. induction outs as [|o outs IH]; intros view idx Hi Hl; cbn [AddTxOuts_loop add_outs].
  { by rewrite set_entries_id. }
  rewrite zlen_cons in Hl. pose proof (zlen_nonneg outs).
  unfold view_addTxOut. rewrite IsUnspendable_total. cbn [lift_script mbind result_bind].
  rewrite u32_small by lia. destruct (unspendable (PkScript o)); cbn [mbind result_bind]; by rewrite IH by lia.
Qed.

Section spec.
Context `{HashFns} `{Keys} `{!MapRange bytes sigCacheEntry} `{!MapRange bytes TxSigHashes}.

Lemma AddTxOuts_eq view tx h :
  wf_MsgTx tx →
  ∃ view', AddTxOuts view tx h = Ok view' ∧ bestHash view' = bestHash view ∧
    ∀ op, entries view' !! op =
      match spendable_out tx op with
      | Some o => Some (Some (created_entry (IsCoinBase tx) h o))
      | None => entries view !! op
      end.
Proof.
  intros Hwf. unfold AddTxOuts. rewrite AddTxOuts_loop_eq by (pose proof (wf_outs_count tx Hwf); lia).
  eexists; split_and!; [done|done|]. intros op. cbn [entries set_entries].
  by rewrite add_outs_lookup, Z.sub_0_r by lia.
Qed.

(** Spending distinct outputs the view has entries for. *)
Lemma spend_loop_eq view ins stxos es :
  NoDup (PreviousOutPoint <$> ins) →
  Forall2 (λ op e, entries view !! op = Some (Some e)) (PreviousOutPoint <$> ins) es →
  ∃ view', spend_loop view ins stxos = Ok (view', (λ l, l ++ (stxo_of <$> es)) <$> stxos) ∧
    bestHash view' = bestHash view ∧
    Forall2 (λ op e, entries view' !! op = Some (Some (Spend e))) (PreviousOutPoint <$> ins) es ∧
    ∀ op, op ∉ PreviousOutPoint <$> ins → entries view' !! op = entries view !! op.
Proof.
  revert view stxos es. induction ins as [|ti ins IH]; intros view stxos es Hnd Hf; cbn [fmap list_fmap] in *.
  { inversion Hf; subst. exists view. split_and!; [|done|constructor|done].
    cbn. f_equal. f_equal. destruct stxos as [l|]; cbn; [by rewrite app_nil_r|done]. }
  apply NoDup_cons in Hnd as [Hni Hnd]. inversion Hf as [|? e ? es' He Hf']; subst. cbn [spend_loop].
  unfold LookupEntry. rewrite He. cbn [mjoin option_join].
  set (view1 := set_entries view _).
  destruct (IH view1 ((λ l, l ++ [stxo_of e]) <$> stxos) es' Hnd) as (view' & E & Hb & Hs & Ho).
  { apply Forall2_same_length_lookup. split; [by eapply Forall2_length|]. intros i op e' Hop He'.
    cbn. rewrite lookup_insert_ne; [by eapply Forall2_lookup_lr in Hf'|].
    intros <-. apply Hni. by eapply list_elem_of_lookup_2. }
  exists view'. split_and!.
  - rewrite E. f_equal. f_equal. destruct stxos as [l|]; cbn; [|done]. by rewrite <-(assoc_L (++)).
  - done.
  - constructor; [|done]. rewrite Ho by done. cbn. apply lookup_insert_eq.
  - intros op Hop. rewrite Ho by (intros ?; apply Hop; by right). cbn. apply lookup_insert_ne.
    intros <-. apply Hop. by left.
Qed.

(** ** The inputs of a transaction *)

Definition maturity_ok (p : Params) : Prop := 0 <= CoinbaseMaturity p < 2 ^ 16.

Lemma check_inputs_ok ins h view p W t t' :
  maturity_ok p → 0 <= h < 2 ^ 31 → heights_ok W →
  (∀ op c, op ∈ PreviousOutPoint <$> ins → coin_of (LookupEntry view op) = Some c → W !! op = Some c) →
  0 <= t <= MaxGrain → check_inputs ins h view p t = Ok t' →
  t <= t' <= MaxGrain ∧
  ∃ es cs, Forall2 (λ op e, entries view !! op = Some (Some e) ∧ IsSpent e = false) (PreviousOutPoint <$> ins) es ∧
    cs = entry_coin <$> es ∧
    Forall2 (λ op c, W !! op = Some c) (PreviousOutPoint <$> ins) cs ∧
    Forall (mature (CoinbaseMaturity p) h) cs ∧ t' = t + sum_coins cs.
Proof.
  intros Hp Hh Hok Hrel. revert t t'. induction ins as [|ti ins IH]; intros t t' Ht; cbn [check_inputs].
  { intros [= <-]. split; [lia|]. exists [], []. split_and!; try constructor. cbn. lia. }
  destruct (LookupEntry view (PreviousOutPoint ti)) as [e|] eqn:El; [|done].
  destruct (IsSpent e) eqn:Es; [done|].
  assert (coin_of (LookupEntry view (PreviousOutPoint ti)) = Some (entry_coin e)) as Hc by (rewrite El; cbn; by rewrite Es).
  apply Hrel in Hc; [|by left]. pose proof (Hok _ _ Hc) as Hhe. cbn [coin_height entry_coin] in Hhe.
  assert (HM : MaxGrain = 2100000000000000000) by done. unfold maturity_ok in Hp.
  rewrite (i32_small (h - blockHeight e)), (i32_small (CoinbaseMaturity p)) by (unfold is_i32; lia).
  destruct (entry_IsCoinBase e && _) eqn:Em; [done|].
  destruct (Z.ltb_spec (amount e) 0); [done|]. destruct (Z.ltb_spec MaxGrain (amount e)); [done|]. cbv zeta.
  rewrite i64_small by (unfold is_i64; lia).
  destruct (Z.ltb_spec (t + amount e) t); [lia|]. destruct (Z.ltb_spec MaxGrain (t + amount e)); [done|].
  cbn [orb]. intros E. apply IH in E as (Ht' & es & cs & Hes & -> & Hcs & Hm & ->); [| |lia].
  2:{ intros op c Hin. apply Hrel. by right. }
  split; [lia|]. exists (e :: es), (entry_coin <$> (e :: es)). cbn [fmap list_fmap]. split_and!; [|done| | |].
  - constructor; [|done]. split; [|done]. unfold LookupEntry in El.
    destruct (entries view !! PreviousOutPoint ti) as [[]|]; by simplify_eq/=.
  - by constructor.
  - constructor; [|done]. unfold mature. cbn [coin_coinbase coin_height entry_coin]. intros Hcb.
    rewrite Hcb in Em. cbn [andb] in Em. lia.
  - change (sum_coins (entry_coin e :: (entry_coin <$> es))) with (amount e + sum_coins (entry_coin <$> es)). lia.
Qed.

Lemma sum_outs_eq outs :
  Forall (λ o, 0 <= Value o) outs → total_value outs <= MaxGrain → sum_outs outs = total_value outs.
Proof.
  intros Hv Ht. unfold sum_outs. assert (HM : MaxGrain < 2 ^ 62) by done.
  assert (∀ t, 0 <= t → t + total_value outs < 2 ^ 63 →
    foldl (λ totalGrainOut txOut, i64 (totalGrainOut + Value txOut)) t outs = t + total_value outs) as Hg.
  { clear Ht. induction Hv as [|o outs Ho Hv IH]; intros t Ht Hs; cbn [foldl total_value] in *; [lia|].
    pose proof (total_value_nonneg outs Hv). rewrite i64_small by (unfold is_i64; lia).
    rewrite IH by lia. lia. }
  rewrite Hg by lia. lia.
Qed.

(** ** The view around a block *)

(** The outputs of transactions still to be connected. *)
Definition pending (txs : list MsgTx) (op : OutPoint) : Prop :=
  ∃ tx, tx ∈ txs ∧ op_Hash op = TxHash tx ∧ 0 <= op_Index op < zlen (tx_TxOut tx).

(** A view over the coins [U] stands for the coins [W]: by an entry where it has
    one, and as [U] elsewhere. *)
Definition stands_for (view : UtxoViewpoint) (U W : UtxoSet) (op : OutPoint) : Prop :=
  match entries view !! op with Some e => coin_of e = W !! op | None => U !! op = W !! op end.

Definition view_repr (view : UtxoViewpoint) (U W : UtxoSet) : Prop := ∀ op, stands_for view U W op.

(** While a block is connected: the outputs to come have entries, perhaps
    already unspent ones, and are not in the ledger; the other outpoints are as
    in the ledger. *)
Record connecting (txs : list MsgTx) (view : UtxoViewpoint) (U W : UtxoSet) : Prop := {
  cn_pending op tx : tx ∈ txs → op_Hash op = TxHash tx → 0 <= op_Index op < zlen (tx_TxOut tx) →
    W !! op = None ∧ ∃ e, entries view !! op = Some e ∧ (spendable_out tx op = None → coin_of e = None);
  cn_rest op : ¬ pending txs op → stands_for view U W op
}.

(** The entries of what a transaction spent still tell what it was. *)
Definition spent_entries (view : UtxoViewpoint) (tx : MsgTx) (cs : list Coin) : Prop :=
  if IsCoinBase tx then cs = []
  else Forall2 (λ op c, ∃ e, entries view !! op = Some (Some e) ∧ entry_coin e = c) (prevouts tx) cs.

(** The transaction spends no output of these. *)
Definition spends_none_of (tx : MsgTx) (txs : list MsgTx) : Prop :=
  IsCoinBase tx = false → ∀ op t, op ∈ prevouts tx → t ∈ txs → op_Hash op ≠ TxHash t.

Lemma spendable_out_Some tx op o :
  spendable_out tx op = Some o →
  op_Hash op = TxHash tx ∧ 0 <= op_Index op < zlen (tx_TxOut tx).
Proof.
  unfold spendable_out. case_bool_decide as Eh; [|done]. destruct (Z.leb_spec 0 (op_Index op)); [|done]. cbn.
  destruct (tx_TxOut tx !! Z.to_nat (op_Index op)) as [o'|] eqn:E; [|done]. intros _. split; [done|].
  apply lookup_lt_Some in E. unfold zlen. lia.
Qed.

(** Adding the outputs of a transaction: it is no longer to come. *)
Lemma connecting_outs tx txs view view1 U W h :
  connecting (tx :: txs) view U W → TxHash tx ∉ TxHash <$> txs →
  (∀ op, entries view1 !! op =
     match spendable_out tx op with
     | Some o => Some (Some (created_entry (IsCoinBase tx) h o)) | None => entries view !! op end) →
  connecting txs view1 U (add_tx_coins h tx W).
Proof.
  intros [Hp Hr] Hni He. split.
  - intros op t Ht Eh Hi. destruct (Hp op t ltac:(by right) Eh Hi) as (HW & e & Hv & Hs).
    assert (spendable_out tx op = None) as Hn.
    { destruct (spendable_out tx op) eqn:E; [|done]. apply spendable_out_hash in E. exfalso. apply Hni.
      rewrite <-E, Eh. by apply list_elem_of_fmap_2. }
    rewrite add_tx_coins_lookup, He, Hn. eauto.
  - intros op Hnp. unfold stands_for. rewrite He, add_tx_coins_lookup.
    destruct (spendable_out tx op) as [o|] eqn:Es; [by rewrite created_coin|].
    destruct (decide (op_Hash op = TxHash tx ∧ 0 <= op_Index op < zlen (tx_TxOut tx))) as [[Eh Hi]|Hne].
    + destruct (Hp op tx ltac:(by left) Eh Hi) as (HW & e & Hv & Hc). rewrite Hv, HW. auto.
    + apply Hr. intros (t & [->|Ht]%elem_of_cons & Eh & Hi); [by apply Hne|]. apply Hnp. by exists t.
Qed.

(** One transaction. *)
Lemma connect_tx_ok tx txs h p view U W stxos fee view' stxos' :
  maturity_ok p → 0 <= h < 2 ^ 31 → heights_ok W → wf_MsgTx tx → sane_tx tx →
  TxHash tx ∉ TxHash <$> txs → spends_none_of tx (tx :: txs) →
  connecting (tx :: txs) view U W →
  CheckTransactionInputs tx h view p = Ok fee →
  view_connectTransaction view tx h stxos = Ok (view', stxos') →
  0 <= fee <= MaxGrain ∧ bestHash view' = bestHash view ∧
  ∃ cs W', tx_step (CoinbaseMaturity p) h tx W cs fee W' ∧ connecting txs view' U W' ∧
    spent_entries view' tx cs ∧ stxos' = (λ l, l ++ (coin_stxo <$> cs)) <$> stxos ∧
    ∀ op, op ∉ (if IsCoinBase tx then [] else prevouts tx) → op_Hash op ≠ TxHash tx → entries view' !! op = entries view !! op.
Proof.
  intros Hp Hh Hok Hwf Hsane Hni Hord Hcn. unfold CheckTransactionInputs, view_connectTransaction, spent_entries.
  unfold spends_none_of in Hord. destruct (IsCoinBase tx) eqn:Ecb.
  - intros [= <-]. destruct (AddTxOuts_eq view tx h Hwf) as (view1 & -> & Hb & He). rewrite Ecb in He.
    cbn [mbind result_bind]. intros [= <- <-]. split_and!; [lia|done|done|].
    exists [], (add_tx_coins h tx W). split_and!; [by constructor| |done| |].
    + eapply connecting_outs; [done..|]. by rewrite Ecb.
    + destruct stxos as [l|]; cbn; [by rewrite app_nil_r|done].
    + intros op _ Hne. rewrite He. destruct (spendable_out tx op) eqn:E; [|done].
      by apply spendable_out_hash in E.
  - specialize (Hord eq_refl). intros Hck Hvc. apply bind_ok in Hck as (tin & Hck & Hfee).
    destruct Hcn as [Hpend Hrest].
    assert (∀ op, op ∈ prevouts tx → stands_for view U W op) as Hst.
    { intros op Hin. apply Hrest. intros (t & Ht & Eh & _). by eapply Hord. }
    eapply (check_inputs_ok _ _ _ _ W) in Hck as (Htin & es & cs & Hes & -> & Hcs & Hm & Ht); [|done..| |done].
    2:{ intros op c Hin Hc. specialize (Hst op Hin). unfold stands_for in Hst. unfold LookupEntry in Hc.
        destruct (entries view !! op) as [[e|]|]; cbn in *; congruence. }
    assert (Forall (λ o, 0 <= Value o) (tx_TxOut tx)) as Hv
      by (eapply Forall_impl; [apply (sane_scripts _ Hsane)|naive_solver]).
    rewrite sum_outs_eq in Hfee by (done || apply sane_total, Hsane).
    pose proof (total_value_nonneg _ Hv). assert (HM : MaxGrain < 2 ^ 62) by done.
    destruct (Z.ltb_spec tin (total_value (tx_TxOut tx))); [done|]. injection Hfee as <-.
    rewrite i64_small by (unfold is_i64; lia).
    assert (Hnd : NoDup (PreviousOutPoint <$> tx_TxIn tx)) by apply Hsane.
    destruct (take_coins_ok W (prevouts tx) (entry_coin <$> es) Hnd Hcs) as [W1 HW1].
    destruct (spend_loop_eq view (tx_TxIn tx) stxos es Hnd) as (view1 & E1 & Hb1 & Hs1 & Ho1).
    { eapply Forall2_impl; [exact Hes|]. naive_solver. }
    rewrite E1 in Hvc. cbn [mbind result_bind] in Hvc.
    destruct (AddTxOuts_eq view1 tx h Hwf) as (view2 & E2 & Hb2 & He2). rewrite E2 in Hvc.
    injection Hvc as <- <-. split_and!; [lia|lia|congruence|].
    assert (Hout : ∀ op, op ∈ prevouts tx → spendable_out tx op = None).
    { intros op Hin. destruct (spendable_out tx op) eqn:E; [|done]. apply spendable_out_hash in E.
      exfalso. eapply (Hord op tx); [done|by left|done]. }
    exists (entry_coin <$> es), (add_tx_coins h tx W1). split_and!.
    + apply step_spend; [done|done|done|lia|lia].
    + eapply connecting_outs; [|done|exact He2]. split.
      * intros op t Hin Eh Hi. destruct (Hpend op t Hin Eh Hi) as (HWn & e & He & Hc).
        assert (op ∉ prevouts tx) as Hnp by (intros Hp'; by eapply Hord).
        rewrite (take_coins_lookup _ _ _ _ _ HW1), decide_False, Ho1 by done. eauto.
      * intros op Hnp. unfold stands_for. rewrite (take_coins_lookup _ _ _ _ _ HW1).
        destruct (decide (op ∈ prevouts tx)) as [Hin|Hin]; [|rewrite Ho1 by done; by apply Hrest].
        apply list_elem_of_lookup in Hin as [i Hi]. destruct (Forall2_lookup_l _ _ _ _ _ Hs1 Hi) as (e & _ & ->).
        cbn [coin_of]. by rewrite Spend_spent.
    + apply Forall2_fmap_r. apply Forall2_same_length_lookup. split; [by eapply Forall2_length in Hs1|].
      intros i op e Hi Hei. exists (Spend e). split; [|apply Spend_coin].
      rewrite He2, Hout by (by eapply list_elem_of_lookup_2). by eapply Forall2_lookup_lr in Hs1.
    + destruct stxos as [l|]; cbn; [|done]. f_equal. f_equal. rewrite <-list_fmap_compose. done.
    + intros op Hnin Hne. rewrite He2. destruct (spendable_out tx op) eqn:E; [by apply spendable_out_hash in E|].
      by apply Ho1.
Qed.

(** ** The transactions of a block *)

(** No transaction spends an output of its own or of a later one. *)
Fixpoint in_order (txs : list MsgTx) : Prop :=
  match txs with [] => True | tx :: txs => spends_none_of tx (tx :: txs) ∧ in_order txs end.

Lemma tx_step_absent maturity h tx W cs fee W' op :
  tx_step maturity h tx W cs fee W' → W !! op = None → op_Hash op ≠ TxHash tx →
  W' !! op = None ∧ op ∉ (if IsCoinBase tx then [] else prevouts tx).
Proof.
  intros Hs Hn Hne. assert (spendable_out tx op = None) as Ho.
  { destruct (spendable_out tx op) eqn:E; [by apply spendable_out_hash in E|done]. }
  destruct Hs as [Hc|cs W' fee Hc Ht]; rewrite Hc, add_tx_coins_lookup, Ho.
  - split; [done|]. apply not_elem_of_nil.
  - rewrite (take_coins_lookup _ _ _ _ _ Ht). split; [by case_decide|]. intros Hin.
    apply take_coins_coins in Ht as [_ Hf]. apply list_elem_of_lookup in Hin as [i Hi].
    destruct (Forall2_lookup_l _ _ _ _ _ Hf Hi) as (c & _ & Hc'). congruence.
Qed.

(** What a transaction spends is not in the ledger afterwards. *)
Lemma tx_step_spent maturity h tx W cs fee W' op :
  tx_step maturity h tx W cs fee W' → spends_none_of tx [tx] → IsCoinBase tx = false →
  op ∈ prevouts tx → W' !! op = None.
Proof.
  intros Hs Hord Hcb Hin. destruct Hs as [Hc|cs W' fee Hc Ht]; [congruence|].
  rewrite add_tx_coins_lookup. destruct (spendable_out tx op) eqn:E.
  - apply spendable_out_hash in E. exfalso. eapply (Hord Hcb op tx); [done|by left|done].
  - by rewrite (take_coins_lookup _ _ _ _ _ Ht), decide_True.
Qed.

Lemma spent_entries_mono view view' tx cs :
  (IsCoinBase tx = false → ∀ op, op ∈ prevouts tx → entries view' !! op = entries view !! op) →
  spent_entries view tx cs → spent_entries view' tx cs.
Proof.
  unfold spent_entries. destruct (IsCoinBase tx); [done|]. intros He Hf.
  apply Forall2_same_length_lookup. split; [by eapply Forall2_length|]. intros i op c Hi Hc.
  rewrite He by (done || by eapply list_elem_of_lookup_2). by eapply Forall2_lookup_lr in Hf.
Qed.

Lemma connect_txs_ok txs h p view U W stxos fees view' stxos' fees' :
  maturity_ok p → 0 <= h < 2 ^ 31 → heights_ok W → Forall wf_MsgTx txs → Forall sane_tx txs →
  NoDup (TxHash <$> txs) → in_order txs → connecting txs view U W → 0 <= fees < 2 ^ 63 →
  connect_txs txs h p view stxos fees = Ok (view', stxos', fees') →
  0 <= fees' < 2 ^ 63 ∧ bestHash view' = bestHash view ∧
  ∃ css F W', txs_step (CoinbaseMaturity p) h txs W css F W' ∧ fees' = fees + F ∧
    connecting [] view' U W' ∧ heights_ok W' ∧ Forall2 (spent_entries view') txs css ∧
    stxos' = (λ l, l ++ (coin_stxo <$> concat css)) <$> stxos ∧
    ∀ op, W !! op = None → op_Hash op ∉ TxHash <$> txs → entries view' !! op = entries view !! op.
Proof.
  intros Hp Hh. revert view W stxos fees.
  induction txs as [|tx txs IH]; intros view W stxos fees Hok Hwf Hsane Hnd Hord Hcn Hf; cbn [connect_txs].
  { intros [= <- <- <-]. split_and!; [lia|lia|done|]. exists [], 0, W. split_and!; [by constructor|lia|done|done|by constructor| |done].
    destruct stxos as [l|]; cbn; [by rewrite app_nil_r|done]. }
  apply Forall_cons in Hwf as [Hwf1 Hwf]. apply Forall_cons in Hsane as [Hs1 Hsane].
  cbn [fmap list_fmap] in Hnd. apply NoDup_cons in Hnd as [Hni Hnd]. destruct Hord as [Ho1 Hord].
  intros (fee & Hck & Hc)%bind_ok. destruct (Z.ltb_spec (i64 (fees + fee)) fees) as [|Hlt]; [done|].
  apply bind_ok in Hc as ([view1 stxos1] & Hvc & Hc).
  destruct (connect_tx_ok _ _ _ _ _ _ _ _ _ _ _ Hp Hh Hok Hwf1 Hs1 Hni Ho1 Hcn Hck Hvc)
    as (Hfee & Hb & cs & W1 & Hstep & Hcn1 & Hsp & -> & Hfr).
  assert (HM : MaxGrain < 2 ^ 62) by done.
  assert (i64 (fees + fee) = fees + fee ∧ fees + fee < 2 ^ 63) as [Hi H63].
  { destruct (Z.lt_ge_cases (fees + fee) (2 ^ 63)); [split; [apply i64_small; unfold is_i64; lia|done]|].
    exfalso. unfold i64 in Hlt. rewrite (Z.mod_eq _ (2 ^ 64)) in Hlt by done.
    assert ((fees + fee + 2 ^ 63) / 2 ^ 64 = 1) as E by (symmetry; apply (Z.div_unique_pos _ _ _ (fees + fee + 2 ^ 63 - 2 ^ 64)); lia).
    rewrite E in Hlt. lia. }
  rewrite Hi in Hc. pose proof (tx_step_heights _ _ _ _ _ _ _ Hstep Hh Hok) as Hok1.
  assert (0 <= fees + fee < 2 ^ 63) as Hr by lia.
  destruct (IH view1 W1 _ _ Hok1 Hwf Hsane Hnd Hord Hcn1 Hr Hc)
    as (Hf' & Hb' & css & F & W2 & Hss & -> & Hcn2 & Hok2 & Hsp2 & -> & Hfr2).
  split_and!; [lia|lia|congruence|]. exists (cs :: css), (fee + F), W2. split_and!; [|lia|done|done| | |].
  - by eapply steps_cons.
  - constructor; [|done]. eapply spent_entries_mono; [|exact Hsp]. intros Hcb op Hin. apply Hfr2.
    + eapply tx_step_spent; [exact Hstep| |done|done]. intros _ op' t Hop Ht.
      apply Ho1; [done|done|]. apply list_elem_of_singleton in Ht as ->. by left.
    + intros (t & Eq & Ht)%list_elem_of_fmap. by apply (Ho1 Hcb op t); [|right|].
  - destruct stxos as [l|]; cbn; [|done]. f_equal. by rewrite fmap_app, <-(assoc_L (++)).
  - intros op Hn Hop. cbn [fmap list_fmap] in Hop. apply not_elem_of_cons in Hop as [Hop1 Hop].
    destruct (tx_step_absent _ _ _ _ _ _ _ _ Hstep Hn Hop1) as [Hn1 Hnp].
    rewrite Hfr2 by done. by apply Hfr.
Qed.

(** ** Loading what a block needs *)

Context {S : Type} `{!UtxoSource S}.
Implicit Types U W : UtxoSet.

Lemma store_entries_ok view ops es U :
  Forall2 (λ op e, coin_of e = U !! op) ops es →
  ∃ view', store_entries view ops es = Ok view' ∧ bestHash view' = bestHash view ∧
    (∀ op, op ∈ ops → ∃ e, entries view' !! op = Some e ∧ coin_of e = U !! op) ∧
    (∀ op, op ∉ ops → entries view' !! op = entries view !! op).
Proof.
  intros Hf. revert view. induction Hf as [|op e ops es He Hf IH]; intros view; cbn [store_entries].
  { exists view. split_and!; [done|done| |done]. by intros op ?%elem_of_nil. }
  destruct (IH (set_entries view (<[op := Clone e]> (entries view)))) as (view' & E & Hb & Hin & Hout).
  exists view'. split_and!; [done|done| |].
  - intros o [->|Ho]%elem_of_cons; [|by apply Hin].
    destruct (decide (op ∈ ops)) as [?|Hn]; [by apply Hin|]. rewrite Hout by done. cbn.
    rewrite lookup_insert_eq. eexists; split; [done|]. by rewrite coin_of_Clone.
  - intros o Ho. apply not_elem_of_cons in Ho as [Hne Ho]. rewrite Hout by done. cbn. by apply lookup_insert_ne.
Qed.

Lemma fetch_ok view ops s U :
  utxo_repr s U → Forall wf_OutPoint ops →
  ∃ view' s', fetchUtxosFromCache view ops s = Ok (view', s') ∧ utxo_repr s' U ∧ bestHash view' = bestHash view ∧
    (∀ op, op ∈ ops → ∃ e, entries view' !! op = Some e ∧ coin_of e = U !! op) ∧
    (∀ op, op ∉ ops → entries view' !! op = entries view !! op).
Proof.
  intros Hs Hwf. unfold fetchUtxosFromCache. destruct (Z.eqb_spec (zlen ops) 0) as [E|E].
  { apply zlen_0 in E as ->. exists view, s. split_and!; try done. by intros op ?%elem_of_nil. }
  destruct (fetchEntries_ok s U ops Hs Hwf) as (es & s' & Ef & Hs' & Hes).
  destruct (store_entries_ok view ops es U Hes) as (view' & Est & Hb & Hin & Hout).
  exists view', s'. split_and!; try done. cbv [mbind st_bind]. rewrite Ef. unfold st_lift. by rewrite Est.
Qed.

Lemma out_indices_elem hash outs idx op :
  0 <= idx → idx + zlen outs <= 2 ^ 32 →
  op ∈ out_indices hash outs idx ↔ op_Hash op = hash ∧ idx <= op_Index op < idx + zlen outs.
Proof.
  revert idx. induction outs as [|o outs IH]; intros idx Hi Hl; cbn [out_indices].
  { rewrite elem_of_nil, zlen_nil. split; [done|lia]. }
  rewrite zlen_cons in Hl |- *. pose proof (zlen_nonneg outs).
  rewrite elem_of_cons, IH, u32_small by lia. destruct op as [oh oi]. cbn. split.
  - intros [[= -> ->]|[-> ?]]; split; (done || lia).
  - intros [-> ?]. destruct (decide (oi = idx)) as [->|]; [by left|]. right. split; [done|lia].
Qed.

Lemma bip30_fetch_elem txs op :
  Forall wf_MsgTx txs → op ∈ bip30_fetch txs ↔ pending txs op.
Proof.
  intros Hwf. unfold bip30_fetch, pending. rewrite list_elem_of_In, in_concat. split.
  - intros (l & Hl & Ho). apply in_map_iff in Hl as (tx & <- & Hin). apply list_elem_of_In in Hin, Ho.
    exists tx. split; [done|]. rewrite Forall_forall in Hwf. apply out_indices_elem in Ho; [done|lia|].
    pose proof (wf_outs_count tx (Hwf tx Hin)). lia.
  - intros (tx & Hin & Eh & Hi). eexists. split; [apply in_map_iff; exists tx; split; [done|by apply list_elem_of_In]|].
    apply list_elem_of_In. rewrite Forall_forall in Hwf. apply out_indices_elem; [lia| |done].
    pose proof (wf_outs_count tx (Hwf tx Hin)). lia.
Qed.

Lemma pending_wf txs op : Forall wf_MsgTx txs → pending txs op → wf_OutPoint op.
Proof.
  intros Hwf (tx & Hin & Eh & Hi). split; [rewrite Eh; apply TxHash_size|].
  rewrite Forall_forall in Hwf. pose proof (wf_outs_count tx (Hwf tx Hin)). unfold is_u32. lia.
Qed.

(** After the check for overwritten outputs the outputs of the block have
    entries, none of them unspent. *)
Lemma checkBIP0030_ok block view s U W view1 s1 :
  utxo_repr s U → view_repr view U W → Forall wf_MsgTx (b_Transactions block) →
  checkBIP0030 block view s = Ok (view1, s1) →
  utxo_repr s1 U ∧ bestHash view1 = bestHash view ∧ connecting (b_Transactions block) view1 U W.
Proof.
  intros Hs Hv Hwf. unfold checkBIP0030, fetchUtxos. set (fetch := bip30_fetch (b_Transactions block)).
  set (needed := filter _ fetch).
  assert (∃ view2 s2, (if zlen fetch =? 0 then mret view else fetchUtxosFromCache view needed) s = Ok (view2, s2) ∧
    utxo_repr s2 U ∧ bestHash view2 = bestHash view ∧
    (∀ op, op ∈ needed → ∃ e, entries view2 !! op = Some e ∧ coin_of e = U !! op) ∧
    (∀ op, op ∉ needed → entries view2 !! op = entries view !! op)) as (view2 & s2 & Ef & Hs2 & Hb & Hin & Hout).
  { destruct (Z.eqb_spec (zlen fetch) 0) as [E|E].
    - apply zlen_0 in E. exists view, s. split_and!; try done. intros op Ho. exfalso.
      apply list_elem_of_filter in Ho as [_ Ho]. rewrite E in Ho. by apply elem_of_nil in Ho.
    - apply fetch_ok; [done|]. apply Forall_forall. intros op [_ Ho]%list_elem_of_filter.
      eapply pending_wf; [exact Hwf|]. by apply bip30_fetch_elem. }
  cbv [mbind st_bind]. rewrite Ef. destruct (existsb _ fetch) eqn:Ex; [done|]. intros [= <- <-].
  split_and!; [done|done|].
  assert (∀ op, stands_for view2 U W op) as Hst.
  { intros op. specialize (Hv op). unfold stands_for in *. destruct (decide (op ∈ needed)) as [Ho|Ho].
    - destruct (Hin op Ho) as (e & -> & ->). apply list_elem_of_filter in Ho as [En _]. by rewrite En in Hv.
    - by rewrite Hout. }
  split; [|auto]. intros op tx Htx Eh Hi. assert (op ∈ fetch) as Hf by (apply bip30_fetch_elem; [done|by exists tx]).
  assert (∃ e, entries view2 !! op = Some e) as [e He].
  { destruct (decide (op ∈ needed)) as [Ho|Ho]; [destruct (Hin op Ho) as (e & ? & _); eauto|].
    rewrite Hout by done. destruct (entries view !! op) as [e|] eqn:E; [eauto|].
    exfalso. apply Ho. by apply list_elem_of_filter. }
  assert (coin_of e = None) as Hc.
  { destruct e as [u|]; [|done]. cbn [coin_of]. destruct (IsSpent u) eqn:Eu; [done|]. exfalso.
    apply not_true_iff_false in Ex. apply Ex, existsb_exists. exists op. split; [by apply list_elem_of_In|].
    unfold LookupEntry. rewrite He. cbn. by rewrite Eu. }
  split; [|eauto]. specialize (Hst op). unfold stands_for in Hst. rewrite He in Hst. congruence.
Qed.

(** Adding the outputs of a transaction of the block ahead of time. *)
Lemma connecting_early txs tx view view1 U W h :
  NoDup (TxHash <$> txs) → tx ∈ txs → connecting txs view U W →
  (∀ op, entries view1 !! op =
     match spendable_out tx op with
     | Some o => Some (Some (created_entry (IsCoinBase tx) h o)) | None => entries view !! op end) →
  connecting txs view1 U W.
Proof.
  intros Hnd Hin [Hp Hr] He. split.
  - intros op t Ht Eh Hi. destruct (Hp op t Ht Eh Hi) as (HW & e & Hv & Hc). split; [done|]. rewrite He.
    destruct (spendable_out tx op) as [o|] eqn:Es; [|eauto]. eexists; split; [done|]. intros Hn.
    assert (t = tx) as ->; [|congruence]. apply spendable_out_hash in Es.
    apply list_elem_of_lookup in Hin as [i Hi'], Ht as [j Hj].
    assert (i = j) as ->; [|congruence]. eapply NoDup_lookup; [exact Hnd|..].
    + rewrite list_lookup_fmap, Hi'. cbn. by rewrite <-Es.
    + rewrite list_lookup_fmap, Hj. cbn. by rewrite <-Eh.
  - intros op Hnp. unfold stands_for. rewrite He. destruct (spendable_out tx op) as [o|] eqn:Es; [|by apply Hr].
    apply spendable_out_Some in Es as [Eh Hi]. exfalso. apply Hnp. by exists tx.
Qed.

Definition loadable (txs : list MsgTx) (U W : UtxoSet) (op : OutPoint) : Prop :=
  ¬ pending txs op ∧ U !! op = W !! op ∧ wf_OutPoint op.

Lemma find_ins_ok view txs h flight i ins needed U W view1 needed1 :
  NoDup (TxHash <$> txs) → Forall wf_MsgTx txs → Forall wf_TxIn ins →
  connecting txs view U W → Forall (loadable txs U W) needed →
  find_ins view txs h flight i ins needed = Ok (view1, needed1) →
  connecting txs view1 U W ∧ Forall (loadable txs U W) needed1 ∧ bestHash view1 = bestHash view.
Proof.
  intros Hnd Hwf Hins. revert view needed. induction Hins as [|ti ins Hti Hins IH]; intros view needed Hcn Hl;
    cbn [find_ins]; [by intros [= <- <-]|].
  set (fetch := match entries view !! PreviousOutPoint ti with Some _ => _ | None => _ end).
  assert (fetch = Ok (view1, needed1) →
    connecting txs view1 U W ∧ Forall (loadable txs U W) needed1 ∧ bestHash view1 = bestHash view) as Hfetch.
  { unfold fetch. destruct (entries view !! PreviousOutPoint ti) eqn:Ee; apply IH; try done.
    apply Forall_app. split; [done|]. apply Forall_singleton. destruct Hcn as [Hp Hr].
    assert (¬ pending txs (PreviousOutPoint ti)) as Hnp.
    { intros (tx & Hin & Eh & Hi). destruct (Hp _ tx Hin Eh Hi) as (_ & e & He & _). congruence. }
    split_and!; [done| |apply Hti]. specialize (Hr _ Hnp). unfold stands_for in Hr. by rewrite Ee in Hr. }
  destruct (flight !! op_Hash (PreviousOutPoint ti)) as [k|]; [|done]. destruct (k <=? i); [|done].
  intros (tx & Hk & Hc)%bind_ok. apply go_index_ok in Hk as [_ Hk]. apply list_elem_of_lookup_2 in Hk.
  assert (wf_MsgTx tx) as Hwt by (rewrite Forall_forall in Hwf; by apply Hwf).
  destruct (AddTxOuts_eq view tx h Hwt) as (view2 & E2 & Hb2 & He2). rewrite E2 in Hc. cbn [mbind result_bind] in Hc.
  apply IH in Hc as (? & ? & ?); [split_and!; [done|done|congruence]| |done]. by eapply connecting_early.
Qed.

Lemma find_txs_ok view txs h flight i rest needed U W view1 needed1 :
  NoDup (TxHash <$> txs) → Forall wf_MsgTx txs → Forall wf_MsgTx rest →
  connecting txs view U W → Forall (loadable txs U W) needed →
  find_txs view txs h flight i rest needed = Ok (view1, needed1) →
  connecting txs view1 U W ∧ Forall (loadable txs U W) needed1 ∧ bestHash view1 = bestHash view.
Proof.
  intros Hnd Hwf Hwr. revert i view needed.
  induction Hwr as [|tx rest Hwt Hwr IH]; intros i view nd Hcn Hl; cbn [find_txs]; [by intros [= <- <-]|].
  intros ([view2 nd2] & Hi & Hc)%bind_ok. assert (Forall wf_TxIn (tx_TxIn tx)) as Hins by apply Hwt.
  destruct (find_ins_ok _ _ _ _ _ _ _ _ _ _ _ Hnd Hwf Hins Hcn Hl Hi) as (Hcn2 & Hl2 & Hb2).
  destruct (IH _ _ _ Hcn2 Hl2 Hc) as (? & ? & ?). split_and!; [done|done|congruence].
Qed.

Lemma findInputsToFetch_ok view block U W view1 needed :
  NoDup (TxHash <$> b_Transactions block) → Forall wf_MsgTx (b_Transactions block) →
  connecting (b_Transactions block) view U W →
  findInputsToFetch view block = Ok (view1, needed) →
  connecting (b_Transactions block) view1 U W ∧ Forall (loadable (b_Transactions block) U W) needed ∧
  bestHash view1 = bestHash view.
Proof.
  intros Hnd Hwf Hcn. unfold findInputsToFetch. intros (rest & (_ & _ & ->)%go_slice_ok & Hc)%bind_ok.
  eapply find_txs_ok; [exact Hnd|exact Hwf| |exact Hcn| |exact Hc]; [|by constructor].
  apply Forall_take, Forall_drop, Hwf.
Qed.

Lemma fetchInputUtxos_ok view block s U W view1 s1 :
  NoDup (TxHash <$> b_Transactions block) → Forall wf_MsgTx (b_Transactions block) →
  utxo_repr s U → connecting (b_Transactions block) view U W →
  fetchInputUtxos view block s = Ok (view1, s1) →
  utxo_repr s1 U ∧ bestHash view1 = bestHash view ∧ connecting (b_Transactions block) view1 U W.
Proof.
  intros Hnd Hwf Hs Hcn. unfold fetchInputUtxos. cbv [mbind st_bind st_lift].
  destruct (findInputsToFetch view block) as [[view2 needed]| |] eqn:Ef; [|done..]. cbn.
  destruct (findInputsToFetch_ok _ _ _ _ _ _ Hnd Hwf Hcn Ef) as ([Hp Hr] & Hl & Hb).
  assert (Forall wf_OutPoint needed) as Hwn by (eapply Forall_impl; [exact Hl|]; intros op (_ & _ & ?); done).
  destruct (fetch_ok view2 needed s U Hs Hwn) as (view3 & s3 & E3 & Hs3 & Hb3 & Hin & Hout).
  rewrite E3. intros [= <- <-]. split_and!; [done|congruence|]. rewrite Forall_forall in Hl. split.
  - intros op tx Htx Eh Hi. rewrite Hout; [by apply Hp|]. intros Ho. apply Hl in Ho as [Hnp _].
    apply Hnp. by exists tx.
  - intros op Hnp. unfold stands_for. destruct (decide (op ∈ needed)) as [Ho|Ho].
    + destruct (Hin op Ho) as (e & -> & ->). by apply Hl in Ho as (_ & ? & _).
    + rewrite Hout by done. by apply Hr.
Qed.

(** ** Scripts *)

(** The input's script accepts it, run on the coin with the transaction's
    midstate, which was in the cache or computed from the view. *)
Definition script_verified (hc : HashCache) (view : UtxoViewpoint) (tx : MsgTx) (i : nat) (c : Coin) : Prop :=
  ∃ sh sc vm vm',
    (SigCache.get (sigHashes hc) (TxHash tx) = Some sh ∨ NewTxSigHashes (view_FetchPrevOutput view) tx = Ok sh) ∧
    NewEngine (coin_script c) tx (Z.of_nat i) 0 sc sh (coin_amount c) (view_FetchPrevOutput view) = Ok vm ∧
    Execute vm = Ok ((), vm').

Lemma Validate_items view flags items sc sc' :
  Validate view flags items sc = Ok ((), sc') →
  ∀ it, it ∈ items → ∃ sc1 e vm vm',
    LookupEntry view (PreviousOutPoint (vi_txIn it)) = Some e ∧
    NewEngine (pkScript e) (vi_tx it) (vi_txInIndex it) flags sc1 (vi_sigHashes it) (amount e) (view_FetchPrevOutput view) = Ok vm ∧
    Execute vm = Ok ((), vm').
Proof.
  revert sc. induction items as [|it items IH]; intros sc; cbn [Validate]; [by intros _ it ?%elem_of_nil|].
  cbv [mbind st_bind]. destruct (validate_item view flags it sc) as [[[] sc1]| |] eqn:Ev; [|done..].
  intros Hv jt [->|Hin]%elem_of_cons; [|by eapply IH].
  unfold validate_item in Ev. destruct (LookupEntry view _) as [e|] eqn:El; [|done].
  destruct (NewEngine _ _ _ _ _ _ _ _) as [vm| |] eqn:En; [|done..].
  destruct (Execute vm) as [[[] vm']| |] eqn:Ex; [|done..]. exists sc, e, vm, vm'. done.
Qed.

Lemma collect_items_ok view txs hc items hc' :
  NoDup (TxHash <$> txs) → collect_items view txs hc = Ok (items, hc') →
  ∀ tx i ti, tx ∈ txs → IsCoinBase tx = false → tx_TxIn tx !! i = Some ti →
  ∃ sh, mkItem (Z.of_nat i) ti tx sh ∈ items ∧
    (SigCache.get (sigHashes hc) (TxHash tx) = Some sh ∨ NewTxSigHashes (view_FetchPrevOutput view) tx = Ok sh).
Proof.
  intros Hnd. revert hc items hc'. induction txs as [|tx txs IH]; intros hc items hc'; cbn [collect_items].
  { by intros _ tx i ti ?%elem_of_nil. }
  cbn [fmap list_fmap] in Hnd. apply NoDup_cons in Hnd as [Hni Hnd].
  destruct (IsCoinBase tx) eqn:Ecb.
  { intros Hc t i ti [->|Hin]%elem_of_cons Hcb Hi; [congruence|]. by eapply IH. }
  cbv [mbind st_bind].
  destruct (lift_script (LoadOrComputeSigHashes _ tx hc)) as [[sh hc1]| |] eqn:El; [|done..].
  destruct (collect_items view txs hc1) as [[items1 hc2]| |] eqn:Ec; [|done..]. cbv [mret st_ret]. intros [= <- <-].
  assert ((SigCache.get (sigHashes hc) (TxHash tx) = Some sh ∨ NewTxSigHashes (view_FetchPrevOutput view) tx = Ok sh) ∧
    ∀ k x, k ≠ TxHash tx → SigCache.get (sigHashes hc1) k = Some x → SigCache.get (sigHashes hc) k = Some x) as [Hsh Hget].
  { unfold LoadOrComputeSigHashes in El. cbv [mbind st_bind st_get] in El.
    destruct (SigCache.get (sigHashes hc) (TxHash tx)) as [s|] eqn:Eg.
    - cbn in El. simplify_eq. split; [by left|done].
    - unfold st_lift in El. destruct (NewTxSigHashes (view_FetchPrevOutput view) tx) as [s| |] eqn:En; [|done..].
      cbn in El. simplify_eq. split; [by right|]. cbn. intros k x Hk Hg. by eapply get_put_other. }
  intros t i ti [->|Hin]%elem_of_cons Hcb Hi.
  - exists sh. split; [|done]. apply elem_of_app. left. unfold tx_items. apply list_elem_of_lookup. exists i.
    by rewrite list_lookup_imap, Hi.
  - destruct (IH Hnd _ _ _ Ec t i ti Hin Hcb Hi) as (sh' & Hm & Ho). exists sh'. split; [apply elem_of_app; by right|].
    destruct Ho as [Ho|Ho]; [left|by right]. apply Hget; [|done]. intros Eq. apply Hni. rewrite <-Eq.
    by apply list_elem_of_fmap_2.
Qed.

(** What running the scripts of a block shows of the coins its transactions
    spent. *)
Definition scripts_verified (hc : HashCache) (view : UtxoViewpoint) (tx : MsgTx) (cs : list Coin) : Prop :=
  IsCoinBase tx = false → ∀ i ti c, tx_TxIn tx !! i = Some ti → cs !! i = Some c →
  view_FetchPrevOutput view (PreviousOutPoint ti) = Some (mkTxOut (coin_amount c) (coin_script c)) ∧
  script_verified hc view tx i c.

Lemma checkBlockScripts_ok block view sc hc r css :
  NoDup (TxHash <$> b_Transactions block) →
  Forall2 (spent_entries view) (b_Transactions block) css →
  checkBlockScripts block view 0 sc hc = Ok r →
  Forall2 (scripts_verified hc view) (b_Transactions block) css.
Proof.
  intros Hnd Hsp. unfold checkBlockScripts. intros ([items hc1] & Hci & Hc)%bind_ok.
  apply bind_ok in Hc as ([[] sc1] & Hv & _).
  pose proof (collect_items_ok _ _ _ _ _ Hnd Hci) as Hit. pose proof (Validate_items _ _ _ _ _ Hv) as Hval.
  apply Forall2_same_length_lookup. split; [by eapply Forall2_length|].
  intros k tx cs Htx Hcs Hcb i ti c Hi Hc. pose proof (Forall2_lookup_lr _ _ _ _ _ _ Hsp Htx Hcs) as Hse.
  unfold spent_entries in Hse. rewrite Hcb in Hse.
  assert (prevouts tx !! i = Some (PreviousOutPoint ti)) as Hop by (unfold prevouts; by rewrite list_lookup_fmap, Hi).
  destruct (Forall2_lookup_lr _ _ _ _ _ _ Hse Hop Hc) as (e & He & <-).
  assert (LookupEntry view (PreviousOutPoint ti) = Some e) as El by (unfold LookupEntry; by rewrite He).
  split; [unfold view_FetchPrevOutput; by rewrite El|].
  destruct (Hit tx i ti) as (sh & Hin & Hsh); [by eapply list_elem_of_lookup_2|done|done|].
  destruct (Hval _ Hin) as (sc2 & e' & vm & vm' & El' & En & Ex). cbn in El', En.
  assert (e' = e) as -> by congruence. by exists sh, sc2, vm, vm'.
Qed.
(** ** Blocks *)

(** What the checks without context leave of a block: a coinbase, then other
    transactions, each sane on its own, none twice. *)
Record sane_block (txs : list MsgTx) : Prop := {
  sb_coinbase : ∃ cb rest, txs = cb :: rest ∧ IsCoinBase cb = true ∧ Forall (λ tx, IsCoinBase tx = false) rest;
  sb_sane : Forall sane_tx txs;
  sb_wf : Forall wf_MsgTx txs;
  sb_nodup : NoDup (TxHash <$> txs)
}.

Lemma connecting_fresh txs view U W : connecting txs view U W → Forall (λ tx, fresh_tx tx W) txs.
Proof.
  intros [Hp _]. apply Forall_forall. intros tx Hin op Eh Hi. by destruct (Hp op tx Hin Eh Hi) as [? _].
Qed.

Lemma connecting_nil view U W : connecting [] view U W → view_repr view U W.
Proof. intros [_ Hr] op. apply Hr. intros (tx & ?%elem_of_nil & _). done. Qed.

Lemma coinbase_value rest :
  Forall (λ tx, IsCoinBase tx = false) rest →
  foldr (λ tx t, (if IsCoinBase tx then total_value (tx_TxOut tx) else 0) + t) 0 rest = 0.
Proof. induction 1 as [|tx rest Hc _ IH]; cbn; [done|]. by rewrite Hc, IH. Qed.

Lemma sane_outs_sum tx : sane_tx tx → sum_outs (tx_TxOut tx) = total_value (tx_TxOut tx) ∧ 0 <= total_value (tx_TxOut tx).
Proof.
  intros Hs. assert (Forall (λ o, 0 <= Value o) (tx_TxOut tx)) as Hv
    by (eapply Forall_impl; [apply (sane_scripts _ Hs)|naive_solver]).
  split; [apply sum_outs_eq; [done|apply sane_total, Hs]|by apply total_value_nonneg].
Qed.

(** The block takes a step of the ledger; what it creates is the emission at
    most. *)
Lemma check_and_connect_ok p node block view stxos view' stxos' U W c :
  maturity_ok p → schedule (Some p) c → 1 <= height node < 2 ^ 31 → heights_ok W →
  sane_block (b_Transactions block) → in_order (b_Transactions block) →
  connecting (b_Transactions block) view U W →
  check_and_connect p node block view stxos = Ok (view', stxos') →
  bestHash view' = bestHash view ∧
  ∃ css fees W', txs_step (CoinbaseMaturity p) (height node) (b_Transactions block) W css fees W' ∧
    total W' <= total W + emission c (height node) ∧ view_repr view' U W' ∧ heights_ok W' ∧
    Forall2 (spent_entries view') (b_Transactions block) css ∧
    stxos' = (λ l, l ++ (coin_stxo <$> concat css)) <$> stxos.
Proof.
  intros Hp Hc Hh Hok [(cb & rest & Etx & Hcb & Hrest) Hsane Hwf Hnd] Hord Hcn. unfold check_and_connect.
  intros (([view1 stxos1] & fees) & Hct & Hk)%bind_ok.
  assert (0 <= height node < 2 ^ 31) as Hh0 by lia. assert (0 <= 0 < 2 ^ 63) as Hz by done.
  destruct (connect_txs_ok _ _ _ _ _ _ _ _ _ _ _ Hp Hh0 Hok Hwf Hsane Hnd Hord Hcn Hz Hct)
    as (Hf & Hb & css & F & W' & Hss & HF & Hcn' & Hok' & Hsp & Hst & _). rewrite Z.add_0_l in HF. subst fees.
  pose proof (txs_step_total _ _ _ _ _ _ _ Hss Hnd (connecting_fresh _ _ _ _ Hcn) Hsane) as [HF Htot].
  rewrite Etx in Hk, Htot. cbn [foldr] in Htot. rewrite Hcb, coinbase_value in Htot by done.
  change (go_index (cb :: rest) 0) with (@Ok RuleErr _ cb) in Hk. cbn [mbind result_bind] in Hk.
  rewrite (CalcBlockSubsidy_eq _ _ _ Hc Hh) in Hk. cbn [lift_empty mbind result_bind] in Hk.
  assert (sane_tx cb) as Hscb by (rewrite Etx in Hsane; by apply Forall_cons_1 in Hsane as [? _]).
  destruct (sane_outs_sum cb Hscb) as [Ecb Hcb0]. rewrite Ecb in Hk.
  destruct (Z.ltb_spec (i64 (emission c (height node) + F)) (total_value (tx_TxOut cb))) as [|Hle]; [done|].
  assert (total_value (tx_TxOut cb) <= emission c (height node) + F) as Hem.
  { pose proof (emission_nonneg c (height node) ltac:(apply Hc) ltac:(lia)).
    pose proof (emission_le_supply c (height node) ltac:(apply Hc) ltac:(lia)).
    assert (totalSupply < 2 ^ 62) by done. unfold i64 in Hle. rewrite Z.mod_eq in Hle by done.
    destruct (Z.lt_ge_cases (emission c (height node) + F) (2 ^ 63)) as [Hlt|Hge].
    - rewrite Z.div_small in Hle by lia. lia.
    - assert ((emission c (height node) + F + 2 ^ 63) / 2 ^ 64 = 1) as E
        by (symmetry; apply (Z.div_unique_pos _ _ _ (emission c (height node) + F + 2 ^ 63 - 2 ^ 64)); lia).
      rewrite E in Hle. lia. }
  apply bind_ok in Hk as (mt & _ & Hk). apply bind_ok in Hk as ([] & _ & Hk). simplify_eq/=.
  split; [done|]. exists css, F, W'. split_and!; [done|lia|by eapply connecting_nil|done|done|done].
Qed.

Definition runs_scripts (b : @BlockChain S) (node : blockNode) : bool :=
  match LatestCheckpoint b with Some cp => negb (height node <=? cp_Height cp) | None => true end.

(** ** [checkConnectBlock] *)

(** C6 What [checkConnectBlock] accepts is a step of the ledger: the inputs of
    every transaction are there, mature and cover its outputs, what the block
    creates is the emission of its height at most, the view it returns stands
    for the coins after the block and is at the block's hash, the spend journal
    lists the coins spent in order, and past the last checkpoint every input's
    script accepts.  For a sane block whose transactions spend no output of a
    later one; see [checkConnectBlock_out_of_order] for the other blocks. *)
Theorem checkConnectBlock_sound node block view stxos b view' stxos' b' U W c :
  maturity_ok (chainParams b) → schedule (Some (chainParams b)) c → 1 <= height node < 2 ^ 31 →
  sane_block (b_Transactions block) → in_order (b_Transactions block) →
  utxo_repr (utxoCache b) U → view_repr view U W → heights_ok W →
  checkConnectBlock node block view stxos b = Ok ((view', stxos'), b') →
  bestHash view = b_PrevBlock block ∧ bestHash view' = hash node ∧ utxo_repr (utxoCache b') U ∧
  ∃ css fees W',
    txs_step (CoinbaseMaturity (chainParams b)) (height node) (b_Transactions block) W css fees W' ∧
    total W' <= total W + emission c (height node) ∧ view_repr view' U W' ∧ heights_ok W' ∧
    stxos' = (λ l, l ++ (coin_stxo <$> concat css)) <$> stxos ∧
    (runs_scripts b node = true →
       Forall2 (scripts_verified (bc_hashCache b) view') (b_Transactions block) css).
Proof.
  intros Hp Hc Hh Hsb Hord Hs Hv Hok. unfold checkConnectBlock, runs_scripts.
  case_bool_decide; [done|]. case_bool_decide as Hbest; [|done]. cbn [negb].
  intros ([view1 s1] & Hk1 & Hk)%bind_ok. apply bind_ok in Hk as ([view2 s2] & Hk2 & Hk).
  apply bind_ok in Hk as ([view3 stxos3] & Hk3 & Hk).
  destruct (checkBIP0030_ok _ _ _ _ _ _ _ Hs Hv (sb_wf _ Hsb) Hk1) as (Hs1 & Hb1 & Hcn1).
  destruct (fetchInputUtxos_ok _ _ _ _ _ _ _ (sb_nodup _ Hsb) (sb_wf _ Hsb) Hs1 Hcn1 Hk2) as (Hs2 & Hb2 & Hcn2).
  destruct (check_and_connect_ok _ _ _ _ _ _ _ _ _ _ Hp Hc Hh Hok Hsb Hord Hcn2 Hk3)
    as (Hb3 & css & fees & W' & Hss & Htot & Hv' & Hok' & Hsp & ->).
  change (LatestCheckpoint (set_utxoCache b s2)) with (LatestCheckpoint b) in Hk.
  change (bc_hashCache (set_utxoCache b s2)) with (bc_hashCache b) in Hk.
  destruct (match LatestCheckpoint b with Some cp => _ | None => _ end).
  - apply bind_ok in Hk as ([sc hc] & Hk4 & Hk). simplify_eq/=. split_and!; [done..|].
    exists css, fees, W'. split_and!; [done..|]. intros _.
    apply (checkBlockScripts_ok _ _ _ _ _ _ (sb_nodup _ Hsb) Hsp Hk4).
  - simplify_eq/=. split_and!; [done..|]. exists css, fees, W'. by split_and!.
Qed.
End spec.

(** ** Examples *)

(** A set of coins as a source of entries. *)
Definition coin_entry (c : Coin) : UtxoEntry :=
  mkUtxoEntry (coin_amount c) (coin_script c) (coin_height c) (if coin_coinbase c then tfCoinBase else 0).

Lemma coin_entry_coin c : coin_of (coin_entry <$> c) = c.
Proof. by destruct c as [[a s h []]|]. Qed.

#[export] Program Instance coins_source : UtxoSource UtxoSet := {|
  fetchEntries ops U := Ok ((λ op, coin_entry <$> U !! op) <$> ops, U);
  utxo_repr U U' := U = U'
|}.
Next Obligation.
  intros ? U ops -> _. eexists _, _. split; [done|]. split; [done|]. apply Forall2_fmap_r, Forall_Forall2_diag.
  apply Forall_forall. intros op _. apply coin_entry_coin.
Qed.

Definition demo_chain_at {S} (s : S) : BlockChain :=
  mkBlockChain MainNetParams zeroHash [] s None (NewHashCache 10).

(** A coin that pays to the example script, and a block of height 300 that
    spends it. *)
Definition demo_out (v : Z) : TxOut := mkTxOut v demo_spk.
Definition demo_coin : Coin := mkCoin 5000 demo_spk 7 false.
Definition demo_coins : UtxoSet := {[ mkOutPoint (repeat x11 32) 0 := demo_coin ]}.

Definition demo_block (txs : list MsgTx) : Block := mkBlock (replicate 32 x05) zeroHash 300 txs.
Definition demo_node : blockNode :=
  BlockNode (Some (demo_chain 0)) None (replicate 32 x05) 0 300 0 0 0 zeroHash zeroHash 0 0.

Definition demo_txs : list MsgTx := [demo_coinbase; demo_spend].

Definition connect_demo (txs : list MsgTx) : result RuleErr ((UtxoViewpoint * option (list SpentTxOut)) * BlockChain) :=
  checkConnectBlock demo_node (demo_block txs) NewUtxoViewpoint (Some []) (demo_chain_at demo_coins).

Ltac sane_tac :=
  split; [done|done|by vm_compute|by repeat constructor|by vm_compute|apply (bool_decide_unpack _); by vm_compute|].

Lemma demo_coinbase_sane_tx : sane_tx demo_coinbase.
Proof. sane_tac. cbn. by intros i [= <-]. Qed.

Lemma demo_spend_sane_tx : sane_tx demo_spend.
Proof. sane_tac. by repeat constructor. Qed.

Lemma demo_txs_sane : sane_block demo_txs.
Proof.
  split.
  - exists demo_coinbase, [demo_spend]. by repeat constructor.
  - repeat apply Forall_cons_2; [apply demo_coinbase_sane_tx|apply demo_spend_sane_tx|done].
  - repeat apply Forall_cons_2; [apply demo_coinbase_wf|apply demo_spend_ok|done].
  - apply (bool_decide_unpack _). by vm_compute.
Qed.

Lemma demo_txs_in_order : in_order demo_txs.
Proof.
  split; [done|]. split; [|done]. intros _ op t [->|?%elem_of_nil]%elem_of_cons Ht; [|done].
  apply list_elem_of_singleton in Ht as ->. by vm_compute.
Qed.

Lemma demo_coins_heights : heights_ok demo_coins.
Proof. unfold demo_coins. by intros op c [_ <-]%lookup_singleton_Some. Qed.

Definition connect_demo_result : (UtxoViewpoint * option (list SpentTxOut)) * @BlockChain UtxoSet :=
  match connect_demo demo_txs with Ok r => r | _ => ((NewUtxoViewpoint, None), demo_chain_at ∅) end.

Lemma connect_demo_ok : connect_demo demo_txs = Ok ((connect_demo_result.1.1, connect_demo_result.1.2), connect_demo_result.2).
Proof.
  unfold connect_demo_result. assert (match connect_demo demo_txs with Ok _ => True | _ => False end) as E by (by vm_compute).
  destruct (connect_demo demo_txs) as [[[] ?]| |]; done.
Qed.

Lemma checkConnectBlock_sound_witness :
  bestHash (connect_demo_result.1).1 = replicate 32 x05 ∧ (connect_demo_result.1).2 = Some [mkSpentTxOut 5000 demo_spk 7 false].
Proof.
  split; [|by vm_compute].
  exact (proj1 (proj2 (checkConnectBlock_sound demo_node (demo_block demo_txs) NewUtxoViewpoint (Some [])
    (demo_chain_at demo_coins) _ _ _ demo_coins demo_coins 650226 ltac:(done) main_schedule ltac:(done)
    demo_txs_sane demo_txs_in_order eq_refl (λ op, eq_refl) demo_coins_heights connect_demo_ok))).
Defined.

(** *** A block out of order

    The first transaction after the coinbase spends an output of the second,
    the third its other output. *)
Definition spend_of (op : OutPoint) (outs : list TxOut) : MsgTx :=
  mkMsgTx 2 [mkTxIn op [] [demo_leaf; [xc1]] MaxUint32] outs 0.
Definition ooo_parent : MsgTx := spend_of (mkOutPoint (repeat x11 32) 0) [demo_out 2500; demo_out 2500].
Definition ooo_early : MsgTx := spend_of (mkOutPoint (TxHash ooo_parent) 0) [demo_out 2500].
Definition ooo_late : MsgTx := spend_of (mkOutPoint (TxHash ooo_parent) 1) [demo_out 2500].
Definition ooo_txs : list MsgTx := [demo_coinbase; ooo_early; ooo_parent; ooo_late].

(** The value of the unspent entries of a view. *)
Definition view_total (view : UtxoViewpoint) : Z := total (omap coin_of (entries view)).

Lemma second_spend m h cb tx txs U css fees W :
  txs_step m h (cb :: tx :: txs) U css fees W → IsCoinBase cb = true → IsCoinBase tx = false →
  ∃ r, take_coins (add_tx_coins h cb U) (prevouts tx) = Some r.
Proof.
  intros Hs Hcb Htx. inversion Hs as [|? ? ? ? ? U1 ? ? ? Hs1 Hss]; subst.
  inversion Hss as [|? ? ? ? ? ? ? ? ? Hs2 _]; subst.
  inversion Hs1; [|congruence]. subst. inversion Hs2; [congruence|eauto].
Qed.

Lemma ooo_missing : take_coins (add_tx_coins 300 demo_coinbase demo_coins) (prevouts ooo_early) = None.
Proof. by vm_compute. Qed.

(** Such a block is accepted, though it is no step of the ledger: the entries
    loaded for the third transaction hide that the second comes later, and
    connecting the second makes its spent output unspent again.  Without the
    coinbase the block creates 2500 out of nothing in the view, where the
    example in order creates nothing.  The cache, which has no such
    entries, cannot connect it. *)
Lemma checkConnectBlock_out_of_order :
  (∀ s css fees W, ¬ txs_step s 300 ooo_txs demo_coins css fees W) ∧
  match connect_demo ooo_txs with
  | Ok ((view, _), _) =>
      coin_of (LookupEntry view (mkOutPoint (TxHash ooo_parent) 0)) = Some (new_coin false 300 (demo_out 2500)) ∧
      view_total view = total demo_coins + total_value (tx_TxOut demo_coinbase) + 2500
  | _ => False
  end.
Proof.
  split.
  - intros s css fees W Hs. destruct (second_spend _ _ _ _ _ _ _ _ _ Hs eq_refl eq_refl) as [r Hr].
    by rewrite ooo_missing in Hr.
  - vm_compute. by split.
Qed.
