(* ===== verification/UtxoStore.v ===== *)
(** * Outputs and spend journals in the database (blockchain/chainio.go)

    The encodings of spent and unspent outputs, and the buckets that hold them.
    A bucket is a map of byte strings: the database is taken to read back what
    was written, its failures are not modelled. *)
From stdpp Require Import fin_maps strings.
From Stdlib Require Import Lia ZArith.
From S2P Require Import Prelude Wire MsgTx Crypto ScriptNum RuleError Compress TxRules UtxoView Ledger.

Abbreviation Bucket := (gmap bytes bytes).

(** ** Spent outputs *)

Definition spentTxOutHeaderCode (stxo : SpentTxOut) : Z :=
  let headerCode := u64 (Z.shiftl (u64 (stxo_Height stxo)) 1) in
  if stxo_IsCoinBase stxo then Z.lor headerCode 0x01 else headerCode.

Section store.
Context `{PubKeyFormats}.

Definition spentTxOutSerializeSize (stxo : SpentTxOut) : Z :=
  let size := serializeSizeVLQ (spentTxOutHeaderCode stxo) in
  size + compressedTxOutSize (u64 (stxo_Amount stxo)) (stxo_PkScript stxo).

Definition putSpentTxOut {E} (target : bytes) (stxo : SpentTxOut) : result E (bytes * Z) :=
  let headerCode := spentTxOutHeaderCode stxo in
  '(target, offset) ← putVLQ target headerCode;
  '(target, n) ← on_tail target offset (λ tail, putCompressedTxOut tail (u64 (stxo_Amount stxo)) (stxo_PkScript stxo));
  Ok (target, offset + n).

(** Returns the output and the number of bytes read. *)
Definition decodeSpentTxOut (serialized : bytes) : result RuleErr (SpentTxOut * Z) :=
  if zlen serialized =? 0 then Fail (errDeserialize "no serialized bytes")
  else
    let '(code, offset) := deserializeVLQ serialized in
    if zlen serialized <=? offset then Fail (errDeserialize "unexpected end of data after header code")
    else
      let isCoinBase := negb (Z.land code 0x01 =? 0) in
      let height := i32 (Z.shiftr code 1) in
      tail ← go_slice serialized offset (zlen serialized);
      match decodeCompressedTxOut tail with
      | Panic => Panic
      | Fail _ => Fail (errDeserialize "unable to decode txout")
      | Ok (amount, pkScript, bytesRead) =>
          Ok (mkSpentTxOut (i64 amount) pkScript height isCoinBase, offset + bytesRead)
      end.

(** The loops over the transactions and their inputs, both backwards. *)
Fixpoint journal_loop (rev_ins : list TxIn) (serialized : bytes) (offset stxoIdx : Z)
    (stxos : list SpentTxOut) : result RuleErr (list SpentTxOut) :=
  match rev_ins with
  | [] => Ok stxos
  | txIn :: rev_ins =>
      _ ← go_index stxos stxoIdx;
      tail ← go_slice serialized offset (zlen serialized);
      match decodeSpentTxOut tail with
      | Panic => Panic
      | Fail _ => Fail (errDeserialize "unable to decode stxo")
      | Ok (stxo, n) =>
          stxos ← go_set stxos stxoIdx stxo;
          journal_loop rev_ins serialized (offset + n) (stxoIdx - 1) stxos
      end
  end.

Definition empty_stxo : SpentTxOut := mkSpentTxOut 0 [] 0 false.

Definition deserializeSpendJournalEntry (serialized : bytes) (txns : list MsgTx)
    : result RuleErr (list SpentTxOut) :=
  let numStxos := foldl (λ numStxos tx, numStxos + zlen (tx_TxIn tx)) 0 txns in
  if zlen serialized =? 0 then
    if negb (numStxos =? 0) then Fail (assertError "mismatched spend journal serialization") else Ok []
  else
    journal_loop (concat (map (λ tx, rev (tx_TxIn tx)) (rev txns))) serialized 0 (numStxos - 1)
      (replicate (Z.to_nat numStxos) empty_stxo).

(** The outputs come last first. *)
Fixpoint put_stxos {E} (rev_stxos : list SpentTxOut) (serialized : bytes) (offset : Z) : result E bytes :=
  match rev_stxos with
  | [] => Ok serialized
  | stxo :: rev_stxos =>
      '(serialized, n) ← on_tail serialized offset (λ tail, putSpentTxOut tail stxo);
      put_stxos rev_stxos serialized (offset + n)
  end.

Definition serializeSpendJournalEntry {E} (stxos : list SpentTxOut) : result E bytes :=
  if zlen stxos =? 0 then Ok []
  else
    let size := foldl (λ size stxo, size + spentTxOutSerializeSize stxo) 0 stxos in
    put_stxos (rev stxos) (replicate (Z.to_nat size) x00) 0.

(** [block.MsgBlock().Transactions[1:]] panics on an empty block. *)
Definition dbFetchSpendJournalEntry (spendBucket : Bucket) (block : Block) : result RuleErr (list SpentTxOut) :=
  let serialized := default [] (spendBucket !! b_Hash block) in
  blockTxns ← go_slice (b_Transactions block) 1 (zlen (b_Transactions block));
  match deserializeSpendJournalEntry serialized blockTxns with
  | Fail (errDeserialize _) => Fail (ErrCorruption "corrupt spend information")
  | r => r
  end.

Definition dbPutSpendJournalEntry (spendBucket : Bucket) (blockHash : bytes) (stxos : list SpentTxOut)
    : result RuleErr Bucket :=
  serialized ← serializeSpendJournalEntry stxos;
  Ok (<[blockHash := serialized]> spendBucket).

Definition dbRemoveSpendJournalEntry (spendBucket : Bucket) (blockHash : bytes) : Bucket :=
  delete blockHash spendBucket.

Definition dbPruneSpendJournalEntry (spendBucket : Bucket) (blockHashes : list bytes) : Bucket :=
  foldl (λ b h, delete h b) spendBucket blockHashes.
End store.

(** ** Unspent outputs *)

Definition maxUint32VLQSerializeSize : Z := serializeSizeVLQ (2 ^ 32 - 1).

(** The key is written into a buffer of the pool. *)
Definition outpointKey_in {E} (buffer : bytes) (outpoint : OutPoint) : result E bytes :=
  let idx := op_Index outpoint in
  key ← go_slice buffer 0 (32 + serializeSizeVLQ idx);
  let key := copy_at key 0 (op_Hash outpoint) in
  '(key, _) ← on_tail key 32 (λ tail, putVLQ tail idx);
  Ok key.

(** A new buffer; a recycled one makes the same key. *)
Definition outpointKey {E} (outpoint : OutPoint) : result E bytes :=
  outpointKey_in (replicate (Z.to_nat (32 + maxUint32VLQSerializeSize)) x00) outpoint.

Definition utxoEntryHeaderCode (entry : UtxoEntry) : result RuleErr Z :=
  if IsSpent entry then Fail (assertError "attempt to serialize spent utxo header")
  else
    let headerCode := u64 (Z.shiftl (u64 (blockHeight entry)) 1) in
    Ok (if entry_IsCoinBase entry then Z.lor headerCode 0x01 else headerCode).

Section store_utxo.
Context `{PubKeyFormats}.

(** [nil] for a spent entry. *)
Definition serializeUtxoEntry (entry : UtxoEntry) : result RuleErr (option bytes) :=
  if IsSpent entry then Ok None
  else
    headerCode ← utxoEntryHeaderCode entry;
    let size := serializeSizeVLQ headerCode + compressedTxOutSize (u64 (amount entry)) (pkScript entry) in
    '(serialized, offset) ← putVLQ (replicate (Z.to_nat size) x00) headerCode;
    '(serialized, _) ← on_tail serialized offset (λ tail, putCompressedTxOut tail (u64 (amount entry)) (pkScript entry));
    Ok (Some serialized).

Definition deserializeUtxoEntry (serialized : bytes) : result RuleErr UtxoEntry :=
  let '(code, offset) := deserializeVLQ serialized in
  if zlen serialized <=? offset then Fail (errDeserialize "unexpected end of data after header")
  else
    let isCoinBase := negb (Z.land code 0x01 =? 0) in
    let height := i32 (Z.shiftr code 1) in
    tail ← go_slice serialized offset (zlen serialized);
    match decodeCompressedTxOut tail with
    | Panic => Panic
    | Fail _ => Fail (errDeserialize "unable to decode utxo")
    | Ok (amount, pkScript, _) =>
        Ok (mkUtxoEntry (i64 amount) pkScript height (if isCoinBase then tfCoinBase else 0))
    end.

Definition dbFetchUtxoEntry (utxoBucket : Bucket) (outpoint : OutPoint) : result RuleErr (option UtxoEntry) :=
  key ← outpointKey outpoint;
  match utxoBucket !! key with
  | None => Ok None
  | Some serializedUtxo =>
      if zlen serializedUtxo =? 0 then Fail (assertError "database contains entry for spent tx output")
      else
        match deserializeUtxoEntry serializedUtxo with
        | Panic => Panic
        | Fail (errDeserialize _) => Fail (ErrCorruption "corrupt utxo entry")
        | Fail e => Fail e
        | Ok entry => Ok (Some entry)
        end
  end.

Definition dbDeleteUtxoEntry (utxoBucket : Bucket) (outpoint : OutPoint) : result RuleErr Bucket :=
  key ← outpointKey outpoint;
  Ok (delete key utxoBucket).

(** [Put] stores a [nil] value as an empty one. *)
Definition dbPutUtxoEntry (utxoBucket : Bucket) (outpoint : OutPoint) (entry : option UtxoEntry)
    : result RuleErr Bucket :=
  match entry with
  | None => Fail (assertError "trying to store nil or spent entry")
  | Some entry =>
      if IsSpent entry then Fail (assertError "trying to store nil or spent entry")
      else
        serialized ← serializeUtxoEntry entry;
        key ← outpointKey outpoint;
        Ok (<[key := default [] serialized]> utxoBucket)
  end.

(** The order in which a Go map is ranged over. *)
Class MapOrder (K V : Type) `{Countable K} := {
  map_order : gmap K V → list (K * V);
  map_order_perm m : map_order m ≡ₚ map_to_list m
}.

Fixpoint put_view (utxoBucket : Bucket) (es : list (OutPoint * option UtxoEntry)) : result RuleErr Bucket :=
  match es with
  | [] => Ok utxoBucket
  | (outpoint, entry) :: es =>
      match entry with
      | None => put_view utxoBucket es
      | Some e =>
          if negb (isModified e) then put_view utxoBucket es
          else if IsSpent e then
            utxoBucket ← dbDeleteUtxoEntry utxoBucket outpoint;
            put_view utxoBucket es
          else
            utxoBucket ← dbPutUtxoEntry utxoBucket outpoint entry;
            put_view utxoBucket es
      end
  end.

Definition dbPutUtxoView `{!MapOrder OutPoint (option UtxoEntry)} (utxoBucket : Bucket)
    (view : option UtxoViewpoint) : result RuleErr Bucket :=
  match view with
  | None => Ok utxoBucket
  | Some view => put_view utxoBucket (map_order (entries view))
  end.
End store_utxo.

(** ** Headers *)

(** The code of a height with the coinbase flag. *)
Definition header_code (height : Z) (isCoinBase : bool) : Z := 2 * height + (if isCoinBase then 1 else 0).

Definition height_ok (h : Z) : Prop := 0 <= h < 2 ^ 31.

Lemma header_code_eq h cb :
  height_ok h →
  (let headerCode := u64 (Z.shiftl (u64 h) 1) in if (cb : bool) then Z.lor headerCode 0x01 else headerCode) = header_code h cb.
Proof.
  unfold height_ok, header_code. intros Hh. cbv zeta. rewrite (u64_small h), Z.shiftl_mul_pow2, u64_small by lia.
  destruct cb; [|lia]. rewrite Z.lor_comm, <-Z.shiftl_mul_pow2, lor_shiftl by lia. lia.
Qed.

Lemma header_code_u64 h cb : height_ok h → is_u64 (header_code h cb).
Proof. unfold height_ok, header_code, is_u64. destruct cb; lia. Qed.

Lemma header_code_flag h cb : height_ok h → negb (Z.land (header_code h cb) 0x01 =? 0) = cb.
Proof.
  intros _. change 0x01 with (Z.ones 1). rewrite Z.land_ones by lia. unfold header_code.
  change (2 ^ 1) with 2. rewrite Z.add_comm, Z.mul_comm, Z_mod_plus_full. by destruct cb.
Qed.

Lemma header_code_height h cb : height_ok h → i32 (Z.shiftr (header_code h cb) 1) = h.
Proof.
  unfold height_ok. intros Hh. rewrite Z.shiftr_div_pow2 by lia. unfold header_code. change (2 ^ 1) with 2.
  rewrite Z.add_comm, Z.mul_comm, Z_div_plus_full by lia.
  replace ((if cb then 1 else 0) / 2) with 0 by (by destruct cb). apply i32_small. unfold is_i32. lia.
Qed.

(** ** The encodings as lists *)

Section codes.
Context `{PubKeyFormats}.

Definition output_code (a : Z) (s : bytes) (h : Z) (cb : bool) : bytes :=
  vlq (header_code h cb) ++ txout_code a s.

Definition output_ok (a : Z) (s : bytes) (h : Z) : Prop :=
  amount_fits a ∧ zlen s < 2 ^ 61 ∧ height_ok h.

Lemma amount_fits_u64 a : amount_fits a → u64 a = a ∧ i64 a = a.
Proof.
  unfold amount_fits. intros. split; [apply u64_small; lia|apply i64_small; unfold is_i64; lia].
Qed.

Lemma output_code_size a s h cb :
  output_ok a s h →
  serializeSizeVLQ (header_code h cb) + compressedTxOutSize (u64 a) s = zlen (output_code a s h cb).
Proof.
  intros (Ha & Hs & Hh). rewrite (proj1 (amount_fits_u64 a Ha)). unfold output_code.
  by rewrite zlen_app, serializeSizeVLQ_length, compressedTxOutSize_length by (done || by apply header_code_u64).
Qed.

(** The header, then the output behind it. *)
Lemma put_output {E} a s h cb target :
  output_ok a s h → zlen (output_code a s h cb) <= zlen target →
  ∃ off n, putVLQ (E:=E) target (header_code h cb) = Ok (vlq (header_code h cb) ++ drop (length (vlq (header_code h cb))) target, off) ∧
    on_tail (E:=E) (vlq (header_code h cb) ++ drop (length (vlq (header_code h cb))) target) off
      (λ tail, putCompressedTxOut tail (u64 a) s) =
      Ok (output_code a s h cb ++ drop (length (output_code a s h cb)) target, n) ∧
    off + n = zlen (output_code a s h cb).
Proof.
  intros (Ha & Hs & Hh). unfold output_code. rewrite zlen_app, length_app. intros Ht.
  pose proof (header_code_u64 h cb Hh). pose proof (zlen_nonneg (txout_code a s)).
  exists (zlen (vlq (header_code h cb))), (zlen (txout_code a s)). rewrite putVLQ_ok by (done || lia).
  split; [done|]. split; [|done]. rewrite (proj1 (amount_fits_u64 a Ha)).
  assert (zlen (txout_code a s) <= zlen (drop (length (vlq (header_code h cb))) target)) as Hr
    by (unfold zlen in *; rewrite length_drop; lia).
  erewrite on_tail_ok; [|done|by apply putCompressedTxOut_ok]. by rewrite drop_drop, (assoc_L (++)).
Qed.

(** Reading one back. *)
Lemma read_output a s h cb rest :
  output_ok a s h →
  deserializeVLQ (output_code a s h cb ++ rest) = (header_code h cb, zlen (vlq (header_code h cb))) ∧
  zlen (vlq (header_code h cb)) < zlen (output_code a s h cb ++ rest) ∧
  go_slice (E:=RuleErr) (output_code a s h cb ++ rest) (zlen (vlq (header_code h cb))) (zlen (output_code a s h cb ++ rest)) =
    Ok (txout_code a s ++ rest) ∧
  decodeCompressedTxOut (txout_code a s ++ rest) = Ok (a, s, zlen (txout_code a s)).
Proof.
  intros (Ha & Hs & Hh). unfold output_code. rewrite <-(assoc_L (++)).
  pose proof (script_code_pos s). pose proof (zlen_nonneg rest). pose proof (vlq_pos (compressTxOutAmount a)).
  split; [by apply deserializeVLQ_vlq, header_code_u64|]. split; [unfold txout_code; rewrite !zlen_app; lia|].
  split; [apply go_slice_tail; rewrite ?zlen_app; lia|by apply decodeCompressedTxOut_code].
Qed.

(** ** The spend journal *)

Definition stxo_ok (s : SpentTxOut) : Prop := output_ok (stxo_Amount s) (stxo_PkScript s) (stxo_Height s).

Definition stxo_code (s : SpentTxOut) : bytes :=
  output_code (stxo_Amount s) (stxo_PkScript s) (stxo_Height s) (stxo_IsCoinBase s).

Lemma putSpentTxOut_ok {E} s target :
  stxo_ok s → zlen (stxo_code s) <= zlen target →
  putSpentTxOut (E:=E) target s = Ok (stxo_code s ++ drop (length (stxo_code s)) target, zlen (stxo_code s)).
Proof.
  intros Hs Ht. unfold putSpentTxOut, spentTxOutHeaderCode. rewrite header_code_eq by apply Hs.
  destruct (put_output (E:=E) _ _ _ (stxo_IsCoinBase s) target Hs Ht) as (off & n & -> & E2 & Hn).
  cbn [mbind result_bind]. rewrite E2. cbn [mbind result_bind]. unfold stxo_code. by rewrite Hn.
Qed.

Lemma decodeSpentTxOut_code s rest :
  stxo_ok s → decodeSpentTxOut (stxo_code s ++ rest) = Ok (s, zlen (stxo_code s)).
Proof.
  intros Hs. pose proof Hs as (Ha & _ & Hh). destruct (read_output _ _ _ (stxo_IsCoinBase s) rest Hs) as (E1 & Hl & E2 & E3).
  fold (stxo_code s) in *. unfold decodeSpentTxOut. pose proof (zlen_nonneg (vlq (header_code (stxo_Height s) (stxo_IsCoinBase s)))).
  rewrite (proj2 (Z.eqb_neq (zlen _) 0)), E1, (proj2 (Z.leb_gt _ _)), E2 by lia. cbn [mbind result_bind].
  rewrite E3, header_code_flag, header_code_height, (proj2 (amount_fits_u64 _ Ha)) by done.
  unfold stxo_code, output_code. rewrite zlen_app. by destruct s.
Qed.

Lemma put_stxos_ok {E} rs pre post :
  Forall stxo_ok rs → zlen post = zlen (concat (map stxo_code rs)) →
  put_stxos (E:=E) rs (pre ++ post) (zlen pre) = Ok (pre ++ concat (map stxo_code rs)).
Proof.
  revert pre post. induction rs as [|s rs IH]; intros pre post Hok Hp; cbn [put_stxos map concat] in *.
  { by rewrite (zlen_0 post) by done. }
  apply Forall_cons in Hok as [Hs Hok]. rewrite zlen_app in Hp. pose proof (zlen_nonneg (concat (map stxo_code rs))).
  erewrite on_tail_ok; [|done|apply putSpentTxOut_ok; [done|lia]]. cbn [mbind result_bind].
  rewrite (assoc_L (++)), <-zlen_app, IH; [by rewrite <-(assoc_L (++))|done|].
  unfold zlen in *. rewrite length_drop. lia.
Qed.

Lemma journal_size (l : list SpentTxOut) t :
  Forall stxo_ok l →
  foldl (λ size stxo, size + spentTxOutSerializeSize stxo) t l = t + zlen (concat (map stxo_code l)).
Proof.
  intros Hok. revert t. induction Hok as [|s l Hs Hok IH]; intros t; cbn [foldl map concat]; [rewrite zlen_nil; lia|].
  rewrite IH, zlen_app. unfold spentTxOutSerializeSize, spentTxOutHeaderCode.
  rewrite header_code_eq, output_code_size by apply Hs. unfold stxo_code. lia.
Qed.

Lemma concat_rev_length (l : list SpentTxOut) : zlen (concat (map stxo_code (rev l))) = zlen (concat (map stxo_code l)).
Proof.
  induction l as [|s l IH]; cbn [rev]; [done|]. rewrite map_app, concat_app. cbn [map concat].
  rewrite !zlen_app, IH, zlen_nil. lia.
Qed.

Lemma serializeSpendJournalEntry_ok {E} stxos :
  Forall stxo_ok stxos → serializeSpendJournalEntry (E:=E) stxos = Ok (concat (map stxo_code (rev stxos))).
Proof.
  intros Hok. unfold serializeSpendJournalEntry. destruct (Z.eqb_spec (zlen stxos) 0) as [E0|_].
  { by rewrite (zlen_0 stxos). }
  rewrite journal_size by done. apply (put_stxos_ok (rev stxos) []).
  - by apply Forall_rev.
  - rewrite concat_rev_length. unfold zlen. rewrite length_replicate. lia.
Qed.

Lemma journal_loop_ok rev_ins rs pre done :
  length rev_ins = length rs → Forall stxo_ok rs →
  journal_loop rev_ins (pre ++ concat (map stxo_code rs)) (zlen pre) (zlen rs - 1)
    (replicate (length rs) empty_stxo ++ done) = Ok (rev rs ++ done).
Proof.
  revert rs pre done. induction rev_ins as [|ti ins IH]; intros [|s rs] pre dn Hl Hok; cbn [journal_loop length] in *; try done.
  apply Forall_cons in Hok as [Hs Hok]. cbn [map concat]. rewrite zlen_cons.
  replace (replicate (S (length rs)) empty_stxo ++ dn) with (replicate (length rs) empty_stxo ++ empty_stxo :: dn)
    by (rewrite replicate_S_end, <-(assoc_L (++)); done).
  assert (1 + zlen rs - 1 = zlen (replicate (length rs) empty_stxo)) as Hi by (unfold zlen; rewrite length_replicate; lia).
  rewrite (go_index_mid _ _ _ _ Hi). cbn [mbind result_bind].
  rewrite go_slice_tail by (rewrite ?zlen_app; lia). cbn [mbind result_bind].
  rewrite decodeSpentTxOut_code, (go_set_mid _ _ _ _ _ Hi) by done. cbn [mbind result_bind].
  replace (1 + zlen rs - 1 - 1) with (zlen rs - 1) by lia. rewrite (assoc_L (++)), <-zlen_app, IH by (done || lia).
  cbn [rev]. by rewrite <-(assoc_L (++)).
Qed.

Lemma count_ins txs t :
  foldl (λ numStxos tx, numStxos + zlen (tx_TxIn tx)) t txs =
    t + Z.of_nat (length (concat (map (λ tx, rev (tx_TxIn tx)) (rev txs)))).
Proof.
  revert t. induction txs as [|tx txs IH]; intros t; cbn [foldl rev]; [cbn; lia|].
  rewrite IH, map_app, concat_app, length_app. cbn [map concat]. rewrite app_nil_r, length_rev. unfold zlen. lia.
Qed.

(** The number of inputs of the transactions. *)
Definition count_inputs (txs : list MsgTx) : Z := foldl (λ n tx, n + zlen (tx_TxIn tx)) 0 txs.

Lemma deserialize_journal stxos txs :
  Forall stxo_ok stxos → zlen stxos = count_inputs txs →
  deserializeSpendJournalEntry (concat (map stxo_code (rev stxos))) txs = Ok stxos.
Proof.
  intros Hok Hc. unfold deserializeSpendJournalEntry. fold (count_inputs txs). rewrite <-Hc.
  destruct stxos as [|s l] eqn:El.
  { done. }
  rewrite <-El in *. destruct (Z.eqb_spec (zlen (concat (map stxo_code (rev stxos)))) 0) as [E0|_].
  { exfalso. rewrite concat_rev_length, El in E0. cbn [map concat] in E0. rewrite zlen_app in E0.
    pose proof (zlen_nonneg (concat (map stxo_code l))). pose proof (vlq_pos (header_code (stxo_Height s) (stxo_IsCoinBase s))).
    unfold stxo_code at 1, output_code in E0. rewrite zlen_app in E0.
    pose proof (zlen_nonneg (txout_code (stxo_Amount s) (stxo_PkScript s))). lia. }
  pose proof (journal_loop_ok (concat (map (λ tx, rev (tx_TxIn tx)) (rev txs))) (rev stxos) [] []) as Hj.
  rewrite !app_nil_r, rev_involutive in Hj. cbn [app] in Hj. rewrite length_rev in Hj.
  unfold count_inputs in Hc. rewrite count_ins in Hc.
  replace (zlen (rev stxos)) with (zlen stxos) in Hj by (unfold zlen; by rewrite length_rev).
  rewrite to_nat_zlen. apply Hj; [unfold zlen in Hc; lia|by apply Forall_rev].
Qed.

(** ** Keys *)

Definition key_of (op : OutPoint) : bytes := op_Hash op ++ vlq (op_Index op).

(** Five bytes hold an index. *)
Lemma index_size i : is_u32 i → is_u64 i ∧ 0 < zlen (vlq i) <= 5.
Proof.
  unfold is_u32, is_u64. intros Hi. split; [lia|]. split; [apply vlq_pos|].
  assert (2 ^ 32 < cap 5) by done. rewrite zlen_vlq.
  assert (∀ k n, 0 <= n < cap k → zlen (vlq_high 10 n) = zlen (vlq_high k n) → zlen (vlq_high 10 n) <= Z.of_nat k) as Hk.
  { intros k n _ ->. clear. revert n. induction k as [|k IH]; intros n; cbn [vlq_high]; [done|].
    rewrite zlen_snoc. specialize (IH (n / 128 - 1)). destruct (n <=? 0x7f); rewrite ?zlen_nil; lia. }
  apply (Hk 5%nat); [lia|]. f_equal.
  assert (∀ j k n, (k <= j)%nat → 0 <= n < cap k → vlq_high j n = vlq_high k n) as Hm.
  { clear. intros j k. revert j. induction k as [|k IH]; intros j n Hj Hn; cbn [cap] in Hn; [lia|].
    destruct j as [|j]; [lia|]. cbn [vlq_high]. destruct (Z.leb_spec n 0x7f); [done|].
    pose proof (div_mod_128 n). by rewrite (IH j) by lia. }
  apply Hm; [lia|lia].
Qed.

Lemma outpointKey_in_ok {E} buffer op :
  wf_OutPoint op → 37 <= zlen buffer → outpointKey_in (E:=E) buffer op = Ok (key_of op).
Proof.
  intros [Hh Hi] Hb. destruct (index_size _ Hi) as [H64 Hs]. unfold HashSize in Hh. unfold outpointKey_in.
  rewrite serializeSizeVLQ_length, go_slice_total by (done || lia). cbn [mbind result_bind].
  set (buf := take _ _). assert (zlen buf = 32 + zlen (vlq (op_Index op))) as Hl.
  { unfold buf, zlen in *. rewrite length_take, length_drop. lia. }
  rewrite copy_at_spec by lia. cbn [take Z.to_nat]. rewrite Hh.
  set (rest := drop _ buf). assert (zlen rest = zlen (vlq (op_Index op))) as Hr.
  { unfold rest, zlen in *. rewrite length_drop. lia. }
  change (take (Z.to_nat 0) buf) with (@nil byte). cbn [app].
  erewrite on_tail_ok; [|by rewrite Hh|apply putVLQ_ok; [done|lia]]. cbn [mbind result_bind]. unfold key_of.
  rewrite drop_ge by (unfold zlen in Hr; lia). by rewrite app_nil_r.
Qed.

Lemma outpointKey_ok {E} op : wf_OutPoint op → outpointKey (E:=E) op = Ok (key_of op).
Proof. intros Hw. apply outpointKey_in_ok; [done|by vm_compute]. Qed.

Lemma key_of_inj op op' : wf_OutPoint op → wf_OutPoint op' → key_of op = key_of op' → op = op'.
Proof.
  intros [Hh Hi] [Hh' Hi'] Hk. unfold key_of in Hk. apply app_inj_1 in Hk as [E1 E2]; [|unfold zlen in *; lia].
  pose proof (deserializeVLQ_vlq (op_Index op) [] (proj1 (index_size _ Hi))) as D1.
  pose proof (deserializeVLQ_vlq (op_Index op') [] (proj1 (index_size _ Hi'))) as D2.
  rewrite E2, D2 in D1. injection D1 as D1. destruct op, op'; cbn in *; congruence.
Qed.

(** ** Entries *)

Definition coin_code (c : Coin) : bytes :=
  output_code (coin_amount c) (coin_script c) (coin_height c) (coin_coinbase c).

Definition coin_ok (c : Coin) : Prop := output_ok (coin_amount c) (coin_script c) (coin_height c).

(** The entry a coin is read back as. *)
Definition stored_entry (c : Coin) : UtxoEntry :=
  mkUtxoEntry (coin_amount c) (coin_script c) (coin_height c) (if coin_coinbase c then tfCoinBase else 0).

Lemma stored_entry_coin c : IsSpent (stored_entry c) = false ∧ entry_coin (stored_entry c) = c.
Proof. by destruct c as [? ? ? []]. Qed.

Lemma serializeUtxoEntry_ok e :
  coin_ok (entry_coin e) →
  serializeUtxoEntry e = Ok (if IsSpent e then None else Some (coin_code (entry_coin e))).
Proof.
  intros Hc. unfold serializeUtxoEntry, utxoEntryHeaderCode. destruct (IsSpent e); [done|].
  pose proof Hc as (_ & _ & Hh). cbn [coin_height entry_coin] in Hh. cbn [mbind result_bind].
  rewrite header_code_eq by done. pose proof (output_code_size _ _ _ (entry_IsCoinBase e) Hc) as Hs.
  cbn [coin_height coin_amount coin_script entry_coin] in Hs. rewrite Hs.
  destruct (put_output (E:=RuleErr) _ _ _ (entry_IsCoinBase e)
    (replicate (Z.to_nat (zlen (output_code (amount e) (pkScript e) (blockHeight e) (entry_IsCoinBase e)))) x00) Hc)
    as (off & n & E1 & E2 & _).
  { cbn. unfold zlen. rewrite length_replicate. lia. }
  cbn [coin_height coin_amount coin_script entry_coin] in E1, E2. rewrite E1. cbn [mbind result_bind].
  rewrite E2. cbn [mbind result_bind]. rewrite drop_ge, app_nil_r; [done|].
  rewrite length_replicate, to_nat_zlen. done.
Qed.

Lemma deserializeUtxoEntry_code c : coin_ok c → deserializeUtxoEntry (coin_code c) = Ok (stored_entry c).
Proof.
  intros Hc. pose proof Hc as (Ha & _ & Hh). destruct (read_output _ _ _ (coin_coinbase c) [] Hc) as (E1 & Hl & E2 & E3).
  rewrite app_nil_r in E1, Hl, E2. fold (coin_code c) in *. unfold deserializeUtxoEntry.
  rewrite E1, (proj2 (Z.leb_gt _ _)), E2 by lia. cbn [mbind result_bind].
  by rewrite app_nil_r in E3 |- *; rewrite E3, header_code_flag, header_code_height, (proj2 (amount_fits_u64 _ Ha)) by done.
Qed.

Lemma coin_code_pos c : coin_ok c → zlen (coin_code c) ≠ 0.
Proof.
  intros Hc. destruct (read_output _ _ _ (coin_coinbase c) [] Hc) as (_ & Hl & _).
  rewrite app_nil_r in Hl. unfold coin_code.
  pose proof (zlen_nonneg (vlq (header_code (coin_height c) (coin_coinbase c)))). lia.
Qed.

(** ** The bucket as a set of coins *)

(** The bucket holds exactly these coins, as far as outpoints are concerned. *)
Definition store_repr (b : Bucket) (U : UtxoSet) : Prop :=
  ∀ op, wf_OutPoint op → b !! key_of op = coin_code <$> U !! op.

Definition coins_ok (U : UtxoSet) : Prop := ∀ op c, U !! op = Some c → wf_OutPoint op ∧ coin_ok c.

Lemma dbFetchUtxoEntry_ok b U op :
  store_repr b U → coins_ok U → wf_OutPoint op →
  dbFetchUtxoEntry b op = Ok (stored_entry <$> U !! op).
Proof.
  intros Hb HU Hw. unfold dbFetchUtxoEntry. rewrite outpointKey_ok by done. cbn [mbind result_bind].
  rewrite Hb by done. destruct (U !! op) as [c|] eqn:E; [|done]. cbn [fmap option_fmap option_map].
  destruct (HU op c E) as [_ Hc]. rewrite (proj2 (Z.eqb_neq _ _)) by (by apply coin_code_pos).
  by rewrite deserializeUtxoEntry_code.
Qed.

Lemma dbDeleteUtxoEntry_ok b U op :
  store_repr b U → wf_OutPoint op →
  dbDeleteUtxoEntry b op = Ok (delete (key_of op) b) ∧ store_repr (delete (key_of op) b) (delete op U).
Proof.
  intros Hb Hw. unfold dbDeleteUtxoEntry. rewrite outpointKey_ok by done. split; [done|]. intros op' Hw'.
  destruct (decide (op' = op)) as [->|Hne]; [by rewrite !lookup_delete_eq|].
  rewrite !lookup_delete_ne by (done || intros E; by apply Hne, key_of_inj). by apply Hb.
Qed.

Lemma dbPutUtxoEntry_ok b U op e :
  store_repr b U → wf_OutPoint op → IsSpent e = false → coin_ok (entry_coin e) →
  dbPutUtxoEntry b op (Some e) = Ok (<[key_of op := coin_code (entry_coin e)]> b) ∧
  store_repr (<[key_of op := coin_code (entry_coin e)]> b) (<[op := entry_coin e]> U).
Proof.
  intros Hb Hw Hs Hc. unfold dbPutUtxoEntry. rewrite Hs, serializeUtxoEntry_ok, Hs by done. cbn [mbind result_bind].
  rewrite outpointKey_ok by done. cbn [mbind result_bind default]. split; [done|]. intros op' Hw'.
  destruct (decide (op' = op)) as [->|Hne]; [by rewrite !lookup_insert_eq|].
  rewrite !lookup_insert_ne by (done || intros E; by apply Hne, key_of_inj). by apply Hb.
Qed.

(** C22 The bucket of unspent outputs is a finite map of coins: what is put can
    be fetched, as an unmodified entry with the coinbase flag alone; deleting
    removes; other outpoints are not touched.  The keys of two outpoints differ,
    whatever was in the pooled buffers they are written into. *)
Theorem utxo_bucket_spec b U op :
  store_repr b U → coins_ok U → wf_OutPoint op →
  dbFetchUtxoEntry b op = Ok (stored_entry <$> U !! op) ∧
  (∀ e, IsSpent e = false → coin_ok (entry_coin e) →
     ∃ b', dbPutUtxoEntry b op (Some e) = Ok b' ∧ store_repr b' (<[op := entry_coin e]> U) ∧ coins_ok (<[op := entry_coin e]> U)) ∧
  (∃ b', dbDeleteUtxoEntry b op = Ok b' ∧ store_repr b' (delete op U) ∧ coins_ok (delete op U)) ∧
  (∀ buffer op', wf_OutPoint op' → 37 <= zlen buffer → op ≠ op' →
     outpointKey_in (E:=RuleErr) buffer op ≠ outpointKey op').
Proof.
  intros Hb HU Hw. split; [by apply dbFetchUtxoEntry_ok|]. split; [|split].
  - intros e Hs Hc. destruct (dbPutUtxoEntry_ok b U op e Hb Hw Hs Hc) as [E Hr]. eexists; split; [exact E|]. split; [done|].
    intros op' c [[<- <-]|[_ Hc']]%lookup_insert_Some; [done|by apply HU].
  - destruct (dbDeleteUtxoEntry_ok b U op Hb Hw) as [E Hr]. eexists; split; [exact E|]. split; [done|].
    intros op' c [_ Hc']%lookup_delete_Some. by apply HU.
  - intros buffer op' Hw' Hl Hne. rewrite outpointKey_in_ok, outpointKey_ok by done. intros [= E]. by apply Hne, key_of_inj.
Qed.

(** What the bucket holds for a block: the outputs, last one first. *)
Definition journal_code (stxos : list SpentTxOut) : bytes := concat (map stxo_code (rev stxos)).

Lemma journal_put b hash stxos :
  Forall stxo_ok stxos → dbPutSpendJournalEntry b hash stxos = Ok (<[hash := journal_code stxos]> b).
Proof. intros Hok. unfold dbPutSpendJournalEntry. by rewrite serializeSpendJournalEntry_ok. Qed.

Lemma journal_fetch b block tx txs stxos :
  b_Transactions block = tx :: txs → zlen stxos = count_inputs txs → Forall stxo_ok stxos →
  b !! b_Hash block = Some (journal_code stxos) → dbFetchSpendJournalEntry b block = Ok stxos.
Proof.
  intros Ht Hc Hok Hb. unfold dbFetchSpendJournalEntry. rewrite Hb, Ht, (go_slice_cons tx txs) by (by rewrite zlen_cons).
  cbn [mbind result_bind from_option id]. unfold journal_code. by rewrite deserialize_journal.
Qed.

(** C39 The spend journal of a block reads back as what was written: the outputs
    in the order they were spent, for the block whose inputs they are, until it
    is removed; journals of other blocks are not touched. *)
Theorem spend_journal_roundtrip b block tx txs stxos :
  b_Transactions block = tx :: txs → zlen stxos = count_inputs txs → Forall stxo_ok stxos →
  ∃ b', dbPutSpendJournalEntry b (b_Hash block) stxos = Ok b' ∧
    dbFetchSpendJournalEntry b' block = Ok stxos ∧
    (∀ other, b_Hash other ≠ b_Hash block → dbFetchSpendJournalEntry b' other = dbFetchSpendJournalEntry b other) ∧
    (b !! b_Hash block = None → dbRemoveSpendJournalEntry b' (b_Hash block) = b).
Proof.
  intros Ht Hc Hok. rewrite journal_put by done. eexists; split; [done|]. split_and!.
  - apply (journal_fetch _ _ tx txs); [done..|]. apply lookup_insert_eq.
  - intros other Hne. unfold dbFetchSpendJournalEntry. by rewrite lookup_insert_ne.
  - intros Hn. unfold dbRemoveSpendJournalEntry. by rewrite delete_insert_id.
Qed.
End codes.

(** ** Examples *)

(** A curve for the examples: the last byte of y is its parity, the others are
    zero. *)
Definition toy_y (odd : bool) : bytes := replicate 31 x00 ++ [if odd then x01 else x00].

Definition toy_point (b : bytes) : option (bytes * bool) :=
  match b with
  | f :: x =>
      if bool_decide (f = x02) && (zlen x =? 32) then Some (x, false)
      else if bool_decide (f = x03) && (zlen x =? 32) then Some (x, true)
      else if bool_decide (f = x04) && (zlen x =? 64) then
        if bool_decide (drop 32 x = toy_y false) then Some (take 32 x, false)
        else if bool_decide (drop 32 x = toy_y true) then Some (take 32 x, true)
        else None
      else None
  | [] => None
  end.

#[export] Program Instance toy_formats : PubKeyFormats := {|
  CurveKey := bytes * bool;
  btcec_ParsePubKey := toy_point;
  SerializeUncompressed k := x04 :: k.1 ++ toy_y k.2
|}.
Next Obligation.
  intros x y k Hx Hy. assert (length x = 32%nat) as Hl by (unfold zlen in Hx; lia).
  unfold toy_point. rewrite !bool_decide_false by done. cbn [andb]. rewrite bool_decide_true by done.
  rewrite zlen_app, Hx, Hy. cbn [Z.add Pos.add Pos.succ Z.eqb Pos.eqb andb].
  rewrite take_app_length', drop_app_length' by lia.
  case_bool_decide as E0; [|case_bool_decide as E1; [|done]]; intros [= <-]; rewrite ?E0, ?E1.
  - change (z2b _) with x02. exists (x, false). split; [|done]. lazy beta iota delta [toy_point].
    by rewrite (bool_decide_true (x02 = x02)) by done.
  - change (z2b _) with x03. exists (x, true). split; [|done]. lazy beta iota delta [toy_point].
    rewrite (bool_decide_false (x03 = x02)), (bool_decide_true (x03 = x03)) by done. cbn [andb]. done.
Qed.

Definition demo_key_script : bytes := z2b 65 :: x04 :: replicate 32 x09 ++ toy_y true ++ [z2b 172].
Definition demo_store_op : OutPoint := mkOutPoint (replicate 32 x22) 300.
Definition demo_entry : UtxoEntry := mkUtxoEntry 1234500000 demo_key_script 1000 (Z.lor tfCoinBase tfModified).

Lemma demo_output_ok : output_ok 1234500000 demo_key_script 1000.
Proof. split_and!; done. Qed.

(** The key is stored compressed. *)
Lemma demo_entry_code : zlen (coin_code (entry_coin demo_entry)) = 38.
Proof. by vm_compute. Qed.

Lemma utxo_bucket_spec_witness :
  ∃ b', dbPutUtxoEntry ∅ demo_store_op (Some demo_entry) = Ok b' ∧
    store_repr b' (<[demo_store_op := entry_coin demo_entry]> ∅) ∧ coins_ok (<[demo_store_op := entry_coin demo_entry]> ∅).
Proof.
  exact (proj1 (proj2 (utxo_bucket_spec ∅ ∅ demo_store_op (λ op _, eq_refl) (λ op c H, ltac:(done))
    ltac:(done))) demo_entry eq_refl demo_output_ok).
Defined.

Definition demo_journal_block : Block :=
  mkBlock (replicate 32 x05) zeroHash 300
    [mkMsgTx 1 [] [] 0; mkMsgTx 1 [mkTxIn demo_store_op [] [] 0; mkTxIn demo_store_op [] [] 0] [] 0].
Definition demo_stxos : list SpentTxOut :=
  [mkSpentTxOut 1234500000 demo_key_script 1000 true; mkSpentTxOut 7 [x51] 2 false].

Lemma spend_journal_roundtrip_witness :
  ∃ b', dbPutSpendJournalEntry ∅ (b_Hash demo_journal_block) demo_stxos = Ok b' ∧
    dbFetchSpendJournalEntry b' demo_journal_block = Ok demo_stxos ∧
    (∀ other, b_Hash other ≠ b_Hash demo_journal_block → dbFetchSpendJournalEntry b' other = dbFetchSpendJournalEntry ∅ other) ∧
    ((∅ : Bucket) !! b_Hash demo_journal_block = None → dbRemoveSpendJournalEntry b' (b_Hash demo_journal_block) = ∅).
Proof.
  exact (spend_journal_roundtrip ∅ demo_journal_block _ _ demo_stxos eq_refl eq_refl
    ltac:(repeat apply Forall_cons_2; [apply demo_output_ok|by split_and!|done])).
Defined.
