(* ===== verification/SizeHelper.v ===== *)
(** * Sizes of Go maps (blockchain/sizehelper.go)

    The estimate of the memory of a map and the number of entries for a given
    size, which bound the maps of the cache of outputs.  The logarithm is taken
    of a float; below 2^47 it rounds to the integer one.  What a conversion of
    the logarithm of zero or a negative number gives is up to the machine, a
    parameter. *)
From Stdlib Require Import Lia ZArith.
From S2P Require Import Prelude.

Definition outpointSize : Z := 36.
Definition uint64Size : Z := 8.
Definition bucketSize : Z := 16 + uint64Size * outpointSize + uint64Size * uint64Size.
Definition sh_baseEntrySize : Z := 40.
Definition pubKeyHashLen : Z := 25.
Definition avgEntrySize : Z := sh_baseEntrySize + (pubKeyHashLen + 7).

Definition MaxSmallSize : Z := 32768.
Definition smallSizeDiv : Z := 8.
Definition smallSizeMax : Z := 1024.
Definition largeSizeDiv : Z := 128.
Definition PageSize : Z := 8192.
Definition MaxUintptr : Z := 2 ^ 64 - 1.
Definition bucketCnt : Z := 8.
Definition loadFactorNum : Z := 13.
Definition loadFactorDen : Z := 2.
Definition PtrSize : Z := 8.
Definition maxAlloc : Z := 2 ^ 40.

Definition class_to_size : list Z :=
  [0; 8; 16; 24; 32; 48; 64; 80; 96; 112; 128; 144; 160; 176; 192; 208; 224; 240; 256; 288; 320;
   352; 384; 416; 448; 480; 512; 576; 640; 704; 768; 896; 1024; 1152; 1280; 1408; 1536; 1792;
   2048; 2304; 2688; 3072; 3200; 3456; 4096; 4864; 5376; 6144; 6528; 6784; 6912; 8192; 9472;
   9728; 10240; 10880; 12288; 13568; 14336; 16384; 18432; 19072; 20480; 21760; 24576; 27264;
   28672; 32768].

Definition size_to_class8 : list Z :=
  [0; 1; 2; 3; 4; 5; 5; 6; 6; 7; 7; 8; 8; 9; 9; 10; 10; 11; 11; 12; 12; 13; 13; 14; 14; 15; 15;
   16; 16; 17; 17; 18; 18; 19; 19; 19; 19; 20; 20; 20; 20; 21; 21; 21; 21; 22; 22; 22; 22; 23;
   23; 23; 23; 24; 24; 24; 24; 25; 25; 25; 25; 26; 26; 26; 26; 27; 27; 27; 27; 27; 27; 27; 27;
   28; 28; 28; 28; 28; 28; 28; 28; 29; 29; 29; 29; 29; 29; 29; 29; 30; 30; 30; 30; 30; 30; 30;
   30; 31; 31; 31; 31; 31; 31; 31; 31; 31; 31; 31; 31; 31; 31; 31; 31; 32; 32; 32; 32; 32; 32;
   32; 32; 32; 32; 32; 32; 32; 32; 32; 32].

Definition size_to_class128 : list Z :=
  [32; 33; 34; 35; 36; 37; 37; 38; 38; 39; 39; 40; 40; 40; 41; 41; 41; 42; 43; 43; 44; 44; 44;
   44; 44; 45; 45; 45; 45; 45; 45; 46; 46; 46; 46; 47; 47; 47; 47; 47; 47; 48; 48; 48; 49; 49;
   50; 51; 51; 51; 51; 51; 51; 51; 51; 51; 51; 52; 52; 52; 52; 52; 52; 52; 52; 52; 52; 53; 53;
   54; 54; 54; 54; 55; 55; 55; 55; 55; 56; 56; 56; 56; 56; 56; 56; 56; 56; 56; 56; 57; 57; 57;
   57; 57; 57; 57; 57; 57; 57; 58; 58; 58; 58; 58; 58; 59; 59; 59; 59; 59; 59; 59; 59; 59; 59;
   59; 59; 59; 59; 59; 59; 60; 60; 60; 60; 60; 60; 60; 60; 60; 60; 60; 60; 60; 60; 60; 60; 61;
   61; 61; 61; 61; 62; 62; 62; 62; 62; 62; 62; 62; 62; 62; 62; 63; 63; 63; 63; 63; 63; 63; 63;
   63; 63; 64; 64; 64; 64; 64; 64; 64; 64; 64; 64; 64; 64; 64; 64; 64; 64; 64; 64; 64; 64; 64;
   64; 65; 65; 65; 65; 65; 65; 65; 65; 65; 65; 65; 65; 65; 65; 65; 65; 65; 65; 65; 65; 65; 66;
   66; 66; 66; 66; 66; 66; 66; 66; 66; 66; 67; 67; 67; 67; 67; 67; 67; 67; 67; 67; 67; 67; 67;
   67; 67; 67; 67; 67; 67; 67; 67; 67; 67; 67; 67; 67; 67; 67; 67; 67; 67; 67].

Definition bucketShift (b : Z) : Z := u64 (Z.shiftl 1 (Z.land b 63)).

Definition mulUintptr (a b : Z) : Z * bool :=
  if (Z.lor a b <? 2 ^ (4 * PtrSize)) || (a =? 0) then (u64 (a * b), false)
  else (u64 (a * b), MaxUintptr / a <? b).

Definition divRoundUp (n a : Z) : Z := u64 (u64 (n + a) - 1) / a.

Definition alignUp (n a : Z) : Z := Z.ldiff (u64 (u64 (n + a) - 1)) (u64 (a - 1)).

Definition roundupsize {E} (size : Z) : result E Z :=
  if size <? MaxSmallSize then
    if size <=? smallSizeMax - 8 then
      c ← go_index size_to_class8 (divRoundUp size smallSizeDiv);
      go_index class_to_size c
    else
      c ← go_index size_to_class128 (divRoundUp (u64 (size - smallSizeMax)) largeSizeDiv);
      go_index class_to_size c
  else if u64 (size + PageSize) <? size then Ok size
  else Ok (alignUp size PageSize).

Definition overLoadFactor (count B : Z) : bool :=
  (bucketCnt <? count) && (loadFactorNum * (bucketShift B / loadFactorDen) <? u64 count).

(** [for overLoadFactor(hint, B) { B++ }] *)
Fixpoint grow_B (fuel : nat) (hint B : Z) : Z :=
  match fuel with
  | O => B
  | S fuel => if overLoadFactor hint B then grow_B fuel hint (u8 (B + 1)) else B
  end.

Definition calculateRoughMapSize {E} (hint bucketSize : Z) : result E Z :=
  let '(mem, overflow) := mulUintptr (u64 hint) bucketSize in
  let hint := if overflow || (maxAlloc <? mem) then 0 else hint in
  let B := grow_B 64 hint 0 in
  let base := bucketShift B in
  numBuckets ←
    (if 4 <=? B then
       let numBuckets := u64 (base + bucketShift (u8 (B - 4))) in
       let sz := u64 (bucketSize * numBuckets) in
       up ← roundupsize sz;
       Ok (if negb (up =? sz) then up / bucketSize else numBuckets)
     else Ok base);
  let '(total, _) := mulUintptr bucketSize numBuckets in
  let total := if negb (base =? numBuckets) then u64 (total + 24) else total in
  Ok (i64 (u64 (total + 48))).

(** [uint8(math.Log2(float64(n)))] where [n] is not positive. *)
Class Log2Conv := { log2_nonpos : Z → Z }.

Definition calculateMinEntries `{Log2Conv} (totalBytes bucketSize : Z) : Z :=
  let totalBytes := i64 (totalBytes - 48) in
  let numBuckets := Z.quot totalBytes bucketSize in
  let B := if 0 <? numBuckets then u8 (Z.log2 numBuckets) else u8 (log2_nonpos numBuckets) in
  if B <? 4 then
    if B =? 0 then 0 else if B =? 1 then 9 else if B =? 2 then 14 else 27
  else
    let B := u8 (B - 1) in
    i64 (u64 (loadFactorNum * (bucketShift B / loadFactorDen))) + 1.

(** ** Totality *)

Lemma classes_in_range : Forall (λ c, 0 <= c < 68) size_to_class8 ∧ Forall (λ c, 0 <= c < 68) size_to_class128.
Proof. by split; repeat constructor. Qed.

Lemma class_lookup {E} (tbl : list Z) i :
  Forall (λ c, 0 <= c < 68) tbl → 0 <= i < zlen tbl →
  ∃ n, (c ← go_index tbl i; go_index class_to_size c) = @Ok E Z n.
Proof.
  intros Hf Hi. destruct (go_index_total (E:=E) tbl i Hi) as (c & -> & Hc). cbn [mbind result_bind].
  rewrite Forall_lookup in Hf. specialize (Hf _ _ Hc). change 68 with (zlen class_to_size) in Hf.
  destruct (go_index_total (E:=E) class_to_size c Hf) as (n & -> & _). by exists n.
Qed.

Lemma roundupsize_total {E} size : 0 <= size → ∃ n, @Ok E Z n = roundupsize size.
Proof.
  intros Hs. unfold roundupsize, divRoundUp, smallSizeDiv, largeSizeDiv, smallSizeMax, MaxSmallSize.
  destruct classes_in_range as [H8 H128].
  destruct (Z.ltb_spec size 32768); [|destruct (_ <? size); by eexists].
  destruct (Z.leb_spec size (1024 - 8)).
  - rewrite !u64_small by (rewrite ?u64_small; lia). change (zlen size_to_class8) with 129.
    destruct (class_lookup (E:=E) size_to_class8 ((size + 8 - 1) / 8) H8) as [n Hn]; [|exists n; by rewrite Hn].
    change (zlen size_to_class8) with 129. split; [apply Z.div_pos; lia|]. apply Z.div_lt_upper_bound; lia.
  - assert (0 <= u64 (u64 (u64 (size - 1024) + 128) - 1) / 128 < 249) as Hi.
    { destruct (Z.lt_ge_cases size 1024).
      - assert (u64 (size - 1024) = size - 1024 + 2 ^ 64) as -> by (unfold u64; symmetry; apply (Z.mod_unique_pos _ _ (-1)); lia).
        assert (u64 (size - 1024 + 2 ^ 64 + 128) = size - 1024 + 128) as -> by (unfold u64; symmetry; apply (Z.mod_unique_pos _ _ 1); lia).
        rewrite u64_small by lia. rewrite Z.div_small; lia.
      - rewrite (u64_small (size - 1024)), (u64_small (size - 1024 + 128)), u64_small by lia.
        split; [apply Z.div_pos; lia|]. apply Z.div_lt_upper_bound; lia. }
    change 249 with (zlen size_to_class128) in Hi. destruct (class_lookup (E:=E) _ _ H128 Hi) as [n Hn].
    exists n. by rewrite Hn.
Qed.

Lemma u64_range z : 0 <= u64 z < 2 ^ 64.
Proof. apply Z.mod_pos_bound. lia. Qed.

(** The estimate of the size of a map never indexes a table out of range. *)
Lemma calculateRoughMapSize_total {E} hint bsize :
  ∃ n, calculateRoughMapSize (E:=E) hint bsize = Ok n.
Proof.
  unfold calculateRoughMapSize. destruct (mulUintptr _ _) as [mem ov]. cbv zeta. set (B := grow_B _ _ _).
  destruct (4 <=? B); cbn [mbind result_bind].
  - destruct (roundupsize_total (E:=E) (u64 (bsize * u64 (bucketShift B + bucketShift (u8 (B - 4)))))) as [up <-];
      [apply u64_range|]. cbn [mbind result_bind]. destruct (mulUintptr bsize _). by eexists.
  - destruct (mulUintptr bsize _). by eexists.
Qed.
