(* ===== verification/UtxoCache.v ===== *)
(** * The cache of unspent outputs (blockchain/utxocache.go)

    The cache in front of the bucket of unspent outputs: maps of bounded size,
    entries loaded and kept (misses too), outputs created and spent in memory,
    and flushes that write them.  A pointer to an entry is held by one map only,
    so changing the entry in place is changing it in that map.  The locks make
    each operation atomic. *)
From stdpp Require Import fin_maps strings.
From Stdlib Require Import Lia ZArith.
From S2P Require Import Prelude Wire MsgTx ScriptError Standard Crypto SigHash RuleError ChainParams BlockIndex SizeHelper Compress TxRules UtxoView Ledger ConnectBlock UtxoStore.

Abbreviation EntryMap := (gmap OutPoint (option UtxoEntry)).

(** ** Slices of maps *)

Record mapSlice := mkMapSlice {
  maps : list EntryMap;
  maxEntries : list Z;
  ms_maxTotalMemoryUsage : Z
}.

Definition ms_length (ms : mapSlice) : Z := foldl (λ l m, l + Z.of_nat (size (m : EntryMap))) 0 (maps ms).

Fixpoint size_loop {E} (nums : list Z) (size : Z) : result E Z :=
  match nums with
  | [] => Ok size
  | num :: nums =>
      n ← calculateRoughMapSize num bucketSize;
      size_loop nums (i64 (size + n))
  end.

Definition ms_size {E} (ms : mapSlice) : result E Z := size_loop (maxEntries ms) 0.

Fixpoint get_loop (maps : list EntryMap) (op : OutPoint) : option (option UtxoEntry) :=
  match maps with
  | [] => None
  | m :: maps => match m !! op with Some entry => Some entry | None => get_loop maps op end
  end.

(** The entry, and whether it was found. *)
Definition ms_get (ms : mapSlice) (op : OutPoint) : option (option UtxoEntry) := get_loop (maps ms) op.

(** The loop that looks for the key; [ms.maps[i]] panics past the maps. *)
Fixpoint put_found {E} (maxEntries : list Z) (maps : list EntryMap) (op : OutPoint) (entry : option UtxoEntry)
    : result E (option (list EntryMap)) :=
  match maxEntries, maps with
  | [], _ => Ok None
  | _ :: _, [] => Panic
  | _ :: maxEntries, m :: maps =>
      match m !! op with
      | Some _ => Ok (Some (<[op := entry]> m :: maps))
      | None =>
          r ← put_found maxEntries maps op entry;
          Ok (option_map (cons m) r)
      end
  end.

(** The loop that looks for room. *)
Fixpoint put_room {E} (maxEntries : list Z) (maps : list EntryMap) (op : OutPoint) (entry : option UtxoEntry)
    : result E (option (list EntryMap)) :=
  match maxEntries, maps with
  | [], _ => Ok None
  | _ :: _, [] => Panic
  | maxNum :: maxEntries, m :: maps =>
      if maxNum <=? Z.of_nat (size m) then
        r ← put_room maxEntries maps op entry;
        Ok (option_map (cons m) r)
      else Ok (Some (<[op := entry]> m :: maps))
  end.

Fixpoint leftover {E} (nums : list Z) (memSize : Z) : result E Z :=
  match nums with
  | [] => Ok memSize
  | maxNum :: nums =>
      n ← calculateRoughMapSize maxNum bucketSize;
      leftover nums (u64 (memSize - u64 n))
  end.

Section mapslice.
Context `{Log2Conv}.

(** A negative size makes an empty map as well. *)
Definition makeNewMap {E} (ms : mapSlice) (totalEntryMemory : Z) : result E mapSlice :=
  memSize ← leftover (maxEntries ms) (u64 (ms_maxTotalMemoryUsage ms - totalEntryMemory));
  let numMaxElements := calculateMinEntries (i64 memSize) (bucketSize + avgEntrySize) in
  let numMaxElements := numMaxElements - 1 in
  Ok (mkMapSlice (maps ms ++ [∅]) (maxEntries ms ++ [numMaxElements]) (ms_maxTotalMemoryUsage ms)).

Definition set_maps (ms : mapSlice) (l : list EntryMap) : mapSlice :=
  mkMapSlice l (maxEntries ms) (ms_maxTotalMemoryUsage ms).

Definition ms_put {E} (ms : mapSlice) (op : OutPoint) (entry : option UtxoEntry) (totalEntryMemory : Z)
    : result E mapSlice :=
  found ← put_found (maxEntries ms) (maps ms) op entry;
  match found with
  | Some l => Ok (set_maps ms l)
  | None =>
      room ← put_room (maxEntries ms) (maps ms) op entry;
      match room with
      | Some l => Ok (set_maps ms l)
      | None =>
          ms ← makeNewMap ms totalEntryMemory;
          m ← go_index (maps ms) (zlen (maps ms) - 1);
          Ok (set_maps ms (<[(length (maps ms) - 1)%nat := <[op := entry]> m]> (maps ms)))
      end
  end.
End mapslice.

Definition ms_delete (ms : mapSlice) (op : OutPoint) : mapSlice :=
  set_maps ms ((λ m, delete op m) <$> maps ms).

(** An entry changed through the pointer [get] returned. *)
Fixpoint alter_first (f : option UtxoEntry → option UtxoEntry) (maps : list EntryMap) (op : OutPoint) : list EntryMap :=
  match maps with
  | [] => []
  | m :: maps => match m !! op with Some e => <[op := f e]> m :: maps | None => m :: alter_first f maps op end
  end.

Definition deleteMaps {E} (ms : mapSlice) : result E mapSlice :=
  size ← go_index (maxEntries ms) 0;
  l ← go_slice (maps ms) 0 1;
  Ok (mkMapSlice l [size] (ms_maxTotalMemoryUsage ms)).

(** ** The cache *)

Definition utxoFlushPeriodicInterval : Z := 5 * Minute.

Inductive FlushMode := FlushRequired | FlushPeriodic | FlushIfNeeded.

(** The parts of the database the cache uses. *)
Record CacheDB := mkCacheDB {
  utxoBucket : Bucket;
  utxoStateConsistency : option bytes
}.

Record utxoCache := mkUtxoCache {
  db : CacheDB;
  maxTotalMemoryUsage : Z;
  cachedEntries : mapSlice;
  totalEntryMemory : Z;
  lastFlushHash : bytes;
  lastFlushTime : Z
}.

Definition set_cached (s : utxoCache) (ms : mapSlice) (mem : Z) : utxoCache :=
  mkUtxoCache (db s) (maxTotalMemoryUsage s) ms mem (lastFlushHash s) (lastFlushTime s).

Section cache.
Context `{HashFns} `{Log2Conv} `{PubKeyFormats}.

Definition newUtxoCache (db : CacheDB) (maxTotalMemoryUsage : Z) : utxoCache :=
  let numMaxElements := calculateMinEntries (i64 maxTotalMemoryUsage) (bucketSize + avgEntrySize) in
  let numMaxElements := numMaxElements - 1 in
  mkUtxoCache db maxTotalMemoryUsage (mkMapSlice [∅] [numMaxElements] maxTotalMemoryUsage) 0 zeroHash 0.

Definition totalMemoryUsage {E} (s : utxoCache) : result E Z :=
  size ← ms_size (cachedEntries s);
  Ok (u64 (u64 size + totalEntryMemory s)).

(** *** Loading *)

(** The entries found, and the outpoints that are missing with their places. *)
Fixpoint probe (ms : mapSlice) (outpoints : list OutPoint) (i : Z)
    : list (option UtxoEntry) * list OutPoint * list Z :=
  match outpoints with
  | [] => ([], [], [])
  | op :: outpoints =>
      let '(entries, missingOps, missingOpsIdx) := probe ms outpoints (i + 1) in
      match ms_get ms op with
      | Some entry => (entry :: entries, missingOps, missingOpsIdx)
      | None => (None :: entries, op :: missingOps, i :: missingOpsIdx)
      end
  end.

Fixpoint fetch_missing (utxoBucket : Bucket) (missingOps : list OutPoint) : result RuleErr (list (option UtxoEntry)) :=
  match missingOps with
  | [] => Ok []
  | op :: missingOps =>
      entry ← dbFetchUtxoEntry utxoBucket op;
      entries ← fetch_missing utxoBucket missingOps;
      Ok (entry :: entries)
  end.

Fixpoint put_missing (s : utxoCache) (missingOps : list OutPoint) (dbEntries : list (option UtxoEntry))
    : result RuleErr utxoCache :=
  match dbEntries, missingOps with
  | [], _ => Ok s
  | _ :: _, [] => Panic
  | entry :: dbEntries, op :: missingOps =>
      ms ← ms_put (cachedEntries s) op entry (totalEntryMemory s);
      put_missing (set_cached s ms (u64 (totalEntryMemory s + memoryUsage entry))) missingOps dbEntries
  end.

Fixpoint fill (entries : list (option UtxoEntry)) (missingOpsIdx : list Z) (dbEntries : list (option UtxoEntry))
    : result RuleErr (list (option UtxoEntry)) :=
  match missingOpsIdx, dbEntries with
  | [], _ => Ok entries
  | _ :: _, [] => Panic
  | i :: missingOpsIdx, entry :: dbEntries =>
      entries ← go_set entries i entry;
      fill entries missingOpsIdx dbEntries
  end.

Definition cache_fetchEntries (outpoints : list OutPoint) (s : utxoCache)
    : result RuleErr (list (option UtxoEntry) * utxoCache) :=
  let '(entries, missingOps, missingOpsIdx) := probe (cachedEntries s) outpoints 0 in
  if zlen missingOps =? 0 then Ok (entries, s)
  else
    dbEntries ← fetch_missing (utxoBucket (db s)) missingOps;
    s ← put_missing s missingOps dbEntries;
    entries ← fill entries missingOpsIdx dbEntries;
    Ok (entries, s).

(** *** Connecting *)

Definition cache_addTxOut (outpoint : OutPoint) (txOut : TxOut) (isCoinBase : bool) (blockHeight : Z)
    (s : utxoCache) : result RuleErr utxoCache :=
  unspendable ← lift_script (IsUnspendable (PkScript txOut));
  if (unspendable : bool) then Ok s
  else
    let entry := mkUtxoEntry (Value txOut) (PkScript txOut) blockHeight (created_flags isCoinBase) in
    ms ← ms_put (cachedEntries s) outpoint (Some entry) (totalEntryMemory s);
    Ok (set_cached s ms (u64 (totalEntryMemory s + memoryUsage (Some entry)))).

Fixpoint cache_addTxOuts_loop (hash : bytes) (outs : list TxOut) (txOutIdx : Z) (isCoinBase : bool)
    (blockHeight : Z) (s : utxoCache) : result RuleErr utxoCache :=
  match outs with
  | [] => Ok s
  | txOut :: outs =>
      s ← cache_addTxOut (mkOutPoint hash (u32 txOutIdx)) txOut isCoinBase blockHeight s;
      cache_addTxOuts_loop hash outs (txOutIdx + 1) isCoinBase blockHeight s
  end.

Definition cache_addTxOuts (tx : MsgTx) (blockHeight : Z) (s : utxoCache) : result RuleErr utxoCache :=
  cache_addTxOuts_loop (TxHash tx) (tx_TxOut tx) 0 (IsCoinBase tx) blockHeight s.

(** A spent entry that is not fresh stays, and its memory stays counted: the
    code sets the pointer to [nil] before it asks for its size. *)
Definition addTxIn (txIn : TxIn) (stxos : option (list SpentTxOut)) (s : utxoCache)
    : result RuleErr (option (list SpentTxOut) * utxoCache) :=
  let op := PreviousOutPoint txIn in
  '(entries, s) ← cache_fetchEntries [op] s;
  match entries with
  | [Some entry] =>
      let stxos := (λ l, l ++ [stxo_of entry]) <$> stxos in
      let entry := Spend entry in
      let ms := set_maps (cachedEntries s) (alter_first (λ _, Some entry) (maps (cachedEntries s)) op) in
      if isFresh entry then
        Ok (stxos, set_cached s (ms_delete ms op) (u64 (totalEntryMemory s - memoryUsage (Some entry))))
      else Ok (stxos, set_cached s ms (u64 (totalEntryMemory s - memoryUsage None)))
  | _ => Fail (assertError "missing input")
  end.

Fixpoint addTxIns_loop (ins : list TxIn) (stxos : option (list SpentTxOut)) (s : utxoCache)
    : result RuleErr (option (list SpentTxOut) * utxoCache) :=
  match ins with
  | [] => Ok (stxos, s)
  | txIn :: ins =>
      '(stxos, s) ← addTxIn txIn stxos s;
      addTxIns_loop ins stxos s
  end.

Definition addTxIns (tx : MsgTx) (stxos : option (list SpentTxOut)) (s : utxoCache)
    : result RuleErr (option (list SpentTxOut) * utxoCache) :=
  if IsCoinBase tx then Ok (stxos, s) else addTxIns_loop (tx_TxIn tx) stxos s.

Definition cache_connectTransaction (tx : MsgTx) (blockHeight : Z) (stxos : option (list SpentTxOut))
    (s : utxoCache) : result RuleErr (option (list SpentTxOut) * utxoCache) :=
  '(stxos, s) ← addTxIns tx stxos s;
  s ← cache_addTxOuts tx blockHeight s;
  Ok (stxos, s).

Fixpoint cache_connect_loop (txs : list MsgTx) (blockHeight : Z) (stxos : option (list SpentTxOut))
    (s : utxoCache) : result RuleErr (option (list SpentTxOut) * utxoCache) :=
  match txs with
  | [] => Ok (stxos, s)
  | tx :: txs =>
      '(stxos, s) ← cache_connectTransaction tx blockHeight stxos s;
      cache_connect_loop txs blockHeight stxos s
  end.

Definition cache_connectTransactions (block : Block) (stxos : option (list SpentTxOut)) (s : utxoCache)
    : result RuleErr (option (list SpentTxOut) * utxoCache) :=
  cache_connect_loop (b_Transactions block) (b_Height block) stxos s.

(** *** Flushing *)

Context `{!MapOrder OutPoint (option UtxoEntry)}.

(** What a flush does to the bucket for an entry. *)
Definition write_entry (utxoBucket : Bucket) (outpoint : OutPoint) (entry : option UtxoEntry) : result RuleErr Bucket :=
  match entry with
  | None => dbDeleteUtxoEntry utxoBucket outpoint
  | Some e =>
      if IsSpent e then dbDeleteUtxoEntry utxoBucket outpoint
      else if negb (isModified e) then Ok utxoBucket
      else dbPutUtxoEntry utxoBucket outpoint entry
  end.

(** What it leaves of the entry in the map, and the memory it frees. *)
Definition keep_entry (eraseCache : bool) (m : EntryMap) (outpoint : OutPoint) (entry : option UtxoEntry)
    (deletedMem : Z) : EntryMap * Z :=
  if eraseCache then (delete outpoint m, deletedMem)
  else
    match entry with
    | None => (delete outpoint m, deletedMem)
    | Some e =>
        if IsSpent e then (delete outpoint m, u64 (deletedMem + memoryUsage entry))
        else if isModified e then
          (<[outpoint := Some (set_packedFlags e (Z.ldiff (packedFlags e) (Z.lor tfModified tfFresh)))]> m, deletedMem)
        else (m, deletedMem)
    end.

Fixpoint write_entries (es : list (OutPoint * option UtxoEntry)) (eraseCache : bool) (utxoBucket : Bucket)
    (m : EntryMap) (deletedMem : Z) : result RuleErr (Bucket * EntryMap * Z) :=
  match es with
  | [] => Ok (utxoBucket, m, deletedMem)
  | (outpoint, entry) :: es =>
      utxoBucket ← write_entry utxoBucket outpoint entry;
      let '(m, deletedMem) := keep_entry eraseCache m outpoint entry deletedMem in
      write_entries es eraseCache utxoBucket m deletedMem
  end.

Fixpoint write_maps (maps : list EntryMap) (eraseCache : bool) (utxoBucket : Bucket) (deletedMem : Z)
    : result RuleErr (Bucket * list EntryMap * Z) :=
  match maps with
  | [] => Ok (utxoBucket, [], deletedMem)
  | m :: maps =>
      '(utxoBucket, m, deletedMem) ← write_entries (map_order m) eraseCache utxoBucket m deletedMem;
      '(utxoBucket, maps, deletedMem) ← write_maps maps eraseCache utxoBucket deletedMem;
      Ok (utxoBucket, m :: maps, deletedMem)
  end.

(** [now] is [time.Now()]. *)
Definition writeCache (bestHash : bytes) (eraseCache : bool) (now : Z) (s : utxoCache) : result RuleErr utxoCache :=
  '(bucket, l, deletedMem) ← write_maps (maps (cachedEntries s)) eraseCache (utxoBucket (db s)) 0;
  let ms := set_maps (cachedEntries s) l in
  '(ms, mem) ←
    (if eraseCache then
       ms ← deleteMaps ms;
       Ok (ms, 0)
     else Ok (ms, if deletedMem <=? totalEntryMemory s then u64 (totalEntryMemory s - deletedMem) else 0));
  Ok (mkUtxoCache (mkCacheDB bucket (Some bestHash)) (maxTotalMemoryUsage s) ms mem bestHash now).

Definition shouldFlush {E} (mode : FlushMode) (bestHash : bytes) (now : Z) (s : utxoCache) : result E bool :=
  let at_threshold threshold := usage ← totalMemoryUsage s; Ok (threshold <=? usage) in
  match mode with
  | FlushRequired => at_threshold 0
  | FlushIfNeeded =>
      if bool_decide (bestHash = lastFlushHash s) then Ok false else at_threshold (maxTotalMemoryUsage s)
  | FlushPeriodic =>
      at_threshold (if utxoFlushPeriodicInterval <? now - lastFlushTime s then 0 else maxTotalMemoryUsage s)
  end.

Definition flush (mode : FlushMode) (bestHash : bytes) (now : Z) (s : utxoCache) : result RuleErr utxoCache :=
  should ← shouldFlush mode bestHash now s;
  if negb should then Ok s
  else
    usage ← totalMemoryUsage s;
    let eraseCache := match mode with FlushRequired => true | _ => maxTotalMemoryUsage s <=? usage end in
    writeCache bestHash eraseCache now s.

Definition FlushUtxoCache (mode : FlushMode) (bestHash : bytes) (now : Z) (s : utxoCache) : result RuleErr utxoCache :=
  should ← shouldFlush mode bestHash now s;
  if negb should then Ok s else flush mode bestHash now s.

(** The index is a function from hashes to nodes here. *)
Definition flushNeededAfterPrune (LookupNode : bytes → option blockNode) (deletedBlockHashes : list bytes)
    (s : utxoCache) : bool :=
  match LookupNode (lastFlushHash s) with
  | None => true
  | Some node =>
      let lastFlushHeight := height node in
      let highestDeletedHeight := foldl (λ highest h,
        match LookupNode h with
        | None => highest
        | Some node => if highest <? height node then height node else highest
        end) (-1) deletedBlockHashes in
      lastFlushHeight <=? highestDeletedHeight
  end.
End cache.
