(* ===== verification/UtxoCacheSpec.v ===== *)
(** * The cache of unspent outputs implements the ledger

    The maps of the cache as one map, what a cache stands for over the coins of
    its bucket, and that loads, blocks and flushes keep it standing for the
    ledger. *)
From stdpp Require Import fin_maps strings.
From Stdlib Require Import Lia ZArith.
From S2P Require Import Prelude Wire MsgTx ScriptError Standard Crypto SigHash RuleError ChainParams BlockIndex SizeHelper Compress TxRules UtxoView Ledger ConnectBlock UtxoStore UtxoCache.

(** ** Slices of maps as one map *)

(** No key is in two maps. *)
Fixpoint disjoint_maps (l : list EntryMap) : Prop :=
  match l with
  | [] => True
  | m :: l => (∀ op, is_Some (m !! op) → get_loop l op = None) ∧ disjoint_maps l
  end.

(** One list of maps is another with the entry of a key set. *)
Definition sets_entry (l l' : list EntryMap) (op : OutPoint) (e : option UtxoEntry) : Prop :=
  length l' = length l ∧ disjoint_maps l' ∧
  ∀ op', get_loop l' op' = if decide (op' = op) then Some e else get_loop l op'.

Definition slice_ok (ms : mapSlice) : Prop :=
  length (maps ms) = length (maxEntries ms) ∧ maps ms ≠ [] ∧ disjoint_maps (maps ms).

Lemma sets_head m l op e :
  disjoint_maps (m :: l) → get_loop l op = None → sets_entry (m :: l) (<[op := e]> m :: l) op e.
Proof.
  intros [Hd Hl] Hg. split; [done|]. split; [split; [|done]|].
  - intros op'. destruct (decide (op' = op)) as [->|Hne]; [done|]. rewrite lookup_insert_ne by done. apply Hd.
  - intros op'. cbn [get_loop]. case_decide as E; [subst; by rewrite lookup_insert_eq|]. by rewrite lookup_insert_ne.
Qed.

Lemma sets_tail m l l' op e :
  disjoint_maps (m :: l) → m !! op = None → sets_entry l l' op e → sets_entry (m :: l) (m :: l') op e.
Proof.
  intros [Hd _] Hm (Hlen & Hl' & Hg). split; [cbn; lia|]. split; [split; [|done]|].
  - intros op' Hop. rewrite Hg, decide_False; [by apply Hd|]. intros ->. by rewrite Hm in Hop; destruct Hop.
  - intros op'. cbn [get_loop]. destruct (m !! op') eqn:E; [|apply Hg]. rewrite decide_False by congruence. done.
Qed.

Lemma put_found_ok {E} nums l op e :
  length l = length nums → disjoint_maps l →
  match get_loop l op with
  | Some _ => ∃ l', put_found (E:=E) nums l op e = Ok (Some l') ∧ sets_entry l l' op e
  | None => put_found (E:=E) nums l op e = Ok None
  end.
Proof.
  revert nums. induction l as [|m l IH]; intros [|n nums] Hlen Hd; try done. cbn [get_loop put_found].
  destruct (m !! op) as [x|] eqn:Em.
  - eexists; split; [done|]. apply sets_head; [done|]. apply Hd. by rewrite Em.
  - injection Hlen as Hlen. specialize (IH nums Hlen (proj2 Hd)). destruct (get_loop l op).
    + destruct IH as (l' & -> & Hs). eexists; split; [done|]. by apply sets_tail.
    + by rewrite IH.
Qed.

Lemma put_room_ok {E} nums l op e :
  length l = length nums → disjoint_maps l → get_loop l op = None →
  put_room (E:=E) nums l op e = Ok None ∨
  ∃ l', put_room (E:=E) nums l op e = Ok (Some l') ∧ sets_entry l l' op e.
Proof.
  revert nums. induction l as [|m l IH]; intros [|n nums] Hlen Hd Hg; try done; [by left|].
  cbn [get_loop put_room] in *. destruct (m !! op) eqn:Em; [done|]. destruct (n <=? _).
  - injection Hlen as Hlen. destruct (IH nums Hlen (proj2 Hd) Hg) as [->|(l' & -> & Hs)]; [by left|right].
    eexists; split; [done|]. by apply sets_tail.
  - right. eexists; split; [done|]. by apply sets_head.
Qed.

Lemma get_loop_snoc l m op :
  get_loop (l ++ [m]) op = match get_loop l op with Some e => Some e | None => m !! op end.
Proof. induction l as [|m' l IH]; cbn; [by destruct (m !! op)|]. by destruct (m' !! op). Qed.

Lemma disjoint_snoc l op e :
  disjoint_maps l → get_loop l op = None → disjoint_maps (l ++ [{[op := e]}]).
Proof.
  induction l as [|m l IH]; cbn [app disjoint_maps get_loop]; [done|]. intros [Hd Hl] Hg.
  destruct (m !! op) eqn:Em; [done|]. split; [|by apply IH]. intros op' Hop. rewrite get_loop_snoc, (Hd op' Hop).
  apply lookup_singleton_ne. intros <-. by rewrite Em in Hop; destruct Hop.
Qed.

Lemma leftover_total {E} nums mem : ∃ r, leftover (E:=E) nums mem = Ok r.
Proof.
  revert mem. induction nums as [|n nums IH]; intros mem; cbn [leftover]; [by eexists|].
  destruct (calculateRoughMapSize_total (E:=E) n bucketSize) as [k ->]. apply IH.
Qed.

Lemma size_loop_total {E} nums n : ∃ r, size_loop (E:=E) nums n = Ok r.
Proof.
  revert n. induction nums as [|k nums IH]; intros n; cbn [size_loop]; [by eexists|].
  destruct (calculateRoughMapSize_total (E:=E) k bucketSize) as [j ->]. apply IH.
Qed.

(** Putting an entry always finds a place, once. *)
Lemma ms_put_ok `{Log2Conv} {E} ms op e mem :
  slice_ok ms →
  ∃ ms', ms_put (E:=E) ms op e mem = Ok ms' ∧ slice_ok ms' ∧
    ∀ op', ms_get ms' op' = if decide (op' = op) then Some e else ms_get ms op'.
Proof.
  intros (Hlen & Hne & Hd). unfold ms_put, ms_get.
  pose proof (put_found_ok (E:=E) (maxEntries ms) (maps ms) op e Hlen Hd) as Hf.
  destruct (get_loop (maps ms) op) as [x|] eqn:Eg.
  - destruct Hf as (l' & -> & Hl & Hd' & Hg). cbn [mbind result_bind]. eexists; split; [done|].
    split; [|done]. split_and!; [cbn; lia| |done]. intros E0. cbn in E0. subst l'. by destruct (maps ms).
  - rewrite Hf. cbn [mbind result_bind].
    destruct (put_room_ok (E:=E) (maxEntries ms) (maps ms) op e Hlen Hd Eg) as [->|(l' & -> & Hl & Hd' & Hg)]; cbn [mbind result_bind].
    + unfold makeNewMap. destruct (leftover_total (E:=E) (maxEntries ms) (u64 (ms_maxTotalMemoryUsage ms - mem))) as [r ->].
      cbn [mbind result_bind maps]. rewrite (go_index_mid (E:=E) (maps ms) ∅ []) by (unfold zlen; rewrite length_app; cbn; lia).
      cbn [mbind result_bind]. eexists; split; [done|]. cbn [maps maxEntries set_maps].
      rewrite length_app, insert_app_r_alt, Nat.add_sub, Nat.sub_diag by (cbn; lia). cbn [list_insert insert].
      assert (<[op := e]> (∅ : EntryMap) = {[op := e]}) as -> by done. split; [split_and!|].
      * unfold set_maps. cbn [maps maxEntries]. rewrite !length_app. cbn. lia.
      * cbn. by destruct (maps ms).
      * by apply disjoint_snoc.
      * intros op'. rewrite get_loop_snoc. case_decide as E0; [subst; by rewrite Eg, lookup_singleton_eq|].
        destruct (get_loop (maps ms) op'); [done|]. by apply lookup_singleton_ne.
    + eexists; split; [done|]. split; [|done]. split_and!; [cbn; lia| |done].
      intros E0. cbn in E0. subst l'. by destruct (maps ms).
Qed.

Lemma ms_delete_ok ms op :
  slice_ok ms → slice_ok (ms_delete ms op) ∧
    ∀ op', ms_get (ms_delete ms op) op' = if decide (op' = op) then None else ms_get ms op'.
Proof.
  intros (Hlen & Hne & Hd).
  assert (∀ l op', get_loop ((λ m : EntryMap, delete op m) <$> l) op' = if decide (op' = op) then None else get_loop l op') as Hg.
  { intros l op'. induction l as [|m l IH]; cbn [fmap list_fmap get_loop]; [by case_decide|]. rewrite IH.
    case_decide as E; [subst; by rewrite lookup_delete_eq|]. by rewrite lookup_delete_ne. }
  split; [|intros op'; apply Hg]. split_and!.
  - cbn. by rewrite length_fmap.
  - cbn. by destruct (maps ms).
  - cbn [maps ms_delete set_maps]. clear Hlen Hne. induction (maps ms) as [|m l IH]; cbn [fmap list_fmap disjoint_maps]; [done|].
    destruct Hd as [Hm Hl]. split; [|by apply IH]. intros op' Hop. rewrite Hg. case_decide as E; [done|].
    rewrite lookup_delete_ne in Hop by done. by apply Hm.
Qed.

Lemma ms_alter_ok ms op e :
  slice_ok ms → is_Some (ms_get ms op) →
  slice_ok (set_maps ms (alter_first (λ _, e) (maps ms) op)) ∧
    ∀ op', ms_get (set_maps ms (alter_first (λ _, e) (maps ms) op)) op' = if decide (op' = op) then Some e else ms_get ms op'.
Proof.
  intros (Hlen & Hne & Hd). unfold ms_get. cbn [maps set_maps]. intros Hs.
  assert (sets_entry (maps ms) (alter_first (λ _, e) (maps ms) op) op e) as (Hl & Hd' & Hg).
  { clear Hlen Hne. induction (maps ms) as [|m l IH]; cbn [get_loop alter_first] in *; [by destruct Hs|].
    destruct (m !! op) as [x|] eqn:Em.
    - apply sets_head; [done|]. apply Hd. by rewrite Em.
    - apply sets_tail; [done..|]. apply IH; [apply Hd|done]. }
  split; [|done]. split_and!; [cbn; lia| |done]. intros E0. cbn in E0. rewrite E0 in Hl. by destruct (maps ms).
Qed.

(** ** What the cache stands for *)

Section refine.
Context `{HashFns} `{Log2Conv} `{PubKeyFormats}.
Implicit Types D U : UtxoSet.

(** What an entry says of its outpoint, over the coins [D] of the bucket: a miss
    is in neither, an unmodified entry is as in the bucket, and a fresh one is
    unspent and not in the bucket. *)
Definition entry_ok D U (op : OutPoint) (e : option UtxoEntry) : Prop :=
  wf_OutPoint op ∧ U !! op = coin_of e ∧
  match e with
  | None => D !! op = None
  | Some u =>
      coin_ok (entry_coin u) ∧
      (isFresh u = true → IsSpent u = false ∧ D !! op = None) ∧
      (isModified u = false → IsSpent u = false ∧ D !! op = U !! op)
  end.

(** The cache over a bucket of the coins [D] stands for the coins [U]. *)
Record cache_repr (s : utxoCache) D U : Prop := {
  cr_store : store_repr (utxoBucket (db s)) D;
  cr_D : coins_ok D;
  cr_slice : slice_ok (cachedEntries s);
  cr_entries op e : ms_get (cachedEntries s) op = Some e → entry_ok D U op e;
  cr_rest op : ms_get (cachedEntries s) op = None → U !! op = D !! op
}.

Lemma cache_coins_ok s D U : cache_repr s D U → coins_ok U.
Proof.
  intros Hr op c Hc. destruct (ms_get (cachedEntries s) op) as [e|] eqn:E.
  - apply (cr_entries _ _ _ Hr) in E as (Hw & Hu & He). split; [done|]. rewrite Hu in Hc.
    apply coin_of_Some in Hc as (u & -> & _ & <-). apply He.
  - apply (cr_rest _ _ _ Hr) in E. rewrite E in Hc. by apply (cr_D _ _ _ Hr) in Hc.
Qed.

(** An entry as it was loaded. *)
Lemma stored_entry_ok D U op :
  wf_OutPoint op → coins_ok D → U !! op = D !! op → entry_ok D U op (stored_entry <$> D !! op).
Proof.
  intros Hw HD HU. split; [done|]. rewrite HU. destruct (D !! op) as [c|] eqn:E; [|done]. cbn [fmap option_fmap option_map].
  destruct (stored_entry_coin c) as [Hs Hc]. cbn [coin_of]. rewrite Hs, Hc. destruct (HD op c E) as [_ Hok].
  split; [done|]. split; [done|]. split; [|done]. by destruct c as [? ? ? []].
Qed.

Lemma entry_ok_other D U U' op e : U' !! op = U !! op → entry_ok D U op e → entry_ok D U' op e.
Proof. intros HU. unfold entry_ok. by rewrite HU. Qed.

(** Setting the entry of an outpoint, whose coin may change. *)
Lemma cache_set s D U U' op e ms mem :
  cache_repr s D U → slice_ok ms →
  (∀ op', ms_get ms op' = if decide (op' = op) then Some e else ms_get (cachedEntries s) op') →
  (∀ op', op' ≠ op → U' !! op' = U !! op') → entry_ok D U' op e →
  cache_repr (set_cached s ms mem) D U'.
Proof.
  intros Hr Hok Hg HU He. split; [apply Hr|apply Hr|done| |]; cbn [cachedEntries set_cached]; intros op'; rewrite Hg;
    case_decide as E; [by intros ? [= <-]; subst|intros e' He'|done|intros Hn].
  - eapply entry_ok_other; [by apply HU|by apply Hr].
  - rewrite HU by done. by apply Hr.
Qed.

(** *** Loading *)

(** The entry the cache has or loads for an outpoint. *)
Definition resolve (s : utxoCache) D (op : OutPoint) : option UtxoEntry :=
  match ms_get (cachedEntries s) op with Some e => e | None => stored_entry <$> D !! op end.

Lemma resolve_ok s D U op : cache_repr s D U → wf_OutPoint op → entry_ok D U op (resolve s D op).
Proof.
  intros Hr Hw. unfold resolve. destruct (ms_get (cachedEntries s) op) as [e|] eqn:E; [by apply Hr|].
  apply stored_entry_ok; [done|apply Hr|]. by apply (cr_rest _ _ _ Hr).
Qed.

Lemma probe_ok ms ops (f : OutPoint → option UtxoEntry) (pre : list (option UtxoEntry)) :
  let '(es, missing, idxs) := probe ms ops (zlen pre) in
  Forall (λ op, ms_get ms op = None ∧ op ∈ ops) missing ∧
  (∀ op, op ∈ ops → ms_get ms op = None → op ∈ missing) ∧
  (missing = [] → es = (λ op, default None (ms_get ms op)) <$> ops) ∧
  fill (pre ++ es) idxs (f <$> missing) =
    Ok (pre ++ ((λ op, match ms_get ms op with Some e => e | None => f op end) <$> ops)).
Proof.
  revert pre. induction ops as [|op ops IH]; intros pre; cbn [probe].
  { split_and!; [done| |done|done]. by intros op ?%elem_of_nil. }
  destruct (ms_get ms op) as [e|] eqn:Eg.
  - specialize (IH (pre ++ [e])). rewrite zlen_app in IH. change (zlen [e]) with 1 in IH.
    destruct (probe ms ops (zlen pre + 1)) as [[es mi] ix]. destruct IH as (Hf & Hm & Hn & Hfl). split_and!.
    + eapply Forall_impl; [exact Hf|]. intros op' [? ?]. split; [done|by right].
    + intros op' [->|Hin]%elem_of_cons Hg; [congruence|by apply Hm].
    + intros Hmi. cbn [fmap list_fmap]. rewrite Eg. by rewrite (Hn Hmi).
    + rewrite <-(assoc_L (++)) in Hfl. cbn [app fmap list_fmap] in Hfl |- *. rewrite Hfl, Eg. by rewrite <-(assoc_L (++)).
  - specialize (IH (pre ++ [f op])). rewrite zlen_app in IH. change (zlen [f op]) with 1 in IH.
    destruct (probe ms ops (zlen pre + 1)) as [[es mi] ix]. destruct IH as (Hf & Hm & Hn & Hfl). split_and!.
    + constructor; [split; [done|by left]|]. eapply Forall_impl; [exact Hf|]. intros op' [? ?]. split; [done|by right].
    + intros op' [->|Hin]%elem_of_cons Hg; [by left|right; by apply Hm].
    + done.
    + cbn [fmap list_fmap fill]. rewrite go_set_mid by done. cbn [mbind result_bind].
      rewrite <-(assoc_L (++)) in Hfl. cbn [app] in Hfl. rewrite Hfl, Eg. by rewrite <-(assoc_L (++)).
Qed.

Lemma fetch_missing_ok b D ops :
  store_repr b D → coins_ok D → Forall wf_OutPoint ops →
  fetch_missing b ops = Ok ((λ op, stored_entry <$> D !! op) <$> ops).
Proof.
  intros Hb HD. induction 1 as [|op ops Hw _ IH]; cbn [fetch_missing]; [done|].
  rewrite (dbFetchUtxoEntry_ok b D) by done. cbn [mbind result_bind]. by rewrite IH.
Qed.

Lemma put_missing_ok s D U ops :
  cache_repr s D U → Forall (λ op, wf_OutPoint op ∧ U !! op = D !! op) ops →
  ∃ s', put_missing s ops ((λ op, stored_entry <$> D !! op) <$> ops) = Ok s' ∧ cache_repr s' D U ∧ db s' = db s ∧
    ∀ op, ms_get (cachedEntries s') op =
      if decide (op ∈ ops) then Some (stored_entry <$> D !! op) else ms_get (cachedEntries s) op.
Proof.
  intros Hr Hf. revert s Hr. induction Hf as [|op ops [Hw HU] Hf IH]; intros s Hr; cbn [fmap list_fmap put_missing].
  { exists s. split_and!; [done..|]. intros op. rewrite decide_False; [done|apply not_elem_of_nil]. }
  destruct (ms_put_ok (E:=RuleErr) _ op (stored_entry <$> D !! op) (totalEntryMemory s) (cr_slice _ _ _ Hr)) as (ms & -> & Hok & Hg).
  cbn [mbind result_bind]. set (s1 := set_cached s ms _).
  assert (cache_repr s1 D U) as Hr1 by (eapply cache_set; [exact Hr|done|exact Hg|done|apply stored_entry_ok; [done|apply Hr|done]]).
  destruct (IH s1 Hr1) as (s' & -> & Hr' & Hdb & Hg'). exists s'. split_and!; [done|done|done|].
  intros op'. rewrite Hg'. cbn [s1 cachedEntries set_cached]. destruct (decide (op' ∈ ops)) as [Hin|Hin].
  - rewrite decide_True by (by right). done.
  - rewrite Hg. destruct (decide (op' = op)) as [->|Hne]; [by rewrite decide_True by (by left)|].
    rewrite decide_False; [done|]. by intros [?|?]%elem_of_cons.
Qed.

(** Loading entries: each is the one the cache had, or the stored one, which the
    cache has from now on. *)
Lemma cache_fetchEntries_ok s D U ops :
  cache_repr s D U → Forall wf_OutPoint ops →
  ∃ s', cache_fetchEntries ops s = Ok (resolve s D <$> ops, s') ∧ cache_repr s' D U ∧ db s' = db s ∧
    ∀ op, ms_get (cachedEntries s') op =
      if decide (op ∈ ops) then Some (resolve s D op) else ms_get (cachedEntries s) op.
Proof.
  intros Hr Hw. unfold cache_fetchEntries.
  pose proof (probe_ok (cachedEntries s) ops (λ op, stored_entry <$> D !! op) []) as Hp.
  change (zlen (@nil (option UtxoEntry))) with 0 in Hp.
  destruct (probe (cachedEntries s) ops 0) as [[es mi] ix]. destruct Hp as (Hf & Hm & Hn & Hfl). cbn [app] in Hfl.
  assert (∀ op, op ∈ ops → op ∉ mi → ms_get (cachedEntries s) op = Some (resolve s D op)) as Hcached.
  { intros op Hin Hni. unfold resolve. destruct (ms_get (cachedEntries s) op) eqn:E; [done|]. exfalso. by apply Hni, Hm. }
  destruct (Z.eqb_spec (zlen mi) 0) as [E0|_].
  - apply zlen_0 in E0. subst mi. exists s. rewrite (Hn eq_refl). split_and!; [|done|done|].
    + f_equal. f_equal. apply list_fmap_ext. intros i op Hi. rewrite (Hcached op); [done| |apply not_elem_of_nil].
      by eapply list_elem_of_lookup_2.
    + intros op. case_decide as Hin; [|done]. by apply Hcached, not_elem_of_nil.
  - rewrite Forall_forall in Hf, Hw.
    rewrite (fetch_missing_ok _ D) by (try apply Hr; apply Forall_forall; intros op Hin; by apply Hw, Hf).
    cbn [mbind result_bind].
    destruct (put_missing_ok s D U mi Hr) as (s' & -> & Hr' & Hdb & Hg').
    { apply Forall_forall. intros op Hin. destruct (Hf op Hin) as [Hn' Hin']. split; [by apply Hw|by apply Hr]. }
    cbn [mbind result_bind]. rewrite Hfl. exists s'. split_and!; [done|done|done|].
    intros op. rewrite Hg'. destruct (decide (op ∈ mi)) as [Hin|Hni].
    + destruct (Hf op Hin) as [Hn' Hin']. rewrite decide_True by done. unfold resolve. by rewrite Hn'.
    + destruct (decide (op ∈ ops)) as [Hin|]; [|done]. by apply Hcached.
Qed.

(** *** Creating and spending *)

Definition output_fits (o : TxOut) : Prop := amount_fits (Value o) ∧ zlen (PkScript o) < 2 ^ 61.

Lemma created_entry_ok D U op cb h o :
  wf_OutPoint op → D !! op = None → output_fits o → height_ok h →
  entry_ok D (<[op := new_coin cb h o]> U) op (Some (created_entry cb h o)).
Proof.
  intros Hw HD [Ha Hs] Hh. split; [done|]. split; [by rewrite lookup_insert_eq, created_coin|].
  split; [by destruct cb|]. split; [by destruct cb|]. by destruct cb.
Qed.

Lemma cache_addTxOuts_ok s D U hash outs idx cb h :
  cache_repr s D U → zlen hash = HashSize → 0 <= idx → idx + zlen outs <= 2 ^ 32 → height_ok h → Forall output_fits outs →
  (∀ i, idx <= i < idx + zlen outs → D !! mkOutPoint hash i = None) →
  ∃ s', cache_addTxOuts_loop hash outs idx cb h s = Ok s' ∧ cache_repr s' D (add_outs (new_coin cb h) hash outs idx U) ∧ db s' = db s.
Proof.
  intros Hr Hh Hi Hn Hht Hf. revert s U idx Hr Hi Hn. induction Hf as [|o outs Ho Hf IH]; intros s U idx Hr Hi Hn HD;
    cbn [cache_addTxOuts_loop add_outs]; [by exists s|].
  rewrite zlen_cons in Hn, HD. pose proof (zlen_nonneg outs). unfold cache_addTxOut. rewrite IsUnspendable_total.
  cbn [lift_script mbind result_bind]. rewrite u32_small by lia.
  assert (∀ i, idx + 1 <= i < idx + 1 + zlen outs → D !! mkOutPoint hash i = None) as HD1 by (intros i ?; apply HD; lia).
  destruct (unspendable (PkScript o)); cbn [mbind result_bind].
  { by apply IH; [..|lia|lia|]. }
  destruct (ms_put_ok (E:=RuleErr) _ (mkOutPoint hash idx) (Some (created_entry cb h o)) (totalEntryMemory s) (cr_slice _ _ _ Hr))
    as (ms & E & Hok & Hg).
  unfold created_entry in E. rewrite E. cbn [mbind result_bind].
  set (s1 := set_cached s ms _).
  assert (cache_repr s1 D (<[mkOutPoint hash idx := new_coin cb h o]> U)) as Hr1.
  { eapply cache_set; [exact Hr|done|exact Hg| |apply created_entry_ok; [by split; unfold is_u32; cbn; lia|apply HD; lia|done|done]].
    intros op' Hne. by apply lookup_insert_ne. }
  destruct (IH s1 (<[mkOutPoint hash idx := new_coin cb h o]> U) (idx + 1) Hr1) as (s' & -> & Hr' & Hdb); [lia|lia|done|].
  by exists s'.
Qed.

Lemma Spend_flags e : IsSpent e = false → isFresh (Spend e) = isFresh e ∧ isModified (Spend e) = true.
Proof.
  intros Hs. unfold Spend. rewrite Hs. unfold isFresh, isModified, set_packedFlags. cbn [packedFlags].
  unfold tfFresh, tfModified, tfSpent. split.
  - f_equal. apply Z.bits_inj'. intros i Hi. rewrite !Z.land_spec, Z.lor_spec. destruct (decide (i = 3)) as [->|Hne].
    + cbn. by rewrite orb_false_r.
    + assert (Z.testbit (Z.shiftl 1 3) i = false) as E; [|rewrite E; by rewrite !andb_false_r].
      change (Z.shiftl 1 3) with (2 ^ 3). apply Z.pow2_bits_false. lia.
  - apply Z.eqb_eq. apply Z.bits_inj'. intros i Hi. rewrite Z.land_spec, Z.lor_spec. destruct (decide (i = 2)) as [->|Hne].
    + cbn. by rewrite orb_true_r.
    + assert (Z.testbit (Z.shiftl 1 2) i = false) as E; [|rewrite E; by rewrite !andb_false_r].
      change (Z.shiftl 1 2) with (2 ^ 2). apply Z.pow2_bits_false. lia.
Qed.

(** Spending a coin: it is recorded, and gone. *)
Lemma addTxIn_ok s D U ti c stxos :
  cache_repr s D U → wf_OutPoint (PreviousOutPoint ti) → U !! PreviousOutPoint ti = Some c →
  ∃ s', addTxIn ti stxos s = Ok ((λ l, l ++ [coin_stxo c]) <$> stxos, s') ∧
    cache_repr s' D (delete (PreviousOutPoint ti) U) ∧ db s' = db s.
Proof.
  intros Hr Hw Hc. set (op := PreviousOutPoint ti) in *. unfold addTxIn. fold op.
  destruct (cache_fetchEntries_ok s D U [op] Hr) as (s1 & -> & Hr1 & Hdb & Hg1); [by constructor|].
  cbn [mbind result_bind fmap list_fmap].
  pose proof (resolve_ok s D U op Hr Hw) as (_ & HU & He). rewrite Hc in HU. symmetry in HU.
  apply coin_of_Some in HU as (e & Ee & Hs & Hec). rewrite Ee in He |- *. destruct He as (Hok & Hfr & _).
  specialize (Hg1 op). rewrite decide_True, Ee in Hg1 by (by left).
  assert (stxo_of e = coin_stxo c) as -> by (by rewrite <-Hec).
  destruct (Spend_flags e Hs) as [Ef Em].
  assert (∀ op', op' ≠ op → delete op U !! op' = U !! op') as Hdel by (intros; by apply lookup_delete_ne).
  destruct (ms_alter_ok (cachedEntries s1) op (Some (Spend e)) (cr_slice _ _ _ Hr1)) as [Hok2 Hg2]; [by rewrite Hg1|].
  set (ms := set_maps _ _) in *. rewrite Ef. destruct (isFresh e) eqn:Efr.
  - destruct (Hfr eq_refl) as [_ HD]. destruct (ms_delete_ok ms op Hok2) as [Hok3 Hg3].
    eexists; split; [done|]. split; [|done].
    split; [apply Hr1|apply Hr1|done| |]; cbn [cachedEntries set_cached]; intros op'; rewrite Hg3, Hg2; destruct (decide (op' = op)) as [->|Hne].
    + done.
    + intros e' He'. eapply entry_ok_other; [by apply Hdel|by apply Hr1].
    + intros _. by rewrite lookup_delete_eq, HD.
    + intros Hn. rewrite Hdel by done. by apply (cr_rest _ _ _ Hr1).
  - eexists; split; [done|]. split; [|done]. eapply cache_set; [exact Hr1|done|exact Hg2|exact Hdel|].
    split; [done|]. cbn [coin_of]. rewrite Spend_spent, lookup_delete_eq, Spend_coin, Em, Ef. by split_and!.
Qed.

Lemma addTxIns_ok s D U ins cs U' stxos :
  cache_repr s D U → Forall wf_TxIn ins → take_coins U (PreviousOutPoint <$> ins) = Some (cs, U') →
  ∃ s', addTxIns_loop ins stxos s = Ok ((λ l, l ++ (coin_stxo <$> cs)) <$> stxos, s') ∧ cache_repr s' D U' ∧ db s' = db s.
Proof.
  intros Hr Hw. revert s U cs stxos Hr. induction Hw as [|ti ins [Hti _] _ IH]; intros s U cs stxos Hr;
    cbn [fmap list_fmap take_coins addTxIns_loop].
  { intros [= <- <-]. exists s. split_and!; [|done|done]. by destruct stxos as [l|]; cbn; rewrite ?app_nil_r. }
  destruct (U !! PreviousOutPoint ti) as [c|] eqn:Ec; [|done]. cbn [mbind option_bind].
  destruct (take_coins (delete _ U) _) as [[cs1 U1]|] eqn:Et; [|done]. intros [= <- <-].
  destruct (addTxIn_ok s D U ti c stxos Hr Hti Ec) as (s1 & -> & Hr1 & Hdb). cbn [mbind result_bind].
  destruct (IH s1 _ _ ((λ l, l ++ [coin_stxo c]) <$> stxos) Hr1 Et) as (s' & -> & Hr' & Hdb').
  exists s'. split_and!; [|done|congruence]. f_equal. f_equal.
  destruct stxos as [l|]; cbn; [|done]. by rewrite <-(assoc_L (++)).
Qed.

(** The cache takes the step of the ledger. *)
Lemma cache_connectTransaction_ok s D U maturity h tx cs fee U' stxos :
  cache_repr s D U → wf_MsgTx tx → height_ok h → Forall output_fits (tx_TxOut tx) →
  fresh_tx tx D → tx_step maturity h tx U cs fee U' →
  ∃ s', cache_connectTransaction tx h stxos s = Ok ((λ l, l ++ (coin_stxo <$> cs)) <$> stxos, s') ∧
    cache_repr s' D U' ∧ db s' = db s.
Proof.
  intros Hr Hwf Hh Hf HD Hs. unfold cache_connectTransaction, addTxIns.
  assert (∀ s1 U1, cache_repr s1 D U1 → ∃ s', cache_addTxOuts tx h s1 = Ok s' ∧ cache_repr s' D (add_tx_coins h tx U1) ∧ db s' = db s1) as Hout.
  { intros s1 U1 Hr1. pose proof (wf_outs_count tx Hwf) as Hn. unfold cache_addTxOuts, add_tx_coins.
    apply (cache_addTxOuts_ok s1 D U1 (TxHash tx) (tx_TxOut tx) 0 (IsCoinBase tx) h Hr1 (TxHash_size tx)); [lia|lia|exact Hh|exact Hf|].
    intros i Hi. apply HD; cbn [op_Hash op_Index]; [done|lia]. }
  destruct Hs as [Hcb|cs U1 fee Hcb Ht _ _ _]; rewrite Hcb.
  - cbn [mbind result_bind]. destruct (Hout s U Hr) as (s' & -> & Hr' & Hdb). exists s'. split_and!; [|done|done].
    cbn. by destruct stxos as [l|]; cbn; rewrite ?app_nil_r.
  - destruct (addTxIns_ok s D U (tx_TxIn tx) cs U1 stxos Hr) as (s1 & -> & Hr1 & Hdb1); [apply Hwf|done|].
    cbn [mbind result_bind]. destruct (Hout s1 U1 Hr1) as (s' & -> & Hr' & Hdb). exists s'. split_and!; [done|done|congruence].
Qed.

Lemma cache_connect_loop_ok s D U maturity h txs css fees U' stxos :
  cache_repr s D U → Forall wf_MsgTx txs → height_ok h → Forall (λ tx, Forall output_fits (tx_TxOut tx)) txs →
  Forall (λ tx, fresh_tx tx D) txs → txs_step maturity h txs U css fees U' →
  ∃ s', cache_connect_loop txs h stxos s = Ok ((λ l, l ++ (coin_stxo <$> concat css)) <$> stxos, s') ∧
    cache_repr s' D U' ∧ db s' = db s.
Proof.
  intros Hr Hwf Hh Hf HD Hs. revert s stxos Hr. induction Hs as [U|tx txs U cs fee U1 css fees U2 Hs1 Hs IH];
    intros s stxos Hr; cbn [cache_connect_loop concat fmap list_fmap].
  { exists s. split_and!; [|done|done]. by destruct stxos as [l|]; cbn; rewrite ?app_nil_r. }
  apply Forall_cons in Hwf as [Hw1 Hwf], Hf as [Hf1 Hf], HD as [HD1 HD].
  destruct (cache_connectTransaction_ok s D U maturity h tx cs fee U1 stxos Hr Hw1 Hh Hf1 HD1 Hs1) as (s1 & -> & Hr1 & Hdb1).
  cbn [mbind result_bind].
  destruct (IH Hwf Hf HD s1 ((λ l, l ++ (coin_stxo <$> cs)) <$> stxos) Hr1) as (s' & -> & Hr' & Hdb').
  exists s'. split_and!; [|done|congruence]. f_equal. f_equal.
  destruct stxos as [l|]; cbn; [|done]. by rewrite fmap_app, <-(assoc_L (++)).
Qed.
End refine.

(** ** Flushing *)

Section flushing.
Context `{HashFns} `{Log2Conv} `{PubKeyFormats} `{!MapOrder OutPoint (option UtxoEntry)}.
Implicit Types D U : UtxoSet.

(** What a flush leaves of an entry: nothing when it erases, and otherwise the
    unspent ones, now as in the bucket. *)
Definition flushed (eraseCache : bool) (e : option UtxoEntry) : option (option UtxoEntry) :=
  match e with
  | Some u =>
      if eraseCache || IsSpent u then None
      else Some (Some (if isModified u then set_packedFlags u (Z.ldiff (packedFlags u) (Z.lor tfModified tfFresh)) else u))
  | None => None
  end.

Lemma keep_entry_ok erase m op e mem :
  m !! op = Some e →
  ∀ op', (keep_entry erase m op e mem).1 !! op' = if decide (op' = op) then flushed erase e else m !! op'.
Proof.
  intros Hm op'. unfold keep_entry, flushed.
  destruct erase; cbn [fst orb].
  { case_decide as E; [subst; rewrite lookup_delete_eq; by destruct e|by rewrite lookup_delete_ne]. }
  destruct e as [u|]; cbn [fst]; [|case_decide as E; [subst; by rewrite lookup_delete_eq|by rewrite lookup_delete_ne]].
  destruct (IsSpent u); cbn [fst]; [case_decide as E; [subst; by rewrite lookup_delete_eq|by rewrite lookup_delete_ne]|].
  destruct (isModified u); cbn [fst]; case_decide as E; subst; by rewrite ?lookup_insert_eq, ?lookup_insert_ne.
Qed.

(** Between the coins that were in the bucket and those the cache stands for. *)
Definition between D U (D' : UtxoSet) : Prop := ∀ op, D' !! op = D !! op ∨ D' !! op = U !! op.

(** Writing an entry makes the bucket agree on its outpoint. *)
Lemma write_entry_ok b D U D1 op e :
  store_repr b D1 → between D U D1 → entry_ok D U op e →
  ∃ b' D2, write_entry b op e = Ok b' ∧ store_repr b' D2 ∧ between D U D2 ∧ D2 !! op = U !! op ∧
    ∀ op', D1 !! op' = U !! op' → D2 !! op' = U !! op'.
Proof.
  intros Hb Hbt (Hw & HU & He).
  assert (∃ b' D2, dbDeleteUtxoEntry b op = Ok b' ∧ store_repr b' D2 ∧ D2 = delete op D1) as (bd & Dd & Ed & Hbd & ->).
  { destruct (dbDeleteUtxoEntry_ok b D1 op Hb Hw) as [E Hr]. by eexists _, _. }
  assert (U !! op = None → between D U (delete op D1) ∧ delete op D1 !! op = U !! op ∧
    ∀ op', D1 !! op' = U !! op' → delete op D1 !! op' = U !! op') as Hdel.
  { intros HN. rewrite lookup_delete_eq, HN. split_and!; [|done|].
    - intros op'. destruct (decide (op' = op)) as [->|Hne]; [right; by rewrite lookup_delete_eq|].
      rewrite lookup_delete_ne by done. apply Hbt.
    - intros op' Hop. destruct (decide (op' = op)) as [->|Hne]; [by rewrite lookup_delete_eq|]. by rewrite lookup_delete_ne. }
  unfold write_entry. destruct e as [u|]; [|destruct (Hdel HU) as (? & ? & ?); by exists bd, (delete op D1)].
  destruct He as (Hc & _ & Hmod). cbn [coin_of] in HU.
  destruct (IsSpent u) eqn:Es; [destruct (Hdel HU) as (? & ? & ?); by exists bd, (delete op D1)|].
  destruct (isModified u) eqn:Em; cbn [negb].
  - destruct (dbPutUtxoEntry_ok b D1 op u Hb Hw Es Hc) as [E Hr]. eexists _, _. split; [exact E|]. split; [exact Hr|].
    rewrite lookup_insert_eq, HU. split_and!; [|done|].
    + intros op'. destruct (decide (op' = op)) as [->|Hne]; [right; by rewrite lookup_insert_eq, HU|].
      rewrite lookup_insert_ne by done. apply Hbt.
    + intros op' Hop. destruct (decide (op' = op)) as [->|Hne]; [by rewrite lookup_insert_eq, HU|]. by rewrite lookup_insert_ne.
  - exists b, D1. split_and!; [done..| |done]. destruct (Hmod eq_refl) as [_ HD]. destruct (Hbt op) as [E|E]; by rewrite E.
Qed.

Lemma write_entries_ok erase es b m D U D1 mem :
  store_repr b D1 → between D U D1 → NoDup es.*1 →
  Forall (λ oe, m !! oe.1 = Some oe.2 ∧ entry_ok D U oe.1 oe.2) es →
  ∃ b' m' mem' D2, write_entries es erase b m mem = Ok (b', m', mem') ∧ store_repr b' D2 ∧ between D U D2 ∧
    (∀ op, D1 !! op = U !! op ∨ op ∈ es.*1 → D2 !! op = U !! op) ∧
    ∀ op, m' !! op = if decide (op ∈ es.*1) then m !! op ≫= flushed erase else m !! op.
Proof.
  revert b m D1 mem. induction es as [|[op e] es IH]; intros b m D1 mem Hb Hbt Hnd Hf; cbn [write_entries fmap list_fmap fst].
  { exists b, m, mem, D1. split_and!; [done..| |].
    - intros op [?|?%elem_of_nil]; done.
    - intros op. rewrite decide_False; [done|apply not_elem_of_nil]. }
  cbn [fmap list_fmap fst] in Hnd. apply NoDup_cons in Hnd as [Hni Hnd]. apply Forall_cons in Hf as [[Hm He] Hf].
  cbn [fst snd] in Hm, He.
  destruct (write_entry_ok b D U D1 op e Hb Hbt He) as (b1 & D2 & -> & Hb1 & Hbt1 & Hop & Hkeep). cbn [mbind result_bind].
  pose proof (keep_entry_ok erase m op e mem Hm) as Hk. destruct (keep_entry erase m op e mem) as [m1 mem1]. cbn [fst] in Hk.
  destruct (IH b1 m1 D2 mem1 Hb1 Hbt1 Hnd) as (b' & m' & mem' & D3 & -> & Hb' & Hbt' & Hk' & Hm').
  { rewrite Forall_forall in Hf |- *. intros [op' e'] Hin. destruct (Hf _ Hin) as [Hm2 He2]. split; [|done].
    cbn [fst snd] in *. rewrite Hk, decide_False; [done|]. intros ->. apply Hni. by apply (list_elem_of_fmap_2' _ _ _ _ Hin). }
  exists b', m', mem', D3. split_and!; [done..| |].
  - intros op' [Hop'|[->|Hin]%elem_of_cons]; apply Hk'; [left; by apply Hkeep|by left|by right].
  - intros op'. rewrite Hm', Hk. destruct (decide (op' = op)) as [->|Hne].
    + rewrite decide_False by done. rewrite decide_True by (by left). by rewrite Hm.
    + destruct (decide (op' ∈ es.*1)); [by rewrite decide_True by (by right)|].
      rewrite decide_False; [done|]. by intros [?|?]%elem_of_cons.
Qed.

Lemma map_order_keys (m : EntryMap) :
  NoDup (map_order m).*1 ∧ ∀ op e, (op, e) ∈ map_order m ↔ m !! op = Some e.
Proof.
  split.
  - rewrite map_order_perm. apply NoDup_fst_map_to_list.
  - intros op e. rewrite map_order_perm. apply elem_of_map_to_list.
Qed.

Lemma write_maps_ok erase l b D U D1 mem :
  store_repr b D1 → between D U D1 → disjoint_maps l →
  (∀ op e, get_loop l op = Some e → entry_ok D U op e) →
  ∃ b' l' mem' D2, write_maps l erase b mem = Ok (b', l', mem') ∧ store_repr b' D2 ∧ between D U D2 ∧
    (∀ op, D1 !! op = U !! op ∨ is_Some (get_loop l op) → D2 !! op = U !! op) ∧
    length l' = length l ∧ disjoint_maps l' ∧ ∀ op, get_loop l' op = get_loop l op ≫= flushed erase.
Proof.
  revert b D1 mem. induction l as [|m l IH]; intros b D1 mem Hb Hbt Hd He; cbn [write_maps].
  { exists b, [], mem, D1. split_and!; try done. by intros op [?|[? ?]]. }
  destruct Hd as [Hdm Hdl]. cbn [get_loop] in He. destruct (map_order_keys m) as [Hnd Hin].
  destruct (write_entries_ok erase (map_order m) b m D U D1 mem Hb Hbt Hnd) as (b1 & m1 & mem1 & D2 & -> & Hb1 & Hbt1 & Hk1 & Hm1).
  { apply Forall_forall. intros [op e] Hoe%Hin. cbn [fst snd]. split; [done|]. apply He. by rewrite Hoe. }
  cbn [mbind result_bind].
  destruct (IH b1 D2 mem1 Hb1 Hbt1 Hdl) as (b' & l' & mem' & D3 & -> & Hb' & Hbt' & Hk' & Hlen & Hd' & Hg').
  { intros op e Hg. apply He. destruct (m !! op) eqn:E; [|done]. rewrite Hdm in Hg by (by rewrite E). done. }
  cbn [mbind result_bind].
  assert (∀ op, m1 !! op = m !! op ≫= flushed erase) as Hm1'.
  { intros op. rewrite Hm1. case_decide as Ho; [done|]. destruct (m !! op) as [e|] eqn:E; [|done]. exfalso. apply Ho.
    apply Hin in E. by apply (list_elem_of_fmap_2' _ _ _ _ E). }
  exists b', (m1 :: l'), mem', D3. split_and!; [done|done|done| |cbn; lia| |].
  - intros op Hop. apply Hk'. cbn [get_loop] in Hop. destruct (m !! op) as [e|] eqn:E.
    + left. apply Hk1. right. apply Hin in E. by apply (list_elem_of_fmap_2' _ _ _ _ E).
    + destruct Hop as [Hop|Hop]; [left; apply Hk1; by left|by right].
  - split; [|done]. intros op Hop. rewrite Hm1' in Hop. rewrite Hg'. destruct (m !! op) eqn:E; [|by destruct Hop].
    by rewrite Hdm by (by rewrite E).
  - intros op. cbn [get_loop]. rewrite Hm1', Hg'. destruct (m !! op) as [e|] eqn:E; [|done].
    cbn [mbind option_bind]. rewrite Hdm by (by rewrite E). by destruct (flushed erase e).
Qed.

Lemma flushed_ok D U erase op e e' : entry_ok D U op e → flushed erase e = Some e' → entry_ok U U op e'.
Proof.
  intros (Hw & HU & He). destruct e as [u|]; [|done]. destruct He as (Hc & Hfr & Hmod). cbn [flushed].
  destruct erase; [done|]. cbn [orb]. destruct (IsSpent u) eqn:Es; [done|]. intros [= <-]. split; [done|].
  cbn [coin_of] in HU. rewrite Es in HU. destruct (isModified u) eqn:Em.
  - set (u' := set_packedFlags u _).
    assert (IsSpent u' = false ∧ entry_IsCoinBase u' = entry_IsCoinBase u ∧ isFresh u' = false) as (E1 & E2 & E3).
    { unfold IsSpent, entry_IsCoinBase, isFresh, u', set_packedFlags in *. cbn [packedFlags] in *.
      unfold tfSpent, tfCoinBase, tfFresh, tfModified in *.
      change (Z.lor (Z.shiftl 1 2) (Z.shiftl 1 3)) with 12. change (Z.shiftl 1 1) with 2 in *.
      change (Z.shiftl 1 0) with 1. change (Z.shiftl 1 3) with 8.
      assert (∀ z k, Z.land 12 k = 0 → Z.land (Z.ldiff z 12) k = Z.land z k) as Hz.
      { intros z k Hk. apply Z.bits_inj'. intros i Hi. apply (f_equal (λ x, Z.testbit x i)) in Hk.
        rewrite Z.land_spec, Z.bits_0 in Hk. rewrite !Z.land_spec, Z.ldiff_spec.
        destruct (Z.testbit 12 i), (Z.testbit k i); cbn in *; try done; by rewrite ?andb_true_r, ?andb_false_r. }
      rewrite !Hz by done. split; [done|]. split; [done|]. apply Z.eqb_neq. intros Eq.
      apply (f_equal (λ x, Z.testbit x 3)) in Eq. rewrite Z.land_spec, Z.ldiff_spec in Eq.
      change (Z.testbit 12 3) with true in Eq. by rewrite andb_false_r in Eq. }
    split; [cbn [coin_of]; rewrite E1, HU; unfold entry_coin; by rewrite E2|].
    split; [unfold entry_coin in *; by rewrite E2|]. split; [by rewrite E3|]. done.
  - split; [cbn [coin_of]; by rewrite Es|]. split; [done|]. split; [|done]. intros Hf. destruct (Hfr Hf) as [_ HD].
    destruct (Hmod eq_refl) as [_ HD']. congruence.
Qed.

(** A flush that is carried out leaves the bucket with the coins the cache stood
    for, and the cache standing for them still. *)
Lemma writeCache_ok s D U best erase now :
  cache_repr s D U →
  ∃ s', writeCache best erase now s = Ok s' ∧ cache_repr s' U U ∧
    utxoStateConsistency (db s') = Some best ∧ lastFlushHash s' = best ∧
    (erase = true → ∀ op, ms_get (cachedEntries s') op = None).
Proof.
  intros Hr. pose proof (cache_coins_ok _ _ _ Hr) as HcU. unfold writeCache. destruct (cr_slice _ _ _ Hr) as (Hlen & Hne & Hd).
  destruct (write_maps_ok erase (maps (cachedEntries s)) (utxoBucket (db s)) D U D 0 (cr_store _ _ _ Hr) (λ op, or_introl eq_refl) Hd
    (cr_entries _ _ _ Hr)) as (b' & l' & mem' & D2 & -> & Hb' & Hbt & Hk & Hlen' & Hd' & Hg').
  cbn [mbind result_bind].
  assert (D2 = U) as ->.
  { apply map_eq. intros op. apply Hk. destruct (get_loop (maps (cachedEntries s)) op) eqn:E; [right; by eexists|left].
    symmetry. by apply (cr_rest _ _ _ Hr). }
  assert (∀ op e, get_loop l' op = Some e → entry_ok U U op e) as He.
  { intros op e. rewrite Hg'. destruct (get_loop (maps (cachedEntries s)) op) as [e0|] eqn:E; [|done]. cbn [mbind option_bind].
    apply (flushed_ok D U). by apply (cr_entries _ _ _ Hr). }
  destruct erase.
  - destruct (maxEntries (cachedEntries s)) as [|n ns] eqn:En; [by destruct (maps (cachedEntries s))|].
    destruct (maps (cachedEntries s)) as [|m ms]; [done|]. destruct l' as [|m' l']; [done|].
    unfold deleteMaps. cbn [maxEntries maps set_maps]. rewrite En, go_index_0. cbn [mbind result_bind].
    rewrite (go_slice_prefix (E:=RuleErr) [m'] l') by done. cbn [mbind result_bind].
    assert (∀ op, m' !! op = None) as Hm.
    { intros op. specialize (Hg' op). cbn [get_loop] in Hg'. destruct (m' !! op) as [e|]; [|done].
      destruct (match m !! op with Some _ => _ | None => _ end) as [[u|]|]; done. }
    eexists; split; [done|]. split; [|split_and!; [done|done|intros _ op; unfold ms_get; cbn; by rewrite Hm]].
    split; [done|done| | |done].
    + split_and!; [done|done|]. split; [|done]. intros op [e Hop]. by rewrite Hm in Hop.
    + intros op e. unfold ms_get. cbn. by rewrite Hm.
  - eexists; split; [done|]. split; [|done]. split; [done|done| |exact He|done].
    split_and!; [cbn; lia| |done]. intros E0. cbn in E0. subst l'. by destruct (maps (cachedEntries s)).
Qed.

Lemma shouldFlush_total {E} mode best now (s : utxoCache) : ∃ b, shouldFlush (E:=E) mode best now s = Ok b.
Proof.
  unfold shouldFlush, totalMemoryUsage, ms_size. destruct (size_loop_total (E:=E) (maxEntries (cachedEntries s)) 0) as [r Hr].
  destruct mode; rewrite Hr; cbn [mbind result_bind]; [by eexists|by eexists|]. case_bool_decide; by eexists.
Qed.

Lemma flush_ok s D U mode best now :
  cache_repr s D U →
  ∃ s', flush mode best now s = Ok s' ∧
    ((shouldFlush (E:=RuleErr) mode best now s = Ok false ∧ s' = s) ∨
     (shouldFlush (E:=RuleErr) mode best now s = Ok true ∧ cache_repr s' U U ∧
      utxoStateConsistency (db s') = Some best ∧ lastFlushHash s' = best ∧
      (mode = FlushRequired → ∀ op, ms_get (cachedEntries s') op = None))).
Proof.
  intros Hr. unfold flush. destruct (shouldFlush_total (E:=RuleErr) mode best now s) as [[] ->]; cbn [mbind result_bind negb].
  2: { exists s. split; [done|]. by left. }
  unfold totalMemoryUsage, ms_size. destruct (size_loop_total (E:=RuleErr) (maxEntries (cachedEntries s)) 0) as [r ->].
  cbn [mbind result_bind]. set (erase := match mode with FlushRequired => true | _ => _ end).
  destruct (writeCache_ok s D U best erase now Hr) as (s' & -> & Hr' & Hc & Hl & He).
  exists s'. split; [done|]. right. split_and!; [done..|]. intros ->. by apply He.
Qed.

Lemma newUtxoCache_repr b D n c : store_repr b D → coins_ok D → cache_repr (newUtxoCache (mkCacheDB b c) n) D D.
Proof. intros Hb HD. split; [done|done| |done|done]. split_and!; [done|done|]. split; [|done]. by intros op [? ?]. Qed.
End flushing.

(** ** Runs of the cache *)

(** What is asked of the cache, in any order: loads, the transactions of blocks
    already checked, and flushes. *)
Inductive cache_op :=
| OpFetch (ops : list OutPoint)
| OpConnect (h : Z) (txs : list MsgTx)
| OpFlush (mode : FlushMode) (bestHash : bytes) (now : Z).

Section runs.
Context `{HashFns} `{Log2Conv} `{PubKeyFormats} `{!MapOrder OutPoint (option UtxoEntry)}.
Implicit Types D U V : UtxoSet.

Definition do_op (op : cache_op) (s : utxoCache) : result RuleErr utxoCache :=
  match op with
  | OpFetch ops => '(_, s) ← cache_fetchEntries ops s; Ok s
  | OpConnect h txs => '(_, s) ← cache_connect_loop txs h None s; Ok s
  | OpFlush mode bestHash now => flush mode bestHash now s
  end.

Fixpoint do_ops (ops : list cache_op) (s : utxoCache) : result RuleErr utxoCache :=
  match ops with
  | [] => Ok s
  | op :: ops => s ← do_op op s; do_ops ops s
  end.

(** The ledger along such a run: only blocks change it, by steps, and no
    transaction comes twice: its outputs are in none of the earlier ledgers
    [seen]. *)
Inductive ledger_run (maturity : Z) : list UtxoSet → list cache_op → UtxoSet → UtxoSet → Prop :=
| run_nil seen U : ledger_run maturity seen [] U U
| run_fetch seen fetched ops U U' :
    Forall wf_OutPoint fetched →
    ledger_run maturity seen ops U U' → ledger_run maturity seen (OpFetch fetched :: ops) U U'
| run_flush seen mode best now ops U U' :
    ledger_run maturity seen ops U U' → ledger_run maturity seen (OpFlush mode best now :: ops) U U'
| run_connect seen h txs css fees ops U U1 U' :
    Forall wf_MsgTx txs → height_ok h → Forall (λ tx, Forall output_fits (tx_TxOut tx)) txs →
    Forall (λ V, Forall (λ tx, fresh_tx tx V) txs) (U :: seen) →
    txs_step maturity h txs U css fees U1 →
    ledger_run maturity (U :: seen) ops U1 U' →
    ledger_run maturity seen (OpConnect h txs :: ops) U U'.

Lemma do_ops_ok maturity seen ops U U' s D :
  ledger_run maturity seen ops U U' → cache_repr s D U → D ∈ U :: seen →
  ∃ s' D', do_ops ops s = Ok s' ∧ cache_repr s' D' U'.
Proof.
  intros Hrun. revert s D. induction Hrun as [seen U|seen fetched ops U U' Hw _ IH|seen mode best now ops U U' _ IH
    |seen h txs css fees ops U U1 U' Hw Hh Hf Hfr Hs _ IH]; intros s D Hr HD; cbn [do_ops do_op].
  - by exists s, D.
  - destruct (cache_fetchEntries_ok s D U fetched Hr Hw) as (s1 & -> & Hr1 & _). cbn [mbind result_bind]. by eapply IH.
  - destruct (flush_ok s D U mode best now Hr) as (s1 & -> & [[_ ->]|(_ & Hr1 & _)]); cbn [mbind result_bind].
    + by eapply IH.
    + eapply IH; [exact Hr1|by left].
  - rewrite Forall_forall in Hfr. specialize (Hfr D HD).
    destruct (cache_connect_loop_ok s D U maturity h txs css fees U1 None Hr Hw Hh Hf Hfr Hs) as (s1 & -> & Hr1 & _).
    cbn [mbind result_bind]. eapply IH; [exact Hr1|by right].
Qed.

(** What the cache answers for an outpoint, and what the bucket holds after a
    required flush, are the ledger's coins. *)
Lemma cache_answers s D U op :
  cache_repr s D U → wf_OutPoint op →
  ∃ e s', cache_fetchEntries [op] s = Ok ([e], s') ∧ coin_of e = U !! op.
Proof.
  intros Hr Hw. destruct (cache_fetchEntries_ok s D U [op] Hr) as (s1 & -> & _); [by constructor|].
  eexists _, _. split; [done|]. symmetry. by apply (resolve_ok s D U op Hr Hw).
Qed.

Lemma required_flush s D U best now :
  cache_repr s D U →
  ∃ s', flush FlushRequired best now s = Ok s' ∧ cache_repr s' U U ∧ utxoStateConsistency (db s') = Some best ∧
    ∀ op, ms_get (cachedEntries s') op = None.
Proof.
  intros Hr. destruct (flush_ok s D U FlushRequired best now Hr) as (s' & E & [[Ef _]|(_ & Hr' & Hc & _ & He)]).
  - exfalso. unfold shouldFlush, totalMemoryUsage, ms_size in Ef.
    destruct (size_loop_total (E:=RuleErr) (maxEntries (cachedEntries s)) 0) as [r Er]. rewrite Er in Ef.
    cbn [mbind result_bind] in Ef. injection Ef as Ef. pose proof (u64_range (u64 r + totalEntryMemory s)). lia.
  - exists s'. split_and!; [done..|]. by apply He.
Qed.

(** C7 The cache is transparent: however loads, blocks and flushes are
    interleaved, and whatever the memory limits make it allocate, evict or
    write, it never fails, it answers every lookup with the ledger's coin, and a
    required flush leaves exactly the ledger's coins in the database and nothing
    in memory.  It needs transaction hashes that do not come back: see
    [stale_fresh_entry] for what a fresh entry does otherwise. *)
Theorem cache_refines_ledger maturity b D n c ops U best now :
  store_repr b D → coins_ok D → ledger_run maturity [] ops D U →
  ∃ s, do_ops ops (newUtxoCache (mkCacheDB b c) n) = Ok s ∧
    (∀ op, wf_OutPoint op → ∃ e s', cache_fetchEntries [op] s = Ok ([e], s') ∧ coin_of e = U !! op) ∧
    ∃ s', flush FlushRequired best now s = Ok s' ∧ store_repr (utxoBucket (db s')) U ∧
      utxoStateConsistency (db s') = Some best ∧ ∀ op, ms_get (cachedEntries s') op = None.
Proof.
  intros Hb HD Hrun. pose proof (newUtxoCache_repr b D n c Hb HD) as Hr.
  destruct (do_ops_ok _ _ _ _ _ _ D Hrun Hr) as (s & D' & E & Hr'); [by left|].
  exists s. split; [done|]. split; [intros op Hw; by eapply cache_answers|].
  destruct (required_flush s D' U best now Hr') as (s' & Ef & Hr2 & Hc & He).
  exists s'. split_and!; [done|apply Hr2|done|done].
Qed.
End runs.

(** The cache as a source of entries, for the checks of a block. *)
#[export] Program Instance cache_source `{HashFns} `{Log2Conv} `{PubKeyFormats} : UtxoSource utxoCache := {|
  fetchEntries := cache_fetchEntries;
  utxo_repr s U := ∃ D, cache_repr s D U
|}.
Next Obligation.
  intros ? ? ? s U ops [D Hr] Hw. destruct (cache_fetchEntries_ok s D U ops Hr Hw) as (s' & E & Hr' & _).
  eexists _, s'. split_and!; [exact E|by exists D|]. apply Forall2_fmap_r, Forall_Forall2_diag.
  eapply Forall_impl; [exact Hw|]. intros op Hop. symmetry. by apply (resolve_ok s D U op Hr Hop).
Qed.

(** ** Examples *)

#[export] Instance toy_log2 : Log2Conv := {| log2_nonpos _ := 0 |}.
#[export] Program Instance map_order_list K V `{Countable K} : MapOrder K V := {| map_order := map_to_list |}.
Next Obligation. done. Qed.

(** A block that creates a coin and, in the same or in a later block, spends it. *)
Definition cache_op0 : OutPoint := mkOutPoint (replicate 32 x11) 0.
Definition cache_coin0 : Coin := mkCoin 5000 [x51] 7 false.
Definition cache_tx1 : MsgTx := mkMsgTx 2 [mkTxIn cache_op0 [] [] 0] [mkTxOut 3000 [x51]; mkTxOut 2000 [x52]] 0.
Definition cache_tx2 : MsgTx := mkMsgTx 2 [mkTxIn (mkOutPoint (TxHash cache_tx1) 1) [] [] 0] [mkTxOut 1000 [x51]] 0.
Definition demo_ops : list cache_op :=
  [OpConnect 300 [cache_tx1]; OpFetch [cache_op0]; OpFlush FlushPeriodic (replicate 32 x01) 9; OpConnect 301 [cache_tx2]].
Definition cache_coins : UtxoSet := {[ cache_op0 := cache_coin0 ]}.
Definition cache_bucket : Bucket := {[ key_of cache_op0 := coin_code cache_coin0 ]}.

Lemma store_singleton op c : wf_OutPoint op → coin_ok c → store_repr {[ key_of op := coin_code c ]} {[ op := c ]} ∧ coins_ok {[ op := c ]}.
Proof.
  intros Hw Hc. destruct (stored_entry_coin c) as [Hs Ec]. split.
  - destruct (dbPutUtxoEntry_ok ∅ ∅ op (stored_entry c)) as [_ Hr]; [done|done|done|by rewrite Ec|]. by rewrite Ec in Hr.
  - by intros op' c' [<- <-]%lookup_singleton_Some.
Qed.

Lemma cache_coin0_ok : wf_OutPoint cache_op0 ∧ coin_ok cache_coin0.
Proof. split; by split_and!. Qed.

Lemma cache_txs_wf : Forall wf_MsgTx [cache_tx1] ∧ Forall wf_MsgTx [cache_tx2].
Proof.
  split; constructor; try done; unfold wf_MsgTx, wf_TxIn, wf_TxOut, wf_TxWitness, wf_OutPoint, wf_script;
    cbn [tx_Version tx_TxIn tx_TxOut tx_LockTime cache_tx1 cache_tx2]; split_and!; repeat constructor; vm_compute; congruence.
Qed.

Lemma cache_outs_fit tx : tx ∈ [cache_tx1; cache_tx2] → Forall output_fits (tx_TxOut tx).
Proof. intros [->|[->|?%elem_of_nil]%elem_of_cons]%elem_of_cons; repeat apply Forall_cons_2; done. Qed.

(** The ledgers of the example. *)
Definition cache_coins1 : UtxoSet := add_tx_coins 300 cache_tx1 (delete cache_op0 cache_coins).
Definition cache_coins2 : UtxoSet := add_tx_coins 301 cache_tx2 (delete (mkOutPoint (TxHash cache_tx1) 1) cache_coins1).

Lemma spend_one m h tx U op c fee :
  IsCoinBase tx = false → prevouts tx = [op] → U !! op = Some c → coin_coinbase c = false →
  fee = coin_amount c - total_value (tx_TxOut tx) → 0 <= fee →
  txs_step m h [tx] U [[c]] (fee + 0) (add_tx_coins h tx (delete op U)).
Proof.
  intros Hcb Hp Hc Hm Hfee Hf. eapply steps_cons; [|constructor]. apply step_spend; [done| | | |done].
  - rewrite Hp. cbn [take_coins]. by rewrite Hc.
  - constructor; [|done]. unfold mature. by rewrite Hm.
  - subst fee. cbn. lia.
Qed.

Lemma fresh_by_hash tx (U : UtxoSet) : map_Forall (λ op _, op_Hash op ≠ TxHash tx) U → fresh_tx tx U.
Proof.
  intros Hf op Eh _. destruct (U !! op) eqn:E; [|done]. exfalso. by apply (Hf _ _ E).
Qed.

Lemma demo_run : ledger_run 100 [] demo_ops cache_coins cache_coins2.
Proof.
  destruct cache_txs_wf as [Hw1 Hw2].
  eapply (run_connect 100 [] 300 [cache_tx1] [[cache_coin0]] 0); [done|done|apply Forall_singleton, cache_outs_fit; set_solver| |apply (spend_one _ _ _ _ cache_op0 cache_coin0 0); done|].
  { constructor; [|done]. constructor; [|done]. apply fresh_by_hash. apply (bool_decide_unpack _). by vm_compute. }
  apply run_fetch; [constructor; [apply cache_coin0_ok|done]|]. apply run_flush.
  eapply (run_connect 100 _ 301 [cache_tx2] [[mkCoin 2000 [x52] 300 false]] 1000); [done|done|apply Forall_singleton, cache_outs_fit; set_solver| |apply (spend_one _ _ _ _ (mkOutPoint (TxHash cache_tx1) 1) (mkCoin 2000 [x52] 300 false) 1000); done|constructor].
  constructor; [constructor; [|done]|constructor; [constructor; [|done]|done]]; apply fresh_by_hash; apply (bool_decide_unpack _); by vm_compute.
Qed.

Lemma cache_refines_ledger_witness :
  ∃ s, do_ops demo_ops (newUtxoCache (mkCacheDB cache_bucket None) 100000) = Ok s ∧
    (∀ op, wf_OutPoint op → ∃ e s', cache_fetchEntries [op] s = Ok ([e], s') ∧ coin_of e = cache_coins2 !! op) ∧
    ∃ s', flush FlushRequired (replicate 32 x02) 10 s = Ok s' ∧ store_repr (utxoBucket (db s')) cache_coins2 ∧
      utxoStateConsistency (db s') = Some (replicate 32 x02) ∧ ∀ op, ms_get (cachedEntries s') op = None.
Proof.
  destruct cache_coin0_ok as [Hw Hc]. destruct (store_singleton _ _ Hw Hc) as [Hb HD].
  exact (cache_refines_ledger 100 cache_bucket cache_coins 100000 None demo_ops cache_coins2 (replicate 32 x02) 10 Hb HD demo_run).
Defined.

(** A transaction whose output the bucket still holds, though spent in the
    cache: made again and spent again, its fresh entry is dropped from memory
    and the flush leaves the old coin in the bucket. *)
Definition cache_tx3 : MsgTx := mkMsgTx 2 [mkTxIn (mkOutPoint (TxHash cache_tx1) 1) [] [] 0] [mkTxOut 500 [x51]] 0.
Definition stale_op : OutPoint := mkOutPoint (TxHash cache_tx1) 1.
Definition stale_bucket : Bucket := <[key_of stale_op := coin_code (mkCoin 2000 [x52] 200 false)]> cache_bucket.
Definition stale_ops : list cache_op :=
  [OpConnect 300 [cache_tx2]; OpConnect 301 [cache_tx1]; OpConnect 302 [cache_tx3]; OpFlush FlushRequired (replicate 32 x01) 9].

Lemma stale_fresh_entry :
  match do_ops stale_ops (newUtxoCache (mkCacheDB stale_bucket None) 100000) with
  | Ok s => utxoBucket (db s) !! key_of stale_op = Some (coin_code (mkCoin 2000 [x52] 200 false))
  | _ => False
  end.
Proof. by vm_compute. Qed.
