(* ===== verification/ChainView.v ===== *)
(** * The view of the active chain (blockchain/chainview.go)

    A flat array of the nodes from the first block to a tip.  Nodes are compared
    by pointer in the code and by hash here; the theorems are about trees in
    which a hash identifies a node, [is_tree].  The exported methods only take
    the lock. *)
From Stdlib Require Import Lia ZArith.
From S2P Require Import Prelude Work ChainParams BlockIndex.

(** ** The logarithm *)

Definition log2FloorMasks : list Z := [0xffff0000; 0xff00; 0xf0; 0xc; 0x2].

(** The loop, on what is left of [log2FloorMasks]. *)
Fixpoint log2_loop (masks : list Z) (rv exponent n : Z) : Z :=
  match masks with
  | [] => rv
  | mask :: masks =>
      if negb (Z.land n mask =? 0)
      then log2_loop masks (u8 (rv + exponent)) (Z.shiftr exponent 1) (Z.shiftr n exponent)
      else log2_loop masks rv (Z.shiftr exponent 1) n
  end.

Definition fastLog2Floor (n : Z) : Z := log2_loop log2FloorMasks 0 16 n.

(** ** Views *)

(** [a == b] for pointers to nodes *)
Definition same (a b : option blockNode) : bool :=
  match a, b with
  | Some a, Some b => bool_decide (hash a = hash b)
  | None, None => true
  | _, _ => false
  end.

Record chainView := mkChainView { nodes : list (option blockNode) }.

Definition genesis (c : chainView) : option blockNode :=
  match nodes c with [] => None | n :: _ => n end.

Definition tip (c : chainView) : option blockNode := mjoin (last (nodes c)).

(** [for node != nil && c.nodes[node.height] != node] *)
Fixpoint set_loop (nodes : list (option blockNode)) (node : blockNode)
    : result Empty_set (list (option blockNode)) :=
  at_height ← go_index nodes (height node);
  if same at_height (Some node) then Ok nodes
  else
    let nodes := <[Z.to_nat (height node) := Some node]> nodes in
    match parent node with Some p => set_loop nodes p | None => Ok nodes end.

(** Both branches that size the array keep what fits and fill with [nil]. *)
Definition setTip (c : chainView) (node : option blockNode) : result Empty_set chainView :=
  match node with
  | None => Ok (mkChainView [])
  | Some node =>
      let needed := i32 (height node + 1) in
      if needed <? 0 then Panic
      else
        nodes ← set_loop (resize (Z.to_nat needed) None (nodes c)) node;
        Ok (mkChainView nodes)
  end.

Definition newChainView (tip : option blockNode) : result Empty_set chainView :=
  setTip (mkChainView []) tip.

Definition view_height (c : chainView) : Z := i32 (zlen (nodes c) - 1).

(** [height < int32(len(c.nodes))] is below the length even where it wraps. *)
Definition nodeByHeight (c : chainView) (height : Z) : option blockNode :=
  if (height <? 0) || (i32 (zlen (nodes c)) <=? height) then None
  else mjoin (nodes c !! Z.to_nat height).

Definition view_Equals (c other : chainView) : bool :=
  (zlen (nodes c) =? zlen (nodes other)) && same (tip c) (tip other).

Definition contains (c : chainView) (node : blockNode) : bool :=
  same (nodeByHeight c (height node)) (Some node).

Definition next (c : chainView) (node : option blockNode) : option blockNode :=
  match node with
  | None => None
  | Some n => if contains c n then nodeByHeight c (i32 (height n + 1)) else None
  end.

(** [for node != nil && !c.contains(node)] *)
Fixpoint fork_loop (c : chainView) (node : blockNode) : option blockNode :=
  if contains c node then Some node
  else match parent node with Some p => fork_loop c p | None => None end.

Definition findFork (c : chainView) (node : option blockNode) : option blockNode :=
  match node with
  | None => None
  | Some n =>
      let chainHeight := view_height c in
      let node := if chainHeight <? height n then Ancestor n chainHeight else Some n in
      match node with Some n => fork_loop c n | None => None end
  end.

(** ** Block locators *)

(** The capacity the locator is made with. *)
Definition maxEntries (node : blockNode) : Z :=
  if height node <=? 12 then u8 (u8 (height node) + 1)
  else u8 (12 + fastLog2Floor (u32 (u32 (height node) - 10))).

(** [for node != nil]; a node at a positive height is followed by a lower one,
    so [height + 1] rounds are enough. *)
Fixpoint locator_loop (fuel : nat) (c : chainView) (node : option blockNode) (step : Z) (locator : list bytes)
    : result Empty_set (list bytes) :=
  match fuel, node with
  | S fuel, Some n =>
      let locator := locator ++ [hash n] in
      if height n =? 0 then Ok locator
      else
        let height := i32 (height n - step) in
        let height := if height <? 0 then 0 else height in
        node ← (if contains c n then go_index (nodes c) height else Ok (Ancestor n height));
        locator_loop fuel c node (if 10 <? zlen locator then i32 (step * 2) else step) locator
  | _, _ => Ok locator
  end.

(** The empty list is [nil], for a view without a tip. *)
Definition blockLocator (c : chainView) (node : option blockNode) : result Empty_set (list bytes) :=
  let node := match node with Some n => Some n | None => tip c end in
  match node with
  | None => Ok []
  | Some n => locator_loop (S (Z.to_nat (height n))) c (Some n) 1 []
  end.

(** ** The branch of a node *)

(** The nodes from the first block to [n], both included. *)
Fixpoint branch (n : blockNode) : list blockNode :=
  match parent n with Some p => branch p | None => [] end ++ [n].

(** A set of nodes closed under parents, made by [newBlockNode] on one first
    block, in which a hash identifies a node. *)
Record is_tree (T : blockNode → Prop) : Prop := {
  tree_wf n : T n → node_wf n;
  tree_parent n p : T n → parent n = Some p → T p;
  tree_hash a b : T a → T b → hash a = hash b → a = b;
  tree_root a b : T a → T b → parent a = None → parent b = None → a = b;
}.

(** The view of the branch that ends at [t]. *)
Definition view_of (c : chainView) (t : option blockNode) : Prop :=
  nodes c = match t with Some t => Some <$> branch t | None => [] end.

Lemma branch_unfold n :
  branch n = match parent n with Some p => branch p | None => [] end ++ [n].
Proof. by destruct n. Qed.

Lemma elem_of_branch f n : f ∈ branch n ↔ f = n ∨ ∃ p, parent n = Some p ∧ f ∈ branch p.
Proof.
  rewrite branch_unfold, elem_of_app, list_elem_of_singleton.
  destruct (parent n) as [p|]; [|rewrite elem_of_nil]; naive_solver.
Qed.

Lemma length_branch n : node_wf n → zlen (branch n) = height n + 1.
Proof.
  induction 1 as [h st vs|h p st vs Hp IH Hlt]; [done|].
  rewrite branch_unfold. cbn [newBlockNode parent height]. pose proof (node_wf_height _ Hp).
  rewrite zlen_snoc, IH, i32_small by (unfold is_i32; lia). done.
Qed.

Lemma branch_last n : last (branch n) = Some n.
Proof. rewrite branch_unfold. by rewrite last_snoc. Qed.

(** The entry at the height of a node below is that node. *)
Lemma branch_lookup n i :
  node_wf n → branch n !! i = if decide (Z.of_nat i <= height n) then back (Z.to_nat (height n) - i) n else None.
Proof.
  induction 1 as [h st vs|h p st vs Hp IH Hlt].
  - cbn. destruct i; [done|]. by rewrite decide_False by (cbn; lia).
  - rewrite branch_unfold. cbn [newBlockNode parent height]. pose proof (node_wf_height _ Hp).
    pose proof (length_branch p Hp) as El. rewrite i32_small by (unfold is_i32; lia). unfold zlen in El.
    destruct (decide (Z.of_nat i <= height p)) as [Hi|Hi].
    + rewrite lookup_app_l, IH by lia. rewrite !decide_True by lia.
      replace (Z.to_nat (height p + 1) - i)%nat with (S (Z.to_nat (height p) - i)) by lia. done.
    + rewrite lookup_app_r by lia. destruct (decide (Z.of_nat i <= height p + 1)).
      * replace (i - _)%nat with 0%nat by lia.
        by replace (Z.to_nat (height p + 1) - i)%nat with 0%nat by lia.
      * by rewrite lookup_ge_None_2 by (cbn; lia).
Qed.

Lemma elem_of_branch_height a n : node_wf n → a ∈ branch n → branch n !! Z.to_nat (height a) = Some a ∧ 0 <= height a <= height n.
Proof.
  intros Hn [i Hi]%list_elem_of_lookup_1. rewrite branch_lookup in Hi by done.
  destruct (decide _) as [Hle|]; [|done]. destruct (back_wf _ _ _ Hn Hi) as [Ha Eh].
  pose proof (node_wf_height _ Hn).
  assert (Z.to_nat (height a) = i) as -> by lia.
  rewrite branch_lookup by done. rewrite decide_True by done. split; [done|lia].
Qed.

Lemma branch_self n : n ∈ branch n.
Proof. rewrite branch_unfold. apply elem_of_app. right. by apply list_elem_of_singleton. Qed.

(** The branch of a node of a branch is its start. *)
Lemma branch_prefix a n : node_wf n → a ∈ branch n → branch a = take (S (Z.to_nat (height a))) (branch n).
Proof.
  intros Hn Ha. induction Hn as [h st vs|h p st vs Hp IH Hlt].
  - apply list_elem_of_singleton in Ha as ->. done.
  - pose proof (wf_child h p st vs Hp Hlt) as Hn. set (n := newBlockNode h (Some p) st vs) in *.
    pose proof (length_branch n Hn) as El. unfold zlen in El.
    rewrite branch_unfold in Ha. apply elem_of_app in Ha as [Ha|Ha].
    + cbn [newBlockNode parent n] in Ha. rewrite IH by done.
      destruct (elem_of_branch_height _ _ Hp Ha) as [_ Hh].
      pose proof (length_branch p Hp) as Elp. unfold zlen in Elp.
      rewrite (branch_unfold n). cbn [newBlockNode parent n]. by rewrite take_app_le by lia.
    + apply list_elem_of_singleton in Ha as ->. rewrite take_ge; [done|]. pose proof (node_wf_height _ Hn). lia.
Qed.

Lemma branch_trans a b n : node_wf n → a ∈ branch b → b ∈ branch n → a ∈ branch n.
Proof.
  intros Hn Ha Hb. rewrite (branch_prefix b n Hn Hb) in Ha. by apply elem_of_take in Ha as (i & Hi & _); eapply list_elem_of_lookup_2.
Qed.

(** [Ancestor] in terms of the branch. *)
Lemma Ancestor_branch n t : node_wf n → 0 <= t <= height n → Ancestor n t = branch n !! Z.to_nat t.
Proof.
  intros Hn Ht. destruct (ancestor_loop_back n t Hn Ht) as (a & Ea & Eb). unfold Ancestor.
  rewrite (proj2 (orb_false_iff _ _)) by (split; apply Z.ltb_ge; lia). rewrite Ea.
  rewrite branch_lookup, decide_True by (done || lia).
  by replace (Z.to_nat (height n) - Z.to_nat t)%nat with (Z.to_nat (height n - t)) by lia.
Qed.

(** *** Locators *)

(** How far below the node the [k]-th entry of its locator is. *)
Definition offset (k : Z) : Z := if k <=? 10 then k else 9 + 2 ^ (k - 10).

(** The step taken after the [k]-th entry. *)
Definition step_at (k : Z) : Z := if k <=? 10 then 1 else i32 (2 ^ (k - 10)).

Lemma offset_small k h : 10 < k → offset k < h → h < 2 ^ 31 → 2 ^ (k - 10) < 2 ^ 31 ∧ k - 10 < 31.
Proof.
  unfold offset. destruct (Z.leb_spec k 10); [lia|]. intros. split; [lia|].
  apply (Z.pow_lt_mono_r_iff 2); lia.
Qed.

Lemma offset_mono k : 0 <= k → offset k < offset (k + 1).
Proof.
  intros. unfold offset. destruct (Z.leb_spec k 10), (Z.leb_spec (k + 1) 10); try lia.
  - assert (k = 10) as -> by lia. done.
  - replace (k + 1 - 10) with (Z.succ (k - 10)) by lia. rewrite Z.pow_succ_r by lia.
    pose proof (Z.pow_pos_nonneg 2 (k - 10) ltac:(lia) ltac:(lia)). lia.
Qed.

(** One round: the next height and the next step. *)
Lemma locator_step k h :
  0 <= k → 0 <= h < 2 ^ 31 → offset k < h →
  0 < step_at k < 2 ^ 31 ∧ offset (k + 1) = offset k + step_at k ∧
  (if 10 <? k + 1 then i32 (step_at k * 2) else step_at k) = step_at (k + 1).
Proof.
  intros Hk Hh Ho. destruct (Z.le_gt_cases k 10) as [Hle|Hgt].
  - unfold offset, step_at. rewrite (proj2 (Z.leb_le k 10) Hle).
    destruct (Z.ltb_spec 10 (k + 1)), (Z.leb_spec (k + 1) 10); try lia.
    assert (k = 10) as -> by lia. done.
  - destruct (offset_small k h Hgt Ho) as [Hp He]; [lia|].
    pose proof (Z.pow_pos_nonneg 2 (k - 10) ltac:(lia) ltac:(lia)).
    unfold offset, step_at. rewrite !(proj2 (Z.leb_gt _ 10)), (proj2 (Z.ltb_lt 10 _)) by lia.
    rewrite (i32_small (2 ^ (k - 10))) by (unfold is_i32; lia).
    replace (k + 1 - 10) with (Z.succ (k - 10)) by lia. rewrite Z.pow_succ_r by lia.
    split; [lia|]. split; [lia|]. f_equal. lia.
Qed.

(** The masked bits are set when [n] has a bit from [e] on. *)
Lemma mask_test e n :
  0 < e → 0 <= n < 2 ^ (2 * e) →
  (Z.land n (Z.shiftl (Z.ones e) e) =? 0) = (n <? 2 ^ e).
Proof.
  intros He Hn. assert (E : Z.land n (Z.shiftl (Z.ones e) e) = Z.shiftl (Z.shiftr n e) e).
  { apply Z.bits_inj'. intros i Hi. rewrite Z.land_spec, !Z.shiftl_spec by done.
    destruct (Z.le_gt_cases e i) as [Hle|Hlt].
    - rewrite Z.shiftr_spec by lia. replace (i - e + e) with i by lia.
      destruct (Z.le_gt_cases (2 * e) i) as [Hbig|Hsmall].
      + rewrite (Z.bits_above_log2 n i); [done|lia|].
        destruct (Z.eq_dec n 0) as [->|]; [cbn; lia|]. apply Z.log2_lt_pow2; [lia|].
        eapply Z.lt_le_trans; [apply Hn|]. apply Z.pow_le_mono_r; lia.
      + rewrite Z.ones_spec_low by lia. by rewrite andb_true_r.
    - rewrite !(Z.testbit_neg_r _ (i - e)) by lia. by rewrite andb_false_r. }
  rewrite E, Z.shiftl_mul_pow2, Z.shiftr_div_pow2 by lia.
  pose proof (Z.pow_pos_nonneg 2 e ltac:(lia) ltac:(lia)) as Hp.
  pose proof (Z.div_mod n (2 ^ e) ltac:(lia)). pose proof (Z.mod_pos_bound n (2 ^ e) Hp).
  destruct (Z.ltb_spec n (2 ^ e)).
  - rewrite Z.div_small by lia. done.
  - apply Z.eqb_neq. pose proof (Z.div_le_lower_bound n (2 ^ e) 1 Hp ltac:(lia)). nia.
Qed.

Lemma log2_loop_step e mask masks rv n :
  mask = Z.shiftl (Z.ones e) e → 0 < e → 0 <= n < 2 ^ (2 * e) → 0 <= rv → rv + e < 256 →
  ∃ rv' n', log2_loop (mask :: masks) rv e n = log2_loop masks rv' (Z.shiftr e 1) n' ∧
    0 <= n' < 2 ^ e ∧ rv' + Z.log2 n' = rv + Z.log2 n ∧ rv <= rv' <= rv + e.
Proof.
  intros -> He Hn Hrv Hs. cbn [log2_loop]. rewrite mask_test by lia.
  destruct (Z.ltb_spec n (2 ^ e)) as [Hlt|Hge]; cbn [negb].
  - exists rv, n. split; [done|]. lia.
  - exists (rv + e), (Z.shiftr n e). unfold u8. rewrite Z.mod_small by (change (2 ^ 8) with 256; lia).
    split; [done|]. pose proof (Z.pow_pos_nonneg 2 e ltac:(lia) ltac:(lia)). rewrite Z.log2_shiftr by lia.
    pose proof (Z.log2_le_mono _ _ Hge) as Hl. rewrite Z.log2_pow2 in Hl by lia.
    rewrite Z.shiftr_div_pow2 by lia. replace (2 * e) with (e + e) in Hn by lia. rewrite Z.pow_add_r in Hn by lia.
    split; [|lia]. split; [apply Z.div_pos; lia|]. apply Z.div_lt_upper_bound; lia.
Qed.

Lemma fastLog2Floor_spec n : is_u32 n → fastLog2Floor n = Z.log2 n.
Proof.
  intros Hn. unfold fastLog2Floor, log2FloorMasks.
  destruct (log2_loop_step 16 0xffff0000 [0xff00; 0xf0; 0xc; 0x2] 0 n) as (r1 & n1 & -> & H1 & E1 & Hr1); [done|done|exact Hn|done|done|].
  destruct (log2_loop_step 8 0xff00 [0xf0; 0xc; 0x2] r1 n1) as (r2 & n2 & E & H2 & E2 & Hr2); [done|done|exact H1|lia|lia|].
  change (Z.shiftr 16 1) with 8. rewrite E. clear E.
  destruct (log2_loop_step 4 0xf0 [0xc; 0x2] r2 n2) as (r3 & n3 & E & H3 & E3 & Hr3); [done|done|exact H2|lia|lia|].
  change (Z.shiftr 8 1) with 4. rewrite E. clear E.
  destruct (log2_loop_step 2 0xc [0x2] r3 n3) as (r4 & n4 & E & H4 & E4 & Hr4); [done|done|exact H3|lia|lia|].
  change (Z.shiftr 4 1) with 2. rewrite E. clear E.
  destruct (log2_loop_step 1 0x2 [] r4 n4) as (r5 & n5 & E & H5 & E5 & Hr5); [done|done|exact H4|lia|lia|].
  change (Z.shiftr 2 1) with 1. rewrite E. cbn [log2_loop].
  assert (n5 = 0 ∨ n5 = 1) as [-> | ->] by lia; cbn in E5; lia.
Qed.

(** The capacity is the least number of entries that reaches the first block. *)
Lemma maxEntries_least n k :
  0 <= height n < 2 ^ 31 → 0 < k → height n - offset (k - 1) <= 0 → (∀ i, 0 <= i < k - 1 → offset i < height n) →
  maxEntries n = k.
Proof.
  intros Hh Hk H1 H2. unfold maxEntries, u8, u32. destruct (Z.leb_spec (height n) 12) as [Hle|Hgt].
  - rewrite (Z.mod_small (height n)), Z.mod_small by lia.
    destruct (Z.eq_dec (height n) 12) as [E|Hne].
    + destruct (Z.le_gt_cases k 12); [|destruct (Z.le_gt_cases k 13); [lia|pose proof (H2 12 ltac:(lia)) as H3; cbn in H3; lia]].
      exfalso. unfold offset in H1. destruct (Z.leb_spec (k - 1) 10); [lia|]. assert (k = 12) as -> by lia.
      change (2 ^ (12 - 1 - 10)) with 2 in H1. lia.
    + destruct (Z.lt_trichotomy k (height n + 1)) as [Hlt|[->|Hlt]]; [|done|].
      * exfalso. unfold offset in H1. destruct (Z.leb_spec (k - 1) 10); lia.
      * exfalso. pose proof (H2 (height n) ltac:(lia)) as H3. unfold offset in H3.
        destruct (Z.leb_spec (height n) 10); [lia|]. assert (height n = 11) as E by lia. rewrite E in H3. cbn in H3. lia.
  - rewrite (Z.mod_small (height n)) by lia. rewrite (Z.mod_small (height n - 10)) by lia.
    rewrite fastLog2Floor_spec by (unfold is_u32; lia).
    pose proof (Z.log2_spec (height n - 10) ltac:(lia)) as [Hlo Hhi].
    set (L := Z.log2 (height n - 10)) in *.
    assert (1 <= L < 31).
    { split; [by apply (Z.log2_le_mono 2); lia|]. apply Z.log2_lt_pow2; lia. }
    rewrite Z.mod_small by (change (2 ^ 8) with 256; lia).
    destruct (Z.lt_trichotomy k (12 + L)) as [Hlt|[->|Hlt]]; [|done|].
    + exfalso. unfold offset in H1. destruct (Z.leb_spec (k - 1) 10); [lia|].
      pose proof (Z.pow_le_mono_r 2 (k - 1 - 10) L ltac:(lia) ltac:(lia)). lia.
    + exfalso. pose proof (H2 (11 + L) ltac:(lia)) as H3. unfold offset in H3.
      destruct (Z.leb_spec (11 + L) 10); [lia|]. replace (11 + L - 10) with (Z.succ L) in H3 by lia. lia.
Qed.

Lemma branch_lookup_prefix m n i :
  node_wf n → m ∈ branch n → 0 <= i <= height m → branch n !! Z.to_nat i = branch m !! Z.to_nat i.
Proof.
  intros Hn Hm Hi. rewrite (branch_prefix m n Hn Hm). by rewrite lookup_take_lt by lia.
Qed.

Section tree.
Context (T : blockNode → Prop) (HT : is_tree T).

Lemma same_eq a b : T a → T b → same (Some a) (Some b) = true ↔ a = b.
Proof.
  intros Ha Hb. cbn. rewrite bool_decide_eq_true. split; [by apply (tree_hash T HT)|congruence].
Qed.

Lemma branch_tree n : T n → Forall T (branch n).
Proof.
  intros Hn. assert (node_wf n) as Hw by by apply (tree_wf T HT).
  induction Hw as [h st vs|h p st vs Hp IH Hlt]; rewrite branch_unfold; cbn [newBlockNode parent].
  - by constructor.
  - apply Forall_app. split; [|by constructor]. apply IH. by apply (tree_parent T HT _ _ Hn).
Qed.

Lemma branch_T f n : T n → f ∈ branch n → T f.
Proof. intros Hn Hf. pose proof (branch_tree n Hn) as Hall. rewrite Forall_forall in Hall. auto. Qed.

(** ** The tip of a view *)

(** What the walk of [setTip] relies on: below the height of [n] the entries
    that are set belong to one branch each. *)
Definition consistent (l : list (option blockNode)) (h : Z) : Prop :=
  ∀ a, l !! Z.to_nat (height a) = Some (Some a) → height a <= h →
    T a ∧ take (S (Z.to_nat (height a))) l = Some <$> branch a.

(** Every entry is at its height. *)
Definition at_heights (l : list (option blockNode)) : Prop :=
  ∀ i a, l !! i = Some (Some a) → Z.of_nat i = height a.

Lemma take_insert_above {A} (l : list A) n i x : (n <= i)%nat → take n (<[i:=x]> l) = take n l.
Proof. intros. by apply take_insert_ge. Qed.

(** The walk replaces the entries up to the height of [n] by the branch of [n]
    and leaves those above. *)
Lemma set_loop_ok n l :
  T n → height n < zlen l → at_heights l → consistent l (height n) →
  set_loop l n = Ok ((Some <$> branch n) ++ drop (S (Z.to_nat (height n))) l).
Proof.
  intros Hn. assert (Hw : node_wf n) by by apply (tree_wf T HT).
  revert l. induction Hw as [h st vs|h p st vs Hp IH Hlt]; intros l Hlen Hh Hc.
  all: match type of Hn with T ?x => set (n := x) in * end.
  all: assert (Hw : node_wf n) by by apply (tree_wf T HT).
  all: pose proof (node_wf_height n Hw) as Hr.
  all: destruct (go_index_total (E:=Empty_set) l (height n)) as (x & Ex & Hx); [lia|].
  all: assert (Hnext : same x (Some n) = true → x = Some n).
  1,3: destruct x as [a|]; [|done]; cbn; rewrite bool_decide_eq_true; intros Ea; f_equal;
       pose proof (Hh _ _ Hx) as Eh; destruct (Hc a) as [Ha _];
       [replace (Z.to_nat (height a)) with (Z.to_nat (height n)) by lia; done|lia|by apply (tree_hash T HT)].
  - assert (E : set_loop l n = if same x (Some n) then Ok l else Ok (<[Z.to_nat (height n) := Some n]> l)).
    { unfold n. cbn [newBlockNode set_loop height parent]. change 0 with (height n). rewrite Ex. done. }
    rewrite E. destruct (same x (Some n)) eqn:Es.
    + rewrite Hnext in Hx by done. destruct (Hc n Hx ltac:(lia)) as [_ <-]. by rewrite take_drop.
    + f_equal. destruct l as [|y l]; [done|]. done.
  - pose proof (node_wf_height p Hp). assert (Ehn : height n = height p + 1).
    { unfold n. cbn [newBlockNode height]. rewrite i32_small by (unfold is_i32; lia). done. }
    assert (Epn : parent n = Some p) by done.
    assert (HTp : T p) by by apply (tree_parent T HT n).
    assert (E : set_loop l n = if same x (Some n) then Ok l else set_loop (<[Z.to_nat (height n) := Some n]> l) p).
    { assert (E0 : set_loop l n =
        at_height ← go_index l (height n);
        if same at_height (Some n) then Ok l
        else match parent n with Some p => set_loop (<[Z.to_nat (height n) := Some n]> l) p
             | None => Ok (<[Z.to_nat (height n) := Some n]> l) end) by done.
      rewrite E0, Ex, Epn. done. }
    rewrite E. destruct (same x (Some n)) eqn:Es.
    + rewrite Hnext in Hx by done. destruct (Hc n Hx ltac:(lia)) as [_ <-]. by rewrite take_drop.
    + rewrite IH; [|done| | |].
      * f_equal. rewrite (branch_unfold n), Epn, fmap_app, <-(assoc_L (++)). f_equal. cbn [fmap list_fmap app].
        replace (S (Z.to_nat (height p))) with (Z.to_nat (height n)) by lia.
        rewrite drop_insert_ge, Nat.sub_diag by lia. by rewrite (drop_S _ _ _ Hx).
      * unfold zlen in *. rewrite length_insert. lia.
      * intros i a [[<- Ea]|[Hne Hi]]%list_lookup_insert_Some; [|by apply Hh].
        destruct Ea as [[= <-] _]. lia.
      * intros a Ha Hle. rewrite list_lookup_insert_ne in Ha by lia.
        rewrite take_insert_above by lia. apply Hc; [done|lia].
Qed.

(** The array [setTip] sizes. *)
Lemma resized c t m :
  view_of c t → (∀ n, t = Some n → T n) →
  let l := resize m None (nodes c) in at_heights l ∧ ∀ h, consistent l h.
Proof.
  intros Hv Ht l. assert (Hl : ∀ i a, l !! i = Some (Some a) →
    ∃ n, t = Some n ∧ T n ∧ branch n !! i = Some a ∧ (i < m)%nat).
  { intros i a Hi. unfold l in Hi. rewrite resize_spec, Hv in Hi.
    apply lookup_app_Some in Hi as [Hi|[_ [Hi _]%lookup_replicate]]; [|done].
    apply lookup_take_Some in Hi as [Hi Hlt]. destruct t as [n|]; [|done].
    apply list_lookup_fmap_Some in Hi as (b & [= ->] & Hb). eauto 10. }
  split.
  - intros i a (n & _ & Hn & Hi & _)%Hl. pose proof (tree_wf T HT n Hn) as Hw.
    destruct (elem_of_branch_height a n Hw) as [Ha Hr]; [by eapply list_elem_of_lookup_2|].
    rewrite branch_lookup in Hi by done. destruct (decide _); [|done].
    destruct (back_wf _ _ _ Hw Hi). pose proof (node_wf_height n Hw). lia.
  - intros h a Ha _. apply Hl in Ha as (n & -> & Hn & Hi & Hm). pose proof (tree_wf T HT n Hn) as Hw.
    pose proof (list_elem_of_lookup_2 _ _ _ Hi) as Hin. pose proof (branch_tree n Hn) as Hall.
    rewrite Forall_forall in Hall. split; [by apply Hall|].
    pose proof (lookup_lt_Some _ _ _ Hi). rewrite (branch_prefix a n Hw Hin), fmap_take.
    unfold l. rewrite Hv, resize_spec, take_app_le.
    + rewrite take_take, Nat.min_l by lia. done.
    + rewrite length_take, length_fmap. lia.
Qed.

Lemma setTip_ok c t n :
  view_of c t → (∀ n, t = Some n → T n) → T n → height n < 2 ^ 31 - 1 →
  ∃ c', setTip c (Some n) = Ok c' ∧ view_of c' (Some n).
Proof.
  intros Hv Ht Hn Hmax. pose proof (tree_wf T HT n Hn) as Hw. pose proof (node_wf_height n Hw).
  unfold setTip. rewrite i32_small by (unfold is_i32; lia). rewrite (proj2 (Z.ltb_ge _ _)) by lia.
  destruct (resized c t (Z.to_nat (height n + 1)) Hv Ht) as [Hh Hc].
  assert (El : zlen (resize (Z.to_nat (height n + 1)) None (nodes c)) = height n + 1).
  { unfold zlen. rewrite length_resize. lia. }
  rewrite set_loop_ok; [|done|lia|done|done]. eexists. split; [done|].
  unfold view_of. cbn [nodes]. rewrite drop_ge; [by rewrite app_nil_r|]. unfold zlen in El. lia.
Qed.

(** *** Reading a view *)

Section view.
Context (c : chainView) (t : blockNode) (Hv : view_of c (Some t)) (Ht : T t) (Hmax : height t < 2 ^ 31 - 1).
Let Hw : node_wf t := tree_wf T HT t Ht.

Lemma view_length : zlen (nodes c) = height t + 1 ∧ i32 (zlen (nodes c)) = height t + 1 ∧ view_height c = height t.
Proof.
  pose proof (node_wf_height t Hw). pose proof (length_branch t Hw) as El.
  assert (E : zlen (nodes c) = height t + 1).
  { rewrite Hv. unfold zlen in *. rewrite length_fmap. done. }
  unfold view_height. rewrite E, !i32_small by (unfold is_i32; lia). split_and!; lia.
Qed.

Lemma tip_view : tip c = Some t.
Proof. unfold tip. by rewrite Hv, fmap_last, branch_last. Qed.

Lemma nodeByHeight_view h : nodeByHeight c h = if decide (0 <= h <= height t) then branch t !! Z.to_nat h else None.
Proof.
  destruct view_length as (El & E & _). unfold nodeByHeight. rewrite E.
  destruct (Z.ltb_spec h 0); cbn [orb]; [by rewrite decide_False by lia|].
  destruct (Z.leb_spec (height t + 1) h); [by rewrite decide_False by lia|].
  rewrite decide_True, Hv, list_lookup_fmap by lia. by destruct (branch t !! _).
Qed.

Lemma nodeByHeight_tree h a : nodeByHeight c h = Some a → T a ∧ a ∈ branch t.
Proof.
  rewrite nodeByHeight_view. destruct (decide _); [|done]. intros Ha%list_elem_of_lookup_2.
  split; [|done]. pose proof (branch_tree t Ht) as Hall. rewrite Forall_forall in Hall. auto.
Qed.

Lemma contains_view n : T n → contains c n = true ↔ n ∈ branch t.
Proof.
  intros Hn. unfold contains. split.
  - destruct (nodeByHeight c (height n)) as [a|] eqn:Ea; [|done]. apply nodeByHeight_tree in Ea as [HTa Hin].
    intros Es%same_eq; [|done..]. by subst.
  - intros Hin. destruct (elem_of_branch_height n t Hw Hin) as [Hi Hr].
    rewrite nodeByHeight_view, decide_True, Hi by lia. by apply same_eq.
Qed.

Lemma contains_false n : T n → contains c n = false ↔ n ∉ branch t.
Proof. intros Hn. rewrite <-(contains_view n Hn). destruct (contains c n); naive_solver. Qed.

Lemma next_view n : T n → n ∈ branch t → next c (Some n) = branch t !! S (Z.to_nat (height n)).
Proof.
  intros Hn Hin. destruct (elem_of_branch_height n t Hw Hin) as [_ Hr]. cbn [next].
  rewrite (proj2 (contains_view n Hn) Hin), i32_small by (unfold is_i32; lia).
  rewrite nodeByHeight_view. destruct (decide _).
  - by replace (Z.to_nat (height n + 1)) with (S (Z.to_nat (height n))) by lia.
  - rewrite lookup_ge_None_2; [done|]. pose proof (length_branch t Hw) as El. unfold zlen in El. lia.
Qed.

(** *** The fork point *)

(** The last node of the branch of [n] that is in the branch of [t]. *)
Definition fork_point (n f : blockNode) : Prop :=
  f ∈ branch n ∧ f ∈ branch t ∧ ∀ a, a ∈ branch n → a ∈ branch t → a ∈ branch f.

Lemma genesis_shared n : T n → ∃ g, T g ∧ g ∈ branch n ∧ g ∈ branch t ∧ height g = 0.
Proof.
  intros Hn. assert (Hg : ∀ m, T m → ∃ g, T g ∧ parent g = None ∧ g ∈ branch m ∧ height g = 0).
  { clear n Hn. intros m Hm. pose proof (tree_wf T HT m Hm) as Hwm.
    induction Hwm as [h st vs|h p st vs Hp IH Hlt].
    - eexists. split_and!; [exact Hm|done|by left|done].
    - destruct IH as (g & Hg1 & Hg2 & Hg3 & Hg4); [by apply (tree_parent T HT _ _ Hm)|].
      exists g. split_and!; [done|done| |done]. rewrite branch_unfold. apply elem_of_app. by left. }
  destruct (Hg n Hn) as (g & Hg1 & Hg2 & Hg3 & Hg4). destruct (Hg t Ht) as (g' & Hg1' & Hg2' & Hg3' & _).
  exists g. rewrite (tree_root T HT g g') in * by done. done.
Qed.

Lemma fork_loop_view n : T n → ∃ f, fork_loop c n = Some f ∧ T f ∧ fork_point n f.
Proof.
  intros Hn. pose proof (tree_wf T HT n Hn) as Hwn.
  induction Hwn as [h st vs|h p st vs Hp IH Hlt].
  all: match type of Hn with T ?x => set (n := x) in * end.
  all: assert (Eu : fork_loop c n = if contains c n then Some n else
                      match parent n with Some p => fork_loop c p | None => None end) by done.
  all: rewrite Eu; destruct (contains c n) eqn:Ec.
  1,3: apply contains_view in Ec; [exists n|done]; do 2 (split; [done|]); split; [apply branch_self|by split].
  all: apply contains_false in Ec; [|done].
  - destruct (genesis_shared n Hn) as (g & _ & Hgn & Hgt & _). apply list_elem_of_singleton in Hgn as ->. done.
  - destruct (IH (tree_parent T HT n p Hn eq_refl)) as (f & Ef & HTf & Hf1 & Hf2 & Hf3).
    exists f. change (parent n) with (Some p). split; [done|]. split; [done|]. split; [|split].
    + rewrite branch_unfold. apply elem_of_app. by left.
    + done.
    + intros a Ha Hat. rewrite branch_unfold in Ha. apply elem_of_app in Ha as [Ha| ->%list_elem_of_singleton]; [|done].
      by apply Hf3.
Qed.

Lemma findFork_view n : T n → ∃ f, findFork c (Some n) = Some f ∧ T f ∧ fork_point n f.
Proof.
  intros Hn. pose proof (tree_wf T HT n Hn) as Hwn. destruct view_length as (_ & _ & Eh).
  cbn [findFork]. rewrite Eh. destruct (Z.ltb_spec (height t) (height n)) as [Hlt|Hle]; [|by apply fork_loop_view].
  pose proof (node_wf_height t Hw).
  rewrite Ancestor_branch by (done || lia).
  destruct (lookup_lt_is_Some_2 (branch n) (Z.to_nat (height t))) as [m Hm].
  { pose proof (length_branch n Hwn) as El. unfold zlen in El. lia. }
  rewrite Hm. pose proof (list_elem_of_lookup_2 _ _ _ Hm) as Hin. pose proof (branch_tree n Hn) as Hall.
  rewrite Forall_forall in Hall. destruct (fork_loop_view m) as (f & Ef & HTf & Hf1 & Hf2 & Hf3); [by apply Hall|].
  exists f. split; [done|]. split; [done|]. split; [by apply (branch_trans f m n)|split; [done|]].
  intros a Ha Hat. apply Hf3; [|done].
  rewrite branch_lookup in Hm by done. destruct (decide _); [|done].
  destruct (back_wf _ _ _ Hwn Hm) as [_ Ehm].
  destruct (elem_of_branch_height a n Hwn Ha) as [Hia _]. destruct (elem_of_branch_height a t Hw Hat) as [_ Hra].
  rewrite (branch_prefix m n Hwn Hin). eapply elem_of_take. exists (Z.to_nat (height a)). split; [done|lia].
Qed.

(** *** The locator of a node *)

Lemma locator_next m i :
  T m → 0 <= i <= height m →
  (if contains c m then go_index (nodes c) i else Ok (Ancestor m i)) = Ok (E:=Empty_set) (branch m !! Z.to_nat i).
Proof.
  intros Hm Hi. pose proof (tree_wf T HT m Hm) as Hwm. destruct (contains c m) eqn:Ec.
  - apply contains_view in Ec; [|done]. destruct (elem_of_branch_height m t Hw Ec) as [_ Hr].
    apply go_index_ok. split; [lia|]. rewrite Hv, list_lookup_fmap, (branch_lookup_prefix m t) by done.
    pose proof (length_branch m Hwm) as El. unfold zlen in El.
    destruct (lookup_lt_is_Some_2 (branch m) (Z.to_nat i)) as [a ->]; [lia|done].
  - by rewrite Ancestor_branch by (done || lia).
Qed.

(** What the loop adds from the [k]-th entry on. *)
Definition locator_tail (n : blockNode) (k : Z) (l : list blockNode) : Prop :=
  ∀ j a, l !! j = Some a →
    a ∈ branch n ∧ height a = Z.max 0 (height n - offset (k + Z.of_nat j)) ∧ (height a = 0 ↔ S j = length l).

Lemma locator_loop_view n fuel k m loc :
  T n → m ∈ branch n → 0 <= k → height m = Z.max 0 (height n - offset k) → (Z.to_nat (height m) < fuel)%nat →
  zlen loc = k →
  ∃ l, locator_loop fuel c (Some m) (step_at k) loc = Ok (loc ++ (hash <$> l)) ∧ locator_tail n k l ∧ l ≠ [].
Proof.
  intros Hn. pose proof (tree_wf T HT n Hn) as Hwn. pose proof (node_wf_height n Hwn) as Hhn.
  pose proof (branch_tree n Hn) as Hall. rewrite Forall_forall in Hall.
  revert k m loc. induction fuel as [|fuel IH]; intros k m loc Hm Hk Hh Hf Hloc; [lia|].
  cbn [locator_loop]. destruct (Z.eqb_spec (height m) 0) as [H0|Hpos].
  { exists [m]. split; [done|]. split; [|done]. intros [|j] a [= <-].
    rewrite Z.add_0_r. done. }
  destruct (locator_step k (height n)) as (Hs & Ho & Hst); [done|lia|lia|].
  pose proof (elem_of_branch_height m n Hwn Hm) as [_ Hr].
  set (i := if i32 (height m - step_at k) <? 0 then 0 else i32 (height m - step_at k)).
  assert (Ei : i = Z.max 0 (height n - offset (k + 1))).
  { unfold i. rewrite i32_small by (unfold is_i32; lia). destruct (Z.ltb_spec (height m - step_at k) 0); lia. }
  rewrite locator_next by (auto || lia). cbn [mbind result_bind].
  destruct (elem_of_branch_height m n Hwn Hm) as [Hi _].
  pose proof (tree_wf T HT m (Hall m Hm)) as Hwm.
  destruct (lookup_lt_is_Some_2 (branch m) (Z.to_nat i)) as [m' Hm'].
  { pose proof (length_branch m Hwm) as El. unfold zlen in El. lia. }
  rewrite Hm', zlen_snoc, Hloc, Hst.
  pose proof (list_elem_of_lookup_2 _ _ _ Hm') as Hin'.
  destruct (elem_of_branch_height m' m Hwm Hin') as [Hl' Hr'].
  assert (Eh : height m' = i).
  { rewrite branch_lookup in Hm' by done. destruct (decide _); [|done]. destruct (back_wf _ _ _ Hwm Hm') as [_ ->]. lia. }
  destruct (IH (k + 1) m' (loc ++ [hash m])) as (l & El & Hl & Hne).
  { by apply (branch_trans m' m n). }
  { lia. }
  { lia. }
  { lia. }
  { by rewrite zlen_snoc, Hloc. }
  exists (m :: l). rewrite El, <-(assoc_L (++)). split; [done|]. split; [|done].
  intros [|j] a Ha.
  - injection Ha as <-. rewrite Z.add_0_r. split_and!; [done|done|]. destruct l; [done|]. cbn [length]. lia.
  - destruct (Hl j a Ha) as (H1 & H2 & H3). split_and!; [done| |cbn [length]; lia].
    rewrite H2. do 3 f_equal. lia.
Qed.

(** The number of entries is the capacity computed for them. *)
Lemma locator_length n l : T n → locator_tail n 0 l → l ≠ [] → zlen l = maxEntries n.
Proof.
  intros Hn Hl Hne. pose proof (node_wf_height n (tree_wf T HT n Hn)) as Hh.
  assert (Hlast : height n - offset (zlen l - 1) <= 0 ∧ ∀ k, 0 <= k < zlen l - 1 → offset k < height n).
  { unfold zlen. assert (0 < length l)%nat by (by destruct l; [|cbn; lia]). split.
    - destruct (lookup_lt_is_Some_2 l (length l - 1)) as [a Ha]; [lia|].
      destruct (Hl _ _ Ha) as (_ & E & E0). replace (Z.of_nat (length l) - 1) with (0 + Z.of_nat (length l - 1)) by lia.
      lia.
    - intros k Hk. destruct (lookup_lt_is_Some_2 l (Z.to_nat k)) as [a Ha]; [lia|].
      destruct (Hl _ _ Ha) as (_ & E & E0). rewrite Z2Nat.id in E by lia. rewrite Z.add_0_l in E. lia. }
  destruct Hlast as [H1 H2]. symmetry. by apply (maxEntries_least n (zlen l)); [|destruct l; [|rewrite zlen_cons; pose proof (zlen_nonneg l); lia]| |].
Qed.

Lemma blockLocator_view n :
  T n → ∃ l, blockLocator c (Some n) = Ok (hash <$> l) ∧ locator_tail n 0 l ∧ zlen l = maxEntries n.
Proof.
  intros Hn. destruct (locator_loop_view n (S (Z.to_nat (height n))) 0 n []) as (l & El & Hl & Hne);
    [done|apply branch_self|done| |lia|done|].
  { pose proof (node_wf_height n (tree_wf T HT n Hn)). cbn. lia. }
  exists l. split; [done|]. split; [done|]. by apply locator_length.
Qed.
End view.
End tree.

(** ** Growing a tree *)

Lemma tree_single h st vs : is_tree (eq (newBlockNode h None st vs)).
Proof.
  split.
  - intros n <-. apply wf_genesis.
  - by intros n p <-.
  - by intros a b <- <-.
  - by intros a b <- <-.
Qed.

Lemma tree_extend T h p st vs :
  is_tree T → T p → height p + 1 < 2 ^ 31 → (∀ a, T a → hash a ≠ h_hash h) →
  is_tree (λ n, T n ∨ n = newBlockNode h (Some p) st vs).
Proof.
  intros HT Hp Hlt Hh. split.
  - intros n [Hn| ->]; [by apply (tree_wf T HT)|]. apply wf_child; [by apply (tree_wf T HT)|done].
  - intros n q [Hn| ->]; [left; by apply (tree_parent T HT n)|]. intros [= <-]. by left.
  - intros a b [Ha| ->] [Hb| ->] E; [by apply (tree_hash T HT)| | |done].
    + by destruct (Hh a Ha).
    + by destruct (Hh b Hb).
  - intros a b [Ha| ->] [Hb| ->] Ea Eb; [by apply (tree_root T HT)|done..].
Qed.

(** ** The view refines the branch of its tip *)

(** C10 The array of a chain view stands for the branch of its tip.  Setting the
    tip, from whatever branch, a fork or a shorter one included, gives the view
    of the new branch; [contains] is membership; [findFork] is the last common
    node; [nodeByHeight] and [next] read the branch.  The tree is any whose
    nodes have distinct hashes and one first block. *)
Theorem chain_view_refines T c t n :
  is_tree T → view_of c (Some t) → T t → T n → height t < 2 ^ 31 - 1 → height n < 2 ^ 31 - 1 →
  (∃ c', setTip c (Some n) = Ok c' ∧ view_of c' (Some n)) ∧
  (contains c n = true ↔ n ∈ branch t) ∧
  (∃ f, findFork c (Some n) = Some f ∧ fork_point t n f) ∧
  (∀ h, nodeByHeight c h = if decide (0 <= h <= height t) then branch t !! Z.to_nat h else None) ∧
  next c (Some n) = (if contains c n then branch t !! S (Z.to_nat (height n)) else None).
Proof.
  intros HT Hv Ht Hn Hmt Hmn. split_and!.
  - apply (setTip_ok T HT c (Some t)); [done| |done|done]. by intros ? [= <-].
  - by apply (contains_view T HT).
  - destruct (findFork_view T HT c t Hv Ht Hmt n Hn) as (f & ? & _ & ?). eauto.
  - intros h. by apply (nodeByHeight_view T HT).
  - destruct (contains c n) eqn:Ec; [|cbn [next]; by rewrite Ec].
    apply (next_view T HT c t Hv Ht Hmt n Hn). by apply (contains_view T HT c t Hv Ht Hmt n Hn).
Qed.

(** The locator of a node, on the view's branch or off it: the node, the ten
    before it, then at doubling distances, ending with the first block; as many
    entries as the list is made with room for. *)
Theorem blockLocator_spec T c t n :
  is_tree T → view_of c (Some t) → T t → T n → height t < 2 ^ 31 - 1 →
  ∃ l, blockLocator c (Some n) = Ok (hash <$> l) ∧ zlen l = maxEntries n ∧
    ∀ j a, l !! j = Some a →
      a ∈ branch n ∧ height a = Z.max 0 (height n - offset (Z.of_nat j)) ∧ (height a = 0 ↔ S j = length l).
Proof.
  intros HT Hv Ht Hn Hm. destruct (blockLocator_view T HT c t Hv Ht Hm n Hn) as (l & E & Hl & Hz).
  exists l. split; [done|]. split; [done|]. intros j a Ha. by apply (Hl j a).
Qed.

(** ** Examples *)

(** A chain of 40 blocks and a block on its thirtieth. *)
Fixpoint demo_tree (k : nat) : blockNode → Prop :=
  match k with O => eq (demo_chain 0) | S k' => λ n, demo_tree k' n ∨ n = demo_chain k end.

Lemma demo_tree_hash k n : demo_tree k n → ∃ j, (j <= k)%nat ∧ n = demo_chain j.
Proof.
  induction k as [|k IH]; [intros <-; by exists 0%nat|].
  intros [Hn| ->]; [|by exists (S k)]. destruct (IH Hn) as (j & ? & ->). exists j. auto with lia.
Qed.

Lemma le_put_32_inj a b : is_u32 a → is_u32 b → le_put 32 a = le_put 32 b → a = b.
Proof.
  unfold is_u32. intros Ha Hb E%(f_equal le_get). assert (2 ^ 32 < 256 ^ Z.of_nat 32) by done.
  rewrite !le_get_put_small in E by lia. done.
Qed.

Lemma demo_hash k : hash (demo_chain k) = le_put 32 (Z.of_nat k).
Proof. by destruct k. Qed.

Lemma demo_tree_ok k : (k < 100)%nat → is_tree (demo_tree k) ∧ demo_tree k (demo_chain k).
Proof.
  induction k as [|k IH]; intros Hk; [split; [apply tree_single|done]|].
  destruct (IH ltac:(lia)) as [HT Hin]. split; [|by right].
  apply (tree_extend (demo_tree k) _ (demo_chain k) statusNone 0); [done|done| |].
  - destruct (demo_chain_wf k ltac:(lia)) as [_ ->]. lia.
  - intros a (j & Hj & ->)%demo_tree_hash. rewrite demo_hash. intros E%le_put_32_inj; unfold is_u32; lia.
Qed.

Definition demo_side : blockNode :=
  newBlockNode {| h_hash := le_put 32 1000; h_version := 1; h_merkleRoot := le_put 32 0; h_timestamp := 1700010000;
    h_bits := 0x1b00ffff; h_proofCommitment := le_put 32 0 |} (Some (demo_chain 30)) statusNone 0.

Definition demo_fork (n : blockNode) : Prop := demo_tree 40 n ∨ n = demo_side.

Lemma demo_tree_mono j k n : (j <= k)%nat → demo_tree j n → demo_tree k n.
Proof. induction 1; [done|]. intros Hn. left. auto. Qed.

Lemma demo_fork_ok : is_tree demo_fork.
Proof.
  apply (tree_extend (demo_tree 40) _ (demo_chain 30) statusNone 0); [by apply demo_tree_ok; lia| | |].
  - apply (demo_tree_mono 30); [lia|]. by apply demo_tree_ok; lia.
  - destruct (demo_chain_wf 30 ltac:(lia)) as [_ ->]. lia.
  - intros a (j & Hj & ->)%demo_tree_hash. rewrite demo_hash. intros E%le_put_32_inj; unfold is_u32; lia.
Qed.

Definition demo_view : chainView := mkChainView (Some <$> branch (demo_chain 40)).

Lemma demo_view_ok : view_of demo_view (Some (demo_chain 40)).
Proof. unfold view_of, demo_view. cbn [nodes]. reflexivity. Qed.

Lemma demo_fork_nodes : demo_fork (demo_chain 40) ∧ demo_fork demo_side.
Proof. split; [left; by apply demo_tree_ok; lia|by right]. Qed.

Lemma chain_view_refines_witness :
  (∃ c', setTip demo_view (Some demo_side) = Ok c' ∧ view_of c' (Some demo_side)) ∧
  findFork demo_view (Some demo_side) = Some (demo_chain 30).
Proof.
  split; [|by vm_compute].
  exact (proj1 (chain_view_refines demo_fork demo_view (demo_chain 40) demo_side demo_fork_ok demo_view_ok
    (proj1 demo_fork_nodes) (proj2 demo_fork_nodes) ltac:(by vm_compute) ltac:(by vm_compute))).
Defined.

(** The heights of the entries, here the numbers in the hashes: the block on the
    side, then those of the chain it stands on. *)
Lemma demo_locator :
  match blockLocator demo_view (Some demo_side) with
  | Ok l => le_get <$> l = [1000; 30; 29; 28; 27; 26; 25; 24; 23; 22; 21; 20; 18; 14; 6; 0]
  | _ => False
  end.
Proof. by vm_compute. Qed.

Lemma blockLocator_spec_witness :
  ∃ l, blockLocator demo_view (Some demo_side) = Ok (hash <$> l) ∧ zlen l = maxEntries demo_side ∧
    ∀ j a, l !! j = Some a →
      a ∈ branch demo_side ∧ height a = Z.max 0 (height demo_side - offset (Z.of_nat j)) ∧
      (height a = 0 ↔ S j = length l).
Proof.
  exact (blockLocator_spec demo_fork demo_view (demo_chain 40) demo_side demo_fork_ok demo_view_ok
    (proj1 demo_fork_nodes) (proj2 demo_fork_nodes) ltac:(by vm_compute)).
Defined.
