(* ===== verification/Disconnect.v ===== *)
(** * Disconnecting a block undoes it

    Loading what a block spent, [disconnectTransactions] with the block's spend
    journal, and writing the view to the bucket restore the coins there were
    before the block was connected. *)
From stdpp Require Import fin_maps strings.
From Stdlib Require Import Lia ZArith.
From S2P Require Import Prelude Wire MsgTx ScriptError Taproot Crypto SigCache SigHash Engine EngineExec ChainParams BlockIndex Subsidy RuleError TxRules Compress UtxoView Ledger ConnectBlock ConnectSpec UtxoStore SizeHelper UtxoCache UtxoCacheSpec.

(** ** Blocks of the ledger *)

Section ledger_app.
Context `{HashFns}.

Lemma txs_step_app maturity h l k U css fees W :
  txs_step maturity h (l ++ k) U css fees W →
  ∃ css1 css2 f1 f2 V, css = css1 ++ css2 ∧ length css1 = length l ∧
    txs_step maturity h l U css1 f1 V ∧ txs_step maturity h k V css2 f2 W.
Proof.
  revert U css fees. induction l as [|tx l IH]; intros U css fees Hs.
  { exists [], css, 0, fees, U. split_and!; [done|done|constructor|done]. }
  inversion Hs as [|? ? ? cs fee U1 css' fees' ? Hs1 Hss]; subst.
  destruct (IH _ _ _ Hss) as (c1 & c2 & f1 & f2 & V & -> & El & H1 & H2).
  exists (cs :: c1), c2, (fee + f1), f2, V. split_and!; [done|cbn; lia|by eapply steps_cons|done].
Qed.

Lemma txs_step_one maturity h tx U css fees W :
  txs_step maturity h [tx] U css fees W → ∃ cs fee, css = [cs] ∧ tx_step maturity h tx U cs fee W.
Proof.
  inversion 1 as [|? ? ? cs fee U1 css' fees' ? Hs1 Hss]; subst. inversion Hss; subst. eauto.
Qed.

(** The outputs of these transactions that are added to the ledger. *)
Definition spendable_of (txs : list MsgTx) (op : OutPoint) : Prop :=
  ∃ tx o, tx ∈ txs ∧ spendable_out tx op = Some o.

Lemma spendable_of_snoc txs tx op :
  spendable_of (txs ++ [tx]) op ↔ spendable_of txs op ∨ is_Some (spendable_out tx op).
Proof.
  unfold spendable_of, is_Some. setoid_rewrite elem_of_app. setoid_rewrite list_elem_of_singleton. naive_solver.
Qed.

Lemma txs_step_fresh maturity h txs U css fees W t :
  txs_step maturity h txs U css fees W → TxHash t ∉ TxHash <$> txs → fresh_tx t U → fresh_tx t W.
Proof.
  induction 1 as [|tx txs U cs fee U1 css fees U2 Hs Hss IH]; [done|].
  cbn [fmap list_fmap]. intros [Hne Hni]%not_elem_of_cons Hf. apply IH; [done|]. by eapply tx_step_fresh.
Qed.
End ledger_app.

(** ** Flags of entries *)

(** The entry [disconnectTransactions] makes of a journal entry. *)
Definition restored (c : Coin) : UtxoEntry :=
  mkUtxoEntry (coin_amount c) (coin_script c) (coin_height c) (Z.lor tfModified (if coin_coinbase c then tfCoinBase else 0)).

Lemma restored_coin c : coin_of (Some (restored c)) = Some c ∧ isModified (restored c) = true.
Proof. by destruct c as [? ? ? []]. Qed.

(** Spending an entry: it is marked modified unless it was spent before. *)
Lemma Spend_modified e : isModified (Spend e) = false → IsSpent e = true ∧ Spend e = e.
Proof.
  destruct (IsSpent e) eqn:E; [unfold Spend; by rewrite E|]. destruct (Spend_flags e E) as [_ ->]. done.
Qed.

Lemma toggle_coin e : coin_of (Some (set_packedFlags e (Z.lxor (packedFlags e) tfModified))) = coin_of (Some e).
Proof.
  assert (∀ j, j ≠ 2 → 0 <= j → Z.land (Z.lxor (packedFlags e) tfModified) (Z.shiftl 1 j) = Z.land (packedFlags e) (Z.shiftl 1 j)) as Hj.
  { intros j Hne Hj. rewrite Z.shiftl_1_l. apply Z.bits_inj'. intros i Hi. rewrite !Z.land_spec, Z.lxor_spec.
    unfold tfModified. rewrite Z.shiftl_1_l, !Z.pow2_bits_eqb by lia.
    destruct (Z.eqb_spec j i) as [->|]; [|by rewrite !andb_false_r].
    rewrite (proj2 (Z.eqb_neq 2 i)) by lia. by rewrite xorb_false_r. }
  unfold coin_of, IsSpent, entry_coin, entry_IsCoinBase. cbn [packedFlags amount pkScript blockHeight set_packedFlags].
  unfold tfSpent, tfCoinBase. rewrite !Hj by lia. done.
Qed.

(** ** The view while a block is undone *)

(** A view over the coins [U] that stands for the coins [W] but for the outputs
    [P], which are still to be removed; an entry that is not marked modified is
    as in [U]. *)
Record undoing (P : OutPoint → Prop) (view : UtxoViewpoint) (U W : UtxoSet) : Prop := {
  un_wf op e : entries view !! op = Some e → wf_OutPoint op;
  un_clean op e : entries view !! op = Some (Some e) → isModified e = false → U !! op = coin_of (Some e);
  un_nil op : entries view !! op = Some None → U !! op = None;
  un_rest op : ¬ P op → stands_for view U W op
}.

(** Between blocks. *)
Abbreviation undone := (undoing (λ _, False)).

Lemma undone_new U : undone NewUtxoViewpoint U U.
Proof. by split. Qed.

Lemma undone_repr view U W : undone view U W → view_repr view U W.
Proof. intros Hu op. apply (un_rest _ _ _ _ Hu). auto. Qed.

(** After a commit the view agrees with the coins it stood for. *)
Lemma undone_commit view U W : undone view U W → undone (commit view) W W.
Proof.
  intros Hu.
  assert (∀ op x, entries (commit view) !! op = Some x → ∃ e, entries view !! op = Some (Some e) ∧
    x = Some (set_packedFlags e (Z.lxor (packedFlags e) tfModified))) as Hc.
  { intros op x Hx. unfold commit in Hx. cbn [entries set_entries] in Hx. rewrite lookup_omap in Hx.
    destruct (entries view !! op) as [[e|]|]; cbn in Hx; [|done..]. destruct (_ && _); [done|]. injection Hx as <-. eauto. }
  assert (∀ op x, entries (commit view) !! op = Some x → coin_of x = W !! op) as Hw.
  { intros op x Hx. destruct (Hc op x Hx) as (e & He & ->). rewrite toggle_coin.
    pose proof (un_rest _ _ _ _ Hu op ltac:(auto)) as Hs. unfold stands_for in Hs. by rewrite He in Hs. }
  split.
  - intros op x Hx. destruct (Hc op x Hx) as (e & He & _). by apply (un_wf _ _ _ _ Hu) in He.
  - intros op e Hx _. symmetry. by apply Hw.
  - intros op Hx. by destruct (Hc op _ Hx) as (e & _ & ?).
  - intros op _. unfold stands_for. destruct (entries (commit view) !! op) eqn:E; [by apply Hw|done].
Qed.

(** ** Removing the outputs of a transaction *)

Lemma unconnect_outs_eq view hash outs idx flags h :
  0 <= idx → idx + zlen outs <= 2 ^ 32 →
  ∃ view', unconnect_outs view hash outs idx flags h = Ok view' ∧ bestHash view' = bestHash view ∧
    ∀ op, entries view' !! op =
      match
        (if bool_decide (op_Hash op = hash) && (idx <=? op_Index op) then
           o ← outs !! Z.to_nat (op_Index op - idx);
           if unspendable (PkScript o) then None else Some o
         else None)
      with
      | Some o => Some (Some (Spend (default (mkUtxoEntry (Value o) (PkScript o) h flags) (LookupEntry view op))))
      | None => entries view !! op
      end.
Proof.
  revert view idx. induction outs as [|o outs IH]; intros view idx Hi Hl; cbn [unconnect_outs].
  { exists view. split_and!; [done|done|]. intros op. by destruct (_ && _). }
  rewrite zlen_cons in Hl. pose proof (zlen_nonneg outs). rewrite IsUnspendable_total. cbn [lift_script mbind result_bind].
  rewrite u32_small by lia.
  set (view1 := if unspendable (PkScript o) then view else _).
  assert (Hb : bestHash view1 = bestHash view) by (unfold view1; by destruct (unspendable (PkScript o))).
  assert (Hne : ∀ op, op ≠ mkOutPoint hash idx → entries view1 !! op = entries view !! op).
  { intros op Hop. unfold view1. destruct (unspendable (PkScript o)); [done|]. by apply lookup_insert_ne. }
  destruct (IH view1 (idx + 1)) as (view' & E & Hb' & He); [lia|lia|].
  exists view'. split_and!; [done|congruence|]. intros [oh oi]. rewrite He. cbn [op_Hash op_Index].
  case_bool_decide as Eh; cbn [andb]; [|apply Hne; by intros [= ]]. subst oh.
  destruct (Z.leb_spec (idx + 1) oi).
  - rewrite (proj2 (Z.leb_le idx _)) by lia.
    replace (Z.to_nat (oi - idx)) with (S (Z.to_nat (oi - (idx + 1)))) by lia.
    cbn [lookup list_lookup]. unfold LookupEntry. rewrite !Hne by (intros [=]; lia). done.
  - destruct (Z.leb_spec idx oi) as [Hle|]; [|apply Hne; intros [=]; lia].
    assert (oi = idx) as -> by lia. rewrite Z.sub_diag. change ((o :: outs) !! Z.to_nat 0) with (Some o).
    cbn [mbind option_bind]. unfold view1. destruct (unspendable (PkScript o)); [done|]. apply lookup_insert_eq.
Qed.

Section undo.
Context `{HashFns}.
Implicit Types U W : UtxoSet.

(** The coins before the outputs of a transaction were added. *)
Lemma unconnect_ok l tx view U W (cb : bool) h :
  let flags := if cb then tfCoinBase else 0 in
  wf_MsgTx tx → undoing (spendable_of (l ++ [tx])) view U (add_tx_coins h tx W) → fresh_tx tx W →
  ∃ view', unconnect_outs view (TxHash tx) (tx_TxOut tx) 0 flags h = Ok view' ∧ bestHash view' = bestHash view ∧
    undoing (spendable_of l) view' U W.
Proof.
  intros flags Hwf Hu Hf. pose proof (wf_outs_count tx Hwf) as Hn.
  destruct (unconnect_outs_eq view (TxHash tx) (tx_TxOut tx) 0 flags h) as (view' & E & Hb & He); [lia|lia|].
  exists view'. split_and!; [done|done|].
  assert (He' : ∀ op, entries view' !! op =
    match spendable_out tx op with
    | Some o => Some (Some (Spend (default (mkUtxoEntry (Value o) (PkScript o) h flags) (LookupEntry view op))))
    | None => entries view !! op end).
  { intros op. rewrite He, Z.sub_0_r. done. }
  split; intros op.
  - intros e Hop. rewrite He' in Hop. destruct (spendable_out tx op) as [o|] eqn:Es; [|by apply (un_wf _ _ _ _ Hu) in Hop].
    apply spendable_out_Some in Es as [Eh Hi]. split; [rewrite Eh; apply TxHash_size|unfold is_u32; lia].
  - intros e Hop Hm. rewrite He' in Hop. destruct (spendable_out tx op) as [o|] eqn:Es; [|by apply (un_clean _ _ _ _ Hu) in Hop].
    injection Hop as <-. destruct (Spend_modified _ Hm) as [Hs Ee]. rewrite Ee in Hm |- *.
    unfold LookupEntry in *. destruct (entries view !! op) as [[e|]|] eqn:Eo; [|by destruct cb|by destruct cb].
    by apply (un_clean _ _ _ _ Hu).
  - intros Hop. rewrite He' in Hop. destruct (spendable_out tx op); [done|]. by apply (un_nil _ _ _ _ Hu).
  - intros Hop. unfold stands_for. rewrite He'. destruct (spendable_out tx op) as [o|] eqn:Es.
    + cbn [coin_of]. rewrite Spend_spent. apply spendable_out_Some in Es as [Eh Hi]. symmetry. by apply Hf.
    + pose proof (un_rest _ _ _ _ Hu op) as Hr. rewrite spendable_of_snoc, Es in Hr.
      unfold stands_for in Hr. rewrite add_tx_coins_lookup, Es in Hr. apply Hr. by intros [?|[? ?]].
Qed.

(** ** Restoring the inputs *)

(** The journal holds the coins of the inputs, the last one at index [k]. *)
Lemma restore_ins_ok view rins rcs stxos k :
  length rins = length rcs → NoDup (PreviousOutPoint <$> rins) →
  (∀ i c, rcs !! i = Some c → 0 <= k - Z.of_nat i ∧ stxos !! Z.to_nat (k - Z.of_nat i) = Some (coin_stxo c)) →
  ∃ view', restore_ins view rins stxos k = Ok (view', k - zlen rins) ∧ bestHash view' = bestHash view ∧
    Forall2 (λ op c, entries view' !! op = Some (Some (restored c))) (PreviousOutPoint <$> rins) rcs ∧
    ∀ op, op ∉ PreviousOutPoint <$> rins → entries view' !! op = entries view !! op.
Proof.
  revert view rcs k. induction rins as [|ti rins IH]; intros view [|c rcs] k Hl Hnd Hj; try done.
  { exists view. rewrite zlen_nil, Z.sub_0_r. split_and!; [done|done|constructor|done]. }
  cbn [fmap list_fmap] in Hnd |- *. apply NoDup_cons in Hnd as [Hni Hnd]. cbn [restore_ins].
  destruct (Hj 0%nat c eq_refl) as [Hk Hc]. rewrite Z.sub_0_r in Hk, Hc.
  rewrite (proj2 (go_index_ok stxos k (coin_stxo c))) by done. cbn [mbind result_bind].
  set (view1 := set_entries view _).
  destruct (IH view1 rcs (k - 1)) as (view' & E & Hb & Hf & Ho); [by injection Hl|done| |].
  { intros i c' Hi. destruct (Hj (S i) c' Hi) as [H1 H2].
    replace (k - 1 - Z.of_nat i) with (k - Z.of_nat (S i)) by lia. done. }
  exists view'. split; [rewrite E, zlen_cons; do 2 f_equal; lia|]. split; [done|]. split.
  - constructor; [|done]. rewrite Ho by done. apply lookup_insert_eq.
  - intros op [Hne Hop]%not_elem_of_cons. rewrite Ho by done. by apply lookup_insert_ne.
Qed.

(** The coins a transaction took are back. *)
Lemma restore_tx_ok P tx pre cs post view U W Wt :
  wf_MsgTx tx → take_coins W (prevouts tx) = Some (cs, Wt) → undoing P view U Wt →
  ∃ view', restore_ins view (rev (tx_TxIn tx)) ((coin_stxo <$> pre ++ cs) ++ post) (zlen (pre ++ cs) - 1) = Ok (view', zlen pre - 1) ∧
    bestHash view' = bestHash view ∧ undoing P view' U W.
Proof.
  intros Hwf Ht Hu. destruct (take_coins_coins _ _ _ _ Ht) as [Hnd Hf].
  pose proof (Forall2_length _ _ _ Hf) as Hl. unfold prevouts in Hl. rewrite length_fmap in Hl.
  assert (Erev : PreviousOutPoint <$> rev (tx_TxIn tx) = reverse (prevouts tx)).
  { rewrite rev_alt. change (rev_append (tx_TxIn tx) []) with (reverse (tx_TxIn tx)). apply fmap_reverse. }
  destruct (restore_ins_ok view (rev (tx_TxIn tx)) (reverse cs) ((coin_stxo <$> pre ++ cs) ++ post) (zlen (pre ++ cs) - 1))
    as (view' & E & Hb & Hr & Ho).
  { rewrite length_rev, length_reverse. done. }
  { by rewrite Erev, reverse_Permutation. }
  { intros i c Hi. pose proof (lookup_lt_Some _ _ _ Hi) as Hlt. rewrite length_reverse in Hlt.
    rewrite reverse_lookup in Hi by done. rewrite zlen_app. unfold zlen. split; [lia|].
    rewrite lookup_app_l by (rewrite length_fmap, length_app; lia). rewrite list_lookup_fmap.
    rewrite lookup_app_r by lia.
    replace (Z.to_nat _ - length pre)%nat with (length cs - S i)%nat by lia. by rewrite Hi. }
  exists view'. split.
  { rewrite E, zlen_app. f_equal. f_equal. unfold zlen. rewrite length_rev. lia. }
  split; [done|]. rewrite Erev in Hr, Ho.
  assert (Hin : ∀ op, op ∈ prevouts tx → ∃ c, W !! op = Some c ∧ entries view' !! op = Some (Some (restored c))).
  { intros op Hop. apply list_elem_of_lookup in Hop as [i Hi]. destruct (Forall2_lookup_l _ _ _ _ _ Hf Hi) as (c & Hc & HW).
    exists c. split; [done|]. apply Forall2_reverse in Hr. rewrite !reverse_involutive in Hr.
    by apply (Forall2_lookup_lr _ _ _ _ _ _ Hr Hi Hc). }
  assert (Hout : ∀ op, op ∉ prevouts tx → entries view' !! op = entries view !! op ∧ W !! op = Wt !! op).
  { intros op Hop. split; [apply Ho; by rewrite elem_of_reverse|].
    by rewrite (take_coins_lookup _ _ _ _ _ Ht), decide_False. }
  split; intros op.
  - intros e He. destruct (decide (op ∈ prevouts tx)) as [Hop|Hop].
    + unfold prevouts in Hop. apply list_elem_of_fmap in Hop as (ti & -> & Hti).
      destruct Hwf as (_ & _ & Hins & _). rewrite Forall_forall in Hins. by apply Hins.
    + destruct (Hout op Hop) as [Ee _]. rewrite Ee in He. by apply (un_wf _ _ _ _ Hu) in He.
  - intros e He Hm. destruct (decide (op ∈ prevouts tx)) as [Hop|Hop].
    + destruct (Hin op Hop) as (c & _ & Ee). rewrite He in Ee. injection Ee as ->.
      destruct (restored_coin c) as [_ Hm']. congruence.
    + destruct (Hout op Hop) as [Ee _]. rewrite Ee in He. by apply (un_clean _ _ _ _ Hu).
  - intros He. destruct (decide (op ∈ prevouts tx)) as [Hop|Hop].
    + by destruct (Hin op Hop) as (c & _ & Ee); rewrite He in Ee.
    + destruct (Hout op Hop) as [Ee _]. rewrite Ee in He. by apply (un_nil _ _ _ _ Hu).
  - intros HP. unfold stands_for. destruct (decide (op ∈ prevouts tx)) as [Hop|Hop].
    + destruct (Hin op Hop) as (c & -> & ->). apply restored_coin.
    + destruct (Hout op Hop) as [-> ->]. by apply (un_rest _ _ _ _ Hu).
Qed.

(** ** A block *)

(** The first transaction is the only coinbase. *)
Definition coinbase_first (txs : list MsgTx) : Prop :=
  ∀ i tx, txs !! i = Some tx → IsCoinBase tx = true ↔ i = 0%nat.

Lemma sane_coinbase_first txs : sane_block txs → coinbase_first txs.
Proof.
  intros [(cb & rest & -> & Hcb & Hr) _ _ _] [|i] tx Hi; cbn in Hi.
  - injection Hi as ->. done.
  - rewrite Forall_forall in Hr. rewrite Hr by (by eapply list_elem_of_lookup_2). done.
Qed.

Lemma undoing_ext P P' view U W : (∀ op, P op → P' op) → undoing P view U W → undoing P' view U W.
Proof. intros HP [H1 H2 H3 H4]. split; auto. Qed.

(** The transactions of the block, last first. *)
Lemma disconnect_loop_ok maturity h txs css fees U0 W post view U :
  txs_step maturity h txs U0 css fees W → Forall wf_MsgTx txs → NoDup (TxHash <$> txs) →
  Forall (λ tx, fresh_tx tx U0) txs → coinbase_first txs → undoing (spendable_of txs) view U W →
  ∃ view', disconnect_loop view (rev txs) (zlen txs - 1) h ((coin_stxo <$> concat css) ++ post) (zlen (concat css) - 1) = Ok view' ∧
    bestHash view' = bestHash view ∧ undone view' U U0.
Proof.
  intros Hs Hwf Hnd Hfr Hcf. revert css fees W post view Hs.
  induction txs as [|tx l IH] using rev_ind; intros css fees W post view Hs Hu.
  { inversion Hs; subst. exists view. split_and!; [done|done|]. eapply undoing_ext; [|exact Hu].
    intros op (? & ? & Hin & _). by apply elem_of_nil in Hin. }
  apply Forall_app in Hwf as [Hwf [Hwt _]%Forall_cons]. apply Forall_app in Hfr as [Hfr [Hft _]%Forall_cons].
  rewrite fmap_app in Hnd. apply NoDup_app in Hnd as (Hnd & Hni & _).
  assert (TxHash tx ∉ TxHash <$> l) as Htx.
  { intros Hin. apply (Hni _ Hin). by apply list_elem_of_singleton. }
  destruct (txs_step_app _ _ _ _ _ _ _ _ Hs) as (css1 & css2 & f1 & f2 & V & -> & El & Hs1 & Hs2).
  destruct (txs_step_one _ _ _ _ _ _ _ Hs2) as (cs & fee & -> & Hstep).
  pose proof (txs_step_fresh _ _ _ _ _ _ _ _ Hs1 Htx Hft) as HfV.
  pose proof (Hcf (length l) tx (list_lookup_middle l [] tx _ eq_refl)) as Hcb.
  rewrite rev_unit, zlen_snoc, concat_app. cbn [concat]. rewrite app_nil_r.
  replace (zlen l + 1 - 1) with (zlen l) by lia. cbn [disconnect_loop].
  assert (Hl0 : IsCoinBase tx = (zlen l =? 0)).
  { unfold zlen. destruct (Z.eqb_spec (Z.of_nat (length l)) 0); [by apply Hcb; lia|]. apply not_true_iff_false. rewrite Hcb. lia. }
  destruct Hstep as [Ecb|cs Wt fee Ecb Ht _ _ _].
  - rewrite <-Hl0, Ecb. destruct l; [|by pose proof (proj1 Hcb Ecb)].
    destruct (unconnect_ok [] tx view U V true h Hwt Hu HfV) as (view1 & -> & Hb & Hu1). cbn [mbind result_bind].
    inversion Hs1; subst. exists view1. split_and!; [done|done|]. eapply undoing_ext; [|exact Hu1].
    intros op (? & ? & Hin & _). by apply elem_of_nil in Hin.
  - rewrite <-Hl0, Ecb.
    assert (fresh_tx tx Wt) as HfW.
    { intros op Eh Hi. rewrite (take_coins_lookup _ _ _ _ _ Ht). case_decide; [done|]. by apply HfV. }
    destruct (unconnect_ok l tx view U Wt false h Hwt Hu HfW) as (view1 & -> & Hb & Hu1). cbn [mbind result_bind].
    destruct (restore_tx_ok _ tx (concat css1) cs post view1 U V Wt Hwt Ht Hu1) as (view2 & -> & Hb2 & Hu2).
    cbn [mbind result_bind].
    destruct (IH Hwf Hnd Hfr) with (css := css1) (fees := f1) (W := V) (post := (coin_stxo <$> cs) ++ post) (view := view2)
      as (view' & E & Hb' & Hu').
    { intros i t Hi. apply (Hcf i t). by apply lookup_app_l_Some. }
    { done. }
    { done. }
    exists view'. split_and!; [|congruence|done]. rewrite <-E. f_equal. by rewrite fmap_app, <-(assoc_L (++)).
Qed.

Lemma count_spent maturity h txs U css fees W :
  txs_step maturity h txs U css fees W → Forall (λ tx, IsCoinBase tx = false) txs →
  foldl (λ n tx, n + zlen (tx_TxIn tx)) 0 txs = zlen (concat css).
Proof.
  assert (∀ k, txs_step maturity h txs U css fees W → Forall (λ tx, IsCoinBase tx = false) txs →
    foldl (λ n tx, n + zlen (tx_TxIn tx)) k txs = k + zlen (concat css)) as Hk; [|by intros; rewrite Hk].
  intros k Hs. revert k. induction Hs as [U|tx txs U cs fee U1 css fees U2 Hs1 Hs IH]; intros k Hcb; cbn [foldl concat].
  { rewrite zlen_nil. lia. }
  apply Forall_cons in Hcb as [Hc Hcb]. rewrite IH, zlen_app by done. inversion Hs1 as [|? ? ? ? Ht]; subst; [congruence|].
  apply take_coins_coins in Ht as [_ Hf]. apply Forall2_length in Hf. unfold prevouts in Hf. rewrite length_fmap in Hf.
  unfold zlen. lia.
Qed.

(** The number of outputs a block spends is what its journal holds. *)
Lemma countSpentOutputs_ok {E} maturity block U css fees W :
  txs_step maturity (b_Height block) (b_Transactions block) U css fees W → sane_block (b_Transactions block) →
  countSpentOutputs (E:=E) block = Ok (zlen (coin_stxo <$> concat css)).
Proof.
  intros Hs [(cb & rest & Et & Hcb & Hr) _ _ _]. unfold countSpentOutputs. rewrite Et in Hs |- *.
  rewrite (go_slice_cons cb rest) by (by rewrite zlen_cons). cbn [mbind result_bind]. f_equal.
  inversion Hs as [|? ? ? cs fee U1 css' fees' ? Hs1 Hss]; subst.
  rewrite (count_spent _ _ _ _ _ _ _ Hss Hr). inversion Hs1; subst; [|congruence].
  unfold zlen. by rewrite length_fmap.
Qed.

Lemma disconnectTransactions_ok maturity block css fees U0 W view U :
  txs_step maturity (b_Height block) (b_Transactions block) U0 css fees W → sane_block (b_Transactions block) →
  Forall (λ tx, fresh_tx tx U0) (b_Transactions block) → undoing (spendable_of (b_Transactions block)) view U W →
  ∃ view', disconnectTransactions view block (coin_stxo <$> concat css) = Ok view' ∧
    bestHash view' = b_PrevBlock block ∧ undone view' U U0.
Proof.
  intros Hs Hsb Hfr Hu. unfold disconnectTransactions.
  rewrite (countSpentOutputs_ok _ _ _ _ _ _ Hs Hsb). cbn [mbind result_bind]. rewrite Z.eqb_refl. cbn [negb].
  destruct (disconnect_loop_ok _ _ _ _ _ _ _ [] view U Hs (sb_wf _ Hsb) (sb_nodup _ Hsb) Hfr (sane_coinbase_first _ Hsb) Hu)
    as (view' & E & Hb & Hu').
  rewrite app_nil_r in E. unfold zlen in E |- *. rewrite length_fmap, E. cbn [mbind result_bind].
  eexists; split; [done|]. split; [done|]. by destruct Hu' as [H1 H2 H3 H4].
Qed.

(** ** Loading what the block spent *)

Lemma in_flight_range txs i m h k :
  in_flight txs i m !! h = Some k → m !! h = Some k ∨ i <= k < i + zlen txs.
Proof.
  revert i m. induction txs as [|tx txs IH]; intros i m; cbn [in_flight]; [by left|].
  rewrite zlen_cons. pose proof (zlen_nonneg txs). intros [Hk|Hk]%IH; [|right; lia].
  apply lookup_insert_Some in Hk as [[_ <-]|[_ Hk]]; [right; lia|by left].
Qed.

(** Adding outputs of a transaction of the block ahead of time. *)
Lemma undoing_early txs tx view view1 U W h :
  wf_MsgTx tx → tx ∈ txs → undoing (spendable_of txs) view U W →
  (∀ op, entries view1 !! op =
     match spendable_out tx op with
     | Some o => Some (Some (created_entry (IsCoinBase tx) h o)) | None => entries view !! op end) →
  undoing (spendable_of txs) view1 U W.
Proof.
  intros Hwf Hin [H1 H2 H3 H4] He. pose proof (wf_outs_count tx Hwf).
  split; intros op; [| | |intros HP; unfold stands_for]; rewrite He; destruct (spendable_out tx op) as [o|] eqn:Es; eauto.
  - intros e _. apply spendable_out_Some in Es as [Eh Hi]. split; [rewrite Eh; apply TxHash_size|unfold is_u32; lia].
  - intros e [= <-]. by destruct (IsCoinBase tx).
  - done.
  - exfalso. apply HP. by exists tx, o.
  - by apply H4.
Qed.

(** What holds of the view while the search adds outputs of the block ahead of
    time, and of the outpoints it finds no entry for. *)
Section load.
Context (txs : list MsgTx) (Hwf : Forall wf_MsgTx txs) (P : UtxoViewpoint → Prop) (Q : OutPoint → Prop).
Hypothesis P_early : ∀ tx view view1 h, wf_MsgTx tx → tx ∈ txs → P view →
  (∀ op, entries view1 !! op =
     match spendable_out tx op with
     | Some o => Some (Some (created_entry (IsCoinBase tx) h o)) | None => entries view !! op end) →
  P view1.
Hypothesis P_absent : ∀ view op, P view → entries view !! op = None → Q op.

Definition absent_ok (op : OutPoint) : Prop := wf_OutPoint op ∧ Q op.

Lemma find_ins_load view h flight i ins needed :
  Forall wf_TxIn ins → (∀ k j, flight !! k = Some j → 0 <= j < zlen txs) → P view → Forall absent_ok needed →
  ∃ view1 needed1, find_ins view txs h flight i ins needed = Ok (view1, needed1) ∧ bestHash view1 = bestHash view ∧
    P view1 ∧ Forall absent_ok needed1.
Proof.
  intros Hins Hfl. revert view needed. induction Hins as [|ti ins Hti Hins IH]; intros view needed Hu Hn; cbn [find_ins].
  { exists view, needed. done. }
  set (fetch := match entries view !! PreviousOutPoint ti with Some _ => _ | None => _ end).
  assert (∃ view1 needed1, fetch = Ok (view1, needed1) ∧ bestHash view1 = bestHash view ∧ P view1 ∧ Forall absent_ok needed1) as Hfetch.
  { unfold fetch. destruct (entries view !! PreviousOutPoint ti) eqn:Ee; apply IH; try done.
    apply Forall_app. split; [done|]. apply Forall_singleton. split; [apply Hti|]. by apply (P_absent view). }
  destruct (flight !! op_Hash (PreviousOutPoint ti)) as [k|] eqn:Ek; [|done]. destruct (k <=? i); [|done].
  destruct (go_index_total (E:=RuleErr) txs k) as (tx & -> & Htx); [by eapply Hfl|]. cbn [mbind result_bind].
  apply list_elem_of_lookup_2 in Htx. assert (wf_MsgTx tx) as Hwt by (rewrite Forall_forall in Hwf; by apply Hwf).
  destruct (AddTxOuts_eq view tx h Hwt) as (view2 & -> & Hb2 & He2). cbn [mbind result_bind].
  destruct (IH view2 needed) as (view1 & needed1 & ? & ? & ? & ?); [by eapply P_early|done|].
  exists view1, needed1. split_and!; [done|congruence|done|done].
Qed.

Lemma find_txs_load view h flight i rest needed :
  Forall wf_MsgTx rest → (∀ k j, flight !! k = Some j → 0 <= j < zlen txs) → P view → Forall absent_ok needed →
  ∃ view1 needed1, find_txs view txs h flight i rest needed = Ok (view1, needed1) ∧ bestHash view1 = bestHash view ∧
    P view1 ∧ Forall absent_ok needed1.
Proof.
  intros Hwr Hfl. revert i view needed. induction Hwr as [|tx rest Hwt Hwr IH]; intros i view needed Hu Hn; cbn [find_txs].
  { exists view, needed. done. }
  assert (Forall wf_TxIn (tx_TxIn tx)) as Hins by apply Hwt.
  destruct (find_ins_load view h flight i (tx_TxIn tx) needed Hins Hfl Hu Hn) as (view2 & needed2 & -> & Hb & Hu2 & Hn2).
  cbn [mbind result_bind]. destruct (IH (i + 1) view2 needed2 Hu2 Hn2) as (view1 & needed1 & ? & ? & ? & ?).
  exists view1, needed1. split_and!; [done|congruence|done|done].
Qed.

(** The view of the search, with what was loaded on top. *)
Lemma fetchInputUtxos_load {S} `{!UtxoSource S} view block (s : S) U :
  b_Transactions block = txs → txs ≠ [] → utxo_repr s U → P view →
  ∃ view0 view1 s1 needed, fetchInputUtxos view block s = Ok (view1, s1) ∧ utxo_repr s1 U ∧ bestHash view1 = bestHash view ∧
    P view0 ∧ Forall absent_ok needed ∧
    (∀ op, op ∈ needed → ∃ e, entries view1 !! op = Some e ∧ coin_of e = U !! op) ∧
    (∀ op, op ∉ needed → entries view1 !! op = entries view0 !! op).
Proof.
  intros Et Hne Hs Hu. unfold fetchInputUtxos, findInputsToFetch. cbv [mbind st_bind st_lift]. rewrite Et.
  assert (∃ rest, go_slice (E:=RuleErr) txs 1 (zlen txs) = Ok rest ∧ Forall wf_MsgTx rest) as (rest & -> & Hwr).
  { clear P_early P_absent Et. destruct txs as [|cb rest]; [done|]. exists rest. apply Forall_cons in Hwf as [_ ?].
    split; [|done]. by rewrite (go_slice_cons cb rest) by (by rewrite zlen_cons). }
  cbn [result_bind mbind].
  destruct (find_txs_load view (b_Height block) (in_flight txs 0 ∅) 0 rest []) as (view0 & needed & E & Hb & Hu1 & Hn).
  { done. }
  { intros k j [Hk|Hk]%in_flight_range; [by rewrite lookup_empty in Hk|lia]. }
  { done. }
  { constructor. }
  rewrite E. cbn [mbind result_bind].
  destruct (fetch_ok view0 needed s U Hs) as (view1 & s1 & E2 & Hs1 & Hb2 & Hin & Hout).
  { eapply Forall_impl; [exact Hn|]. by intros op [? _]. }
  exists view0, view1, s1, needed. by split_and!; [..|congruence| | | |].
Qed.
End load.

Section fetch.
Context {S : Type} `{!UtxoSource S}.

Lemma fetchInputUtxos_undo view block (s : S) U W :
  Forall wf_MsgTx (b_Transactions block) → b_Transactions block ≠ [] → utxo_repr s U → undone view U W →
  ∃ view1 s1, fetchInputUtxos view block s = Ok (view1, s1) ∧ utxo_repr s1 U ∧ bestHash view1 = bestHash view ∧
    undoing (spendable_of (b_Transactions block)) view1 U W.
Proof.
  intros Hwf Hne Hs Hu.
  odestruct (fetchInputUtxos_load (b_Transactions block) Hwf (λ view, undoing (spendable_of (b_Transactions block)) view U W)
    (λ op, ¬ spendable_of (b_Transactions block) op → U !! op = W !! op) _ _ view block s U eq_refl Hne Hs _)
    as (view0 & view1 & s1 & needed & E & Hs1 & Hb & [H1 H2 H3 H4] & Hn & Hin & Hout).
  { intros tx v v1 h Hwt Hi Hv He. by eapply undoing_early. }
  { intros v op Hv He HP. pose proof (un_rest _ _ _ _ Hv _ HP) as Hst. unfold stands_for in Hst. by rewrite He in Hst. }
  { eapply undoing_ext; [|exact Hu]. done. }
  exists view1, s1. split_and!; [done|done|done|]. rewrite Forall_forall in Hn.
  split; intros op; [| | |intros HP; unfold stands_for]; (destruct (decide (op ∈ needed)) as [Ho|Ho];
    [destruct (Hin op Ho) as (e & He & Hc)|rewrite Hout by done; first [exact (H1 op)|exact (H2 op)|exact (H3 op)|exact (H4 op HP)]]).
  - intros _ _. by apply Hn.
  - intros e' He' _. rewrite He in He'. injection He' as ->. done.
  - intros He'. rewrite He in He'. by injection He' as ->.
  - rewrite He, Hc. by apply Hn.
Qed.

(** The same for a view that is not to be written. *)
Lemma fetchInputUtxos_valid view block (s : S) U W :
  Forall wf_MsgTx (b_Transactions block) → b_Transactions block ≠ [] → utxo_repr s U → view_repr view U W →
  ∃ view1 s1, fetchInputUtxos view block s = Ok (view1, s1) ∧ utxo_repr s1 U ∧ bestHash view1 = bestHash view ∧
    ∀ op, ¬ spendable_of (b_Transactions block) op → stands_for view1 U W op.
Proof.
  intros Hwf Hne Hs Hv.
  odestruct (fetchInputUtxos_load (b_Transactions block) Hwf
    (λ view, ∀ op, ¬ spendable_of (b_Transactions block) op → stands_for view U W op)
    (λ op, ¬ spendable_of (b_Transactions block) op → U !! op = W !! op) _ _ view block s U eq_refl Hne Hs _)
    as (view0 & view1 & s1 & needed & E & Hs1 & Hb & Hst & Hn & Hin & Hout).
  { intros tx v v1 h Hwt Hi Hv1 He op HP. unfold stands_for. rewrite He.
    destruct (spendable_out tx op) as [o|] eqn:Es; [|by apply Hv1]. exfalso. apply HP. by exists tx, o. }
  { intros v op Hv1 He HP. specialize (Hv1 op HP). unfold stands_for in Hv1. by rewrite He in Hv1. }
  { auto. }
  exists view1, s1. split_and!; [done|done|done|]. rewrite Forall_forall in Hn. intros op HP.
  specialize (Hst op HP). unfold stands_for in *. destruct (decide (op ∈ needed)) as [Ho|Ho]; [|by rewrite Hout].
  destruct (Hin op Ho) as (e & -> & ->). by apply Hn.
Qed.
End fetch.
End undo.

(** ** Writing the view *)

Section put.
Context `{HashFns} `{PubKeyFormats}.
Implicit Types U W M : UtxoSet.

Lemma put_view_ok es b M U W :
  store_repr b M → NoDup es.*1 → coins_ok W →
  (∀ op e, (op, e) ∈ es → wf_OutPoint op ∧ M !! op = U !! op ∧ coin_of e = W !! op ∧
     match e with None => U !! op = None | Some u => isModified u = false → U !! op = coin_of e end) →
  ∃ b' M', put_view b es = Ok b' ∧ store_repr b' M' ∧ ∀ op, M' !! op = if decide (op ∈ es.*1) then W !! op else M !! op.
Proof.
  intros Hb Hnd HW. revert b M Hb. induction es as [|[op e] es IH]; intros b M Hb He; cbn [put_view].
  { exists b, M. split_and!; [done|done|]. intros op. by rewrite decide_False by apply not_elem_of_nil. }
  cbn [fmap list_fmap fst] in Hnd. apply NoDup_cons in Hnd as [Hni Hnd].
  destruct (He op e ltac:(by left)) as (Hw & HM & Hc & Hcl).
  assert (Hstep : ∀ b1 M1, store_repr b1 M1 → M1 !! op = W !! op → (∀ op', op' ≠ op → M1 !! op' = M !! op') →
    ∃ b' M', put_view b1 es = Ok b' ∧ store_repr b' M' ∧
      ∀ op', M' !! op' = if decide (op' ∈ ((op, e) :: es).*1) then W !! op' else M !! op').
  { intros b1 M1 Hb1 H1 H2. destruct (IH Hnd b1 M1 Hb1) as (b' & M' & E & Hb' & HM').
    { intros op' e' Hin. rewrite H2; [apply He; by right|]. intros ->. apply Hni. by apply (list_elem_of_fmap_2 fst) in Hin. }
    exists b', M'. split_and!; [done|done|]. intros op'. rewrite HM'. cbn [fmap list_fmap fst].
    destruct (decide (op' ∈ es.*1)) as [Hin|Hin]; [by rewrite decide_True by by right|].
    destruct (decide (op' = op)) as [->|Hne]; [by rewrite decide_True by by left|].
    rewrite decide_False; [by apply H2|by intros [?|?]%elem_of_cons]. }
  destruct e as [u|]; [|by apply (Hstep b M Hb); [rewrite HM, Hcl, <-Hc|]].
  destruct (isModified u) eqn:Em; cbn [negb].
  2: { by apply (Hstep b M Hb); [rewrite HM, Hcl, <-Hc|]. }
  destruct (IsSpent u) eqn:Es.
  - destruct (dbDeleteUtxoEntry_ok b M op Hb Hw) as [-> Hb1]. cbn [mbind result_bind].
    apply (Hstep _ _ Hb1); [rewrite lookup_delete_eq, <-Hc; cbn; by rewrite Es|]. intros. by apply lookup_delete_ne.
  - cbn [coin_of] in Hc. rewrite Es in Hc. symmetry in Hc. destruct (HW op _ Hc) as [_ Hok].
    destruct (dbPutUtxoEntry_ok b M op u Hb Hw Es Hok) as [-> Hb1]. cbn [mbind result_bind].
    apply (Hstep _ _ Hb1); [by rewrite lookup_insert_eq, Hc|]. intros. by apply lookup_insert_ne.
Qed.

Lemma dbPutUtxoView_ok `{!MapOrder OutPoint (option UtxoEntry)} b view U W :
  store_repr b U → coins_ok W → undone view U W → ∃ b', dbPutUtxoView b (Some view) = Ok b' ∧ store_repr b' W.
Proof.
  intros Hb HW Hu. cbn [dbPutUtxoView].
  destruct (map_order_keys (entries view)) as [Hnd Hin].
  assert (Hst : ∀ op, stands_for view U W op) by (intros op; by apply (un_rest _ _ _ _ Hu); auto).
  destruct (put_view_ok (map_order (entries view)) b U U W Hb Hnd HW) as (b' & M & E & Hb' & HM).
  { intros op e He. apply Hin in He. specialize (Hst op). unfold stands_for in Hst. rewrite He in Hst.
    split; [by apply (un_wf _ _ _ _ Hu) in He|]. split; [done|]. split; [done|].
    destruct e as [u|]; [by apply (un_clean _ _ _ _ Hu)|by apply (un_nil _ _ _ _ Hu)]. }
  exists b'. split; [done|]. replace W with M; [done|]. apply map_eq. intros op. rewrite HM.
  destruct (decide _) as [|Hni]; [done|]. specialize (Hst op). unfold stands_for in Hst.
  destruct (entries view !! op) as [e|] eqn:Ee; [|done].
  exfalso. apply Hni. apply Hin in Ee. by apply (list_elem_of_fmap_2 fst) in Ee.
Qed.
End put.

(** ** There and back *)

Section roundtrip.
Context `{HashFns} `{PubKeyFormats} `{Log2Conv} `{!MapOrder OutPoint (option UtxoEntry)}.
Implicit Types U W D : UtxoSet.

(** What the encodings of the database ask of a block. *)
Definition storable (h : Z) (txs : list MsgTx) : Prop :=
  height_ok h ∧ Forall (λ tx, Forall output_fits (tx_TxOut tx)) txs.

Lemma tx_step_coins maturity h tx U cs fee W :
  tx_step maturity h tx U cs fee W → wf_MsgTx tx → height_ok h → Forall output_fits (tx_TxOut tx) → coins_ok U →
  coins_ok W ∧ Forall coin_ok cs.
Proof.
  intros Hs Hwf Hh Hf HU. pose proof (wf_outs_count tx Hwf) as Hn.
  assert (Hadd : ∀ V, coins_ok V → coins_ok (add_tx_coins h tx V)).
  { intros V HV op c. rewrite add_tx_coins_lookup. destruct (spendable_out tx op) as [o|] eqn:Es; [|by apply HV].
    intros [= <-]. assert (tx_TxOut tx !! Z.to_nat (op_Index op) = Some o) as Ho.
    { unfold spendable_out in Es. destruct (_ && _); [|done]. destruct (tx_TxOut tx !! _); [|done]. cbn in Es.
      destruct (unspendable _); [done|]. done. }
    apply spendable_out_Some in Es as [Eh Hi]. split.
    - split; [rewrite Eh; apply TxHash_size|unfold is_u32; lia].
    - rewrite Forall_forall in Hf. destruct (Hf o) as [? ?]; [by eapply list_elem_of_lookup_2|]. by split_and!. }
  destruct Hs as [|cs U' fee _ Ht]; [split; [by apply Hadd|constructor]|].
  assert (HU' : coins_ok U').
  { intros op c. rewrite (take_coins_lookup _ _ _ _ _ Ht). case_decide; [done|]. by apply HU. }
  split; [by apply Hadd|]. apply take_coins_coins in Ht as [_ Ht].
  apply Forall_forall. intros c Hc. apply list_elem_of_lookup in Hc as [i Hi].
  destruct (Forall2_lookup_r _ _ _ _ _ Ht Hi) as (op & _ & Hop). by apply HU in Hop as [_ ?].
Qed.

Lemma txs_step_coins maturity h txs U css fees W :
  txs_step maturity h txs U css fees W → Forall wf_MsgTx txs → storable h txs → coins_ok U →
  coins_ok W ∧ Forall coin_ok (concat css).
Proof.
  intros Hs Hwf [Hh Hf]. induction Hs as [U|tx txs U cs fee U1 css fees U2 Hs1 Hs IH]; intros HU; [by split|].
  apply Forall_cons in Hwf as [Hw1 Hwf], Hf as [Hf1 Hf].
  destruct (tx_step_coins _ _ _ _ _ _ _ Hs1 Hw1 Hh Hf1 HU) as [HU1 Hcs]. destruct (IH Hwf Hf HU1) as [HU2 Hcss].
  split; [done|]. cbn [concat]. by apply Forall_app.
Qed.

(** Disconnecting the last block, from the cache to the bucket. *)
Lemma undo_block maturity block css fees U W s D view best now :
  cache_repr s D W → undone view W W →
  txs_step maturity (b_Height block) (b_Transactions block) U css fees W → sane_block (b_Transactions block) →
  Forall (λ tx, fresh_tx tx U) (b_Transactions block) → coins_ok U →
  ∃ view1 s1 view2 s2 b, fetchInputUtxos view block s = Ok (view1, s1) ∧
    disconnectTransactions view1 block (coin_stxo <$> concat css) = Ok view2 ∧ bestHash view2 = b_PrevBlock block ∧
    flush FlushRequired best now s1 = Ok s2 ∧ dbPutUtxoView (utxoBucket (db s2)) (Some view2) = Ok b ∧
    store_repr b U ∧ undone (commit view2) U U ∧ cache_repr s2 W W ∧ utxoStateConsistency (db s2) = Some best ∧
    (∀ op, ms_get (cachedEntries s2) op = None).
Proof.
  intros Hr Hv Hs Hsb Hfr HU.
  assert (Hne : b_Transactions block ≠ []) by (by destruct (sb_coinbase _ Hsb) as (? & ? & -> & _)).
  destruct (fetchInputUtxos_undo view block s W W (sb_wf _ Hsb) Hne) as (view1 & s1 & E1 & [D1 Hr1] & _ & Hu1);
    [by exists D|done|].
  destruct (disconnectTransactions_ok _ _ _ _ _ _ _ _ Hs Hsb Hfr Hu1) as (view2 & E2 & Hb2 & Hu2).
  destruct (required_flush s1 D1 W best now Hr1) as (s2 & E3 & Hr2 & Hmk & Hempty).
  destruct (dbPutUtxoView_ok (utxoBucket (db s2)) view2 W U (cr_store _ _ _ Hr2) HU Hu2) as (b & E4 & Hb).
  exists view1, s1, view2, s2, b. split_and!; try done. by eapply undone_commit.
Qed.

(** C8 Connecting a block to the cache and disconnecting it again restores the
    coins: the cache takes the block and gives the spend journal, the journal
    reads back from its bucket, and loading, [disconnectTransactions], the flush
    and the writing of the view leave in the database exactly the coins there
    were before the block, with the view on the parent. *)
Theorem disconnect_undoes_connect maturity block css fees U W D s view journal best now :
  cache_repr s D U → coins_ok U → Forall (λ tx, fresh_tx tx D) (b_Transactions block) →
  Forall (λ tx, fresh_tx tx U) (b_Transactions block) →
  sane_block (b_Transactions block) → storable (b_Height block) (b_Transactions block) →
  txs_step maturity (b_Height block) (b_Transactions block) U css fees W → undone view W W →
  ∃ stxos s1 journal',
    cache_connectTransactions block (Some []) s = Ok (Some stxos, s1) ∧ cache_repr s1 D W ∧
    dbPutSpendJournalEntry journal (b_Hash block) stxos = Ok journal' ∧
    dbFetchSpendJournalEntry journal' block = Ok stxos ∧
    ∃ view1 s2 view2 s3 b,
      fetchInputUtxos view block s1 = Ok (view1, s2) ∧ disconnectTransactions view1 block stxos = Ok view2 ∧
      bestHash view2 = b_PrevBlock block ∧ flush FlushRequired best now s2 = Ok s3 ∧
      dbPutUtxoView (utxoBucket (db s3)) (Some view2) = Ok b ∧ store_repr b U.
Proof.
  intros Hr HU HfD HfU Hsb Hst Hs Hv. destruct Hst as [Hh Hf].
  destruct (cache_connect_loop_ok s D U _ _ _ _ _ _ (Some []) Hr (sb_wf _ Hsb) Hh Hf HfD Hs) as (s1 & E1 & Hr1 & _).
  exists (coin_stxo <$> concat css), s1. unfold cache_connectTransactions. rewrite E1.
  destruct (txs_step_coins _ _ _ _ _ _ _ Hs (sb_wf _ Hsb) (conj Hh Hf) HU) as [_ Hcs].
  destruct (sb_coinbase _ Hsb) as (cb & rest & Et & Hcb & Hrest).
  assert (Hok : Forall stxo_ok (coin_stxo <$> concat css)) by (apply Forall_fmap; eapply Forall_impl; [exact Hcs|done]).
  exists (<[b_Hash block := journal_code (coin_stxo <$> concat css)]> journal).
  split; [done|]. split; [done|]. split; [by apply journal_put|]. split.
  { apply (journal_fetch _ _ cb rest); [done| |done|apply lookup_insert_eq].
    pose proof (countSpentOutputs_ok (E:=RuleErr) _ _ _ _ _ _ Hs Hsb) as Ec. unfold countSpentOutputs in Ec.
    rewrite Et, (go_slice_cons cb rest) in Ec by (by rewrite zlen_cons). cbn [mbind result_bind] in Ec.
    injection Ec as <-. done. }
  destruct (undo_block _ _ _ _ _ _ _ _ view best now Hr1 Hv Hs Hsb HfU HU)
    as (view1 & s2 & view2 & s3 & b & E2 & E3 & Hb2 & E4 & E5 & Hb & _).
  exists view1, s2, view2, s3, b. by split_and!.
Qed.
End roundtrip.

(** ** Examples *)

Definition undo_op : OutPoint := mkOutPoint (repeat x11 32) 0.
Definition undo_coins : UtxoSet := add_tx_coins 300 demo_spend (delete undo_op (add_tx_coins 300 demo_coinbase demo_coins)).

Lemma demo_coin_there : add_tx_coins 300 demo_coinbase demo_coins !! undo_op = Some demo_coin.
Proof.
  rewrite add_tx_coins_lookup. replace (spendable_out demo_coinbase undo_op) with (@None TxOut) by by vm_compute.
  apply lookup_singleton_eq.
Qed.

Lemma undo_steps : txs_step 100 300 demo_txs demo_coins [[]; [demo_coin]] (0 + (5000 - total_value (tx_TxOut demo_spend) + 0)) undo_coins.
Proof.
  eapply steps_cons; [by apply step_coinbase|].
  apply (spend_one _ _ _ _ undo_op demo_coin); [done|done|apply demo_coin_there|done|done|by vm_compute].
Qed.

Lemma undo_fresh : Forall (λ tx, fresh_tx tx demo_coins) demo_txs.
Proof. repeat apply Forall_cons_2; [..|done]; apply fresh_by_hash; apply (bool_decide_unpack _); by vm_compute. Qed.

Lemma undo_storable : storable 300 demo_txs.
Proof. split; [done|]. repeat apply Forall_cons_2; [..|done]; repeat apply Forall_cons_2; done. Qed.

Definition undo_cache : utxoCache := newUtxoCache (mkCacheDB {[ key_of undo_op := coin_code demo_coin ]} None) 100000.

Lemma undo_cache_ok : cache_repr undo_cache demo_coins demo_coins ∧ coins_ok demo_coins.
Proof.
  destruct (store_singleton undo_op demo_coin) as [Hb Hc]; [done|by split_and!|].
  split; [|done]. by apply newUtxoCache_repr.
Qed.

Lemma disconnect_undoes_connect_witness :
  ∃ stxos s1 journal',
    cache_connectTransactions (demo_block demo_txs) (Some []) undo_cache = Ok (Some stxos, s1) ∧ cache_repr s1 demo_coins undo_coins ∧
    dbPutSpendJournalEntry ∅ (replicate 32 x05) stxos = Ok journal' ∧
    dbFetchSpendJournalEntry journal' (demo_block demo_txs) = Ok stxos ∧
    ∃ view1 s2 view2 s3 b,
      fetchInputUtxos NewUtxoViewpoint (demo_block demo_txs) s1 = Ok (view1, s2) ∧
      disconnectTransactions view1 (demo_block demo_txs) stxos = Ok view2 ∧
      bestHash view2 = zeroHash ∧ flush FlushRequired (replicate 32 x06) 9 s2 = Ok s3 ∧
      dbPutUtxoView (utxoBucket (db s3)) (Some view2) = Ok b ∧ store_repr b demo_coins.
Proof.
  destruct undo_cache_ok as [Hr Hc].
  exact (disconnect_undoes_connect 100 (demo_block demo_txs) _ _ demo_coins undo_coins demo_coins undo_cache NewUtxoViewpoint ∅
    (replicate 32 x06) 9 Hr Hc undo_fresh undo_fresh demo_txs_sane undo_storable undo_steps (undone_new _)).
Defined.
