(* ===== verification/ChainIO.v ===== *)
(** * The chain in the database (blockchain/chainio.go)

    The buckets that map the hashes of the active chain to heights and back, the
    best state, the statuses and sizes of blocks and the versions of buckets. A
    bucket is a finite map, as in UtxoStore.v. *)
From stdpp Require Import fin_maps strings.
From Stdlib Require Import Lia ZArith.
From S2P Require Import Prelude Wire MsgTx Compress RuleError BlockIndex UtxoStore.

(** ** Errors

    The package's own [errNotInMainChain], the database's corruption, and those
    made by [fmt.Errorf]. *)
Inductive chainErr :=
| errNotInMainChain
| corruptState
| notFound.

Definition isNotInMainChainErr (e : chainErr) : bool := match e with errNotInMainChain => true | _ => false end.

(** ** Versions *)

Definition dbFetchVersion (meta : Bucket) (key : bytes) : result chainErr Z :=
  match meta !! key with
  | None => Ok 0
  | Some serialized => b ← go_slice serialized 0 4; Ok (le_get b)
  end.

Definition dbPutVersion (meta : Bucket) (key : bytes) (version : Z) : Bucket := <[key := le_put 4 version]> meta.

Definition dbFetchOrCreateVersion (meta : Bucket) (key : bytes) (defaultVersion : Z) : result chainErr (Z * Bucket) :=
  version ← dbFetchVersion meta key;
  if version =? 0 then Ok (defaultVersion, dbPutVersion meta key defaultVersion) else Ok (version, meta).

(** ** The index of the active chain *)

Record IndexBuckets := mkIndexBuckets {
  hashIndex : Bucket;
  heightIndex : Bucket
}.

Definition dbPutBlockIndex (ix : IndexBuckets) (hash : bytes) (height : Z) : IndexBuckets :=
  let serializedHeight := le_put 4 (u32 height) in
  mkIndexBuckets (<[hash := serializedHeight]> (hashIndex ix)) (<[serializedHeight := hash]> (heightIndex ix)).

Definition dbRemoveBlockIndex (ix : IndexBuckets) (hash : bytes) (height : Z) : IndexBuckets :=
  let serializedHeight := le_put 4 (u32 height) in
  mkIndexBuckets (delete hash (hashIndex ix)) (delete serializedHeight (heightIndex ix)).

Definition dbFetchHeightByHash (ix : IndexBuckets) (hash : bytes) : result chainErr Z :=
  match hashIndex ix !! hash with
  | None => Fail errNotInMainChain
  | Some serializedHeight => b ← go_slice serializedHeight 0 4; Ok (i32 (le_get b))
  end.

(** The hash is copied into an array of 32 bytes. *)
Definition dbFetchHashByHeight (ix : IndexBuckets) (height : Z) : result chainErr bytes :=
  match heightIndex ix !! le_put 4 (u32 height) with
  | None => Fail errNotInMainChain
  | Some hashBytes => Ok (take 32 (hashBytes ++ replicate 32 x00))
  end.

(** ** The best state *)

(** [big.Int.Bytes] and [SetBytes]: big-endian without leading zeros. *)
Definition big_Bytes (x : Z) : bytes :=
  rev (le_put (if x =? 0 then 0 else Z.to_nat (Z.log2 x / 8 + 1)) x).
Definition big_SetBytes (b : bytes) : Z := le_get (rev b).

Record bestChainState := mkBestChainState {
  bcs_hash : bytes;
  bcs_height : Z;
  bcs_totalTxns : Z;
  bcs_workSum : Z
}.

Definition serializeBestChainState (state : bestChainState) : bytes :=
  let workSumBytes := big_Bytes (bcs_workSum state) in
  let workSumBytesLen := u32 (zlen workSumBytes) in
  let data := bcs_hash state ++ le_put 4 (bcs_height state) ++ le_put 8 (bcs_totalTxns state) ++
    le_put 4 workSumBytesLen ++ workSumBytes in
  take (Z.to_nat (u32 (HashSize + 4 + 8 + 4 + workSumBytesLen))) data.

Definition deserializeBestChainState (serializedData : bytes) : result chainErr bestChainState :=
  if zlen serializedData <? HashSize + 16 then Fail corruptState
  else
    hash ← go_slice serializedData 0 HashSize;
    height ← go_slice serializedData 32 36;
    totalTxns ← go_slice serializedData 36 44;
    workSumBytesLen ← go_slice serializedData 44 48;
    let workSumBytesLen := le_get workSumBytesLen in
    rest ← go_slice serializedData 48 (zlen serializedData);
    if u32 (zlen rest) <? workSumBytesLen then Fail corruptState
    else
      workSumBytes ← go_slice serializedData 48 (u32 (48 + workSumBytesLen));
      Ok (mkBestChainState hash (le_get height) (le_get totalTxns) (big_SetBytes workSumBytes)).

(** ** Statuses and sizes *)

Definition dbStoreBlockStatus (statusBucket : Bucket) (blockHash : bytes) (status : Z) : Bucket :=
  <[blockHash := [z2b status]]> statusBucket.

Definition dbFetchBlockStatus (statusBucket : Bucket) (blockHash : bytes) : result chainErr Z :=
  match statusBucket !! blockHash with
  | None => Fail notFound
  | Some statusBytes => b ← go_index statusBytes 0; Ok (b2z b)
  end.

Definition dbStoreBlockVsize (vsizeBucket : Bucket) (blockHash : bytes) (vsize : Z) : Bucket :=
  <[blockHash := le_put 8 (u64 vsize)]> vsizeBucket.

Definition dbFetchBlockVsize (vsizeBucket : Bucket) (blockHash : bytes) : result chainErr Z :=
  match vsizeBucket !! blockHash with
  | None => Fail notFound
  | Some vsizeBytes =>
      if negb (zlen vsizeBytes =? 8) then Fail notFound else Ok (i64 (le_get vsizeBytes))
  end.

(** ** Keys of the block index

    The height, big-endian, then the hash. *)
Definition blockIndexKey (blockHash : bytes) (blockHeight : Z) : bytes :=
  rev (le_put 4 blockHeight) ++ blockHash.

(** ** Numbers *)

Lemma big_Bytes_length x : 0 <= x → zlen (big_Bytes x) = if x =? 0 then 0 else Z.log2 x / 8 + 1.
Proof.
  intros Hx. unfold big_Bytes, zlen. rewrite length_rev, length_le_put. destruct (x =? 0); [done|].
  pose proof (Z.log2_nonneg x). pose proof (Z.div_pos (Z.log2 x) 8 ltac:(lia) ltac:(lia)). lia.
Qed.

Lemma big_Bytes_roundtrip x : 0 <= x → big_SetBytes (big_Bytes x) = x.
Proof.
  intros Hx. unfold big_SetBytes, big_Bytes. rewrite rev_involutive. apply le_get_put_small.
  destruct (Z.eqb_spec x 0) as [->|Hne]; [done|].
  pose proof (Z.log2_nonneg x). pose proof (Z.div_pos (Z.log2 x) 8 ltac:(lia) ltac:(lia)).
  rewrite Z2Nat.id by lia. split; [done|]. change 256 with (2 ^ 8). rewrite <-Z.pow_mul_r by lia.
  apply Z.log2_lt_pow2; [lia|]. pose proof (Z.div_mod (Z.log2 x) 8 ltac:(lia)). pose proof (Z.mod_pos_bound (Z.log2 x) 8 ltac:(lia)). lia.
Qed.

(** ** The best state reads back *)

Definition wf_bestChainState (s : bestChainState) : Prop :=
  zlen (bcs_hash s) = HashSize ∧ is_u32 (bcs_height s) ∧ is_u64 (bcs_totalTxns s) ∧
  0 <= bcs_workSum s ∧ Z.log2 (bcs_workSum s) < 2 ^ 30.

Lemma best_state_roundtrip s : wf_bestChainState s → deserializeBestChainState (serializeBestChainState s) = Ok s.
Proof.
  intros (Hh & Hht & Ht & Hw & Hl). unfold serializeBestChainState. set (w := big_Bytes (bcs_workSum s)).
  assert (Hwl : 0 <= zlen w < 2 ^ 28).
  { split; [apply zlen_nonneg|]. unfold w. rewrite big_Bytes_length by done. destruct (_ =? 0); [done|].
    pose proof (Z.div_lt_upper_bound (Z.log2 (bcs_workSum s)) 8 (2 ^ 27)). lia. }
  assert (HS : HashSize = 32) by done.
  rewrite (u32_small (zlen w)), (u32_small (HashSize + 4 + 8 + 4 + zlen w)) by lia.
  set (data := bcs_hash s ++ _).
  assert (Hd : zlen data = 48 + zlen w).
  { unfold data. rewrite !zlen_app, !zlen_le_put, Hh, HS. lia. }
  rewrite take_ge by (unfold zlen in *; lia). unfold deserializeBestChainState. rewrite Hd, (proj2 (Z.ltb_ge _ _)) by lia.
  unfold data. rewrite (go_slice_prefix (bcs_hash s)) by lia. cbn [mbind result_bind].
  rewrite (go_slice_at (bcs_hash s) (le_put 4 (bcs_height s)) _ 32 36) by (rewrite ?zlen_le_put; lia). cbn [mbind result_bind].
  rewrite (assoc_L (++) (bcs_hash s)).
  rewrite (go_slice_at (bcs_hash s ++ le_put 4 (bcs_height s)) (le_put 8 (bcs_totalTxns s)) _ 36 44)
    by (rewrite ?zlen_app, ?zlen_le_put; lia). cbn [mbind result_bind].
  rewrite (assoc_L (++) (bcs_hash s ++ _)).
  rewrite (go_slice_at ((bcs_hash s ++ _) ++ le_put 8 (bcs_totalTxns s)) (le_put 4 (zlen w)) w 44 48)
    by (rewrite ?zlen_app, ?zlen_le_put; lia). cbn [mbind result_bind].
  rewrite (assoc_L (++) ((bcs_hash s ++ _) ++ _)).
  rewrite le_get_put_small by (change (256 ^ Z.of_nat 4) with (2 ^ 32); lia).
  rewrite (u32_small (48 + zlen w)) by lia.
  rewrite (go_slice_tail _ w) by (rewrite ?zlen_app, ?zlen_le_put; lia). cbn [mbind result_bind].
  rewrite u32_small, Z.ltb_irrefl by lia. cbn [mbind result_bind].
  rewrite !le_get_put_small by (unfold is_u32, is_u64 in *; first [change (256 ^ Z.of_nat 4) with (2 ^ 32)|change (256 ^ Z.of_nat 8) with (2 ^ 64)]; lia).
  unfold w. rewrite big_Bytes_roundtrip by done. by destruct s.
Qed.

(** ** The index of the active chain *)

Lemma block_index_put ix hash height :
  zlen hash = HashSize → is_i32 height →
  dbFetchHeightByHash (dbPutBlockIndex ix hash height) hash = Ok height ∧
  dbFetchHashByHeight (dbPutBlockIndex ix hash height) height = Ok hash.
Proof.
  intros Hl Hh. unfold dbFetchHeightByHash, dbFetchHashByHeight, dbPutBlockIndex. cbn [hashIndex heightIndex].
  rewrite !lookup_insert_eq. split.
  - rewrite go_slice_total by (rewrite ?zlen_le_put; lia). cbn [mbind result_bind].
    rewrite take_ge by (rewrite length_drop, length_le_put; lia).
    change (drop (Z.to_nat 0) (le_put 4 (u32 height))) with (le_put 4 (u32 height)).
    rewrite le_get_put_small, i32_u32; [done|done|].
    change (256 ^ Z.of_nat 4) with (2 ^ 32). apply Z.mod_pos_bound. lia.
  - f_equal. apply take_app_length'. unfold zlen, HashSize in Hl. lia.
Qed.

Lemma u32_put_inj h h' : is_i32 h → is_i32 h' → le_put 4 (u32 h) = le_put 4 (u32 h') → h = h'.
Proof.
  intros Hh Hh' E%(f_equal le_get). rewrite !le_get_put_small in E
    by (change (256 ^ Z.of_nat 4) with (2 ^ 32); apply Z.mod_pos_bound; lia).
  apply (f_equal i32) in E. by rewrite !i32_u32 in E.
Qed.

(** Removing what was put, and entries of other blocks. *)
Lemma block_index_remove ix hash height :
  hashIndex ix !! hash = None → heightIndex ix !! le_put 4 (u32 height) = None →
  dbRemoveBlockIndex (dbPutBlockIndex ix hash height) hash height = ix.
Proof.
  intros H1 H2. unfold dbRemoveBlockIndex, dbPutBlockIndex. cbn [hashIndex heightIndex].
  rewrite !delete_insert_id by done. by destruct ix.
Qed.

Lemma block_index_other ix hash height hash' height' :
  hash' ≠ hash → height' ≠ height → is_i32 height → is_i32 height' →
  dbFetchHeightByHash (dbPutBlockIndex ix hash height) hash' = dbFetchHeightByHash ix hash' ∧
  dbFetchHashByHeight (dbPutBlockIndex ix hash height) height' = dbFetchHashByHeight ix height'.
Proof.
  intros Hh Hn Hi Hi'. unfold dbFetchHeightByHash, dbFetchHashByHeight, dbPutBlockIndex. cbn [hashIndex heightIndex].
  rewrite !lookup_insert_ne; [done| |done]. intros E. by apply Hn, u32_put_inj.
Qed.

(** ** The order of the block index

    The database iterates keys in byte-wise order; so headers are read back in
    order of height, each after its parent. *)
Fixpoint bytes_lt (a b : bytes) : Prop :=
  match a, b with
  | _, [] => False
  | [], _ :: _ => True
  | x :: a, y :: b => b2z x < b2z y ∨ x = y ∧ bytes_lt a b
  end.

Lemma bytes_lt_be n a b s t :
  0 <= a < 256 ^ Z.of_nat n → 0 <= b < 256 ^ Z.of_nat n → a < b →
  bytes_lt (rev (le_put n a) ++ s) (rev (le_put n b) ++ t).
Proof.
  revert a b s t. induction n as [|n IH]; intros a b s t Ha Hb Hlt; [rewrite Z.pow_0_r in *; lia|].
  cbn [le_put rev]. rewrite <-!(assoc_L (++)). cbn [app]. rewrite pow256_S in Ha, Hb.
  pose proof (Z.div_mod a 256 ltac:(lia)). pose proof (Z.div_mod b 256 ltac:(lia)).
  pose proof (Z.mod_pos_bound a 256 ltac:(lia)). pose proof (Z.mod_pos_bound b 256 ltac:(lia)).
  assert (0 <= a / 256 < 256 ^ Z.of_nat n) by (split; [apply Z.div_pos|apply Z.div_lt_upper_bound]; lia).
  assert (0 <= b / 256 < 256 ^ Z.of_nat n) by (split; [apply Z.div_pos|apply Z.div_lt_upper_bound]; lia).
  destruct (Z.eq_dec (a / 256) (b / 256)) as [E|Hne]; [|apply IH; lia].
  rewrite E. assert (Hs : ∀ l u v, bytes_lt u v → bytes_lt (l ++ u) (l ++ v)).
  { induction l as [|x l IHl]; intros u v Huv; [done|]. right. auto. }
  apply Hs. left. rewrite !b2z_z2b. lia.
Qed.

Lemma blockIndexKey_order hash hash' h h' :
  is_u32 h → is_u32 h' → h < h' → bytes_lt (blockIndexKey hash h) (blockIndexKey hash' h').
Proof. intros Hh Hh' Hlt. apply bytes_lt_be; [done|done|done]. Qed.

Lemma blockIndexKey_hash a b h h' : blockIndexKey a h = blockIndexKey b h' → a = b.
Proof.
  unfold blockIndexKey. intros E. apply (f_equal (drop 4)) in E. by rewrite !drop_app_length' in E by (by rewrite length_rev, length_le_put).
Qed.

(** ** Statuses and sizes read back *)

Lemma block_status_put b hash status : 0 <= status < 256 → dbFetchBlockStatus (dbStoreBlockStatus b hash status) hash = Ok status.
Proof.
  intros Hs. unfold dbFetchBlockStatus, dbStoreBlockStatus. rewrite lookup_insert_eq, go_index_0. cbn. by rewrite b2z_z2b_small.
Qed.

Lemma block_vsize_put b hash vsize : is_i64 vsize → dbFetchBlockVsize (dbStoreBlockVsize b hash vsize) hash = Ok vsize.
Proof.
  intros Hs. unfold dbFetchBlockVsize, dbStoreBlockVsize. rewrite lookup_insert_eq, zlen_le_put.
  change (Z.of_nat 8 =? 8) with true. cbn [negb].
  rewrite le_get_put_small, i64_u64; [done|done|]. change (256 ^ Z.of_nat 8) with (2 ^ 64). apply Z.mod_pos_bound. lia.
Qed.
