(* ===== verification/ChainState.v ===== *)
(** * The state of the chain (blockchain/chain.go, blockindex.go)

    The block index with its statuses, the active chain, the unspent outputs and
    the database, and the operations that move the tip: connecting and
    disconnecting a block, choosing a side chain, reorganizing to it. *)
From stdpp Require Import fin_maps fin_sets strings.
From Stdlib Require Import Lia ZArith.
From S2P Require Import Prelude Wire MsgTx ScriptError Crypto SigCache SigHash Engine Work ChainParams BlockIndex RuleError TxRules Merkle Compress UtxoView Ledger ConnectBlock UtxoStore SizeHelper UtxoCache ChainView ChainIO.

(** ** The block index

    A node is known by its hash.  The status bits, which the code changes in the
    shared node, are kept beside the nodes: the [status] of a node is the one it
    was added with. *)
Record blockIndex := mkBlockIndex {
  bi_index : gmap bytes blockNode;
  bi_status : gmap bytes Z;
  bi_dirty : gset bytes
}.

Definition newBlockIndex : blockIndex := mkBlockIndex ∅ ∅ ∅.

Definition HaveBlock (bi : blockIndex) (hash : bytes) : bool := bool_decide (is_Some (bi_index bi !! hash)).
Definition LookupNode (bi : blockIndex) (hash : bytes) : option blockNode := bi_index bi !! hash.

(** A new node has the status it was made with. *)
Definition addNode (bi : blockIndex) (node : blockNode) : blockIndex :=
  mkBlockIndex (<[hash node := node]> (bi_index bi)) (delete (hash node) (bi_status bi)) (bi_dirty bi).

Definition Add (bi : blockIndex) (h : header) (parent : option blockNode) (status vsize : Z) : blockNode * blockIndex :=
  let node := newBlockNode h parent status vsize in
  (node, addNode bi node).

Definition NodeStatus (bi : blockIndex) (node : blockNode) : Z := default (status node) (bi_status bi !! hash node).

Definition set_status (bi : blockIndex) (node : blockNode) (s : Z) : blockIndex :=
  mkBlockIndex (bi_index bi) (<[hash node := s]> (bi_status bi)) ({[hash node]} ∪ bi_dirty bi).

Definition SetStatusFlags (bi : blockIndex) (node : blockNode) (flags : Z) : blockIndex :=
  set_status bi node (set_flags (NodeStatus bi node) flags).

Definition UnsetStatusFlags (bi : blockIndex) (node : blockNode) (flags : Z) : blockIndex :=
  set_status bi node (unset_flags (NodeStatus bi node) flags).

(** The loop over the dirty nodes; their order does not matter, each is written
    under its own key.  A dirty hash is that of a node with a status. *)
Definition store_statuses (bi : blockIndex) (statusBucket : Bucket) : Bucket :=
  foldr (λ h b, match bi_status bi !! h with Some s => dbStoreBlockStatus b h s | None => b end)
    statusBucket (elements (bi_dirty bi)).

Definition flushToDB (bi : blockIndex) (statusBucket : Bucket) : blockIndex * Bucket :=
  if bool_decide (bi_dirty bi = ∅) then (bi, statusBucket)
  else (mkBlockIndex (bi_index bi) (bi_status bi) ∅, store_statuses bi statusBucket).

(** ** The chain *)

(** The size of the block, which is only reported, is left out. *)
Record BestState := mkBestState {
  bs_Hash : bytes;
  bs_Height : Z;
  bs_Bits : Z;
  bs_NumTxns : Z;
  bs_TotalTxns : Z;
  bs_MedianTime : Z;
  bs_BlockTime : Z
}.

Definition newBestState (node : blockNode) (numTxns totalTxns medianTime blockTime : Z) : BestState :=
  mkBestState (hash node) (height node) (bits node) numTxns totalTxns medianTime blockTime.

(** The blocks and buckets of the database other than the outputs, which are
    below the cache. *)
Record ChainDB := mkChainDB {
  db_blocks : gmap bytes Block;
  db_index : IndexBuckets;
  db_bestState : bytes;
  db_status : Bucket;
  db_journal : Bucket
}.

(** What the database prunes is its own choice. *)
Class BlockPruner := { PruneBlocks : Z → gmap bytes Block → list bytes }.

Definition BFFastAdd : Z := 1.
Definition BFNoPoWCheck : Z := 2.
Definition BFNone : Z := 0.

Record Chain := mkChain {
  base : @BlockChain utxoCache;
  index : blockIndex;
  bestChain : chainView;
  stateSnapshot : BestState;
  cdb : ChainDB;
  pruneTarget : Z
}.

Definition set_base (b : Chain) x : Chain := mkChain x (index b) (bestChain b) (stateSnapshot b) (cdb b) (pruneTarget b).
Definition set_index (b : Chain) x : Chain := mkChain (base b) x (bestChain b) (stateSnapshot b) (cdb b) (pruneTarget b).
Definition set_bestChain (b : Chain) x : Chain := mkChain (base b) (index b) x (stateSnapshot b) (cdb b) (pruneTarget b).
Definition set_stateSnapshot (b : Chain) x : Chain := mkChain (base b) (index b) (bestChain b) x (cdb b) (pruneTarget b).
Definition set_cdb (b : Chain) x : Chain := mkChain (base b) (index b) (bestChain b) (stateSnapshot b) x (pruneTarget b).
Definition set_cache (b : Chain) s : Chain := set_base b (set_utxoCache (base b) s).

Definition set_db_index (d : ChainDB) x : ChainDB := mkChainDB (db_blocks d) x (db_bestState d) (db_status d) (db_journal d).
Definition set_db_journal (d : ChainDB) x : ChainDB := mkChainDB (db_blocks d) (db_index d) (db_bestState d) (db_status d) x.

(** Operations on one part of the chain. *)
Definition on_index (f : blockIndex → blockIndex) : ST RuleErr Chain unit := λ b, Ok ((), set_index b (f (index b))).

Definition on_cache {A} (m : ST RuleErr utxoCache A) : ST RuleErr Chain A := λ b,
  '(a, s) ← m (ConnectBlock.utxoCache (base b));
  Ok (a, set_cache b s).

Definition flush_index : ST RuleErr Chain unit := λ b,
  let '(bi, st) := flushToDB (index b) (db_status (cdb b)) in
  Ok ((), set_cdb (set_index b bi) (mkChainDB (db_blocks (cdb b)) (db_index (cdb b)) (db_bestState (cdb b)) st (db_journal (cdb b)))).

(** A node the code dereferences. *)
Definition deref (n : option blockNode) : ST RuleErr Chain blockNode := λ b, match n with Some n => Ok (n, b) | None => Panic end.

Definition dbPutBestState (d : ChainDB) (snapshot : BestState) (workSum : Z) : ChainDB :=
  mkChainDB (db_blocks d) (db_index d)
    (serializeBestChainState (mkBestChainState (bs_Hash snapshot) (u32 (bs_Height snapshot)) (bs_TotalTxns snapshot) workSum))
    (db_status d) (db_journal d).

(** The block is read back with the height of the node. *)
Definition dbFetchBlockByNode (d : ChainDB) (node : blockNode) : result RuleErr Block :=
  match db_blocks d !! hash node with
  | None => Fail ErrBlockNotFound
  | Some block => Ok (mkBlock (b_Hash block) (b_PrevBlock block) (height node) (b_Transactions block))
  end.

(** ** Choosing a tip *)

Definition ShouldChangeTip (currentWork proposedWork currentTipBlockWork proposedTipBlockWork : Z) : bool :=
  if proposedWork <=? currentWork then false
  else
    let diff := proposedWork - currentWork in
    let minBlockWork :=
      if proposedTipBlockWork <? currentTipBlockWork then proposedTipBlockWork else currentTipBlockWork in
    let threshold := Z.shiftr minBlockWork 2 in
    threshold <=? diff.

(** [for n := node; n != nil && n != forkNode; n = n.parent], with [PushFront];
    the boolean is [invalidChain]. *)
Fixpoint attach_loop (bi : blockIndex) (forkNode : option blockNode) (n : blockNode) (attachNodes : list blockNode)
    : bool * list blockNode :=
  if same (Some n) forkNode then (false, attachNodes)
  else if KnownInvalid (NodeStatus bi n) then (true, attachNodes)
  else
    match parent n with
    | Some p => attach_loop bi forkNode p (n :: attachNodes)
    | None => (false, n :: attachNodes)
    end.

Fixpoint detach_loop (forkNode : option blockNode) (n : blockNode) (detachNodes : list blockNode) : list blockNode :=
  if same (Some n) forkNode then detachNodes
  else
    let detachNodes := detachNodes ++ [n] in
    match parent n with Some p => detach_loop forkNode p detachNodes | None => detachNodes end.

(** The nodes to detach and to attach. *)
Definition getReorganizeNodes (node : blockNode) : ST RuleErr Chain (list blockNode * list blockNode) := λ b,
  match parent node with
  | None => Panic
  | Some p =>
      if KnownInvalid (NodeStatus (index b) p)
      then Ok (([], []), set_index b (SetStatusFlags (index b) node statusInvalidAncestor))
      else
        let forkNode := findFork (bestChain b) (Some node) in
        let '(invalidChain, attachNodes) := attach_loop (index b) forkNode node [] in
        if invalidChain then
          Ok (([], []), set_index b (foldl (λ bi n, SetStatusFlags bi n statusInvalidAncestor) (index b) attachNodes))
        else
          let detachNodes := match tip (bestChain b) with Some n => detach_loop forkNode n [] | None => [] end in
          Ok ((detachNodes, attachNodes), b)
  end.

(** ** Moving the tip *)

Section chain.
Context `{HashFns} `{Keys} `{!MapRange bytes sigCacheEntry} `{!MapRange bytes TxSigHashes}.
Context `{Log2Conv} `{PubKeyFormats} `{!MapOrder OutPoint (option UtxoEntry)} `{!BlockPruner}.

(** The cache of the chain as the source of entries. *)
Context `{!UtxoSource utxoCache}.

(** [time.Now()] during the call. *)
Variable now : Z.

Definition st_gets {A} (f : Chain → A) : ST RuleErr Chain A := λ b, Ok (f b, b).

(** [addr.flush(dbTx, mode, state)] *)
Definition cache_flush (mode : FlushMode) (state : BestState) : ST RuleErr Chain unit := λ b,
  s ← flush mode (bs_Hash state) now (ConnectBlock.utxoCache (base b));
  Ok ((), set_cache b s).

(** What [connectBlock] prunes when there is a target: blocks, their journals,
    after a flush where one is due.  The blocks go when the transaction ends. *)
Definition prune (state : BestState) : ST RuleErr Chain unit := λ b,
  if pruneTarget b =? 0 then Ok ((), b)
  else
    let deletedHashes := PruneBlocks (pruneTarget b) (db_blocks (cdb b)) in
    if zlen deletedHashes =? 0 then Ok ((), b)
    else
      let d := cdb b in
      let d := mkChainDB (foldr delete (db_blocks d) deletedHashes) (db_index d) (db_bestState d) (db_status d)
                 (dbPruneSpendJournalEntry (db_journal d) deletedHashes) in
      if flushNeededAfterPrune (LookupNode (index b)) deletedHashes (ConnectBlock.utxoCache (base b))
      then cache_flush FlushRequired state (set_cdb b d)
      else Ok ((), set_cdb b d).

(** Warnings about unknown rules, the optional indexes and the callbacks of
    [sendNotification] are left out. *)
Definition connectBlock (node : blockNode) (block : Block) (stxos : list SpentTxOut) : ST RuleErr Chain unit :=
  b ← st_get;
  t ← deref (tip (bestChain b));
  if negb (bool_decide (b_PrevBlock block = hash t))
  then st_fail (assertError "connectBlock must be called with a block that extends the main chain")
  else
    spent ← st_lift (countSpentOutputs block);
    if negb (zlen stxos =? spent)
    then st_fail (assertError "connectBlock called with inconsistent spent transaction out information")
    else
      flush_index;;
      let numTxns := zlen (b_Transactions block) in
      medianTime ← st_lift (lift_empty (CalcPastMedianTime (Some node)));
      let state := newBestState node numTxns (u64 (bs_TotalTxns (stateSnapshot b) + numTxns)) medianTime (timestamp node) in
      prune state;;
      st_modify (λ b, set_cdb b (dbPutBestState (cdb b) state (workSum node)));;
      st_modify (λ b, set_cdb b (set_db_index (cdb b) (dbPutBlockIndex (db_index (cdb b)) (b_Hash block) (height node))));;
      b ← st_get;
      journal ← st_lift (dbPutSpendJournalEntry (db_journal (cdb b)) (b_Hash block) stxos);
      st_modify (λ b, set_cdb b (set_db_journal (cdb b) journal));;
      view ← st_lift (lift_empty (setTip (bestChain b) (Some node)));
      st_modify (λ b, set_stateSnapshot (set_bestChain b view) state);;
      b ← st_get;
      should ← st_lift (shouldFlush FlushIfNeeded (bs_Hash state) now (ConnectBlock.utxoCache (base b)));
      if negb should then mret () else cache_flush FlushIfNeeded state.

(** The view after the commit is returned: the caller goes on with it. *)
Definition disconnectBlock (node : blockNode) (block : Block) (view : UtxoViewpoint) : ST RuleErr Chain UtxoViewpoint :=
  b ← st_get;
  t ← deref (tip (bestChain b));
  if negb (bool_decide (hash node = hash t))
  then st_fail (assertError "disconnectBlock must be called with the block at the end of the main chain")
  else
    prevNode ← deref (parent node);
    prevBlock ← st_lift (dbFetchBlockByNode (cdb b) prevNode);
    flush_index;;
    let numTxns := zlen (b_Transactions prevBlock) in
    let newTotalTxns := u64 (bs_TotalTxns (stateSnapshot b) - zlen (b_Transactions block)) in
    medianTime ← st_lift (lift_empty (CalcPastMedianTime (Some prevNode)));
    let state := newBestState prevNode numTxns newTotalTxns medianTime (timestamp prevNode) in
    st_modify (λ b, set_cdb b (dbPutBestState (cdb b) state (workSum node)));;
    st_modify (λ b, set_cdb b (set_db_index (cdb b) (dbRemoveBlockIndex (db_index (cdb b)) (b_Hash block) (height node))));;
    cache_flush FlushRequired state;;
    b ← st_get;
    let s := ConnectBlock.utxoCache (base b) in
    bucket ← st_lift (dbPutUtxoView (utxoBucket (db s)) (Some view));
    st_modify (λ b, set_cache b (mkUtxoCache (mkCacheDB bucket (utxoStateConsistency (db s))) (maxTotalMemoryUsage s)
      (cachedEntries s) (totalEntryMemory s) (lastFlushHash s) (lastFlushTime s)));;
    st_lift (dbFetchSpendJournalEntry (db_journal (cdb b)) block);;
    st_modify (λ b, set_cdb b (set_db_journal (cdb b) (dbRemoveSpendJournalEntry (db_journal (cdb b)) (b_Hash block))));;
    newView ← st_lift (lift_empty (setTip (bestChain b) (Some prevNode)));
    st_modify (λ b, set_stateSnapshot (set_bestChain b newView) state);;
    mret (commit view).

(** *** Checking a reorganization *)

(** The blocks to detach with their journals, and the view behind them. *)
Fixpoint verify_detach (detachNodes : list blockNode) (view : UtxoViewpoint)
    : ST RuleErr Chain (list Block * list (list SpentTxOut) * UtxoViewpoint) :=
  match detachNodes with
  | [] => mret ([], [], view)
  | n :: detachNodes =>
      b ← st_get;
      block ← st_lift (dbFetchBlockByNode (cdb b) n);
      if negb (bool_decide (hash n = b_Hash block)) then st_fail (assertError "detach block node hash does not match")
      else
        view ← on_cache (fetchInputUtxos view block);
        stxos ← st_lift (dbFetchSpendJournalEntry (db_journal (cdb b)) block);
        view ← st_lift (disconnectTransactions view block stxos);
        '(blocks, stxoss, view) ← verify_detach detachNodes view;
        mret (block :: blocks, stxos :: stxoss, view)
  end.

Definition isRuleError (e : RuleErr) : bool := match e with ruleError _ => true | _ => false end.

(** The checks of a block; a broken rule is returned beside the chain.  What a
    failed check loaded into the caches, which answer the same with it, is not
    kept. *)
Definition try_checkConnectBlock (n : blockNode) (block : Block) (view : UtxoViewpoint)
    : ST RuleErr Chain (UtxoViewpoint + RuleErr) := λ b,
  match checkConnectBlock n block view None (base b) with
  | Ok ((view, _), bs) => Ok (inl view, set_base b bs)
  | Fail e => if isRuleError e then Ok (inr e, b) else Fail e
  | Panic => Panic
  end.

Fixpoint verify_attach (attachNodes : list blockNode) (view : UtxoViewpoint)
    : ST RuleErr Chain (list Block + RuleErr) :=
  match attachNodes with
  | [] => mret (inl [])
  | n :: attachNodes =>
      b ← st_get;
      block ← st_lift (dbFetchBlockByNode (cdb b) n);
      if KnownValid (NodeStatus (index b) n) then
        view ← on_cache (fetchInputUtxos view block);
        '(view, _) ← st_lift (view_connectTransactions view block None);
        r ← verify_attach attachNodes view;
        mret (match r with inl blocks => inl (block :: blocks) | inr e => inr e end)
      else
        r ← try_checkConnectBlock n block view;
        match r with
        | inr e =>
            on_index (λ bi, SetStatusFlags bi n statusValidateFailed);;
            on_index (λ bi, foldl (λ bi dn, SetStatusFlags bi dn statusInvalidAncestor) bi attachNodes);;
            mret (inr e)
        | inl view =>
            on_index (λ bi, SetStatusFlags bi n statusValid);;
            r ← verify_attach attachNodes view;
            mret (match r with inl blocks => inl (block :: blocks) | inr e => inr e end)
        end
  end.

(** [lists] in the order the function returns them. *)
Definition verifyReorganizationValidity (detachNodes attachNodes : list blockNode)
    : ST RuleErr Chain ((list Block * list Block * list (list SpentTxOut)) + RuleErr) :=
  match detachNodes, attachNodes with
  | [], [] => mret (inl ([], [], []))
  | _, _ =>
      b ← st_get;
      t ← deref (tip (bestChain b));
      if match detachNodes with n :: _ => negb (bool_decide (hash n = hash t)) | [] => false end
      then st_fail (assertError "reorganize nodes to detach are not for the current best chain")
      else
        (match attachNodes, last detachNodes with
         | firstAttachNode :: _, Some lastDetachNode =>
             p ← deref (parent firstAttachNode);
             q ← deref (parent lastDetachNode);
             if bool_decide (hash p = hash q) then mret () else st_fail (assertError "reorganize nodes do not have the same fork point")
         | _, _ => mret ()
         end);;
        '(detachBlocks, detachSpentTxOuts, view) ← verify_detach detachNodes (SetBestHash (hash t) NewUtxoViewpoint);
        r ← verify_attach attachNodes view;
        mret (match r with
              | inl attachBlocks => inl (detachBlocks, attachBlocks, detachSpentTxOuts)
              | inr e => inr e
              end)
  end.

(** *** Reorganizing *)

(** The loops index the blocks by their position: the lists are as long. *)
Fixpoint reorg_detach (detachNodes : list blockNode) (blocks : list Block) (stxoss : list (list SpentTxOut))
    (view : UtxoViewpoint) : ST RuleErr Chain unit :=
  match detachNodes with
  | [] => mret ()
  | n :: detachNodes =>
      match blocks, stxoss with
      | block :: blocks, stxos :: stxoss =>
          view ← on_cache (fetchInputUtxos view block);
          view ← st_lift (disconnectTransactions view block stxos);
          view ← disconnectBlock n block view;
          reorg_detach detachNodes blocks stxoss view
      | _, _ => λ _, Panic
      end
  end.

Definition connect_to_cache (block : Block) : ST RuleErr Chain (list SpentTxOut) :=
  st_lift (countSpentOutputs block);;
  stxos ← on_cache (cache_connectTransactions block (Some []));
  mret (default [] stxos).

Fixpoint reorg_attach (attachNodes : list blockNode) (blocks : list Block) : ST RuleErr Chain unit :=
  match attachNodes with
  | [] => mret ()
  | n :: attachNodes =>
      match blocks with
      | block :: blocks =>
          stxos ← connect_to_cache block;
          connectBlock n block stxos;;
          reorg_attach attachNodes blocks
      | [] => λ _, Panic
      end
  end.

(** [None] for no error. *)
Definition reorganizeChain (detachNodes attachNodes : list blockNode) : ST RuleErr Chain (option RuleErr) :=
  r ← verifyReorganizationValidity detachNodes attachNodes;
  match r with
  | inr e => mret (Some e)
  | inl (detachBlocks, attachBlocks, detachSpentTxOuts) =>
      b ← st_get;
      t ← deref (tip (bestChain b));
      reorg_detach detachNodes detachBlocks detachSpentTxOuts (SetBestHash (hash t) NewUtxoViewpoint);;
      reorg_attach attachNodes attachBlocks;;
      mret None
  end.

(** *** The best chain *)

(** The boolean and the error; errors other than broken rules end the call
    without a state.  [connectBlock] has no broken rules to report. *)
Definition connectBestChain (node : blockNode) (block : Block) (flags : Z) : ST RuleErr Chain (bool * option RuleErr) :=
  let fastAdd := negb (Z.land flags BFFastAdd =? 0) in
  b ← st_get;
  t ← deref (tip (bestChain b));
  let parentHash := b_PrevBlock block in
  if bool_decide (parentHash = hash t) then
    let fastAdd := fastAdd || KnownValid (NodeStatus (index b) node) in
    failed ←
      (if fastAdd then mret None
       else
         r ← try_checkConnectBlock node block (SetBestHash parentHash NewUtxoViewpoint);
         match r with
         | inl _ => on_index (λ bi, SetStatusFlags bi node statusValid);; flush_index;; mret None
         | inr e => on_index (λ bi, SetStatusFlags bi node statusValidateFailed);; flush_index;; mret (Some e)
         end);
    match failed with
    | Some e => mret (false, Some e)
    | None =>
        stxos ← connect_to_cache block;
        connectBlock node block stxos;;
        b ← st_get;
        (if fastAdd || negb (KnownValid (NodeStatus (index b) node))
         then on_index (λ bi, SetStatusFlags bi node statusValid);; flush_index
         else mret ());;
        mret (true, None)
    end
  else if negb (ShouldChangeTip (workSum t) (workSum node) (CalcWork (bits t)) (CalcWork (bits node)))
  then deref (findFork (bestChain b) (Some node));; mret (false, None)
  else
    '(detachNodes, attachNodes) ← getReorganizeNodes node;
    err ← reorganizeChain detachNodes attachNodes;
    flush_index;;
    mret (match err with None => true | Some _ => false end, err).

(** [isCurrent], at the adjusted time. *)
Definition isCurrent (adjustedTime : Z) : ST RuleErr Chain bool :=
  b ← st_get;
  t ← deref (tip (bestChain b));
  mret (if match LatestCheckpoint (base b) with Some checkpoint => height t <? cp_Height checkpoint | None => false end
        then false
        else i64 (adjustedTime - 24 * 60 * 60) <=? timestamp t).
End chain.
