(* ===== verification/Reorg.v ===== *)
(** * What a reorganization moves

    The lists of [getReorganizeNodes] as paths of the tree, and what happens to
    a block with an invalid ancestor. *)
From stdpp Require Import fin_maps fin_sets strings.
From Stdlib Require Import Lia ZArith.
From S2P Require Import Prelude Wire MsgTx ScriptError Crypto SigCache SigHash Engine Work ChainParams BlockIndex RuleError TxRules Merkle Compress UtxoView Ledger ConnectBlock UtxoStore SizeHelper UtxoCache UtxoCacheSpec ConnectSpec ChainView ChainIO ChainState.

(** ** Statuses *)

Lemma set_flags_valid s f : KnownValid (set_flags s f) = KnownValid s || KnownValid f.
Proof.
  unfold KnownValid, set_flags. rewrite Z.land_lor_distr_l, <-negb_andb. f_equal.
  apply eq_bool_prop_intro. rewrite andb_True, !Is_true_true, !Z.eqb_eq. apply Z.lor_eq_0_iff.
Qed.

(** The bit is in the byte that is stored. *)
Lemma KnownValid_byte s : KnownValid (s mod 256) = KnownValid s.
Proof.
  unfold KnownValid. do 2 f_equal. change 256 with (2 ^ 8). rewrite <-Z.land_ones, <-Z.land_assoc by lia. by f_equal.
Qed.

Lemma set_flags_invalid s f : KnownInvalid (set_flags s f) = KnownInvalid s || KnownInvalid f.
Proof.
  unfold KnownInvalid, set_flags. rewrite Z.land_lor_distr_l, <-negb_andb. f_equal.
  apply eq_bool_prop_intro. rewrite andb_True, !Is_true_true, !Z.eqb_eq. apply Z.lor_eq_0_iff.
Qed.

Lemma set_status_node bi n f m :
  NodeStatus (SetStatusFlags bi n f) m = if bool_decide (hash m = hash n) then set_flags (NodeStatus bi n) f else NodeStatus bi m.
Proof.
  unfold SetStatusFlags, NodeStatus at 1. cbn [set_status bi_status]. case_bool_decide as E.
  - by rewrite E, lookup_insert_eq.
  - by rewrite lookup_insert_ne.
Qed.

(** Marking nodes leaves their other marks, and those of others. *)
Lemma mark_invalid l bi m :
  KnownInvalid (NodeStatus bi m) = true ∨ m ∈ l →
  KnownInvalid (NodeStatus (foldl (λ bi n, SetStatusFlags bi n statusInvalidAncestor) bi l) m) = true.
Proof.
  revert bi. induction l as [|n l IH]; intros bi Hm; cbn [foldl]; [by destruct Hm as [?|?%elem_of_nil]|].
  apply IH. rewrite set_status_node. case_bool_decide as E.
  - left. rewrite set_flags_invalid. apply orb_true_r.
  - destruct Hm as [Hm|[->|Hm]%elem_of_cons]; [by left|done|by right].
Qed.

(** ** Paths *)

(** The nodes after [f] on the way to [n]. *)
Definition above (f n : blockNode) : list blockNode := drop (S (Z.to_nat (height f))) (branch n).

Lemma above_app f n : node_wf n → f ∈ branch n → branch n = branch f ++ above f n.
Proof. intros Hn Hf. unfold above. by rewrite (branch_prefix f n Hn Hf), take_drop. Qed.

Lemma above_self n : node_wf n → above n n = [].
Proof.
  intros Hn. apply drop_ge. pose proof (length_branch n Hn) as El. pose proof (node_wf_height n Hn).
  unfold zlen in El. lia.
Qed.


Lemma above_step f n p : node_wf n → parent n = Some p → f ∈ branch p → above f n = above f p ++ [n].
Proof.
  intros Hn Hp Hf. destruct (node_wf_inv n Hn) as [(E & _)|(q & E & Hwp & _)]; [congruence|].
  assert (q = p) as -> by congruence. apply (app_inv_head (branch f)). rewrite <-above_app.
  - rewrite (branch_unfold n), Hp, (assoc_L (++)), <-above_app by done. done.
  - done.
  - apply elem_of_branch. right. by exists p.
Qed.

(** Up a branch from one of its nodes. *)
Lemma branch_climb f (P : blockNode → Prop) :
  P f → (∀ n p, node_wf n → parent n = Some p → f ∈ branch p → P p → P n) →
  ∀ n, node_wf n → f ∈ branch n → P n.
Proof.
  intros H0 HS n Hn. induction Hn as [h st vs|h p st vs Hp IH Hlt].
  - intros [<-|(p & [=] & _)]%elem_of_branch. done.
  - intros [<-|(q & [= <-] & Hf)]%elem_of_branch; [done|]. by eapply HS; [by apply wf_child|..|apply IH].
Qed.

Lemma attach_loop_unfold bi f n acc :
  attach_loop bi f n acc =
    if same (Some n) f then (false, acc)
    else if KnownInvalid (NodeStatus bi n) then (true, acc)
    else match parent n with Some p => attach_loop bi f p (n :: acc) | None => (false, n :: acc) end.
Proof. by destruct n. Qed.

Lemma detach_loop_unfold f n acc :
  detach_loop f n acc =
    if same (Some n) f then acc
    else match parent n with Some p => detach_loop f p (acc ++ [n]) | None => acc ++ [n] end.
Proof. by destruct n. Qed.

Definition invalid (bi : blockIndex) (n : blockNode) : bool := KnownInvalid (NodeStatus bi n).

Section reorg.
Context (T : blockNode → Prop) (HT : is_tree T).

(** A node above [f] is another one. *)
Lemma not_same n p f : T n → parent n = Some p → f ∈ branch p → same (Some n) (Some f) = false.
Proof.
  intros Hn Hp Hf. apply not_true_iff_false. intros Es.
  assert (T p) as HTp by by apply (tree_parent T HT n). assert (T f) as HTf by by apply (branch_T T HT f p).
  apply (same_eq T HT) in Es as <-; [|done..].
  destruct (node_wf_inv n (tree_wf T HT n Hn)) as [(E & _)|(q & E & _ & Eh & _)]; [congruence|].
  assert (q = p) as -> by congruence. apply elem_of_branch_height in Hf as [_ Hr]; [lia|]. by apply (tree_wf T HT).
Qed.

Lemma node_same_refl n : same (Some n) (Some n) = true.
Proof. cbn. by apply bool_decide_eq_true. Qed.

Lemma detach_loop_ok f n : T n → f ∈ branch n → ∀ acc, detach_loop (Some f) n acc = acc ++ reverse (above f n).
Proof.
  intros Hn Hf. pose proof (tree_wf T HT n Hn) as Hw. revert n Hw Hf Hn.
  apply (branch_climb f (λ n, T n → ∀ acc, detach_loop (Some f) n acc = acc ++ reverse (above f n))).
  - intros Hf acc. rewrite detach_loop_unfold, node_same_refl, above_self by by apply (tree_wf T HT).
    by rewrite reverse_nil, app_nil_r.
  - intros n p Hw Hp Hf IH Hn acc. rewrite detach_loop_unfold, (not_same n p f), Hp by done.
    rewrite IH by by apply (tree_parent T HT n). rewrite (above_step f n p) by done.
    by rewrite reverse_app, reverse_singleton, (assoc_L (++)).
Qed.

(** Without an invalid node the loop collects the path; otherwise what is above
    the last invalid one. *)
Lemma attach_loop_ok bi f n : T n → f ∈ branch n → ∀ acc,
  if existsb (invalid bi) (above f n) then
    ∃ l1 x l2, above f n = l1 ++ x :: l2 ∧ invalid bi x = true ∧ attach_loop bi (Some f) n acc = (true, l2 ++ acc)
  else attach_loop bi (Some f) n acc = (false, above f n ++ acc).
Proof.
  intros Hn Hf. pose proof (tree_wf T HT n Hn) as Hw. revert n Hw Hf Hn.
  apply (branch_climb f (λ n, T n → ∀ acc, if existsb (invalid bi) (above f n) then
      ∃ l1 x l2, above f n = l1 ++ x :: l2 ∧ invalid bi x = true ∧ attach_loop bi (Some f) n acc = (true, l2 ++ acc)
    else attach_loop bi (Some f) n acc = (false, above f n ++ acc))).
  - intros Hf acc. rewrite above_self by by apply (tree_wf T HT). cbn [existsb app].
    by rewrite attach_loop_unfold, node_same_refl.
  - intros n p Hw Hp Hf IH Hn acc. rewrite (above_step f n p), existsb_app by done. cbn [existsb].
    rewrite attach_loop_unfold, (not_same n p f), Hp, orb_false_r by done. unfold invalid at 2.
    destruct (KnownInvalid (NodeStatus bi n)) eqn:Ei.
    + rewrite orb_true_r. by exists (above f p), n, [].
    + rewrite orb_false_r. specialize (IH (tree_parent T HT n p Hn Hp) (n :: acc)).
      destruct (existsb (invalid bi) (above f p)).
      * destruct IH as (l1 & x & l2 & E & Hx & ->). exists l1, x, (l2 ++ [n]). split_and!; [|done|].
        -- by rewrite E, <-(assoc_L (++)).
        -- by rewrite <-(assoc_L (++)).
      * by rewrite IH, <-(assoc_L (++)).
Qed.
Lemma mark_other bi n f m : T n → T m → KnownValid f = false →
  KnownValid (NodeStatus (SetStatusFlags bi n f) m) = true → KnownValid (NodeStatus bi m) = true.
Proof.
  intros Hn HTm Hf. rewrite set_status_node. case_bool_decide as E; [|done]. rewrite set_flags_valid, Hf, orb_false_r.
  by apply (tree_hash T HT) in E as ->.
Qed.

Lemma mark_others bi l m : Forall T l → T m →
  KnownValid (NodeStatus (foldl (λ bi dn, SetStatusFlags bi dn statusInvalidAncestor) bi l) m) = true →
  KnownValid (NodeStatus bi m) = true.
Proof.
  intros Hl HTm. revert bi. induction Hl as [|n l Hn _ IH]; intros bi; cbn [foldl]; [done|].
  intros Hk%IH. by apply (mark_other _ n statusInvalidAncestor).
Qed.

End reorg.

Lemma reorganize_nodes_ok T b t n p :
  is_tree T → view_of (bestChain b) (Some t) → T t → T n → height t < 2 ^ 31 - 1 → parent n = Some p →
  ∃ f, fork_point t n f ∧ branch t = branch f ++ above f t ∧ branch n = branch f ++ above f n ∧
    if KnownInvalid (NodeStatus (index b) p) || existsb (invalid (index b)) (above f n)
    then ∃ bi, getReorganizeNodes n b = Ok (([], []), set_index b bi) ∧ KnownInvalid (NodeStatus bi n) = true ∧
      (∀ m, KnownInvalid (NodeStatus (index b) m) = true → KnownInvalid (NodeStatus bi m) = true) ∧
      ∀ m, T m → KnownValid (NodeStatus bi m) = true → KnownValid (NodeStatus (index b) m) = true
    else getReorganizeNodes n b = Ok ((reverse (above f t), above f n), b).
Proof.
  intros HT Hv Ht Hn Hmax Hp.
  destruct (findFork_view T HT (bestChain b) t Hv Ht Hmax n Hn) as (f & Ef & _ & Hf).
  pose proof Hf as (Hfn & Hft & _). exists f. split; [done|].
  split; [by apply above_app; [apply (tree_wf T HT)|]|]. split; [by apply above_app; [apply (tree_wf T HT)|]|].
  unfold getReorganizeNodes. rewrite Hp. destruct (KnownInvalid (NodeStatus (index b) p)) eqn:Ep; cbn [orb].
  - eexists; split; [done|]. split; [|split; [intros m Hm|intros m HTm]].
    + rewrite set_status_node, bool_decide_eq_true_2, set_flags_invalid by done. apply orb_true_r.
    + rewrite set_status_node. case_bool_decide; [|done]. rewrite set_flags_invalid. apply orb_true_r.
    + by apply (mark_other T HT _ n statusInvalidAncestor).
  - rewrite Ef. pose proof (attach_loop_ok T HT (index b) f n Hn Hfn []) as Ha.
    destruct (existsb _ _) eqn:Ex.
    + destruct Ha as (l1 & x & l2 & El & Hx & ->). eexists; split; [done|].
      rewrite app_nil_r. split; [|split; [intros m Hm; apply mark_invalid; by left|]].
      2: { intros m HTm Hk. apply (mark_others T HT) in Hk; [done| |done].
           pose proof (branch_tree T HT n Hn) as Hall. apply (Forall_drop _ (S (Z.to_nat (height f)))) in Hall.
           fold (above f n) in Hall. rewrite El in Hall. by apply Forall_app in Hall as [_ [_ ?]%Forall_cons]. }
      apply mark_invalid.
      assert (last (above f n) = Some n) as Hl.
      { unfold above. destruct (elem_of_branch f n) as [[->|(q & Hq & Hfq)] _]; [done| |].
        - rewrite above_self in El by by apply (tree_wf T HT). by destruct l1.
        - fold (above f n). rewrite (above_step f n q) by (done || by apply (tree_wf T HT)). apply last_snoc. }
      rewrite El in Hl. destruct (decide (l2 = [])) as [->|Hne].
      * rewrite last_snoc in Hl. injection Hl as ->. by left.
      * right. rewrite last_app_cons, last_cons in Hl. destruct (last l2) eqn:E2; [|by apply last_None in E2].
        injection Hl as ->. by apply last_Some_elem_of.
    + rewrite Ha, app_nil_r. rewrite (tip_view (bestChain b) t Hv).
      by rewrite (detach_loop_ok T HT).
Qed.

(** What [getReorganizeNodes] returns.  With [f] the last common node of the
    branch of the tip and of the node: the nodes from the tip down to [f] to
    detach, those from [f] up to the node to attach, so that the one branch
    becomes the other.  If the parent or a node above [f] is known to be
    invalid, nothing is to be moved, the chain is left as it is and the node
    ends up marked. *)
Theorem getReorganizeNodes_spec T b t n p :
  is_tree T → view_of (bestChain b) (Some t) → T t → T n → height t < 2 ^ 31 - 1 → parent n = Some p →
  ∃ f, fork_point t n f ∧ branch t = branch f ++ above f t ∧ branch n = branch f ++ above f n ∧
    if KnownInvalid (NodeStatus (index b) p) || existsb (invalid (index b)) (above f n)
    then ∃ bi, getReorganizeNodes n b = Ok (([], []), set_index b bi) ∧ KnownInvalid (NodeStatus bi n) = true ∧
      ∀ m, KnownInvalid (NodeStatus (index b) m) = true → KnownInvalid (NodeStatus bi m) = true
    else getReorganizeNodes n b = Ok ((reverse (above f t), above f n), b).
Proof.
  intros HT Hv Ht Hn Hmax Hp. destruct (reorganize_nodes_ok T b t n p HT Hv Ht Hn Hmax Hp) as (f & Hf & Et & En & Hg).
  exists f. split_and!; [done..|]. destruct (_ || _); [|done]. destruct Hg as (bi & ? & ? & ? & _). by exists bi.
Qed.

(** ** The choice *)

(** Moving to another tip needs more work, by a quarter of a block at least; so
    no two tips are both better than the other. *)
Lemma ShouldChangeTip_spec cw pw cb pb :
  ShouldChangeTip cw pw cb pb = true ↔ cw < pw ∧ Z.min cb pb / 4 <= pw - cw.
Proof.
  unfold ShouldChangeTip. rewrite Z.shiftr_div_pow2 by done. change (2 ^ 2) with 4.
  destruct (Z.leb_spec pw cw); [split; [done|lia]|].
  assert ((if pb <? cb then pb else cb) = Z.min cb pb) as -> by (destruct (Z.ltb_spec pb cb); lia).
  rewrite Z.leb_le. lia.
Qed.

Section best.
Context `{HashFns} `{Keys} `{!MapRange bytes sigCacheEntry} `{!MapRange bytes TxSigHashes}.
Context `{Log2Conv} `{PubKeyFormats} `{!MapOrder OutPoint (option UtxoEntry)} `{!BlockPruner}.
Context `{!UtxoSource utxoCache}.

Lemma flush_index_ok (b : Chain) :
  ∃ b', flush_index b = Ok ((), b') ∧ base b' = base b ∧ bestChain b' = bestChain b ∧ stateSnapshot b' = stateSnapshot b ∧
    pruneTarget b' = pruneTarget b ∧ (∀ m, NodeStatus (index b') m = NodeStatus (index b) m) ∧
    db_blocks (cdb b') = db_blocks (cdb b) ∧ db_index (cdb b') = db_index (cdb b) ∧
    db_bestState (cdb b') = db_bestState (cdb b) ∧ db_journal (cdb b') = db_journal (cdb b) ∧
    db_status (cdb b') = (flushToDB (index b) (db_status (cdb b))).2.
Proof.
  unfold flush_index. destruct (flushToDB (index b) (db_status (cdb b))) as [bi st] eqn:E.
  eexists; split; [done|]. unfold flushToDB in E. case_bool_decide; injection E as <- <-; by split_and!.
Qed.

Lemma reorganizeChain_nothing now (b : Chain) t :
  tip (bestChain b) = Some t → reorganizeChain now [] [] b = Ok (None, b).
Proof.
  intros Ht. unfold reorganizeChain. cbv [mbind st_bind]. cbn [verifyReorganizationValidity mret st_ret].
  cbv [st_ret st_get]. rewrite Ht. done.
Qed.

(** The chain has not moved: what is left out is the statuses of the nodes. *)
Record unmoved (b b' : Chain) : Prop := {
  um_base : base b' = base b;
  um_view : bestChain b' = bestChain b;
  um_snapshot : stateSnapshot b' = stateSnapshot b;
  um_blocks : db_blocks (cdb b') = db_blocks (cdb b);
  um_index : db_index (cdb b') = db_index (cdb b);
  um_best : db_bestState (cdb b') = db_bestState (cdb b);
  um_journal : db_journal (cdb b') = db_journal (cdb b)
}.

(** A block with an invalid ancestor on a branch with more work moves nothing, and
    is marked.  It is reported as connected to the main chain, without an error. *)
Lemma connectBestChain_invalid_ancestor now T (b : Chain) t n p block flags :
  is_tree T → view_of (bestChain b) (Some t) → T t → T n → height t < 2 ^ 31 - 1 → parent n = Some p →
  b_PrevBlock block ≠ hash t →
  ShouldChangeTip (workSum t) (workSum n) (CalcWork (bits t)) (CalcWork (bits n)) = true →
  (∃ m, m ∈ branch n ∧ m ∉ branch t ∧ invalid (index b) m = true) →
  ∃ b', connectBestChain now n block flags b = Ok ((true, None), b') ∧
    unmoved b b' ∧ invalid (index b') n = true ∧ ∀ m, invalid (index b) m = true → invalid (index b') m = true.
Proof.
  intros HT Hv Ht Hn Hmax Hp Hprev Hw (m & Hmn & Hmt & Hm). pose proof (tip_view (bestChain b) t Hv) as Htip.
  destruct (reorganize_nodes_ok T b t n p HT Hv Ht Hn Hmax Hp) as (f & (Hfn & Hft & _) & _ & En & Hg).
  rewrite (proj2 (orb_true_iff _ _)) in Hg.
  2: { right. apply existsb_exists. exists m. split; [|done]. apply list_elem_of_In.
       rewrite En in Hmn. apply elem_of_app in Hmn as [Hmf|?]; [|done]. exfalso. apply Hmt.
       by apply (branch_trans m f t); [apply (tree_wf T HT)|..]. }
  destruct Hg as (bi & Hg & Hi & Hkeep & _). unfold connectBestChain. cbv [mbind st_bind st_get]. rewrite Htip. cbn [deref].
  rewrite bool_decide_eq_false_2 by done. rewrite Hw. cbn [negb]. rewrite Hg.
  rewrite (reorganizeChain_nothing now (set_index b bi) t) by done.
  destruct (flush_index_ok (set_index b bi)) as (b' & -> & E1 & E2 & E3 & E4 & E5 & E6 & E7 & E8 & E9 & _).
  exists b'. split; [done|]. split; [by constructor|]. unfold invalid. setoid_rewrite E5. by split.
Qed.
(** C21 A branch with an invalid block is never adopted.  A block that would move
    the tip, since its branch has enough more work, but descends from a block known
    to be invalid that is not on the best chain, moves nothing: the view, the coins
    and their cache, the snapshot and the database's blocks, indexes, best state
    and journals stay as they are; the block is marked invalid, and what was known
    to be invalid stays so.  The call ends without a panic or a failure. *)
Theorem invalid_branch_not_adopted now T (b : Chain) t n p block flags :
  is_tree T → view_of (bestChain b) (Some t) → T t → T n → height t < 2 ^ 31 - 1 → parent n = Some p →
  b_PrevBlock block ≠ hash t →
  ShouldChangeTip (workSum t) (workSum n) (CalcWork (bits t)) (CalcWork (bits n)) = true →
  (∃ m, m ∈ branch n ∧ m ∉ branch t ∧ invalid (index b) m = true) →
  ∃ r b', connectBestChain now n block flags b = Ok (r, b') ∧ unmoved b b' ∧ invalid (index b') n = true ∧
    ∀ m, invalid (index b) m = true → invalid (index b') m = true.
Proof.
  intros HT Hv Ht Hn Hmax Hp Hprev Hw Hbad.
  destruct (connectBestChain_invalid_ancestor now T b t n p block flags HT Hv Ht Hn Hmax Hp Hprev Hw Hbad) as (b' & E & Hrest). by exists (true, None), b'.
Qed.
End best.

(** ** Examples *)

#[export] Instance prune_nothing : BlockPruner := {| PruneBlocks _ _ := [] |}.

(** A chain at a tip, with the statuses of some nodes, nothing in the database. *)
Definition demo_state (t : blockNode) (statuses : gmap bytes Z) : Chain :=
  mkChain (demo_chain_at (newUtxoCache (mkCacheDB ∅ None) 100000)) (mkBlockIndex ∅ statuses ∅)
    (mkChainView (Some <$> branch t)) (mkBestState (hash t) (height t) (bits t) 1 1 0 0)
    (mkChainDB ∅ (mkIndexBuckets ∅ ∅) [] ∅ ∅) 0.

Lemma demo_state_view t st : view_of (bestChain (demo_state t st)) (Some t).
Proof. done. Qed.

Lemma demo_chain_parent k : parent (demo_chain (S k)) = Some (demo_chain k).
Proof. done. Qed.

Lemma demo_branch j k : (j <= k)%nat → demo_chain j ∈ branch (demo_chain k).
Proof.
  induction 1 as [|k _ IH]; [apply branch_self|]. apply elem_of_branch. right. exists (demo_chain k). by rewrite demo_chain_parent.
Qed.

(** The tip is on the side: the way to the fortieth block. *)
Lemma getReorganizeNodes_spec_witness :
  ∃ f, fork_point demo_side (demo_chain 40) f ∧ branch demo_side = branch f ++ above f demo_side ∧
    branch (demo_chain 40) = branch f ++ above f (demo_chain 40) ∧
    if KnownInvalid (NodeStatus (index (demo_state demo_side ∅)) (demo_chain 39)) ||
       existsb (invalid (index (demo_state demo_side ∅))) (above f (demo_chain 40))
    then ∃ bi, getReorganizeNodes (demo_chain 40) (demo_state demo_side ∅) = Ok (([], []), set_index (demo_state demo_side ∅) bi) ∧
      KnownInvalid (NodeStatus bi (demo_chain 40)) = true ∧
      ∀ m, KnownInvalid (NodeStatus (index (demo_state demo_side ∅)) m) = true → KnownInvalid (NodeStatus bi m) = true
    else getReorganizeNodes (demo_chain 40) (demo_state demo_side ∅) =
      Ok ((reverse (above f demo_side), above f (demo_chain 40)), demo_state demo_side ∅).
Proof.
  exact (getReorganizeNodes_spec demo_fork (demo_state demo_side ∅) demo_side (demo_chain 40) (demo_chain 39)
    demo_fork_ok (demo_state_view demo_side ∅) (proj2 demo_fork_nodes) (proj1 demo_fork_nodes) ltac:(by vm_compute) (demo_chain_parent 39)).
Defined.

(** One block to detach and ten to attach. *)
Example demo_reorg_lengths :
  match getReorganizeNodes (demo_chain 40) (demo_state demo_side ∅) with
  | Ok ((d, a), _) => (length d, length a, hash <$> head d, (le_get ∘ hash) <$> head a) = (1%nat, 10%nat, Some (hash demo_side), Some 31)
  | _ => False
  end.
Proof. by vm_compute. Qed.

(** The thirty-fifth block is known to be invalid, its descendants were added
    before that was known. *)
Definition demo_bad : Chain := demo_state demo_side {[ hash (demo_chain 35) := statusValidateFailed ]}.

Definition demo_late : Block := mkBlock (hash (demo_chain 40)) (hash (demo_chain 39)) 40 [].

Lemma demo_bad_ancestor :
  ∃ m, m ∈ branch (demo_chain 40) ∧ m ∉ branch demo_side ∧ KnownInvalid (NodeStatus (index demo_bad) m) = true.
Proof.
  exists (demo_chain 35). split; [|split].
  - apply demo_branch. lia.
  - intros Hin. destruct (elem_of_branch_height (demo_chain 35) demo_side) as [_ Hr];
      [by apply (tree_wf demo_fork demo_fork_ok), demo_fork_nodes|done|].
    assert (height (demo_chain 35) = 35 ∧ height demo_side = 31) as [E1 E2] by by vm_compute. lia.
  - by vm_compute.
Qed.

Lemma invalid_branch_not_adopted_witness :
  ∃ r b', connectBestChain 9 (demo_chain 40) demo_late BFNone demo_bad = Ok (r, b') ∧ unmoved demo_bad b' ∧
    KnownInvalid (NodeStatus (index b') (demo_chain 40)) = true.
Proof.
  destruct (invalid_branch_not_adopted 9 demo_fork demo_bad demo_side (demo_chain 40) (demo_chain 39) demo_late BFNone
    demo_fork_ok (demo_state_view demo_side _) (proj2 demo_fork_nodes) (proj1 demo_fork_nodes) ltac:(by vm_compute)
    (demo_chain_parent 39) ltac:(apply (bool_decide_unpack _); by vm_compute) ltac:(by vm_compute) demo_bad_ancestor)
    as (r & b' & E & Hu & Hi & _).
  exists r, b'. exact (conj E (conj Hu Hi)).
Defined.
