(* ===== verification/Replay.v ===== *)
(** * The coins of a branch

    What the blocks of a branch leave of the ledger, one after the other from the
    first block on, and what a view does with a block that is known to be valid. *)
From stdpp Require Import fin_maps strings.
From Stdlib Require Import Lia ZArith.
From S2P Require Import Prelude Wire MsgTx ScriptError Taproot Tokenizer Standard Crypto SigCache SigHash Engine EngineExec ChainParams BlockIndex Subsidy RuleError TxRules Merkle Compress UtxoView Ledger ConnectBlock ConnectSpec UtxoStore SizeHelper UtxoCache UtxoCacheSpec Disconnect ChainView.

(** ** Steps are functions *)

Section steps.
Context `{HashFns}.
Implicit Types U W D : UtxoSet.

Lemma tx_step_det maturity h tx U cs fee W cs' fee' W' :
  tx_step maturity h tx U cs fee W → tx_step maturity h tx U cs' fee' W' → cs = cs' ∧ fee = fee' ∧ W = W'.
Proof.
  destruct 1 as [Hc|cs U1 fee Hc Ht]; inversion 1 as [Hc'|? U2 ? Hc' Ht']; subst; try congruence; [done|].
  rewrite Ht in Ht'. by simplify_eq.
Qed.

Lemma txs_step_det maturity h txs U css fees W css' fees' W' :
  txs_step maturity h txs U css fees W → txs_step maturity h txs U css' fees' W' → css = css' ∧ fees = fees' ∧ W = W'.
Proof.
  intros Hs. revert css' fees' W'. induction Hs as [U|tx txs U cs fee U1 css fees U2 Hs1 _ IH]; intros css' fees' W' Hs'.
  - by inversion Hs'.
  - inversion Hs' as [|? ? ? cs0 fee0 U1' css0 fees0 ? Hs1' Hs2']; subst.
    destruct (tx_step_det _ _ _ _ _ _ _ _ _ _ Hs1 Hs1') as (-> & -> & ->). by destruct (IH _ _ _ Hs2') as (-> & -> & ->).
Qed.

(** A coin was there or is an output of one of the transactions. *)
Lemma tx_step_origin maturity h tx U cs fee W op x :
  tx_step maturity h tx U cs fee W → W !! op = Some x → is_Some (U !! op) ∨ op_Hash op = TxHash tx.
Proof.
  intros Hs Hx. destruct (decide (op_Hash op = TxHash tx)) as [?|Hne]; [by right|left].
  destruct (U !! op) eqn:E; [done|]. destruct (tx_step_absent _ _ _ _ _ _ _ _ Hs E Hne). congruence.
Qed.

Lemma txs_step_origin maturity h txs U css fees W op x :
  txs_step maturity h txs U css fees W → W !! op = Some x →
  is_Some (U !! op) ∨ ∃ tx, tx ∈ txs ∧ op_Hash op = TxHash tx.
Proof.
  intros Hs Hx. revert Hx. induction Hs as [U|tx txs U cs fee U1 css fees U2 Hs1 _ IH]; intros Hx; [by left|].
  destruct (IH Hx) as [[y Hy]|(t & ? & ?)]; [|right; exists t; split; [by right|done]].
  destruct (tx_step_origin _ _ _ _ _ _ _ _ _ Hs1 Hy); [by left|]. right. exists tx. split; [by left|done].
Qed.

Lemma txs_step_heights maturity h txs U css fees W :
  txs_step maturity h txs U css fees W → 0 <= h < 2 ^ 31 → heights_ok U → heights_ok W.
Proof. induction 1 as [|? ? ? ? ? ? ? ? ? Hs _ IH]; [done|]. intros. apply IH; [done|]. by eapply tx_step_heights. Qed.
End steps.

(** ** Blocks that are known to be valid *)

Section valid.
Context `{HashFns}.
Implicit Types U W : UtxoSet.

Lemma spend_loop_spent view ins stxos view' stxos' :
  spend_loop view ins stxos = Ok (view', stxos') →
  bestHash view' = bestHash view ∧
  (∀ op, op ∈ PreviousOutPoint <$> ins → ∃ e, entries view' !! op = Some (Some (Spend e))) ∧
  (∀ op, op ∉ PreviousOutPoint <$> ins → entries view' !! op = entries view !! op).
Proof.
  revert view stxos. induction ins as [|ti ins IH]; intros view stxos; cbn [spend_loop fmap list_fmap].
  { intros [= <- <-]. split_and!; [done| |done]. by intros op ?%elem_of_nil. }
  destruct (LookupEntry view (PreviousOutPoint ti)) as [e|] eqn:El; [|done].
  intros (Hb & Hin & Hout)%IH. split_and!; [done| |].
  - intros op [->|Ho]%elem_of_cons; [|by apply Hin].
    destruct (decide (PreviousOutPoint ti ∈ PreviousOutPoint <$> ins)) as [?|Hni]; [by apply Hin|].
    exists e. rewrite Hout by done. cbn. apply lookup_insert_eq.
  - intros op [Hne Ho]%not_elem_of_cons. rewrite Hout by done. cbn. by apply lookup_insert_ne.
Qed.

(** A view takes a transaction of a step of the ledger along. *)
Lemma connect_tx_valid maturity h tx txs W cs fee W1 view U stxos view1 stxos1 :
  tx_step maturity h tx W cs fee W1 → wf_MsgTx tx →
  (∀ op, ¬ spendable_of (tx :: txs) op → stands_for view U W op) →
  view_connectTransaction view tx h stxos = Ok (view1, stxos1) →
  ∀ op, ¬ spendable_of txs op → stands_for view1 U W1 op.
Proof.
  intros Hs1 Hw Hst Hc.
  assert (Hrest : ∀ v V, (∀ op, spendable_out tx op = None → ¬ spendable_of (tx :: txs) op → stands_for v U V op) →
    (∀ op, entries view1 !! op = match spendable_out tx op with
       | Some o => Some (Some (created_entry (IsCoinBase tx) h o)) | None => entries v !! op end) →
    ∀ op, ¬ spendable_of txs op → stands_for view1 U (add_tx_coins h tx V) op).
  { intros v V Hv He op Hn. unfold stands_for. rewrite He, add_tx_coins_lookup.
    destruct (spendable_out tx op) as [o|] eqn:Es; [by rewrite created_coin|]. apply Hv; [done|].
    intros (t & o & [->|Hin]%elem_of_cons & Ho); [congruence|]. apply Hn. by exists t, o. }
  unfold view_connectTransaction in Hc. destruct Hs1 as [Hcb|cs V fee Hcb Ht _ _ _]; rewrite Hcb in Hc.
  - apply bind_ok in Hc as (v & Hv & [= -> <-]). destruct (AddTxOuts_eq view tx h Hw) as (v' & E & _ & He).
    assert (v' = view1) as -> by congruence. apply (Hrest view W); [|done]. intros op _ Hn. by apply Hst.
  - apply bind_ok in Hc as ([v s] & Hsp & Hc). apply bind_ok in Hc as (v2 & Hv & [= -> <-]).
    destruct (spend_loop_spent _ _ _ _ _ Hsp) as (_ & Hin & Hout).
    destruct (AddTxOuts_eq v tx h Hw) as (v' & E & _ & He). assert (v' = view1) as -> by congruence.
    apply (Hrest v V); [|done]. intros op _ Hn. unfold stands_for. rewrite (take_coins_lookup _ _ _ _ _ Ht).
    destruct (decide (op ∈ prevouts tx)) as [Ho|Ho]; [|rewrite Hout by done; by apply Hst].
    destruct (Hin op Ho) as (e & ->). cbn [coin_of]. by rewrite Spend_spent.
Qed.

(** And the transactions of a block. *)
Lemma connect_loop_valid maturity h txs W css fees W' view U stxos view' stxos' :
  txs_step maturity h txs W css fees W' → Forall wf_MsgTx txs →
  (∀ op, ¬ spendable_of txs op → stands_for view U W op) →
  connect_loop view txs h stxos = Ok (view', stxos') → view_repr view' U W'.
Proof.
  intros Hs. revert view stxos. induction Hs as [W|tx txs W cs fee W1 css fees W2 Hs1 _ IH]; intros view stxos Hwf Hst;
    cbn [connect_loop].
  { intros [= <- <-] op. apply Hst. by intros (t & o & ?%elem_of_nil & _). }
  apply Forall_cons in Hwf as [Hw Hwf]. intros ([view1 stxos1] & Hc & Hk)%bind_ok. apply (IH view1 stxos1); [done| |done].
  by apply (connect_tx_valid _ _ _ _ _ _ _ _ _ _ _ _ _ Hs1 Hw Hst Hc).
Qed.
End valid.

(** ** Branches with blocks *)

Section replay.
Context `{HashFns}.
Implicit Types U W D : UtxoSet.

(** The maturity of coinbases, the emission constant, and the block of a node. *)
Context (p : Params) (c : Z) (blk : blockNode → Block).

Definition txs_of (n : blockNode) : list MsgTx := b_Transactions (blk n).

(** The coins at a node: none at the first block, whose outputs are never
    added; every other block takes a step of the ledger and creates the emission
    of its height at most. *)
Inductive replay : blockNode → UtxoSet → Prop :=
| replay_first n : parent n = None → replay n ∅
| replay_block n q U css fees W :
    parent n = Some q → replay q U →
    txs_step (CoinbaseMaturity p) (height n) (txs_of n) U css fees W →
    total W <= total U + emission c (height n) →
    replay n W.

(** The coins a block spent, by transaction. *)
Definition spent (n : blockNode) (css : list (list Coin)) : Prop :=
  ∃ q U fees W, parent n = Some q ∧ replay q U ∧ txs_step (CoinbaseMaturity p) (height n) (txs_of n) U css fees W.

(** The coinbase starts with the height of its block. *)
Definition coinbase_at (h : Z) (txs : list MsgTx) : Prop :=
  ∃ cb rest i s, txs = cb :: rest ∧ head (tx_TxIn cb) = Some i ∧ height_script h = Ok s ∧ s `prefix_of` SignatureScript i.

(** A tree of nodes with their blocks: each block is the one of its node and
    passed the checks without context; its coinbase starts with its height; no
    transaction spends an output of a later one of its block; the hash function
    does not collide on the transactions; amounts and scripts are such as the
    database can encode. *)
Record block_tree (T : blockNode → Prop) : Prop := {
  bt_tree : is_tree T;
  bt_height n : T n → height n < 2 ^ 31 - 1;
  bt_block n : T n → b_Hash (blk n) = hash n ∧ b_Height (blk n) = height n;
  bt_prev n q : T n → parent n = Some q → b_PrevBlock (blk n) = hash q;
  bt_sane n q : T n → parent n = Some q → sane_block (txs_of n) ∧ in_order (txs_of n) ∧ storable (height n) (txs_of n);
  bt_coinbase n q : T n → parent n = Some q → coinbase_at (height n) (txs_of n);
  bt_collide n a t t' : T n → T a → parent n ≠ None → parent a ≠ None → t ∈ txs_of n → t' ∈ txs_of a →
    TxHash t = TxHash t' → SerializeNoWitness t = SerializeNoWitness t'
}.

(** A part of a tree that has the parents of its nodes. *)
Record subtree (T V : blockNode → Prop) : Prop := {
  sub_in n : T n → V n;
  sub_parent n q : T n → parent n = Some q → T q
}.

Lemma subtree_tree T V : is_tree V → subtree T V → is_tree T.
Proof.
  intros [Hw _ Hh Hr] [Hs Hsp]. constructor; [by auto|exact Hsp| |]; intros a b Ha Hb; [apply Hh|apply Hr]; by apply Hs.
Qed.

Lemma subtree_blocks T V : block_tree V → subtree T V → block_tree T.
Proof.
  intros [Ht Hh Hb Hp Hs Hc Hk] Hsub. constructor; [by apply (subtree_tree T V)|..]; intros; destruct Hsub as [Hin _]; eauto.
Qed.

Lemma replay_det n U W : replay n U → replay n W → U = W.
Proof.
  intros Hr. revert W. induction Hr as [n Hp|n q U css fees V Hp _ IH Hs _]; intros W Hr'.
  - inversion Hr'; subst; [done|congruence].
  - inversion Hr' as [? Hp'|? q' U' css' fees' ? Hp' Hr2 Hs' _]; subst; [congruence|].
    assert (q' = q) as -> by congruence. rewrite <-(IH _ Hr2) in Hs'. by destruct (txs_step_det _ _ _ _ _ _ _ _ _ _ Hs Hs') as (_ & _ & ?).
Qed.

Lemma replay_inv n q W :
  parent n = Some q → replay n W →
  ∃ U css fees, replay q U ∧ txs_step (CoinbaseMaturity p) (height n) (txs_of n) U css fees W ∧
    total W <= total U + emission c (height n).
Proof.
  intros Hp Hr. inversion Hr as [? Hp'|? q' U css fees ? Hp' Hr' Hs Ht]; subst; [congruence|].
  assert (q' = q) as -> by congruence. eauto 10.
Qed.

Lemma spent_inv n q U css :
  parent n = Some q → replay q U → spent n css →
  ∃ fees W, txs_step (CoinbaseMaturity p) (height n) (txs_of n) U css fees W.
Proof.
  intros Hp Hr (q' & U' & fees & W & Hp' & Hr' & Hs). assert (q' = q) as -> by congruence.
  rewrite (replay_det _ _ _ Hr Hr'). eauto.
Qed.

Lemma replay_branch n a W : replay n W → a ∈ branch n → ∃ U, replay a U.
Proof.
  induction 1 as [n Hp|n q U css fees V Hp Hr IH Hs Ht]; intros [->|(q' & Hp' & Hin)]%elem_of_branch.
  - eexists. by apply replay_first.
  - congruence.
  - eexists. by eapply replay_block.
  - assert (q' = q) as -> by congruence. by apply IH.
Qed.

Lemma replay_supply n W : node_wf n → replay n W → total W <= emitted c (Z.to_nat (height n)).
Proof.
  intros Hn Hr. induction Hr as [n Hp|n q U css fees V Hp Hr IH Hs Ht].
  - destruct (node_wf_inv n Hn) as [(_ & _ & ->)|(q & E & _)]; [done|congruence].
  - destruct (node_wf_inv n Hn) as [(E & _)|(q' & E & Hq & Eh & _)]; [congruence|].
    assert (q' = q) as -> by congruence. specialize (IH Hq). pose proof (node_wf_height q Hq).
    replace (Z.to_nat (height n)) with (S (Z.to_nat (height q))) by lia. cbn [emitted].
    replace (Z.of_nat (S (Z.to_nat (height q)))) with (height n) by lia. lia.
Qed.

(** *** No transaction comes twice

    On a branch whose blocks replay no two transactions have the same hash: a
    second one would spend again what the first spent, and coinbases start with
    their heights. *)

(** The transactions so far and the coins they leave: every coin is an output of
    one of them, and what they spent is gone. *)
Record history (L : list MsgTx) (U : UtxoSet) : Prop := {
  hist_nodup : NoDup (TxHash <$> L);
  hist_origin op x : U !! op = Some x → op_Hash op ∈ TxHash <$> L;
  hist_spent t op : t ∈ L → IsCoinBase t = false → op ∈ prevouts t → U !! op = None ∧ op_Hash op ∈ TxHash <$> L
}.

Lemma tx_step_takes maturity h t U cs fee W op :
  tx_step maturity h t U cs fee W → IsCoinBase t = false → op ∈ prevouts t → is_Some (U !! op).
Proof.
  destruct 1 as [Hc|cs U' fee Hc Ht _ _ _]; [congruence|]. intros _ Hin.
  apply take_coins_coins in Ht as [_ Hf]. apply list_elem_of_lookup in Hin as [i Hi].
  destruct (Forall2_lookup_l _ _ _ _ _ Hf Hi) as (x & _ & Hx). by exists x.
Qed.

(** What is there after a step is an output of the transaction, or was there and
    not spent. *)
Lemma tx_step_lookup maturity h t U cs fee W op x :
  tx_step maturity h t U cs fee W → W !! op = Some x →
  op_Hash op = TxHash t ∨ U !! op = Some x ∧ (IsCoinBase t = false → op ∉ prevouts t).
Proof.
  destruct 1 as [Hc|cs U' fee Hc Ht _ _ _]; rewrite add_tx_coins_lookup;
    (destruct (spendable_out t op) as [o|] eqn:Es; [by apply spendable_out_hash in Es; left|]).
  - intros Hx. right. split; [done|congruence].
  - rewrite (take_coins_lookup _ _ _ _ op Ht). destruct (decide (op ∈ prevouts t)); [done|]. by right.
Qed.

Lemma history_step maturity h t L U cs fee W :
  history L U → tx_step maturity h t U cs fee W → TxHash t ∉ TxHash <$> L → history (L ++ [t]) W.
Proof.
  intros [Hnd Ho Hsp] Hs Hnew.
  assert (∀ op, op_Hash op ∈ TxHash <$> L → U !! op = None → W !! op = None) as Hgone.
  { intros op Hin HU. destruct (W !! op) as [x|] eqn:E; [|done].
    destruct (tx_step_lookup _ _ _ _ _ _ _ _ _ Hs E) as [Eh|[? _]]; congruence. }
  constructor; rewrite fmap_app; cbn [fmap list_fmap].
  - apply NoDup_app. split; [done|]. split; [|apply NoDup_singleton]. by intros x Hx ->%list_elem_of_singleton.
  - intros op x Hx. apply elem_of_app. destruct (tx_step_lookup _ _ _ _ _ _ _ _ _ Hs Hx) as [Eh|[? _]]; [right|left; eauto].
    rewrite Eh. by left.
  - intros t' op [Hin| ->%list_elem_of_singleton]%elem_of_app Hc Hop.
    + destruct (Hsp t' op Hin Hc Hop) as [HU Hl]. split; [by apply Hgone|apply elem_of_app; by left].
    + destruct (tx_step_takes _ _ _ _ _ _ _ _ Hs Hc Hop) as [x Hx]. pose proof (Ho op x Hx) as Hl.
      split; [|apply elem_of_app; by left]. destruct (W !! op) as [y|] eqn:E; [|done].
      destruct (tx_step_lookup _ _ _ _ _ _ _ _ _ Hs E) as [Eh|[_ Hni]]; [congruence|]. by destruct (Hni Hc).
Qed.

(** A transaction like an earlier one would spend the same. *)
Lemma history_new maturity h t L U cs fee W :
  history L U → tx_step maturity h t U cs fee W → IsCoinBase t = false → tx_TxIn t ≠ [] →
  (∀ t', t' ∈ L → TxHash t' = TxHash t → prevouts t' = prevouts t ∧ IsCoinBase t' = IsCoinBase t) →
  TxHash t ∉ TxHash <$> L.
Proof.
  intros [Hnd Ho Hsp] Hs Hc Hne Hsame (t' & E & Hin)%list_elem_of_fmap. destruct (Hsame t' Hin (eq_sym E)) as [Ep Ec].
  destruct (tx_TxIn t) as [|i ins] eqn:Ei; [done|].
  assert (PreviousOutPoint i ∈ prevouts t) as Hop by (unfold prevouts; rewrite Ei; by left).
  destruct (tx_step_takes _ _ _ _ _ _ _ _ Hs Hc Hop) as [x Hx].
  destruct (Hsp t' (PreviousOutPoint i) Hin) as [? _]; [congruence|by rewrite Ep|congruence].
Qed.

Lemma history_steps maturity h txs L U css fees W :
  history L U → txs_step maturity h txs U css fees W → Forall (λ t, IsCoinBase t = false ∧ tx_TxIn t ≠ []) txs →
  (∀ t t', t ∈ txs → t' ∈ L ++ txs → TxHash t' = TxHash t → prevouts t' = prevouts t ∧ IsCoinBase t' = IsCoinBase t) →
  history (L ++ txs) W.
Proof.
  intros Hh Hs. revert L Hh. induction Hs as [U|tx txs U cs fee U1 css fees U2 Hs1 _ IH]; intros L Hh Hf Hsame.
  { by rewrite app_nil_r. }
  apply Forall_cons in Hf as [[Hc Hne] Hf]. rewrite (app_assoc L [tx] txs : L ++ tx :: txs = (L ++ [tx]) ++ txs).
  apply IH; [|done|].
  - eapply history_step; [exact Hh|exact Hs1|]. eapply history_new; [exact Hh|exact Hs1|done|done|].
    intros t' Hin. apply Hsame; [by left|]. apply elem_of_app. by left.
  - intros t t' Ht Ht'. apply Hsame; [by right|]. by rewrite <-app_assoc in Ht'.
Qed.

Section tree.
Context (T : blockNode → Prop) (HT : block_tree T).

Lemma bt_wf n : T n → node_wf n.
Proof. apply (tree_wf T (bt_tree T HT)). Qed.

Lemma bt_parent n q : T n → parent n = Some q → T q ∧ height n = height q + 1.
Proof.
  intros Hn Hp. split; [by apply (tree_parent T (bt_tree T HT) n)|].
  destruct (node_wf_inv n (bt_wf n Hn)) as [(E & _)|(q' & E & _ & Eh & _)]; congruence.
Qed.

Lemma replay_ok n W : T n → replay n W → heights_ok W ∧ coins_ok W.
Proof.
  intros Hn Hr. induction Hr as [n Hp|n q U css fees V Hp Hr IH Hs Ht].
  - split; intros op x; by rewrite lookup_empty.
  - destruct (bt_parent n q Hn Hp) as [Hq _]. destruct (IH Hq) as [H1 H2]. destruct (bt_sane T HT n q Hn Hp) as (Hsb & _ & Hst).
    split; [eapply txs_step_heights; [exact Hs|by destruct Hst|done]|].
    by eapply txs_step_coins; [exact Hs|apply Hsb|exact Hst|].
Qed.

(** The transactions of a branch, those of the first block left out. *)
Definition branch_txs (n : blockNode) : list MsgTx := concat (txs_of <$> tail (branch n)).

Lemma branch_txs_root n : parent n = None → branch_txs n = [].
Proof. unfold branch_txs. rewrite branch_unfold. by intros ->. Qed.

Lemma branch_txs_child n q : parent n = Some q → branch_txs n = branch_txs q ++ txs_of n.
Proof.
  unfold branch_txs. rewrite (branch_unfold n). intros ->.
  assert (branch q ≠ []) as Hne by (rewrite branch_unfold; by intros [_ ?]%app_eq_nil).
  destruct (branch q) as [|r l]; [done|]. cbn [tail app]. rewrite fmap_app, concat_app. cbn. by rewrite app_nil_r.
Qed.

Lemma elem_of_branch_txs t n : t ∈ branch_txs n ↔ ∃ a q, a ∈ branch n ∧ parent a = Some q ∧ t ∈ txs_of a.
Proof.
  revert n. enough (∀ k n, (length (branch n) <= k)%nat → t ∈ branch_txs n ↔ ∃ a q, a ∈ branch n ∧ parent a = Some q ∧ t ∈ txs_of a)
    as Hk by (intros n; by apply (Hk (length (branch n)))).
  induction k as [|k IH]; intros n Hk; [by rewrite branch_unfold, length_app in Hk; cbn in Hk; lia|].
  destruct (parent n) as [q|] eqn:Hp.
  - rewrite (branch_txs_child n q Hp), elem_of_app, (IH q); [|rewrite (branch_unfold n), Hp, length_app in Hk; cbn in Hk; lia]. split.
    + intros [(a & r & Ha & Hr & Ht)|Ht]; [exists a, r|exists n, q]; (split; [|done]); [|apply branch_self].
      apply elem_of_branch. right. by exists q.
    + intros (a & r & [->|(q' & Hq' & Ha)]%elem_of_branch & Hr & Ht); [by right|left].
      assert (q' = q) as -> by congruence. by exists a, r.
  - rewrite (branch_txs_root n Hp). split; [by intros ?%elem_of_nil|].
    intros (a & r & [->|(q' & Hq' & Ha)]%elem_of_branch & Hr & Ht); congruence.
Qed.

(** Transactions with one hash spend the same. *)
Lemma same_hash n a t t' :
  T n → T a → parent n ≠ None → parent a ≠ None → t ∈ txs_of n → t' ∈ txs_of a → TxHash t = TxHash t' →
  strip t = strip t'.
Proof.
  intros Hn Ha Hpn Hpa Ht Ht' E. apply (bt_collide T HT n a t t' Hn Ha Hpn Hpa Ht Ht') in E.
  assert (∀ k s, T k → parent k ≠ None → s ∈ txs_of k → wf_MsgTx s) as Hwf.
  { intros k s Hk Hp Hs. destruct (parent k) as [q|] eqn:Eq; [|done].
    destruct (bt_sane T HT k q Hk Eq) as (Hsb & _). pose proof (sb_wf _ Hsb) as Hall.
    rewrite Forall_forall in Hall. by apply Hall. }
  pose proof (prlDecode_decodes BaseEncoding t [] (Hwf n t Hn Hpn Ht) ltac:(done)) as E1.
  pose proof (prlDecode_decodes BaseEncoding t' [] (Hwf a t' Ha Hpa Ht') ltac:(done)) as E2.
  unfold SerializeNoWitness in E. rewrite E, E2 in E1.
  exact (eq_sym (f_equal (λ r, match r with Ok (x, _) => x | _ => t end) E1)).
Qed.

Lemma strip_prevouts t t' : strip t = strip t' →
  prevouts t = prevouts t' ∧ IsCoinBase t = IsCoinBase t' ∧ SignatureScript <$> tx_TxIn t = SignatureScript <$> tx_TxIn t'.
Proof.
  intros E. assert (∀ s, prevouts s = prevouts (strip s) ∧ IsCoinBase s = IsCoinBase (strip s) ∧
    SignatureScript <$> tx_TxIn s = SignatureScript <$> tx_TxIn (strip s)) as Hs.
  { intros s. unfold prevouts, IsCoinBase, IsCoinBaseTx, strip. cbn [tx_TxIn]. split; [|split].
    - rewrite <-list_fmap_compose. done.
    - by destruct (tx_TxIn s) as [|i [|]].
    - rewrite <-list_fmap_compose. done. }
  destruct (Hs t) as (-> & -> & ->), (Hs t') as (-> & -> & ->). by rewrite E.
Qed.

(** Coinbases with one hash are at one height. *)
Lemma coinbase_heights n q a r t t' :
  T n → T a → parent n = Some q → parent a = Some r → t ∈ txs_of n → t' ∈ txs_of a → IsCoinBase t = true →
  TxHash t = TxHash t' → height n = height a.
Proof.
  intros Hn Ha Hp Hr Ht Ht' Hc E.
  pose proof (same_hash n a t t' Hn Ha ltac:(congruence) ltac:(congruence) Ht Ht' E) as (_ & Ec & Es)%strip_prevouts.
  assert (∀ k z s, T k → parent k = Some z → s ∈ txs_of k → IsCoinBase s = true →
    ExtractCoinbaseHeight s = Ok (height k)) as Hx.
  { intros k z s Hk Hz Hs Hcs. destruct (bt_coinbase T HT k z Hk Hz) as (cb & rest & i & h & Et & Ei & Hh & rest' & Epre).
    destruct (bt_sane T HT k z Hk Hz) as (Hsb & _). destruct (sb_coinbase _ Hsb) as (cb' & rest'' & Et' & _ & Hrest).
    rewrite Et in Et'. injection Et' as <- <-. rewrite Et in Hs.
    assert (s = cb) as ->.
    { apply elem_of_cons in Hs as [->|Hs]; [done|]. rewrite Forall_forall in Hrest. rewrite (Hrest s Hs) in Hcs. done. }
    destruct (tx_TxIn cb) as [|i0 ins] eqn:Ein; [done|]. injection Ei as ->.
    pose proof (node_wf_height k (bt_wf k Hk)). pose proof (bt_height T HT k Hk).
    by apply (ExtractCoinbaseHeight_script cb i ins (height k) h rest'); [|lia| |]. }
  pose proof (Hx n q t Hn Hp Ht Hc) as E1. pose proof (Hx a r t' Ha Hr Ht' ltac:(congruence)) as E2.
  destruct (IsCoinBase_single t Hc) as [i Ei]. destruct (IsCoinBase_single t' ltac:(congruence)) as [i' Ei'].
  unfold ExtractCoinbaseHeight in E1, E2. rewrite Ei in E1, Es. rewrite Ei' in E2, Es. cbn in Es. injection Es as Es.
  rewrite go_index_0 in E1, E2. cbn [mbind result_bind] in E1, E2. rewrite Es in E1. rewrite E1 in E2. by injection E2.
Qed.

Lemma replay_history n W : T n → replay n W → history (branch_txs n) W.
Proof.
  intros Hn Hr. induction Hr as [n Hp|n q U css fees V Hp Hr IH Hs Ht].
  { rewrite (branch_txs_root n Hp). constructor; [constructor|intros op x; by rewrite lookup_empty|by intros t op ?%elem_of_nil]. }
  destruct (bt_parent n q Hn Hp) as [Hq Eh]. specialize (IH Hq). rewrite (branch_txs_child n q Hp).
  assert (Hall : ∀ t, t ∈ branch_txs q ++ txs_of n → ∃ a r, T a ∧ a ∈ branch n ∧ parent a = Some r ∧ t ∈ txs_of a).
  { intros t. rewrite <-(branch_txs_child n q Hp). intros (a & r & Ha & Hr' & Hta)%elem_of_branch_txs.
    exists a, r. split; [|done]. by apply (branch_T T (bt_tree T HT) a n). }
  destruct (bt_sane T HT n q Hn Hp) as (Hsb & _). destruct (sb_coinbase _ Hsb) as (cb & rest & Et & Hcb & Hrest).
  pose proof (sb_sane _ Hsb) as Hsane. rewrite Et in Hs, Hsane |- *. apply Forall_cons in Hsane as [_ Hsane].
  inversion Hs as [|? ? ? cs fee U1 css' fees' ? Hs1 Hs2]; subst.
  rewrite (app_assoc _ [cb] rest : _ ++ cb :: rest = (_ ++ [cb]) ++ rest).
  eapply history_steps; [|exact Hs2| |].
  - eapply history_step; [exact IH|exact Hs1|]. intros (t' & E & (a & r & Ha & Hr' & Hta)%elem_of_branch_txs)%list_elem_of_fmap.
    assert (T a) as HTa by by apply (branch_T T (bt_tree T HT) a q).
    assert (height n = height a) as E'.
    { apply (coinbase_heights n q a r cb t'); try done. rewrite Et. by left. }
    pose proof (proj2 (elem_of_branch_height a q (bt_wf q Hq) Ha)). lia.
  - apply Forall_forall. intros t Hin. rewrite Forall_forall in Hrest, Hsane. split; [by apply Hrest|apply (sane_ins t), Hsane, Hin].
  - intros t t' Hin Hin' E. rewrite <-app_assoc in Hin'. cbn [app] in Hin'. rewrite <-Et in Hin'.
    destruct (Hall t' Hin') as (a & r & HTa & _ & Hr' & Hta).
    destruct (strip_prevouts t' t) as (? & ? & _); [|done].
    apply (same_hash a n t' t); [done|done|congruence|congruence|done|rewrite Et; by right|done].
Qed.

(** The transactions of a valid block are new to the ledgers below. *)
Lemma replay_fresh n q a D W :
  T n → parent n = Some q → replay n W → a ∈ branch q → replay a D → Forall (λ tx, fresh_tx tx D) (txs_of n).
Proof.
  intros Hn Hp HrW Ha Hr. destruct (bt_parent n q Hn Hp) as [Hq _].
  apply Forall_forall. intros t Ht op Eh _. destruct (D !! op) as [x|] eqn:E; [|done]. exfalso.
  pose proof (hist_nodup _ _ (replay_history n W Hn HrW)) as Hnd. rewrite (branch_txs_child n q Hp), fmap_app in Hnd.
  apply NoDup_app in Hnd as (_ & Hdis & _). apply (Hdis (TxHash t)); [|by apply list_elem_of_fmap_2].
  rewrite <-Eh. assert (T a) as HTa by by apply (branch_T T (bt_tree T HT) a q).
  pose proof (hist_origin _ _ (replay_history a D HTa Hr) op x E) as (t' & -> & (b & r & Hb & Hr' & Htb)%elem_of_branch_txs)%list_elem_of_fmap.
  apply list_elem_of_fmap_2, elem_of_branch_txs. exists b, r. split; [|done].
  by apply (branch_trans b a q); [apply bt_wf| |].
Qed.
End tree.
End replay.
