(* ===== verification/ConnectTotal.v ===== *)
(** * The checks of a block always answer

    [checkConnectBlock] neither panics nor fails for another reason than a broken
    rule, on every sane block and view of its parent's coins; and a block known to
    be valid connects to a view of them. *)
From stdpp Require Import fin_maps strings.
From Stdlib Require Import Lia ZArith.
From S2P Require Import Prelude Wire MsgTx ScriptError Taproot Tokenizer Standard Crypto SigCache SigHash Engine EngineExec ChainParams BlockIndex Subsidy RuleError TxRules Merkle Compress UtxoView Ledger ConnectBlock ConnectSpec UtxoStore SizeHelper UtxoCache UtxoCacheSpec Disconnect ChainView Replay.

(** ** Decided results *)

(** A value that meets [Q], or a broken rule. *)
Definition decided {A} (Q : A → Prop) (r : result RuleErr A) : Prop :=
  match r with Ok a => Q a | Fail (ruleError _) => True | _ => False end.

Lemma decided_bind {A B} (Q : A → Prop) (R : B → Prop) (m : result RuleErr A) (f : A → result RuleErr B) :
  decided Q m → (∀ a, m = Ok a → Q a → decided R (f a)) → decided R (m ≫= f).
Proof. destruct m as [a|[]|]; cbn; auto. Qed.

Lemma decided_st {S A B} (Q : A * S → Prop) (R : B * S → Prop) (m : ST RuleErr S A) (f : A → ST RuleErr S B) s :
  decided Q (m s) → (∀ a s', m s = Ok (a, s') → Q (a, s') → decided R (f a s')) → decided R ((m ≫= f) s).
Proof. cbv [mbind st_bind]. destruct (m s) as [[a s']|[]|]; cbn; auto. Qed.

Lemma decided_lift {S A} (Q : A * S → Prop) (r : result RuleErr A) (s : S) :
  decided (λ a, Q (a, s)) r → decided Q (st_lift r s).
Proof. unfold st_lift. destruct r as [a|[]|]; cbn; auto. Qed.

Lemma decided_mono {A} (Q R : A → Prop) r : decided Q r → (∀ a, r = Ok a → Q a → R a) → decided R r.
Proof. destruct r as [a|[]|]; cbn; auto. Qed.

Lemma decided_ok {A} (Q : A → Prop) r : (∃ a, r = Ok a ∧ Q a) → decided Q r.
Proof. by intros (a & -> & ?). Qed.

(** ** Heights of coins *)

(** Coins no higher than [h]. *)
Definition heights_le (h : Z) (U : UtxoSet) : Prop := ∀ op c, U !! op = Some c → 0 <= coin_height c <= h.

Section total.
Context `{HashFns}.
Implicit Types U W D : UtxoSet.

Lemma heights_le_mono h h' U : heights_le h U → h <= h' → heights_le h' U.
Proof. intros Hu Hle op c Hc. specialize (Hu op c Hc). lia. Qed.

Lemma tx_step_le maturity h tx U cs fee W :
  tx_step maturity h tx U cs fee W → 0 <= h → heights_le h U → heights_le h W ∧ Forall (λ c, 0 <= coin_height c <= h) cs.
Proof.
  intros Hs Hh Hu. destruct Hs as [Hc|cs U' fee Hc Ht _ _ _].
  - split; [|done]. intros op c. rewrite add_tx_coins_lookup. destruct (spendable_out tx op); [by intros [= <-]|apply Hu].
  - split.
    + intros op c. rewrite add_tx_coins_lookup. destruct (spendable_out tx op); [by intros [= <-]|].
      rewrite (take_coins_lookup _ _ _ _ _ Ht). case_decide; [done|apply Hu].
    + apply take_coins_coins in Ht as [_ Hf]. apply Forall_forall. intros c (i & Hi)%list_elem_of_lookup.
      destruct (Forall2_lookup_r _ _ _ _ _ Hf Hi) as (op & _ & Hc'). by apply (Hu op).
Qed.

Lemma txs_step_le maturity h txs U css fees W :
  txs_step maturity h txs U css fees W → 0 <= h → heights_le h U →
  heights_le h W ∧ Forall (Forall (λ c, 0 <= coin_height c <= h)) css.
Proof.
  intros Hs Hh. induction Hs as [U|tx txs U cs fee U1 css fees U2 Hs1 _ IH]; intros Hu; [by split|].
  destruct (tx_step_le _ _ _ _ _ _ _ Hs1 Hh Hu) as [Hu1 Hcs]. destruct (IH Hu1) as [Hu2 Hcss]. split; [done|by constructor].
Qed.

(** ** The inputs *)

Lemma check_inputs_decided ins h view p t :
  decided (λ _, Forall (λ ti, is_Some (LookupEntry view (PreviousOutPoint ti))) ins) (check_inputs ins h view p t).
Proof.
  revert t. induction ins as [|ti ins IH]; intros t; cbn [check_inputs decided]; [constructor|].
  destruct (LookupEntry view (PreviousOutPoint ti)) as [e|] eqn:El; [|done]. cbv zeta. repeat (case_match; try done).
  all: eapply decided_mono; [apply IH|]; intros ? _ Hf; constructor; [by rewrite El|done].
Qed.

Lemma spend_loop_total view ins stxos :
  Forall (λ ti, is_Some (LookupEntry view (PreviousOutPoint ti))) ins → ∃ r, spend_loop view ins stxos = Ok r.
Proof.
  revert view stxos. induction ins as [|ti ins IH]; intros view stxos Hf; cbn [spend_loop]; [by eexists|].
  apply Forall_cons in Hf as [[e ->] Hf]. apply IH. eapply Forall_impl; [exact Hf|]. intros tj [ej Hj]. unfold LookupEntry in *.
  cbn [entries set_entries]. destruct (decide (PreviousOutPoint ti = PreviousOutPoint tj)) as [->|Hne].
  - rewrite lookup_insert_eq. by eexists.
  - rewrite lookup_insert_ne by done. by exists ej.
Qed.

Lemma view_connectTransaction_total view tx h stxos :
  wf_MsgTx tx → (IsCoinBase tx = false → Forall (λ ti, is_Some (LookupEntry view (PreviousOutPoint ti))) (tx_TxIn tx)) →
  ∃ r, view_connectTransaction view tx h stxos = Ok r.
Proof.
  intros Hw Hf. unfold view_connectTransaction. destruct (IsCoinBase tx).
  - destruct (AddTxOuts_eq view tx h Hw) as (v & -> & _). by eexists.
  - destruct (spend_loop_total view (tx_TxIn tx) stxos (Hf eq_refl)) as [[v s] ->]. cbn [mbind result_bind].
    destruct (AddTxOuts_eq v tx h Hw) as (v' & -> & _). by eexists.
Qed.

Lemma CheckTransactionInputs_decided tx h view p :
  decided (λ _, IsCoinBase tx = false → Forall (λ ti, is_Some (LookupEntry view (PreviousOutPoint ti))) (tx_TxIn tx))
    (CheckTransactionInputs tx h view p).
Proof.
  unfold CheckTransactionInputs. destruct (IsCoinBase tx); [done|].
  eapply decided_bind; [apply check_inputs_decided|]. intros t _ Hf. cbv zeta. case_match; [done|intros _; exact Hf].
Qed.

Lemma connect_txs_decided txs h p view stxos fees :
  Forall wf_MsgTx txs → decided (λ _, True) (connect_txs txs h p view stxos fees).
Proof.
  intros Hw. revert view stxos fees. induction Hw as [|tx txs Hw _ IH]; intros view stxos fees; cbn [connect_txs]; [done|].
  eapply decided_bind; [apply CheckTransactionInputs_decided|]. intros fee _ Hf. cbv zeta. case_match; [done|].
  destruct (view_connectTransaction_total view tx h stxos Hw Hf) as [[v s] ->]. apply IH.
Qed.

(** ** Sequence locks *)

Lemma sequence_loop_decided node ins view lock :
  node_wf node → height node < 2 ^ 31 - 1 →
  Forall (λ ti, ∀ e, LookupEntry view (PreviousOutPoint ti) = Some e → 0 <= blockHeight e <= height node) ins →
  decided (λ _, True) (sequence_loop node ins view lock).
Proof.
  intros Hn Hmax Hf. pose proof (node_wf_height node Hn) as Hh. revert lock.
  induction Hf as [|ti ins Hti _ IH]; intros lock; cbn [sequence_loop]; [done|].
  destruct (LookupEntry view (PreviousOutPoint ti)) as [e|]; [|done]. specialize (Hti e eq_refl). cbv zeta.
  rewrite (proj2 (Z.eqb_neq (blockHeight e) 0x7fffffff)) by lia. case_match; [apply IH|]. case_match; [|apply IH].
  rewrite (i32_small (blockHeight e - 1)) by (unfold is_i32; lia). set (k := if blockHeight e - 1 <? 0 then 0 else blockHeight e - 1).
  assert (0 <= k <= height node) as Hk by (subst k; destruct (Z.ltb_spec (blockHeight e - 1) 0); lia).
  pose proof (Ancestor_spec node k Hn) as Ha. rewrite (proj2 (andb_true_iff _ _)) in Ha by (rewrite !Z.leb_le; lia).
  destruct Ha as (a & -> & _). destruct (CalcPastMedianTime_rank a) as (m & -> & _). cbn [lift_empty mbind result_bind]. apply IH.
Qed.

Lemma check_sequence_locks_decided txs node view mt :
  node_wf node → height node < 2 ^ 31 - 1 →
  Forall (λ tx, IsCoinBase tx = false → Forall (λ ti, ∀ e, LookupEntry view (PreviousOutPoint ti) = Some e → 0 <= blockHeight e <= height node) (tx_TxIn tx)) txs →
  decided (λ _, True) (check_sequence_locks txs node view mt).
Proof.
  intros Hn Hmax. induction 1 as [|tx txs Htx _ IH]; cbn [check_sequence_locks]; [done|].
  eapply (decided_bind (λ _, True)); [|intros lock _ _; case_match; done].
  unfold calcSequenceLock. cbv zeta. destruct (u32 (tx_Version tx) <? 2); [done|]. cbn [orb]. destruct (IsCoinBase tx); [done|].
  apply sequence_loop_decided; auto.
Qed.
End total.

(** ** Scripts *)

Section scripts.
Context `{HashFns} `{Keys} `{!MapRange bytes sigCacheEntry} `{!MapRange bytes TxSigHashes}.

Lemma wf_script_ok s : wf_script s → script_ok s.
Proof. unfold wf_script, script_ok, maxWitnessItemSize. lia. Qed.

Lemma check_scripts_no_panic scrs : no_panic (check_scripts scrs).
Proof.
  induction scrs as [|s scrs IH]; cbn [check_scripts]; [done|]. destruct (Z.ltb_spec MaxScriptSize (zlen s)) as [|Hle]; [done|].
  assert (script_ok s) as Hok by (unfold script_ok, MaxScriptSize in *; lia).
  by destruct (checkScriptParses_cases s Hok) as [[_ ->]|[_ ->]].
Qed.

(** An engine is made or an error returned. *)
Lemma NewEngine_no_panic spk tx idx fl c sh amt f : wf_MsgTx tx → no_panic (NewEngine spk tx idx fl c sh amt f).
Proof.
  intros Hw. unfold NewEngine. destruct (Z.ltb_spec idx 0); [done|]. cbn [orb]. destruct (Z.leb_spec (zlen (tx_TxIn tx)) idx); [done|].
  destruct (go_index_total (E:=ScriptErr) (tx_TxIn tx) idx) as (ti & -> & Hti); [lia|]. cbn [mbind result_bind]. cbv zeta.
  destruct (_ && _); [done|].
  assert (wf_TxIn ti) as (_ & Hs & _).
  { destruct Hw as (_ & _ & Hins & _). rewrite Forall_forall in Hins. apply Hins. by eapply list_elem_of_lookup_2. }
  destruct (IsPushOnlyScript_cases _ (wf_script_ok _ Hs)) as (b & -> & _). cbn [mbind result_bind]. destruct b; cbn [negb]; [|done].
  pose proof (check_scripts_no_panic [SignatureScript ti; spk]) as Hc. destruct (check_scripts _) as [[]| |]; [|done..].
  cbn [mbind result_bind]. assert (∃ r, extractWitnessProgramInfo spk = Ok r) as [[[v p] valid] E].
  { destruct (Z.leb_spec (zlen spk) 42) as [Hl|Hl]; [by apply extract_total|]. unfold extractWitnessProgramInfo.
    rewrite (proj2 (orb_true_iff _ _)) by (rewrite !Z.ltb_lt; lia). by eexists. }
  unfold IsWitnessProgram, ExtractWitnessProgramInfo. rewrite E. cbn [mbind result_bind]. set (i := if _ =? 0 then 1 else 0).
  assert (∃ s, go_index (E:=ScriptErr) [SignatureScript ti; spk] i = Ok s) as [s Es] by (subst i; case_match; by eexists).
  destruct valid; [|destruct (negb _); [done|cbn [mbind result_bind]; by rewrite Es]].
  destruct (negb _); [done|]. cbn [mbind result_bind]. by rewrite Es.
Qed.

(** What an input to be checked is: of a transaction off the wire, with the output
    it spends known. *)
Definition item_ok (view : UtxoViewpoint) (it : txValidateItem) : Prop :=
  spend_ok (vi_tx it) (vi_txInIndex it) (view_FetchPrevOutput view).

Lemma Validate_decided view flags items sc :
  Forall (item_ok view) items → cache_sound sc → decided (λ r, cache_sound r.2) (Validate view flags items sc).
Proof.
  intros Hf. revert sc. induction Hf as [|it items Hit _ IH]; intros sc Hsc; cbn [Validate]; [done|].
  eapply (decided_st (λ r, cache_sound r.2)); [|intros [] sc' _ Hsc'; by apply IH].
  unfold validate_item. destruct (LookupEntry view _) as [e|]; [|done]. destruct Hit as [Hw Hp].
  pose proof (NewEngine_no_panic (pkScript e) (vi_tx it) (vi_txInIndex it) flags sc (vi_sigHashes it) (amount e) (view_FetchPrevOutput view) Hw) as Hn.
  destruct (NewEngine _ _ _ _ _ _ _ _) as [vm| |] eqn:E; [|done..].
  destruct (NewEngine_running _ _ _ _ _ _ _ _ _ E Hw Hp) as [[n Hr] Hs]. rewrite <-Hs in Hsc.
  pose proof (Execute_safe n vm None Hr Hsc I) as Hx. destruct (Execute vm) as [[[] vm1]| |]; [|done..]. by destruct Hx as (_ & ? & _).
Qed.

(** The outputs the inputs spend have entries. *)
Definition inputs_known (view : UtxoViewpoint) (tx : MsgTx) : Prop :=
  IsCoinBase tx = false → Forall (λ ti, is_Some (LookupEntry view (PreviousOutPoint ti))) (tx_TxIn tx).

Lemma known_fetch view op : is_Some (LookupEntry view op) → is_Some (view_FetchPrevOutput view op).
Proof. unfold view_FetchPrevOutput. intros [e ->]. by eexists. Qed.

Lemma LoadOrCompute_total f tx hc : SigHash.known f tx →
  ∃ s hc', LoadOrComputeSigHashes f tx hc = Ok (s, hc').
Proof.
  intros Hf. unfold LoadOrComputeSigHashes. cbv [mbind st_bind st_get]. destruct (SigCache.get _ _) as [s|]; [by exists s, hc|].
  destruct (NewTxSigHashes_run f tx Hf) as (s & -> & _). by eexists _, _.
Qed.

Lemma collect_items_total view txs hc :
  Forall wf_MsgTx txs → Forall (inputs_known view) txs →
  ∃ items hc', collect_items view txs hc = Ok (items, hc') ∧ Forall (item_ok view) items.
Proof.
  intros Hw. revert hc. induction Hw as [|tx txs Hw _ IH]; intros hc Hk; cbn [collect_items]; [by exists [], hc|].
  apply Forall_cons in Hk as [Hk Hks]. destruct (IsCoinBase tx) eqn:Ec; [by apply IH|]. specialize (Hk Ec). cbv [mbind st_bind].
  assert (Forall (λ ti, is_Some (view_FetchPrevOutput view (PreviousOutPoint ti))) (tx_TxIn tx)) as Hf.
  { eapply Forall_impl; [exact Hk|]. intros ti. apply known_fetch. }
  destruct (LoadOrCompute_total _ tx hc Hf) as (s & hc1 & ->). cbn [lift_script].
  destruct (IH hc1 Hks) as (items & hc' & -> & Hi). eexists _, hc'. split; [done|]. apply Forall_app. split; [|done].
  apply Forall_forall. intros it (i & Hit)%list_elem_of_lookup. unfold tx_items in Hit. rewrite list_lookup_imap in Hit.
  destruct (tx_TxIn tx !! i) as [ti|] eqn:Ei; [|done]. injection Hit as <-. split; [done|]. intros tj. cbn [vi_tx vi_txInIndex].
  rewrite Nat2Z.id, Ei. intros [= <-]. rewrite Forall_forall in Hf. apply Hf. by eapply list_elem_of_lookup_2.
Qed.

Lemma checkBlockScripts_decided block view flags sc hc :
  Forall wf_MsgTx (b_Transactions block) → Forall (inputs_known view) (b_Transactions block) → cache_sound sc →
  decided (λ r, cache_sound r.1) (checkBlockScripts block view flags sc hc).
Proof.
  intros Hw Hk Hsc. unfold checkBlockScripts. destruct (collect_items_total view _ hc Hw Hk) as (items & hc' & -> & Hi).
  cbn [mbind result_bind]. eapply decided_bind; [by apply Validate_decided|]. by intros [[] sc'] _ ?.
Qed.
End scripts.

(** ** [checkConnectBlock] *)

Section connect.
Context `{HashFns} `{Keys} `{!MapRange bytes sigCacheEntry} `{!MapRange bytes TxSigHashes}.
Context {S : Type} `{!UtxoSource S}.
Implicit Types U W D : UtxoSet.

Lemma fetchInputUtxos_total view block (s : S) U :
  Forall wf_MsgTx (b_Transactions block) → b_Transactions block ≠ [] → utxo_repr s U →
  ∃ r, fetchInputUtxos view block s = Ok r.
Proof.
  intros Hw Hne Hs.
  edestruct (fetchInputUtxos_load (b_Transactions block) Hw (λ _, True) (λ _, True) ltac:(done) ltac:(done) view block s U eq_refl Hne Hs I)
    as (v0 & v1 & s1 & needed & E & _). by eexists.
Qed.

Lemma checkBIP0030_decided block view (s : S) U :
  utxo_repr s U → Forall wf_MsgTx (b_Transactions block) → decided (λ _, True) (checkBIP0030 block view s).
Proof.
  intros Hs Hw. unfold checkBIP0030. eapply (decided_st (λ _, True)); [|intros v s' _ _; by case_match].
  unfold fetchUtxos. case_match; [done|]. apply decided_ok.
  edestruct (fetch_ok view (filter (λ op, entries view !! op = None) (bip30_fetch (b_Transactions block))) s U Hs) as (v1 & s1 & E & _); [|by eexists].
  apply Forall_forall. intros op [_ Ho]%list_elem_of_filter. eapply pending_wf; [exact Hw|]. by apply bip30_fetch_elem.
Qed.

(** What a transaction spent is known, and no higher than the block. *)
Lemma spent_known view tx cs h :
  spent_entries view tx cs → Forall (λ c, 0 <= coin_height c <= h) cs →
  inputs_known view tx ∧
  (IsCoinBase tx = false → Forall (λ ti, ∀ e, LookupEntry view (PreviousOutPoint ti) = Some e → 0 <= blockHeight e <= h) (tx_TxIn tx)).
Proof.
  unfold inputs_known, spent_entries. destruct (IsCoinBase tx); [done|]. intros Hf Hh. rewrite Forall_forall in Hh.
  assert (∀ ti, ti ∈ tx_TxIn tx → ∃ e, LookupEntry view (PreviousOutPoint ti) = Some e ∧ 0 <= blockHeight e <= h) as Hx.
  { intros ti (i & Hi)%list_elem_of_lookup.
    assert (prevouts tx !! i = Some (PreviousOutPoint ti)) as Hop by (unfold prevouts; by rewrite list_lookup_fmap, Hi).
    destruct (Forall2_lookup_l _ _ _ _ _ Hf Hop) as (c & Hc & e & He & <-). exists e. unfold LookupEntry. rewrite He. split; [done|].
    apply (Hh (entry_coin e)). by eapply list_elem_of_lookup_2. }
  split; intros _; apply Forall_forall; intros ti Hti; destruct (Hx ti Hti) as (e & He & Hle).
  - by exists e.
  - intros e'. rewrite He. by intros [= <-].
Qed.

Lemma check_and_connect_decided p node prev block view stxos U W c :
  maturity_ok p → schedule (Some p) c → 1 <= height node < 2 ^ 31 - 1 → node_wf node → parent node = Some prev →
  heights_le (height node) W → sane_block (b_Transactions block) → in_order (b_Transactions block) →
  connecting (b_Transactions block) view U W →
  decided (λ r, Forall (inputs_known r.1) (b_Transactions block)) (check_and_connect p node block view stxos).
Proof.
  intros Hp Hc Hh Hn Hpar Hle [(cb & rest & Etx & Hcb & Hrest) Hsane Hwf Hnd] Hord Hcn. unfold check_and_connect.
  assert (Hok : heights_ok W) by (intros op x Hx; specialize (Hle op x Hx); lia).
  eapply decided_bind; [by apply connect_txs_decided|]. intros [[view1 stxos1] fees] Hct _.
  assert (0 <= height node < 2 ^ 31) as Hh0 by lia. assert (0 <= 0 < 2 ^ 63) as Hz by done.
  destruct (connect_txs_ok _ _ _ _ _ _ _ _ _ _ _ Hp Hh0 Hok Hwf Hsane Hnd Hord Hcn Hz Hct)
    as (_ & _ & css & F & W' & Hss & _ & _ & _ & Hsp & _).
  destruct (txs_step_le _ _ _ _ _ _ _ Hss ltac:(lia) Hle) as [_ Hcss].
  assert (Hall : Forall (λ tx, inputs_known view1 tx ∧ (IsCoinBase tx = false →
    Forall (λ ti, ∀ e, LookupEntry view1 (PreviousOutPoint ti) = Some e → 0 <= blockHeight e <= height node) (tx_TxIn tx))) (b_Transactions block)).
  { apply Forall_forall. intros tx (i & Hi)%list_elem_of_lookup. destruct (Forall2_lookup_l _ _ _ _ _ Hsp Hi) as (cs & Hcs & Hse).
    apply (spent_known view1 tx cs); [done|]. rewrite Forall_forall in Hcss. apply Hcss. by eapply list_elem_of_lookup_2. }
  apply Forall_and in Hall as [Hk Hhs].
  assert (∃ x, go_index (E:=RuleErr) (b_Transactions block) 0 = Ok x) as [x ->] by (rewrite Etx; by eexists). cbn [mbind result_bind].
  rewrite (CalcBlockSubsidy_eq _ _ _ Hc) by lia. cbn [lift_empty mbind result_bind]. cbv zeta. case_match; [done|].
  rewrite Hpar. destruct (CalcPastMedianTime_rank prev) as (m & -> & _). cbn [lift_empty mbind result_bind].
  eapply decided_bind; [apply check_sequence_locks_decided; [done|lia|exact Hhs]|]. intros [] _ _. exact Hk.
Qed.

Lemma checkConnectBlock_decided node prev block view stxos (b : @BlockChain S) U W c :
  maturity_ok (chainParams b) → schedule (Some (chainParams b)) c → 1 <= height node < 2 ^ 31 - 1 → node_wf node → parent node = Some prev →
  sane_block (b_Transactions block) → in_order (b_Transactions block) →
  utxo_repr (ConnectBlock.utxoCache b) U → view_repr view U W → heights_le (height node) W → bestHash view = b_PrevBlock block →
  cache_sound (bc_sigCache b) →
  decided (λ r, cache_sound (bc_sigCache r.2)) (checkConnectBlock node block view stxos b).
Proof.
  intros Hp Hc Hh Hn Hpar Hsb Hord Hs Hv Hle Hbest Hsc. unfold checkConnectBlock.
  case_bool_decide; [done|]. rewrite bool_decide_eq_true_2 by done. cbn [negb].
  eapply decided_bind; [by eapply checkBIP0030_decided; [|apply Hsb]|]. intros [view1 s1] E1 _.
  destruct (checkBIP0030_ok _ _ _ _ _ _ _ Hs Hv (sb_wf _ Hsb) E1) as (Hs1 & _ & Hcn1).
  assert (b_Transactions block ≠ []) as Hne by (destruct (sb_coinbase _ Hsb) as (? & ? & -> & _); done).
  destruct (fetchInputUtxos_total view1 block s1 U (sb_wf _ Hsb) Hne Hs1) as [[view2 s2] E2]. rewrite E2. cbn [mbind result_bind].
  destruct (fetchInputUtxos_ok _ _ _ _ _ _ _ (sb_nodup _ Hsb) (sb_wf _ Hsb) Hs1 Hcn1 E2) as (_ & _ & Hcn2).
  eapply decided_bind; [by eapply (check_and_connect_decided _ node prev block view2 stxos U W c)|]. intros [view3 stxos3] _ Hk. cbv zeta.
  destruct (match LatestCheckpoint (set_utxoCache b s2) with Some _ => _ | None => _ end); [|exact Hsc].
  eapply decided_bind; [apply checkBlockScripts_decided; [apply Hsb|exact Hk|exact Hsc]|]. by intros [sc hc] _ ?.
Qed.
End connect.

(** ** Blocks known to be valid *)

Section valid.
Context `{HashFns}.
Implicit Types U W : UtxoSet.

(** What a transaction spends is loaded or has one of these hashes. *)
Definition tracked (L : OutPoint → Prop) (hs : list bytes) (tx : MsgTx) : Prop :=
  IsCoinBase tx = false → ∀ op, op ∈ prevouts tx → L op ∨ op_Hash op ∈ hs.

(** What a block spends is loaded, or an output of an earlier transaction. *)
Fixpoint covered (L : OutPoint → Prop) (hs : list bytes) (txs : list MsgTx) : Prop :=
  match txs with [] => True | tx :: txs => tracked L hs tx ∧ covered L (TxHash tx :: hs) txs end.

Lemma covered_mono (L L' : OutPoint → Prop) hs txs : (∀ op, L op → L' op) → covered L hs txs → covered L' hs txs.
Proof.
  intros HL. revert hs. induction txs as [|tx txs IH]; intros hs; cbn [covered]; [done|]. intros [Ht Hc]. split; [|by apply IH].
  intros Hcb op Hop. destruct (Ht Hcb op Hop) as [?|?]; [left; by apply HL|by right].
Qed.

Definition has_entry (view : UtxoViewpoint) (op : OutPoint) : Prop := is_Some (entries view !! op).

(** Outputs that are added have entries, and others keep theirs. *)
Lemma added_entries tx h view view1 op :
  wf_MsgTx tx → AddTxOuts view tx h = Ok view1 → has_entry view op ∨ is_Some (spendable_out tx op) → has_entry view1 op.
Proof.
  intros Hw E Hop. destruct (AddTxOuts_eq view tx h Hw) as (v & E' & _ & He). rewrite E in E'. injection E' as <-.
  unfold has_entry. rewrite He. destruct (spendable_out tx op); [by eexists|]. destruct Hop as [?|[? [=]]]. done.
Qed.

Lemma connect_entries tx h view stxos view1 stxos1 op :
  wf_MsgTx tx → view_connectTransaction view tx h stxos = Ok (view1, stxos1) →
  has_entry view op ∨ is_Some (spendable_out tx op) → has_entry view1 op.
Proof.
  intros Hw. unfold view_connectTransaction. destruct (IsCoinBase tx).
  - intros (v & E & [= <- _])%bind_ok. by eapply added_entries.
  - intros ([v s] & Hsp & (v2 & E & [= <- _])%bind_ok)%bind_ok Hop.
    destruct (spend_loop_spent _ _ _ _ _ Hsp) as (_ & Hin & Hout). eapply added_entries; [done|exact E|].
    destruct Hop as [Hop|?]; [left|by right]. unfold has_entry in *. destruct (decide (op ∈ PreviousOutPoint <$> tx_TxIn tx)) as [Ho|Ho].
    + destruct (Hin op Ho) as [e ->]. by eexists.
    + by rewrite Hout.
Qed.

(** Such a block connects to a view that covers it. *)
Lemma connect_loop_total maturity h txs W css fees W' view U stxos hs :
  txs_step maturity h txs W css fees W' → Forall wf_MsgTx txs → NoDup (TxHash <$> txs) →
  (∀ op, ¬ spendable_of txs op → stands_for view U W op) → covered (has_entry view) hs txs →
  (∀ op x, W !! op = Some x → op_Hash op ∉ TxHash <$> txs) →
  (∀ op x, W !! op = Some x → op_Hash op ∈ hs → has_entry view op) →
  ∃ r, connect_loop view txs h stxos = Ok r.
Proof.
  intros Hs. revert view stxos hs. induction Hs as [W|tx txs W cs fee W1 css fees W2 Hs1 _ IH]; intros view stxos hs Hwf Hnd Hst Hcv Hnew Hold;
    cbn [connect_loop]; [by eexists|]. apply Forall_cons in Hwf as [Hw Hwf]. cbn [fmap list_fmap] in Hnd, Hnew. apply NoDup_cons in Hnd as [Hni Hnd].
  destruct Hcv as [Ht Hcv].
  assert (∃ r, view_connectTransaction view tx h stxos = Ok r) as [[view1 stxos1] E].
  { apply view_connectTransaction_total; [done|]. intros Hcb. apply Forall_forall. intros ti Hti.
    assert (PreviousOutPoint ti ∈ prevouts tx) as Hop by (by apply list_elem_of_fmap_2).
    destruct (tx_step_takes _ _ _ _ _ _ _ _ Hs1 Hcb Hop) as [x Hx].
    assert (has_entry view (PreviousOutPoint ti)) as [e He] by (destruct (Ht Hcb _ Hop) as [?|?]; [done|by apply (Hold _ x)]).
    assert (stands_for view U W (PreviousOutPoint ti)) as Hsf.
    { apply Hst. intros (t & o & Hin & Ho). apply (Hnew _ x Hx). rewrite (spendable_out_hash _ _ _ Ho). by apply (list_elem_of_fmap_2 TxHash (tx :: txs)). }
    unfold stands_for in Hsf. unfold LookupEntry. rewrite He in Hsf |- *. rewrite Hx in Hsf. destruct e as [e|]; [by eexists|done]. }
  rewrite E. cbn [mbind result_bind]. apply (IH view1 stxos1 (TxHash tx :: hs)); [done|done| | | |].
  - by apply (connect_tx_valid _ _ _ _ _ _ _ _ _ _ _ _ _ Hs1 Hw Hst E).
  - eapply covered_mono; [|exact Hcv]. intros op Hop. eapply connect_entries; [done|exact E|by left].
  - intros op x Hx. destruct (tx_step_lookup _ _ _ _ _ _ _ _ _ Hs1 Hx) as [->|[HW _]]; [done|].
    intros Hin. apply (Hnew op x HW). by right.
  - intros op x Hx Hin. eapply connect_entries; [done|exact E|].
    destruct (spendable_out tx op) eqn:Es; [by right; eexists|left].
    assert (W !! op = Some x) as HW.
    { destruct Hs1 as [Hc|? U' ? Hc Htk _ _ _]; rewrite add_tx_coins_lookup, Es in Hx; [done|].
      rewrite (take_coins_lookup _ _ _ _ _ Htk) in Hx. by case_decide. }
    apply elem_of_cons in Hin as [Eh|Hin]; [|by apply (Hold op x)]. exfalso. apply (Hnew op x HW). rewrite Eh. by left.
Qed.

(** *** What the search finds *)

Definition loaded (view : UtxoViewpoint) (needed : list OutPoint) (op : OutPoint) : Prop := has_entry view op ∨ op ∈ needed.

Context (txs : list MsgTx) (Hwf : Forall wf_MsgTx txs).

Lemma find_ins_cover h flight i ins view needed view1 needed1 :
  find_ins view txs h flight i ins needed = Ok (view1, needed1) →
  (∀ op, loaded view needed op → loaded view1 needed1 op) ∧
  ∀ op, op ∈ PreviousOutPoint <$> ins → loaded view1 needed1 op ∨ ∃ k, flight !! op_Hash op = Some k ∧ k <= i.
Proof.
  revert view needed. induction ins as [|ti ins IH]; intros view needed; cbn [find_ins fmap list_fmap].
  { intros [= <- <-]. split; [done|]. by intros op ?%elem_of_nil. }
  set (fetch := match entries view !! PreviousOutPoint ti with Some _ => _ | None => _ end).
  assert (fetch = Ok (view1, needed1) → (∀ op, loaded view needed op → loaded view1 needed1 op) ∧
    ∀ op, op ∈ PreviousOutPoint ti :: (PreviousOutPoint <$> ins) → loaded view1 needed1 op ∨ ∃ k, flight !! op_Hash op = Some k ∧ k <= i) as Hfetch.
  { unfold fetch. destruct (entries view !! PreviousOutPoint ti) eqn:Ee; intros [Hm Hin]%IH.
    - split; [done|]. intros op [->|Hop]%elem_of_cons; [left|by apply Hin]. apply Hm. left. unfold has_entry. rewrite Ee. by eexists.
    - split; [|intros op [->|Hop]%elem_of_cons; [left|by apply Hin]].
      + intros op [?|?]; apply Hm; [by left|right; apply elem_of_app; by left].
      + apply Hm. right. apply elem_of_app. right. by left. }
  destruct (flight !! op_Hash (PreviousOutPoint ti)) as [k|] eqn:Ek; [|done]. destruct (Z.leb_spec k i); [|done].
  intros (tx & [_ Htx]%go_index_ok & (v2 & E2 & [Hm Hin]%IH)%bind_ok)%bind_ok.
  assert (wf_MsgTx tx) as Hw by (rewrite Forall_forall in Hwf; apply Hwf; by eapply list_elem_of_lookup_2). split.
  - intros op [?|?]; apply Hm; [left; eapply added_entries; [done|exact E2|by left]|by right].
  - intros op [->|Hop]%elem_of_cons; [right; by exists k|by apply Hin].
Qed.

Lemma find_txs_cover h flight rest i view needed view1 needed1 hs :
  (∀ x k, flight !! x = Some k → ∃ t, 0 <= k ∧ txs !! Z.to_nat k = Some t ∧ TxHash t = x) →
  drop (S i) txs = rest → (∀ t, t ∈ take (S i) txs → TxHash t ∈ hs) →
  find_txs view txs h flight (Z.of_nat i) rest needed = Ok (view1, needed1) →
  (∀ op, loaded view needed op → loaded view1 needed1 op) ∧ covered (loaded view1 needed1) hs rest.
Proof.
  intros Hfl. revert i view needed hs. induction rest as [|tx rest IH]; intros i view needed hs Ed Hhs; cbn [find_txs covered].
  { by intros [= <- <-]. }
  assert (txs !! S i = Some tx) as Hi by (by rewrite <-(Nat.add_0_r (S i)), <-lookup_drop, Ed).
  assert (drop (S (S i)) txs = rest) as Ed' by (by rewrite <-Nat.add_1_r, <-drop_drop, Ed).
  intros ([v2 n2] & [Hm Hin]%find_ins_cover & E)%bind_ok. replace (Z.of_nat i + 1) with (Z.of_nat (S i)) in E by lia.
  destruct (IH (S i) v2 n2 (TxHash tx :: hs) Ed') as [Hm' Hc]; [|exact E|].
  { intros t. rewrite (take_S_r _ _ tx) by done. intros [?| ->%list_elem_of_singleton]%elem_of_app; [right; by apply Hhs|by left]. }
  split; [intros op Hop; by apply Hm', Hm|]. split; [|done]. intros _ op Hop.
  destruct (Hin op Hop) as [?|(k & Hk & Hle)]; [left; by apply Hm'|right]. destruct (Hfl _ _ Hk) as (t & H0 & Ht & <-). apply Hhs.
  apply list_elem_of_lookup. exists (Z.to_nat k). by rewrite lookup_take_lt by lia.
Qed.

Lemma in_flight_hash l i m x k :
  in_flight l i m !! x = Some k → m !! x = Some k ∨ ∃ t, i <= k ∧ l !! Z.to_nat (k - i) = Some t ∧ TxHash t = x.
Proof.
  revert i m. induction l as [|tx l IH]; intros i m; cbn [in_flight]; [by left|].
  intros [Hk|(t & Hle & Ht & Ex)]%IH.
  - apply lookup_insert_Some in Hk as [[<- <-]|[_ Hk]]; [right|by left]. exists tx. by rewrite Z.sub_diag.
  - right. exists t. split; [lia|]. split; [|done]. by replace (Z.to_nat (k - i)) with (S (Z.to_nat (k - (i + 1)))) by lia.
Qed.

(** After loading, the block is covered. *)
Lemma fetchInputUtxos_covered {S} `{!UtxoSource S} view block (s : S) U view1 s1 cb rest :
  b_Transactions block = txs → txs = cb :: rest → IsCoinBase cb = true → utxo_repr s U →
  fetchInputUtxos view block s = Ok (view1, s1) → covered (has_entry view1) [] txs.
Proof.
  intros Et Ecb Hcb Hs. unfold fetchInputUtxos, findInputsToFetch. cbv [mbind st_bind st_lift]. rewrite Et.
  assert (go_slice (E:=RuleErr) txs 1 (zlen txs) = Ok rest) as -> by (rewrite Ecb; by rewrite (go_slice_cons cb rest) by (by rewrite zlen_cons)).
  cbn [result_bind mbind]. destruct (find_txs view txs _ _ 0 rest []) as [[v0 needed]| |] eqn:E; [|done..]. cbn [result_bind].
  assert (Forall wf_OutPoint needed) as Hn.
  { odestruct (find_txs_load txs Hwf (λ _, True) (λ _, True) _ _ view (b_Height block) (in_flight txs 0 ∅) 0 rest [])
      as (v & n & E' & _ & _ & Hf); try done.
    - rewrite Ecb in Hwf. by apply Forall_cons in Hwf as [_ ?].
    - intros k j [Hk|Hk]%in_flight_range; [by rewrite lookup_empty in Hk|lia].
    - rewrite E in E'. injection E' as <- <-. eapply Forall_impl; [exact Hf|]. by intros op [? _]. }
  destruct (find_txs_cover (b_Height block) (in_flight txs 0 ∅) rest 0 view [] v0 needed [TxHash cb]) as [_ Hc]; [|by rewrite Ecb| |exact E|].
  { intros x k [Hk|(t & Hle & Ht & Ex)]%in_flight_hash; [by rewrite lookup_empty in Hk|]. exists t. by rewrite Z.sub_0_r in Ht. }
  { intros t. rewrite Ecb. cbn [take]. intros ->%list_elem_of_singleton. by left. }
  destruct (fetch_ok v0 needed s U Hs Hn) as (v2 & s2 & E2 & _ & _ & Hin & Hout). rewrite E2. intros [= <- <-].
  rewrite Ecb. cbn [covered]. split; [by unfold tracked; rewrite Hcb|]. eapply covered_mono; [|exact Hc].
  intros op Hop. unfold has_entry. destruct (decide (op ∈ needed)) as [Ho|Ho]; [destruct (Hin op Ho) as (e & -> & _); by eexists|].
  rewrite Hout by done. by destruct Hop.
Qed.
End valid.

(** ** On a branch *)

Section branch.
Context `{HashFns} (p : Params) (c : Z) (blk : blockNode → Block) (T : blockNode → Prop) (HT : block_tree blk T).
Implicit Types U W : UtxoSet.

Lemma replay_heights n W : T n → replay p c blk n W → heights_le (height n) W.
Proof.
  intros Hn Hr. induction Hr as [n Hp|n q U css fees V Hp Hr IH Hs Ht]; [intros op x; by rewrite lookup_empty|].
  destruct (bt_parent blk T HT n q Hn Hp) as [Hq Eh]. pose proof (node_wf_height q (bt_wf blk T HT q Hq)).
  apply (txs_step_le _ _ _ _ _ _ _ Hs ltac:(lia)). apply (heights_le_mono (height q)); [by apply IH|lia].
Qed.

(** No coin below a valid block has the hash of one of its transactions. *)
Lemma replay_new n q U W : T n → parent n = Some q → replay p c blk n W → replay p c blk q U →
  ∀ op x, U !! op = Some x → op_Hash op ∉ TxHash <$> txs_of blk n.
Proof.
  intros Hn Hp HrW HrU op x Hx Hin. destruct (bt_parent blk T HT n q Hn Hp) as [Hq _].
  pose proof (hist_nodup _ _ (replay_history p c blk T HT n W Hn HrW)) as Hnd. rewrite (branch_txs_child blk n q Hp), fmap_app in Hnd.
  apply NoDup_app in Hnd as (_ & Hd & _). apply (Hd (op_Hash op)); [|done].
  by apply (hist_origin _ _ (replay_history p c blk T HT q U Hq HrU) op x).
Qed.

(** A valid block connects to a view over its parent's coins. *)
Lemma known_connects {S} `{!UtxoSource S} n q view (s : S) U W W' view1 s1 :
  T n → parent n = Some q → replay p c blk q W → replay p c blk n W' → utxo_repr s U → view_repr view U W →
  fetchInputUtxos view (blk n) s = Ok (view1, s1) → ∃ r, view_connectTransactions view1 (blk n) None = Ok r.
Proof.
  intros Hn Hp HrW HrW' Hs Hv E. destruct (bt_sane blk T HT n q Hn Hp) as (Hsb & _ & _).
  destruct (sb_coinbase _ Hsb) as (cb & rest & Et & Hcb & _).
  assert (b_Transactions (blk n) ≠ []) as Hne by (unfold txs_of in Et; by rewrite Et).
  destruct (replay_inv _ _ _ _ _ _ Hp HrW') as (W0 & css & fees & Hr0 & Hss & _). rewrite (replay_det _ _ _ _ _ _ Hr0 HrW) in Hss.
  destruct (fetchInputUtxos_valid view (blk n) s U W (sb_wf _ Hsb) Hne Hs Hv) as (v & s' & E' & _ & _ & Hst).
  rewrite E in E'. injection E' as <- <-. unfold view_connectTransactions.
  destruct (connect_loop_total (CoinbaseMaturity p) (b_Height (blk n)) (b_Transactions (blk n)) W css fees W' view1 U None []) as [[v x] ->];
    [|apply Hsb|apply Hsb|exact Hst| | | |by eexists].
  - by rewrite (proj2 (bt_block blk T HT n Hn)).
  - by eapply (fetchInputUtxos_covered _ (sb_wf _ Hsb)).
  - intros op x Hx. by apply (replay_new n q W W' Hn Hp HrW' HrW op x).
  - by intros op x _ ?%elem_of_nil.
Qed.
End branch.
