(* ===== verification/ChainSpec.v ===== *)
(** * The chain keeps the ledger of its best branch

    The state of the chain stands for the coins of the branch of its tip, and
    [connectBestChain] keeps it so, whether it extends the tip, leaves a block
    on the side or reorganizes. *)
From stdpp Require Import fin_maps fin_sets strings.
From Stdlib Require Import Lia ZArith.
From S2P Require Import Prelude Wire MsgTx ScriptError Taproot Tokenizer Standard Crypto SigCache SigHash Opcode Engine EngineExec Work ChainParams BlockIndex Subsidy RuleError TxRules Merkle Compress UtxoView Ledger ConnectBlock ConnectSpec UtxoStore SizeHelper UtxoCache UtxoCacheSpec ChainView Disconnect ChainIO ChainState Reorg Replay.

(** ** The index of the main chain *)

(** The buckets hold the branch of the tip and nothing else of the tree. *)
Definition index_ok (T : blockNode → Prop) (ix : IndexBuckets) (t : blockNode) : Prop :=
  (∀ n, n ∈ branch t → hashIndex ix !! hash n = Some (le_put 4 (u32 (height n)))) ∧
  (∀ n, T n → n ∉ branch t → hashIndex ix !! hash n = None) ∧
  (∀ h, 0 <= h < 2 ^ 31 → heightIndex ix !! le_put 4 (u32 h) = hash <$> branch t !! Z.to_nat h).

Section index.
Context (T : blockNode → Prop) (HT : is_tree T).

Lemma child_height n q : T n → parent n = Some q → T q ∧ height n = height q + 1 ∧ n ∉ branch q.
Proof.
  intros Hn Hp. assert (HTq : T q) by by apply (tree_parent T HT n).
  destruct (node_wf_inv n (tree_wf T HT n Hn)) as [(E & _)|(q' & E & _ & Eh & _)]; [congruence|].
  assert (q' = q) as -> by congruence. split; [done|]. split; [done|]. intros Hin.
  apply elem_of_branch_height in Hin as [_ Hr]; [lia|]. by apply (tree_wf T HT).
Qed.

Lemma index_connect ix q n : T n → parent n = Some q → height n < 2 ^ 31 → index_ok T ix q → index_ok T (dbPutBlockIndex ix (hash n) (height n)) n.
Proof.
  intros Hn Hp Hmax (H1 & H2 & H3). destruct (child_height n q Hn Hp) as (Hq & Eh & Hni).
  pose proof (tree_wf T HT q Hq) as Hwq. pose proof (node_wf_height q Hwq). pose proof (length_branch q Hwq) as El.
  split_and!; cbn [dbPutBlockIndex hashIndex heightIndex].
  - intros a Ha. destruct (decide (hash a = hash n)) as [E|Hne].
    + rewrite E, lookup_insert_eq. apply (tree_hash T HT) in E as ->; [done| |done]. by apply (branch_T T HT a n).
    + rewrite lookup_insert_ne by done. apply H1. apply elem_of_branch in Ha as [->|(q' & E & ?)]; [done|congruence].
  - intros a HTa Ha. rewrite lookup_insert_ne.
    + apply H2; [done|]. intros Hin. apply Ha, elem_of_branch. right. by exists q.
    + intros E. apply Ha. apply (tree_hash T HT) in E as ->; [apply branch_self|done..].
  - intros h Hh. rewrite (branch_unfold n), Hp. unfold zlen in El. destruct (Z.eq_dec h (height n)) as [->|Hne].
    + rewrite lookup_insert_eq, lookup_app_r by lia.
      by replace (Z.to_nat (height n) - length (branch q))%nat with 0%nat by lia.
    + rewrite lookup_insert_ne by (intros E%u32_put_inj; unfold is_i32; lia). rewrite H3 by done.
      destruct (Z.lt_ge_cases h (height n)).
      * by rewrite lookup_app_l by lia.
      * rewrite !lookup_ge_None_2; [done|rewrite length_app; cbn; lia|lia].
Qed.

Lemma index_disconnect ix q n : T n → parent n = Some q → height n < 2 ^ 31 → index_ok T ix n → index_ok T (dbRemoveBlockIndex ix (hash n) (height n)) q.
Proof.
  intros Hn Hp Hmax (H1 & H2 & H3). destruct (child_height n q Hn Hp) as (Hq & Eh & Hni).
  pose proof (tree_wf T HT q Hq) as Hwq. pose proof (node_wf_height q Hwq). pose proof (length_branch q Hwq) as El.
  split_and!; cbn [dbRemoveBlockIndex hashIndex heightIndex].
  - intros a Ha. rewrite lookup_delete_ne; [apply H1, elem_of_branch; right; by exists q|].
    intros E. apply (tree_hash T HT) in E as ->; [done|done|by apply (branch_T T HT a q)].
  - intros a HTa Ha. destruct (decide (hash a = hash n)) as [->|Hne]; [apply lookup_delete_eq|].
    rewrite lookup_delete_ne by done. apply H2; [done|].
    intros [->|(q' & E & ?)]%elem_of_branch; [done|congruence].
  - intros h Hh. unfold zlen in El. destruct (Z.eq_dec h (height n)) as [->|Hne].
    + rewrite lookup_delete_eq, lookup_ge_None_2 by lia. done.
    + rewrite lookup_delete_ne by (intros E%u32_put_inj; unfold is_i32; lia). rewrite H3 by done.
      rewrite (branch_unfold n), Hp. destruct (Z.lt_ge_cases h (height n)).
      * by rewrite lookup_app_l by lia.
      * rewrite !lookup_ge_None_2; [done|lia|rewrite length_app; cbn; lia].
Qed.
End index.

(** ** Paths *)

(** The lists of a reorganization: from [n] down to [f], [f] left out, and from
    [f] up to [n]. *)
Fixpoint down (n : blockNode) (l : list blockNode) (f : blockNode) : Prop :=
  match l with [] => n = f | m :: l => m = n ∧ ∃ q, parent n = Some q ∧ down q l f end.

Fixpoint up (f : blockNode) (l : list blockNode) (n : blockNode) : Prop :=
  match l with [] => n = f | m :: l => parent m = Some f ∧ up m l n end.

Lemma up_snoc f l q n : up f l q → parent n = Some q → up f (l ++ [n]) n.
Proof. revert f. induction l as [|m l IH]; intros f; cbn [up app]; [by intros ->|]. intros [? Hu] Hp. split; [done|by apply IH]. Qed.

Section paths.
Context (T : blockNode → Prop) (HT : is_tree T).

Lemma down_above f n : T n → f ∈ branch n → down n (reverse (above f n)) f.
Proof.
  intros Hn Hf. pose proof (tree_wf T HT n Hn) as Hw. revert n Hw Hf Hn.
  apply (branch_climb f (λ n, T n → down n (reverse (above f n)) f)).
  - intros Hf. by rewrite above_self by by apply (tree_wf T HT).
  - intros n q Hw Hp Hf IH Hn. rewrite (above_step f n q), reverse_snoc by done. split; [done|].
    exists q. split; [done|]. by apply IH, (tree_parent T HT n).
Qed.

Lemma up_branch f l n : T n → up f l n → f ∈ branch n.
Proof.
  intros Hn. revert f. induction l as [|m l IH]; intros f; cbn [up]; [intros ->; apply branch_self|].
  intros [Hp Hu]. apply (branch_trans f m n); [by apply (tree_wf T HT)| |by apply IH].
  apply elem_of_branch. right. exists f. split; [done|apply branch_self].
Qed.

Lemma up_above f n : T n → f ∈ branch n → up f (above f n) n.
Proof.
  intros Hn Hf. pose proof (tree_wf T HT n Hn) as Hw. revert n Hw Hf Hn.
  apply (branch_climb f (λ n, T n → up f (above f n) n)).
  - intros Hf. by rewrite above_self by by apply (tree_wf T HT).
  - intros n q Hw Hp Hf IH Hn. rewrite (above_step f n q) by done. apply (up_snoc f _ q); [|done].
    by apply IH, (tree_parent T HT n).
Qed.
End paths.

(** Binds in a row. *)
Lemma st_assoc {E S A B C} (m : ST E S A) (f : A → ST E S B) (g : B → ST E S C) s :
  (m ≫= λ a, f a ≫= g) s = ((m ≫= f) ≫= g) s.
Proof. cbv [mbind st_bind]. by destruct (m s) as [[a s']| |]. Qed.

(** ** The state at a tip *)

Section invariant.
Context `{HashFns} `{Keys} `{!MapRange bytes sigCacheEntry} `{!MapRange bytes TxSigHashes}.
Context `{Log2Conv} `{PubKeyFormats} `{!MapOrder OutPoint (option UtxoEntry)} `{!BlockPruner}.
Implicit Types U W D : UtxoSet.

(** [V] has all the nodes there may be, [T] those that are known. *)
Context (p : Params) (c : Z) (blk : blockNode → Block) (V T : blockNode → Prop).
Context (HV : block_tree blk V) (HTV : subtree T V).

Let HT : block_tree blk T := subtree_blocks blk T V HV HTV.

(** A node marked valid, in memory or in its row of the database, has blocks that
    replay. *)
Definition marks_ok (bi : blockIndex) : Prop := ∀ n, T n → KnownValid (NodeStatus bi n) = true → ∃ U, replay p c blk n U.

Definition rows_ok (rows : Bucket) : Prop :=
  ∀ n, T n → ∃ s, dbFetchBlockStatus rows (hash n) = Ok s ∧ (KnownValid s = true → ∃ U, replay p c blk n U).

Definition status_ok (b : Chain) : Prop := marks_ok (index b) ∧ rows_ok (db_status (cdb b)).

Lemma flush_rows bi rows : marks_ok bi → rows_ok rows → rows_ok (flushToDB bi rows).2.
Proof.
  intros Hm Hr n Hn. unfold flushToDB. case_bool_decide; [by apply Hr|]. unfold store_statuses. cbn [snd].
  induction (elements (bi_dirty bi)) as [|h l IH]; cbn [foldr]; [by apply Hr|].
  destruct (bi_status bi !! h) as [s|] eqn:Es; [|done]. destruct (decide (hash n = h)) as [<-|Hne].
  - exists (s mod 256). split.
    + unfold dbFetchBlockStatus, dbStoreBlockStatus. rewrite lookup_insert_eq. cbn [mbind result_bind].
      rewrite go_index_0. cbn [mbind result_bind]. by rewrite b2z_z2b.
    + rewrite KnownValid_byte. intros Hk. apply Hm; [done|]. unfold NodeStatus. by rewrite Es.
  - destruct IH as (s' & E' & Hs'). exists s'. split; [|done]. unfold dbFetchBlockStatus, dbStoreBlockStatus in *.
    by rewrite lookup_insert_ne.
Qed.

Lemma flush_node bi rows bi' rows' : flushToDB bi rows = (bi', rows') → ∀ n, NodeStatus bi' n = NodeStatus bi n.
Proof. unfold flushToDB. case_bool_decide; by intros [= <- <-]. Qed.

Lemma flush_status bi rows bi' rows' : flushToDB bi rows = (bi', rows') → marks_ok bi → rows_ok rows → marks_ok bi' ∧ rows_ok rows'.
Proof.
  intros E Hm Hr. pose proof (flush_rows bi rows Hm Hr) as Hr'. rewrite E in Hr'.
  split; [|done]. intros n HTn. rewrite (flush_node _ _ _ _ E). by apply Hm.
Qed.

(** The block whose coins the bucket below a cache holds. *)
Definition mark (s : utxoCache) : option bytes := utxoStateConsistency (db s).

(** What another cache is to stand for, over the same bucket. *)
Definition over (b : Chain) (s : utxoCache) D U : Prop := cache_repr s D U ∧ mark s = mark (ConnectBlock.utxoCache (base b)).

(** The chain is at [t]: the view, the snapshot and the buckets are those of its
    branch, the cache, over a bucket that holds the coins of a node of the
    branch and its mark, stands for the coins of [t], and the journals of the branch can be
    read. *)
Record at_tip (b : Chain) (t : blockNode) D U : Prop := {
  at_node : T t;
  at_view : view_of (bestChain b) (Some t);
  at_coins : replay p c blk t U;
  at_below : ∃ a, a ∈ branch t ∧ replay p c blk a D ∧ mark (ConnectBlock.utxoCache (base b)) = Some (hash a);
  at_cache : cache_repr (ConnectBlock.utxoCache (base b)) D U;
  at_blocks n : T n → dbFetchBlockByNode (cdb b) n = Ok (blk n);
  at_journal n css : n ∈ branch t → spent p c blk n css →
    db_journal (cdb b) !! hash n = Some (journal_code (coin_stxo <$> concat css));
  at_index : index_ok V (db_index (cdb b)) t;
  at_status : status_ok b;
  at_params : chainParams (base b) = p;
  at_prune : pruneTarget b = 0;
  at_snapshot : bs_Hash (stateSnapshot b) = hash t ∧ bs_Height (stateSnapshot b) = height t
}.

(** The stored best state is that of the tip. *)
Definition best_stored (b : Chain) (t : blockNode) : Prop :=
  db_bestState (cdb b) = serializeBestChainState
    (mkBestChainState (hash t) (u32 (height t)) (bs_TotalTxns (stateSnapshot b)) (workSum t)).

Let HTt : is_tree T := bt_tree blk T HT.
Let HVt : is_tree V := bt_tree blk V HV.

Lemma T_branch a n : T n → a ∈ branch n → T a.
Proof. by apply (branch_T T HTt). Qed.

(** Nodes of a branch have distinct hashes. *)
Lemma hash_branch n q a : T n → parent n = Some q → a ∈ branch q → hash a ≠ hash n.
Proof.
  intros Hn Hp Ha E. destruct (child_height T HTt n q Hn Hp) as (Hq & _ & Hni).
  apply (tree_hash T HTt) in E as ->; [done|by apply (T_branch a q)|done].
Qed.

(** The coins a block spent are those of its step. *)
Lemma spent_det n q U css fees W css' :
  parent n = Some q → replay p c blk q U → txs_step (CoinbaseMaturity p) (height n) (txs_of blk n) U css fees W →
  spent p c blk n css' → css' = css.
Proof.
  intros Hp Hr Hs Hsp. destruct (spent_inv _ _ _ _ _ _ _ Hp Hr Hsp) as (fees' & W' & Hs').
  by destruct (txs_step_det _ _ _ _ _ _ _ _ _ _ Hs' Hs) as (-> & _).
Qed.

Lemma spent_ok n css : T n → spent p c blk n css → Forall stxo_ok (coin_stxo <$> concat css).
Proof.
  intros Hn (q & U & fees & W & Hp & Hr & Hs). destruct (bt_sane blk T HT n q Hn Hp) as (Hsb & _ & Hst).
  destruct (bt_parent blk T HT n q Hn Hp) as [Hq _].
  destruct (replay_ok p c blk T HT q U Hq Hr) as [_ HU].
  destruct (txs_step_coins _ _ _ _ _ _ _ Hs (sb_wf _ Hsb) Hst HU) as [_ Hcs].
  apply Forall_fmap. eapply Forall_impl; [exact Hcs|done].
Qed.

Lemma spent_count {E} n css : T n → spent p c blk n css →
  countSpentOutputs (E:=E) (blk n) = Ok (zlen (coin_stxo <$> concat css)).
Proof.
  intros Hn (q & U & fees & W & Hp & Hr & Hs). destruct (bt_sane blk T HT n q Hn Hp) as (Hsb & _ & _).
  rewrite (countSpentOutputs_ok (E:=E) (CoinbaseMaturity p) (blk n) U css fees W);
    [unfold zlen; by rewrite length_fmap|by rewrite (proj2 (bt_block blk T HT n Hn))|done].
Qed.

(** The stored journal of a block of the branch. *)
Lemma fetch_journal j n css :
  T n → spent p c blk n css → j !! hash n = Some (journal_code (coin_stxo <$> concat css)) →
  dbFetchSpendJournalEntry j (blk n) = Ok (coin_stxo <$> concat css).
Proof.
  intros Hn Hsp Hj. pose proof (spent_count (E:=RuleErr) n css Hn Hsp) as Hc. pose proof (spent_ok n css Hn Hsp) as Hok.
  destruct Hsp as (q & _ & _ & _ & Hp & _). destruct (bt_sane blk T HT n q Hn Hp) as (Hsb & _ & _).
  destruct (sb_coinbase _ Hsb) as (cb & rest & Et & _). unfold txs_of in Et.
  apply (journal_fetch _ _ cb rest); [done| |done|by rewrite (proj1 (bt_block blk T HT n Hn))].
  unfold countSpentOutputs in Hc. rewrite Et, (go_slice_cons cb rest) in Hc by (by rewrite zlen_cons).
  cbn [mbind result_bind] in Hc. by injection Hc as <-.
Qed.

(** *** The cache takes a block *)

Lemma connect_to_cache_ok b q D U n W :
  at_tip b q D U → T n → parent n = Some q → replay p c blk n W →
  ∃ css s, connect_to_cache (blk n) b = Ok (coin_stxo <$> concat css, set_cache b s) ∧ over b s D W ∧ spent p c blk n css.
Proof.
  intros Hb Hn Hp Hr. destruct (replay_inv _ _ _ _ _ _ Hp Hr) as (U' & css & fees & HrU & Hs & _).
  assert (U' = U) as -> by (eapply replay_det; [exact HrU|apply Hb]).
  assert (Hsp : spent p c blk n css) by (by exists q, U, fees, W).
  destruct (bt_sane blk T HT n q Hn Hp) as (Hsb & _ & Hh & Hf). destruct (at_below _ _ _ _ Hb) as (a & Ha & HrD & _).
  pose proof (replay_fresh p c blk T HT n q a D W Hn Hp Hr Ha HrD) as HfD.
  destruct (cache_connect_loop_ok (ConnectBlock.utxoCache (base b)) D U _ _ _ _ _ _ (Some []) (at_cache _ _ _ _ Hb) (sb_wf _ Hsb) Hh Hf HfD Hs)
    as (s & E & Hrs & Hdb).
  exists css, s. split; [|split; [split; [done|unfold mark; by rewrite Hdb]|done]]. unfold connect_to_cache, on_cache, cache_connectTransactions. cbv [mbind st_bind st_lift].
  rewrite (spent_count n css Hn Hsp). cbn [mbind result_bind]. rewrite (proj2 (bt_block blk T HT n Hn)).
  unfold txs_of in E. rewrite E. done.
Qed.

Lemma median_total (n : blockNode) : ∃ m, CalcPastMedianTime (Some n) = Ok m.
Proof. destruct (CalcPastMedianTime_rank n) as (m & E & _). by exists m. Qed.

Lemma prune_nothing_ok now state (b : Chain) : pruneTarget b = 0 → prune now state b = Ok ((), b).
Proof. unfold prune. intros ->. done. Qed.

Lemma set_tip b t n : T t → T n → view_of (bestChain b) (Some t) →
  ∃ v, setTip (bestChain b) (Some n) = Ok v ∧ view_of v (Some n).
Proof.
  intros Ht Hn Hv. apply (setTip_ok T HTt (bestChain b) (Some t)); [done|by intros ? [= <-]|done|by apply (bt_height blk T HT)].
Qed.

(** What [connectBlock] leaves before it flushes. *)
Definition connected (b : Chain) (bi : blockIndex) (st : Bucket) (v : chainView) (state : BestState) (n : blockNode)
    (stxos : list SpentTxOut) (s : utxoCache) : Chain :=
  mkChain (set_utxoCache (base b) s) bi v state
    (mkChainDB (db_blocks (cdb b)) (dbPutBlockIndex (db_index (cdb b)) (hash n) (height n))
       (serializeBestChainState (mkBestChainState (bs_Hash state) (u32 (bs_Height state)) (bs_TotalTxns state) (workSum n)))
       st (<[hash n := journal_code stxos]> (db_journal (cdb b)))) (pruneTarget b).

Lemma connectBlock_eq now b q D U n s css :
  at_tip b q D U → T n → parent n = Some q → spent p c blk n css →
  ∃ bi st v state, flushToDB (index b) (db_status (cdb b)) = (bi, st) ∧ view_of v (Some n) ∧
    bs_Hash state = hash n ∧ bs_Height state = height n ∧
    let b' := connected b bi st v state n (coin_stxo <$> concat css) s in
    connectBlock now n (blk n) (coin_stxo <$> concat css) (set_cache b s) =
      (should ← shouldFlush FlushIfNeeded (hash n) now s;
       if negb should then Ok ((), b') else cache_flush now FlushIfNeeded state b').
Proof.
  intros Hb Hn Hp Hsp. destruct Hb as [Ht Hv Hr Ha Hc Hbl Hj Hix Hst Hpa Hpr [Hsh Hsht]].
  destruct (bt_block blk T HT n Hn) as [Ebh Ebht]. pose proof (spent_ok n css Hn Hsp) as Hok.
  unfold connectBlock. cbv [mbind st_bind st_get st_lift st_modify]. cbn [bestChain set_cache set_base].
  rewrite (tip_view _ _ Hv). cbn [deref]. rewrite (bt_prev blk T HT n q Hn Hp), bool_decide_eq_true_2 by done. cbn [negb].
  rewrite (spent_count n css Hn Hsp). cbn [mbind result_bind]. rewrite Z.eqb_refl. cbn [negb].
  destruct (flushToDB (index b) (db_status (cdb b))) as [bi st] eqn:Ef.
  unfold flush_index at 1. cbn [index set_base cdb set_cache]. rewrite Ef.
  destruct (median_total n) as [mt ->]. cbn [lift_empty mbind result_bind].
  rewrite prune_nothing_ok by done. cbn [set_cdb set_index bestChain index cdb set_cache set_base stateSnapshot base pruneTarget].
  rewrite Ebh. cbn [db_journal set_db_index dbPutBestState].
  rewrite (journal_put _ _ _ Hok). cbn [mbind result_bind].
  destruct (set_tip b q n Ht Hn Hv) as (v & Ev & Hv'). rewrite Ev. cbn [lift_empty mbind result_bind].
  exists bi, st, v, (newBestState n (zlen (b_Transactions (blk n)))
    (u64 (bs_TotalTxns (stateSnapshot b) + zlen (b_Transactions (blk n)))) mt (timestamp n)). split; [done|]. split; [done|]. split; [reflexivity|]. split; [reflexivity|].
  destruct (shouldFlush_total (E:=RuleErr) FlushIfNeeded (hash n) now s) as [fl E]. cbv zeta.
  repeat match goal with
  | |- context [shouldFlush FlushIfNeeded ?h now ?x] =>
      assert (shouldFlush (E:=RuleErr) FlushIfNeeded h now x = Ok fl) as -> by exact E
  end.
  by destruct fl.
Qed.

(** The state with the block is at it. *)
Lemma connected_at_tip b q D U n W css bi st v state s D' a :
  at_tip b q D U → T n → parent n = Some q → replay p c blk n W → spent p c blk n css →
  flushToDB (index b) (db_status (cdb b)) = (bi, st) → view_of v (Some n) → bs_Hash state = hash n → bs_Height state = height n →
  cache_repr s D' W → a ∈ branch n → replay p c blk a D' → mark s = Some (hash a) →
  let b' := connected b bi st v state n (coin_stxo <$> concat css) s in
  at_tip b' n D' W ∧ best_stored b' n.
Proof.
  intros [Ht Hv Hr Ha Hc Hbl Hj Hix Hst Hpa Hpr Hsh] Hn Hp HrW Hsp Hbi Hvn Hh Hht Hs Han HaD Hmk.
  split; [|unfold best_stored, connected; cbn; by rewrite Hh, Hht]. split; try done.
  - by exists a.
  - intros m css' Hm Hsp'. cbn [connected cdb db_journal]. apply elem_of_branch in Hm as [->|(q' & Hp' & Hm)].
    + rewrite lookup_insert_eq. f_equal. f_equal. f_equal. f_equal.
      destruct (replay_inv _ _ _ _ _ _ Hp HrW) as (U' & css0 & fees & HrU & Hs0 & _).
      by rewrite (spent_det _ _ _ _ _ _ _ Hp HrU Hs0 Hsp), (spent_det _ _ _ _ _ _ _ Hp HrU Hs0 Hsp').
    + assert (q' = q) as -> by congruence. rewrite lookup_insert_ne; [by apply Hj|].
      intros E. by apply (hash_branch n q m Hn Hp Hm).
  - apply (index_connect V HVt _ q); [by apply (sub_in T V HTV)|done|pose proof (bt_height blk T HT n Hn); lia|done].
  - destruct Hst as [Hmk1 Hmk2]. by apply (flush_status _ _ _ _ Hbi).
Qed.

Lemma connectBlock_ok now b q D U n W s css :
  at_tip b q D U → T n → parent n = Some q → replay p c blk n W → spent p c blk n css → over b s D W →
  ∃ b' D', connectBlock now n (blk n) (coin_stxo <$> concat css) (set_cache b s) = Ok ((), b') ∧
    at_tip b' n D' W ∧ best_stored b' n ∧ ∀ m, NodeStatus (index b') m = NodeStatus (index b) m.
Proof.
  intros Hb Hn Hp HrW Hsp [Hs Hms].
  destruct (connectBlock_eq now b q D U n s css Hb Hn Hp Hsp) as (bi & st & v & state & Hbi & Hv & Eh & Eht & E).
  cbv zeta in E. rewrite E. clear E. destruct (at_below _ _ _ _ Hb) as (a & Ha & HaD & Hmk). rewrite <-Hms in Hmk.
  assert (Han : a ∈ branch n) by (apply elem_of_branch; right; by exists q). pose proof (flush_node _ _ _ _ Hbi) as Hno.
  destruct (flush_ok s D W FlushIfNeeded (hash n) now Hs) as (s' & Ef & [[Es ->]|(Es & Hs' & Hmk' & _)]);
    rewrite Es; cbn [mbind result_bind negb].
  - eexists _, D. split; [done|]. split_and!; [..|done]; by eapply connected_at_tip.
  - unfold cache_flush. cbn [connected base set_utxoCache ConnectBlock.utxoCache]. rewrite Eh, Ef. cbn [mbind result_bind].
    eexists (connected b bi st v state n _ s'), W. split; [done|].
    split_and!; [..|done]; (eapply (connected_at_tip _ _ _ _ _ _ _ _ _ _ _ _ _ n); try done; apply branch_self).
Qed.

(** *** Extending the tip *)

(** A block that is known to replay on the tip is connected. *)
Lemma extend_ok now b q D U n W :
  at_tip b q D U → T n → parent n = Some q → replay p c blk n W →
  ∃ b' D', (stxos ← connect_to_cache (blk n); connectBlock now n (blk n) stxos) b = Ok ((), b') ∧
    at_tip b' n D' W ∧ best_stored b' n ∧ ∀ m, NodeStatus (index b') m = NodeStatus (index b) m.
Proof.
  intros Hb Hn Hp HrW. destruct (connect_to_cache_ok b q D U n W Hb Hn Hp HrW) as (css & s & E & Hs & Hsp).
  cbv [mbind st_bind]. rewrite E. by apply (connectBlock_ok now b q D U).
Qed.

(** *** Leaving the tip *)

(** What [disconnectBlock] leaves. *)
Definition disconnected (b : Chain) (bi : blockIndex) (st : Bucket) (best : bytes) (v : chainView) (state : BestState)
    (n : blockNode) (s : utxoCache) : Chain :=
  mkChain (set_utxoCache (base b) s) bi v state
    (mkChainDB (db_blocks (cdb b)) (dbRemoveBlockIndex (db_index (cdb b)) (hash n) (height n)) best st
       (dbRemoveSpendJournalEntry (db_journal (cdb b)) (hash n))) (pruneTarget b).

Definition with_bucket (s : utxoCache) (bucket : Bucket) : utxoCache :=
  mkUtxoCache (mkCacheDB bucket (utxoStateConsistency (db s))) (maxTotalMemoryUsage s)
    (cachedEntries s) (totalEntryMemory s) (lastFlushHash s) (lastFlushTime s).

Lemma disconnectBlock_eq now b n q D W css view s s1 bucket :
  at_tip b n D W → parent n = Some q → spent p c blk n css →
  flush FlushRequired (hash q) now s = Ok s1 → dbPutUtxoView (utxoBucket (db s1)) (Some view) = Ok bucket →
  ∃ bi st best v state, flushToDB (index b) (db_status (cdb b)) = (bi, st) ∧ view_of v (Some q) ∧
    bs_Hash state = hash q ∧ bs_Height state = height q ∧
    disconnectBlock now n (blk n) view (set_cache b s) =
      Ok (commit view, disconnected b bi st best v state n (with_bucket s1 bucket)).
Proof.
  intros [Ht Hv Hr Ha Hc Hbl Hj Hix Hst Hpa Hpr [Hsh Hsht]] Hp Hsp Hf Hput.
  destruct (bt_block blk T HT n Ht) as [Ebh _]. destruct (bt_parent blk T HT n q Ht Hp) as [Hq _].
  unfold disconnectBlock. cbv [mbind st_bind st_get st_lift st_modify]. cbn [bestChain set_cache set_base].
  rewrite (tip_view _ _ Hv), Hp. cbn [deref]. rewrite bool_decide_eq_true_2 by done. cbn [negb cdb set_cache set_base].
  rewrite (Hbl q Hq). cbn [mbind result_bind].
  destruct (flushToDB (index b) (db_status (cdb b))) as [bi st] eqn:Ef.
  unfold flush_index at 1. cbn [index set_base cdb set_cache]. rewrite Ef.
  destruct (median_total q) as [mt ->]. cbn [lift_empty mbind result_bind].
  set (state := newBestState q _ _ mt _). unfold cache_flush.
  cbn [set_cdb set_index bestChain index cdb set_cache set_base stateSnapshot base pruneTarget set_utxoCache ConnectBlock.utxoCache].
  change (bs_Hash state) with (hash q). rewrite Hf.
  cbn [mbind result_bind set_cdb set_index bestChain index cdb set_cache set_base stateSnapshot base pruneTarget set_utxoCache ConnectBlock.utxoCache].
  rewrite Hput. cbn [mbind result_bind set_cdb cdb set_cache set_base]. cbn [db_journal set_db_index dbPutBestState].
  rewrite (fetch_journal _ n css Ht Hsp) by (apply Hj; [apply branch_self|done]). cbn [mbind result_bind].
  cbn [bestChain set_cdb set_cache set_base set_index].
  destruct (set_tip b n q Ht Hq Hv) as (v & Ev & Hv'). rewrite Ev. cbn [lift_empty mbind result_bind].
  eexists bi, st, _, v, state. split; [done|]. split; [done|]. split; [done|]. split; [done|].
  unfold disconnected. rewrite Ebh. reflexivity.
Qed.

Lemma disconnected_at_tip b n q D W U bi st best v state s :
  at_tip b n D W → parent n = Some q → replay p c blk q U → flushToDB (index b) (db_status (cdb b)) = (bi, st) →
  view_of v (Some q) → bs_Hash state = hash q → bs_Height state = height q → cache_repr s U U → mark s = Some (hash q) →
  at_tip (disconnected b bi st best v state n s) q U U.
Proof.
  intros [Ht Hv Hr Ha Hc Hbl Hj Hix Hst Hpa Hpr Hsh] Hp HrU Hbi Hvq Hh Hht Hs Hmk.
  destruct (bt_parent blk T HT n q Ht Hp) as [Hq _]. split; try done.
  - exists q. split; [apply branch_self|done].
  - intros m css Hm Hsp. cbn [disconnected cdb db_journal]. unfold dbRemoveSpendJournalEntry.
    rewrite lookup_delete_ne; [apply Hj; [apply elem_of_branch; right; by exists q|done]|].
    intros E. by apply (hash_branch n q m Ht Hp Hm).
  - apply (index_disconnect V HVt _ q n); [by apply (sub_in T V HTV)|done|pose proof (bt_height blk T HT n Ht); lia|done].
  - destruct Hst as [Hmk1 Hmk2]. by apply (flush_status _ _ _ _ Hbi).
Qed.

(** A block of a branch with coins has a journal. *)
Lemma spent_of n q W : parent n = Some q → replay p c blk n W → ∃ css, spent p c blk n css.
Proof. intros Hp Hr. destruct (replay_inv _ _ _ _ _ _ Hp Hr) as (U & css & fees & HrU & Hs & _). by exists css, q, U, fees, W. Qed.

(** The facts about a block of the branch the other modules ask for. *)
Lemma block_facts n q W U css :
  T n → parent n = Some q → replay p c blk n W → replay p c blk q U → spent p c blk n css →
  ∃ fees, txs_step (CoinbaseMaturity p) (b_Height (blk n)) (b_Transactions (blk n)) U css fees W ∧
    sane_block (b_Transactions (blk n)) ∧ b_Transactions (blk n) ≠ [] ∧
    Forall (λ tx, fresh_tx tx U) (b_Transactions (blk n)) ∧ coins_ok U.
Proof.
  intros Hn Hp HrW HrU Hsp. destruct (replay_inv _ _ _ _ _ _ Hp HrW) as (U' & css' & fees & HrU' & Hs & _).
  assert (U' = U) as -> by (by eapply replay_det). rewrite (spent_det _ _ _ _ _ _ _ Hp HrU Hs Hsp).
  destruct (bt_sane blk T HT n q Hn Hp) as (Hsb & _ & _). destruct (bt_parent blk T HT n q Hn Hp) as [Hq _].
  exists fees. rewrite (proj2 (bt_block blk T HT n Hn)). split_and!; [done|done| | |].
  - destruct (sb_coinbase _ Hsb) as (? & ? & E & _). unfold txs_of in E. by rewrite E.
  - by apply (replay_fresh p c blk T HT n q q U W Hn Hp HrW (branch_self q)).
  - by apply (replay_ok p c blk T HT q U Hq).
Qed.

(** The last block is undone: the coins of its parent are in the bucket. *)
Lemma detach_ok now b n q D W U view css :
  at_tip b n D W → parent n = Some q → replay p c blk q U → spent p c blk n css → undone view W W →
  ∃ view' b', (view ← on_cache (fetchInputUtxos view (blk n));
     view ← st_lift (disconnectTransactions view (blk n) (coin_stxo <$> concat css));
     disconnectBlock now n (blk n) view) b = Ok (view', b') ∧
    at_tip b' q U U ∧ undone view' U U ∧ ∀ m, NodeStatus (index b') m = NodeStatus (index b) m.
Proof.
  intros Hb Hp HrU Hsp Hv. destruct (block_facts n q W U css (at_node _ _ _ _ Hb) Hp (at_coins _ _ _ _ Hb) HrU Hsp)
    as (fees & Hs & Hsb & _ & Hfr & HU).
  destruct (undo_block _ (blk n) css fees U W (ConnectBlock.utxoCache (base b)) D view (hash q) now (at_cache _ _ _ _ Hb) Hv Hs Hsb Hfr HU)
    as (view1 & s1 & view2 & s2 & bucket & E1 & E2 & _ & E3 & E4 & Hbu & Hu & Hs2 & Hmk & Hempty).
  destruct (disconnectBlock_eq now b n q D W css view2 s1 s2 bucket Hb Hp Hsp E3 E4)
    as (bi & st & best & v & state & Hbi & Hvq & Hh & Hht & E5).
  exists (commit view2). eexists. split; [|split_and!; [|exact Hu|]].
  - unfold on_cache. cbv [mbind st_bind st_lift]. rewrite E1. cbn [mbind result_bind]. rewrite E2. cbn [mbind result_bind].
    exact E5.
  - eapply disconnected_at_tip; try done. destruct Hs2 as [_ _ Hsl _ _].
    split; [done|done|done| |done]. intros op e He. cbn [with_bucket cachedEntries] in He. by rewrite Hempty in He.
  - exact (flush_node _ _ _ _ Hbi).
Qed.

(** *** Checking what is to be detached *)

(** The journals of some blocks. *)
Definition journals (csss : list (list (list Coin))) : list (list SpentTxOut) := (λ css, coin_stxo <$> concat css) <$> csss.

Lemma at_over b t D U : at_tip b t D U → over b (ConnectBlock.utxoCache (base b)) D U.
Proof. intros Hb. split; [apply Hb|done]. Qed.

Lemma at_tip_cache b t D U s : at_tip b t D U → over b s D U → at_tip (set_cache b s) t D U.
Proof.
  intros [Ht Hv Hr (a & ? & ? & Hmk) Hc Hbl Hj Hix Hst Hpa Hpr Hsh] [Hs Hms]. split; try done.
  exists a. split; [done|]. split; [done|]. by rewrite <-Hmk, <-Hms.
Qed.

(** The cache as a source over the bucket of a chain. *)
#[local] Program Instance cache_at (b : Chain) D : UtxoSource utxoCache := {|
  fetchEntries := cache_fetchEntries;
  utxo_repr s U := over b s D U
|}.
Next Obligation.
  intros b D s U ops [Hr Hms] Hw. destruct (cache_fetchEntries_ok s D U ops Hr Hw) as (s' & E & Hr' & Hdb & _).
  eexists _, s'. split_and!; [exact E|split; [done|unfold mark in *; by rewrite Hdb]|]. apply Forall2_fmap_r, Forall_Forall2_diag.
  eapply Forall_impl; [exact Hw|]. intros op Hop. symmetry. by apply (resolve_ok s D U op Hr Hop).
Qed.

Lemma verify_detach_ok b t D U l : ∀ n f s view W,
  at_tip b t D U → over b s D U → n ∈ branch t → down n l f → replay p c blk n W → undone view U W →
  ∃ csss view' s' W', verify_detach l view (set_cache b s) = Ok ((blk <$> l, journals csss, view'), set_cache b s') ∧
    over b s' D U ∧ Forall2 (spent p c blk) l csss ∧ undone view' U W' ∧ replay p c blk f W'.
Proof.
  intros n f s view W Hb. revert n s view W. induction l as [|m l IH]; intros n s view W Hs Hn Hd HrW Hv; cbn [verify_detach down] in *.
  { subst f. exists [], view, s, W. by split_and!. }
  destruct Hd as [-> (q & Hp & Hd)]. destruct Hb as [Ht Hvw Hr Ha Hc Hbl Hj Hix Hst Hpa Hpr Hsh].
  assert (Hb : at_tip b t D U) by by split. assert (HTn : T n) by by apply (T_branch n t).
  destruct (spent_of n q W Hp HrW) as [css Hsp]. destruct (replay_inv _ _ _ _ _ _ Hp HrW) as (Uq & _ & _ & HrU & _).
  destruct (block_facts n q W Uq css HTn Hp HrW HrU Hsp) as (fees & Hs1 & Hsb & Hne & Hfr & _).
  cbv [mbind st_bind st_get st_lift]. cbn [set_cache set_base cdb]. rewrite (Hbl n HTn). cbn [mbind result_bind].
  rewrite bool_decide_eq_true_2 by (symmetry; apply (bt_block blk T HT n HTn)). cbn [negb]. unfold on_cache at 1.
  destruct (fetchInputUtxos_undo (UtxoSource0:=cache_at b D) view (blk n) s U W (sb_wf _ Hsb) Hne Hs Hv)
    as (view1 & s1 & E1 & Hs1' & _ & Hu1).
  change (fetchInputUtxos (UtxoSource0:=cache_at b D) view (blk n) s) with (fetchInputUtxos view (blk n) s) in E1.
  cbn [set_cache set_base base set_utxoCache ConnectBlock.utxoCache]. rewrite E1. cbn [mbind result_bind].
  cbn [set_cache set_base cdb]. rewrite (fetch_journal _ n css HTn Hsp) by by apply Hj. cbn [mbind result_bind].
  destruct (disconnectTransactions_ok _ (blk n) _ _ _ _ _ _ Hs1 Hsb Hfr Hu1) as (view2 & E2 & _ & Hu2).
  rewrite E2. cbn [mbind result_bind].
  destruct (IH q s1 view2 Uq) as (csss & view' & s' & W' & E & Hs' & Hj' & Hu' & HrW'); [done| |done|done|done|].
  { apply (branch_trans q n t); [by apply (bt_wf blk T HT)|apply elem_of_branch; right; exists q; split; [done|apply branch_self]|done]. }
  exists (css :: csss), view', s', W'.
  split_and!; [|done|by constructor|done|done].
  match goal with |- context [verify_detach l view2 ?x] => change x with (set_cache b s1) end. by rewrite E.
Qed.

(** *** Checking what is to be attached *)

Context (Hm : maturity_ok p) (Hc : schedule (Some p) c).

Lemma at_tip_index b t D U bi :
  at_tip b t D U → (∀ n, T n → KnownValid (NodeStatus bi n) = true → KnownValid (NodeStatus (index b) n) = true ∨ ∃ U, replay p c blk n U) →
  at_tip (set_index b bi) t D U.
Proof.
  intros [Ht Hv Hr Ha Hca Hbl Hj Hix [Hst Hrow] Hpa Hpr Hsh] Hi. split; try done. split; [|done].
  intros n Hn Hk. destruct (Hi n Hn Hk) as [?|?]; [by apply Hst|done].
Qed.

Lemma at_tip_base b t D U bs :
  at_tip b t D U → chainParams bs = p → over b (ConnectBlock.utxoCache bs) D U → at_tip (set_base b bs) t D U.
Proof.
  intros [Ht Hv Hr (a & ? & ? & Hmk) Hca Hbl Hj Hix Hst Hpa Hpr Hsh] Hp [Hs Hms]. split; try done.
  exists a. split; [done|]. split; [done|]. by rewrite <-Hmk, <-Hms.
Qed.

Lemma mark_valid b n : T n → (∃ U, replay p c blk n U) →
  ∀ m, T m → KnownValid (NodeStatus (SetStatusFlags (index b) n statusValid) m) = true →
    KnownValid (NodeStatus (index b) m) = true ∨ ∃ U, replay p c blk m U.
Proof.
  intros Hn Hr m HTm. rewrite set_status_node. case_bool_decide as E; [|by left].
  apply (tree_hash T HTt) in E as ->; [|done..]. by right.
Qed.

Lemma checkConnectBlock_params {S} `{!UtxoSource S} node block view stxos (b : @BlockChain S) r b' :
  checkConnectBlock node block view stxos b = Ok (r, b') → chainParams b' = chainParams b.
Proof.
  unfold checkConnectBlock. case_bool_decide; [done|]. case_bool_decide; cbn [negb]; [|done].
  intros ([v1 s1] & _ & Hk)%bind_ok. apply bind_ok in Hk as ([v2 s2] & _ & Hk). apply bind_ok in Hk as ([v3 x3] & _ & Hk).
  destruct (match LatestCheckpoint _ with Some _ => _ | None => _ end); [|by injection Hk as _ <-].
  apply bind_ok in Hk as ([sc hc] & _ & Hk). by injection Hk as _ <-.
Qed.

(** A block that passes the checks on a view of its parent's coins replays. *)
Lemma check_ok b t D U n q W view view' x bs :
  at_tip b t D U → T n → parent n = Some q → replay p c blk q W → view_repr view U W →
  checkConnectBlock n (blk n) view None (base b) = Ok ((view', x), bs) →
  at_tip (set_base b bs) t D U ∧ ∃ W', replay p c blk n W' ∧ view_repr view' U W'.
Proof.
  intros Hb Hn Hp HrW Hv Hk. destruct (bt_parent blk T HT n q Hn Hp) as [Hq Eh].
  destruct (bt_sane blk T HT n q Hn Hp) as (Hsb & Hord & _). pose proof (bt_height blk T HT n Hn).
  pose proof (node_wf_height q (bt_wf blk T HT q Hq)).
  destruct (replay_ok p c blk T HT q W Hq HrW) as [Hok _]. pose proof (at_params _ _ _ _ Hb) as Hpa.
  pose proof (checkConnectBlock_params _ _ _ _ _ _ _ Hk) as Hpb. rewrite Hpa in Hpb.
  edestruct (checkConnectBlock_sound (UtxoSource0:=cache_at b D) n (blk n) view None (base b) view' x bs U W c)
    as (_ & _ & Hs & css & fees & W' & Hss & Htot & Hv' & _); [by rewrite Hpa|by rewrite Hpa|lia|done|done|by eapply at_over|done|done|exact Hk|].
  rewrite Hpa in Hss. split; [by apply at_tip_base|]. exists W'. split; [|done].
  by apply (replay_block _ _ _ n q W css fees W').
Qed.

(** A block marked valid takes the view along. *)
Lemma known_ok b t D U n q W s view :
  at_tip b t D U → T n → parent n = Some q → replay p c blk q W → view_repr view U W → over b s D U →
  (∃ W', replay p c blk n W') →
  ∃ view1 s1, fetchInputUtxos view (blk n) s = Ok (view1, s1) ∧ over b s1 D U ∧
    ∀ view' x, view_connectTransactions view1 (blk n) None = Ok (view', x) → ∃ W', replay p c blk n W' ∧ view_repr view' U W'.
Proof.
  intros Hb Hn Hp HrW Hv Hs [W' HrW']. destruct (spent_of n q W' Hp HrW') as [css Hsp].
  destruct (block_facts n q W' W css Hn Hp HrW' HrW Hsp) as (fees & Hs1 & Hsb & Hne & _).
  destruct (fetchInputUtxos_valid (UtxoSource0:=cache_at b D) view (blk n) s U W (sb_wf _ Hsb) Hne Hs Hv)
    as (view1 & s1 & E & Hs1' & _ & Hst).
  exists view1, s1. split; [exact E|]. split; [done|]. intros view' x. unfold view_connectTransactions.
  intros ([v st] & Hk & [= <- <-])%bind_ok. exists W'. split; [done|].
  exact (connect_loop_valid _ _ _ _ _ _ _ _ _ _ _ _ Hs1 (sb_wf _ Hsb) Hst Hk).
Qed.

(** The parts of the chain the checks leave alone. *)
Definition same_db (b b' : Chain) : Prop := cdb b' = cdb b ∧ stateSnapshot b' = stateSnapshot b.

Lemma verify_attach_ok t D U l : ∀ f n b view W r b',
  at_tip b t D U → Forall T l → up f l n → replay p c blk f W → view_repr view U W →
  verify_attach l view b = Ok (r, b') →
  at_tip b' t D U ∧ same_db b b' ∧
  match r with inl blocks => blocks = blk <$> l ∧ ∃ W', replay p c blk n W' | inr _ => True end.
Proof.
  induction l as [|m l IH]; intros f n b view W r b' Hb Hl Hu HrW Hv; cbn [verify_attach up] in *.
  { intros [= <- <-]. subst n. by split_and!; [..|exists W]. }
  destruct Hu as [Hp Hu]. apply Forall_cons in Hl as [HTm Hl].
  assert (Hnext : ∀ b1 v1 W1 k, at_tip b1 t D U → same_db b b1 → replay p c blk m W1 → view_repr v1 U W1 →
    (r ← verify_attach l v1; mret (match r with inl blocks => inl (k :: blocks) | inr e => inr e end)) b1 = Ok (r, b') →
    k = blk m →
    at_tip b' t D U ∧ same_db b b' ∧
    match r with inl blocks => blocks = blk <$> m :: l ∧ ∃ W', replay p c blk n W' | inr _ => True end).
  { intros b1 v1 W1 k Hb1 [S1 S2] Hr1 Hv1. cbv [mbind st_bind mret st_ret].
    destruct (verify_attach l v1 b1) as [[r1 b2]| |] eqn:E; [|done..]. intros [= <- <-] ->.
    destruct (IH _ _ _ _ _ _ _ Hb1 Hl Hu Hr1 Hv1 E) as (Hb2 & [S3 S4] & Hr). split; [done|].
    split; [split; congruence|]. destruct r1; [|done]. destruct Hr as [-> ?]. done. }
  cbv [mbind st_bind st_get st_lift]. rewrite (at_blocks _ _ _ _ Hb m HTm). cbn [mbind result_bind].
  destruct (KnownValid (NodeStatus (index b) m)) eqn:Ek.
  - destruct (known_ok b t D U m f W _ view Hb HTm Hp HrW Hv (at_over _ _ _ _ Hb) (proj1 (at_status _ _ _ _ Hb) m HTm Ek))
      as (v1 & s1 & E1 & Hs1 & Hk).
    unfold on_cache at 1. rewrite E1. cbn [mbind result_bind].
    destruct (view_connectTransactions v1 (blk m) None) as [[v2 x2]| |] eqn:E2; [|done..]. cbn [mbind result_bind].
    destruct (Hk _ _ eq_refl) as (W1 & HrW1 & Hv2).
    intros E. apply (Hnext (set_cache b s1) v2 W1 (blk m)); [by apply at_tip_cache|done|done|done|exact E|done].
  - unfold try_checkConnectBlock at 1. destruct (checkConnectBlock m (blk m) view None (base b)) as [[[v1 x1] bs]|e|] eqn:Ec.
    + destruct (check_ok b t D U m f W view v1 x1 bs Hb HTm Hp HrW Hv Ec) as (Hb1 & W1 & HrW1 & Hv1).
      unfold on_index at 1. intros E.
      apply (Hnext (set_index (set_base b bs) (SetStatusFlags (index b) m statusValid)) v1 W1 (blk m));
        [|done|done|done|exact E|done].
      apply at_tip_index; [done|]. intros k HTk Hk. apply (mark_valid b m HTm); [by exists W1|done|done].
    + destruct (isRuleError e); [|done]. unfold on_index at 1 2. cbn [index set_index].
      intros [= <- <-]. split_and!; [|done|done]. apply (at_tip_index (set_index b _)); [|].
      * apply at_tip_index; [done|]. intros k HTk Hk. left. by apply (mark_other T HTt _ m statusValidateFailed).
      * intros k HTk Hk. left. by apply (mark_others T HTt) in Hk.
    + done.
Qed.

(** *** Moving *)

Definition same_status (b b' : Chain) : Prop := ∀ m, NodeStatus (index b') m = NodeStatus (index b) m.

Lemma reorg_detach_ok now l : ∀ f n b D W view csss,
  at_tip b n D W → down n l f → Forall2 (spent p c blk) l csss → undone view W W →
  ∃ b' D' U, reorg_detach now l (blk <$> l) (journals csss) view b = Ok ((), b') ∧ at_tip b' f D' U ∧ same_status b b'.
Proof.
  induction l as [|m l IH]; intros f n b D W view csss Hb Hd Hj Hv; cbn [reorg_detach fmap list_fmap down] in *.
  { subst f. exists b, D, W. by split_and!. }
  destruct Hd as [-> (q & Hp & Hd)]. inversion Hj as [|? css ? csss' Hsp Hj']; subst. cbn [journals fmap list_fmap].
  destruct (replay_inv _ _ _ _ _ _ Hp (at_coins _ _ _ _ Hb)) as (U & _ & _ & HrU & _).
  destruct (detach_ok now b n q D W U view css Hb Hp HrU Hsp Hv) as (view' & b1 & E & Hb1 & Hv' & Hst).
  destruct (IH f q b1 U U view' csss' Hb1 Hd Hj' Hv') as (b' & D' & U' & E' & Hb' & Hst').
  exists b', D', U'. split_and!; [|done|by intros k; rewrite Hst'].
  cbv [mbind st_bind st_lift] in E |- *. destruct (on_cache _ b) as [[v1 b2]| |]; [|done..].
  destruct (disconnectTransactions v1 (blk n) _); [|done..]. cbn [mbind result_bind] in E |- *. by rewrite E.
Qed.

Lemma reorg_attach_ok now l : ∀ f n b D U W,
  at_tip b f D U → T n → Forall T l → up f l n → replay p c blk n W →
  ∃ b' D', reorg_attach now l (blk <$> l) b = Ok ((), b') ∧ at_tip b' n D' W ∧ same_status b b' ∧ (l ≠ [] → best_stored b' n).
Proof.
  induction l as [|m l IH]; intros f n b D U W Hb Hn Hl Hu HrW; cbn [reorg_attach fmap list_fmap up] in *.
  { subst n. rewrite (replay_det _ _ _ _ _ _ HrW (at_coins _ _ _ _ Hb)). by exists b, D. }
  destruct Hu as [Hp Hu]. apply Forall_cons in Hl as [HTm Hl].
  assert (∃ Wm, replay p c blk m Wm) as [Wm HrWm].
  { apply (replay_branch p c blk n m W HrW). by apply (up_branch T HTt m l). }
  destruct (extend_ok now b f D U m Wm Hb HTm Hp HrWm) as (b1 & D1 & E & Hb1 & Hs1 & Hst1).
  destruct (IH m n b1 D1 Wm W Hb1 Hn Hl Hu HrW) as (b' & D' & E' & Hb' & Hst' & Hs').
  exists b', D'. split_and!; [|done|by intros k; rewrite Hst'|].
  - cbv [mbind st_bind] in E |- *. destruct (connect_to_cache (blk m) b) as [[st b2]| |]; [|done..]. by rewrite E.
  - intros _. destruct l; [|by apply Hs']. cbn in Hu, E'. subst n. by injection E' as <-.
Qed.

Lemma down_last n l f m : down n l f → last l = Some m → parent m = Some f.
Proof.
  revert n. induction l as [|k l IH]; intros n; cbn [down]; [done|]. intros [-> (q & Hp & Hd)].
  destruct l as [|k' l]; [|rewrite last_cons_cons; by apply (IH q)]. intros [= <-]. cbn in Hd. congruence.
Qed.

Lemma undone_best h U : undone (SetBestHash h NewUtxoViewpoint) U U.
Proof. by split. Qed.

Lemma verify_ok b t D U f n ds ats r b' :
  at_tip b t D U → Forall T ats → down t ds f → up f ats n →
  verifyReorganizationValidity ds ats b = Ok (r, b') →
  at_tip b' t D U ∧ same_db b b' ∧
  match r with
  | inl (blocks, ablocks, js) => blocks = blk <$> ds ∧ ablocks = blk <$> ats ∧
      (∃ csss, js = journals csss ∧ Forall2 (spent p c blk) ds csss) ∧ ∃ W, replay p c blk n W
  | inr _ => True
  end.
Proof.
  intros Hb Hats Hd Hu.
  assert (Hbody : (
    t ← deref (tip (bestChain b));
    '(detachBlocks, detachSpentTxOuts, view) ← verify_detach ds (SetBestHash (hash t) NewUtxoViewpoint);
    r ← verify_attach ats view;
    mret (match r with
          | inl attachBlocks => inl (detachBlocks, attachBlocks, detachSpentTxOuts)
          | inr e => inr e
          end)) b = Ok (r, b') →
    at_tip b' t D U ∧ same_db b b' ∧
    match r with
    | inl (blocks, ablocks, js) => blocks = blk <$> ds ∧ ablocks = blk <$> ats ∧
        (∃ csss, js = journals csss ∧ Forall2 (spent p c blk) ds csss) ∧ ∃ W, replay p c blk n W
    | inr _ => True
    end).
  { cbv [mbind st_bind mret st_ret]. rewrite (tip_view _ _ (at_view _ _ _ _ Hb)). cbn [deref].
    destruct (verify_detach_ok b t D U ds t f (ConnectBlock.utxoCache (base b)) (SetBestHash (hash t) NewUtxoViewpoint) U Hb
      (at_over _ _ _ _ Hb) (branch_self t) Hd (at_coins _ _ _ _ Hb) (undone_best _ U)) as (csss & v & s & W & E & Hs & Hj & Hv & HrW).
    replace (set_cache b (ConnectBlock.utxoCache (base b))) with b in E by by destruct b as [[] ? ? ? ? ?]. rewrite E.
    destruct (verify_attach ats v (set_cache b s)) as [[r1 b1]| |] eqn:Ea; [|done..]. intros [= <- <-].
    destruct (verify_attach_ok t D U ats f n _ v W r1 b1 (at_tip_cache b t D U s Hb Hs) Hats Hu HrW (undone_repr _ _ _ Hv) Ea)
      as (Hb1 & Hsame & Hr1).
    split; [done|]. split; [exact Hsame|]. destruct r1; [|done]. destruct Hr1 as [-> HW]. split_and!; [done|done| |done].
    by exists csss. }
  unfold verifyReorganizationValidity. destruct ds as [|d ds]; [destruct ats as [|a ats]|].
  - intros [= <- <-]. cbn in Hd, Hu. subst. split_and!; [done|done|done|done|by exists []|]. exists U. apply Hb.
  - exact Hbody.
  - cbv [mbind st_bind st_get]. rewrite (tip_view _ _ (at_view _ _ _ _ Hb)). cbn [deref].
    assert (d = t) as -> by apply Hd. rewrite bool_decide_eq_true_2 by done. cbn [negb].
    cbv [mbind st_bind] in Hbody. rewrite (tip_view _ _ (at_view _ _ _ _ Hb)) in Hbody. cbn [deref] in Hbody.
    destruct ats as [|a ats]; [exact Hbody|].
    destruct (last (t :: ds)) as [m|] eqn:El; [|by apply last_None in El].
    rewrite (down_last t (t :: ds) f m Hd El). destruct Hu as [Hp Hu]. rewrite Hp. cbn [deref].
    rewrite bool_decide_eq_true_2 by done. exact Hbody.
Qed.

Lemma reorganizeChain_ok now b t D U f n ds ats r b' :
  at_tip b t D U → T n → Forall T ats → down t ds f → up f ats n →
  reorganizeChain now ds ats b = Ok (r, b') →
  match r with
  | None => ∃ D' W, at_tip b' n D' W ∧ (ats ≠ [] → best_stored b' n)
  | Some _ => at_tip b' t D U ∧ same_db b b'
  end.
Proof.
  intros Hb Hn Hats Hd Hu. unfold reorganizeChain. cbv [mbind st_bind mret st_ret st_get].
  destruct (verifyReorganizationValidity ds ats b) as [[r1 b1]| |] eqn:E; [|done..].
  destruct (verify_ok b t D U f n ds ats r1 b1 Hb Hats Hd Hu E) as (Hb1 & Hsame & Hr).
  destruct r1 as [[[blocks ablocks] js]|e]; [|by intros [= <- <-]].
  destruct Hr as (-> & -> & (csss & -> & Hj) & W & HrW). rewrite (tip_view _ _ (at_view _ _ _ _ Hb1)). cbn [deref].
  destruct (reorg_detach_ok now ds f t b1 D U (SetBestHash (hash t) NewUtxoViewpoint) csss Hb1 Hd Hj (undone_best _ U))
    as (b2 & D2 & U2 & -> & Hb2 & _).
  destruct (reorg_attach_ok now ats f n b2 D2 U2 W Hb2 Hn Hats Hu HrW) as (b3 & D3 & -> & Hb3 & _ & Hs3).
  intros [= <- <-]. by exists D3, W.
Qed.

(** *** The best chain *)

Lemma flush_at_tip b t D U : at_tip b t D U → best_stored b t →
  ∃ b', flush_index b = Ok ((), b') ∧ at_tip b' t D U ∧ best_stored b' t ∧ same_status b b'.
Proof.
  intros [Ht Hv Hr Ha Hca Hbl Hj Hix Hst Hpa Hpr Hsh] Hbest.
  destruct (flush_index_ok b) as (b' & E & E1 & E2 & E3 & E4 & E5 & E6 & E7 & E8 & E9 & E10).
  exists b'. split; [done|]. split; [|split; [|done]].
  - split; rewrite ?E1, ?E2, ?E3, ?E4, ?E7; try done.
    + intros m HTm. rewrite <-(Hbl m HTm). unfold dbFetchBlockByNode. by rewrite E6.
    + intros m css. rewrite E9. apply Hj.
    + destruct Hst as [Hm1 Hm2]. split; [intros m HTm; rewrite E5; by apply Hm1|]. rewrite E10. by apply flush_rows.
  - unfold best_stored. by rewrite E8, E3.
Qed.

(** Marking the block and storing the marks. *)
Lemma mark_flush b t D U n f :
  at_tip b t D U → best_stored b t → T n → KnownValid f = false ∨ (∃ W, replay p c blk n W) →
  ∃ b', (on_index (λ bi, SetStatusFlags bi n f);; flush_index) b = Ok ((), b') ∧ at_tip b' t D U ∧ best_stored b' t.
Proof.
  intros Hb Hs Hn Hf. cbv [mbind st_bind]. unfold on_index at 1.
  destruct (flush_at_tip (set_index b (SetStatusFlags (index b) n f)) t D U) as (b' & E & ? & ? & _); [|done|by exists b'].
  apply at_tip_index; [done|]. intros m HTm Hk. destruct Hf as [Hf|HW]; [left; by apply (mark_other T HTt _ n f)|].
  rewrite set_status_node in Hk. case_bool_decide as E; [|by left].
  apply (tree_hash T HTt) in E as ->; [|done..]. by right.
Qed.

(** The block is connected: what follows the checks when it extends the tip. *)
Lemma finish_extend now b t D U n W fastAdd :
  at_tip b t D U → T n → parent n = Some t → replay p c blk n W →
  ∃ b' D', (stxos ← connect_to_cache (blk n);
    connectBlock now n (blk n) stxos;;
    b ← st_get;
    (if fastAdd || negb (KnownValid (NodeStatus (index b) n))
     then on_index (λ bi, SetStatusFlags bi n statusValid);; flush_index
     else mret ());;
    mret (true, @None RuleErr)) b = Ok ((true, None), b') ∧ at_tip b' n D' W ∧ best_stored b' n.
Proof.
  intros Hb Hn Hp HrW. destruct (extend_ok now b t D U n W Hb Hn Hp HrW) as (b1 & D1 & E & Hb1 & Hs1 & _).
  cbv [mbind st_bind st_get mret st_ret] in E |- *. destruct (connect_to_cache (blk n) b) as [[st b2]| |]; [|done..].
  rewrite E. destruct (fastAdd || _).
  - destruct (mark_flush b1 n D1 W n statusValid Hb1 Hs1 Hn) as (b' & E' & ? & ?); [right; by exists W|].
    cbv [mbind st_bind] in E'. rewrite E'. by exists b', D1.
  - by exists b1, D1.
Qed.

(** What the result of [connectBestChain] says of the tip: for [(true, None)]
    the block is the tip, or it has an invalid ancestor. *)
Definition outcome (b' : Chain) (t n q t' : blockNode) (r : bool * option RuleErr) : Prop :=
  match r with
  | (true, None) => t' = n ∧ (q = t ∨ workSum t < workSum n) ∨ t' = t ∧ KnownInvalid (NodeStatus (index b') n) = true
  | (false, _) => t' = t
  | (true, Some _) => False
  end.

Lemma extension now b t D U n flags r b' :
  at_tip b t D U → best_stored b t → T n → parent n = Some t → Z.land flags BFFastAdd = 0 →
  connectBestChain now n (blk n) flags b = Ok (r, b') →
  ∃ t' D' U', at_tip b' t' D' U' ∧ best_stored b' t' ∧ outcome b' t n t t' r.
Proof.
  intros Hb Hs Hn Hp Hfl. pose proof (at_view _ _ _ _ Hb) as Hv. unfold connectBestChain.
  cbv [mbind st_bind st_get]. rewrite (tip_view _ _ Hv). cbn [deref].
  rewrite (bt_prev blk T HT n t Hn Hp), bool_decide_eq_true_2, Hfl by done. cbn [negb Z.eqb orb].
  destruct (KnownValid (NodeStatus (index b) n)) eqn:Ek.
  - destruct (proj1 (at_status _ _ _ _ Hb) n Hn Ek) as [W HrW]. cbn [mret st_ret].
    destruct (finish_extend now b t D U n W true Hb Hn Hp HrW) as (b1 & D1 & E & Hb1 & Hs1).
    intros Hk. assert (Ok ((true, None), b1) = Ok (r, b')) as [= <- <-] by (rewrite <-E; exact Hk). exists n, D1, W. split_and!; [done|done|].
    left. by split; [|left].
  - unfold try_checkConnectBlock at 1.
    destruct (checkConnectBlock n (blk n) (SetBestHash (hash t) NewUtxoViewpoint) None (base b)) as [[[v1 x1] bs]|e|] eqn:Ec; [| |done].
    + destruct (check_ok b t D U n t U _ v1 x1 bs Hb Hn Hp (at_coins _ _ _ _ Hb) (undone_repr _ _ _ (undone_best _ U)) Ec)
        as (Hb1 & W & HrW & _).
      destruct (mark_flush (set_base b bs) t D U n statusValid Hb1 Hs Hn) as (b2 & E2 & Hb2 & Hs2); [right; by exists W|].
      cbv [mbind st_bind] in E2. destruct (on_index _ (set_base b bs)) as [[[] b3]| |]; [|done..]. rewrite E2.
      cbn [mret st_ret]. destruct (finish_extend now b2 t D U n W false Hb2 Hn Hp HrW) as (b4 & D4 & E4 & Hb4 & Hs4).
      intros Hk. assert (Ok ((true, None), b4) = Ok (r, b')) as [= <- <-] by (rewrite <-E4; exact Hk). exists n, D4, W. split_and!; [done|done|].
      left. by split; [|left].
    + destruct (isRuleError e); [|done].
      destruct (mark_flush b t D U n statusValidateFailed Hb Hs Hn) as (b2 & E2 & Hb2 & Hs2); [by left|].
      cbv [mbind st_bind] in E2. destruct (on_index _ b) as [[[] b3]| |]; [|done..]. rewrite E2.
      cbn [mret st_ret]. intros [= <- <-]. by exists t, D, U.
Qed.

Lemma branch_work n a : node_wf n → a ∈ branch n → workSum a <= workSum n.
Proof.
  intros Hn Ha. revert n Hn Ha. apply (branch_climb a (λ n, workSum a <= workSum n)); [lia|].
  intros n q Hw Hp _ IH. destruct (node_wf_inv n Hw) as [(E & _)|(q' & E & _ & _ & _ & Ew)]; [congruence|].
  assert (q' = q) as -> by congruence. pose proof (CalcWork_nonneg (bits n)). lia.
Qed.

Lemma side now b t D U n q flags r b' :
  at_tip b t D U → best_stored b t → T n → parent n = Some q → q ≠ t →
  connectBestChain now n (blk n) flags b = Ok (r, b') →
  ∃ t' D' U', at_tip b' t' D' U' ∧ best_stored b' t' ∧ outcome b' t n q t' r.
Proof.
  intros Hb Hs Hn Hp Hqt. pose proof Hb as [Ht Hv _ _ _ _ _ _ _ _ _ _]. destruct (bt_parent blk T HT n q Hn Hp) as [Hq _].
  assert (Hne : b_PrevBlock (blk n) ≠ hash t).
  { rewrite (bt_prev blk T HT n q Hn Hp). intros E. by apply Hqt, (tree_hash T HTt). }
  unfold connectBestChain. cbv [mbind st_bind st_get]. rewrite (tip_view _ _ Hv). cbn [deref].
  rewrite bool_decide_eq_false_2 by done. destruct (ShouldChangeTip _ _ _ _) eqn:Ew; cbn [negb].
  2: { destruct (deref _ b) as [[x b1]| |] eqn:E; [|done..]. unfold deref in E.
       destruct (findFork _ _); [|done]. injection E as _ <-. intros [= <- <-]. by exists t, D, U. }
  pose proof (proj1 (proj1 (ShouldChangeTip_spec _ _ _ _) Ew)) as Hlt.
  destruct (reorganize_nodes_ok T b t n q HTt Hv Ht Hn (bt_height blk T HT t Ht) Hp) as (f & (Hfn & Hft & _) & Et & En & Hg).
  destruct (KnownInvalid _ || _).
  - destruct Hg as (bi & Hg & Hi & _ & Hk). rewrite Hg, (reorganizeChain_nothing now (set_index b bi) t) by by apply tip_view.
    destruct (flush_at_tip (set_index b bi) t D U) as (b1 & E1 & Hb1 & Hs1 & Hst); [|done|].
    { apply at_tip_index; [done|]. intros m HTm Hkv. left. by apply Hk. }
    rewrite E1. intros [= <- <-]. exists t, D, U. split_and!; [done|done|]. right. split; [done|]. by rewrite Hst.
  - rewrite Hg. destruct (reorganizeChain now (reverse (above f t)) (above f n) b) as [[r1 b1]| |] eqn:Er; [|done..].
    assert (Hall : Forall T (above f n)) by (apply Forall_drop; by apply branch_tree).
    pose proof (reorganizeChain_ok now b t D U f n _ _ r1 b1 Hb Hn Hall (down_above T HTt f t Ht Hft) (up_above T HTt f n Hn Hfn) Er) as Hr.
    destruct r1 as [e|].
    + destruct Hr as [Hb1 [S1 S2]]. destruct (flush_at_tip b1 t D U Hb1) as (b2 & E2 & Hb2 & Hs2 & _).
      { unfold best_stored. by rewrite S1, S2. }
      rewrite E2. intros [= <- <-]. by exists t, D, U.
    + destruct Hr as (D1 & W & Hb1 & Hs1). destruct (flush_at_tip b1 n D1 W Hb1) as (b2 & E2 & Hb2 & Hs2 & _).
      { apply Hs1. intros Ex. rewrite Ex, app_nil_r in En. pose proof (branch_self n) as Hin. rewrite En in Hin.
        pose proof (branch_work t n (bt_wf blk T HT t Ht) (branch_trans n f t (bt_wf blk T HT t Ht) Hin Hft)). lia. }
      rewrite E2. intros [= <- <-]. exists n, D1, W. split_and!; [done|done|]. left. by split; [|right].
Qed.
End invariant.

(** ** The best chain keeps the ledger *)

Section claims.
Context `{HashFns} `{Keys} `{!MapRange bytes sigCacheEntry} `{!MapRange bytes TxSigHashes}.
Context `{Log2Conv} `{PubKeyFormats} `{!MapOrder OutPoint (option UtxoEntry)} `{!BlockPruner}.

Lemma best_chain_ok p c blk V T now b t D U n q flags r b' :
  block_tree blk V → subtree T V → maturity_ok p → schedule (Some p) c → at_tip p c blk V T b t D U → best_stored b t →
  T n → parent n = Some q → Z.land flags BFFastAdd = 0 →
  connectBestChain now n (blk n) flags b = Ok (r, b') →
  ∃ t' D' U', at_tip p c blk V T b' t' D' U' ∧ best_stored b' t' ∧ outcome b' t n q t' r.
Proof.
  intros HV HTV Hm Hc Hb Hs Hn Hp Hfl. destruct (decide (hash q = hash t)) as [E|Hne].
  - assert (q = t) as ->.
    { apply (tree_hash V (bt_tree blk V HV)); [apply (sub_in T V HTV), (sub_parent T V HTV n); done|apply (sub_in T V HTV), Hb|done]. }
    by apply (extension p c blk V T HV HTV Hm Hc now b t D U).
  - apply (side p c blk V T HV HTV Hm Hc now b t D U n q); [done..|congruence].
Qed.

(** C4 [connectBestChain] keeps the chain on the ledger of its best branch.  [V]
    are the nodes there may be, [T] those that are known, closed under parents.
    From a state at a tip, whether the block extends the tip, stays on the side or
    makes the chain reorganize, the state it leaves is at a tip again: the view,
    the snapshot, the stored best state and the indexes are those of the tip's
    branch, the cache stands for exactly the coins its blocks leave, the journals
    of the branch can be read, only blocks that replay are marked valid.  With an
    error the tip stays; without, and with the block reported on the main chain,
    the tip is the block, which has more work or extends the old tip, or the
    block has an invalid ancestor (see [connectBestChain_invalid_ancestor]).  And
    the coins are never worth more than the emission up to the tip's height. *)
Theorem connectBestChain_keeps_ledger p c blk V T now b t D U n q flags r b' :
  block_tree blk V → subtree T V → maturity_ok p → schedule (Some p) c → at_tip p c blk V T b t D U → best_stored b t →
  T n → parent n = Some q → Z.land flags BFFastAdd = 0 →
  connectBestChain now n (blk n) flags b = Ok (r, b') →
  ∃ t' D' U', at_tip p c blk V T b' t' D' U' ∧ best_stored b' t' ∧ outcome b' t n q t' r ∧
    total U' <= emitted c (Z.to_nat (height t')).
Proof.
  intros HV HTV Hm Hc Hb Hs Hn Hp Hfl E.
  destruct (best_chain_ok p c blk V T now b t D U n q flags r b' HV HTV Hm Hc Hb Hs Hn Hp Hfl E) as (t' & D' & U' & Hb' & Hs' & Ho).
  exists t', D', U'. split_and!; [done..|]. apply (replay_supply p c blk); [|apply Hb'].
  apply (bt_wf blk V HV), (sub_in T V HTV). apply Hb'.
Qed.
End claims.

(** ** Examples *)

(** A first block, a block on it, and a side chain of two. *)
Definition ex_node (i : Z) (p : blockNode) : blockNode :=
  newBlockNode {| h_hash := le_put 32 i; h_version := 1; h_merkleRoot := le_put 32 0; h_timestamp := 1700000000 + i;
    h_bits := 0x1b00ffff; h_proofCommitment := le_put 32 0 |} (Some p) statusNone 0.

Definition ex_g : blockNode := demo_chain 0.
Definition ex_a1 : blockNode := ex_node 1 ex_g.
Definition ex_b1 : blockNode := ex_node 2 ex_g.
Definition ex_b2 : blockNode := ex_node 3 ex_b1.

Definition ex_T (n : blockNode) : Prop := ((ex_g = n ∨ n = ex_a1) ∨ n = ex_b1) ∨ n = ex_b2.

Definition ex_coinbase (i : Z) : MsgTx :=
  mkMsgTx 1 [mkTxIn (mkOutPoint zeroHash MaxUint32) [z2b (80 + (i + 1) / 2); z2b i] [] MaxUint32]
    [mkTxOut 5000 (z2b OP_1 :: x20 :: replicate 32 x07)] 0.

Definition ex_blk (n : blockNode) : Block :=
  mkBlock (hash n) (match parent n with Some q => hash q | None => zeroHash end) (height n) [ex_coinbase (le_get (hash n))].

Definition ex_state : Chain :=
  mkChain (demo_chain_at (newUtxoCache (mkCacheDB ∅ (Some (hash ex_g))) 100000)) newBlockIndex (mkChainView [Some ex_g])
    (mkBestState (hash ex_g) 0 (bits ex_g) 1 1 0 0)
    (mkChainDB (list_to_map ((λ n, (hash n, ex_blk n)) <$> [ex_g; ex_a1; ex_b1; ex_b2]))
       (mkIndexBuckets {[ hash ex_g := le_put 4 0 ]} {[ le_put 4 0 := hash ex_g ]})
       (serializeBestChainState (mkBestChainState (hash ex_g) 0 1 (workSum ex_g)))
       (list_to_map ((λ n, (hash n, [z2b statusDataStored])) <$> [ex_g; ex_a1; ex_b1; ex_b2])) ∅) 0.

(** The state after a block, and what is reported. *)
Definition ex_step (n : blockNode) (b : Chain) : option (bool * option RuleErr) * Chain :=
  match connectBestChain 9 n (ex_blk n) BFNone b with Ok (r, b') => (Some r, b') | _ => (None, b) end.

Definition ex_b_a1 := ex_step ex_a1 ex_state.
Definition ex_b_b1 := ex_step ex_b1 ex_b_a1.2.
Definition ex_b_b2 := ex_step ex_b2 ex_b_b1.2.

(** Extended, on the side, reorganized. *)
Lemma ex_run :
  (ex_b_a1.1 = Some (true, None) ∧ ex_b_b1.1 = Some (false, None) ∧ ex_b_b2.1 = Some (true, None)) ∧
  (hash <$> tip (bestChain ex_b_a1.2) = Some (hash ex_a1) ∧ hash <$> tip (bestChain ex_b_b1.2) = Some (hash ex_a1) ∧
   hash <$> tip (bestChain ex_b_b2.2) = Some (hash ex_b2)).
Proof. split_and!; by vm_compute. Qed.

Lemma ex_coinbase_ok i : i = 1 ∨ i = 2 ∨ i = 3 →
  sane_tx (ex_coinbase i) ∧ wf_MsgTx (ex_coinbase i) ∧ IsCoinBase (ex_coinbase i) = true.
Proof.
  intros Hi. split_and!.
  - destruct Hi as [-> | [-> | ->]]; (sane_tac; cbn; by intros j [= <-]).
  - unfold wf_MsgTx, wf_TxIn, wf_TxOut, wf_TxWitness, wf_OutPoint, wf_script, ex_coinbase.
    cbn [tx_Version tx_TxIn tx_TxOut tx_LockTime]. split_and!; repeat constructor; vm_compute; congruence.
  - done.
Qed.

Lemma ex_is_tree : is_tree ex_T.
Proof.
  unfold ex_T.
  assert (H1 : is_tree (λ n, ex_g = n ∨ n = ex_a1)).
  { apply (tree_extend (eq ex_g) _ ex_g statusNone 0); [apply tree_single|done|done|]. intros a <-. by vm_compute. }
  assert (H2 : is_tree (λ n, (ex_g = n ∨ n = ex_a1) ∨ n = ex_b1)).
  { apply (tree_extend _ _ ex_g statusNone 0); [exact H1|by left|done|]. intros a [<-| ->]; by vm_compute. }
  apply (tree_extend _ _ ex_b1 statusNone 0); [exact H2|by right|done|]. intros a [[<-| ->]| ->]; by vm_compute.
Qed.

(** The parents and numbers of the nodes. *)
Lemma ex_parents n q : ex_T n → parent n = Some q →
  q = ex_g ∧ (n = ex_a1 ∨ n = ex_b1) ∨ q = ex_b1 ∧ n = ex_b2.
Proof. intros [[[<-| ->]| ->]| ->] Hp; [done|left|left|right]; injection Hp as <-; auto. Qed.

Lemma ex_number n q : ex_T n → parent n = Some q → le_get (hash n) = 1 ∨ le_get (hash n) = 2 ∨ le_get (hash n) = 3.
Proof. intros Hn Hp. destruct (ex_parents n q Hn Hp) as [[_ [-> | ->]]|[_ ->]]; vm_compute; auto. Qed.

Lemma ex_branch_g a : a ∈ branch ex_g → a = ex_g.
Proof. by intros [->|(q & Hq & _)]%elem_of_branch. Qed.

Lemma ex_txids i j : i = 1 ∨ i = 2 ∨ i = 3 → j = 1 ∨ j = 2 ∨ j = 3 → TxHash (ex_coinbase i) = TxHash (ex_coinbase j) → i = j.
Proof.
  intros Hi Hj E. destruct (decide (i = j)) as [|Hne]; [done|]. exfalso. revert E.
  destruct Hi as [-> | [-> | ->]], Hj as [-> | [-> | ->]]; (try (exfalso; by apply Hne)); clear Hne;
    apply (bool_decide_unpack _); vm_compute; exact I.
Qed.

Lemma ex_block_tree : block_tree ex_blk ex_T.
Proof.
  split.
  - apply ex_is_tree.
  - by intros n [[[<-| ->]| ->]| ->].
  - done.
  - intros n q _ Hp. cbn. by rewrite Hp.
  - intros n q Hn Hp. destruct (ex_coinbase_ok _ (ex_number n q Hn Hp)) as (Hs & Hw & Hc). unfold txs_of, ex_blk.
    cbn [b_Transactions]. split_and!; [split|split|split].
    + by exists (ex_coinbase (le_get (hash n))), [].
    + by constructor.
    + by constructor.
    + apply NoDup_singleton.
    + by intros ?.
    + done.
    + by destruct Hn as [[[<-| ->]| ->]| ->].
    + repeat constructor; by vm_compute.
  - intros n q Hn Hp. exists (ex_coinbase (le_get (hash n))), [].
    destruct (ex_parents n q Hn Hp) as [[_ Hc]|[_ ->]]; [destruct Hc as [-> | ->]|].
    + by exists (mkTxIn (mkOutPoint zeroHash MaxUint32) [x51; x01] [] MaxUint32), [x51]; split_and!; [..|exists [x01]].
    + by exists (mkTxIn (mkOutPoint zeroHash MaxUint32) [x51; x02] [] MaxUint32), [x51]; split_and!; [..|exists [x02]].
    + by exists (mkTxIn (mkOutPoint zeroHash MaxUint32) [x52; x03] [] MaxUint32), [x52]; split_and!; [..|exists [x03]].
  - intros n a t t' Hn Ha Hpn Hpa Ht Ht'. unfold txs_of, ex_blk in Ht, Ht'. cbn [b_Transactions] in Ht, Ht'.
    apply list_elem_of_singleton in Ht as ->, Ht' as ->.
    destruct (parent n) as [q|] eqn:Hp; [|destruct (Hpn eq_refl)]. destruct (parent a) as [r|] eqn:Hr; [|destruct (Hpa eq_refl)].
    intros E. apply (ex_txids _ _ (ex_number n q Hn Hp) (ex_number a r Ha Hr)) in E. rewrite E. reflexivity.
Qed.

Lemma ex_subtree : subtree ex_T ex_T.
Proof. split; [done|]. apply ex_is_tree. Qed.

Lemma ex_start : at_tip MainNetParams 650226 ex_blk ex_T ex_T ex_state ex_g ∅ ∅ ∧ best_stored ex_state ex_g.
Proof.
  split; [|done]. split.
  - by left; left; left.
  - done.
  - by apply replay_first.
  - exists ex_g. split; [apply branch_self|]. split; [by apply replay_first|done].
  - apply newUtxoCache_repr; [|by intros ? ?]. intros op _. by rewrite !lookup_empty.
  - by intros n [[[<-| ->]| ->]| ->]; vm_compute.
  - intros n css Hn (q & _ & _ & _ & Hp & _). apply ex_branch_g in Hn as ->. done.
  - split_and!.
    + intros n ->%ex_branch_g. apply lookup_singleton_eq.
    + intros n Hn Hni. cbn [db_index cdb ex_state hashIndex]. apply lookup_singleton_ne. intros E.
      apply (tree_hash ex_T ex_is_tree) in E as <-; [by destruct Hni; apply branch_self|by left; left; left|done].
    + intros h Hh. cbn [db_index cdb ex_state heightIndex]. destruct (Z.eq_dec h 0) as [->|Hne]; [apply lookup_singleton_eq|].
      rewrite lookup_singleton_ne by (intros E; by apply Hne; apply (u32_put_inj 0 h) in E; unfold is_i32; lia).
      by rewrite lookup_ge_None_2 by (cbn; lia).
  - split; [intros n Hn Hk; exfalso; by destruct Hn as [[[<-| ->]| ->]| ->]|].
    intros n Hn. exists statusDataStored. split; [|done]. by destruct Hn as [[[<-| ->]| ->]| ->]; vm_compute.
  - done.
  - done.
  - done.
Qed.

Lemma ex_step_ok n b r b' : ex_step n b = (Some r, b') → connectBestChain 9 n (ex_blk n) BFNone b = Ok (r, b').
Proof. unfold ex_step. destruct (connectBestChain _ _ _ _ _) as [[r1 b1]| |]; [by intros [= <- <-]|done..]. Qed.

Lemma fst_eq {A B} (x : A * B) a : x.1 = a → x = (a, x.2).
Proof. destruct x. by intros <-. Qed.

Lemma ex_steps : ex_b_a1 = (Some (true, None), ex_b_a1.2) ∧ ex_b_b1 = (Some (false, None), ex_b_b1.2) ∧ ex_b_b2 = (Some (true, None), ex_b_b2.2).
Proof. destruct ex_run as [(E1 & E2 & E3) _]. split; [|split]; by apply fst_eq. Qed.

Lemma ex_calls :
  connectBestChain 9 ex_a1 (ex_blk ex_a1) BFNone ex_state = Ok ((true, None), ex_b_a1.2) ∧
  connectBestChain 9 ex_b1 (ex_blk ex_b1) BFNone ex_b_a1.2 = Ok ((false, None), ex_b_b1.2) ∧
  connectBestChain 9 ex_b2 (ex_blk ex_b2) BFNone ex_b_b1.2 = Ok ((true, None), ex_b_b2.2).
Proof.
  destruct ex_steps as (E1 & E2 & E3). split; [|split].
  - exact (ex_step_ok ex_a1 ex_state (true, None) ex_b_a1.2 E1).
  - exact (ex_step_ok ex_b1 ex_b_a1.2 (false, None) ex_b_b1.2 E2).
  - exact (ex_step_ok ex_b2 ex_b_b1.2 (true, None) ex_b_b2.2 E3).
Qed.

(** The parents, and the constants of the chain. *)
Lemma ex_facts :
  parent ex_a1 = Some ex_g ∧ parent ex_b1 = Some ex_g ∧ parent ex_b2 = Some ex_b1 ∧ Z.land BFNone BFFastAdd = 0 ∧
  maturity_ok MainNetParams.
Proof. split_and!; done. Qed.

(** The tip of a state, by its hash. *)
Lemma ex_tip b t D U n : at_tip MainNetParams 650226 ex_blk ex_T ex_T b t D U → ex_T n →
  hash <$> tip (bestChain b) = Some (hash n) → t = n.
Proof.
  intros Hb Hn. rewrite (tip_view _ _ (at_view _ _ _ _ _ _ _ _ _ Hb)). intros [= E].
  by apply (tree_hash ex_T ex_is_tree) in E; [|apply Hb|].
Qed.

Lemma ex_T_nodes : ex_T ex_a1 ∧ ex_T ex_b1 ∧ ex_T ex_b2.
Proof. unfold ex_T. auto. Qed.

Lemma ex_before :
  ∃ D U, at_tip MainNetParams 650226 ex_blk ex_T ex_T ex_b_b1.2 ex_a1 D U ∧ best_stored ex_b_b1.2 ex_a1.
Proof.
  destruct ex_start as [H0 S0], ex_calls as (E1 & E2 & _), ex_run as (_ & R1 & R2 & _), ex_T_nodes as (T1 & T2 & _),
    ex_facts as (P1 & P2 & _ & Hf & Hm).
  destruct (best_chain_ok MainNetParams 650226 ex_blk ex_T ex_T 9 ex_state ex_g ∅ ∅ ex_a1 ex_g BFNone (true, None) ex_b_a1.2
    ex_block_tree ex_subtree Hm main_schedule H0 S0 T1 P1 Hf E1) as (t1 & D1 & U1 & H1 & S1 & _).
  pose proof (ex_tip _ _ _ _ _ H1 T1 R1) as ->.
  destruct (best_chain_ok MainNetParams 650226 ex_blk ex_T ex_T 9 ex_b_a1.2 ex_a1 D1 U1 ex_b1 ex_g BFNone (false, None) ex_b_b1.2
    ex_block_tree ex_subtree Hm main_schedule H1 S1 T2 P2 Hf E2) as (t2 & D2 & U2 & H2 & S2 & _).
  pose proof (ex_tip _ _ _ _ _ H2 T1 R2) as ->. exists D2, U2. exact (conj H2 S2).
Qed.

(** The reorganization from the one block to the two on the side. *)
Lemma connectBestChain_keeps_ledger_witness :
  ∃ t' D' U', at_tip MainNetParams 650226 ex_blk ex_T ex_T ex_b_b2.2 t' D' U' ∧ best_stored ex_b_b2.2 t' ∧
    outcome ex_b_b2.2 ex_a1 ex_b2 ex_b1 t' (true, None) ∧ total U' <= emitted 650226 (Z.to_nat (height t')).
Proof.
  destruct ex_before as (D & U & Hb & Hs), ex_facts as (_ & _ & P & Hf & Hm), ex_calls as (_ & _ & E), ex_T_nodes as (_ & _ & HT).
  exact (connectBestChain_keeps_ledger MainNetParams 650226 ex_blk ex_T ex_T 9 ex_b_b1.2 ex_a1 D U ex_b2 ex_b1 BFNone (true, None) ex_b_b2.2
    ex_block_tree ex_subtree Hm main_schedule Hb Hs HT P Hf E).
Defined.
