(* ===== verification/BlockRules.v ===== *)
(** * Rules on headers and blocks (blockchain/validate.go, vsize.go; zkpow/verify.go)

    The checks of a block by itself, of its certificate, and of a header and a
    block in their place in the chain.  A timestamp is in seconds, as headers
    on the wire have it, so the test that it has no finer part always holds.
    The proof system is a library: [PowFFI] has its entry points with the
    result codes they return, 0 for success. *)
From stdpp Require Import strings list.
From Stdlib Require Import Lia ZArith.
From S2P Require Import Prelude Wire MsgTx ScriptError Crypto SigHash MsgBlock Work ChainParams BlockIndex Difficulty RuleError TxRules Merkle UtxoView Ledger ConnectBlock ConnectSpec ChainState.

(** ** Certificates and their proofs *)

(** The header without its proof commitment, hashes in display order. *)
Record IncompleteBlockHeader := mkIncompleteHeader {
  ih_version : Z;
  ih_prev_block : bytes;
  ih_merkle_root : bytes;
  ih_timestamp : Z;
  ih_nbits : Z
}.

Class PowFFI := {
  verify_zk_proof_v1 : IncompleteBlockHeader → bytes → bytes → Z;
  verify_zk_proof_v2 : IncompleteBlockHeader → bytes → bytes → Z;
  verify_zk_proof_v2_with_nbits : IncompleteBlockHeader → bytes → bytes → Z → Z;
  verify_zk_proof_v3 : IncompleteBlockHeader → bytes → bytes → Z;
  verify_zk_proof_v3_with_nbits : IncompleteBlockHeader → bytes → bytes → Z → Z;
  check_rank_penalty : Z → bytes → Z
}.

Definition blockHeaderToC (header : BlockHeader) : IncompleteBlockHeader :=
  mkIncompleteHeader (u32 (bh_Version header)) (reverse (bh_PrevBlock header)) (reverse (bh_MerkleRoot header))
    (u32 (bh_Timestamp header)) (bh_Bits header).

Section rules.
Context `{HashFns} `{PowFFI}.

(** The verifiers return an error or none, here [false] or [true]. *)
Definition verifyCertificateV1 (header : BlockHeader) (c : CertificateV1) : bool :=
  if negb (bool_decide (v1_Hash c = BlockHash header)) then false
  else if negb (bool_decide (bh_ProofCommitment header = MsgBlock.proofCommitment CertificateVersionV1 (v1_PublicData c))) then false
  else if zlen (v1_ProofData c) =? 0 then false
  else verify_zk_proof_v1 (blockHeaderToC header) (v1_PublicData c) (v1_ProofData c) =? 0.

Definition VerifyZKProofFFI (header : BlockHeader) (cert : BlockCertificate) (nbitsOverride : option Z) : result RuleErr bool :=
  if negb (bool_decide (cert_BlockHash cert = BlockHash header)) then Ok false
  else
    commitment ← ProofCommitment cert;
    if negb (bool_decide (bh_ProofCommitment header = commitment)) then Ok false
    else
      publicData ← PublicDataBytes cert;
      if zlen publicData =? 0 then Ok false
      else
        let proofData := cert_ProofBytes cert in
        if zlen proofData =? 0 then Ok false
        else
          let h := blockHeaderToC header in
          if cert_Version cert =? CertificateVersionV2 then
            Ok ((match nbitsOverride with
                 | Some nbits => verify_zk_proof_v2_with_nbits h publicData proofData nbits
                 | None => verify_zk_proof_v2 h publicData proofData end) =? 0)
          else if cert_Version cert =? CertificateVersionV3 then
            Ok ((match nbitsOverride with
                 | Some nbits => verify_zk_proof_v3_with_nbits h publicData proofData nbits
                 | None => verify_zk_proof_v3 h publicData proofData end) =? 0)
          else Ok false.

Definition verifyCertificateV2 (header : BlockHeader) (c : CertificateV2) : result RuleErr bool :=
  VerifyZKProofFFI header (CertV2 c) None.
Definition verifyCertificateV3 (header : BlockHeader) (c : CertificateV2) : result RuleErr bool :=
  VerifyZKProofFFI header (CertV3 c) None.

Definition VerifyCertificate (header : BlockHeader) (cert : BlockCertificate) : result RuleErr bool :=
  match cert with
  | CertV3 c => verifyCertificateV3 header c
  | CertV2 c => verifyCertificateV2 header c
  | CertV1 c => Ok (verifyCertificateV1 header c)
  end.

Definition CheckRankPenalty (bits : Z) (publicData : bytes) : bool :=
  if zlen publicData =? 0 then false else check_rank_penalty bits publicData =? 0.

(** ** Checks without context *)

Definition NetBehaviorFlags (params : Params) : Z := if Net params =? SimNet then BFNoPoWCheck else BFNone.

Definition has_flag (flags flag : Z) : bool := Z.land flags flag =? flag.

Definition checkProofOfWork (header : BlockHeader) (cert : option BlockCertificate) (powLimit flags : Z) : result RuleErr unit :=
  let target := CompactToBig (bh_Bits header) in
  if Z.sgn target <=? 0 then Fail (ruleError ErrUnexpectedDifficulty)
  else if powLimit <? target then Fail (ruleError ErrUnexpectedDifficulty)
  else
    match cert with
    | None => Fail (ruleError ErrCertificateMissing)
    | Some cert =>
        if negb (has_flag flags BFNoPoWCheck) then
          ok ← VerifyCertificate header cert;
          if (ok : bool) then Ok () else Fail (ruleError ErrHighHash)
        else Ok ()
    end.

Definition CheckProofOfWork (block : MsgBlock) (powLimit : Z) : result RuleErr unit :=
  checkProofOfWork (mh_BlockHeader (mb_MsgHeader block)) (mh_Certificate (mb_MsgHeader block)) powLimit BFNone.

(** [adjustedTime] is what the time source answers. *)
Definition CheckBlockHeaderSanity (header : BlockHeader) (cert : option BlockCertificate) (powLimit : Z)
    (adjustedTime maxTimeOffsetMinutes flags : Z) : result RuleErr unit :=
  match cert with
  | None => Fail (ruleError ErrCertificateMissing)
  | Some c =>
      let certSize := 4 + cert_SerializedSize c in
      if CertificateMaxSize <? certSize then Fail (ruleError ErrCertificateTooLarge)
      else if negb (IsCertVersionAllowed (cert_Version c)) then Fail (ruleError ErrDisallowedCertVersion)
      else
        let maxTimestamp := adjustedTime + 60 * maxTimeOffsetMinutes in
        if maxTimestamp <? bh_Timestamp header then Fail (ruleError ErrTimeTooNew)
        else checkProofOfWork header cert powLimit flags
  end.

Definition GetBlockVsize (msgBlock : MsgBlock) : Z :=
  let baseSize := MsgBlock_SerializeSizeStripped msgBlock in
  let witnessSize := MsgBlock_SerializeWitnessSize msgBlock in
  CalcVsize baseSize witnessSize.

Fixpoint check_transactions (txs : list MsgTx) : result RuleErr unit :=
  match txs with
  | [] => Ok ()
  | tx :: txs => CheckTransactionSanity tx;; check_transactions txs
  end.

Fixpoint check_tx_hashes (txs : list MsgTx) (existingTxHashes : gset bytes) : result RuleErr unit :=
  match txs with
  | [] => Ok ()
  | tx :: txs =>
      let hash := TxHash tx in
      if bool_decide (hash ∈ existingTxHashes) then Fail (ruleError ErrDuplicateTx)
      else check_tx_hashes txs ({[hash]} ∪ existingTxHashes)
  end.

Definition checkBlockSanity (msgBlock : MsgBlock) (chainParams : Params) (adjustedTime flags : Z) : result RuleErr unit :=
  let header := mh_BlockHeader (mb_MsgHeader msgBlock) in
  let cert := mh_Certificate (mb_MsgHeader msgBlock) in
  let flags := Z.lor flags (NetBehaviorFlags chainParams) in
  let transactions := mb_Transactions msgBlock in
  let numTx := zlen transactions in
  if numTx =? 0 then Fail (ruleError ErrNoTransactions)
  else if MaxBlockVsize <? numTx then Fail (ruleError ErrBlockTooBig)
  else if MaxBlockVsize <? GetBlockVsize msgBlock then Fail (ruleError ErrBlockTooBig)
  else
    first ← go_index transactions 0;
    if negb (IsCoinBase first) then Fail (ruleError ErrFirstTxNotCoinbase)
    else
      rest ← go_slice transactions 1 numTx;
      if existsb IsCoinBase rest then Fail (ruleError ErrMultipleCoinbases)
      else
        check_transactions transactions;;
        calcMerkleRoot ← lift_empty (CalcMerkleRoot transactions false);
        if negb (bool_decide (bh_MerkleRoot header = calcMerkleRoot)) then Fail (ruleError ErrBadMerkleRoot)
        else
          check_tx_hashes transactions ∅;;
          CheckBlockHeaderSanity header cert (PowLimit chainParams) adjustedTime (MaxTimeOffsetMinutes chainParams) flags.

Definition CheckBlockSanity (msgBlock : MsgBlock) (chainParams : Params) (adjustedTime : Z) : result RuleErr unit :=
  checkBlockSanity msgBlock chainParams adjustedTime BFNone.

(** ** Checks in context *)

Definition CheckCertificateRules (header : BlockHeader) (cert : option BlockCertificate) (height : Z) (params : Params) (flags : Z)
    : result RuleErr unit :=
  match cert with
  | None => Fail (ruleError ErrCertificateMissing)
  | Some c =>
      let want := RequiredCertVersion params height in
      if negb (cert_Version c =? want) then Fail (ruleError ErrDisallowedCertVersion)
      else if IsMoE c && IsDenseOnlyForkActive params height then Fail (ruleError ErrDisallowedCertVersion)
      else if IsRankPenaltyForkActive params height && negb (has_flag flags BFNoPoWCheck) then
        publicData ← PublicDataBytes c;
        if CheckRankPenalty (bh_Bits header) publicData then Ok () else Fail (ruleError ErrRankPenalty)
      else Ok ()
  end.

Definition MinTimestampDeltaSeconds : Z := 1.

End rules.

(** What the rules ask of the chain; looking for the last checkpoint may fill a
    cache of the chain. *)
Class ChainCtx (C N : Type) := {
  ctx_ChainParams : C → Params;
  ctx_VerifyCheckpoint : C → Z → bytes → bool;
  ctx_FindPreviousCheckpoint : ST RuleErr C (option N)
}.

Section context.
Context `{HashFns} `{PowFFI}.

Definition CheckBlockHeaderContext {C N} `{!HeaderCtx N} `{!ChainCtx C N} (header : BlockHeader) (prevNode : N) (flags : Z)
    (skipCheckpoint : bool) : ST RuleErr C unit :=
  c ← st_get;
  let blockHeight := i32 (Height prevNode + 1) in
  let fastAdd := has_flag flags BFFastAdd in
  (if negb fastAdd then
     expectedDifficulty ← st_lift (lift_empty (calcNextRequiredDifficulty (Some prevNode) (bh_Timestamp header) (ctx_ChainParams (N:=N) c)));
     let blockDifficulty := bh_Bits header in
     if negb (blockDifficulty =? expectedDifficulty) then st_fail (ruleError ErrUnexpectedDifficulty)
     else
       let minTimestamp := Timestamp prevNode + MinTimestampDeltaSeconds in
       if bh_Timestamp header <? minTimestamp then st_fail (ruleError ErrTimeTooOld) else mret ()
   else mret ());;
  if skipCheckpoint then mret ()
  else
    let blockHash := BlockHash header in
    if negb (ctx_VerifyCheckpoint (N:=N) c blockHeight blockHash) then st_fail (ruleError ErrBadCheckpoint)
    else
      checkpointNode ← ctx_FindPreviousCheckpoint;
      match checkpointNode with
      | Some n => if blockHeight <? Height (n : N) then st_fail (ruleError ErrForkTooOld) else mret ()
      | None => mret ()
      end.

Fixpoint check_finalized (txs : list MsgTx) (blockHeight blockTime : Z) : result RuleErr unit :=
  match txs with
  | [] => Ok ()
  | tx :: txs =>
      if negb (IsFinalizedTransaction tx blockHeight blockTime) then Fail (ruleError ErrUnfinalizedTx)
      else check_finalized txs blockHeight blockTime
  end.

Definition checkBlockContext {C} `{!ChainCtx C blockNode} (block : MsgBlock) (prevNode : blockNode) (flags : Z) : ST RuleErr C unit :=
  c ← st_get;
  let chainParams := ctx_ChainParams (N:=blockNode) c in
  let flags := Z.lor flags (NetBehaviorFlags chainParams) in
  let header := mh_BlockHeader (mb_MsgHeader block) in
  CheckBlockHeaderContext header prevNode flags false;;
  let blockHeight := i32 (height prevNode + 1) in
  let cert := mh_Certificate (mb_MsgHeader block) in
  st_lift (CheckCertificateRules header cert blockHeight chainParams flags);;
  st_lift (ValidateWitnessCommitment (mb_Transactions block));;
  let fastAdd := has_flag flags BFFastAdd in
  if negb fastAdd then
    blockTime ← st_lift (lift_empty (CalcPastMedianTime (Some prevNode)));
    st_lift (check_finalized (mb_Transactions block) blockHeight blockTime);;
    coinbaseTx ← st_lift (go_index (mb_Transactions block) 0);
    st_lift (CheckSerializedHeight coinbaseTx blockHeight);;
    let blockVsize := GetBlockVsize block in
    if MaxBlockVsize <? blockVsize then st_fail (ruleError ErrBlockTooBig) else mret ()
  else mret ().

End context.

(** ** What the checks accept *)

Section accepted.
Context `{HashFns} `{PowFFI}.

(** A proof of work: the target is positive and within the limit, and the
    certificate proves the header, unless that is not asked for. *)
Definition proven (header : BlockHeader) (c : BlockCertificate) (limit flags : Z) : Prop :=
  0 < CompactToBig (bh_Bits header) <= limit ∧
  (has_flag flags BFNoPoWCheck = false → VerifyCertificate header c = Ok true).

Lemma PublicDataBytes_total {E} c : wf_BlockCertificate c → ∃ d, PublicDataBytes (E:=E) c = Ok d.
Proof.
  destruct c as [c|c|c]; cbn [wf_BlockCertificate PublicDataBytes]; [eauto|intros (_ & _ & _ & _ & d & Hl & E')..];
    rewrite (v2_PublicDataBytes_prefix c d _ Hl E'); eauto.
Qed.

Lemma VerifyZKProofFFI_total header c n : wf_BlockCertificate c → ∃ b, VerifyZKProofFFI header c n = Ok b.
Proof.
  intros Hw. destruct (PublicDataBytes_total (E:=RuleErr) c Hw) as (d & E).
  unfold VerifyZKProofFFI, ProofCommitment. rewrite E. cbn [mbind result_bind]. repeat case_match; eauto.
Qed.

Lemma VerifyCertificate_total header c : wf_BlockCertificate c → ∃ b, VerifyCertificate header c = Ok b.
Proof.
  destruct c as [c|c|c]; cbn [VerifyCertificate]; [eauto|intros Hw..].
  - by apply (VerifyZKProofFFI_total header (CertV2 c)).
  - by apply (VerifyZKProofFFI_total header (CertV3 c)).
Qed.

Lemma checkProofOfWork_iff header c limit flags :
  wf_BlockCertificate c →
  no_panic (checkProofOfWork header (Some c) limit flags) ∧
  (checkProofOfWork header (Some c) limit flags = Ok () ↔ proven header c limit flags).
Proof.
  intros Hw. destruct (VerifyCertificate_total header c Hw) as (b & E). unfold checkProofOfWork, proven. rewrite E.
  destruct (Z.leb_spec (Z.sgn (CompactToBig (bh_Bits header))) 0); [split; [done|]; split; [done|lia]|].
  destruct (Z.ltb_spec limit (CompactToBig (bh_Bits header))); [split; [done|]; split; [done|lia]|].
  destruct (has_flag flags BFNoPoWCheck) eqn:Ef; cbn [negb].
  - split; [done|]. split; [|done]. intros _. split; [lia|done].
  - cbn [mbind result_bind]. destruct b; split; try done; split; try done.
    + intros _. split; [lia|done].
    + intros [_ Hv]. by specialize (Hv eq_refl).
Qed.

Lemma CheckBlockHeaderSanity_iff header cert limit now maxOffset flags :
  wf_MsgCertificate cert →
  no_panic (CheckBlockHeaderSanity header cert limit now maxOffset flags) ∧
  (CheckBlockHeaderSanity header cert limit now maxOffset flags = Ok () ↔
   ∃ c, cert = Some c ∧ IsCertVersionAllowed (cert_Version c) = true ∧ bh_Timestamp header <= now + 60 * maxOffset ∧
     proven header c limit flags).
Proof.
  destruct cert as [c|]; cbn [wf_MsgCertificate from_option]; [|intros _; split; [done|]; split; [done|by intros (? & ? & _)]].
  intros Hw. unfold CheckBlockHeaderSanity. cbv zeta. rewrite (proj2 (Z.ltb_ge _ _)) by by apply cert_size_max.
  destruct (IsCertVersionAllowed (cert_Version c)) eqn:Ev; cbn [negb].
  2: { split; [done|]. split; [done|]. intros (? & [= <-] & ? & _). congruence. }
  destruct (Z.ltb_spec (now + 60 * maxOffset) (bh_Timestamp header)).
  { split; [done|]. split; [done|]. intros (? & [= <-] & _ & ? & _). lia. }
  destruct (checkProofOfWork_iff header c limit flags Hw) as [Hn ->]. split; [done|].
  split; [eauto 10|]. by intros (? & [= <-] & _ & _ & ?).
Qed.

Lemma check_transactions_iff txs :
  Forall wf_MsgTx txs → no_panic (check_transactions txs) ∧ (check_transactions txs = Ok () ↔ Forall sane_tx txs).
Proof.
  induction 1 as [|tx txs Hw _ [IHn IH]]; cbn [check_transactions]; [split; [done|]; split; [constructor|done]|].
  destruct (CheckTransactionSanity_iff tx Hw) as [Hn Hs]. rewrite Forall_cons, <-Hs, <-IH.
  destruct (CheckTransactionSanity tx) as [[]| |]; cbn [mbind result_bind]; [|split; [done|]; by split; [|intros [? _]]|done].
  split; [done|]. naive_solver.
Qed.

Lemma check_tx_hashes_iff txs seen :
  no_panic (check_tx_hashes txs seen) ∧
  (check_tx_hashes txs seen = Ok () ↔ NoDup (TxHash <$> txs) ∧ ∀ h, h ∈ TxHash <$> txs → h ∉ seen).
Proof.
  revert seen. induction txs as [|tx txs IH]; intros seen; cbn [check_tx_hashes fmap list_fmap].
  { split; [done|]. split; [|done]. intros _. split; [constructor|]. by intros h ?%elem_of_nil. }
  case_bool_decide as Hs.
  - split; [done|]. split; [done|]. intros [_ Hno]. by destruct (Hno (TxHash tx) ltac:(by left)).
  - destruct (IH ({[TxHash tx]} ∪ seen)) as [Hn ->]. split; [done|]. rewrite NoDup_cons. split.
    + intros [Hd Hno]. split; [split; [|done]|].
      * intros Hin. apply (Hno _ Hin). set_solver.
      * intros h [->|Hin]%elem_of_cons; [done|]. specialize (Hno h Hin). set_solver.
    + intros [[Hni Hd] Hno]. split; [done|]. intros h Hin. specialize (Hno h ltac:(by right)). set_solver.
Qed.

Lemma leaves_no_witness txs : imap (leaf_hash false) txs = TxHash <$> txs.
Proof.
  rewrite <-(imap_const TxHash). apply imap_ext. by intros.
Qed.

Lemma coinbase_rest txs :
  (∃ cb rest, txs = cb :: rest ∧ IsCoinBase cb = true ∧ Forall (λ tx, IsCoinBase tx = false) rest) ↔
  ∃ cb rest, txs = cb :: rest ∧ IsCoinBase cb = true ∧ existsb IsCoinBase rest = false.
Proof.
  split; intros (cb & rest & -> & Hc & Hr); exists cb, rest; (split; [done|split; [done|]]).
  - apply not_true_is_false. intros (tx & Hin & Ht)%existsb_exists. rewrite Forall_forall in Hr.
    apply list_elem_of_In in Hin. rewrite (Hr tx Hin) in Ht. done.
  - apply Forall_forall. intros tx Hin. apply not_true_is_false. intros Ht. apply not_true_iff_false in Hr. apply Hr.
    apply existsb_exists. exists tx. split; [by apply list_elem_of_In|done].
Qed.

(** What a block that passes the checks without context is. *)
Record sane_msg_block (p : Params) (now flags : Z) (m : MsgBlock) (c : BlockCertificate) : Prop := {
  sm_block : sane_block (mb_Transactions m);
  sm_vsize : GetBlockVsize m <= MaxBlockVsize;
  sm_merkle : merkle_root (TxHash <$> mb_Transactions m) (bh_MerkleRoot (mh_BlockHeader (mb_MsgHeader m)));
  sm_cert : mh_Certificate (mb_MsgHeader m) = Some c;
  sm_version : IsCertVersionAllowed (cert_Version c) = true;
  sm_time : bh_Timestamp (mh_BlockHeader (mb_MsgHeader m)) <= now + 60 * MaxTimeOffsetMinutes p;
  sm_proven : proven (mh_BlockHeader (mb_MsgHeader m)) c (PowLimit p) (Z.lor flags (NetBehaviorFlags p))
}.

Lemma wf_block_txs m : wf_MsgBlock m → Forall wf_MsgTx (mb_Transactions m).
Proof. intros (_ & _ & Ht). eapply Forall_impl; [exact Ht|]. by intros tx [? _]. Qed.

Lemma wf_block_count m : wf_MsgBlock m → zlen (mb_Transactions m) <= 400001.
Proof. intros (_ & Hl & _). exact Hl. Qed.

Lemma checkBlockSanity_iff p now flags m :
  wf_MsgBlock m →
  no_panic (checkBlockSanity m p now flags) ∧
  (checkBlockSanity m p now flags = Ok () ↔ ∃ c, sane_msg_block p now flags m c).
Proof.
  intros Hwf. pose proof (wf_block_txs m Hwf) as Ht. pose proof (wf_block_count m Hwf) as Hn.
  unfold checkBlockSanity. cbv zeta. destruct (mb_Transactions m) as [|cb rest] eqn:Etx.
  { split; [done|]. split; [done|]. intros (c & Hs). destruct (sb_coinbase _ (sm_block _ _ _ _ _ Hs)) as (? & ? & E & _).
    rewrite Etx in E. done. }
  rewrite (proj2 (Z.eqb_neq (zlen (cb :: rest)) 0)) by (rewrite zlen_cons; pose proof (zlen_nonneg rest); lia).
  rewrite (proj2 (Z.ltb_ge MaxBlockVsize (zlen _))) by (unfold MaxBlockVsize; lia).
  destruct (Z.ltb_spec MaxBlockVsize (GetBlockVsize m)) as [Hv|Hv].
  { split; [done|]. split; [done|]. intros (c & Hs). pose proof (sm_vsize _ _ _ _ _ Hs). lia. }
  rewrite go_index_0. cbn [mbind result_bind].
  destruct (IsCoinBase cb) eqn:Ecb; cbn [negb].
  2: { split; [done|]. split; [done|]. intros (c & Hs). destruct (sb_coinbase _ (sm_block _ _ _ _ _ Hs)) as (? & ? & E & Hc & _).
       rewrite Etx in E. injection E as <- <-. congruence. }
  rewrite (go_slice_tail [cb] rest) by (done || rewrite zlen_cons; done). cbn [mbind result_bind].
  destruct (existsb IsCoinBase rest) eqn:Er.
  { split; [done|]. split; [done|]. intros (c & Hs).
    apply sm_block, sb_coinbase, coinbase_rest in Hs as (? & ? & E & _ & Hr). rewrite Etx in E. injection E as <- <-. congruence. }
  destruct (check_transactions_iff (cb :: rest) Ht) as [Hnp Hct].
  destruct (check_transactions (cb :: rest)) as [[]| |]; cbn [mbind result_bind]; [|split; [done|]; split; [done|]|done].
  2: { intros (c & Hs). pose proof (sb_sane _ (sm_block _ _ _ _ _ Hs)) as Hss. rewrite Etx in Hss. by apply Hct in Hss. }
  destruct (CalcMerkleRoot_root (cb :: rest) false ltac:(done) ltac:(lia)) as (root & Eroot & Hroot).
  rewrite leaves_no_witness in Hroot. rewrite Eroot. cbn [lift_empty mbind result_bind].
  case_bool_decide as Hm; cbn [negb].
  2: { split; [done|]. split; [done|]. intros (c & Hs). pose proof (sm_merkle _ _ _ _ _ Hs) as Hr. rewrite Etx in Hr.
       by rewrite (merkle_root_det _ _ _ Hroot Hr) in Hm. }
  destruct (check_tx_hashes_iff (cb :: rest) ∅) as [Hnh Hh].
  destruct (check_tx_hashes (cb :: rest) ∅) as [[]| |]; cbn [mbind result_bind]; [|split; [done|]; split; [done|]|done].
  2: { intros (c & Hs). pose proof (sb_nodup _ (sm_block _ _ _ _ _ Hs)) as Hd. rewrite Etx in Hd.
       assert (Fail e = Ok () :> result RuleErr unit) as [=]. apply Hh. split; [done|]. intros h _. set_solver. }
  destruct (CheckBlockHeaderSanity_iff (mh_BlockHeader (mb_MsgHeader m)) (mh_Certificate (mb_MsgHeader m)) (PowLimit p) now
    (MaxTimeOffsetMinutes p) (Z.lor flags (NetBehaviorFlags p)) (proj1 (proj1 Hwf))) as [Hnhd ->].
  split; [exact Hnhd|]. split.
  - intros (c & Hc & Hver & Htime & Hp). exists c. constructor; try done; rewrite Etx; [|by rewrite Hm].
    constructor; [|by apply Hct|done|by apply Hh]. apply coinbase_rest. eauto.
  - intros (c & []). exists c. done.
Qed.

(** *** In context *)

(** The rules a certificate meets at a height. *)
Definition cert_rules (p : Params) (height flags : Z) (header : BlockHeader) (c : BlockCertificate) : Prop :=
  cert_Version c = RequiredCertVersion p height ∧
  (IsDenseOnlyForkActive p height = true → IsMoE c = false) ∧
  (IsRankPenaltyForkActive p height = true → has_flag flags BFNoPoWCheck = false →
    ∃ d, PublicDataBytes (E:=RuleErr) c = Ok d ∧ CheckRankPenalty (bh_Bits header) d = true).

Lemma CheckCertificateRules_iff p height flags header cert :
  wf_MsgCertificate cert →
  no_panic (CheckCertificateRules header cert height p flags) ∧
  (CheckCertificateRules header cert height p flags = Ok () ↔ ∃ c, cert = Some c ∧ cert_rules p height flags header c).
Proof.
  destruct cert as [c|]; cbn [wf_MsgCertificate from_option]; [|intros _; split; [done|]; split; [done|by intros (? & ? & _)]].
  intros Hw. destruct (PublicDataBytes_total (E:=RuleErr) c Hw) as (d & Ed). unfold CheckCertificateRules, cert_rules. rewrite Ed.
  destruct (Z.eqb_spec (cert_Version c) (RequiredCertVersion p height)) as [Ev|Ev]; cbn [negb].
  2: { split; [done|]. split; [done|]. by intros (? & [= <-] & ? & _). }
  destruct (IsMoE c && IsDenseOnlyForkActive p height) eqn:Ed2.
  { split; [done|]. split; [done|]. intros (? & [= <-] & _ & Hd & _). apply andb_true_iff in Ed2 as [Em Ef].
    rewrite (Hd Ef) in Em. done. }
  assert (IsDenseOnlyForkActive p height = true → IsMoE c = false) as Hdense.
  { intros Ef. rewrite Ef, andb_true_r in Ed2. done. }
  destruct (IsRankPenaltyForkActive p height && negb (has_flag flags BFNoPoWCheck)) eqn:Er.
  - apply andb_true_iff in Er as [Er Ep%negb_true_iff]. cbn [mbind result_bind].
    destruct (CheckRankPenalty (bh_Bits header) d) eqn:Ek; (split; [done|]); split; [|done|done|].
    + intros _. exists c. split; [done|]. split; [done|]. split; [done|]. eauto.
    + intros (? & [= <-] & _ & _ & Hr). destruct (Hr Er Ep) as (? & E & Hk). rewrite Ed in E; injection E as <-. congruence.
  - split; [done|]. split; [|done]. intros _. exists c. split; [done|]. split; [done|]. split; [done|].
    intros E1 E2. by rewrite E1, E2 in Er.
Qed.

Lemma lift_ok {E S A} (r : result E A) (s : S) a s' : st_lift r s = Ok (a, s') ↔ r = Ok a ∧ s' = s.
Proof. unfold st_lift. rewrite bind_ok. naive_solver. Qed.

Lemma lift_empty_ok {E A} (r : result Empty_set A) a : lift_empty (E:=E) r = Ok a ↔ r = Ok a.
Proof. destruct r as [x|[]|]; cbn; naive_solver. Qed.

(** The node of a header. *)
Definition to_header (h : BlockHeader) : header := {|
  h_hash := BlockHash h; h_version := bh_Version h; h_merkleRoot := bh_MerkleRoot h; h_timestamp := bh_Timestamp h;
  h_bits := bh_Bits h; h_proofCommitment := bh_ProofCommitment h |}.

(** A header that passes the checks in context follows its parent by the rules
    of retargeting, has no other checkpoint at its height, and does not branch
    off below the last checkpoint. *)
Lemma CheckBlockHeaderContext_ok {C} `{!ChainCtx C blockNode} p header prev flags c c' st vs :
  ctx_ChainParams (N:=blockNode) c = p → wf_BlockHeader header → has_flag flags BFFastAdd = false →
  CheckBlockHeaderContext header prev flags false c = Ok ((), c') →
  next_block p prev (newBlockNode (to_header header) (Some prev) st vs) ∧ timestamp prev < bh_Timestamp header ∧
  ctx_VerifyCheckpoint (N:=blockNode) c (i32 (height prev + 1)) (BlockHash header) = true ∧
  ∃ cp, ctx_FindPreviousCheckpoint c = Ok (cp, c') ∧ ∀ n, cp = Some n → height n <= i32 (height prev + 1).
Proof.
  intros Hp Hwf Hf. unfold CheckBlockHeaderContext. intros (? & ? & [= <- <-] & E)%st_bind_ok. rewrite Hf in E. cbn [negb] in E.
  apply st_bind_ok in E as ([] & s1 & E1 & E). apply st_bind_ok in E1 as (ex & ? & [Ec ->]%lift_ok & E1).
  apply lift_empty_ok in Ec. rewrite Hp in Ec.
  destruct (Z.eqb_spec (bh_Bits header) ex) as [Eb|]; cbn [negb] in E1; [|done].
  destruct (Z.ltb_spec (bh_Timestamp header) (Timestamp prev + MinTimestampDeltaSeconds)) as [|Et]; [done|].
  unfold MinTimestampDeltaSeconds in Et. cbn [Timestamp blockNode_HeaderCtx] in Et. injection E1 as <-.
  destruct (ctx_VerifyCheckpoint _ _ _) eqn:Ev; cbn [negb] in E; [|done]. apply st_bind_ok in E as (cp & s2 & Ecp & E).
  assert (s2 = c' ∧ ∀ n, cp = Some n → height n <= i32 (height prev + 1)) as [-> Hcp].
  { destruct cp as [n|]; [|injection E as <-; done]. cbn [Height blockNode_HeaderCtx] in E.
    destruct (Z.ltb_spec (i32 (height prev + 1)) (height n)); [done|]. injection E as <-. split; [done|]. by intros ? [= <-]. }
  split; [|split; [lia|split; [reflexivity|by exists cp]]]. destruct Hwf as (_ & _ & _ & Ht & _).
  constructor; cbn; [done|lia|exact Ht|]. rewrite Eb. exact Ec.
Qed.

Lemma check_finalized_iff txs h t : check_finalized txs h t = Ok () ↔ Forall (λ tx, IsFinalizedTransaction tx h t = true) txs.
Proof.
  induction txs as [|tx txs IH]; cbn [check_finalized]; [split; [constructor|done]|]. rewrite Forall_cons, <-IH.
  destruct (IsFinalizedTransaction tx h t); cbn [negb]; naive_solver.
Qed.

(** What a block that passes the checks in context is. *)
Record context_msg_block (p : Params) (flags : Z) (m : MsgBlock) (prev : blockNode) : Prop := {
  cm_next st vs : next_block p prev (newBlockNode (to_header (mh_BlockHeader (mb_MsgHeader m))) (Some prev) st vs);
  cm_later : timestamp prev < bh_Timestamp (mh_BlockHeader (mb_MsgHeader m));
  cm_cert : ∃ c, mh_Certificate (mb_MsgHeader m) = Some c ∧
    cert_rules p (i32 (height prev + 1)) (Z.lor flags (NetBehaviorFlags p)) (mh_BlockHeader (mb_MsgHeader m)) c;
  cm_witness : ValidateWitnessCommitment (mb_Transactions m) = Ok ();
  cm_final : ∃ t, CalcPastMedianTime (Some prev) = Ok t ∧
    Forall (λ tx, IsFinalizedTransaction tx (i32 (height prev + 1)) t = true) (mb_Transactions m);
  cm_height : ∃ cb rest i, mb_Transactions m = cb :: rest ∧ head (tx_TxIn cb) = Some i ∧
    ∃ s, height_script (i32 (height prev + 1)) = Ok s ∧ s `prefix_of` SignatureScript i
}.

Lemma has_flag_lor a b f : has_flag (Z.lor a b) f = false → has_flag a f = false.
Proof.
  unfold has_flag. rewrite !Z.eqb_neq. intros Hn E. apply Hn. rewrite Z.land_lor_distr_l, E.
  apply Z.bits_inj'. intros n _. rewrite Z.lor_spec, Z.land_spec. by destruct (Z.testbit f n), (Z.testbit b n).
Qed.

Lemma checkBlockContext_ok {C} `{!ChainCtx C blockNode} p m prev flags c c' :
  ctx_ChainParams (N:=blockNode) c = p → wf_MsgBlock m → has_flag (Z.lor flags (NetBehaviorFlags p)) BFFastAdd = false →
  0 <= height prev < 2 ^ 31 - 1 →
  checkBlockContext m prev flags c = Ok ((), c') → context_msg_block p flags m prev ∧
  ctx_VerifyCheckpoint (N:=blockNode) c (height prev + 1) (MsgBlock_BlockHash m) = true ∧
  ∃ cp, ctx_FindPreviousCheckpoint c = Ok (cp, c') ∧ ∀ n, cp = Some n → height n <= height prev + 1.
Proof.
  intros Hp Hwf Hf Hh. assert (i32 (height prev + 1) = height prev + 1) as Ei by (apply i32_small; unfold is_i32; lia).
  pose proof Hwf as [[Hmc Hmh] [_ Htx]].
  unfold checkBlockContext. intros (? & ? & [= <- <-] & E)%st_bind_ok. rewrite Hp in E. rewrite Hf in E. cbn [negb] in E.
  apply st_bind_ok in E as ([] & s1 & E1 & E).
  apply st_bind_ok in E as ([] & ? & [Ec ->]%lift_ok & ([] & ? & [Ew ->]%lift_ok & (t & ? & [Et%lift_empty_ok ->]%lift_ok &
    ([] & ? & [Ef ->]%lift_ok & (cb & ? & [Eg ->]%lift_ok & ([] & ? & [Es ->]%lift_ok & E)%st_bind_ok)%st_bind_ok)%st_bind_ok)%st_bind_ok)%st_bind_ok).
  destruct (MaxBlockVsize <? GetBlockVsize m); [done|]. injection E as ->.
  destruct (CheckBlockHeaderContext_ok p _ prev _ c c' statusDataStored 0 Hp Hmh Hf E1) as (_ & Hl & Hv & cp & Ecp & Hcp).
  split.
  - constructor; [| |by apply CheckCertificateRules_iff|done|by exists t; rewrite <-check_finalized_iff|].
    + intros st vs. by apply (CheckBlockHeaderContext_ok p _ prev _ c c' st vs Hp Hmh Hf).
    + done.
    + destruct (mb_Transactions m) as [|cb' rest]; [done|]. rewrite go_index_0 in Eg. injection Eg as ->.
      apply Forall_cons in Htx as [[_ Hne] _]. destruct (tx_TxIn cb) as [|i ins] eqn:Eins; [done|].
      exists cb, rest, i. split; [done|]. split; [by rewrite Eins|]. apply CheckSerializedHeight_ok in Es.
      rewrite Ei in *. destruct (ExtractCoinbaseHeight_prefix cb i ins (height prev + 1) Eins ltac:(lia) Es) as (s & Hs & Hpre). eauto.
  - split; [by rewrite <-Ei|]. exists cp. split; [done|]. intros n Hn. rewrite <-Ei. by apply Hcp.
Qed.
End accepted.

(** ** Properties *)

(** C16 [checkBlockSanity] does not panic on a block off the wire and accepts
    exactly the sane ones: a coinbase and then other transactions, each sane by
    itself and no two with one hash, a virtual size within the limit, the Merkle
    root of the header, and a certificate of an allowed version for a header not
    too far in the future, whose target is positive and within the limit and
    which it proves, where proofs are asked for. *)
Theorem checkBlockSanity_spec `{HashFns} `{PowFFI} p now flags m :
  wf_MsgBlock m →
  no_panic (checkBlockSanity m p now flags) ∧
  (checkBlockSanity m p now flags = Ok () ↔ ∃ c, sane_msg_block p now flags m c).
Proof. apply checkBlockSanity_iff. Qed.

(** C17 A block that passes [checkBlockContext] after a node follows it by the
    rules: it has the bits that retargeting asks for and is younger; its
    certificate has the version of its height, is dense and meets the rank rule
    where these hold; the witnesses are committed to; its transactions are final;
    its coinbase starts with its height; no other checkpoint is at its height; and
    it does not branch off below the last checkpoint. *)
Theorem checkBlockContext_spec `{HashFns} `{PowFFI} {C} `{!ChainCtx C blockNode} p m prev flags c c' :
  ctx_ChainParams (N:=blockNode) c = p → wf_MsgBlock m → has_flag (Z.lor flags (NetBehaviorFlags p)) BFFastAdd = false →
  0 <= height prev < 2 ^ 31 - 1 →
  checkBlockContext m prev flags c = Ok ((), c') →
  context_msg_block p flags m prev ∧
  ctx_VerifyCheckpoint (N:=blockNode) c (height prev + 1) (MsgBlock_BlockHash m) = true ∧
  ∃ cp, ctx_FindPreviousCheckpoint c = Ok (cp, c') ∧ ∀ n, cp = Some n → height n <= height prev + 1.
Proof. apply checkBlockContext_ok. Qed.

(** ** Examples *)

Definition accepting_ffi : PowFFI :=
  {| verify_zk_proof_v1 _ _ _ := 0; verify_zk_proof_v2 _ _ _ := 0; verify_zk_proof_v2_with_nbits _ _ _ _ := 0;
    verify_zk_proof_v3 _ _ _ := 0; verify_zk_proof_v3_with_nbits _ _ _ _ := 0; check_rank_penalty _ _ := 0 |}.
#[local] Existing Instance accepting_ffi.

(** A chain without checkpoints. *)
Definition no_checkpoints (p : Params) : ChainCtx unit blockNode :=
  {| ctx_ChainParams _ := p; ctx_VerifyCheckpoint _ _ _ := true; ctx_FindPreviousCheckpoint := mret None |}.

(** The second block of a regression network. *)
Definition reg_genesis : blockNode :=
  newBlockNode {| h_hash := replicate 32 x00; h_version := 1; h_merkleRoot := replicate 32 x00; h_timestamp := 1700000000;
    h_bits := 0x1e010000; h_proofCommitment := replicate 32 x00 |} None statusDataStored 0.

Definition reg_coinbase : MsgTx :=
  mkMsgTx 1 [mkTxIn (mkOutPoint zeroHash MaxUint32) [x51; x00] [] MaxUint32]
    [mkTxOut 5000 (z2b Opcode.OP_1 :: x20 :: replicate 32 x07)] 0.

Definition reg_header : BlockHeader :=
  mkBlockHeader 1 (hash reg_genesis) (TxHash reg_coinbase) 1700000100 0x1e010000
    (MsgBlock.proofCommitment CertificateVersionV3 [x0a; x0b]).

Definition reg_cert : CertificateV2 :=
  mkCertificateV2 (BlockHash reg_header) 2 ([x0a; x0b] ++ replicate (Z.to_nat (PublicDataMaxSizeV2 - 2)) x00) [x01].

Definition reg_block : MsgBlock := mkMsgBlock (mkMsgHeader (Some (CertV3 reg_cert)) reg_header) [reg_coinbase].

Lemma reg_block_wf : wf_MsgBlock reg_block.
Proof.
  split; [split|split; [done|apply Forall_singleton; split; [|done]]].
  - refine (conj _ (conj _ (conj _ (conj _ (ex_intro _ [x0a; x0b] (conj _ _)))))); by vm_compute.
  - refine (conj _ (conj _ (conj _ (conj _ (conj _ _))))); by vm_compute.
  - unfold wf_MsgTx, wf_TxIn, wf_TxOut, wf_TxWitness, wf_OutPoint, wf_script, reg_coinbase.
    cbn [tx_Version tx_TxIn tx_TxOut tx_LockTime]. split_and!; repeat constructor; vm_compute; congruence.
Qed.

Lemma checkBlockSanity_spec_witness : ∃ c, sane_msg_block RegressionNetParams 1700000100 BFNone reg_block c.
Proof.
  apply (proj2 (checkBlockSanity_spec RegressionNetParams 1700000100 BFNone reg_block reg_block_wf)). by vm_compute.
Defined.

Lemma checkBlockContext_spec_witness : context_msg_block RegressionNetParams BFNone reg_block reg_genesis.
Proof.
  refine (proj1 (checkBlockContext_spec (C:=unit) (ChainCtx0:=no_checkpoints RegressionNetParams) RegressionNetParams reg_block
    reg_genesis BFNone () () eq_refl reg_block_wf eq_refl (conj _ _) _)); by vm_compute.
Defined.
