(* ===== verification/RulesTotal.v ===== *)
(** * The checks of headers and blocks always answer

    The checks of BlockRules.v fail with broken rules only, and do not panic on
    blocks off the wire. *)
From stdpp Require Import strings list.
From Stdlib Require Import Lia ZArith.
From S2P Require Import Prelude Wire MsgTx ScriptError ScriptNum Opcode Tokenizer Standard Crypto SigHash MsgBlock Work ChainParams BlockIndex Difficulty Engine RuleError TxRules Merkle UtxoView Ledger ConnectBlock ConnectSpec ChainState BlockRules ConnectTotal.

(** A failure is a broken rule. *)
Definition rule_fails {A} (r : result RuleErr A) : Prop := match r with Fail e => isRuleError e = true | _ => True end.

Lemma decided_rule_fails {A} (r : result RuleErr A) : no_panic r → rule_fails r → decided (λ _, True) r.
Proof. destruct r as [a|[]|]; done. Qed.

Lemma rule_fails_bind {A B} (m : result RuleErr A) (f : A → result RuleErr B) :
  rule_fails m → (∀ a, rule_fails (f a)) → rule_fails (m ≫= f).
Proof. destruct m; cbn; auto. Qed.

Lemma rule_fails_index {A} (l : list A) i : rule_fails (go_index l i).
Proof. unfold go_index. destruct (_ && _); [|done]. by destruct (l !! _). Qed.
Lemma rule_fails_slice {A} (l : list A) i j : rule_fails (go_slice l i j).
Proof. unfold go_slice. by destruct (_ && _). Qed.
Lemma rule_fails_empty {A} (r : result Empty_set A) : rule_fails (lift_empty r).
Proof. by destruct r as [|[]|]. Qed.

Create HintDb rules.
#[export] Hint Resolve rule_fails_index rule_fails_slice rule_fails_empty : rules.

(** Through binds and case distinctions. *)
Ltac rules_tac :=
  repeat first
    [ exact I | reflexivity | solve [eauto with rules]
    | apply rule_fails_bind; [|intros ?]
    | match goal with |- rule_fails (match ?x with _ => _ end) => destruct x end
    | progress cbv zeta ].

(** ** Without context *)

Section sanity.
Context `{HashFns} `{PowFFI}.

Lemma rule_fails_outputs outs total : rule_fails (check_outputs outs total).
Proof. revert total. induction outs as [|o outs IH]; intros total; cbn [check_outputs]; rules_tac. Qed.

Lemma rule_fails_duplicates ins seen : rule_fails (check_duplicates ins seen).
Proof. revert seen. induction ins as [|i ins IH]; intros seen; cbn [check_duplicates]; rules_tac. Qed.

Hint Resolve rule_fails_outputs rule_fails_duplicates : rules.

Lemma rule_fails_transaction tx : rule_fails (CheckTransactionSanity tx).
Proof. unfold CheckTransactionSanity. rules_tac. Qed.

Hint Resolve rule_fails_transaction : rules.

Lemma rule_fails_transactions txs : rule_fails (check_transactions txs).
Proof. induction txs as [|tx txs IH]; cbn [check_transactions]; rules_tac. Qed.

Lemma rule_fails_hashes txs seen : rule_fails (check_tx_hashes txs seen).
Proof. revert seen. induction txs as [|tx txs IH]; intros seen; cbn [check_tx_hashes]; rules_tac. Qed.

Lemma rule_fails_public c : rule_fails (PublicDataBytes c).
Proof. destruct c; cbn [PublicDataBytes]; unfold v2_PublicDataBytes; rules_tac. Qed.

Hint Resolve rule_fails_transactions rule_fails_hashes rule_fails_public : rules.

Lemma rule_fails_certificate header c : rule_fails (VerifyCertificate header c).
Proof.
  destruct c; cbn [VerifyCertificate]; unfold verifyCertificateV2, verifyCertificateV3, VerifyZKProofFFI, ProofCommitment; rules_tac.
Qed.

Hint Resolve rule_fails_certificate : rules.

Lemma rule_fails_header header cert limit now maxOffset flags :
  rule_fails (CheckBlockHeaderSanity header cert limit now maxOffset flags).
Proof. unfold CheckBlockHeaderSanity, checkProofOfWork. rules_tac. Qed.

Hint Resolve rule_fails_header : rules.

Lemma checkBlockSanity_decided p now flags m : wf_MsgBlock m → decided (λ _, True) (checkBlockSanity m p now flags).
Proof.
  intros Hw. apply decided_rule_fails; [by apply checkBlockSanity_iff|]. unfold checkBlockSanity. rules_tac.
Qed.

(** ** In context *)

Lemma rule_fails_cert_rules header cert height p flags : rule_fails (CheckCertificateRules header cert height p flags).
Proof. unfold CheckCertificateRules. rules_tac. Qed.

Lemma rule_fails_commitment txs : rule_fails (ValidateWitnessCommitment txs).
Proof.
  assert (∀ outs, rule_fails (find_commitment outs)) as Hf.
  { induction outs as [|o outs IH]; cbn [find_commitment]; rules_tac. }
  unfold ValidateWitnessCommitment, ExtractWitnessCommitment. rules_tac.
Qed.

Lemma check_finalized_decided txs h t : decided (λ _, True) (check_finalized txs h t).
Proof. induction txs as [|tx txs IH]; cbn [check_finalized]; [done|]. by destruct (negb _). Qed.

(** Any height in 32 bits has a script. *)
Lemma height_script_total h : is_i32 h → ∃ s, height_script h = Ok s.
Proof.
  intros Hh. unfold height_script, AddInt64. cbn [NewScriptBuilder b_err].
  change (MaxScriptSize <? zlen (b_script NewScriptBuilder) + 1) with false. cbn match.
  destruct (h =? 0); [by eexists|]. destruct (_ || _); [by eexists|]. unfold is_i32 in Hh.
  destruct (Bytes_total h 5 ltac:(lia)) as (v & -> & Hl); [change (2 ^ (8 * 5 - 1)) with (2 ^ 39); lia|]. cbn [mbind result_bind].
  destruct (addData_push (mkBuilder [] None) v) as (tk & E & Hp); [unfold MaxScriptElementSize; lia|].
  pose proof (zlen_nonneg v).
  unfold AddData. cbn [NewScriptBuilder b_err b_script].
  rewrite (proj2 (Z.ltb_ge MaxScriptSize _)), (proj2 (Z.ltb_ge MaxScriptElementSize _)); [|unfold MaxScriptElementSize; lia|].
  - unfold NewScriptBuilder. rewrite E. by eexists.
  - rewrite zlen_nil. unfold canonicalDataSize, MaxScriptSize. cbv zeta. repeat case_match; lia.
Qed.

Lemma ExtractCoinbaseHeight_decided tx i ins : tx_TxIn tx = i :: ins → decided (λ _, True) (ExtractCoinbaseHeight tx).
Proof.
  intros Ei. unfold ExtractCoinbaseHeight. rewrite Ei, go_index_0. cbn [mbind result_bind].
  destruct (SignatureScript i) as [|b0 script]; [done|]. case_match; [done|]. rewrite go_index_0. cbn [mbind result_bind].
  case_match; [done|]. case_match; [done|]. rewrite (go_slice_cons _ script (zlen (b0 :: script))) by apply zlen_cons. cbn [mbind result_bind].
  destruct (Z.ltb_spec (zlen script) (b2z b0)) as [|Hle]; [done|]. pose proof (b2z_range b0).
  rewrite go_slice_total by (rewrite ?zlen_cons; lia). cbn [mbind result_bind]. unfold compareScript. set (h := i32 _).
  fold (height_script h). destruct (height_script_total h) as [s ->]; [apply i32_range|]. cbn [lift_script mbind result_bind].
  case_bool_decide; done.
Qed.

(** The parameters for which retargeting does not panic. *)
Definition retargets (p : Params) : Prop := seconds (WTEMAHalfLife p) ≠ 0 ∧ ReduceMinDifficulty p && (Net p =? MainNet) = false.

Lemma calcNext_total {N} `{!HeaderCtx N} (n : N) t p : retargets p → ∃ bits, calcNextRequiredDifficulty (Some n) t p = Ok bits.
Proof.
  intros [Hh Hm]. unfold calcNextRequiredDifficulty. rewrite Hm. case_match; [by eexists|]. case_match; [by eexists|].
  case_match; [|by eexists]. unfold retarget, big_div. rewrite (proj2 (Z.eqb_neq _ _)) by done. by eexists.
Qed.

Lemma checkpoint_target_total p bits duration b : retargets p → ∃ ok, checkpoint_target_ok p bits duration b = Ok ok.
Proof.
  intros [Hh _]. unfold checkpoint_target_ok, calcEasiestDifficulty, i64_div. cbv zeta. rewrite (proj2 (Z.eqb_neq _ _)) by done.
  case_match; [by eexists|]. case_match; [|by eexists]. cbn [mbind result_bind]. case_match; by eexists.
Qed.

Lemma CheckBlockHeaderContext_decided {C N} `{!HeaderCtx N} `{!ChainCtx C N} header (prev : N) flags (c : C) :
  retargets (ctx_ChainParams (N:=N) c) → (∃ r, ctx_FindPreviousCheckpoint (N:=N) c = Ok r) →
  decided (λ _, True) (CheckBlockHeaderContext header prev flags false c).
Proof.
  intros Hr [[cp c'] Ef]. unfold CheckBlockHeaderContext. cbv zeta.
  eapply (decided_st (λ r, r = (c, c))); [done|]. intros ? ? _ [= -> ->].
  eapply (decided_st (λ r, r.2 = c)).
  - destruct (negb _); [|done]. destruct (calcNext_total prev (bh_Timestamp header) _ Hr) as [bits ->].
    cbv [mbind st_bind st_lift lift_empty result_bind mret st_ret result_ret]. case_match; [done|]. by case_match.
  - intros [] s _ Es. cbn in Es. subst s. case_match; [done|]. cbv [mbind st_bind]. rewrite Ef. destruct cp; [by case_match|done].
Qed.

Lemma checkBlockContext_decided {C} `{!ChainCtx C blockNode} m prev flags (c : C) cb rest :
  wf_MsgBlock m → mb_Transactions m = cb :: rest → retargets (ctx_ChainParams (N:=blockNode) c) →
  (∃ r, ctx_FindPreviousCheckpoint (N:=blockNode) c = Ok r) →
  decided (λ _, True) (checkBlockContext m prev flags c).
Proof.
  intros Hw Et Hr Hf. pose proof (wf_block_count m Hw) as Hn. destruct Hw as [[Hcert _] [_ Htx]]. rewrite Et in Htx, Hn.
  apply Forall_cons in Htx as [[_ Hne] _]. destruct (tx_TxIn cb) as [|i ins] eqn:Ei; [done|].
  unfold checkBlockContext. cbv zeta.
  assert (∀ {A} (r : result RuleErr A) (s : C), no_panic r → rule_fails r → decided (λ _, True) (st_lift r s)) as Hl.
  { intros A r s H1 H2. apply decided_lift. by apply (decided_mono (λ _, True)); [apply decided_rule_fails|]. }
  eapply (decided_st (λ _, True)); [done|]. intros c0 c1 [= <- <-] _.
  eapply (decided_st (λ _, True)); [by apply CheckBlockHeaderContext_decided|]. intros [] c1 _ _.
  eapply (decided_st (λ _, True)); [apply Hl; [by apply CheckCertificateRules_iff|apply rule_fails_cert_rules]|]. intros [] c2 _ _.
  eapply (decided_st (λ _, True)); [apply Hl; [rewrite Et; apply ValidateWitnessCommitment_iff; [by rewrite Ei|lia]|apply rule_fails_commitment]|].
  intros [] c3 _ _. case_match; [|done].
  destruct (CalcPastMedianTime_rank prev) as (mt & -> & _). cbn [lift_empty].
  eapply (decided_st (λ _, True)); [done|]. intros t c4 _ _.
  eapply (decided_st (λ _, True)); [apply decided_lift; eapply decided_mono; [apply check_finalized_decided|done]|]. intros [] c5 _ _.
  rewrite Et, go_index_0. eapply (decided_st (λ r, r.1 = cb)); [done|]. intros tx c6 _ Etx. cbn in Etx. subst tx.
  eapply (decided_st (λ _, True)); [|intros [] c7 _ _; by case_match].
  apply decided_lift. unfold CheckSerializedHeight. eapply decided_bind; [by eapply ExtractCoinbaseHeight_decided|]. intros h _ _. by case_match.
Qed.
End sanity.
