(* ===== verification/Orphans.v ===== *)
(** * Blocks whose parent is not known yet (blockchain/chain.go)

    The pool of orphans: by hash, by the hash of the parent, and a pointer to the
    one that expires first.  An orphan in the pool is known by the hash of its
    block.  Times are in nanoseconds; one instant stands for the calls of
    [time.Now()] of one operation.  The locks make the operations atomic. *)
From stdpp Require Import fin_maps fin_map_dom strings list.
From Stdlib Require Import Lia ZArith.
From S2P Require Import Prelude Wire MsgTx Crypto SigHash MsgBlock ChainParams UtxoStore.

Definition maxOrphanBlocks : Z := 25.

Record orphanBlock := mkOrphan {
  ob_block : MsgBlock;
  ob_expiration : Z
}.

Record OrphanPool := mkPool {
  orphans : gmap bytes orphanBlock;
  prevOrphans : gmap bytes (list orphanBlock);
  oldestOrphan : option orphanBlock
}.

Definition emptyPool : OrphanPool := mkPool ∅ ∅ None.

Definition ob_prev (o : orphanBlock) : bytes := bh_PrevBlock (mh_BlockHeader (mb_MsgHeader (ob_block o))).

Section pool.
Context `{HashFns}.

Definition ob_hash (o : orphanBlock) : bytes := MsgBlock_BlockHash (ob_block o).

Definition IsKnownOrphan (p : OrphanPool) (hash : bytes) : bool := bool_decide (is_Some (orphans p !! hash)).

(** The loop that cuts the orphan out of a list. *)
Definition others (orphanHash : bytes) (l : list orphanBlock) : list orphanBlock := filter (λ o, ob_hash o ≠ orphanHash) l.

Definition removeOrphanBlock (orphan : orphanBlock) (p : OrphanPool) : OrphanPool :=
  let orphanHash := ob_hash orphan in
  let prevHash := ob_prev orphan in
  let rest := others orphanHash (default [] (prevOrphans p !! prevHash)) in
  mkPool (delete orphanHash (orphans p))
    (match rest with [] => delete prevHash (prevOrphans p) | _ => <[prevHash := rest]> (prevOrphans p) end)
    (oldestOrphan p).

Definition set_oldest (o : option orphanBlock) (p : OrphanPool) : OrphanPool := mkPool (orphans p) (prevOrphans p) o.

(** The loop over the orphans: the current one may go, which the range over the
    map does not notice. *)
Fixpoint expire_loop (now : Z) (es : list (bytes * orphanBlock)) (p : OrphanPool) : OrphanPool :=
  match es with
  | [] => p
  | (_, oBlock) :: es =>
      if ob_expiration oBlock <? now then expire_loop now es (removeOrphanBlock oBlock p)
      else
        expire_loop now es
          (match oldestOrphan p with
           | None => set_oldest (Some oBlock) p
           | Some oldest => if ob_expiration oBlock <? ob_expiration oldest then set_oldest (Some oBlock) p else p
           end)
  end.

(** Removing a [nil] oldest orphan panics. *)
Definition addOrphanBlock `{!MapOrder bytes orphanBlock} {E} (now : Z) (block : MsgBlock) (p : OrphanPool) : result E OrphanPool :=
  let p := expire_loop now (map_order (orphans p)) p in
  p ← (if maxOrphanBlocks <? Z.of_nat (size (orphans p)) + 1 then
         match oldestOrphan p with
         | None => Panic
         | Some oldest => Ok (set_oldest None (removeOrphanBlock oldest p))
         end
       else Ok p);
  let oBlock := mkOrphan block (now + Hour) in
  Ok (mkPool (<[MsgBlock_BlockHash block := oBlock]> (orphans p))
        (<[ob_prev oBlock := default [] (prevOrphans p !! ob_prev oBlock) ++ [oBlock]]> (prevOrphans p))
        (oldestOrphan p)).

(** The head of a chain of orphans; [fuel] bounds the steps. *)
Fixpoint root_loop (fuel : nat) (p : OrphanPool) (prevHash orphanRoot : bytes) : bytes :=
  match fuel with
  | O => orphanRoot
  | S fuel =>
      match orphans p !! prevHash with
      | None => orphanRoot
      | Some orphan => root_loop fuel p (ob_prev orphan) prevHash
      end
  end.

Definition GetOrphanRoot (p : OrphanPool) (hash : bytes) : bytes := root_loop (S (size (orphans p))) p hash hash.

(** ** The pool is consistent *)

(** Blocks with one hash name one parent. *)
Context (B : MsgBlock → Prop).
Context (HB : ∀ m m', B m → B m' → MsgBlock_BlockHash m = MsgBlock_BlockHash m' →
  bh_PrevBlock (mh_BlockHeader (mb_MsgHeader m)) = bh_PrevBlock (mh_BlockHeader (mb_MsgHeader m'))).

(** The two maps hold the same orphans, each under its own hash and under that
    of its parent. *)
Record maps_ok (p : OrphanPool) : Prop := {
  pool_hash h o : orphans p !! h = Some o → ob_hash o = h ∧ B (ob_block o);
  pool_prev pr l : prevOrphans p !! pr = Some l → l ≠ [] ∧ NoDup (ob_hash <$> l) ∧
    ∀ o, o ∈ l → ob_prev o = pr ∧ orphans p !! ob_hash o = Some o;
  pool_listed h o : orphans p !! h = Some o → ∃ l, prevOrphans p !! ob_prev o = Some l ∧ o ∈ l;
  pool_oldest o : oldestOrphan p = Some o → B (ob_block o)
}.

(** The pointer is to an orphan that is still there. *)
Definition oldest_live (p : OrphanPool) : Prop :=
  ∀ o, oldestOrphan p = Some o → is_Some (orphans p !! ob_hash o).

Record pool_ok (p : OrphanPool) : Prop := {
  pool_maps : maps_ok p;
  pool_size : Z.of_nat (size (orphans p)) <= maxOrphanBlocks + 1;
  pool_full : maxOrphanBlocks < Z.of_nat (size (orphans p)) → oldest_live p
}.

Lemma remove_prev o p pr :
  prevOrphans (removeOrphanBlock o p) !! pr =
  if decide (pr = ob_prev o)
  then match others (ob_hash o) (default [] (prevOrphans p !! pr)) with [] => None | l => Some l end
  else prevOrphans p !! pr.
Proof.
  unfold removeOrphanBlock. cbn [prevOrphans]. destruct (decide (pr = ob_prev o)) as [->|Hne].
  - case_match; [by rewrite lookup_delete_eq|by rewrite lookup_insert_eq].
  - case_match; [by rewrite lookup_delete_ne|by rewrite lookup_insert_ne].
Qed.

Lemma NoDup_filter_hash (P : orphanBlock → Prop) `{!∀ o, Decision (P o)} l : NoDup (ob_hash <$> l) → NoDup (ob_hash <$> filter P l).
Proof.
  induction l as [|a l IH]; [done|]. cbn [fmap list_fmap]. intros [Hni Hnd]%NoDup_cons.
  destruct (decide (P a)); [rewrite filter_cons_True by done|rewrite filter_cons_False by done; auto].
  cbn [fmap list_fmap]. apply NoDup_cons. split; [|auto]. intros (b & E & [_ Hb]%list_elem_of_filter)%list_elem_of_fmap.
  apply Hni. rewrite E. by apply list_elem_of_fmap_2.
Qed.

Lemma remove_lookup o p h o' :
  orphans (removeOrphanBlock o p) !! h = Some o' ↔ ob_hash o ≠ h ∧ orphans p !! h = Some o'.
Proof. apply lookup_delete_Some. Qed.

Lemma remove_maps o p : B (ob_block o) → maps_ok p → maps_ok (removeOrphanBlock o p).
Proof.
  intros Ho [Hh Hp Hl Hold]. constructor.
  - intros h o' [_ Ho']%remove_lookup. by apply Hh.
  - intros pr l. rewrite remove_prev. destruct (decide (pr = ob_prev o)) as [->|Hpr].
    + destruct (prevOrphans p !! ob_prev o) as [l0|] eqn:E0; [|done]. destruct (Hp _ l0 E0) as (_ & Hnd & Hin). cbn [from_option id].
      case_match eqn:Ef; [done|]. intros [= <-]. rewrite <-Ef. split; [by rewrite Ef|].
      split; [by apply NoDup_filter_hash|]. intros o' [Hne' Ho']%list_elem_of_filter. destruct (Hin o' Ho') as [? ?].
      split; [done|]. by apply remove_lookup.
    + intros E. destruct (Hp pr l E) as (Hne & Hnd & Hin). split; [done|]. split; [done|]. intros o' Ho'.
      destruct (Hin o' Ho') as [Hpo Hlo]. split; [done|]. apply remove_lookup. split; [|done]. intros Eh.
      apply Hpr. rewrite <-Hpo. symmetry. apply HB; [done|by apply (Hh (ob_hash o'))|done].
  - intros h o' [Hne Ho']%remove_lookup. destruct (Hl h o' Ho') as (l & El & Hin). destruct (Hh h o' Ho') as [Eh _].
    rewrite remove_prev. destruct (decide (ob_prev o' = ob_prev o)) as [E|E]; [|eauto]. rewrite El. cbn [from_option id].
    assert (o' ∈ others (ob_hash o) l) as Hf by (apply list_elem_of_filter; split; [congruence|done]).
    case_match eqn:Ef; [by apply not_elem_of_nil in Hf|]. eauto.
  - exact Hold.
Qed.

Lemma remove_size o p : (size (orphans (removeOrphanBlock o p)) <= size (orphans p))%nat.
Proof.
  unfold removeOrphanBlock. cbn [orphans].
  destruct (orphans p !! ob_hash o) eqn:E; [rewrite map_size_delete_Some by eauto|rewrite map_size_delete_None by done]; lia.
Qed.

Lemma remove_live_size o p : is_Some (orphans p !! ob_hash o) → S (size (orphans (removeOrphanBlock o p))) = size (orphans p).
Proof.
  intros [x Ex]. unfold removeOrphanBlock. cbn [orphans]. rewrite map_size_delete_Some by eauto. assert (size (orphans p) ≠ 0%nat); [|lia].
  intros E%map_size_empty_inv. by rewrite E, lookup_empty in Ex.
Qed.
(** *** The loop over the orphans *)

Lemma set_oldest_maps o p : maps_ok p → (∀ x, o = Some x → B (ob_block x)) → maps_ok (set_oldest o p).
Proof. intros [Hh Hp Hl _] Ho. by constructor. Qed.

Lemma expire_loop_ok now es p :
  maps_ok p → NoDup es.*1 → (∀ h o, (h, o) ∈ es → orphans p !! h = Some o) →
  let p' := expire_loop now es p in
  maps_ok p' ∧
  (∀ h o, orphans p' !! h = Some o ↔ orphans p !! h = Some o ∧ ((h, o) ∈ es → now <= ob_expiration o)) ∧
  (is_Some (oldestOrphan p) ∨ (∃ h o, (h, o) ∈ es ∧ now <= ob_expiration o) → is_Some (oldestOrphan p')) ∧
  ((∀ h o, (h, o) ∈ es → now <= ob_expiration o) → orphans p' = orphans p ∧ (oldest_live p → oldest_live p')).
Proof.
  revert p. induction es as [|[h0 o0] es IH]; intros p Hm Hnd Hin p'; cbn [expire_loop] in p'.
  { split; [done|]. split; [intros h o; split; [intros ?; split; [done|by intros ?%elem_of_nil]|by intros [? _]]|].
    split; [|done]. intros [?|(? & ? & ?%elem_of_nil & _)]; done. }
  cbn [fmap list_fmap fst] in Hnd. apply NoDup_cons in Hnd as [Hni Hnd].
  pose proof (Hin h0 o0 ltac:(by left)) as Ho. destruct (pool_hash p Hm h0 o0 Ho) as [Eh HBo].
  assert (∀ h o, (h, o) ∈ es → h ≠ h0) as Hother.
  { intros h o Hes ->. apply Hni. by apply (list_elem_of_fmap_2 fst) in Hes. }
  destruct (Z.ltb_spec (ob_expiration o0) now) as [Hx|Hx].
  - destruct (IH (removeOrphanBlock o0 p)) as (Hm' & Hl' & Hs' & Hf').
    { by apply remove_maps. } { done. }
    { intros h o Hes. apply remove_lookup. split; [rewrite Eh; intros ->; by apply (Hother h o)|]. apply Hin. by right. }
    fold p' in Hm', Hl', Hs', Hf'. split; [done|]. split; [|split].
    + intros h o. rewrite Hl', remove_lookup, Eh. split.
      * intros [[Hne Hp] Hes]. split; [done|]. intros [[= -> ->]|Hes']%elem_of_cons; [done|auto].
      * intros [Hp Hes]. split; [split; [|done]|].
        -- intros ->. assert (o = o0) as -> by congruence. specialize (Hes ltac:(by left)). lia.
        -- intros Hes'. apply Hes. by right.
    + intros [Hs|(h & o & [[= -> ->]|Hes]%elem_of_cons & He)]; [apply Hs'; by left|lia|apply Hs'; right; eauto].
    + intros Hall. specialize (Hall h0 o0 ltac:(by left)). lia.
  - set (p1 := match oldestOrphan p with None => set_oldest (Some o0) p
      | Some oldest => if ob_expiration o0 <? ob_expiration oldest then set_oldest (Some o0) p else p end) in p'.
    assert (orphans p1 = orphans p ∧ maps_ok p1 ∧ is_Some (oldestOrphan p1) ∧ (oldest_live p → oldest_live p1)) as (E1 & Hm1 & Hs1 & Hlive).
    { assert (orphans (set_oldest (Some o0) p) = orphans p ∧ maps_ok (set_oldest (Some o0) p) ∧ is_Some (Some o0) ∧
        oldest_live (set_oldest (Some o0) p)) as (? & ? & ? & ?).
      { split; [done|]. split; [apply set_oldest_maps; [done|by intros ? [= <-]]|]. split; [eauto|].
        intros ? [= <-]. cbn. rewrite Eh, Ho. eauto. }
      unfold p1. destruct (oldestOrphan p) as [old|] eqn:Eo; [|by auto]. destruct (_ <? _); [by auto|]. rewrite Eo. eauto. }
    destruct (IH p1 Hm1 Hnd) as (Hm' & Hl' & Hs' & Hf').
    { intros h o Hes. rewrite E1. apply Hin. by right. }
    fold p' in Hm', Hl', Hs', Hf'. rewrite E1 in Hl', Hf'. split; [done|]. split; [|split].
    + intros h o. rewrite Hl'. split; intros [Hp Hes]; (split; [done|]).
      * intros [[= -> ->]|Hes']%elem_of_cons; [done|auto].
      * intros Hes'. apply Hes. by right.
    + intros _. apply Hs'. by left.
    + intros Hall. destruct Hf' as [E' Hl2]; [intros h o Hes; apply (Hall h); by right|]. auto.
Qed.

Context `{!MapOrder bytes orphanBlock}.

Lemma map_order_in (m : gmap bytes orphanBlock) h o : (h, o) ∈ map_order m ↔ m !! h = Some o.
Proof. rewrite map_order_perm. apply elem_of_map_to_list. Qed.

Lemma expire_all now p :
  maps_ok p → let p' := expire_loop now (map_order (orphans p)) p in
  maps_ok p' ∧ (∀ h o, orphans p' !! h = Some o ↔ orphans p !! h = Some o ∧ now <= ob_expiration o) ∧
  (orphans p' ≠ ∅ → is_Some (oldestOrphan p')) ∧
  (size (orphans p') = size (orphans p) → oldest_live p → oldest_live p').
Proof.
  intros Hm p'. destruct (expire_loop_ok now (map_order (orphans p)) p Hm) as (Hm' & Hl & Hs & Hf).
  { rewrite map_order_perm. apply NoDup_fst_map_to_list. } { intros h o. by rewrite map_order_in. }
  fold p' in Hm', Hl, Hs, Hf. setoid_rewrite map_order_in in Hl. setoid_rewrite map_order_in in Hs.
  assert (∀ h o, orphans p' !! h = Some o ↔ orphans p !! h = Some o ∧ now <= ob_expiration o) as Hl'.
  { intros h o. rewrite Hl. split; intros [Ho He]; auto. }
  split; [done|]. split; [done|]. split.
  - intros Hne. apply map_choose in Hne as (h & o & [Ho He]%Hl'). apply Hs. right. eauto.
  - intros Hsz. apply Hf. intros h o. rewrite map_order_in. intros Ho.
    assert (orphans p' = orphans p) as E.
    { apply map_subseteq_size_eq; [|lia]. apply map_subseteq_spec. intros h' o' [? _]%Hl'. done. }
    assert (orphans p' !! h = Some o) as Ho' by by rewrite E. apply Hl' in Ho' as [_ Hx]. exact Hx.
Qed.

Lemma add_maps now block p :
  maps_ok p → B block → orphans p !! MsgBlock_BlockHash block = None →
  let oBlock := mkOrphan block (now + Hour) in
  maps_ok (mkPool (<[MsgBlock_BlockHash block := oBlock]> (orphans p))
        (<[ob_prev oBlock := default [] (prevOrphans p !! ob_prev oBlock) ++ [oBlock]]> (prevOrphans p)) (oldestOrphan p)).
Proof.
  intros [Hh Hp Hl Hold] HBb Hfresh oBlock. constructor; cbn [orphans prevOrphans oldestOrphan].
  - intros h o [[<- <-]|[_ Ho]]%lookup_insert_Some; [done|by apply Hh].
  - assert (∀ l : list orphanBlock, (∀ o, o ∈ l → orphans p !! ob_hash o = Some o) → ∀ o, o ∈ l → MsgBlock_BlockHash block ≠ ob_hash o) as Hne.
    { intros l Hin o Ho E. specialize (Hin o Ho). rewrite <-E in Hin. congruence. }
    intros pr l [[<- <-]|[Hpr El]]%lookup_insert_Some.
    + set (l0 := default [] (prevOrphans p !! ob_prev oBlock)).
      assert (NoDup (ob_hash <$> l0) ∧ ∀ o, o ∈ l0 → ob_prev o = ob_prev oBlock ∧ orphans p !! ob_hash o = Some o) as [Hnd Hin].
      { unfold l0. destruct (prevOrphans p !! ob_prev oBlock) as [l1|] eqn:E; cbn [from_option id]; [apply (Hp _ l1 E)|].
        split; [constructor|by intros o ?%elem_of_nil]. }
      pose proof (Hne l0 (λ o Ho, proj2 (Hin o Ho))) as Hne0.
      split; [by intros [_ [=]]%app_eq_nil|]. split.
      * rewrite fmap_app. apply NoDup_app. split; [done|]. split; [|apply NoDup_singleton].
        intros h (o & -> & Ho)%list_elem_of_fmap Hin2. cbn in Hin2. apply elem_of_cons in Hin2 as [E|?%elem_of_nil]; [|done].
        by apply (Hne0 o Ho).
      * intros o [Ho|Ho]%elem_of_app.
        -- destruct (Hin o Ho) as [? ?]. split; [done|]. rewrite lookup_insert_ne; [done|by apply Hne0].
        -- apply elem_of_cons in Ho as [->|?%elem_of_nil]; [|done]. split; [done|]. by rewrite lookup_insert_eq.
    + destruct (Hp pr l El) as (Hn & Hnd & Hin). split; [done|]. split; [done|]. intros o Ho. destruct (Hin o Ho) as [? ?].
      split; [done|]. rewrite lookup_insert_ne; [done|]. by apply (Hne l (λ o Ho, proj2 (Hin o Ho))).
  - intros h o [[<- <-]|[_ Ho]]%lookup_insert_Some.
    + rewrite lookup_insert_eq. eexists. split; [done|]. apply elem_of_app. right. by left.
    + destruct (Hl h o Ho) as (l & El & Hin). destruct (decide (ob_prev o = ob_prev oBlock)) as [E|E].
      * rewrite E, lookup_insert_eq. eexists. split; [done|]. rewrite <-E, El. apply elem_of_app. by left.
      * rewrite lookup_insert_ne by done. eauto.
  - exact Hold.
Qed.
(** The orphans that have not expired. *)
Definition unexpired (now : Z) (p : OrphanPool) : gmap bytes orphanBlock := filter (λ ho, now <= ob_expiration ho.2) (orphans p).

Lemma unexpired_lookup now p h o : unexpired now p !! h = Some o ↔ orphans p !! h = Some o ∧ now <= ob_expiration o.
Proof. apply map_lookup_filter_Some. Qed.

Lemma unexpired_size now p : (size (unexpired now p) <= size (orphans p))%nat.
Proof. apply map_subseteq_size, map_filter_subseteq. Qed.

(** After the loop the pointer is where it was or at an orphan of the loop, and
    nothing that has not expired would expire before it. *)
Lemma expire_loop_oldest now es p o :
  oldestOrphan (expire_loop now es p) = Some o →
  (oldestOrphan p = Some o ∨ ∃ h, (h, o) ∈ es ∧ now <= ob_expiration o) ∧
  (∀ x, oldestOrphan p = Some x → ob_expiration o <= ob_expiration x) ∧
  (∀ h x, (h, x) ∈ es → now <= ob_expiration x → ob_expiration o <= ob_expiration x).
Proof.
  revert p. induction es as [|[h0 o0] es IH]; intros p; cbn [expire_loop].
  { intros E. split; [by left|]. split; [intros x Ex; rewrite E in Ex; injection Ex as <-; lia|by intros h x ?%elem_of_nil]. }
  destruct (Z.ltb_spec (ob_expiration o0) now) as [Hx|Hx]; intros E.
  - destruct (IH _ E) as (Hin & Hold & Hes). split; [|split; [exact Hold|]].
    + destruct Hin as [?|(h & ? & ?)]; [by left|]. right. exists h. split; [by right|done].
    + intros h x [[= -> ->]|Hin']%elem_of_cons Hnow; [lia|by apply (Hes h)].
  - destruct (IH _ E) as (Hin & Hold & Hes).
    assert (ob_expiration o <= ob_expiration o0 ∧ (∀ x, oldestOrphan p = Some x → ob_expiration o <= ob_expiration x) ∧
      (oldestOrphan p = Some o ∨ o = o0 ∨ ∃ h, (h, o) ∈ es ∧ now <= ob_expiration o)) as (H0 & Hp & Hcase).
    { destruct (oldestOrphan p) as [old|] eqn:Eo.
      - destruct (Z.ltb_spec (ob_expiration o0) (ob_expiration old)) as [Hlt|Hge].
        + pose proof (Hold o0 eq_refl). split; [lia|]. split; [intros x [= <-]; lia|]. destruct Hin as [[= ->]|?]; auto.
        + pose proof (Hold old Eo). split; [lia|]. split; [intros x [= <-]; lia|]. destruct Hin as [Ei|?]; [left; by rewrite <-Eo|auto].
      - pose proof (Hold o0 eq_refl). split; [lia|]. split; [done|]. destruct Hin as [[= ->]|?]; auto. }
    split; [|split; [exact Hp|]].
    + destruct Hcase as [?|[->|(h & ? & ?)]]; [by left|right; exists h0; split; [by left|lia]|right; exists h; split; [by right|done]].
    + intros h x [[= -> ->]|Hin']%elem_of_cons Hnow; [exact H0|by apply (Hes h)].
Qed.

(** The pointer is at an orphan of the pool. *)
Definition oldest_in (p : OrphanPool) : Prop := ∀ o, oldestOrphan p = Some o → orphans p !! ob_hash o = Some o.

(** What is left of the pool when [victim] goes. *)
Definition spared (victim : option orphanBlock) (m : gmap bytes orphanBlock) : gmap bytes orphanBlock :=
  match victim with Some v => delete (ob_hash v) m | None => m end.

Lemma spared_lookup victim m h o : spared victim m !! h = Some o → m !! h = Some o.
Proof. destruct victim as [v|]; cbn [spared]; [|done]. by intros [_ ?]%lookup_delete_Some. Qed.

(** Room for a new orphan: when the pool is full the one the pointer is at goes. *)
Lemma make_room {E} now p :
  pool_ok p → let p1 := expire_loop now (map_order (orphans p)) p in
  ∃ p2 victim, (if maxOrphanBlocks <? Z.of_nat (size (orphans p1)) + 1 then
         match oldestOrphan p1 with None => Panic | Some oldest => Ok (set_oldest None (removeOrphanBlock oldest p1)) end
       else Ok p1) = (Ok p2 : result E OrphanPool) ∧ maps_ok p2 ∧ orphans p2 = spared victim (unexpired now p) ∧
    Z.of_nat (size (orphans p2)) <= maxOrphanBlocks ∧ (Z.of_nat (size (orphans p2)) = maxOrphanBlocks → oldestOrphan p2 = None) ∧
    (victim = None ↔ Z.of_nat (size (unexpired now p)) < maxOrphanBlocks) ∧
    (∀ v, victim = Some v → ∀ k o, unexpired now p !! k = Some o → ob_expiration v <= ob_expiration o) ∧
    (oldest_in p → Z.of_nat (size (orphans p)) <= maxOrphanBlocks →
      Z.of_nat (size (orphans p2)) < maxOrphanBlocks ∧ ∀ v, victim = Some v → unexpired now p !! ob_hash v = Some v).
Proof.
  intros [Hm Hsz Hfull] p1. destruct (expire_all now p Hm) as (Hm1 & Hl1 & Hs1 & Hlive1). fold p1 in Hm1, Hl1, Hs1, Hlive1.
  assert (orphans p1 = unexpired now p) as E1.
  { apply map_eq. intros h. apply option_eq. intros o. by rewrite Hl1, unexpired_lookup. }
  pose proof (unexpired_size now p) as Hsz1. rewrite <-E1 in Hsz1 |- *.
  destruct (Z.ltb_spec maxOrphanBlocks (Z.of_nat (size (orphans p1)) + 1)) as [Hbig|Hsmall].
  - assert (orphans p1 ≠ ∅) as Hne1 by (intros E0; rewrite E0, map_size_empty in Hbig; unfold maxOrphanBlocks in Hbig; lia).
    destruct (Hs1 Hne1) as [old Eold]. rewrite Eold. exists (set_oldest None (removeOrphanBlock old p1)), (Some old). split; [done|].
    assert (maps_ok (removeOrphanBlock old p1)) as Hmr by (apply remove_maps; [by apply (pool_oldest p1)|done]).
    destruct (expire_loop_oldest now _ p old Eold) as (Hwhere & _ & Hleast). pose proof (remove_size old p1) as Hr.
    split; [by apply set_oldest_maps|]. split; [done|]. split; [|split; [done|split; [split; [done|lia]|split]]].
    + cbn [set_oldest orphans]. destruct (decide (maxOrphanBlocks < Z.of_nat (size (orphans p1)))) as [Hmax|]; [|lia].
      pose proof (remove_live_size old p1 (Hlive1 ltac:(lia) (Hfull ltac:(lia)) old Eold)). lia.
    + intros v [= <-] k o Ho. apply Hl1 in Ho as [Ho He]. apply (Hleast k); [by apply map_order_in|done].
    + intros Hin Hle. assert (orphans p1 = orphans p) as Esame.
      { apply map_subseteq_size_eq; [|lia]. apply map_subseteq_spec. by intros h o [? _]%Hl1. }
      assert (orphans p1 !! ob_hash old = Some old) as Ho.
      { rewrite Esame. destruct Hwhere as [Ho|(h & Ho%map_order_in & _)]; [by apply Hin|]. by rewrite (proj1 (pool_hash p Hm h old Ho)). }
      pose proof (remove_live_size old p1 ltac:(eauto)). split; [cbn [set_oldest orphans]; lia|by intros v [= <-]].
  - exists p1, None. split; [done|]. split; [done|]. split; [done|]. split; [lia|]. split; [lia|]. split; [split; [lia|done]|]. split; [done|].
    intros _ _. split; [lia|done].
Qed.

Lemma addOrphanBlock_ok {E} now block p :
  pool_ok p → B block → orphans p !! MsgBlock_BlockHash block = None →
  ∃ p' victim, addOrphanBlock (E:=E) now block p = Ok p' ∧ pool_ok p' ∧
    orphans p' = <[MsgBlock_BlockHash block := mkOrphan block (now + Hour)]> (spared victim (unexpired now p)) ∧
    (victim = None ↔ Z.of_nat (size (unexpired now p)) < maxOrphanBlocks) ∧
    (∀ v, victim = Some v → ∀ k o, unexpired now p !! k = Some o → ob_expiration v <= ob_expiration o) ∧
    (oldest_in p → Z.of_nat (size (orphans p)) <= maxOrphanBlocks →
      Z.of_nat (size (orphans p')) <= maxOrphanBlocks ∧ ∀ v, victim = Some v → unexpired now p !! ob_hash v = Some v).
Proof.
  intros Hp HBb Hfresh. unfold addOrphanBlock. cbv zeta.
  destruct (make_room (E:=E) now p Hp) as (p2 & victim & E2 & Hm2 & El2 & Hsz2 & Hnone2 & Hv & Hleast & Hgood).
  rewrite E2. cbn [mbind result_bind]. clear E2.
  assert (orphans p2 !! MsgBlock_BlockHash block = None) as Hfresh2.
  { destruct (orphans p2 !! MsgBlock_BlockHash block) as [o|] eqn:Eo; [|done].
    assert (unexpired now p !! MsgBlock_BlockHash block = Some o) as [Ex _]%unexpired_lookup; [|congruence].
    rewrite El2 in Eo. by apply spared_lookup in Eo. }
  eexists _, victim. split; [done|]. rewrite <-El2. assert (∀ x, size (<[MsgBlock_BlockHash block:=x]> (orphans p2)) = S (size (orphans p2))) as Hsz3
    by (intros x; by rewrite map_size_insert_None).
  split; [constructor; cbn [orphans]; rewrite ?Hsz3|].
  - by apply add_maps.
  - lia.
  - intros Hmax o Eo. cbn [oldestOrphan] in Eo. rewrite Hnone2 in Eo by lia. done.
  - cbn [orphans]. split; [done|]. split; [done|]. split; [done|]. intros Hin Hle. destruct (Hgood Hin Hle) as [Hlt Hvic]. rewrite Hsz3. split; [lia|done].
Qed.

Lemma emptyPool_ok : pool_ok emptyPool.
Proof.
  constructor.
  - constructor; cbn [emptyPool orphans prevOrphans oldestOrphan].
    + intros h o E. by rewrite lookup_empty in E.
    + intros pr l E. by rewrite lookup_empty in E.
    + intros h o E. by rewrite lookup_empty in E.
    + intros o [=].
  - cbn [emptyPool orphans]. rewrite map_size_empty. unfold maxOrphanBlocks. lia.
  - intros _ o [=].
Qed.

Lemma removeOrphanBlock_ok o p :
  pool_ok p → orphans p !! ob_hash o = Some o →
  pool_ok (removeOrphanBlock o p) ∧ orphans (removeOrphanBlock o p) = delete (ob_hash o) (orphans p).
Proof.
  intros [Hm Hsz Hfull] Ho. split; [|done]. pose proof (remove_live_size o p ltac:(eauto)) as Hs. constructor.
  - apply remove_maps; [by apply (pool_hash p Hm (ob_hash o))|done].
  - lia.
  - lia.
Qed.
End pool.

(** ** Properties *)

(** C27 The pool of orphans stays consistent, and a new orphan costs at most the
    oldest one.  In a consistent pool the map by hash and the lists by parent hold
    the same orphans.  Adding a new orphan does not panic and keeps the pool
    consistent; it holds then exactly the new one and those that had not expired,
    less a victim if and only if they were as many as the limit; and the victim
    expires no later than any of them.  In a pool within the limit whose pointer
    is at one of its orphans, the victim is one of them, and the pool stays within
    the limit.  In general the limit can be exceeded by one, since the
    pointer can be at an orphan that has left ([orphan_pool_exceeds_limit]).
    Removing an orphan removes it, and nothing else, from both maps. *)
Theorem orphan_pool_spec `{HashFns} `{!MapOrder bytes orphanBlock} B now block p :
  (∀ m m', B m → B m' → MsgBlock_BlockHash m = MsgBlock_BlockHash m' →
    bh_PrevBlock (mh_BlockHeader (mb_MsgHeader m)) = bh_PrevBlock (mh_BlockHeader (mb_MsgHeader m'))) →
  pool_ok B p →
  (B block → orphans p !! MsgBlock_BlockHash block = None →
   ∃ p' victim, addOrphanBlock (E:=Empty_set) now block p = Ok p' ∧ pool_ok B p' ∧
     orphans p' = <[MsgBlock_BlockHash block := mkOrphan block (now + Hour)]> (spared victim (unexpired now p)) ∧
     (victim = None ↔ Z.of_nat (size (unexpired now p)) < maxOrphanBlocks) ∧
     (∀ v, victim = Some v → ∀ k o, unexpired now p !! k = Some o → ob_expiration v <= ob_expiration o) ∧
     (oldest_in p → Z.of_nat (size (orphans p)) <= maxOrphanBlocks →
       Z.of_nat (size (orphans p')) <= maxOrphanBlocks ∧ ∀ v, victim = Some v → unexpired now p !! ob_hash v = Some v)) ∧
  (∀ o, orphans p !! ob_hash o = Some o →
    pool_ok B (removeOrphanBlock o p) ∧ orphans (removeOrphanBlock o p) = delete (ob_hash o) (orphans p)).
Proof.
  intros HB Hp. split; [intros; by apply addOrphanBlock_ok|intros; by apply removeOrphanBlock_ok].
Qed.

(** ** Examples *)

#[local] Existing Instance toy_hashes.

Definition map_list_order : MapOrder bytes orphanBlock := {| map_order m := map_to_list m; map_order_perm m := reflexivity _ |}.
#[local] Existing Instance map_list_order.

Definition demo_orphan (i : Z) : MsgBlock :=
  mkMsgBlock (mkMsgHeader None (mkBlockHeader i (replicate 32 x09) (replicate 32 x00) 0 0 (replicate 32 x00))) [].

Fixpoint add_orphans (n : nat) (from : Z) (p : OrphanPool) : option OrphanPool :=
  match n with
  | O => Some p
  | S n =>
      if bool_decide (is_Some (orphans p !! MsgBlock_BlockHash (demo_orphan from))) then None
      else match addOrphanBlock (E:=Empty_set) from (demo_orphan from) p with Ok p => add_orphans n (from + 1) p | _ => None end
  end.

(** A full pool whose oldest orphan found its parent takes two more: the second
    one evicts the orphan that is no longer there. *)
Lemma orphan_pool_exceeds_limit :
  ∃ p p', add_orphans 25 1 emptyPool = Some p ∧
    add_orphans 2 26 (removeOrphanBlock (mkOrphan (demo_orphan 1) (1 + Hour)) p) = Some p' ∧
    Z.of_nat (size (orphans p')) = maxOrphanBlocks + 1.
Proof.
  assert (match add_orphans 25 1 emptyPool with
    | Some p =>
        match add_orphans 2 26 (removeOrphanBlock (mkOrphan (demo_orphan 1) (1 + Hour)) p) with
        | Some p' => Z.of_nat (size (orphans p')) =? maxOrphanBlocks + 1
        | None => false
        end
    | None => false
    end = true) as H by (vm_compute; reflexivity).
  destruct (add_orphans 25 1 emptyPool) as [p|] eqn:E1; [|discriminate].
  destruct (add_orphans 2 26 _) as [p'|] eqn:E2; [|discriminate].
  exists p, p'. exact (conj eq_refl (conj E2 (proj1 (Z.eqb_eq _ _) H))).
Qed.

Definition is_demo (m : MsgBlock) : Prop := ∃ i, m = demo_orphan i.

Lemma is_demo_prev m m' : is_demo m → is_demo m' → MsgBlock_BlockHash m = MsgBlock_BlockHash m' →
  bh_PrevBlock (mh_BlockHeader (mb_MsgHeader m)) = bh_PrevBlock (mh_BlockHeader (mb_MsgHeader m')).
Proof. by intros [i ->] [j ->] _. Qed.

Lemma add_orphans_ok n from p p' : pool_ok is_demo p → add_orphans n from p = Some p' → pool_ok is_demo p'.
Proof.
  revert from p. induction n as [|n IH]; intros from p Hp; cbn [add_orphans]; [by intros [= <-]|].
  case_bool_decide as Hn; [done|]. apply eq_None_not_Some in Hn.
  destruct (addOrphanBlock_ok (E:=Empty_set) is_demo is_demo_prev from (demo_orphan from) p Hp ltac:(by eexists) Hn) as (q & v & E & Hq & _).
  rewrite E. by apply IH.
Qed.

(** A pool as full as can be, as [addOrphanBlock] leaves it. *)
Definition full_pool : option OrphanPool := add_orphans 25 1 emptyPool.

Definition pool_ready (now : Z) (block : MsgBlock) (p : OrphanPool) : bool :=
  bool_decide (orphans p !! MsgBlock_BlockHash block = None) && (maxOrphanBlocks <=? Z.of_nat (size (unexpired now p))).

Lemma full_pool_ready : match full_pool with Some p => pool_ready 30 (demo_orphan 26) p | None => false end = true.
Proof. vm_compute. reflexivity. Qed.

(** A full pool takes another orphan; the oldest one leaves. *)
Lemma orphan_pool_spec_witness :
  ∃ p p' v, full_pool = Some p ∧ addOrphanBlock (E:=Empty_set) 30 (demo_orphan 26) p = Ok p' ∧ pool_ok is_demo p' ∧
    orphans p' = <[MsgBlock_BlockHash (demo_orphan 26) := mkOrphan (demo_orphan 26) (30 + Hour)]> (delete (ob_hash v) (unexpired 30 p)).
Proof.
  pose proof full_pool_ready as Hr. destruct full_pool as [p|] eqn:Ep; [|discriminate Hr].
  apply andb_true_iff in Hr as [Hn%bool_decide_eq_true Hfull%Z.leb_le].
  destruct (proj1 (orphan_pool_spec is_demo 30 (demo_orphan 26) p is_demo_prev (add_orphans_ok _ _ _ _ (emptyPool_ok is_demo) Ep))
    (ex_intro _ 26 eq_refl) Hn) as (p' & [v|] & E & Hp' & El & Hv & _).
  - exists p, p', v. exact (conj eq_refl (conj E (conj Hp' El))).
  - exfalso. pose proof (proj1 Hv eq_refl). lia.
Defined.
