(* ===== verification/Checkpoints.v ===== *)
(** * Checkpoints (blockchain/checkpoints.go, chain.go)

    The state of [BlockChain] that takes blocks: the chain, the pool of orphans,
    the rows of the block index in the database, and what is known of the
    checkpoints; how the last checkpoint of the best chain is found and cached,
    and which blocks may become checkpoints. *)
From stdpp Require Import fin_maps strings list sorting.
From Stdlib Require Import Lia ZArith.
From S2P Require Import Prelude Wire MsgTx ScriptError Standard Crypto SigCache SigHash MsgBlock ChainParams Work BlockIndex RuleError TxRules Compress UtxoView Ledger ConnectBlock UtxoStore SizeHelper UtxoCache UtxoCacheSpec ChainView ChainIO ChainState BlockRules Orphans.

(** The parts of [BlockChain] beyond those of [Chain]. *)
Record Node := mkNode {
  chain : Chain;
  pool : OrphanPool;
  nextCheckpoint : option Checkpoint;
  checkpointNode : option blockNode;
  checkpointsByHeight : gmap Z Checkpoint;
  headerRows : Bucket;
  vsizeRows : Bucket
}.

Definition set_chain (nd : Node) x : Node :=
  mkNode x (pool nd) (nextCheckpoint nd) (checkpointNode nd) (checkpointsByHeight nd) (headerRows nd) (vsizeRows nd).
Definition set_pool (nd : Node) x : Node :=
  mkNode (chain nd) x (nextCheckpoint nd) (checkpointNode nd) (checkpointsByHeight nd) (headerRows nd) (vsizeRows nd).
Definition set_checkpoint (nd : Node) next node : Node :=
  mkNode (chain nd) (pool nd) next node (checkpointsByHeight nd) (headerRows nd) (vsizeRows nd).

(** The loop of [New] that makes the map, and wants the heights to grow. *)
Fixpoint checkpoint_map (checkpoints : list Checkpoint) (prevCheckpointHeight : Z) (m : gmap Z Checkpoint) : result RuleErr (gmap Z Checkpoint) :=
  match checkpoints with
  | [] => Ok m
  | checkpoint :: checkpoints =>
      if cp_Height checkpoint <=? prevCheckpointHeight then Fail (assertError "blockchain.New checkpoints are not sorted by height")
      else checkpoint_map checkpoints (cp_Height checkpoint) (<[cp_Height checkpoint := checkpoint]> m)
  end.

Definition verifyCheckpoint (nd : Node) (height : Z) (hash : bytes) : bool :=
  if negb (HasCheckpoints (base (chain nd))) then true
  else
    match checkpointsByHeight nd !! height with
    | None => true
    | Some checkpoint => if negb (bool_decide (cp_Hash checkpoint = hash)) then false else true
    end.

(** The loop back over the checkpoints, from the one before position [i], for one
    that is on the best chain. *)
Fixpoint search_loop (i : nat) (checkpoints : list Checkpoint) (b : Chain) : option (nat * blockNode) :=
  match i with
  | O => None
  | S i =>
      match checkpoints !! i with
      | None => None
      | Some checkpoint =>
          match LookupNode (index b) (cp_Hash checkpoint) with
          | None => search_loop i checkpoints b
          | Some node => if negb (contains (bestChain b) node) then search_loop i checkpoints b else Some (i, node)
          end
      end
  end.

(** The loop back over the checkpoints for the position of a hash. *)
Fixpoint index_loop (i : nat) (checkpoints : list Checkpoint) (hash : bytes) : option nat :=
  match i with
  | O => None
  | S i =>
      match checkpoints !! i with
      | None => None
      | Some checkpoint => if bool_decide (cp_Hash checkpoint = hash) then Some i else index_loop i checkpoints hash
      end
  end.

Definition findPreviousCheckpoint : ST RuleErr Node (option blockNode) := λ nd,
  let b := chain nd in
  if negb (HasCheckpoints (base b)) then Ok (None, nd)
  else
    let checkpoints := ConnectBlock.checkpoints (base b) in
    match checkpointNode nd, nextCheckpoint nd with
    | None, None =>
        match search_loop (length checkpoints) checkpoints b with
        | Some (i, node) =>
            Ok (Some node, set_checkpoint nd (if bool_decide (i < length checkpoints - 1)%nat then checkpoints !! S i else None) (Some node))
        | None => Ok (None, set_checkpoint nd (checkpoints !! 0%nat) None)
        end
    | node, None => Ok (node, nd)
    | node, Some next =>
        match tip (bestChain b) with
        | None => Panic
        | Some t =>
            if height t <? cp_Height next then Ok (node, nd)
            else
              match LookupNode (index b) (cp_Hash next) with
              | None => Fail (assertError "findPreviousCheckpoint failed lookup of known good block node")
              | Some node =>
                  let checkpointIndex := index_loop (length checkpoints) checkpoints (cp_Hash next) in
                  let next :=
                    match checkpointIndex with
                    | Some i => if bool_decide (i < length checkpoints - 1)%nat then checkpoints !! S i else None
                    | None => None
                    end in
                  Ok (Some node, set_checkpoint nd next (Some node))
              end
        end
    end.

#[export] Instance Node_ChainCtx : ChainCtx Node blockNode := {|
  ctx_ChainParams nd := chainParams (base (chain nd));
  ctx_VerifyCheckpoint := verifyCheckpoint;
  ctx_FindPreviousCheckpoint := findPreviousCheckpoint
|}.

(** ** Candidates *)

Definition CheckpointConfirmations : Z := 2016.

Definition isNonstandardTransaction (tx : MsgTx) : bool :=
  existsb (λ txOut, match GetScriptClass (PkScript txOut) with NonStandardTy => true | _ => false end) (tx_TxOut tx).

(** The block with the height it was given. *)
Definition IsCheckpointCandidate `{HashFns} (block : MsgBlock) (blockHeight : Z) (nd : Node) : result string bool :=
  let b := chain nd in
  match LookupNode (index b) (MsgBlock_BlockHash block) with
  | None => Ok false
  | Some node =>
      if negb (contains (bestChain b) node) then Ok false
      else if negb (height node =? blockHeight) then Fail "passed block height does not match the main chain height"
      else
        match tip (bestChain b) with
        | None => Panic
        | Some t =>
            if i32 (height t - CheckpointConfirmations) <? height node then Ok false
            else
              match next (bestChain b) (Some node) with
              | None => Ok false
              | Some nextNode =>
                  match parent node with
                  | None => Ok false
                  | Some p =>
                      let curTime := bh_Timestamp (mh_BlockHeader (mb_MsgHeader block)) in
                      if (curTime <? timestamp p) || (timestamp nextNode <? curTime) then Ok false
                      else if existsb isNonstandardTransaction (mb_Transactions block) then Ok false
                      else Ok true
                  end
              end
        end
  end.

(** ** What the search finds *)

(** Heights grow from above 0. *)
Definition sorted_checkpoints (cs : list Checkpoint) : Prop :=
  StronglySorted Z.lt (cp_Height <$> cs) ∧ Forall (λ c, 0 < cp_Height c) cs.

Lemma checkpoint_map_ok cs prev m m' :
  checkpoint_map cs prev m = Ok m' → (∀ h, is_Some (m !! h) → h <= prev) →
  StronglySorted Z.lt (cp_Height <$> cs) ∧ Forall (λ c, prev < cp_Height c) cs ∧
  ∀ h cp, m' !! h = Some cp ↔ m !! h = Some cp ∨ cp ∈ cs ∧ cp_Height cp = h.
Proof.
  revert prev m. induction cs as [|c cs IH]; intros prev m; cbn [checkpoint_map fmap list_fmap].
  { intros [= <-] _. split; [constructor|]. split; [constructor|]. intros h cp. split; [by left|].
    intros [?|[?%elem_of_nil _]]; done. }
  destruct (Z.leb_spec (cp_Height c) prev) as [|Hlt]; [done|]. intros E Hm.
  destruct (IH _ _ E) as (Hs & Hf & Hl).
  { intros h [x [[<- _]|[_ Hx]]%lookup_insert_Some]; [lia|]. specialize (Hm h ltac:(eauto)). lia. }
  split; [constructor; [done|by apply Forall_fmap]|]. split.
  { constructor; [done|]. eapply Forall_impl; [exact Hf|]. cbn. lia. }
  intros h cp. rewrite Hl, elem_of_cons. split.
  - intros [[[<- <-]|[_ Hx]]%lookup_insert_Some|[Hin Eh]]; [right; auto|by left|right; auto].
  - intros [Hx|[[->|Hin] Eh]]; [|left; by rewrite <-Eh, lookup_insert_eq|by right].
    left. rewrite lookup_insert_ne; [done|]. intros <-. specialize (Hm _ ltac:(eauto)). lia.
Qed.

Lemma checkpoint_map_sorted cs m :
  checkpoint_map cs 0 ∅ = Ok m → sorted_checkpoints cs ∧ ∀ h cp, m !! h = Some cp ↔ cp ∈ cs ∧ cp_Height cp = h.
Proof.
  intros E. destruct (checkpoint_map_ok cs 0 ∅ m E) as (Hs & Hf & Hl); [by intros h [x ?%lookup_empty_Some]|].
  split; [done|]. intros h cp. rewrite Hl, lookup_empty. naive_solver.
Qed.

Lemma sorted_lt cs i j a b : sorted_checkpoints cs → cs !! i = Some a → cs !! j = Some b → (i < j)%nat → cp_Height a < cp_Height b.
Proof.
  intros [Hs _] Ha Hb Hij. revert i j Ha Hb Hij. induction cs as [|c cs IH]; intros i j Ha Hb Hij; [done|].
  cbn [fmap list_fmap] in Hs. apply StronglySorted_inv in Hs as [Hs Hf]. destruct j as [|j]; [lia|]. cbn in Hb.
  destruct i as [|i]; cbn in Ha; [|apply (IH Hs i j); [done|done|lia]].
  injection Ha as ->. rewrite Forall_fmap, Forall_forall in Hf. apply Hf. by eapply list_elem_of_lookup_2.
Qed.

Lemma sorted_same cs i j a b : sorted_checkpoints cs → cs !! i = Some a → cs !! j = Some b → cp_Height a = cp_Height b → i = j.
Proof.
  intros Hs Ha Hb E. destruct (Nat.lt_total i j) as [Hij|[?|Hij]]; [|done|].
  - pose proof (sorted_lt cs i j a b Hs Ha Hb Hij). lia.
  - pose proof (sorted_lt cs j i b a Hs Hb Ha Hij). lia.
Qed.

Section spec.
(** The nodes of the index, and checkpoints that are real: at the height of one
    there is no other node, and its hash is at no other height. *)
Context (T : blockNode → Prop) (HT : is_tree T) (Hmax : ∀ n, T n → height n < 2 ^ 31 - 1).
Context (cs : list Checkpoint) (Hcs : sorted_checkpoints cs).
Context (Hat : ∀ n cp, T n → cp ∈ cs → height n = cp_Height cp → hash n = cp_Hash cp).
Context (Hreal : ∀ n cp, T n → cp ∈ cs → hash n = cp_Hash cp → height n = cp_Height cp).

Definition index_known (bi : blockIndex) : Prop := ∀ h n, LookupNode bi h = Some n ↔ T n ∧ hash n = h.

(** What is cached is a checkpoint on the branch of the tip and the next one. *)
Definition cached (t : blockNode) (next : option Checkpoint) (node : option blockNode) : Prop :=
  match node, next with
  | None, None => True
  | None, Some cp => cs !! 0%nat = Some cp
  | Some k, next => ∃ i ci, cs !! i = Some ci ∧ hash k = cp_Hash ci ∧ k ∈ branch t ∧ next = cs !! S i
  end.

(** The last checkpoint of a branch. *)
Definition last_checkpoint (t : blockNode) (r : option blockNode) : Prop :=
  match r with
  | None => ∀ n cp, n ∈ branch t → cp ∈ cs → hash n ≠ cp_Hash cp
  | Some k => k ∈ branch t ∧ (∃ cp, cp ∈ cs ∧ hash k = cp_Hash cp) ∧
      ∀ n cp, n ∈ branch t → cp ∈ cs → hash n = cp_Hash cp → height n <= height k
  end.

Lemma branch_at t h : T t → 0 <= h <= height t → ∃ n, T n ∧ n ∈ branch t ∧ height n = h.
Proof.
  intros Ht Hh. pose proof (tree_wf T HT t Ht) as Hw. pose proof (length_branch t Hw) as El. unfold zlen in El.
  destruct (lookup_lt_is_Some_2 (branch t) (Z.to_nat h)) as [n Hn]; [lia|]. exists n.
  split; [apply (branch_T T HT n t Ht); by eapply list_elem_of_lookup_2|]. split; [by eapply list_elem_of_lookup_2|].
  rewrite branch_lookup in Hn by done. destruct (decide _); [|done]. destruct (back_wf _ _ _ Hw Hn) as [_ ->]. lia.
Qed.

(** A branch that is high enough has the checkpoint. *)
Lemma branch_checkpoint t cp : T t → cp ∈ cs → cp_Height cp <= height t →
  ∃ n, T n ∧ n ∈ branch t ∧ hash n = cp_Hash cp ∧ height n = cp_Height cp.
Proof.
  intros Ht Hcp Hle. destruct Hcs as [_ Hpos]. rewrite Forall_forall in Hpos. pose proof (Hpos cp Hcp).
  destruct (branch_at t (cp_Height cp) Ht ltac:(lia)) as (n & Hn & Hin & Eh). exists n. auto.
Qed.

Lemma cs_in i (cp : Checkpoint) : cs !! i = Some cp → cp ∈ cs.
Proof. intros Hi. by eapply list_elem_of_lookup_2. Qed.

(** A node of the branch with the [i]th checkpoint, the next not reached. *)
Lemma last_at t i ci k :
  T t → cs !! i = Some ci → hash k = cp_Hash ci → k ∈ branch t →
  (∀ cn, cs !! S i = Some cn → height t < cp_Height cn) → last_checkpoint t (Some k).
Proof.
  intros Ht Hi Ek Hk Hnext. split; [done|]. split; [exists ci; by apply cs_in in Hi|].
  intros n cp Hn Hcp En. pose proof (branch_T T HT n t Ht Hn) as HTn. pose proof (branch_T T HT k t Ht Hk) as HTk.
  rewrite (Hreal n cp HTn Hcp En), (Hreal k ci HTk (cs_in _ _ Hi) Ek).
  pose proof (elem_of_branch_height n t (tree_wf T HT t Ht) Hn) as [_ Hr]. rewrite (Hreal n cp HTn Hcp En) in Hr.
  apply list_elem_of_lookup in Hcp as [j Hj]. destruct (Nat.lt_total i j) as [Hij|[->|Hij]].
  - destruct (lookup_lt_is_Some_2 cs (S i)) as [cn Hcn]; [apply lookup_lt_Some in Hj; lia|]. specialize (Hnext cn Hcn).
    destruct (decide (j = S i)) as [->|]; [assert (cn = cp) as -> by congruence; lia|].
    pose proof (sorted_lt cs (S i) j cn cp Hcs Hcn Hj ltac:(lia)). lia.
  - assert (cp = ci) as -> by congruence. lia.
  - pose proof (sorted_lt cs j i cp ci Hcs Hj Hi Hij). lia.
Qed.

Lemma index_loop_ok i h : match index_loop i cs h with
  | Some j => (j < i)%nat ∧ ∃ cp, cs !! j = Some cp ∧ cp_Hash cp = h
  | None => (i <= length cs)%nat → ∀ j cp, (j < i)%nat → cs !! j = Some cp → cp_Hash cp ≠ h
  end.
Proof.
  induction i as [|i IH]; cbn [index_loop]; [intros _ j cp Hj; lia|].
  destruct (cs !! i) as [ci|] eqn:Ei.
  - case_bool_decide as Eh; [split; [lia|eauto]|]. destruct (index_loop i cs h) as [j|].
    + destruct IH as [? ?]. split; [lia|done].
    + intros Hlen j cp Hj Hcp. destruct (decide (j = i)) as [->|]; [congruence|]. apply (IH ltac:(lia) j); [lia|done].
  - intros Hlen. apply lookup_ge_None in Ei. lia.
Qed.

Lemma search_loop_ok b t i :
  index_known (index b) → view_of (bestChain b) (Some t) → T t → (i <= length cs)%nat →
  match search_loop i cs b with
  | Some (j, k) => (j < i)%nat ∧ ∃ cj, cs !! j = Some cj ∧ hash k = cp_Hash cj ∧ k ∈ branch t ∧
      ∀ l cl, (j < l < i)%nat → cs !! l = Some cl → height t < cp_Height cl
  | None => ∀ l cl, (l < i)%nat → cs !! l = Some cl → height t < cp_Height cl
  end.
Proof.
  intros Hix Hv Ht. induction i as [|i IH]; cbn [search_loop]; [intros _ l cl Hl; lia|]. intros Hlen.
  destruct (lookup_lt_is_Some_2 cs i) as [ci Hi]; [lia|]. rewrite Hi. specialize (IH ltac:(lia)).
  assert (Hskip : (∀ k, LookupNode (index b) (cp_Hash ci) = Some k → k ∉ branch t) →
    match search_loop i cs b with
    | Some (j, k) => (j < S i)%nat ∧ ∃ cj, cs !! j = Some cj ∧ hash k = cp_Hash cj ∧ k ∈ branch t ∧
        ∀ l cl, (j < l < S i)%nat → cs !! l = Some cl → height t < cp_Height cl
    | None => ∀ l cl, (l < S i)%nat → cs !! l = Some cl → height t < cp_Height cl
    end).
  { intros Hno. assert (height t < cp_Height ci) as Hlt.
    { destruct (Z.lt_ge_cases (height t) (cp_Height ci)) as [|Hge]; [done|].
      destruct (branch_checkpoint t ci Ht (cs_in _ _ Hi) Hge) as (n & Hn & Hin & En & _).
      exfalso. apply (Hno n); [by apply Hix|done]. }
    destruct (search_loop i cs b) as [[j k]|].
    - destruct IH as (Hj & cj & Hcj & Ek & Hk & Hl). split; [lia|]. exists cj. split; [done|]. split; [done|]. split; [done|].
      intros l cl Hr Hcl. destruct (decide (l = i)) as [->|]; [congruence|]. apply (Hl l); [lia|done].
    - intros l cl Hr Hcl. destruct (decide (l = i)) as [->|]; [congruence|]. apply (IH l); [lia|done]. }
  destruct (LookupNode (index b) (cp_Hash ci)) as [k|] eqn:Ek; [|by apply Hskip].
  apply Hix in Ek as [HTk Ehk]. destruct (contains (bestChain b) k) eqn:Ec; cbn [negb].
  - apply (contains_view T HT (bestChain b) t Hv Ht (Hmax t Ht) k HTk) in Ec. split; [lia|]. exists ci. split; [done|].
    split; [done|]. split; [done|]. intros l cl Hr. lia.
  - apply Hskip. intros k' [= <-]. by apply (contains_false T HT (bestChain b) t Hv Ht (Hmax t Ht) k HTk).
Qed.

(** The next checkpoint after a position. *)
Lemma next_of i : (if bool_decide (i < length cs - 1)%nat then cs !! S i else None) = cs !! S i.
Proof. case_bool_decide; [done|]. symmetry. apply lookup_ge_None. lia. Qed.

(** The next checkpoint, once the tip has reached its height. *)
Lemma reached b t j cn :
  index_known (index b) → T t → cs !! j = Some cn → cp_Height cn <= height t →
  ∃ k, LookupNode (index b) (cp_Hash cn) = Some k ∧ k ∈ branch t ∧ hash k = cp_Hash cn ∧
    index_loop (length cs) cs (cp_Hash cn) = Some j.
Proof.
  intros Hix Ht Hj Hle. destruct (branch_checkpoint t cn Ht (cs_in _ _ Hj) Hle) as (k & HTk & Hk & Ek & Eh).
  exists k. split; [by apply Hix|]. split; [done|]. split; [done|].
  pose proof (index_loop_ok (length cs) (cp_Hash cn)) as Hl. destruct (index_loop (length cs) cs (cp_Hash cn)) as [l|].
  - destruct Hl as (_ & cp & Hcp & Ecp). f_equal. apply (sorted_same cs l j cp cn Hcs Hcp Hj).
    rewrite <-Eh. symmetry. apply (Hreal k cp HTk (cs_in _ _ Hcp)). congruence.
  - exfalso. apply (Hl ltac:(lia) j cn); [by eapply lookup_lt_Some|done|done].
Qed.

(** What a search answers and leaves: what is then cached, no lower than before,
    and the last checkpoint of the branch if the next one is not reached. *)
Definition found (nd : Node) (t : blockNode) (res : result RuleErr (option blockNode * Node)) : Prop :=
  ∃ r next, res = Ok (r, set_checkpoint nd next r) ∧ cached t next r ∧
    (∀ k, checkpointNode nd = Some k → ∃ k', r = Some k' ∧ height k <= height k') ∧
    ((∀ cn, next = Some cn → height t < cp_Height cn) → last_checkpoint t r).

Lemma found_cached nd t k i ci next :
  T t → cs !! i = Some ci → hash k = cp_Hash ci → k ∈ branch t → next = cs !! S i →
  (∀ k0, checkpointNode nd = Some k0 → height k0 <= height k) →
  found nd t (Ok (Some k, set_checkpoint nd next (Some k))).
Proof.
  intros Ht Hi Ek Hk En Hmono. exists (Some k), next. split; [done|]. split; [by exists i, ci|].
  split; [intros k0 E0; exists k; split; [done|by apply Hmono]|].
  intros Hnext. apply (last_at t i ci k); try done. intros cn E. apply Hnext. congruence.
Qed.

Lemma found_none nd t next : cs !! 0%nat = next → checkpointNode nd = None → T t →
  found nd t (Ok (None, set_checkpoint nd next None)).
Proof.
  intros E0 Hno Ht. exists None, next. split; [done|].
  split; [unfold cached; by destruct next|]. split; [by rewrite Hno|]. intros Hnext n cp Hn Hcp En.
  pose proof (branch_T T HT n t Ht Hn) as HTn. pose proof (Hreal n cp HTn Hcp En) as Eh.
  pose proof (elem_of_branch_height n t (tree_wf T HT t Ht) Hn) as [_ Hr].
  destruct (lookup_lt_is_Some_2 cs 0) as [c0 H0]; [destruct cs; [by apply not_elem_of_nil in Hcp|cbn; lia]|].
  specialize (Hnext c0 ltac:(congruence)). apply list_elem_of_lookup in Hcp as [[|j] Hj].
  - assert (cp = c0) as -> by congruence. lia.
  - pose proof (sorted_lt cs 0 (S j) c0 cp Hcs H0 Hj ltac:(lia)). lia.
Qed.

(** The search that goes on to the checkpoint at a position. *)
Lemma found_advance nd t j cn :
  index_known (index (chain nd)) → T t → cs !! j = Some cn → cp_Height cn <= height t →
  (∀ k0, checkpointNode nd = Some k0 → height k0 <= cp_Height cn) →
  found nd t (match LookupNode (index (chain nd)) (cp_Hash cn) with
    | None => Fail (assertError "findPreviousCheckpoint failed lookup of known good block node")
    | Some node =>
        let checkpointIndex := index_loop (length cs) cs (cp_Hash cn) in
        let next := match checkpointIndex with
          | Some i => if bool_decide (i < length cs - 1)%nat then cs !! S i else None
          | None => None end in
        Ok (Some node, set_checkpoint nd next (Some node))
    end).
Proof.
  intros Hix Ht Hj Hle Hmono. destruct (reached (chain nd) t j cn Hix Ht Hj Hle) as (k & -> & Hk & Ek & ->).
  cbv beta iota zeta. rewrite next_of. apply (found_cached nd t k j cn); try done. intros k0 E0.
  rewrite (Hreal k cn (branch_T T HT k t Ht Hk) (cs_in _ _ Hj) Ek). by apply Hmono.
Qed.

Lemma findPreviousCheckpoint_ok nd t :
  ConnectBlock.checkpoints (base (chain nd)) = cs → index_known (index (chain nd)) →
  view_of (bestChain (chain nd)) (Some t) → T t → cached t (nextCheckpoint nd) (checkpointNode nd) →
  found nd t (findPreviousCheckpoint nd).
Proof.
  intros Ecs Hix Hv Ht Hc. assert (set_checkpoint nd (nextCheckpoint nd) (checkpointNode nd) = nd) as Esame by by destruct nd.
  unfold findPreviousCheckpoint. cbv zeta. unfold HasCheckpoints. rewrite Ecs, (tip_view _ _ Hv). unfold cached in Hc.
  destruct (Z.ltb_spec 0 (zlen cs)) as [Hne|He]; cbn [negb].
  2: { assert (cs = []) as E0 by (apply zlen_0; pose proof (zlen_nonneg cs); lia).
       destruct (checkpointNode nd) as [k|] eqn:Ek; [destruct Hc as (i & ci & Hi & _); by rewrite E0 in Hi|].
       exists None, (nextCheckpoint nd). rewrite Esame. split; [done|]. split; [done|]. split; [by rewrite Ek|].
       intros _ n cp _ Hin. rewrite E0 in Hin. by apply elem_of_nil in Hin. }
  destruct (checkpointNode nd) as [k|] eqn:Ek.
  - destruct Hc as (i & ci & Hi & Ehk & Hk & En). pose proof (branch_T T HT k t Ht Hk) as HTk.
    pose proof (found_cached nd t k i ci (nextCheckpoint nd) Ht Hi Ehk Hk En) as Hsame. rewrite Esame, Ek in Hsame.
    specialize (Hsame ltac:(by intros k0 [= <-])).
    destruct (nextCheckpoint nd) as [cn|]; [|done].
    destruct (Z.ltb_spec (height t) (cp_Height cn)) as [Hlt|Hge]; [done|]. apply (found_advance nd t (S i)); try done.
    rewrite Ek. intros k0 [= <-]. rewrite (Hreal k ci HTk (cs_in _ _ Hi) Ehk).
    pose proof (sorted_lt cs i (S i) ci cn Hcs Hi (eq_sym En) ltac:(lia)). lia.
  - destruct (nextCheckpoint nd) as [cn|] eqn:En.
    + destruct (Z.ltb_spec (height t) (cp_Height cn)) as [Hlt|Hge]; [|apply (found_advance nd t 0); [done..|by rewrite Ek]].
      pose proof (found_none nd t (Some cn) Hc Ek Ht) as Hsame. by rewrite Esame in Hsame.
    + pose proof (search_loop_ok (chain nd) t (length cs) Hix Hv Ht ltac:(lia)) as Hl.
      destruct (search_loop (length cs) cs (chain nd)) as [[j k]|].
      * destruct Hl as (Hj & cj & Hcj & Ehk & Hk & _). rewrite next_of. apply (found_cached nd t k j cj); [done..|by rewrite Ek].
      * by apply found_none.
Qed.
End spec.

(** Checkpoints that fit the blocks there are. *)
Record real_checkpoints (T : blockNode → Prop) (cs : list Checkpoint) : Prop := {
  ck_sorted : sorted_checkpoints cs;
  ck_at n cp : T n → cp ∈ cs → height n = cp_Height cp → hash n = cp_Hash cp;
  ck_real n cp : T n → cp ∈ cs → hash n = cp_Hash cp → height n = cp_Height cp
}.

(** ** Properties *)

(** C25 [findPreviousCheckpoint] finds a checkpoint of the best chain.  With
    checkpoints that fit the known blocks, what is cached stays a checkpoint on
    the branch of the tip with the one after it, the search does not fail, and
    its answer is what is then cached, no lower than what was, and the last
    checkpoint of the branch, unless the tip has already reached the one after it: a search goes on by one
    checkpoint at most (see [findPreviousCheckpoint_lags]). *)
Theorem findPreviousCheckpoint_spec T cs nd t :
  is_tree T → (∀ n, T n → height n < 2 ^ 31 - 1) → real_checkpoints T cs →
  ConnectBlock.checkpoints (base (chain nd)) = cs → index_known T (index (chain nd)) →
  view_of (bestChain (chain nd)) (Some t) → T t → cached cs t (nextCheckpoint nd) (checkpointNode nd) →
  found cs nd t (findPreviousCheckpoint nd).
Proof. intros HT Hmax [Hs Ha Hr]. by apply (findPreviousCheckpoint_ok T). Qed.

(** ** Examples *)

(** Three blocks on a first one, the first two of them checkpoints. *)
Definition ck_list : list Checkpoint := [mkCheckpoint 1 (hash (demo_chain 1)); mkCheckpoint 2 (hash (demo_chain 2))].

#[local] Existing Instance toy_hashes.

Definition ck_chain : Chain :=
  mkChain (mkBlockChain MainNetParams zeroHash ck_list (newUtxoCache (mkCacheDB ∅ None) 100000) None (NewHashCache 10))
    (mkBlockIndex (list_to_map ((λ k, (hash (demo_chain k), demo_chain k)) <$> [0; 1; 2; 3]%nat)) ∅ ∅)
    (mkChainView (Some <$> branch (demo_chain 3))) (mkBestState [] 3 0 1 1 0 0) (mkChainDB ∅ (mkIndexBuckets ∅ ∅) [] ∅ ∅) 0.

Definition ck_node (next : option Checkpoint) (node : option blockNode) : Node :=
  mkNode ck_chain emptyPool next node (list_to_map ((λ c, (cp_Height c, c)) <$> ck_list)) ∅ ∅.

Lemma ck_nodes n : demo_tree 3 n → n ∈ demo_chain <$> [0; 1; 2; 3]%nat.
Proof. intros (j & Hj & ->)%demo_tree_hash. apply list_elem_of_fmap_2. repeat (destruct j as [|j]; [set_solver|]). lia. Qed.

Lemma ck_index : index_known (demo_tree 3) (index ck_chain).
Proof.
  intros h n. unfold LookupNode. cbn [index ck_chain bi_index]. rewrite <-elem_of_list_to_map by (apply (bool_decide_unpack _); by vm_compute).
  split.
  - intros (j & [= -> ->] & Hj)%list_elem_of_fmap. split; [|done]. apply (demo_tree_mono j 3); [|by apply demo_tree_ok; set_solver by lia].
    set_solver by lia.
  - intros [(j & -> & Hj)%ck_nodes%list_elem_of_fmap <-]. by apply (list_elem_of_fmap_2 (λ k, (hash (demo_chain k), demo_chain k))).
Qed.

Lemma ck_fits : real_checkpoints (demo_tree 3) ck_list.
Proof.
  assert (∀ n cp, demo_tree 3 n → cp ∈ ck_list → height n = cp_Height cp ↔ hash n = cp_Hash cp) as Hall.
  { intros n cp (j & -> & Hj)%ck_nodes%list_elem_of_fmap Hcp.
    assert (cp_Height cp = 1 ∧ cp_Hash cp = hash (demo_chain 1) ∨ cp_Height cp = 2 ∧ cp_Hash cp = hash (demo_chain 2)) as Hc
      by (repeat (apply elem_of_cons in Hcp as [->|Hcp]; [auto|]); by apply elem_of_nil in Hcp).
    assert (j < 100)%nat as Hlt by set_solver by lia. rewrite (proj2 (demo_chain_wf j Hlt)), demo_hash.
    destruct Hc as [[-> ->]|[-> ->]]; rewrite demo_hash; (split; [by intros ->|]);
      intros E%le_put_32_inj; unfold is_u32; lia. }
  constructor; [|intros; by apply Hall|intros; by apply Hall].
  split; [|by repeat constructor]. repeat constructor.
Qed.

Lemma findPreviousCheckpoint_spec_witness : found ck_list (ck_node None None) (demo_chain 3) (findPreviousCheckpoint (ck_node None None)).
Proof.
  apply (findPreviousCheckpoint_spec (demo_tree 3) ck_list (ck_node None None) (demo_chain 3)).
  - by apply demo_tree_ok; lia.
  - intros n (j & -> & Hj)%ck_nodes%list_elem_of_fmap. rewrite (proj2 (demo_chain_wf j ltac:(set_solver by lia))). set_solver by lia.
  - exact ck_fits.
  - done.
  - exact ck_index.
  - done.
  - by apply demo_tree_ok; lia.
  - done.
Defined.

(** Where no block was taken between the two checkpoints, as after a
    reorganization past both, the first is found although the second is on the
    best chain. *)
Lemma findPreviousCheckpoint_lags :
  ∃ nd', findPreviousCheckpoint (ck_node (ck_list !! 0%nat) None) = Ok (Some (demo_chain 1), nd') ∧
    contains (bestChain ck_chain) (demo_chain 2) = true.
Proof. eexists. split; [vm_compute; reflexivity|]. by vm_compute. Qed.
