(* ===== verification/ChainFrame.v ===== *)
(** * What moving the tip leaves alone

    Choosing the best chain changes the view, the coins, the statuses and the
    buckets of the main chain; the nodes of the index, the stored blocks and the
    checkpoints stay. *)
From stdpp Require Import fin_maps fin_sets strings.
From Stdlib Require Import Lia ZArith.
From S2P Require Import Prelude Wire MsgTx ScriptError Crypto SigCache SigHash Engine Work ChainParams BlockIndex RuleError TxRules Merkle Compress UtxoView Ledger ConnectBlock UtxoStore SizeHelper UtxoCache ChainView ChainIO ChainState.

(** A relation that the parts an operation may change respect: the cache, the
    statuses, the buckets other than the blocks, and the tip. *)
Class Frame (R : Chain → Chain → Prop) : Prop := {
  frame_preorder :: PreOrder R;
  frame_cache b s : R b (set_cache b s);
  frame_index b bi : bi_index bi = bi_index (index b) → R b (set_index b bi);
  frame_cdb b d : db_blocks d = db_blocks (cdb b) → R b (set_cdb b d);
  frame_tip b v st : is_u64 (bs_TotalTxns st) → R b (set_stateSnapshot (set_bestChain b v) st)
}.

Record same_frame (b b' : Chain) : Prop := {
  fr_checkpoints : ConnectBlock.checkpoints (base b') = ConnectBlock.checkpoints (base b);
  fr_index : bi_index (index b') = bi_index (index b);
  fr_blocks : db_blocks (cdb b') = db_blocks (cdb b);
  fr_prune : pruneTarget b' = pruneTarget b;
  fr_genesis : GenesisHash (base b') = GenesisHash (base b);
  fr_total : is_u64 (bs_TotalTxns (stateSnapshot b)) → is_u64 (bs_TotalTxns (stateSnapshot b'))
}.

#[export] Instance same_frame_frame : Frame same_frame.
Proof.
  split; [|by split..]. split; [done|]. intros ? ? ? [] []. split; [congruence..|auto].
Qed.

(** The cache of signatures stays. *)
Definition same_sigs (b b' : Chain) : Prop := bc_sigCache (base b') = bc_sigCache (base b).

#[export] Instance same_sigs_frame : Frame same_sigs.
Proof. unfold same_sigs. split; [|done..]. split; [done|]. intros ? ? ? -> ->. done. Qed.

(** An operation of a chain that prunes nothing. *)
Definition framed (R : Chain → Chain → Prop) {A} (m : ST RuleErr Chain A) : Prop :=
  ∀ b a b', pruneTarget b = 0 → m b = Ok (a, b') → R b b' ∧ pruneTarget b' = 0.

Section rules.
Context (R : Chain → Chain → Prop) `{!Frame R}.

Lemma framed_ret {A} (a : A) : framed R (mret a).
Proof. by intros b a' b' Hp [= _ <-]. Qed.
Lemma framed_get : framed R st_get.
Proof. by intros b a' b' Hp [= _ <-]. Qed.
Lemma framed_fail {A} e : framed R (st_fail e : ST RuleErr Chain A).
Proof. done. Qed.
Lemma framed_panic {A} : framed R ((λ _, Panic) : ST RuleErr Chain A).
Proof. done. Qed.
Lemma framed_lift {A} (r : result RuleErr A) : framed R (st_lift r).
Proof. intros b a b' Hp. unfold st_lift. by intros (x & _ & [= _ <-])%bind_ok. Qed.
Lemma framed_bind {A B} (m : ST RuleErr Chain A) (f : A → ST RuleErr Chain B) : framed R m → (∀ a, framed R (f a)) → framed R (m ≫= f).
Proof.
  intros Hm Hf b x b' Hp (a & b1 & E1 & E2)%st_bind_ok. destruct (Hm _ _ _ Hp E1) as [Hs Hp1].
  destruct (Hf a b1 x b' Hp1 E2) as [Hs2 Hp2]. split; [by etrans|done].
Qed.
Lemma framed_modify (f : Chain → Chain) : (∀ b, R b (f b) ∧ pruneTarget (f b) = pruneTarget b) → framed R (st_modify f).
Proof. intros Hf b a b' Hp [= _ <-]. destruct (Hf b) as [? ->]. done. Qed.
Lemma framed_on_index f : (∀ bi, bi_index (f bi) = bi_index bi) → framed R (on_index f).
Proof. intros Hf b a b' Hp [= _ <-]. split; [by apply frame_index|done]. Qed.
Lemma framed_on_cache {A} (m : ST RuleErr utxoCache A) : framed R (on_cache m).
Proof. intros b a b' Hp. unfold on_cache. intros ([x s] & _ & [= _ <-])%bind_ok. split; [apply frame_cache|done]. Qed.
Lemma framed_deref n : framed R (deref n).
Proof. intros b a b' Hp. unfold deref. destruct n; [by intros [= _ <-]|done]. Qed.
Lemma framed_flush_index : framed R flush_index.
Proof.
  intros b a b' Hp. unfold flush_index, flushToDB. case_bool_decide; intros [= _ <-]; (split; [|done]);
    (refine (transitivity (frame_index b _ _) (frame_cdb _ _ _)); done).
Qed.
End rules.

Create HintDb framed.
#[export] Hint Resolve framed_ret framed_get framed_fail framed_panic framed_lift framed_on_cache framed_deref framed_flush_index : framed.

(** Through binds and case distinctions. *)
Ltac framed_tac :=
  repeat first
    [ solve [eauto with framed typeclass_instances]
    | refine (framed_bind _ _ _ _ _); [|intros ?]
    | refine (framed_modify _ _ _); intros ?; split; [first [apply frame_cache|by apply frame_cdb|apply frame_tip, u64_range]|done]
    | refine (framed_on_index _ _ _); intros ?
    | match goal with |- framed _ (match ?x with _ => _ end) => destruct x end
    | progress cbv zeta ].

Section frame.
Context `{HashFns} `{Keys} `{!MapRange bytes sigCacheEntry} `{!MapRange bytes TxSigHashes}.
Context `{Log2Conv} `{PubKeyFormats} `{!MapOrder OutPoint (option UtxoEntry)} `{!BlockPruner} `{!UtxoSource utxoCache}.
Variable now : Z.

Section any.
Context (R : Chain → Chain → Prop) `{!Frame R}.

Lemma framed_cache_flush mode state : framed R (cache_flush now mode state).
Proof. intros b a b' Hp. unfold cache_flush. intros (s & _ & [= _ <-])%bind_ok. split; [apply frame_cache|done]. Qed.

Lemma framed_prune state : framed R (prune now state).
Proof. intros b a b' Hp. unfold prune. rewrite Hp. by intros [= _ <-]. Qed.

Hint Resolve framed_cache_flush framed_prune : framed.

Lemma framed_connectBlock n block stxos : framed R (connectBlock now n block stxos).
Proof. unfold connectBlock. framed_tac. Qed.

Lemma framed_disconnectBlock n block view : framed R (disconnectBlock now n block view).
Proof. unfold disconnectBlock. framed_tac. Qed.

Hint Resolve framed_connectBlock framed_disconnectBlock : framed.

Lemma framed_verify_detach l view : framed R (verify_detach l view).
Proof. revert view. induction l as [|n l IH]; intros view; cbn [verify_detach]; framed_tac. Qed.

Lemma marks_index bi (l : list blockNode) f : bi_index (foldl (λ bi n, SetStatusFlags bi n f) bi l) = bi_index bi.
Proof. revert bi. induction l as [|n l IH]; intros bi; [done|]. cbn [foldl]. by rewrite IH. Qed.

Lemma framed_reorg_detach l bs js view : framed R (reorg_detach now l bs js view).
Proof. revert bs js view. induction l as [|n l IH]; intros bs js view; cbn [reorg_detach]; framed_tac. Qed.

Lemma framed_connect_to_cache block : framed R (connect_to_cache block).
Proof. unfold connect_to_cache. framed_tac. Qed.

Hint Resolve framed_reorg_detach framed_connect_to_cache : framed.

Lemma framed_reorg_attach l bs : framed R (reorg_attach now l bs).
Proof. revert bs. induction l as [|n l IH]; intros bs; cbn [reorg_attach]; framed_tac. Qed.

Lemma framed_getReorganizeNodes n : framed R (getReorganizeNodes n).
Proof.
  intros b a b' Hp. unfold getReorganizeNodes. destruct (parent n) as [p|]; [|done].
  destruct (KnownInvalid _); [intros [= _ <-]; split; [by apply frame_index|done]|]. destruct (attach_loop _ _ _ _) as [bad l].
  destruct bad; [|by intros [= _ <-]]. intros [= _ <-]. split; [apply frame_index, marks_index|done].
Qed.

End any.

Hint Resolve framed_cache_flush framed_prune framed_connectBlock framed_disconnectBlock framed_verify_detach framed_reorg_detach framed_connect_to_cache framed_reorg_attach framed_getReorganizeNodes : framed.

Lemma checkConnectBlock_frame n block view stxos (b : @BlockChain utxoCache) r b' :
  checkConnectBlock n block view stxos b = Ok (r, b') →
  ConnectBlock.checkpoints b' = ConnectBlock.checkpoints b ∧ GenesisHash b' = GenesisHash b.
Proof.
  unfold checkConnectBlock. case_bool_decide; [done|]. case_bool_decide; cbn [negb]; [|done].
  intros ([v1 s1] & _ & Hk)%bind_ok. apply bind_ok in Hk as ([v2 s2] & _ & Hk). apply bind_ok in Hk as ([v3 x3] & _ & Hk).
  destruct (match LatestCheckpoint _ with Some _ => _ | None => _ end); [|by injection Hk as _ <-].
  apply bind_ok in Hk as ([sc hc] & _ & Hk). by injection Hk as _ <-.
Qed.

Lemma framed_try n block view : framed same_frame (try_checkConnectBlock n block view).
Proof.
  intros b a b' Hp. unfold try_checkConnectBlock.
  destruct (checkConnectBlock n block view None (base b)) as [[[v x] bs]|e|] eqn:E; [| |done].
  - intros [= _ <-]. apply checkConnectBlock_frame in E as [? ?]. split; [by split|done].
  - destruct (isRuleError e); [|done]. by intros [= _ <-].
Qed.

Hint Resolve framed_try : framed.

Lemma framed_verify_attach l view : framed same_frame (verify_attach l view).
Proof.
  revert view. induction l as [|n l IH]; intros view; cbn [verify_attach]; framed_tac.
  apply marks_index.
Qed.

Hint Resolve framed_verify_attach : framed.

Lemma framed_verify ds ats : framed same_frame (verifyReorganizationValidity ds ats).
Proof. unfold verifyReorganizationValidity. framed_tac. Qed.

Hint Resolve framed_verify : framed.

Lemma framed_reorganizeChain ds ats : framed same_frame (reorganizeChain now ds ats).
Proof. unfold reorganizeChain. framed_tac. Qed.

Hint Resolve framed_reorganizeChain : framed.

Lemma framed_connectBestChain n block flags : framed same_frame (connectBestChain now n block flags).
Proof. unfold connectBestChain. framed_tac. Qed.

Lemma connectBestChain_frame n block flags b r b' :
  pruneTarget b = 0 → connectBestChain now n block flags b = Ok (r, b') → same_frame b b'.
Proof. intros Hp E. by destruct (framed_connectBestChain n block flags b r b' Hp E). Qed.
End frame.

#[export] Hint Resolve framed_cache_flush framed_connectBlock framed_disconnectBlock framed_connect_to_cache framed_connectBestChain : framed.
