(* ===== verification/ChainTotal.v ===== *)
(** * Choosing the best chain always answers

    From a state at a tip [connectBestChain] returns, with or without a broken
    rule: no panic, no failed assertion, nothing missing in the database.  The
    cache of signatures stays one of valid signatures. *)
From stdpp Require Import fin_maps fin_sets strings.
From Stdlib Require Import Lia ZArith.
From S2P Require Import Prelude Wire MsgTx ScriptError Taproot Tokenizer Standard Crypto SigCache SigHash Opcode Engine EngineExec Work ChainParams BlockIndex Subsidy RuleError TxRules Merkle Compress UtxoView Ledger ConnectBlock ConnectSpec UtxoStore SizeHelper UtxoCache UtxoCacheSpec ChainView Disconnect ChainIO ChainState Reorg Replay ConnectTotal ChainSpec ChainFrame.

Lemma decided_rule {A} (Q : A → Prop) r : decided Q r → match r with Ok a => Q a | Fail e => isRuleError e = true | Panic => False end.
Proof. destruct r as [a|[]|]; done. Qed.

Section total.
Context `{HashFns} `{Keys} `{!MapRange bytes sigCacheEntry} `{!MapRange bytes TxSigHashes}.
Context `{Log2Conv} `{PubKeyFormats} `{!MapOrder OutPoint (option UtxoEntry)} `{!BlockPruner}.
Implicit Types U W D : UtxoSet.
Context (p : Params) (c : Z) (blk : blockNode → Block) (V T : blockNode → Prop).
Context (HV : block_tree blk V) (HTV : subtree T V) (Hm : maturity_ok p) (Hc : schedule (Some p) c).

Abbreviation at_tip := (at_tip p c blk V T).
Abbreviation replay := (replay p c blk).
Let HT : block_tree blk T := subtree_blocks blk T V HV HTV.
Let HTt : is_tree T := bt_tree blk T HT.

(** The chain's cache of signatures. *)
Definition sigs_ok (b : Chain) : Prop := cache_sound (bc_sigCache (base b)).

Lemma framed_sigs {A} (m : ST RuleErr Chain A) b t D U a b' : framed same_sigs m → at_tip b t D U → m b = Ok (a, b') → sigs_ok b → sigs_ok b'.
Proof. intros Hf Hb E. destruct (Hf b a b' (at_prune _ _ _ _ _ _ _ _ _ Hb) E) as [Hs _]. unfold sigs_ok. by rewrite Hs. Qed.

Lemma checkConnectBlock_best {S} `{!UtxoSource S} node block view stxos (b : @BlockChain S) view' x b' :
  checkConnectBlock node block view stxos b = Ok ((view', x), b') → bestHash view' = hash node.
Proof.
  unfold checkConnectBlock. case_bool_decide; [done|]. case_bool_decide; cbn [negb]; [|done].
  intros ([v1 s1] & _ & Hk)%bind_ok. apply bind_ok in Hk as ([v2 s2] & _ & Hk). apply bind_ok in Hk as ([v3 x3] & _ & Hk).
  destruct (match LatestCheckpoint _ with Some _ => _ | None => _ end); [|by injection Hk as <- _ _].
  apply bind_ok in Hk as ([sc hc] & _ & Hk). by injection Hk as <- _ _.
Qed.

(** The checks of a block on a view of its parent's coins. *)
Lemma try_total b t D U n q W view :
  at_tip b t D U → T n → parent n = Some q → replay q W → view_repr view U W → bestHash view = hash q → sigs_ok b →
  ∃ r b', try_checkConnectBlock n (blk n) view b = Ok (r, b') ∧ sigs_ok b' ∧ match r with inl v => bestHash v = hash n | inr _ => True end.
Proof.
  intros Hb Hn Hp HrW Hv Hbest Hs. destruct (bt_parent blk T HT n q Hn Hp) as [Hq Eh]. destruct (bt_sane blk T HT n q Hn Hp) as (Hsb & Hord & _).
  pose proof (node_wf_height q (bt_wf blk T HT q Hq)). pose proof (bt_height blk T HT n Hn). pose proof (at_params _ _ _ _ _ _ _ _ _ Hb) as Hpa.
  pose proof (checkConnectBlock_decided (UtxoSource0:=cache_at b D) n q (blk n) view None (base b) U W c
    ltac:(by rewrite Hpa) ltac:(by rewrite Hpa) ltac:(lia) (bt_wf blk T HT n Hn) Hp Hsb Hord (at_over _ _ _ _ _ _ _ _ _ Hb) Hv) as Hd.
  specialize (Hd (heights_le_mono (height q) (height n) W (replay_heights p c blk T HT q W Hq HrW) ltac:(lia))
    (eq_trans Hbest (eq_sym (bt_prev blk T HT n q Hn Hp))) Hs). apply decided_rule in Hd.
  change (checkConnectBlock (UtxoSource0:=cache_at b D) n (blk n) view None (base b)) with (checkConnectBlock n (blk n) view None (base b)) in Hd.
  unfold try_checkConnectBlock. destruct (checkConnectBlock n (blk n) view None (base b)) as [[[v x] bs]|e|] eqn:E; [| |done].
  - exists (inl v), (set_base b bs). split; [done|]. split; [done|]. by apply checkConnectBlock_best in E.
  - rewrite Hd. by exists (inr e), b.
Qed.

Lemma verify_attach_total t D U l : ∀ f n b view W,
  at_tip b t D U → Forall T l → up f l n → replay f W → view_repr view U W → bestHash view = hash f → sigs_ok b →
  ∃ r b', verify_attach l view b = Ok (r, b') ∧ sigs_ok b'.
Proof.
  induction l as [|m l IH]; intros f n b view W Hb Hl Hu HrW Hv Hbest Hs; cbn [verify_attach up] in *; [by eexists _, b|].
  destruct Hu as [Hp Hu]. apply Forall_cons in Hl as [HTm Hl]. cbv [mbind st_bind st_get st_lift].
  rewrite (at_blocks _ _ _ _ _ _ _ _ _ Hb m HTm). cbn [mbind result_bind].
  assert (Hnext : ∀ b1 v1 W1, at_tip b1 t D U → replay m W1 → view_repr v1 U W1 → bestHash v1 = hash m → sigs_ok b1 →
    ∃ r b', (match verify_attach l v1 b1 with
       | Ok (r, b) => Ok (match r with inl blocks => inl (blk m :: blocks) | inr e => inr e end, b)
       | Fail e => Fail e | Panic => Panic end) = Ok (E:=RuleErr) (r, b') ∧ sigs_ok b').
  { intros b1 v1 W1 Hb1 Hr1 Hv1 Hbe1 Hs1. destruct (IH m n b1 v1 W1 Hb1 Hl Hu Hr1 Hv1 Hbe1 Hs1) as (r & b' & -> & ?). by eexists _, b'. }
  destruct (KnownValid (NodeStatus (index b) m)) eqn:Ek.
  - destruct (proj1 (at_status _ _ _ _ _ _ _ _ _ Hb) m HTm Ek) as [W' HrW'].
    destruct (known_ok p c blk V T HV HTV b t D U m f W (ConnectBlock.utxoCache (base b)) view Hb HTm Hp HrW Hv (at_over _ _ _ _ _ _ _ _ _ Hb)
      (ex_intro _ W' HrW')) as (v1 & s1 & E1 & Hs1 & Hk).
    unfold on_cache at 1. rewrite E1. cbn [mbind result_bind].
    destruct (known_connects p c blk T HT (UtxoSource0:=cache_at b D) m f view (ConnectBlock.utxoCache (base b)) U W W' v1 s1
      HTm Hp HrW HrW' (at_over _ _ _ _ _ _ _ _ _ Hb) Hv E1) as [[v2 x2] E2]. rewrite E2. cbn [mbind result_bind].
    destruct (Hk _ _ E2) as (W1 & HrW1 & Hv2). apply (Hnext (set_cache b s1) v2 W1); [by apply at_tip_cache|done|done| |done].
    unfold view_connectTransactions in E2. apply bind_ok in E2 as ([v st] & _ & [= <- _]). cbn. by rewrite (proj1 (bt_block blk T HT m HTm)).
  - destruct (try_total b t D U m f W view Hb HTm Hp HrW Hv Hbest Hs) as ([v1|e] & b1 & E & Hs1 & Hb1); rewrite E; [|by eexists _, _].
    revert E. unfold try_checkConnectBlock. destruct (checkConnectBlock m (blk m) view None (base b)) as [[[v x] bs]|e|] eqn:Ec;
      [|by destruct (isRuleError e)|done]. intros [= -> <-].
    destruct (check_ok p c blk V T HV HTV Hm Hc b t D U m f W view v1 x bs Hb HTm Hp HrW Hv Ec) as (Hbs & W1 & HrW1 & Hv1).
    unfold on_index at 1. apply (Hnext (set_index (set_base b bs) (SetStatusFlags (index b) m statusValid)) v1 W1); [|done|done|done|done].
    apply at_tip_index; [done|]. intros k HTk Hk. apply (mark_valid p c blk V T HV HTV b m HTm); [by exists W1|done|done].
Qed.

(** Behind what is to be detached the view is at the fork. *)
Lemma verify_detach_best b t D U l : ∀ n f s view bs js view' b',
  at_tip b t D U → n ∈ branch t → down n l f → bestHash view = hash n →
  verify_detach l view (set_cache b s) = Ok ((bs, js, view'), b') → bestHash view' = hash f.
Proof.
  intros n f s view bs js view' b' Hb. revert n s view bs js view'. induction l as [|m l IH]; intros n s view bs js view' Hn Hd Hbest; cbn [verify_detach down] in *.
  { subst f. by intros [= _ _ <- _]. }
  destruct Hd as [-> (q & Hp & Hd)]. assert (HTn : T n) by (by apply (branch_T T HTt n t), Hn; apply Hb).
  intros (? & ? & [= <- <-] & E)%st_bind_ok. cbn [set_cache set_base cdb] in E. rewrite (at_blocks _ _ _ _ _ _ _ _ _ Hb n HTn) in E.
  apply st_bind_ok in E as (k & ? & [= <- <-] & E). rewrite bool_decide_eq_true_2 in E by (symmetry; apply (bt_block blk T HT n HTn)).
  cbn [negb] in E. apply st_bind_ok in E as (v1 & b1 & E1 & E). unfold on_cache in E1. apply bind_ok in E1 as ([v2 s1] & _ & [= <- <-]).
  apply st_bind_ok in E as (j & b2 & E2 & E). unfold st_lift in E2. apply bind_ok in E2 as (? & _ & [= <- <-]).
  apply st_bind_ok in E as (v3 & b3 & E3 & E). unfold st_lift in E3. apply bind_ok in E3 as (? & Ev & [= <- <-]).
  apply st_bind_ok in E as ([[bl jl] v4] & b4 & E4 & [= _ _ <- ->]).
  eapply (IH q s1); [|done| |exact E4].
  - apply (branch_trans q n t); [by apply (bt_wf blk T HT); apply Hb|apply elem_of_branch; right; exists q; split; [done|apply branch_self]|done].
  - unfold disconnectTransactions in Ev. apply bind_ok in Ev as (? & _ & Ev). case_match; [done|]. apply bind_ok in Ev as (v5 & _ & [= <-]).
    by apply (bt_prev blk T HT).
Qed.

Lemma verify_total b t D U f n ds ats :
  at_tip b t D U → Forall T ats → down t ds f → up f ats n → sigs_ok b →
  ∃ r b', verifyReorganizationValidity ds ats b = Ok (r, b') ∧ sigs_ok b'.
Proof.
  intros Hb Hats Hd Hu Hs. pose proof (tip_view _ _ (at_view _ _ _ _ _ _ _ _ _ Hb)) as Htip.
  assert (Hbody : ∃ r b', (
    t ← deref (tip (bestChain b));
    '(detachBlocks, detachSpentTxOuts, view) ← verify_detach ds (SetBestHash (hash t) NewUtxoViewpoint);
    r ← verify_attach ats view;
    mret (match r with
          | inl attachBlocks => inl (detachBlocks, attachBlocks, detachSpentTxOuts)
          | inr e => inr e
          end)) b = Ok (r, b') ∧ sigs_ok b').
  { cbv [mbind st_bind mret st_ret]. rewrite Htip. cbn [deref].
    destruct (verify_detach_ok p c blk V T HV HTV b t D U ds t f (ConnectBlock.utxoCache (base b)) (SetBestHash (hash t) NewUtxoViewpoint) U Hb
      (at_over _ _ _ _ _ _ _ _ _ Hb) (branch_self t) Hd (at_coins _ _ _ _ _ _ _ _ _ Hb) (undone_best _ U)) as (csss & v & s & W & E & Hov & _ & Hv & HrW).
    assert (bestHash v = hash f) as Hbest by (by eapply (verify_detach_best b t D U ds t f); [exact Hb|apply branch_self|exact Hd| |exact E]).
    replace (set_cache b (ConnectBlock.utxoCache (base b))) with b in E by by destruct b as [[] ? ? ? ? ?]. rewrite E.
    destruct (verify_attach_total t D U ats f n (set_cache b s) v W (at_tip_cache _ _ _ _ _ b t D U s Hb Hov) Hats Hu HrW (undone_repr _ _ _ Hv) Hbest Hs)
      as (r & b' & -> & Hs'). by eexists _, b'. }
  unfold verifyReorganizationValidity. destruct ds as [|d ds]; [destruct ats as [|a ats]; [by eexists _, b|exact Hbody]|].
  cbv [mbind st_bind st_get]. rewrite Htip. cbn [deref].
  assert (d = t) as -> by apply Hd. rewrite bool_decide_eq_true_2 by done. cbn [negb].
  cbv [mbind st_bind] in Hbody. rewrite Htip in Hbody. cbn [deref] in Hbody.
  destruct ats as [|a ats]; [exact Hbody|]. destruct (last (t :: ds)) as [m|] eqn:El; [|by apply last_None in El].
  rewrite (down_last t (t :: ds) f m Hd El). destruct Hu as [Hp Hu]. rewrite Hp. cbn [deref].
  rewrite bool_decide_eq_true_2 by done. exact Hbody.
Qed.

Lemma reorganizeChain_total now b t D U f n ds ats :
  at_tip b t D U → T n → Forall T ats → down t ds f → up f ats n → sigs_ok b →
  ∃ r b', reorganizeChain now ds ats b = Ok (r, b') ∧ sigs_ok b'.
Proof.
  intros Hb Hn Hats Hd Hu Hs. unfold reorganizeChain. cbv [mbind st_bind mret st_ret st_get].
  destruct (verify_total b t D U f n ds ats Hb Hats Hd Hu Hs) as (r1 & b1 & E & Hs1). rewrite E.
  destruct (verify_ok p c blk V T HV HTV Hm Hc b t D U f n ds ats r1 b1 Hb Hats Hd Hu E) as (Hb1 & _ & Hr).
  destruct r1 as [[[blocks ablocks] js]|e]; [|by eexists _, b1]. destruct Hr as (-> & -> & (csss & -> & Hj) & W & HrW).
  rewrite (tip_view _ _ (at_view _ _ _ _ _ _ _ _ _ Hb1)). cbn [deref].
  destruct (reorg_detach_ok p c blk V T HV HTV now ds f t b1 D U (SetBestHash (hash t) NewUtxoViewpoint) csss Hb1 Hd Hj (undone_best _ U))
    as (b2 & D2 & U2 & E2 & Hb2 & _).
  pose proof (framed_sigs _ _ _ _ _ _ _ (framed_reorg_detach now same_sigs _ _ _ _) Hb1 E2 Hs1) as Hs2. rewrite E2.
  destruct (reorg_attach_ok p c blk V T HV HTV now ats f n b2 D2 U2 W Hb2 Hn Hats Hu HrW) as (b3 & D3 & E3 & Hb3 & _).
  pose proof (framed_sigs _ _ _ _ _ _ _ (framed_reorg_attach now same_sigs _ _) Hb2 E3 Hs2) as Hs3. rewrite E3.
  by eexists _, b3.
Qed.

(** *** The best chain *)

Lemma flush_total b t D U : at_tip b t D U → sigs_ok b → ∃ b', flush_index b = Ok ((), b') ∧ sigs_ok b'.
Proof.
  intros Hb Hs. destruct (flush_index_ok b) as (b' & E & _). exists b'. split; [done|].
  by apply (framed_sigs flush_index b t D U () b' (framed_flush_index same_sigs) Hb E).
Qed.

Lemma finish_total now b t D U n W fastAdd :
  at_tip b t D U → T n → parent n = Some t → replay n W → sigs_ok b →
  ∃ b', (stxos ← connect_to_cache (blk n);
    connectBlock now n (blk n) stxos;;
    b ← st_get;
    (if fastAdd || negb (KnownValid (NodeStatus (index b) n))
     then on_index (λ bi, SetStatusFlags bi n statusValid);; flush_index
     else mret ());;
    mret (true, @None RuleErr)) b = Ok ((true, None), b') ∧ sigs_ok b'.
Proof.
  intros Hb Hn Hp HrW Hs. destruct (finish_extend p c blk V T HV HTV now b t D U n W fastAdd Hb Hn Hp HrW) as (b' & D' & E & _ & _).
  exists b'. split; [done|]. refine (framed_sigs _ _ _ _ _ _ _ _ Hb E Hs).
  by framed_tac.
Qed.

Lemma extension_total now b t D U n flags :
  at_tip b t D U → best_stored b t → T n → parent n = Some t → Z.land flags BFFastAdd = 0 → sigs_ok b →
  ∃ r b', connectBestChain now n (blk n) flags b = Ok (r, b') ∧ sigs_ok b'.
Proof.
  intros Hb Hbest Hn Hp Hfl Hs. pose proof (at_view _ _ _ _ _ _ _ _ _ Hb) as Hv. unfold connectBestChain.
  cbv [mbind st_bind st_get]. rewrite (tip_view _ _ Hv). cbn [deref].
  rewrite (bt_prev blk T HT n t Hn Hp), bool_decide_eq_true_2, Hfl by done. cbn [negb Z.eqb orb].
  destruct (KnownValid (NodeStatus (index b) n)) eqn:Ek.
  - destruct (proj1 (at_status _ _ _ _ _ _ _ _ _ Hb) n Hn Ek) as [W HrW]. cbn [mret st_ret].
    destruct (finish_total now b t D U n W true Hb Hn Hp HrW Hs) as (b1 & E & Hs1). exists (true, None), b1. split; [exact E|done].
  - destruct (try_total b t D U n t U _ Hb Hn Hp (at_coins _ _ _ _ _ _ _ _ _ Hb) (undone_repr _ _ _ (undone_best (hash t) U)) eq_refl Hs)
      as (r & b1 & E & Hs1 & _). rewrite E. revert E. unfold try_checkConnectBlock.
    destruct (checkConnectBlock n (blk n) (SetBestHash (hash t) NewUtxoViewpoint) None (base b)) as [[[v1 x1] bs]|e|] eqn:Ec; [| |done].
    + intros [= <- <-]. destruct (check_ok p c blk V T HV HTV Hm Hc b t D U n t U _ v1 x1 bs Hb Hn Hp (at_coins _ _ _ _ _ _ _ _ _ Hb) (undone_repr _ _ _ (undone_best _ U)) Ec)
        as (Hb1 & W & HrW & _).
      destruct (mark_flush p c blk V T HV HTV (set_base b bs) t D U n statusValid Hb1 Hbest Hn) as (b2 & E2 & Hb2 & _); [right; by exists W|].
      assert (sigs_ok b2) as Hs2 by (refine (framed_sigs _ _ _ _ _ _ _ _ Hb1 E2 Hs1); framed_tac; done).
      cbv [mbind st_bind] in E2. destruct (on_index _ (set_base b bs)) as [[[] b3]| |]; [|done..]. rewrite E2.
      cbn [mret st_ret]. destruct (finish_total now b2 t D U n W false Hb2 Hn Hp HrW Hs2) as (b4 & E4 & Hs4).
      exists (true, None), b4. split; [exact E4|done].
    + destruct (isRuleError e); [|done]. intros [= <- <-].
      destruct (mark_flush p c blk V T HV HTV b t D U n statusValidateFailed Hb Hbest Hn) as (b2 & E2 & Hb2 & _); [by left|].
      assert (sigs_ok b2) as Hs2 by (refine (framed_sigs _ _ _ _ _ _ _ _ Hb E2 Hs1); framed_tac; done).
      cbv [mbind st_bind] in E2. destruct (on_index _ b) as [[[] b3]| |]; [|done..]. rewrite E2.
      cbn [mret st_ret]. by eexists _, b2.
Qed.

Lemma side_total now b t D U n q flags :
  at_tip b t D U → best_stored b t → T n → parent n = Some q → q ≠ t → sigs_ok b →
  ∃ r b', connectBestChain now n (blk n) flags b = Ok (r, b') ∧ sigs_ok b'.
Proof.
  intros Hb Hbest Hn Hp Hqt Hs. pose proof Hb as [Ht Hv _ _ _ _ _ _ _ _ _ _]. destruct (bt_parent blk T HT n q Hn Hp) as [Hq _].
  assert (Hne : b_PrevBlock (blk n) ≠ hash t).
  { rewrite (bt_prev blk T HT n q Hn Hp). intros E. by apply Hqt, (tree_hash T HTt). }
  unfold connectBestChain. cbv [mbind st_bind st_get]. rewrite (tip_view _ _ Hv). cbn [deref].
  rewrite bool_decide_eq_false_2 by done.
  destruct (reorganize_nodes_ok T b t n q HTt Hv Ht Hn (bt_height blk T HT t Ht) Hp) as (f & (Hfn & Hft & _) & _ & _ & Hg).
  destruct (ShouldChangeTip _ _ _ _) eqn:Ew; cbn [negb].
  2: { destruct (findFork_view T HTt (bestChain b) t Hv Ht (bt_height blk T HT t Ht) n Hn) as (g & -> & _). by eexists _, b. }
  destruct (KnownInvalid _ || _).
  - destruct Hg as (bi & Hg & _ & _ & Hk). rewrite Hg, (reorganizeChain_nothing now (set_index b bi) t) by by apply tip_view.
    destruct (flush_total (set_index b bi) t D U) as (b1 & -> & Hs1); [|done|by eexists _, b1].
    apply at_tip_index; [done|]. intros m HTm Hkv. left. by apply Hk.
  - rewrite Hg. assert (Hall : Forall T (above f n)) by (apply Forall_drop; by apply branch_tree).
    pose proof (down_above T HTt f t Ht Hft) as Hd. pose proof (up_above T HTt f n Hn Hfn) as Hu.
    destruct (reorganizeChain_total now b t D U f n _ _ Hb Hn Hall Hd Hu Hs) as (r1 & b1 & Er & Hs1). rewrite Er.
    pose proof (reorganizeChain_ok p c blk V T HV HTV Hm Hc now b t D U f n _ _ r1 b1 Hb Hn Hall Hd Hu Er) as Hr.
    assert (∃ t' D' U', at_tip b1 t' D' U') as (t' & D' & U' & Hb1).
    { destruct r1 as [e|]; [destruct Hr as [? _]; by eexists _, _, _|]. destruct Hr as (D1 & W & ? & _). by eexists _, _, _. }
    destruct (flush_total b1 t' D' U' Hb1 Hs1) as (b2 & -> & Hs2). by eexists _, b2.
Qed.

Lemma best_chain_total now b t D U n q flags :
  at_tip b t D U → best_stored b t → T n → parent n = Some q → Z.land flags BFFastAdd = 0 → sigs_ok b →
  ∃ r b', connectBestChain now n (blk n) flags b = Ok (r, b') ∧ sigs_ok b'.
Proof.
  intros Hb Hbest Hn Hp Hfl Hs. destruct (decide (hash q = hash t)) as [E|Hne].
  - assert (q = t) as ->; [|by apply (extension_total now b t D U)].
    apply (tree_hash T HTt); [by apply (tree_parent T HTt n)|apply Hb|done].
  - apply (side_total now b t D U n q); [done..|congruence|done].
Qed.
End total.
