(* ===== verification/Process.v ===== *)
(** * Taking a block (blockchain/process.go, accept.go, chainio.go)

    [ProcessBlock] and what it calls: the checks, the pool of orphans, storing
    the block and its node, and the orphans that find their parent.  A block that
    breaks a rule is reported beside the state it leaves; errors that are not
    broken rules, and panics, end the call.  The lock of the chain makes a call
    atomic; the callbacks of notifications, which run without the lock, are left
    out. *)
From stdpp Require Import fin_maps strings list.
From Stdlib Require Import Lia ZArith.
From S2P Require Import Prelude Wire MsgTx ScriptError Crypto SigCache SigHash Engine MsgBlock Work ChainParams BlockIndex Difficulty RuleError TxRules Merkle Compress UtxoView Ledger ConnectBlock UtxoStore SizeHelper UtxoCache ChainView ChainIO ChainState BlockRules Orphans Checkpoints.

Section process.
Context `{HashFns} `{PowFFI} `{Keys} `{!MapRange bytes sigCacheEntry} `{!MapRange bytes TxSigHashes}.
Context `{Log2Conv} `{PubKeyFormats} `{!MapOrder OutPoint (option UtxoEntry)} `{!MapOrder bytes orphanBlock} `{!BlockPruner}.
Context `{!UtxoSource utxoCache}.

(** [time.Now()], in seconds, and what the time source answers. *)
Variable now adjustedTime : Z.

Definition block_header (block : MsgBlock) : BlockHeader := mh_BlockHeader (mb_MsgHeader block).

(** The block with its height, as connecting it uses it. *)
Definition at_height (block : MsgBlock) (height : Z) : Block :=
  mkBlock (MsgBlock_BlockHash block) (bh_PrevBlock (block_header block)) height (mb_Transactions block).

(** An operation on the chain. *)
Definition on_chain {A} (m : ST RuleErr Chain A) : ST RuleErr Node A := λ nd,
  '(a, b) ← m (chain nd);
  Ok (a, set_chain nd b).

(** A check, and the rule it found broken.  What a failed check has looked up of
    the checkpoints is not kept: the next call finds it again. *)
Definition st_try (m : ST RuleErr Node unit) : ST RuleErr Node (option RuleErr) := λ nd,
  match m nd with
  | Ok ((), nd) => Ok (None, nd)
  | Fail e => if isRuleError e then Ok (Some e, nd) else Fail e
  | Panic => Panic
  end.

(** ** Storing *)

Definition dbStoreBlockHeader (blockIndexBucket : Bucket) (blockHeader : BlockHeader) (height : Z) : Bucket :=
  <[blockIndexKey (BlockHash blockHeader) height := writeBlockHeader blockHeader]> blockIndexBucket.

Definition dbFetchBlockHeader (blockIndexBucket : Bucket) (blockHash : bytes) (height : Z) : result WireErr (option BlockHeader) :=
  match blockIndexBucket !! blockIndexKey blockHash height with
  | None => Ok None
  | Some value => '(header, _) ← readBlockHeader value; Ok (Some header)
  end.

(** The height is known: the block got it before. *)
Definition dbStoreBlock (block : Block) (header : BlockHeader) (vsize : Z) (nd : Node) : Node :=
  let d := cdb (chain nd) in
  let h := b_Hash block in
  let d := mkChainDB
    (match db_blocks d !! h with Some _ => db_blocks d | None => <[h := block]> (db_blocks d) end)
    (db_index d) (db_bestState d) (dbStoreBlockStatus (db_status d) h statusDataStored) (db_journal d) in
  mkNode (set_cdb (chain nd) d) (pool nd) (nextCheckpoint nd) (checkpointNode nd) (checkpointsByHeight nd)
    (dbStoreBlockHeader (headerRows nd) header (u32 (b_Height block))) (dbStoreBlockVsize (vsizeRows nd) h vsize).

Definition blockExists (nd : Node) (hash : bytes) : result RuleErr bool :=
  if HaveBlock (index (chain nd)) hash then Ok true
  else
    match db_blocks (cdb (chain nd)) !! hash with
    | None => Ok false
    | Some _ =>
        match dbFetchHeightByHash (db_index (cdb (chain nd))) hash with
        | Ok _ => Ok true
        | Fail e => if isNotInMainChainErr e then Ok false else Fail (ErrCorruption "dbFetchHeightByHash")
        | Panic => Panic
        end
    end.

Definition HaveBlock_or_orphan (nd : Node) (hash : bytes) : result RuleErr bool :=
  exists_ ← blockExists nd hash;
  Ok (exists_ || IsKnownOrphan (pool nd) hash).

(** ** Accepting *)

Definition maybeAcceptBlock (block : MsgBlock) (flags : Z) : ST RuleErr Node (bool * option RuleErr) :=
  nd ← st_get;
  match LookupNode (index (chain nd)) (bh_PrevBlock (block_header block)) with
  | None => mret (false, Some (ruleError ErrPreviousBlockUnknown))
  | Some prevNode =>
      if KnownInvalid (NodeStatus (index (chain nd)) prevNode) then mret (false, Some (ruleError ErrInvalidAncestorBlock))
      else
        let blockHeight := i32 (height prevNode + 1) in
        err ← st_try (checkBlockContext block prevNode flags);
        match err with
        | Some e => mret (false, Some e)
        | None =>
            let blockVsize := GetBlockVsize block in
            st_modify (dbStoreBlock (at_height block blockHeight) (block_header block) blockVsize);;
            nd ← st_get;
            let '(newNode, bi) := Add (index (chain nd)) (to_header (block_header block)) (Some prevNode) statusDataStored blockVsize in
            st_modify (λ nd, set_chain nd (set_index (chain nd) bi));;
            on_chain (connectBestChain now newNode (at_height block blockHeight) flags)
        end
  end.

(** [for len(processHashes) > 0], with the loop over the orphans of the first
    hash: each round takes an orphan of it out of the pool, or drops the hash.
    [fuel] bounds the rounds; a loop that is still running when they are used up
    has no result, it is [Panic]. *)
Fixpoint orphan_loop (fuel : nat) (processHashes : list bytes) (flags : Z) : ST RuleErr Node (option RuleErr) :=
  match fuel with
  | O => λ _, Panic
  | S fuel =>
      match processHashes with
      | [] => mret None
      | processHash :: rest =>
          nd ← st_get;
          match prevOrphans (pool nd) !! processHash with
          | Some (orphan :: _) =>
              let orphanHash := ob_hash orphan in
              st_modify (λ nd, set_pool nd (removeOrphanBlock orphan (pool nd)));;
              '(_, err) ← maybeAcceptBlock (ob_block orphan) flags;
              match err with
              | Some e => mret (Some e)
              | None => orphan_loop fuel (processHashes ++ [orphanHash]) flags
              end
          | _ => orphan_loop fuel rest flags
          end
      end
  end.

(** Every round takes an orphan or a hash, and every orphan adds a hash. *)
Definition orphan_rounds (nd : Node) (processHashes : list bytes) : nat := 2 * size (orphans (pool nd)) + length processHashes.

Definition processOrphans (hash : bytes) (flags : Z) : ST RuleErr Node (option RuleErr) := λ nd,
  orphan_loop (S (orphan_rounds nd [hash])) [hash] flags nd.

(** ** Processing *)

(** The checks against the last checkpoint. *)
Definition check_checkpoint (block : MsgBlock) (checkpointNode : blockNode) (fastAdd : bool) (nd : Node) : result RuleErr (option RuleErr) :=
  let blockHeader := block_header block in
  if match LookupNode (index (chain nd)) (bh_PrevBlock blockHeader) with
     | Some prevNode => i32 (height prevNode + 1) <? height checkpointNode
     | None => false
     end
  then Ok (Some (ruleError ErrForkTooOld))
  else if bh_Timestamp blockHeader <? timestamp checkpointNode then Ok (Some (ruleError ErrCheckpointTimeTooOld))
  else if negb fastAdd then
    let duration := i64 ((bh_Timestamp blockHeader - timestamp checkpointNode) * Second) in
    ok ← lift_empty (checkpoint_target_ok (chainParams (base (chain nd))) (bits checkpointNode) duration (bh_Bits blockHeader));
    Ok (if ok : bool then None else Some (ruleError ErrDifficultyTooLow))
  else Ok None.

(** On the main chain, an orphan, and the broken rule. *)
Definition ProcessBlock (block : MsgBlock) (flags : Z) : ST RuleErr Node (bool * bool * option RuleErr) :=
  let fastAdd := has_flag flags BFFastAdd in
  let blockHash := MsgBlock_BlockHash block in
  nd ← st_get;
  exists_ ← st_lift (blockExists nd blockHash);
  if (exists_ : bool) then mret (false, false, Some (ruleError ErrDuplicateBlock))
  else if IsKnownOrphan (pool nd) blockHash then mret (false, false, Some (ruleError ErrDuplicateBlock))
  else
    err ← st_try (st_lift (checkBlockSanity block (chainParams (base (chain nd))) adjustedTime flags));
    match err with
    | Some e => mret (false, false, Some e)
    | None =>
        checkpointNode ← findPreviousCheckpoint;
        nd ← st_get;
        err ← (match checkpointNode with
               | Some node => st_lift (check_checkpoint block node fastAdd nd)
               | None => mret None
               end);
        match err with
        | Some e => mret (false, false, Some e)
        | None =>
            prevHashExists ← st_lift (blockExists nd (bh_PrevBlock (block_header block)));
            if negb prevHashExists then
              pool ← st_lift (addOrphanBlock (now * Second) block (pool nd));
              st_modify (λ nd, set_pool nd pool);;
              mret (false, true, None)
            else
              '(isMainChain, err) ← maybeAcceptBlock block flags;
              match err with
              | Some e => mret (false, false, Some e)
              | None =>
                  err ← processOrphans blockHash flags;
                  match err with
                  | Some e => mret (false, false, Some e)
                  | None => mret (isMainChain, false, None)
                  end
              end
        end
    end.
End process.
