(* ===== verification/ProcessSpec.v ===== *)
(** * A node keeps the ledger of its best branch

    Whatever blocks a node is given, and in whatever order, after each the chain
    is at a tip with the coins of its branch: the checks of [ProcessBlock] make
    every block it keeps one of a tree that [connectBestChain_keeps_ledger] is
    about.  What is assumed of the blocks is about hashes and about what the
    checks leave open: the order of transactions within a block and outputs that
    cannot be stored. *)
From stdpp Require Import fin_maps fin_sets strings list.
From Stdlib Require Import Lia ZArith.
From S2P Require Import Prelude Wire MsgTx ScriptError Crypto SigCache SigHash Engine MsgBlock Work ChainParams BlockIndex Difficulty Subsidy RuleError TxRules Merkle Compress UtxoView Ledger ConnectBlock ConnectSpec UtxoStore SizeHelper UtxoCache UtxoCacheSpec Disconnect ChainView ChainIO ChainState Reorg Replay ChainSpec BlockRules Orphans Checkpoints ChainFrame Process.

(** ** The tree of the blocks that may be accepted *)

Section tree.
Context `{HashFns}.

(** The first block and all blocks the node is ever given. *)
Context (mg : MsgBlock) (l : list MsgBlock) (cs : list Checkpoint).

(** The statuses nodes are made with: those a started node reads back, and that
    of a stored block for new ones. *)
Context (st : bytes → Z).

(** What is assumed of the blocks [l] a node can be given, besides that they were
    read off the wire ([pr_wf]) and are storable ([pr_total], [pr_size], [pr_fits]):
    the hash of a header determines the whole block ([pr_hash]), which is more than
    that hashes do not collide, since it leaves out copies of a block with the same
    header and another certificate, witness or body; equal transaction ids have
    equal encodings ([pr_collide]); no block spends an output of a later
    transaction of its own ([pr_order], see [checkConnectBlock_out_of_order]). *)
Record presented : Prop := {
  pr_wf m : m ∈ l → wf_MsgBlock m;
  pr_hash m m' : m ∈ l → m' ∈ l → MsgBlock_BlockHash m = MsgBlock_BlockHash m' → m = m';
  pr_first m : m ∈ l → MsgBlock_BlockHash m ≠ MsgBlock_BlockHash mg;
  pr_count : zlen l < 2 ^ 31 - 2;
  pr_total : zlen (mb_Transactions mg) < 2 ^ 64;
  pr_order m : m ∈ l → in_order (mb_Transactions m);
  pr_genesis : wf_BlockHeader (block_header mg);
  pr_size m : m ∈ mg :: l → is_i64 (GetBlockVsize m);
  pr_fits m : m ∈ l → Forall (λ tx, Forall output_fits (tx_TxOut tx)) (mb_Transactions m);
  pr_collide m m' t t' : m ∈ l → m' ∈ l → t ∈ mb_Transactions m → t' ∈ mb_Transactions m' →
    TxHash t = TxHash t' → SerializeNoWitness t = SerializeNoWitness t'
}.

Definition first_node : blockNode :=
  newBlockNode (to_header (block_header mg)) None (st (MsgBlock_BlockHash mg)) (GetBlockVsize mg).

Definition node_of (m : MsgBlock) (prev : blockNode) : blockNode :=
  newBlockNode (to_header (block_header m)) (Some prev) (st (MsgBlock_BlockHash m)) (GetBlockVsize m).

(** A block on a known one that passed the checks. *)
Inductive known : blockNode → Prop :=
| known_first : known first_node
| known_next m prev :
    known prev → m ∈ l → bh_PrevBlock (block_header m) = hash prev → sane_block (mb_Transactions m) →
    coinbase_at (i32 (height prev + 1)) (mb_Transactions m) →
    (∀ cp, cp ∈ cs → cp_Height cp = i32 (height prev + 1) → cp_Hash cp = MsgBlock_BlockHash m) →
    known (node_of m prev).

(** The message with the hash of a node. *)
Definition stored (n : blockNode) : MsgBlock :=
  match list_find (λ m, MsgBlock_BlockHash m = hash n) l with Some (_, m) => m | None => mg end.

Definition block_of (n : blockNode) : Block := at_height (stored n) (height n).

Context (HP : presented).

Lemma hash_node_of m prev : hash (node_of m prev) = MsgBlock_BlockHash m.
Proof. done. Qed.

Lemma stored_hash m n : m ∈ l → hash n = MsgBlock_BlockHash m → stored n = m.
Proof.
  intros Hm E. unfold stored. destruct (list_find _ l) as [[i m']|] eqn:Ef.
  - apply list_find_Some in Ef as (Hi & E' & _). apply (pr_hash HP); [by eapply list_elem_of_lookup_2|done|congruence].
  - apply list_find_None in Ef. rewrite Forall_forall in Ef. by destruct (Ef m Hm).
Qed.

Lemma stored_first n : hash n = MsgBlock_BlockHash mg → stored n = mg.
Proof.
  intros E. unfold stored. destruct (list_find _ l) as [[i m']|] eqn:Ef; [|done].
  apply list_find_Some in Ef as (Hi & E' & _). exfalso. apply (pr_first HP m'); [by eapply list_elem_of_lookup_2|congruence].
Qed.

(** The hash of a block is that of its header, which names its parent: nodes with
    one hash are the same. *)
Lemma known_hash a b : known a → known b → hash a = hash b → a = b.
Proof.
  intros Ha. revert b. induction Ha as [|m prev Hprev IH Hm Hp _ _]; intros b Hb E.
  - destruct Hb as [|m' prev' _ Hm' _ _ _]; [done|]. exfalso. by apply (pr_first HP m' Hm').
  - destruct Hb as [|m' prev' Hprev' Hm' Hp' _ _]; [exfalso; by apply (pr_first HP m Hm)|].
    assert (m = m') as <- by by apply (pr_hash HP). f_equal. apply IH; [done|congruence].
Qed.

Lemma known_parent n q : known n → parent n = Some q → known q.
Proof. destruct 1 as [|m prev]; [done|]. by intros [= <-]. Qed.

Lemma known_branch a n : known n → a ∈ branch n → known a.
Proof.
  induction 1 as [|m prev Hprev IH Hm Hp Hs Hc Hk]; intros [->|(q & Hq & Ha)]%elem_of_branch; [constructor|done|by constructor|].
  injection Hq as <-. by apply IH.
Qed.

(** A branch of [h] blocks on the first has the hashes of [h] of the blocks. *)
Lemma branch_hashes n : known n → node_wf n → height n <= zlen l.
Proof.
  intros Hk Hw. pose proof (length_branch n Hw) as El.
  assert (NoDup (branch n)) as Hnd.
  { apply NoDup_alt. intros i j x Hi Hj. rewrite branch_lookup in Hi, Hj by done.
    destruct (decide _) as [Hdi|]; [|done]. destruct (decide _) as [Hdj|]; [|done].
    destruct (back_wf _ _ _ Hw Hi) as [_ Ei]. destruct (back_wf _ _ _ Hw Hj) as [_ Ej]. pose proof (node_wf_height n Hw). lia. }
  assert (∀ a q, a ∈ branch n → parent a = Some q → ∃ m, m ∈ l ∧ hash a = MsgBlock_BlockHash m) as Hmsg.
  { intros a q Ha Hq. pose proof (known_branch a n Hk Ha) as Hka. destruct Hka as [|m prev ? Hm]; [done|]. by exists m. }
  destruct (branch n) as [|r rest] eqn:Eb; [rewrite zlen_nil in El; pose proof (node_wf_height n Hw); pose proof (zlen_nonneg l); lia|].
  rewrite zlen_cons in El. apply NoDup_cons in Hnd as [Hr Hnd].
  assert (hash <$> rest ⊆+ MsgBlock_BlockHash <$> l) as Hsub.
  { apply NoDup_submseteq.
    - apply NoDup_fmap_2_strong; [|done]. intros a b Ha Hb E.
      apply known_hash; [apply (known_branch a n Hk)|apply (known_branch b n Hk)|done]; rewrite Eb; by right.
    - intros h (a & -> & Ha)%list_elem_of_fmap.
      destruct (parent a) as [q|] eqn:Hq.
      + destruct (Hmsg a q) as (m & Hm & ->); [by right|done|]. by apply list_elem_of_fmap_2.
      + exfalso. apply Hr. assert (a = r) as ->; [|done].
        assert (∀ x, known x → parent x = None → x = first_node) as Hroot by (intros x [|]; done).
        assert (parent r = None) as Hpr.
        { assert (branch n !! 0%nat = Some r) as H0 by by rewrite Eb. rewrite branch_lookup in H0 by done.
          destruct (decide _); [|done]. destruct (back_wf _ _ _ Hw H0) as [Hwr Er].
          destruct (node_wf_inv r Hwr) as [(? & _)|(q & _ & Hwq & Eq & _)]; [done|].
          pose proof (node_wf_height q Hwq). pose proof (node_wf_height n Hw). lia. }
        rewrite (Hroot a), (Hroot r); [done| |done| |done]; apply (known_branch _ n Hk); rewrite Eb; [by left|by right]. }
  apply submseteq_length in Hsub. rewrite !length_fmap in Hsub. unfold zlen in *. lia.
Qed.

Lemma known_wf n : known n → node_wf n ∧ height n <= zlen l.
Proof.
  intros Hk. assert (node_wf n) as Hw; [|split; [done|by apply branch_hashes]].
  induction Hk as [|m prev Hprev IH Hm]; [constructor|]. constructor; [done|].
  pose proof (branch_hashes prev Hprev IH). pose proof (pr_count HP). lia.
Qed.

Lemma known_height n : known n → 0 <= height n < 2 ^ 31 - 2.
Proof. intros Hk. destruct (known_wf n Hk) as [Hw Hh]. pose proof (node_wf_height n Hw). pose proof (pr_count HP). lia. Qed.

Lemma height_node_of m prev : known prev → height (node_of m prev) = height prev + 1 ∧ i32 (height prev + 1) = height prev + 1.
Proof.
  intros Hk. pose proof (known_height prev Hk). assert (i32 (height prev + 1) = height prev + 1) as E by (apply i32_small; unfold is_i32; lia).
  split; [|done]. unfold node_of, newBlockNode. cbn [height]. exact E.
Qed.

Lemma known_tree : is_tree known.
Proof.
  constructor.
  - intros n Hk. by apply known_wf.
  - exact known_parent.
  - exact known_hash.
  - intros a b [|] [|]; done.
Qed.

Lemma known_blocks : block_tree block_of known.
Proof.
  constructor.
  - exact known_tree.
  - intros n Hk. pose proof (known_height n Hk). lia.
  - intros n Hk. split; [|done]. unfold block_of, at_height. cbn [b_Hash].
    destruct Hk as [|m prev]; [by rewrite stored_first|by rewrite (stored_hash m)].
  - intros n q Hk Hq. destruct Hk as [|m prev ? Hm Hp]; [done|]. injection Hq as <-.
    unfold block_of. by rewrite (stored_hash m).
  - intros n q Hk Hq. pose proof (known_height n Hk) as Hh. destruct Hk as [|m prev ? Hm Hp Hs _]; [done|].
    unfold txs_of, block_of. rewrite (stored_hash m) by done. cbn [at_height b_Transactions].
    split; [done|]. split; [by apply (pr_order HP)|]. split; [unfold height_ok; lia|by apply (pr_fits HP)].
  - intros n q Hk Hq. destruct Hk as [|m prev Hkp Hm Hp Hs Hc _]; [done|]. unfold txs_of, block_of.
    rewrite (stored_hash m) by done. destruct (height_node_of m prev Hkp) as [-> E]. by rewrite <-E.
  - intros n a t t' Hn Ha Hpn Hpa. destruct Hn as [|m prev ? Hm]; [done|]. destruct Ha as [|m' prev' ? Hm']; [done|].
    unfold txs_of, block_of. rewrite (stored_hash m), (stored_hash m') by done. by apply (pr_collide HP).
Qed.

(** At the height of a checkpoint there is no other block. *)
Lemma known_checkpoint n cp : sorted_checkpoints cs → known n → cp ∈ cs → height n = cp_Height cp → hash n = cp_Hash cp.
Proof.
  intros [_ Hpos] Hk Hcp Eh. destruct Hk as [|m prev Hkp Hm _ _ _ Hck].
  - rewrite Forall_forall in Hpos. specialize (Hpos cp Hcp). rewrite <-Eh in Hpos. cbn in Hpos. lia.
  - symmetry. apply Hck; [done|]. destruct (height_node_of m prev Hkp) as [E1 E2]. congruence.
Qed.
End tree.

(** ** The state of a node *)

(** The nodes of the index, each under its hash. *)
Definition in_index (ix : gmap bytes blockNode) (n : blockNode) : Prop := ix !! hash n = Some n.

Section node.
Context `{HashFns} `{PowFFI} `{Keys} `{!MapRange bytes sigCacheEntry} `{!MapRange bytes TxSigHashes}.
Context `{Log2Conv} `{PubKeyFormats} `{!MapOrder OutPoint (option UtxoEntry)} `{!MapOrder bytes orphanBlock} `{!BlockPruner}.
Implicit Types U D : UtxoSet.

Context (p : Params) (c : Z) (mg : MsgBlock) (l : list MsgBlock) (cs : list Checkpoint).

Context (st : bytes → Z).

Abbreviation node_of := (node_of st).
Abbreviation known := (known mg l cs st).
Abbreviation block_of := (block_of mg l).

(** Blocks of the pool passed the checks without context. *)
Definition waiting (m : MsgBlock) : Prop := m ∈ l ∧ sane_block (mb_Transactions m).

(** The node is at [t] with the coins [U], [D] below the cache. *)
Record node_ok (nd : Node) (t : blockNode) D U : Prop := {
  no_tip : at_tip p c block_of known (in_index (bi_index (index (chain nd)))) (chain nd) t D U;
  no_best : best_stored (chain nd) t;
  no_sub : subtree (in_index (bi_index (index (chain nd)))) known;
  no_keys h n : bi_index (index (chain nd)) !! h = Some n → hash n = h;
  no_blocks h : is_Some (db_blocks (cdb (chain nd)) !! h) → is_Some (bi_index (index (chain nd)) !! h);
  no_pool : pool_ok waiting (pool nd);
  no_orphans h : is_Some (orphans (pool nd) !! h) → bi_index (index (chain nd)) !! h = None;
  no_new h : bi_index (index (chain nd)) !! h = None → st h = statusDataStored;
  no_genesis : GenesisHash (base (chain nd)) = MsgBlock_BlockHash mg;
  no_total : is_u64 (bs_TotalTxns (stateSnapshot (chain nd)));
  no_headers k v : headerRows nd !! k = Some v ↔
    ∃ n, in_index (bi_index (index (chain nd))) n ∧ k = blockIndexKey (hash n) (height n) ∧ v = writeBlockHeader (block_header (stored mg l n));
  no_vsizes n : in_index (bi_index (index (chain nd))) n → dbFetchBlockVsize (vsizeRows nd) (hash n) = Ok (vsize n);
  no_cs : ConnectBlock.checkpoints (base (chain nd)) = cs;
  no_byHeight h cp : checkpointsByHeight nd !! h = Some cp ↔ cp ∈ cs ∧ cp_Height cp = h;
  no_cached : cached cs t (nextCheckpoint nd) (checkpointNode nd)
}.

(** A checkpoint of the branch that is cached, or one cached later is above it. *)
Definition kept_checkpoint (k : blockNode) (nd : Node) (t : blockNode) : Prop :=
  k ∈ branch t ∧ (∃ cp, cp ∈ cs ∧ hash k = cp_Hash cp) ∧ ∃ k', checkpointNode nd = Some k' ∧ height k <= height k'.

Definition still_kept (nd : Node) (t : blockNode) (nd' : Node) (t' : blockNode) : Prop := ∀ k, kept_checkpoint k nd t → kept_checkpoint k nd' t'.

Context (HP : presented mg l) (Hcs : sorted_checkpoints cs).
Context (Hreal : ∀ n cp, known n → cp ∈ cs → hash n = cp_Hash cp → height n = cp_Height cp).
Context (Hm : maturity_ok p) (Hsch : schedule (Some p) c).

Let HV : block_tree block_of known := known_blocks mg l cs st HP.

Lemma no_index nd t D U : node_ok nd t D U → index_known (in_index (bi_index (index (chain nd)))) (index (chain nd)).
Proof.
  intros Hn h n. unfold LookupNode, in_index. split.
  - intros E. pose proof (no_keys _ _ _ _ Hn h n E) as <-. done.
  - by intros [E <-].
Qed.

Lemma index_tree nd t D U : node_ok nd t D U → is_tree (in_index (bi_index (index (chain nd)))).
Proof. intros Hn. apply (subtree_tree _ known); [apply (known_tree mg l cs st HP)|apply (no_sub _ _ _ _ Hn)]. Qed.

Lemma waiting_prev m m' : waiting m → waiting m' → MsgBlock_BlockHash m = MsgBlock_BlockHash m' →
  bh_PrevBlock (mh_BlockHeader (mb_MsgHeader m)) = bh_PrevBlock (mh_BlockHeader (mb_MsgHeader m')).
Proof. intros [Hml _] [Hml' _] E. by rewrite (pr_hash mg l HP m m' Hml Hml' E). Qed.

(** *** The checkpoints *)

Lemma find_ok nd t D U : node_ok nd t D U → found cs nd t (findPreviousCheckpoint nd).
Proof.
  intros Hn. pose proof (no_sub _ _ _ _ Hn) as [Hin _].
  apply (findPreviousCheckpoint_ok (in_index (bi_index (index (chain nd))))); try apply Hn.
  - by eapply index_tree.
  - intros n Hn'. pose proof (known_height mg l cs st HP n (Hin n Hn')). lia.
  - done.
  - intros n cp Hn'. by apply (known_checkpoint mg l cs st HP n cp Hcs), Hin.
  - intros n cp Hn'. by apply Hreal, Hin.
  - by eapply no_index.
Qed.

Lemma set_checkpoint_ok nd t D U next r :
  node_ok nd t D U → cached cs t next r → node_ok (set_checkpoint nd next r) t D U.
Proof. intros [] Hc. by constructor. Qed.

(** A search keeps the state. *)
Lemma find_keeps nd t D U r nd' :
  node_ok nd t D U → findPreviousCheckpoint nd = Ok (r, nd') →
  ∃ next, nd' = set_checkpoint nd next r ∧ node_ok nd' t D U ∧ still_kept nd t nd' t.
Proof.
  intros Hn E. destruct (find_ok nd t D U Hn) as (r' & next & E' & Hc & Hmono & _). rewrite E in E'. injection E' as -> ->.
  exists next. split; [done|]. split; [by apply set_checkpoint_ok|].
  intros k (Hk & Hcp & k' & Ek' & Hle). split; [done|]. split; [done|]. destruct (Hmono k' Ek') as (k2 & -> & Hle2).
  exists k2. split; [done|lia].
Qed.

(** A checkpoint of one branch no higher than another block is below it. *)
Lemma checkpoint_below k cp t n :
  known t → known n → k ∈ branch t → cp ∈ cs → hash k = cp_Hash cp → height k <= height n → k ∈ branch n.
Proof.
  intros Ht Hn Hk Hcp Ek Hle. pose proof (known_branch mg l cs st k t Ht Hk) as Hkk.
  pose proof (proj1 (known_height mg l cs st HP k Hkk)).
  destruct (branch_at known (known_tree mg l cs st HP) n (height k) Hn ltac:(lia)) as (a & Ha & Hin & Eh).
  assert (hash a = cp_Hash cp) as Ea.
  { apply (known_checkpoint mg l cs st HP a cp Hcs Ha Hcp). rewrite Eh. by apply Hreal. }
  by rewrite (known_hash mg l cs st HP k a Hkk Ha ltac:(congruence)).
Qed.

(** *** A new block *)

(** The state with the block stored and its node added. *)
Definition with_block (nd : Node) (m : MsgBlock) (prev : blockNode) : Node :=
  let nd := dbStoreBlock (at_height m (i32 (height prev + 1))) (block_header m) (GetBlockVsize m) nd in
  set_chain nd (set_index (chain nd) (addNode (index (chain nd)) (node_of m prev))).

Lemma with_block_index nd m prev :
  bi_index (index (chain (with_block nd m prev))) = <[MsgBlock_BlockHash m := node_of m prev]> (bi_index (index (chain nd))).
Proof. done. Qed.

Section added.
Context (nd : Node) (t : blockNode) (D U : UtxoSet) (m : MsgBlock) (prev : blockNode).
Context (Hok : node_ok nd t D U) (Hw : waiting m).
Context (Hnew : bi_index (index (chain nd)) !! MsgBlock_BlockHash m = None).
Context (Hno : orphans (pool nd) !! MsgBlock_BlockHash m = None).
Context (Hprev : LookupNode (index (chain nd)) (bh_PrevBlock (block_header m)) = Some prev).
Context (Hcb : coinbase_at (height prev + 1) (mb_Transactions m)).
Context (Hck : ∀ cp, cp ∈ cs → cp_Height cp = height prev + 1 → cp_Hash cp = MsgBlock_BlockHash m).

Let T := in_index (bi_index (index (chain nd))).
Let T' := in_index (bi_index (index (chain (with_block nd m prev)))).
Let n := node_of m prev.

Lemma prev_known : T prev ∧ known prev ∧ bh_PrevBlock (block_header m) = hash prev.
Proof.
  apply (no_index _ _ _ _ Hok) in Hprev as [HT E]. split; [done|]. split; [|done]. by apply (sub_in _ _ (no_sub _ _ _ _ Hok)).
Qed.

Lemma new_known : known n.
Proof.
  destruct prev_known as (_ & Hk & E). destruct (height_node_of mg l cs st HP m prev Hk) as [_ Ei]. destruct Hw as [Hml Hs].
  constructor; [done|done|done|done|by rewrite Ei|by rewrite Ei].
Qed.

Lemma in_index_new a : T' a ↔ a = n ∨ T a ∧ hash a ≠ MsgBlock_BlockHash m.
Proof.
  unfold T', in_index. rewrite with_block_index. split.
  - intros [[E <-]|[Hne Ha]]%lookup_insert_Some; [by left|right]. split; [exact Ha|congruence].
  - intros [->|[Ha Hne]]; [apply lookup_insert_eq|]. by rewrite lookup_insert_ne.
Qed.

Lemma T_other a : T a → hash a ≠ MsgBlock_BlockHash m.
Proof. unfold T, in_index. intros Ha E. rewrite E in Ha. congruence. Qed.

Lemma T_sub a : T a → T' a.
Proof. intros Ha. apply in_index_new. right. split; [done|by apply T_other]. Qed.

Lemma T'_sub : subtree T' known.
Proof.
  pose proof (no_sub _ _ _ _ Hok) as [Hin Hpar]. destruct prev_known as (HTp & _ & _). constructor.
  - intros a [->|[Ha _]]%in_index_new; [apply new_known|by apply Hin].
  - intros a q [->|[Ha _]]%in_index_new Hq; apply T_sub; [|by apply (Hpar a)]. injection Hq as <-. done.
Qed.

Lemma block_of_new : at_height m (i32 (height prev + 1)) = block_of n.
Proof. unfold block_of, n. rewrite (stored_hash mg l HP m); [done|apply Hw|done]. Qed.

Lemma new_stored : stored mg l n = m.
Proof. apply (stored_hash mg l HP); [apply Hw|done]. Qed.

(** The height in the key is that of the node. *)
Lemma new_height : u32 (i32 (height prev + 1)) = height n.
Proof.
  destruct prev_known as (_ & Hk & _). unfold n. destruct (height_node_of mg l cs st HP m prev Hk) as [-> ->].
  pose proof (known_height mg l cs st HP prev Hk). apply u32_small. unfold is_u32. lia.
Qed.

Lemma stored_before : db_blocks (cdb (chain nd)) !! MsgBlock_BlockHash m = None.
Proof.
  destruct (db_blocks (cdb (chain nd)) !! MsgBlock_BlockHash m) eqn:E; [|done].
  destruct (no_blocks _ _ _ _ Hok (MsgBlock_BlockHash m)) as [x Hx]; [by rewrite E|]. congruence.
Qed.

Lemma with_block_db :
  db_blocks (cdb (chain (with_block nd m prev))) = <[MsgBlock_BlockHash m := block_of n]> (db_blocks (cdb (chain nd))).
Proof.
  rewrite <-block_of_new. unfold with_block, dbStoreBlock.
  cbn [chain set_chain set_index cdb set_cdb db_blocks at_height b_Hash]. by rewrite stored_before.
Qed.

Lemma with_block_tip : at_tip p c block_of known T' (chain (with_block nd m prev)) t D U.
Proof.
  destruct (no_tip _ _ _ _ Hok) as [Ht Hv Hr Ha Hca Hbl Hj Hix Hst Hpa Hpr Hsh]. constructor; try done.
  - by apply T_sub.
  - intros a. unfold dbFetchBlockByNode. rewrite with_block_db. intros [->|[HTa Hne]]%in_index_new.
    + change (hash n) with (MsgBlock_BlockHash m). rewrite lookup_insert_eq. done.
    + rewrite lookup_insert_ne by done. by apply Hbl.
  - destruct Hst as [Hm1 Hm2]. split.
    + intros a HTa Hk. change (NodeStatus (addNode (index (chain nd)) n) a) with (NodeStatus (index (chain (with_block nd m prev))) a) in Hk.
      unfold NodeStatus, with_block, set_chain, set_index, addNode in Hk. cbn [chain index bi_status] in Hk.
      apply in_index_new in HTa as [->|[HTa Hne]].
      * rewrite lookup_delete_eq in Hk. change (KnownValid (st (MsgBlock_BlockHash m)) = true) in Hk.
        by rewrite (no_new _ _ _ _ Hok) in Hk.
      * rewrite lookup_delete_ne in Hk by (intros E; by apply Hne). by apply Hm1.
    + intros a. unfold with_block, dbStoreBlock. cbn [chain set_chain set_index cdb set_cdb db_status at_height b_Hash].
      intros [->|[HTa Hne]]%in_index_new.
      * exists statusDataStored. split; [by apply block_status_put|done].
      * destruct (Hm2 a HTa) as (s & Es & Hs). exists s. split; [|done]. unfold dbFetchBlockStatus, dbStoreBlockStatus in *.
        by rewrite lookup_insert_ne.
Qed.

Lemma with_block_ok : node_ok (with_block nd m prev) t D U ∧ T' n.
Proof.
  split; [|apply in_index_new; by left]. destruct Hok as [_ Hb _ Hkeys Hbl Hpool Horph Hnw Hgen Htot Hhd Hvs Hcks Hby Hca]. constructor; try done.
  - apply with_block_tip.
  - apply T'_sub.
  - intros h a. rewrite with_block_index. intros [[<- <-]|[_ Ha]]%lookup_insert_Some; [done|by apply Hkeys].
  - intros h. rewrite with_block_db, with_block_index. rewrite !lookup_insert_is_Some'. intros [->|Hx]; [by left|right; by apply Hbl].
  - intros h Hx. rewrite with_block_index. rewrite lookup_insert_ne; [by apply Horph|]. intros <-.
    destruct Hx as [o Ho]. cbn in Ho. congruence.
  - intros h. rewrite with_block_index. intros [Hx _]%lookup_insert_None. by apply Hnw.
  - intros k v. change (headerRows (with_block nd m prev)) with
      (dbStoreBlockHeader (headerRows nd) (block_header m) (u32 (i32 (height prev + 1)))). split.
    + unfold dbStoreBlockHeader. intros [[<- <-]|[Hne Hv]]%lookup_insert_Some.
      * exists n. split; [apply in_index_new; by left|]. split; [|by rewrite new_stored].
        rewrite new_height. done.
      * apply Hhd in Hv as (a & Ha & -> & ->). exists a. split; [by apply T_sub|done].
    + unfold dbStoreBlockHeader. intros (a & [->|[Ha Hne]]%in_index_new & -> & ->).
      * rewrite new_stored, new_height. apply lookup_insert_eq.
      * rewrite lookup_insert_ne; [apply Hhd; by exists a|]. intros E%blockIndexKey_hash. by apply Hne.
  - intros a. change (vsizeRows (with_block nd m prev)) with (dbStoreBlockVsize (vsizeRows nd) (MsgBlock_BlockHash m) (GetBlockVsize m)).
    intros [->|[Ha Hne]]%in_index_new.
    + apply block_vsize_put. apply (pr_size mg l HP). right. apply Hw.
    + unfold dbFetchBlockVsize, dbStoreBlockVsize. rewrite lookup_insert_ne by done. by apply Hvs.
Qed.
End added.

(** The checks allow the block at its height. *)
Lemma context_height flags m prev : known prev → context_msg_block p flags m prev → coinbase_at (height prev + 1) (mb_Transactions m).
Proof.
  intros Hk Hcm. destruct (height_node_of mg l cs st HP m prev Hk) as [_ Ei].
  destruct (cm_height _ _ _ _ Hcm) as (cb & rest & i & Et & Eh & s & Hs & Hpre). rewrite Ei in Hs. exists cb, rest, i, s. done.
Qed.

Lemma verify_allows nd t D U m h :
  node_ok nd t D U → verifyCheckpoint nd h (MsgBlock_BlockHash m) = true →
  ∀ cp, cp ∈ cs → cp_Height cp = h → cp_Hash cp = MsgBlock_BlockHash m.
Proof.
  intros Hok Hv cp Hcp Eh. unfold verifyCheckpoint, HasCheckpoints in Hv. rewrite (no_cs _ _ _ _ Hok) in Hv.
  destruct (Z.ltb_spec 0 (zlen cs)) as [_|He]; cbn [negb] in Hv.
  - rewrite (proj2 (no_byHeight _ _ _ _ Hok h cp) (conj Hcp Eh)) in Hv. case_bool_decide; [done|]. done.
  - destruct cs; [by apply elem_of_nil in Hcp|]. rewrite zlen_cons in He. pose proof (zlen_nonneg cs). pose proof (zlen_nonneg l0). lia.
Qed.

(** Whatever becomes of the block, the chain is at a tip again. *)
Lemma connect_ok now nd t D U n q flags r b' :
  node_ok nd t D U → in_index (bi_index (index (chain nd))) n → parent n = Some q →
  (∀ k cp, k ∈ branch t → cp ∈ cs → hash k = cp_Hash cp → checkpointNode nd = Some k → height k <= height n) →
  Z.land flags BFFastAdd = 0 → connectBestChain now n (block_of n) flags (chain nd) = Ok (r, b') →
  ∃ t' D' U', node_ok (set_chain nd b') t' D' U' ∧ still_kept nd t (set_chain nd b') t'.
Proof.
  intros Hok Hn Hq Hlow Hfl E. pose proof (at_prune _ _ _ _ _ _ _ _ _ (no_tip _ _ _ _ Hok)) as Hpr.
  pose proof (connectBestChain_frame now n (block_of n) flags (chain nd) r b' Hpr E) as [F1 F2 F3 F4 F5 F6].
  destruct (best_chain_ok p c block_of known (in_index (bi_index (index (chain nd)))) now (chain nd) t D U n q flags r b'
    HV (no_sub _ _ _ _ Hok) Hm Hsch (no_tip _ _ _ _ Hok) (no_best _ _ _ _ Hok) Hn Hq Hfl E) as (t' & D' & U' & Ht' & Hb' & Ho).
  pose proof (no_sub _ _ _ _ Hok) as [Hin _].
  assert (t' = t ∨ t' = n) as Ht.
  { unfold outcome in Ho. destruct r as [[] [e|]]; [done| |by left..]. by destruct Ho as [[-> _]|[-> _]]; [right|left]. }
  assert (known t ∧ known t') as [Hkt Hkt'] by (split; apply Hin; [apply (no_tip _ _ _ _ Hok)|apply Ht']).
  assert (Hstay : ∀ k cp k', k ∈ branch t → cp ∈ cs → hash k = cp_Hash cp → checkpointNode nd = Some k' → height k <= height k' → k ∈ branch t').
  { intros k cp k' Hk Hcp Ek Ek' Hle. destruct Ht as [->|Et]; [done|]. apply (checkpoint_below k cp t t'); try done. subst t'.
    pose proof (no_cached _ _ _ _ Hok) as Hc. rewrite Ek' in Hc. destruct Hc as (i & ci & Hi & Ehk & Hk' & _).
    pose proof (Hlow k' ci Hk' ltac:(by eapply list_elem_of_lookup_2) Ehk Ek'). lia. }
  exists t', D', U'. split.
  - destruct Hok as [_ _ Hsub Hkeys Hbl Hpool Horph Hnw Hgen Htot Hhd Hvs Hcks Hby Hca].
    constructor; cbn [set_chain chain pool nextCheckpoint checkpointNode checkpointsByHeight headerRows vsizeRows];
      rewrite ?F2, ?F3, ?F1, ?F5; try done; [by apply F6|].
    unfold cached in *. destruct (checkpointNode nd) as [k|] eqn:Ek; [|done].
    destruct Hca as (i & ci & Hi & Ehk & Hk & En). exists i, ci. split; [done|]. split; [done|]. split; [|done].
    apply (Hstay k ci k); [done|by eapply list_elem_of_lookup_2|done|done|lia].
  - intros k (Hk & (cp & Hcp & Ecp) & k' & Ek' & Hle). split; [by apply (Hstay k cp k')|]. split; [by exists cp|by exists k'].
Qed.

(** *** Accepting *)

Context (now adjusted : Z).

Lemma st_try_ok (m : ST RuleErr Node unit) nd e nd' :
  st_try m nd = Ok (e, nd') → match e with None => m nd = Ok ((), nd') | Some _ => nd' = nd end.
Proof. unfold st_try. destruct (m nd) as [[[] s]|e'|]; [by intros [= <- <-]| |done]. destruct (isRuleError e'); [|done]. by intros [= <- <-]. Qed.

Lemma fast_add flags : has_flag (Z.lor flags (NetBehaviorFlags p)) BFFastAdd = false → Z.land flags BFFastAdd = 0.
Proof.
  intros Hf%has_flag_lor. unfold has_flag, BFFastAdd in *. apply Z.eqb_neq in Hf. change 1 with (Z.ones 1) in *.
  rewrite Z.land_ones in * by lia. change (2 ^ 1) with 2 in *. pose proof (Z.mod_pos_bound flags 2). change (Z.ones 1) with 1 in Hf. lia.
Qed.

(** Nodes stay in the index. *)
Definition indexed (nd nd' : Node) : Prop :=
  ∀ h, is_Some (bi_index (index (chain nd)) !! h) → is_Some (bi_index (index (chain nd')) !! h).

Lemma maybeAcceptBlock_ok nd t D U m flags r nd' :
  node_ok nd t D U → waiting m → bi_index (index (chain nd)) !! MsgBlock_BlockHash m = None →
  orphans (pool nd) !! MsgBlock_BlockHash m = None → has_flag (Z.lor flags (NetBehaviorFlags p)) BFFastAdd = false →
  maybeAcceptBlock now m flags nd = Ok (r, nd') →
  ∃ t' D' U', node_ok nd' t' D' U' ∧ still_kept nd t nd' t' ∧ pool nd' = pool nd ∧
    indexed nd nd' ∧ (r.2 = None → is_Some (bi_index (index (chain nd')) !! MsgBlock_BlockHash m)).
Proof.
  intros Hok Hw Hnew Hno Hfl. unfold maybeAcceptBlock. intros (? & ? & [= <- <-] & E)%st_bind_ok.
  assert (Hsame : ∀ e : RuleErr, Ok (E:=RuleErr) ((false, Some e), nd) = Ok (r, nd') →
    ∃ t' D' U', node_ok nd' t' D' U' ∧ still_kept nd t nd' t' ∧ pool nd' = pool nd ∧
      indexed nd nd' ∧ (r.2 = None → is_Some (bi_index (index (chain nd')) !! MsgBlock_BlockHash m))).
  { intros e [= <- <-]. exists t, D, U. split; [done|]. split; [by intros k|]. split; [done|]. split; [by intros h|discriminate]. }
  destruct (LookupNode (index (chain nd)) (bh_PrevBlock (block_header m))) as [prev|] eqn:Eprev; [|by apply (Hsame (ruleError ErrPreviousBlockUnknown))].
  destruct (KnownInvalid _); [by apply (Hsame (ruleError ErrInvalidAncestorBlock))|].
  apply st_bind_ok in E as (e & nd1 & Et%st_try_ok & E). destruct e as [e|]; [subst nd1; by apply (Hsame e)|].
  destruct (prev_known nd t D U m prev Hok Eprev) as (_ & Hkp & _). pose proof (known_height mg l cs st HP prev Hkp) as Hh.
  pose proof (at_params _ _ _ _ _ _ _ _ _ (no_tip _ _ _ _ Hok)) as Hpar.
  change (ctx_ChainParams (N:=blockNode) nd = p) in Hpar.
  destruct (checkBlockContext_ok p m prev flags nd nd1 Hpar (pr_wf mg l HP m (proj1 Hw)) Hfl ltac:(lia) Et) as (Hcm & Hv & cp & Ef & Hlow).
  destruct (find_keeps nd t D U cp nd1 Hok Ef) as (next & -> & Hok1 & Hk1).
  apply st_bind_ok in E as (? & nd2 & [= _ <-] & E). apply st_bind_ok in E as (? & ? & [= <- <-] & E).
  assert (En : ∀ bi, Add bi (to_header (block_header m)) (Some prev) statusDataStored (GetBlockVsize m) = (node_of m prev, addNode bi (node_of m prev))).
  { intros bi. unfold Add, ProcessSpec.node_of. by rewrite (no_new _ _ _ _ Hok _ Hnew). }
  rewrite En in E. clear En. apply st_bind_ok in E as (? & nd3 & [= _ <-] & E).
  unfold on_chain in E. apply bind_ok in E as ([r1 b'] & E & [= <- <-]).
  pose proof (context_height flags m prev Hkp Hcm) as Hcb.
  pose proof (verify_allows nd t D U m (height prev + 1) Hok Hv) as Hck.
  destruct (with_block_ok (set_checkpoint nd next cp) t D U m prev Hok1 Hw Hnew Hno Eprev Hcb Hck) as [Hok2 Hin].
  pose proof (block_of_new m prev Hw) as Eb.
  destruct (connect_ok now (with_block (set_checkpoint nd next cp) m prev) t D U (node_of m prev) prev flags r1 b' Hok2 Hin eq_refl)
    as (t' & D' & U' & Hok' & Hk').
  - intros k ck _ _ _ Ek. cbn in Ek. destruct (height_node_of mg l cs st HP m prev Hkp) as [-> _]. by apply Hlow.
  - by apply fast_add.
  - rewrite <-Eb. exact E.
  - exists t', D', U'. split; [exact Hok'|]. split; [|split; [done|]].
    + intros k Hk. apply Hk'. apply Hk1 in Hk. exact Hk.
    + pose proof (connectBestChain_frame now _ _ flags _ r1 b'
        (at_prune _ _ _ _ _ _ _ _ _ (no_tip _ _ _ _ Hok2)) E) as [_ F2 _ _ _ _]. unfold indexed.
      cbn [set_chain chain]. rewrite F2. split; [intros h Hx; apply lookup_insert_is_Some'; by right|].
      intros _. exists (node_of m prev). apply lookup_insert_eq.
Qed.

(** *** The orphans *)

Lemma list_orphan nd t D U h o rest : node_ok nd t D U → prevOrphans (pool nd) !! h = Some (o :: rest) →
  orphans (pool nd) !! ob_hash o = Some o ∧ waiting (ob_block o).
Proof.
  intros Hok Hl. destruct (pool_maps _ _ (no_pool _ _ _ _ Hok)) as [Hh Hp _ _].
  destruct (Hp h (o :: rest) Hl) as (_ & _ & Hin). destruct (Hin o ltac:(by left)) as [_ Ho].
  split; [done|]. by apply (Hh (ob_hash o)).
Qed.

Lemma remove_orphan_ok nd t D U o :
  node_ok nd t D U → orphans (pool nd) !! ob_hash o = Some o →
  node_ok (set_pool nd (removeOrphanBlock o (pool nd))) t D U ∧
  orphans (removeOrphanBlock o (pool nd)) !! ob_hash o = None ∧ bi_index (index (chain nd)) !! ob_hash o = None.
Proof.
  intros Hok Ho. pose proof Hok as [Ht Hb Hsub Hkeys Hbl Hpool Horph Hnw Hgen Htot Hhd Hvs Hcks Hby Hca].
  destruct (removeOrphanBlock_ok waiting waiting_prev o (pool nd) Hpool Ho) as [Hp' Ed].
  split; [|split; [rewrite Ed; apply lookup_delete_eq|apply Horph; by exists o]]. constructor; try done.
  intros h Hx. apply Horph. cbn [set_pool pool] in Hx. rewrite Ed in Hx. destruct Hx as [x [_ Hx]%lookup_delete_Some]. by exists x.
Qed.

Lemma orphan_loop_ok fuel hs flags nd t D U r nd' :
  node_ok nd t D U → has_flag (Z.lor flags (NetBehaviorFlags p)) BFFastAdd = false →
  orphan_loop now fuel hs flags nd = Ok (r, nd') →
  ∃ t' D' U', node_ok nd' t' D' U' ∧ still_kept nd t nd' t' ∧ indexed nd nd'.
Proof.
  intros Hok Hfl. revert hs nd t D U Hok. induction fuel as [|fuel IH]; intros hs nd t D U Hok; cbn [orphan_loop]; [done|].
  destruct hs as [|h rest]; [intros [= <- <-]; exists t, D, U; split; [done|]; (split; [by intros k|by intros h])|].
  intros (? & ? & [= <- <-] & E)%st_bind_ok. destruct (prevOrphans (pool nd) !! h) as [[|o os]|] eqn:El; [by apply (IH rest nd t D U)| |by apply (IH rest nd t D U)].
  destruct (list_orphan nd t D U h o os Hok El) as [Ho Hw]. destruct (remove_orphan_ok nd t D U o Hok Ho) as (Hok1 & Hno & Hnew).
  apply st_bind_ok in E as (? & nd1 & [= _ <-] & E). apply st_bind_ok in E as ([b e] & nd2 & Ea & E).
  destruct (maybeAcceptBlock_ok _ t D U (ob_block o) flags (b, e) nd2 Hok1 Hw Hnew Hno Hfl Ea) as (t1 & D1 & U1 & Hok2 & Hk2 & _ & Hgrow & _).
  destruct e as [e|].
  - injection E as <- <-. exists t1, D1, U1. split; [done|]. split; [exact Hk2|done].
  - destruct (IH _ nd2 t1 D1 U1 Hok2 E) as (t' & D' & U' & Hok' & Hk' & Hg). exists t', D', U'. split; [done|].
    split; [intros k Hk; apply Hk', Hk2; exact Hk|]. intros k Hk. by apply Hg, Hgrow.
Qed.

(** The rounds are enough: more fuel changes nothing. *)
Lemma orphan_loop_fuel fuel k hs flags nd t D U :
  node_ok nd t D U → has_flag (Z.lor flags (NetBehaviorFlags p)) BFFastAdd = false → (orphan_rounds nd hs < fuel)%nat →
  orphan_loop now (fuel + k) hs flags nd = orphan_loop now fuel hs flags nd.
Proof.
  intros Hok Hfl. revert hs nd t D U Hok. induction fuel as [|fuel IH]; intros hs nd t D U Hok Hlt; [lia|].
  cbn [Nat.add orphan_loop]. destruct hs as [|h rest]; [done|]. unfold orphan_rounds in *. cbn [length] in Hlt.
  cbv [mbind st_bind st_get].
  assert (orphan_loop now (fuel + k) rest flags nd = orphan_loop now fuel rest flags nd) as Hrest by (apply (IH rest nd t D U Hok); lia).
  destruct (prevOrphans (pool nd) !! h) as [[|o os]|] eqn:El; [done| |done].
  destruct (list_orphan nd t D U h o os Hok El) as [Ho Hw]. destruct (remove_orphan_ok nd t D U o Hok Ho) as (Hok1 & Hno & Hnew).
  cbv [st_modify]. set (nd1 := set_pool nd (removeOrphanBlock o (pool nd))) in *.
  destruct (maybeAcceptBlock now (ob_block o) flags nd1) as [[[b e] nd2]| |] eqn:Ea; [|done..].
  destruct (maybeAcceptBlock_ok nd1 t D U (ob_block o) flags (b, e) nd2 Hok1 Hw Hnew Hno Hfl Ea) as (t1 & D1 & U1 & Hok2 & _ & Ep & _).
  destruct e as [e|]; [done|]. apply (IH _ nd2 t1 D1 U1 Hok2). rewrite Ep. cbn [nd1 set_pool pool].
  pose proof (remove_live_size o (pool nd) ltac:(by exists o)) as Hs. rewrite length_app. cbn [length]. lia.
Qed.

(** *** Processing *)

Lemma blockExists_false nd h : blockExists nd h = Ok false → bi_index (index (chain nd)) !! h = None.
Proof. unfold blockExists, HaveBlock. case_bool_decide as Hx; [done|]. intros _. by apply eq_None_not_Some. Qed.

(** What is reported of a block. *)
Definition reported (m : MsgBlock) (r : bool * bool * option RuleErr) (nd' : Node) : Prop :=
  match r with
  | (_, orphan, None) =>
      if (orphan : bool) then is_Some (orphans (pool nd') !! MsgBlock_BlockHash m)
      else is_Some (bi_index (index (chain nd')) !! MsgBlock_BlockHash m)
  | (main, orphan, Some _) => main = false ∧ orphan = false
  end.

Lemma processed_same nd t D U m e :
  node_ok nd t D U → ∃ t' D' U', node_ok nd t' D' U' ∧ still_kept nd t nd t' ∧ indexed nd nd ∧ reported m (false, false, Some e) nd.
Proof. intros Hok. exists t, D, U. split; [done|]. split; [by intros k|]. split; [by intros h|done]. Qed.

Lemma add_orphan_ok nd t D U m q :
  node_ok nd t D U → waiting m → bi_index (index (chain nd)) !! MsgBlock_BlockHash m = None →
  orphans (pool nd) !! MsgBlock_BlockHash m = None → addOrphanBlock (E:=RuleErr) (now * Second) m (pool nd) = Ok q →
  node_ok (set_pool nd q) t D U ∧ is_Some (orphans q !! MsgBlock_BlockHash m).
Proof.
  intros Hok Hw Hnew Hno E. pose proof Hok as [Ht Hb Hsub Hkeys Hbl Hpool Horph Hnw Hgen Htot Hhd Hvs Hcks Hby Hca].
  destruct (addOrphanBlock_ok (E:=RuleErr) waiting waiting_prev (now * Second) m (pool nd) Hpool Hw Hno)
    as (q' & victim & E' & Hq & Ho & _). rewrite E in E'. injection E' as <-. split; [|rewrite Ho, lookup_insert_eq; by eexists].
  constructor; try done. intros h [o Hx]. cbn [set_pool pool] in Hx.
  rewrite Ho in Hx. apply lookup_insert_Some in Hx as [[<- _]|[_ Hx]]; [done|]. apply Horph.
  apply spared_lookup, unexpired_lookup in Hx as [? _]. by exists o.
Qed.

Lemma ProcessBlock_ok nd t D U m flags r nd' :
  node_ok nd t D U → m ∈ l → has_flag (Z.lor flags (NetBehaviorFlags p)) BFFastAdd = false →
  ProcessBlock now adjusted m flags nd = Ok (r, nd') →
  ∃ t' D' U', node_ok nd' t' D' U' ∧ still_kept nd t nd' t' ∧ indexed nd nd' ∧ reported m r nd'.
Proof.
  intros Hok Hml Hfl. unfold ProcessBlock. cbv zeta. intros (? & ? & [= <- <-] & E)%st_bind_ok.
  apply st_bind_ok in E as (ex & ? & [Ex ->]%lift_ok & E). destruct ex; [injection E as <- <-; by eapply processed_same|].
  pose proof (blockExists_false _ _ Ex) as Hnew. unfold IsKnownOrphan in E. revert E. case_bool_decide as Hno; intros E; [injection E as <- <-; by eapply processed_same|].
  apply eq_None_not_Some in Hno. apply st_bind_ok in E as (e & nd1 & Es%st_try_ok & E).
  destruct e as [e|]; [subst nd1; injection E as <- <-; by eapply processed_same|].
  apply lift_ok in Es as [Es ->]. rewrite (at_params _ _ _ _ _ _ _ _ _ (no_tip _ _ _ _ Hok)) in Es.
  destruct (proj1 (proj2 (checkBlockSanity_iff p adjusted flags m (pr_wf mg l HP m Hml))) Es) as (cert & Hs).
  assert (waiting m) as Hw by (split; [done|apply Hs]).
  apply st_bind_ok in E as (cp & nd1 & Ef & E). destruct (find_keeps nd t D U cp nd1 Hok Ef) as (next & -> & Hok1 & Hk1).
  set (nd1 := set_checkpoint nd next cp) in *.
  assert (Hsame1 : ∀ e, ∃ t' D' U', node_ok nd1 t' D' U' ∧ still_kept nd t nd1 t' ∧ indexed nd nd1 ∧ reported m (false, false, Some e) nd1).
  { intros e. exists t, D, U. split; [done|]. split; [done|]. split; [by intros h|done]. }
  apply st_bind_ok in E as (? & ? & [= <- <-] & E). apply st_bind_ok in E as (e & nd2 & Ec & E).
  assert (nd2 = nd1) as -> by (destruct cp; [by apply lift_ok in Ec as [_ ->]|by injection Ec]).
  destruct e as [e|]; [injection E as <- <-; apply Hsame1|].
  apply st_bind_ok in E as (px & ? & [Epx ->]%lift_ok & E). destruct px; cbn [negb] in E.
  2: { apply st_bind_ok in E as (q & ? & [Eq ->]%lift_ok & E). apply st_bind_ok in E as (? & ? & [= _ <-] & E). injection E as <- <-.
       destruct (add_orphan_ok nd1 t D U m q Hok1 Hw Hnew Hno Eq) as [Hok2 Ho]. exists t, D, U. split; [done|].
       split; [exact Hk1|]. split; [by intros h|done]. }
  apply st_bind_ok in E as ([main e] & nd2 & Ea & E).
  destruct (maybeAcceptBlock_ok nd1 t D U m flags (main, e) nd2 Hok1 Hw Hnew Hno Hfl Ea) as (t2 & D2 & U2 & Hok2 & Hk2 & _ & Hg2 & Hin).
  assert (still_kept nd t nd2 t2) as Hk by (intros k Hk; by apply Hk2, Hk1). cbn in Hin.
  destruct e as [e|]; [injection E as <- <-; exists t2, D2, U2; split; [done|]; split; [done|]; split; [exact Hg2|done]|].
  apply st_bind_ok in E as (e & nd3 & El & E). destruct (orphan_loop_ok _ _ flags nd2 t2 D2 U2 e nd3 Hok2 Hfl El) as (t3 & D3 & U3 & Hok3 & Hk3 & Hg3).
  assert (still_kept nd t nd3 t3) as Hk' by (intros k Hkk; by apply Hk3, Hk).
  assert (indexed nd nd3) as Hg' by (intros h Hx; by apply Hg3, Hg2).
  exists t3, D3, U3. destruct e as [e|]; injection E as <- <-; (split; [done|]; split; [done|]; split; [done|]); [done|].
  apply Hg3. by apply Hin.
Qed.
End node.
