(* ===== verification/ProcessTotal.v ===== *)
(** * Taking a block always answers

    [ProcessBlock] returns on every block off the wire, whatever the state of the
    node: a broken rule is reported, and nothing else ends the call. *)
From stdpp Require Import fin_maps fin_sets strings list.
From Stdlib Require Import Lia ZArith.
From S2P Require Import Prelude Wire MsgTx ScriptError Crypto SigCache SigHash Engine MsgBlock Work ChainParams BlockIndex Difficulty Subsidy RuleError TxRules Merkle Compress UtxoView Ledger ConnectBlock ConnectSpec UtxoStore SizeHelper UtxoCache UtxoCacheSpec Disconnect ChainView ChainIO ChainState Reorg Replay ConnectTotal ChainSpec BlockRules RulesTotal Orphans Checkpoints ChainFrame ChainTotal Process ProcessSpec.

Section node.
Context `{HashFns} `{PowFFI} `{Keys} `{!MapRange bytes sigCacheEntry} `{!MapRange bytes TxSigHashes}.
Context `{Log2Conv} `{PubKeyFormats} `{!MapOrder OutPoint (option UtxoEntry)} `{!MapOrder bytes orphanBlock} `{!BlockPruner}.
Implicit Types U D : UtxoSet.

Context (p : Params) (c : Z) (mg : MsgBlock) (l : list MsgBlock) (cs : list Checkpoint) (st : bytes → Z).
Context (HP : presented mg l) (Hcs : sorted_checkpoints cs).
Context (Hreal : ∀ n cp, known mg l cs st n → cp ∈ cs → hash n = cp_Hash cp → height n = cp_Height cp).
Context (Hm : maturity_ok p) (Hsch : schedule (Some p) c) (Hre : retargets p).
Context (now adjusted : Z).

Abbreviation node_ok := (node_ok p c mg l cs st).
Abbreviation waiting := (waiting l).
Let HV : block_tree (block_of mg l) (known mg l cs st) := known_blocks mg l cs st HP.

Definition node_sigs_ok (nd : Node) : Prop := sigs_ok (chain nd).

Lemma node_params nd t D U : node_ok nd t D U → chainParams (base (chain nd)) = p.
Proof. intros Hok. apply (at_params _ _ _ _ _ _ _ _ _ (no_tip _ _ _ _ _ _ _ _ _ _ Hok)). Qed.

Lemma find_total nd t D U : node_ok nd t D U → ∃ next r, findPreviousCheckpoint nd = Ok (r, set_checkpoint nd next r).
Proof.
  intros Hok. destruct (find_ok p c mg l cs st HP Hcs Hreal nd t D U Hok) as (r & next & E & _). by exists next, r.
Qed.

Lemma st_try_total (m : ST RuleErr Node unit) nd : decided (λ _, True) (m nd) → ∃ e nd', st_try m nd = Ok (e, nd').
Proof. unfold st_try. destruct (m nd) as [[[] s]|[]|]; try done; intros _; by eexists _, _. Qed.

(** What is not in the index is not in the database. *)
Lemma blockExists_total nd t D U h : node_ok nd t D U → ∃ b, blockExists nd h = Ok b.
Proof.
  intros Hok. unfold blockExists, HaveBlock. case_bool_decide as Hx; [by eexists|].
  destruct (db_blocks (cdb (chain nd)) !! h) eqn:E; [|by eexists]. exfalso. apply Hx, (no_blocks _ _ _ _ _ _ _ _ _ _ Hok). by rewrite E.
Qed.

Lemma maybeAcceptBlock_total nd t D U m flags :
  node_ok nd t D U → waiting m → bi_index (index (chain nd)) !! MsgBlock_BlockHash m = None →
  orphans (pool nd) !! MsgBlock_BlockHash m = None → has_flag (Z.lor flags (NetBehaviorFlags p)) BFFastAdd = false → node_sigs_ok nd →
  ∃ r nd', maybeAcceptBlock now m flags nd = Ok (r, nd') ∧ node_sigs_ok nd'.
Proof.
  intros Hok Hw Hnew Hno Hfl Hs. unfold maybeAcceptBlock. cbv [mbind st_bind st_get].
  destruct (LookupNode (index (chain nd)) (bh_PrevBlock (block_header m))) as [prev|] eqn:Eprev; [|by eexists _, nd].
  destruct (KnownInvalid _); [by eexists _, nd|]. cbv zeta.
  destruct (prev_known p c mg l cs st nd t D U m prev Hok Eprev) as (_ & Hkp & _). pose proof (known_height mg l cs st HP prev Hkp) as Hh.
  pose proof (node_params nd t D U Hok) as Hpar. destruct (sb_coinbase _ (proj2 Hw)) as (cb & rest & Et & _).
  assert (∃ e nd1, st_try (checkBlockContext m prev flags) nd = Ok (e, nd1)) as (e & nd1 & Etry).
  { apply st_try_total. eapply checkBlockContext_decided; [by apply (pr_wf mg l HP), Hw|exact Et| |].
    - change (ctx_ChainParams (N:=blockNode) nd) with (chainParams (base (chain nd))). by rewrite Hpar.
    - destruct (find_total nd t D U Hok) as (next & r & E). by eexists. }
  rewrite Etry. pose proof (st_try_ok _ _ _ _ Etry) as Et1. destruct e as [e|]; [subst nd1; by eexists _, nd|].
  change (ctx_ChainParams (N:=blockNode) nd = p) in Hpar.
  destruct (checkBlockContext_ok p m prev flags nd nd1 Hpar (pr_wf mg l HP m (proj1 Hw)) Hfl ltac:(lia) Et1) as (Hcm & Hv & cp & Ef & _).
  destruct (find_keeps p c mg l cs st HP Hcs Hreal nd t D U cp nd1 Hok Ef) as (next & -> & Hok1 & _).
  cbv [st_modify]. set (nd2 := dbStoreBlock _ _ _ _).
  assert (En : ∀ bi, Add bi (to_header (block_header m)) (Some prev) statusDataStored (GetBlockVsize m) = (node_of st m prev, addNode bi (node_of st m prev))).
  { intros bi. unfold Add, node_of. by rewrite (no_new _ _ _ _ _ _ _ _ _ _ Hok _ Hnew). }
  rewrite En. clear En. change (set_chain nd2 (set_index (chain nd2) _)) with (with_block st (set_checkpoint nd next cp) m prev).
  pose proof (context_height p mg l cs st HP flags m prev Hkp Hcm) as Hcb.
  pose proof (verify_allows p c mg l cs st HP Hcs Hreal nd t D U m (height prev + 1) Hok Hv) as Hck.
  destruct (with_block_ok p c mg l cs st HP (set_checkpoint nd next cp) t D U m prev Hok1 Hw Hnew Hno Eprev Hcb Hck) as [Hok2 Hin].
  rewrite (block_of_new mg l st HP m prev Hw).
  destruct (best_chain_total p c (block_of mg l) (known mg l cs st) _ HV (no_sub _ _ _ _ _ _ _ _ _ _ Hok2) Hm Hsch now _ t D U (node_of st m prev) prev flags
    (no_tip _ _ _ _ _ _ _ _ _ _ Hok2) (no_best _ _ _ _ _ _ _ _ _ _ Hok2) Hin eq_refl (fast_add p flags Hfl) Hs) as (r & b' & E & Hs').
  unfold on_chain. rewrite E. by eexists _, _.
Qed.

(** What the loop leaves: of the orphans that were there, none whose parent is one
    of the hashes, and none whose parent was taken out. *)
Definition drained (hs : list bytes) (nd nd' : Node) : Prop :=
  orphans (pool nd') ⊆ orphans (pool nd) ∧
  ∀ k o, orphans (pool nd') !! k = Some o →
    (ob_prev o ∉ hs) ∧ (is_Some (orphans (pool nd) !! ob_prev o) → is_Some (orphans (pool nd') !! ob_prev o)).

Lemma drained_nil nd : drained [] nd nd.
Proof. split; [done|]. intros k o _. split; [by intros ?%elem_of_nil|done]. Qed.

(** A hash no orphan waits for is dropped. *)
Lemma drained_drop h rest nd t D U nd' :
  node_ok nd t D U → (∀ o os, prevOrphans (pool nd) !! h ≠ Some (o :: os)) → drained rest nd nd' → drained (h :: rest) nd nd'.
Proof.
  intros Hok Hnone [Hsub Hd]. split; [done|]. intros k o Ho. destruct (Hd k o Ho) as [Hr Hk]. split; [|done].
  intros [E|?]%elem_of_cons; [|done]. destruct (pool_maps _ _ (no_pool _ _ _ _ _ _ _ _ _ _ Hok)) as [_ _ Hl _].
  destruct (Hl k o) as (os & El & Hin); [by eapply lookup_weaken|]. rewrite E in El.
  destruct os as [|o1 os]; [by apply elem_of_nil in Hin|by destruct (Hnone o1 os)].
Qed.

(** An orphan is taken, and its hash goes to the end of the list. *)
Lemma drained_take h rest nd o nd2 nd' :
  pool nd2 = removeOrphanBlock o (pool nd) → drained ((h :: rest) ++ [ob_hash o]) nd2 nd' → drained (h :: rest) nd nd'.
Proof.
  intros Ep [Hsub Hd]. rewrite Ep in Hsub, Hd. cbn [removeOrphanBlock orphans] in Hsub, Hd. split.
  - etrans; [exact Hsub|apply delete_subseteq].
  - intros k x Hx. destruct (Hd k x Hx) as [Hr Hk]. split.
    + intros Hin. by apply Hr, elem_of_app; left.
    + intros Hs. apply Hk. rewrite lookup_delete_ne; [done|]. intros E. apply Hr, elem_of_app. right. rewrite <-E. by left.
Qed.

(** The rounds of [orphan_rounds] are enough. *)
Lemma orphan_loop_total fuel hs flags nd t D U :
  node_ok nd t D U → has_flag (Z.lor flags (NetBehaviorFlags p)) BFFastAdd = false → node_sigs_ok nd →
  (orphan_rounds nd hs < fuel)%nat →
  ∃ r nd', orphan_loop now fuel hs flags nd = Ok (r, nd') ∧ node_sigs_ok nd' ∧ (r = None → drained hs nd nd').
Proof.
  intros Hok Hfl. revert hs nd t D U Hok. unfold orphan_rounds.
  induction fuel as [|fuel IH]; intros hs nd t D U Hok Hs Hlt; [lia|]. cbn [orphan_loop].
  destruct hs as [|h rest]; [exists None, nd; split; [done|]; split; [done|intros _; apply drained_nil]|]. cbv [mbind st_bind st_get]. cbn [length] in Hlt.
  assert (∀ r nd', (∀ o os, prevOrphans (pool nd) !! h ≠ Some (o :: os)) → (r = None → drained rest nd nd') → r = @None RuleErr → drained (h :: rest) nd nd')
    as Hdrop by (intros r nd' Hno Hd Er; apply (drained_drop h rest nd t D U); auto).
  destruct (IH rest nd t D U Hok Hs ltac:(lia)) as (r0 & nd0 & E0 & Hs0 & Hd0).
  destruct (prevOrphans (pool nd) !! h) as [[|o os]|] eqn:El; [by exists r0, nd0; eauto| |by exists r0, nd0; eauto]. clear Hdrop r0 nd0 E0 Hs0 Hd0.
  destruct (list_orphan p c mg l cs st nd t D U h o os Hok El) as [Ho Hw].
  destruct (remove_orphan_ok p c mg l cs st HP nd t D U o Hok Ho) as (Hok1 & Hno & Hnew).
  cbv [st_modify]. destruct (maybeAcceptBlock_total _ t D U (ob_block o) flags Hok1 Hw Hnew Hno Hfl Hs) as ([b e] & nd2 & Ea & Hs2). rewrite Ea.
  destruct (maybeAcceptBlock_ok p c mg l cs st HP Hcs Hreal Hm Hsch now _ t D U (ob_block o) flags (b, e) nd2 Hok1 Hw Hnew Hno Hfl Ea)
    as (t1 & D1 & U1 & Hok2 & _ & Ep & _). destruct e as [e|]; [by exists (Some e), nd2|].
  destruct (IH ((h :: rest) ++ [ob_hash o]) nd2 t1 D1 U1 Hok2 Hs2) as (r & nd' & E & Hs' & Hd).
  { rewrite Ep. cbn [set_pool pool]. pose proof (remove_live_size o (pool nd) ltac:(by exists o)). rewrite length_app. cbn [length]. lia. }
  exists r, nd'. split; [exact E|]. split; [done|]. intros Er. by apply (drained_take h rest nd o nd2 nd' Ep), Hd.
Qed.

Lemma check_checkpoint_total m n fastAdd nd t D U : node_ok nd t D U → ∃ e, check_checkpoint m n fastAdd nd = Ok e.
Proof.
  intros Hok. unfold check_checkpoint. cbv zeta. rewrite (node_params nd t D U Hok). destruct (match LookupNode _ _ with Some _ => _ | None => _ end); [by eexists|].
  destruct (_ <? _); [by eexists|]. destruct (negb fastAdd); [|by eexists].
  destruct (checkpoint_target_total p (bits n) (i64 ((bh_Timestamp (block_header m) - timestamp n) * Second)) (bh_Bits (block_header m)) Hre) as [ok ->].
  by eexists.
Qed.

Lemma ProcessBlock_total nd t D U m flags :
  node_ok nd t D U → m ∈ l → has_flag (Z.lor flags (NetBehaviorFlags p)) BFFastAdd = false → node_sigs_ok nd →
  ∃ r nd', ProcessBlock now adjusted m flags nd = Ok (r, nd') ∧ node_sigs_ok nd'.
Proof.
  intros Hok Hml Hfl Hs. unfold ProcessBlock. cbv zeta. cbv [mbind st_bind st_get].
  destruct (blockExists_total nd t D U (MsgBlock_BlockHash m) Hok) as [ex Ex]. unfold st_lift at 1. rewrite Ex. cbn [mbind result_bind].
  destruct ex; [by eexists _, nd|]. pose proof (blockExists_false _ _ Ex) as Hnew. unfold IsKnownOrphan.
  case_bool_decide as Hno; [by eexists _, nd|]. apply eq_None_not_Some in Hno.
  assert (∃ e nd1, st_try (st_lift (checkBlockSanity m (chainParams (base (chain nd))) adjusted flags)) nd = Ok (e, nd1)) as (e & nd0 & Etry).
  { apply st_try_total, decided_lift. eapply decided_mono; [by apply checkBlockSanity_decided, (pr_wf mg l HP)|done]. }
  rewrite Etry. pose proof (st_try_ok _ _ _ _ Etry) as Es. destruct e as [e|]; [subst nd0; by eexists _, nd|].
  apply lift_ok in Es as [Es ->]. rewrite (node_params nd t D U Hok) in Es.
  destruct (proj1 (proj2 (checkBlockSanity_iff p adjusted flags m (pr_wf mg l HP m Hml))) Es) as (cert & Hsn).
  assert (waiting m) as Hw by (split; [done|apply Hsn]).
  destruct (find_total nd t D U Hok) as (next & cp & Ef). rewrite Ef.
  destruct (find_keeps p c mg l cs st HP Hcs Hreal nd t D U cp _ Hok Ef) as (next' & _ & Hok1 & _).
  set (nd1 := set_checkpoint nd next cp) in *.
  assert (∃ e, match cp with Some node => st_lift (check_checkpoint m node (has_flag flags BFFastAdd) nd1) nd1 | None => Ok (None, nd1) end = Ok (e, nd1)) as [e Ec].
  { destruct cp as [n|]; [|by eexists]. destruct (check_checkpoint_total m n (has_flag flags BFFastAdd) nd1 t D U Hok1) as [e E].
    exists e. unfold st_lift. by rewrite E. }
  assert (∀ (f : option RuleErr → ST RuleErr Node (bool * bool * option RuleErr)),
    (match (match cp with Some node => st_lift (check_checkpoint m node (has_flag flags BFFastAdd) nd1) | None => mret None end) nd1 with
     | Ok (x, s) => f x s | Fail e => Fail e | Panic => Panic end) = f e nd1) as Hstep.
  { intros f. destruct cp; [by rewrite Ec|]. by injection Ec as <-. }
  unfold mret in Hstep. rewrite Hstep. clear Hstep.
  destruct e as [e|]; [by eexists _, nd1|].
  destruct (blockExists_total nd1 t D U (bh_PrevBlock (block_header m)) Hok1) as [px Epx]. unfold st_lift at 1. rewrite Epx. cbn [mbind result_bind].
  destruct px; cbn [negb].
  2: { destruct (addOrphanBlock_ok (E:=RuleErr) waiting (waiting_prev mg l HP) (now * Second) m (pool nd1) (no_pool _ _ _ _ _ _ _ _ _ _ Hok1) Hw Hno)
         as (q & _ & E & _). unfold st_lift at 1. rewrite E. cbn [mbind result_bind]. by eexists _, _. }
  destruct (maybeAcceptBlock_total nd1 t D U m flags Hok1 Hw Hnew Hno Hfl Hs) as ([main e] & nd2 & Ea & Hs2). rewrite Ea.
  destruct (maybeAcceptBlock_ok p c mg l cs st HP Hcs Hreal Hm Hsch now nd1 t D U m flags (main, e) nd2 Hok1 Hw Hnew Hno Hfl Ea) as (t2 & D2 & U2 & Hok2 & _).
  destruct e as [e|]; [by eexists _, nd2|]. unfold processOrphans.
  destruct (orphan_loop_total (S (orphan_rounds nd2 [MsgBlock_BlockHash m])) [MsgBlock_BlockHash m] flags nd2 t2 D2 U2 Hok2 Hfl Hs2 ltac:(lia))
    as (e & nd3 & El & Hs3 & _).
  rewrite El. destruct e as [e|]; by eexists _, nd3.
Qed.
End node.
