(* ===== verification/Start.v ===== *)
(** * Starting a node (blockchain/chain.go, chainio.go, utxocache.go)

    [New], [createChainState], [initChainState] and [InitConsistentState]: the
    state of a chain from a database without one, or from what a node left in its
    database, with the coins brought up to the best block when they lag behind.
    The buckets and their versions, the optional indexes, the clocks of
    deployments, the threshold caches and interrupts are left out. *)
From stdpp Require Import fin_maps strings list sorting.
From Stdlib Require Import Lia ZArith.
From S2P Require Import Prelude Wire MsgTx ScriptError Standard Crypto SigCache SigHash MsgBlock ChainParams Work BlockIndex RuleError TxRules Merkle Compress UtxoView Ledger ConnectBlock UtxoStore SizeHelper UtxoCache UtxoCacheSpec ChainView ChainIO ChainState BlockRules Orphans Checkpoints Process.

(** What outlives a node: the blocks and buckets, the coins with their mark, and
    the rows of the block index. *)
Record Disk := mkDisk {
  dk_chain : ChainDB;
  dk_utxo : CacheDB;
  dk_headers : Bucket;
  dk_vsizes : Bucket
}.

Definition disk_of (nd : Node) : Disk :=
  mkDisk (cdb (chain nd)) (db (ConnectBlock.utxoCache (base (chain nd)))) (headerRows nd) (vsizeRows nd).

(** Errors of the database and of decoding are not told apart. *)
Definition lift_db {E A} (what : string) (r : result E A) : result RuleErr A :=
  match r with Ok a => Ok a | Fail _ => Fail (ErrCorruption what) | Panic => Panic end.

(** [bytes.Compare(a, b) <= 0], the order of keys, and a bucket in it. *)
Fixpoint bytes_le (a b : bytes) : bool :=
  match a, b with
  | [], _ => true
  | _ :: _, [] => false
  | x :: a, y :: b => (b2z x <? b2z y) || (b2z x =? b2z y) && bytes_le a b
  end.

Definition key_le (x y : bytes * bytes) : Prop := bytes_le x.1 y.1 = true.

#[export] Instance key_le_dec : RelDecision key_le := λ x y, decide (bytes_le x.1 y.1 = true).

Definition cursor (b : Bucket) : list (bytes * bytes) := merge_sort key_le (map_to_list b).

Section start.
Context `{HashFns} `{Log2Conv} `{PubKeyFormats} `{!MapOrder OutPoint (option UtxoEntry)}.

(** [time.Now()] *)
Variable now : Z.

(** ** A new chain *)

(** [dbStoreBlock] writes the status again, without the bit for valid blocks. *)
Definition createChainState (b : @BlockChain utxoCache) (genesis : MsgBlock) (byHeight : gmap Z Checkpoint) (prune : Z) : result RuleErr Node :=
  let header := block_header genesis in
  let vsize := GetBlockVsize genesis in
  let node := newBlockNode (to_header header) None (Z.lor statusDataStored statusValid) vsize in
  view ← lift_empty (setTip (mkChainView []) (Some node));
  let index := addNode newBlockIndex node in
  let numTxns := zlen (mb_Transactions genesis) in
  let snapshot := newBestState node numTxns numTxns (timestamp node) (timestamp node) in
  let d := mkChainDB ∅ (dbPutBlockIndex (mkIndexBuckets ∅ ∅) (hash node) (height node)) []
    (dbStoreBlockStatus ∅ (hash node) (status node)) ∅ in
  let d := dbPutBestState d snapshot (workSum node) in
  let nd := mkNode (mkChain b index view snapshot d prune) emptyPool None None byHeight ∅ (dbStoreBlockVsize ∅ (hash node) vsize) in
  Ok (dbStoreBlock (at_height genesis 0) header vsize nd).

(** ** A stored chain *)

(** The loop over the rows of the block index. *)
Fixpoint load_nodes (rows : list (bytes * bytes)) (statusRows vsizeRows : Bucket) (GenesisHash : bytes)
    (lastNode : option blockNode) (bi : blockIndex) : result RuleErr blockIndex :=
  match rows with
  | [] => Ok bi
  | (_, headerBytes) :: rows =>
      '(header, _) ← lift_db "header" (readBlockHeader headerBytes);
      let blockHash := BlockHash header in
      status ← lift_db "initChainState: Could not find status for block" (dbFetchBlockStatus statusRows blockHash);
      parent ← (match lastNode with
                | None =>
                    if negb (bool_decide (blockHash = GenesisHash))
                    then Fail (assertError "initChainState: Expected first entry in block index to be genesis block")
                    else Ok None
                | Some lastNode =>
                    if bool_decide (bh_PrevBlock header = hash lastNode) then Ok (Some lastNode)
                    else
                      match LookupNode bi (bh_PrevBlock header) with
                      | None => Fail (assertError "initChainState: Could not find parent for block")
                      | Some parent => Ok (Some parent)
                      end
                end);
      vsize ← lift_db "vsize" (dbFetchBlockVsize vsizeRows blockHash);
      let node := newBlockNode (to_header header) parent status vsize in
      load_nodes rows statusRows vsizeRows GenesisHash (Some node) (addNode bi node)
  end.

(** [for iterNode := tip; iterNode != nil; iterNode = iterNode.parent] *)
Fixpoint mark_ancestors (iterNode : blockNode) (bi : blockIndex) : blockIndex :=
  let bi := if negb (KnownValid (NodeStatus bi iterNode)) then SetStatusFlags bi iterNode statusValid else bi in
  match parent iterNode with Some p => mark_ancestors p bi | None => bi end.

(** The size of the best block is only reported, and left out. *)
Definition initChainState (b : @BlockChain utxoCache) (genesis : MsgBlock) (byHeight : gmap Z Checkpoint) (prune : Z)
    (disk : option Disk) : result RuleErr Node :=
  match disk with
  | None => createChainState b genesis byHeight prune
  | Some disk =>
      let d := dk_chain disk in
      state ← lift_db "corrupt best chain state" (deserializeBestChainState (db_bestState d));
      bi ← load_nodes (cursor (dk_headers disk)) (db_status d) (dk_vsizes disk) (GenesisHash b) None newBlockIndex;
      match LookupNode bi (bcs_hash state) with
      | None => Fail (assertError "initChainState: cannot find chain tip in block index")
      | Some t =>
          view ← lift_empty (setTip (mkChainView []) (Some t));
          match db_blocks d !! bcs_hash state with
          | None => Fail ErrBlockNotFound
          | Some block =>
              let bi := mark_ancestors t bi in
              medianTime ← lift_empty (CalcPastMedianTime (Some t));
              let snapshot := newBestState t (zlen (b_Transactions block)) (bcs_totalTxns state) medianTime (timestamp t) in
              '(_, b) ← flush_index (mkChain b bi view snapshot d prune);
              Ok (mkNode b emptyPool None None byHeight (dk_headers disk) (dk_vsizes disk))
          end
      end
  end.

(** ** The coins of the best block *)

(** [for n := tip; n.height >= 0; n = n.parent], with [PushFront] *)
Fixpoint attach_nodes (fork : option blockNode) (n : blockNode) (attachNodes : list blockNode) : result RuleErr (list blockNode) :=
  if negb (0 <=? height n) then Ok attachNodes
  else if same (Some n) fork then Ok attachNodes
  else
    match parent n with
    | Some p => attach_nodes fork p (n :: attachNodes)
    | None => Panic
    end.

Fixpoint replay_nodes (d : ChainDB) (attachNodes : list blockNode) (s : utxoCache) : result RuleErr utxoCache :=
  match attachNodes with
  | [] => Ok s
  | node :: attachNodes =>
      block ← dbFetchBlockByNode d node;
      '(_, s) ← cache_connectTransactions block None s;
      should ← shouldFlush FlushIfNeeded (hash node) now s;
      s ← (if should : bool then flush FlushIfNeeded (hash node) now s else Ok s);
      replay_nodes d attachNodes s
  end.

Definition consistent_at (s : utxoCache) (tip : blockNode) : utxoCache :=
  mkUtxoCache (db s) (maxTotalMemoryUsage s) (cachedEntries s) (totalEntryMemory s) (hash tip) now.

Definition dbPutUtxoStateConsistency (s : utxoCache) (hash : bytes) : utxoCache :=
  mkUtxoCache (mkCacheDB (utxoBucket (db s)) (Some hash)) (maxTotalMemoryUsage s) (cachedEntries s) (totalEntryMemory s)
    (lastFlushHash s) (lastFlushTime s).

(** A mark of a block that is not in the index is dereferenced. *)
Definition InitConsistentState (tip : blockNode) : ST RuleErr Chain unit := λ b,
  let s := ConnectBlock.utxoCache (base b) in
  match utxoStateConsistency (db s) with
  | None => Ok ((), set_cache b (consistent_at (dbPutUtxoStateConsistency s (hash tip)) tip))
  | Some statusHash =>
      if negb (zlen statusHash =? HashSize) then Fail (ErrCorruption "invalid hash length")
      else if bool_decide (statusHash = hash tip) then Ok ((), set_cache b (consistent_at s tip))
      else
        match LookupNode (index b) statusHash with
        | None => Panic
        | Some lastFlushNode =>
            match findFork (bestChain b) (Some lastFlushNode) with
            | None => Fail (assertError "last utxo consistency status contains hash that is not in best chain")
            | Some fork =>
                attachNodes ← attach_nodes (Some fork) tip [];
                s ← replay_nodes (cdb b) attachNodes s;
                Ok ((), set_cache b (consistent_at s tip))
            end
        end
  end.

(** ** New *)

Definition New (params : Params) (genesis : MsgBlock) (checkpoints : list Checkpoint) (UtxoCacheMaxSize Prune : Z)
    (sigCache : option SigCache) (hashCache : HashCache) (disk : option Disk) : result RuleErr Node :=
  if MoEForkHeight params <? 0 then Fail (assertError "blockchain.New MoEForkHeight must be >= 0")
  else if RankPenaltyForkHeight params <? 0 then Fail (assertError "blockchain.New RankPenaltyForkHeight must be >= 0")
  else if negb (RankPenaltyForkHeight params =? 0) && (RankPenaltyForkHeight params <? MoEForkHeight params)
  then Fail (assertError "blockchain.New RankPenaltyForkHeight must not precede MoEForkHeight")
  else if SaltedSeedForkHeight params <? 0 then Fail (assertError "blockchain.New SaltedSeedForkHeight must be >= 0")
  else if negb (SaltedSeedForkHeight params =? 0) && (SaltedSeedForkHeight params <? MoEForkHeight params)
  then Fail (assertError "blockchain.New SaltedSeedForkHeight must not precede MoEForkHeight")
  else
    checkpointsByHeight ← checkpoint_map checkpoints 0 ∅;
    let utxo := match disk with Some disk => dk_utxo disk | None => mkCacheDB ∅ None end in
    let b := mkBlockChain params (MsgBlock_BlockHash genesis) checkpoints (newUtxoCache utxo UtxoCacheMaxSize)
      sigCache hashCache in
    nd ← initChainState b genesis checkpointsByHeight Prune disk;
    bestNode ← (match tip (bestChain (chain nd)) with Some n => Ok n | None => Panic end);
    '(_, b) ← InitConsistentState bestNode (chain nd);
    Ok (set_chain nd b).
End start.
