(* ===== verification/Recover.v ===== *)
(** * The coins after an unclean shutdown

    [InitConsistentState] on a chain at a tip whose bucket of coins was last
    flushed at some block of the branch: the blocks above that one are replayed
    into the cache, which then stands for the coins of the tip. *)
From stdpp Require Import fin_maps fin_sets strings.
From Stdlib Require Import Lia ZArith.
From S2P Require Import Prelude Wire MsgTx ScriptError Crypto SigCache SigHash Engine MsgBlock Work ChainParams BlockIndex Difficulty Subsidy RuleError TxRules Merkle Compress UtxoView Ledger ConnectBlock ConnectSpec UtxoStore SizeHelper UtxoCache UtxoCacheSpec Disconnect ChainView ChainIO ChainState Reorg Replay ChainSpec BlockRules Orphans Checkpoints Process Start.

Section recover.
Context `{HashFns} `{Log2Conv} `{PubKeyFormats} `{!MapOrder OutPoint (option UtxoEntry)}.
Implicit Types U W D : UtxoSet.

Context (p : Params) (c : Z) (blk : blockNode → Block) (T : blockNode → Prop) (HT : block_tree blk T).
Let HTt : is_tree T := bt_tree blk T HT.

(** A cache that stands for [U], over the coins of a block of the branch of [n]
    that its mark names. *)
Definition lags (s : utxoCache) (n : blockNode) U : Prop :=
  ∃ a D, a ∈ branch n ∧ replay p c blk a D ∧ mark s = Some (hash a) ∧ cache_repr s D U.

Lemma attach_nodes_unfold f n acc :
  attach_nodes f n acc =
    if negb (0 <=? height n) then Ok acc else if same (Some n) f then Ok acc
    else match parent n with Some q => attach_nodes f q (n :: acc) | None => Panic end.
Proof. by destruct n. Qed.

Lemma attach_nodes_ok f n : T n → f ∈ branch n → ∀ acc, attach_nodes (Some f) n acc = Ok (above f n ++ acc).
Proof.
  intros Hn Hf. pose proof (tree_wf T HTt n Hn) as Hw. revert n Hw Hf Hn.
  apply (branch_climb f (λ n, T n → ∀ acc, attach_nodes (Some f) n acc = Ok (above f n ++ acc))).
  - intros Hf acc. pose proof (tree_wf T HTt f Hf) as Hw. pose proof (node_wf_height f Hw). rewrite above_self by done.
    rewrite attach_nodes_unfold, (proj2 (Z.leb_le 0 _)) by lia. cbn [negb]. by rewrite node_same_refl.
  - intros n q Hw Hp Hf IH Hn acc. pose proof (node_wf_height n Hw). rewrite (above_step f n q) by done.
    rewrite attach_nodes_unfold, (proj2 (Z.leb_le 0 _)) by lia. cbn [negb]. rewrite (not_same T HTt n q f), Hp by done.
    rewrite (IH (tree_parent T HTt n q Hn Hp)). by rewrite <-(assoc_L (++)).
Qed.

(** One block: into the cache, and a flush where one is due. *)
Lemma replay_node_ok now (d : ChainDB) (s : utxoCache) n q U W :
  T n → parent n = Some q → replay p c blk n W → lags s q U → replay p c blk q U →
  ∃ s', (r ← cache_connectTransactions (blk n) None s;
         should ← shouldFlush FlushIfNeeded (hash n) now r.2;
         if (should : bool) then flush FlushIfNeeded (hash n) now r.2 else Ok r.2) = Ok s' ∧ lags s' n W.
Proof.
  intros Hn Hp Hr (a & D & Ha & HrD & Hmk & Hs) HrU. destruct (replay_inv _ _ _ _ _ _ Hp Hr) as (U' & css & fees & HrU' & Hst & _).
  assert (U' = U) as -> by (by eapply replay_det).
  destruct (bt_sane blk T HT n q Hn Hp) as (Hsb & _ & Hh & Hf).
  pose proof (replay_fresh p c blk T HT n q a D W Hn Hp Hr Ha HrD) as HfD.
  destruct (cache_connect_loop_ok s D U _ _ _ _ _ _ None Hs (sb_wf _ Hsb) Hh Hf HfD Hst) as (s1 & E & Hs1 & Hdb).
  assert (Han : a ∈ branch n) by (apply elem_of_branch; right; by exists q).
  unfold cache_connectTransactions. rewrite (proj2 (bt_block blk T HT n Hn)). unfold txs_of in E. rewrite E.
  cbn [mbind result_bind snd].
  destruct (flush_ok s1 D W FlushIfNeeded (hash n) now Hs1) as (s2 & Ef & [[Es ->]|(Es & Hs2 & Hmk2 & _)]); rewrite Es;
    cbn [mbind result_bind].
  - exists s1. split; [done|]. exists a, D. split_and!; [done|done| |done]. unfold mark in *. by rewrite Hdb.
  - exists s2. split; [done|]. exists n, W. split_and!; [apply branch_self|done|done|done].
Qed.

Lemma replay_nodes_ok now d l : (∀ n, T n → dbFetchBlockByNode d n = Ok (blk n)) → ∀ f n s U W,
  T n → Forall T l → up f l n → replay p c blk f U → replay p c blk n W → lags s f U →
  ∃ s', replay_nodes now d l s = Ok s' ∧ lags s' n W.
Proof.
  intros Hd. induction l as [|m l IH]; intros f n s U W Hn Hl Hu HrU HrW Hs; cbn [replay_nodes up] in *.
  { subst n. rewrite (replay_det _ _ _ _ _ _ HrW HrU). by exists s. }
  destruct Hu as [Hp Hu]. apply Forall_cons in Hl as [HTm Hl].
  assert (∃ Wm, replay p c blk m Wm) as [Wm HrWm].
  { apply (replay_branch p c blk n m W HrW). by apply (up_branch T HTt m l). }
  destruct (replay_node_ok now d s m f U Wm HTm Hp HrWm Hs HrU) as (s1 & E & Hs1).
  destruct (IH m n s1 Wm W Hn Hl Hu HrWm HrW Hs1) as (s' & E' & Hs'). exists s'. split; [|done].
  rewrite (Hd m HTm). cbn [mbind result_bind]. cbn [mbind result_bind] in E.
  destruct (cache_connectTransactions (blk m) None s) as [[x s2]| |]; [|done..]. cbn [mbind result_bind snd] in E |- *.
  destruct (shouldFlush FlushIfNeeded (hash m) now s2) as [[]| |]; [| |done..]; cbn [mbind result_bind] in E |- *; [by rewrite E|].
  by injection E as ->.
Qed.

Lemma lags_consistent_at now s n U t : lags s n U → lags (consistent_at now s t) n U.
Proof. intros (a & D & Ha & HrD & Hmk & []). exists a, D. by split_and!. Qed.

(** The mark of a block of the branch is enough. *)
Lemma InitConsistentState_ok now b t a D U :
  T t → height t < 2 ^ 31 - 1 → view_of (bestChain b) (Some t) → a ∈ branch t → LookupNode (index b) (hash a) = Some a →
  (∀ n, T n → dbFetchBlockByNode (cdb b) n = Ok (blk n)) → replay p c blk t U → replay p c blk a D →
  cache_repr (ConnectBlock.utxoCache (base b)) D D → mark (ConnectBlock.utxoCache (base b)) = Some (hash a) → zlen (hash a) = HashSize →
  ∃ s, InitConsistentState now t b = Ok ((), set_cache b s) ∧ lags s t U.
Proof.
  intros Ht Hmax Hv Ha Hl Hd HrU HrD Hs Hmk Hsz. unfold InitConsistentState. unfold mark in Hmk. rewrite Hmk, Hsz. cbn [negb Z.eqb].
  assert (HTa : T a) by by apply (branch_T T HTt a t).
  assert (lags (ConnectBlock.utxoCache (base b)) a D) as Hla by (exists a, D; by split_and!; [apply branch_self|..]).
  rewrite Z.eqb_refl. cbn [negb]. case_bool_decide as E.
  - apply (tree_hash T HTt) in E as ->; [|done..]. eexists. split; [done|]. apply lags_consistent_at.
    by rewrite (replay_det _ _ _ _ _ _ HrU HrD).
  - rewrite Hl. destruct (findFork_view T HTt (bestChain b) t Hv Ht Hmax a HTa) as (f & Ef & HTf & Hff). rewrite Ef.
    assert (f = a) as ->.
    { destruct Hff as (Hfa & Hft & Hlast). specialize (Hlast a (branch_self a) Ha).
      apply elem_of_branch in Hfa as [->|(q & Hq & Hfq)]; [done|]. exfalso.
      destruct (child_height T HTt a q HTa Hq) as (HTq & _ & Hni). apply Hni.
      by apply (branch_trans a f q); [apply (tree_wf T HTt)|..]. }
    rewrite (attach_nodes_ok a t Ht Ha []), app_nil_r. cbn [mbind result_bind].
    destruct (replay_nodes_ok now (cdb b) (above a t) Hd a t (ConnectBlock.utxoCache (base b)) D U Ht) as (s & Er & Hs'); [|by apply (up_above T HTt)|done|done|exact Hla|].
    { apply Forall_drop. by apply branch_tree. }
    rewrite Er. cbn [mbind result_bind]. eexists. split; [done|]. by apply lags_consistent_at.
Qed.
End recover.
