(* ===== verification/StartSpec.v ===== *)
(** * A node starts and starts again

    A database without a chain gives a node at its first block.  Whatever a node
    was given before it stopped, what it left in the database gives a node at the
    same best block with the same coins, though the cache, the index and the view
    are gone: the rows of the index rebuild the tree, the stored state names the
    tip, and the blocks above the last flush are replayed. *)
From stdpp Require Import fin_maps fin_sets strings list sorting.
From Stdlib Require Import Lia ZArith.
From S2P Require Import Prelude Wire MsgTx ScriptError Crypto SigCache SigHash Engine MsgBlock Work ChainParams BlockIndex Difficulty Subsidy RuleError TxRules Merkle Compress UtxoView Ledger ConnectBlock ConnectSpec UtxoStore SizeHelper UtxoCache UtxoCacheSpec Disconnect ChainView ChainIO ChainState Reorg Replay ChainSpec BlockRules Orphans Checkpoints ChainFrame Process ProcessSpec Start Recover.

(** ** The order of keys *)

Lemma bytes_le_total a b : bytes_le a b = true ∨ bytes_le b a = true.
Proof.
  revert b. induction a as [|x a IH]; intros [|y b]; [by left|by left|by right|]. cbn [bytes_le].
  rewrite !orb_true_iff, !andb_true_iff, !Z.ltb_lt, !Z.eqb_eq.
  destruct (Z.lt_total (b2z x) (b2z y)) as [?|[?|?]]; [by left; left| |by right; left]. destruct (IH b); [left|right]; by right.
Qed.

Lemma bytes_le_trans a b c : bytes_le a b = true → bytes_le b c = true → bytes_le a c = true.
Proof.
  revert b c. induction a as [|x a IH]; intros [|y b] [|z c]; [done..|]. cbn [bytes_le].
  rewrite !orb_true_iff, !andb_true_iff, !Z.ltb_lt, !Z.eqb_eq.
  intros [?|[? ?]] [?|[? ?]]; [left; lia..|]. right. split; [lia|]. by apply (IH b).
Qed.

Lemma bytes_lt_le a b : bytes_lt a b → bytes_le b a = false.
Proof.
  revert b. induction a as [|x a IH]; intros [|y b]; cbn [bytes_lt bytes_le]; [done|done|done|].
  intros [Hlt|[-> Hlt]].
  - rewrite (proj2 (Z.ltb_ge _ _)), (proj2 (Z.eqb_neq _ _)) by lia. done.
  - rewrite Z.ltb_irrefl, Z.eqb_refl. by apply IH.
Qed.

#[local] Instance key_le_trans : Transitive key_le.
Proof. intros x y z. apply bytes_le_trans. Qed.

#[local] Instance key_le_total : Total key_le.
Proof. intros x y. apply bytes_le_total. Qed.

Lemma cursor_sorted b : StronglySorted key_le (cursor b).
Proof. apply (StronglySorted_merge_sort key_le). Qed.

Lemma elem_of_cursor b k v : (k, v) ∈ cursor b ↔ b !! k = Some v.
Proof. unfold cursor. rewrite (merge_sort_Permutation key_le). apply elem_of_map_to_list. Qed.

(** A list of images is the image of a list. *)
Lemma list_preimage {A B} (f : A → B) (P : A → Prop) (l : list B) :
  (∀ y, y ∈ l → ∃ x, P x ∧ y = f x) → ∃ xs, l = f <$> xs ∧ Forall P xs.
Proof.
  induction l as [|y l IH]; intros Hl; [by exists []|].
  destruct (Hl y) as (x & Hx & ->); [by left|]. destruct IH as (xs & -> & Hxs); [intros z Hz; apply Hl; by right|].
  exists (x :: xs). split; [done|by constructor].
Qed.

(** ** The nodes with other statuses *)

Section relabel.
Context `{HashFns}.
Context (mg : MsgBlock) (l : list MsgBlock) (cs : list Checkpoint) (HP : presented mg l).

(** The node a row of the index gives, when the rows of statuses are [st]. *)
Fixpoint relabel (st : bytes → Z) (n : blockNode) : blockNode :=
  match parent n with
  | None => first_node mg st
  | Some q => node_of st (stored mg l n) (relabel st q)
  end.

Lemma relabel_next st st' m q : m ∈ l → relabel st' (node_of st m q) = node_of st' m (relabel st' q).
Proof. intros Hm. cbn [relabel parent node_of newBlockNode]. by rewrite (stored_hash mg l HP m). Qed.

Lemma hash_node st m q : hash (node_of st m q) = MsgBlock_BlockHash m.
Proof. done. Qed.

(** What a node is but for its status. *)
Lemma relabel_ok st st' n : known mg l cs st n →
  known mg l cs st' (relabel st' n) ∧ hash (relabel st' n) = hash n ∧ height (relabel st' n) = height n ∧
  workSum (relabel st' n) = workSum n ∧ vsize (relabel st' n) = vsize n ∧ parent (relabel st' n) = relabel st' <$> parent n.
Proof.
  induction 1 as [|m q Hq (IHk & IHh & IHt & IHw & _ & _) Hm Hp Hs Hc Hk]; [by split_and!; [constructor|..]|].
  rewrite relabel_next by done. split_and!; try done.
  - constructor; [done|done|congruence|done|by rewrite IHt|by rewrite IHt].
  - cbn [node_of newBlockNode height]. by rewrite IHt.
  - cbn [node_of newBlockNode workSum]. by rewrite IHw.
Qed.

Lemma relabel_back st st' n : known mg l cs st n → relabel st (relabel st' n) = n.
Proof.
  intros Hk. destruct (relabel_ok st st' n Hk) as (Hk' & Hh & _).
  destruct (relabel_ok st' st _ Hk') as (Hk2 & Hh2 & _). apply (known_hash mg l cs st HP); [done|done|congruence].
Qed.

Lemma branch_relabel st st' n : known mg l cs st n → branch (relabel st' n) = relabel st' <$> branch n.
Proof.
  intros Hk. induction Hk as [|m q Hq IH Hm Hp Hs Hc Hck]; [done|].
  rewrite relabel_next by done. rewrite (branch_unfold (node_of st' m _)), (branch_unfold (node_of st m q)).
  cbn [parent node_of newBlockNode]. rewrite fmap_app. cbn [fmap list_fmap]. f_equal; [exact IH|]. f_equal. symmetry. by apply (relabel_next st).
Qed.

Lemma branch_relabel_in st st' n a' : known mg l cs st n → a' ∈ branch (relabel st' n) → ∃ a, a' = relabel st' a ∧ a ∈ branch n.
Proof. intros Hk. rewrite (branch_relabel st st' n Hk). intros (a & -> & Ha)%list_elem_of_fmap. by exists a. Qed.

Lemma block_relabel st st' n : known mg l cs st n → block_of mg l (relabel st' n) = block_of mg l n.
Proof. intros Hk. destruct (relabel_ok st st' n Hk) as (_ & Hh & Ht & _). unfold block_of, stored. by rewrite Hh, Ht. Qed.

Abbreviation blk := (block_of mg l).

Lemma txs_relabel st st' n : known mg l cs st n → txs_of blk (relabel st' n) = txs_of blk n.
Proof. intros Hk. unfold txs_of. by rewrite (block_relabel st). Qed.

Lemma replay_relabel p c st st' n U : known mg l cs st n → replay p c blk n U → replay p c blk (relabel st' n) U.
Proof.
  intros Hk Hr. induction Hr as [n Hp|n q U css fees W Hp Hr IH Hs Ht]; destruct (relabel_ok st st' n Hk) as (_ & _ & Eh & _ & _ & Ep).
  - apply replay_first. by rewrite Ep, Hp.
  - rewrite Hp in Ep. apply (replay_block _ _ _ _ (relabel st' q) U css fees W); [done| | |by rewrite Eh].
    + apply IH. by apply (known_parent mg l cs st n).
    + rewrite Eh, (txs_relabel st) by done. exact Hs.
Qed.

Lemma spent_relabel p c st st' n css : known mg l cs st n → spent p c blk (relabel st' n) css → spent p c blk n css.
Proof.
  intros Hk (q' & U & fees & W & Hp & Hr & Hs). destruct (relabel_ok st st' n Hk) as (_ & _ & Eh & _ & _ & Ep).
  rewrite Eh, (txs_relabel st) in Hs by done. rewrite Ep in Hp. destruct (parent n) as [q|] eqn:Hq; [|done]. injection Hp as <-.
  assert (known mg l cs st q) as Hkq by by apply (known_parent mg l cs st n).
  exists q, U, fees, W. split; [done|]. split; [|done]. rewrite <-(relabel_back st st' q Hkq).
  apply (replay_relabel p c st'); [|done]. by apply (relabel_ok st st' q).
Qed.
End relabel.

(** ** Loading the index *)

Section load.
Context `{HashFns}.
Context (mg : MsgBlock) (l : list MsgBlock) (cs : list Checkpoint) (HP : presented mg l).
Context (st st' : bytes → Z) (ix : gmap bytes blockNode) (headers statuses vsizes : Bucket).
Context (Hsub : subtree (in_index ix) (known mg l cs st)).
Context (Hkeys : ∀ h n, ix !! h = Some n → hash n = h).
Context (Hheaders : ∀ k v, headers !! k = Some v ↔
  ∃ n, in_index ix n ∧ k = blockIndexKey (hash n) (height n) ∧ v = writeBlockHeader (block_header (stored mg l n))).
Context (Hstatus : ∀ n, in_index ix n → dbFetchBlockStatus statuses (hash n) = Ok (st' (hash n))).
Context (Hvsize : ∀ n, in_index ix n → dbFetchBlockVsize vsizes (hash n) = Ok (vsize n)).

Abbreviation label := (relabel mg l st').

Definition header_row (n : blockNode) : bytes * bytes :=
  (blockIndexKey (hash n) (height n), writeBlockHeader (block_header (stored mg l n))).

Lemma ix_known n : in_index ix n → known mg l cs st n.
Proof. apply (sub_in _ _ Hsub). Qed.

(** The rows, in the order they are read. *)
Lemma cursor_nodes : ∃ ns, cursor headers = header_row <$> ns ∧ ∀ n, n ∈ ns ↔ in_index ix n.
Proof.
  destruct (list_preimage header_row (in_index ix) (cursor headers)) as (ns & E & Hns).
  { intros [k v] (n & Hn & -> & ->)%elem_of_cursor%Hheaders. by exists n. }
  exists ns. split; [done|]. rewrite Forall_forall in Hns. intros n. split; [by apply Hns|]. intros Hn.
  assert (header_row n ∈ cursor headers) as Hin by (apply elem_of_cursor, Hheaders; by exists n).
  rewrite E in Hin. apply list_elem_of_fmap in Hin as (n' & En & Hn'). pose proof (f_equal fst En) as Ek. apply blockIndexKey_hash in Ek.
  by rewrite (known_hash mg l cs st HP n n' (ix_known n Hn) (ix_known n' (Hns n' Hn')) Ek).
Qed.

Lemma key_grows a b : known mg l cs st a → known mg l cs st b → height a < height b → ¬ key_le (header_row b) (header_row a).
Proof.
  intros Ha Hb Hlt. unfold key_le, header_row. cbn [fst]. rewrite bytes_lt_le; [done|].
  pose proof (known_height mg l cs st HP a Ha). pose proof (known_height mg l cs st HP b Hb).
  apply blockIndexKey_order; [unfold is_u32; lia..|done].
Qed.

Lemma read_header n : known mg l cs st n →
  readBlockHeader (writeBlockHeader (block_header (stored mg l n))) = Ok (block_header (stored mg l n), []) ∧
  BlockHash (block_header (stored mg l n)) = hash n.
Proof.
  intros Hk. split.
  - apply (header_codec (writeBlockHeader _) _ []). split; [|eexists; split; [done|by rewrite app_nil_r]].
    destruct Hk as [|m q Hq Hm]; [rewrite (stored_first mg l HP) by done; apply (pr_genesis mg l HP)|].
    rewrite (stored_hash mg l HP m) by done. apply (pr_wf mg l HP m Hm).
  - destruct Hk as [|m q Hq Hm]; [by rewrite (stored_first mg l HP)|by rewrite (stored_hash mg l HP m)].
Qed.

Section rows.
Context (ns : list blockNode) (E : cursor headers = header_row <$> ns) (Hns : ∀ n, n ∈ ns ↔ in_index ix n).

Lemma ns_known n : n ∈ ns → known mg l cs st n.
Proof. intros Hn. by apply ix_known, Hns. Qed.

Lemma ns_nodup : NoDup ns.
Proof.
  apply (NoDup_fmap_1 header_row). rewrite <-E. unfold cursor. rewrite (merge_sort_Permutation key_le). apply NoDup_map_to_list.
Qed.

(** Lower nodes come first. *)
Lemma lower_first pre n post a : ns = pre ++ n :: post → a ∈ ns → height a < height n → a ∈ pre.
Proof.
  intros Es Ha Hlt. pose proof (cursor_sorted headers) as Hs. rewrite E, Es, fmap_app in Hs. apply StronglySorted_app_1_r in Hs.
  cbn [fmap list_fmap] in Hs. apply StronglySorted_inv in Hs as [_ Hf]. rewrite Forall_forall in Hf.
  pose proof Ha as Hin. rewrite Es in Hin. apply elem_of_app in Hin as [?|[->|Hin]%elem_of_cons]; [done|lia|]. exfalso.
  assert (n ∈ ns) as Hn by (rewrite Es; apply elem_of_app; right; by left).
  apply (key_grows a n (ns_known a Ha) (ns_known n Hn) Hlt). apply Hf. by apply list_elem_of_fmap_2.
Qed.

(** The first row is that of the first block. *)
Lemma root_first pre n post : ns = pre ++ n :: post → parent n = None → pre = [].
Proof.
  intros Es Hp. destruct pre as [|x pre]; [done|]. exfalso. pose proof ns_nodup as Hnd. rewrite Es in Hnd.
  assert (x ∈ ns ∧ n ∈ ns) as [Hx Hn] by (rewrite Es; split; apply elem_of_app; [left; by left|right; by left]).
  assert (x ≠ n) as Hne.
  { intros ->. apply NoDup_app in Hnd as (_ & Hd & _). apply (Hd n); by left. }
  pose proof (ns_known n Hn) as Hkn. pose proof (ns_known x Hx) as Hkx.
  destruct Hkn as [|m q]; [|done]. destruct Hkx as [|m q Hq Hm Hpq Hsb Hcb Hck]; [done|].
  pose proof (lower_first [] (node_of st m q) (pre ++ first_node mg st :: post) (first_node mg st) Es Hn) as Hl.
  destruct (height_node_of mg l cs st HP m q Hq) as [Eh _]. pose proof (known_height mg l cs st HP q Hq).
  apply elem_of_nil in Hl; [done|]. rewrite Eh. cbn. lia.
Qed.

(** The parent of a row's node has been read. *)
Lemma parent_first pre n post q : ns = pre ++ n :: post → parent n = Some q →
  q ∈ pre ∧ known mg l cs st q ∧ bh_PrevBlock (block_header (stored mg l n)) = hash q.
Proof.
  intros Es Hq. assert (n ∈ ns) as Hn by (rewrite Es; apply elem_of_app; right; by left).
  pose proof (sub_parent _ _ Hsub n q (proj1 (Hns n) Hn) Hq) as Hqx. pose proof (ix_known q Hqx) as Hkq.
  pose proof (ns_known n Hn) as Hk. destruct Hk as [|m q0 Hq0 Hm Hp]; [done|]. injection Hq as ->.
  split; [|split; [done|by rewrite (stored_hash mg l HP m)]]. apply (lower_first pre (node_of st m q) post); [done|by apply Hns|].
  destruct (height_node_of mg l cs st HP m q Hq0) as [-> _]. lia.
Qed.

Lemma label_made n : known mg l cs st n →
  newBlockNode (to_header (block_header (stored mg l n))) (label <$> parent n) (st' (hash n)) (vsize n) = label n.
Proof.
  destruct 1 as [|m q Hq Hm]; [by rewrite (stored_first mg l HP)|].
  rewrite (relabel_next mg l HP st), (stored_hash mg l HP m) by done. done.
Qed.

Lemma label_hash n : n ∈ ns → hash (label n) = hash n.
Proof. intros Hn. by apply (relabel_ok mg l cs HP st st' n), ns_known. Qed.

Lemma ns_inj a b : a ∈ ns → b ∈ ns → hash a = hash b → a = b.
Proof. intros Ha Hb. apply (known_hash mg l cs st HP); by apply ns_known. Qed.

(** Each node is made again from its row, after its parent. *)
Lemma load_nodes_ok post : ∀ pre bi, ns = pre ++ post → (∀ q, q ∈ pre → LookupNode bi (hash q) = Some (label q)) →
  load_nodes (header_row <$> post) statuses vsizes (MsgBlock_BlockHash mg) (label <$> last pre) bi =
    Ok (foldl addNode bi (label <$> post)).
Proof.
  induction post as [|n post IH]; intros pre bi Es Hpre; [done|].
  assert (Hin : n ∈ ns) by (rewrite Es; apply elem_of_app; right; by left). pose proof (ns_known n Hin) as Hk.
  destruct (read_header n Hk) as [Er Eh]. cbn [fmap list_fmap load_nodes header_row].
  rewrite Er. cbn [lift_db mbind result_bind]. rewrite Eh, (Hstatus n) by by apply Hns. cbn [lift_db mbind result_bind].
  rewrite (Hvsize n) by by apply Hns. cbn [lift_db mbind result_bind].
  assert (Hstep : ∀ par, par = label <$> parent n →
    load_nodes (header_row <$> post) statuses vsizes (MsgBlock_BlockHash mg)
      (Some (newBlockNode (to_header (block_header (stored mg l n))) par (st' (hash n)) (vsize n)))
      (addNode bi (newBlockNode (to_header (block_header (stored mg l n))) par (st' (hash n)) (vsize n))) =
    Ok (foldl addNode (addNode bi (label n)) (label <$> post))).
  { intros par ->. rewrite (label_made n Hk). specialize (IH (pre ++ [n]) (addNode bi (label n))).
    rewrite last_snoc in IH. apply IH; [by rewrite <-(assoc_L (++))|].
    intros q Hq. unfold LookupNode, addNode. cbn [bi_index]. rewrite (label_hash n Hin).
    assert (q ∈ ns) as Hqn.
    { rewrite Es. apply elem_of_app. apply elem_of_app in Hq as [?| ->%list_elem_of_singleton]; [by left|right; by left]. }
    destruct (decide (hash q = hash n)) as [Eq|Hne]; [by rewrite (ns_inj q n Hqn Hin Eq), lookup_insert_eq|].
    rewrite lookup_insert_ne by done. apply elem_of_app in Hq as [Hq| ->%list_elem_of_singleton]; [by apply Hpre|done]. }
  destruct (parent n) as [q|] eqn:Hq.
  - destruct (parent_first pre n post q Es Hq) as (Hqp & Hkq & ->).
    destruct (last pre) as [x|] eqn:El; [|apply last_None in El as ->; by apply elem_of_nil in Hqp]. cbn [fmap option_fmap option_map].
    assert (x ∈ ns) as Hx by (rewrite Es; apply elem_of_app; left; by apply last_Some_elem_of). rewrite (label_hash x Hx).
    case_bool_decide as Eq; [|by rewrite (Hpre q Hqp); cbn [mbind result_bind]; apply Hstep].
    cbn [mbind result_bind]. apply Hstep. by rewrite (known_hash mg l cs st HP q x Hkq (ns_known x Hx) Eq).
  - rewrite (root_first pre n post Es Hq). cbn [last fmap option_fmap option_map].
    rewrite bool_decide_eq_true_2; [by apply Hstep|]. by destruct Hk.
Qed.

(** The index after the loop. *)
Lemma loaded_index : ∃ bi, foldl addNode newBlockIndex (label <$> ns) = bi ∧ bi_status bi = ∅ ∧ bi_dirty bi = ∅ ∧
  ∀ h n', LookupNode bi h = Some n' ↔ ∃ n, in_index ix n ∧ n' = label n ∧ hash n = h.
Proof.
  eexists. split; [done|]. assert (Hall : ∀ ms, ms ⊆ ns → let bi := foldl addNode newBlockIndex (label <$> ms) in
    bi_status bi = ∅ ∧ bi_dirty bi = ∅ ∧ ∀ h n', LookupNode bi h = Some n' ↔ ∃ n, n ∈ ms ∧ n' = label n ∧ hash n = h).
  { intros ms. induction ms as [|n ms IH] using rev_ind; intros Hms; cbv zeta.
    - split_and!; [done|done|]. intros h n'. split; [done|]. by intros (n & Hn%elem_of_nil & _).
    - destruct IH as (Es & Ed & Hl); [intros x Hx; apply Hms, elem_of_app; by left|].
      assert (Hn : n ∈ ns) by (apply Hms, elem_of_app; right; by left).
      rewrite fmap_app, foldl_app. cbn [fmap list_fmap foldl addNode bi_status bi_dirty].
      split_and!; [by rewrite Es, delete_empty|done|]. intros h n'. unfold LookupNode. cbn [addNode bi_index]. rewrite (label_hash n Hn).
      split.
      + intros [[<- <-]|[_ Hx]]%lookup_insert_Some; [exists n; split_and!; [apply elem_of_app; right; by left|done..]|].
        apply Hl in Hx as (x & Hx & -> & <-). exists x. split_and!; [apply elem_of_app; by left|done..].
      + intros (x & Hx & -> & <-). destruct (decide (hash x = hash n)) as [Ex|Hne].
        * rewrite (ns_inj x n (Hms x Hx) Hn Ex). apply lookup_insert_eq.
        * rewrite lookup_insert_ne by done. apply elem_of_app in Hx as [Hx| ->%list_elem_of_singleton]; [|done].
          apply Hl. by exists x. }
  destruct (Hall ns) as (? & ? & Hl); [done|]. split_and!; [done|done|]. intros h n'. rewrite Hl.
  split; intros (n & Hn & ?); exists n; (split; [by apply Hns|done]).
Qed.
End rows.

Lemma load_ok : ∃ bi, load_nodes (cursor headers) statuses vsizes (MsgBlock_BlockHash mg) None newBlockIndex = Ok bi ∧
  bi_status bi = ∅ ∧ bi_dirty bi = ∅ ∧ ∀ h n', LookupNode bi h = Some n' ↔ ∃ n, in_index ix n ∧ n' = label n ∧ hash n = h.
Proof.
  destruct cursor_nodes as (ns & E & Hns). destruct (loaded_index ns Hns) as (bi & Ebi & Hbi).
  exists bi. split; [|done]. rewrite E, <-Ebi. apply (load_nodes_ok ns E Hns ns [] newBlockIndex); [done|]. by intros q ?%elem_of_nil.
Qed.
End load.

(** ** The work of a branch fits its row *)

Lemma CalcWork_bound bits : CalcWork bits <= 2 ^ 256.
Proof.
  unfold CalcWork. case_match eqn:E; [done|]. apply Z.leb_gt in E. change oneLsh256 with (2 ^ 256).
  assert (0 < CompactToBig bits) by lia. apply Z.div_le_upper_bound; nia.
Qed.

Lemma known_work `{HashFns} mg l cs st n : presented mg l → known mg l cs st n → 0 <= workSum n <= (height n + 1) * 2 ^ 256.
Proof.
  intros HP. induction 1 as [|m q Hq IH Hm].
  - cbn [first_node newBlockNode workSum height]. pose proof (CalcWork_bound (h_bits (to_header (block_header mg)))).
    pose proof (CalcWork_nonneg (h_bits (to_header (block_header mg)))). lia.
  - destruct (height_node_of mg l cs st HP m q Hq) as [-> _]. cbn [node_of newBlockNode workSum].
    pose proof (CalcWork_bound (h_bits (to_header (block_header m)))). pose proof (CalcWork_nonneg (h_bits (to_header (block_header m)))). lia.
Qed.

Lemma hash_size `{HashFns} mg l cs st n : known mg l cs st n → zlen (hash n) = HashSize.
Proof. destruct 1; apply sha256_size. Qed.

Lemma known_state `{HashFns} mg l cs st n total : presented mg l → known mg l cs st n → is_u64 total →
  wf_bestChainState (mkBestChainState (hash n) (u32 (height n)) total (workSum n)).
Proof.
  intros HP Hk Ht. pose proof (known_work mg l cs st n HP Hk) as [Hw0 Hw]. pose proof (known_height mg l cs st HP n Hk) as Hh.
  split_and!; cbn [bcs_hash bcs_height bcs_totalTxns bcs_workSum]; [by apply (hash_size mg l cs st)|apply is_u32_u32|done|done|].
  assert (workSum n < 2 ^ 300) as Hlt.
  { apply (Z.le_lt_trans _ (2 ^ 31 * 2 ^ 256)); [nia|]. by rewrite <-Z.pow_add_r. }
  destruct (Z.eq_dec (workSum n) 0) as [->|Hne]; [done|]. apply (Z.lt_trans _ 300); [apply Z.log2_lt_pow2; lia|done].
Qed.

(** ** What [New] accepts *)

(** The heights of forks that [New] accepts. *)
Definition forks_ok (params : Params) : Prop :=
  0 <= MoEForkHeight params ∧ 0 <= RankPenaltyForkHeight params ∧ 0 <= SaltedSeedForkHeight params ∧
  (RankPenaltyForkHeight params = 0 ∨ MoEForkHeight params <= RankPenaltyForkHeight params) ∧
  (SaltedSeedForkHeight params = 0 ∨ MoEForkHeight params <= SaltedSeedForkHeight params).

Lemma New_forks `{HashFns} `{Log2Conv} `{PubKeyFormats} `{!MapOrder OutPoint (option UtxoEntry)} now params genesis cs size prune sc hc disk :
  forks_ok params →
  New now params genesis cs size prune sc hc disk =
    (checkpointsByHeight ← checkpoint_map cs 0 ∅;
     let utxo := match disk with Some disk => dk_utxo disk | None => mkCacheDB ∅ None end in
     let b := mkBlockChain params (MsgBlock_BlockHash genesis) cs (newUtxoCache utxo size) sc hc in
     nd ← initChainState b genesis checkpointsByHeight prune disk;
     bestNode ← (match tip (bestChain (chain nd)) with Some n => Ok n | None => Panic end);
     '(_, b) ← InitConsistentState now bestNode (chain nd);
     Ok (set_chain nd b)).
Proof.
  intros (H1' & H2' & H3' & H4' & H5'). unfold New.
  rewrite (proj2 (Z.ltb_ge (MoEForkHeight params) 0)), (proj2 (Z.ltb_ge (RankPenaltyForkHeight params) 0)),
    (proj2 (Z.ltb_ge (SaltedSeedForkHeight params) 0)) by lia.
  assert (∀ x, x = 0 ∨ MoEForkHeight params <= x → negb (x =? 0) && (x <? MoEForkHeight params) = false) as E.
  { intros x [->|Hx]; [done|]. rewrite (proj2 (Z.ltb_ge _ _)) by lia. apply andb_false_r. }
  by rewrite !E.
Qed.

Lemma checkpoint_map_total cs : sorted_checkpoints cs → ∃ m, checkpoint_map cs 0 ∅ = Ok m.
Proof.
  intros [Hs Hpos].
  assert (∀ prev m, Forall (λ c, prev < cp_Height c) cs → ∃ m', checkpoint_map cs prev m = Ok m') as Hall; [|by apply Hall].
  clear Hpos. induction cs as [|ck cs IH]; intros prev m Hf; cbn [checkpoint_map]; [by exists m|].
  apply Forall_cons in Hf as [Hlt _]. rewrite (proj2 (Z.leb_gt _ _)) by done. cbn [fmap list_fmap] in Hs.
  apply StronglySorted_inv in Hs as [Hs Hf]. apply IH; [done|]. rewrite Forall_fmap in Hf. exact Hf.
Qed.

(** ** The state that is read back *)

Section restart.
Context `{HashFns} `{PowFFI} `{Keys} `{!MapRange bytes sigCacheEntry} `{!MapRange bytes TxSigHashes}.
Context `{Log2Conv} `{PubKeyFormats} `{!MapOrder OutPoint (option UtxoEntry)} `{!MapOrder bytes orphanBlock} `{!BlockPruner}.
Implicit Types U D : UtxoSet.

Context (p : Params) (c : Z) (mg : MsgBlock) (l : list MsgBlock) (cs : list Checkpoint) (st : bytes → Z).
Context (HP : presented mg l).
Context (nd : Node) (t : blockNode) (D U : UtxoSet) (Hok : node_ok p c mg l cs st nd t D U).

Abbreviation blk := (block_of mg l).
Abbreviation ix := (bi_index (index (chain nd))).
Abbreviation d := (cdb (chain nd)).

(** The statuses of the rows. *)
Definition stored_status (h : bytes) : Z :=
  match ix !! h with
  | Some _ => match dbFetchBlockStatus (db_status d) h with Ok s => s | _ => statusDataStored end
  | None => statusDataStored
  end.

Abbreviation st' := stored_status.
Abbreviation label := (relabel mg l st').
Abbreviation V := (known mg l cs st).
Abbreviation V' := (known mg l cs st').

Let HV' : block_tree blk V' := known_blocks mg l cs st' HP.

Lemma tip_known : V t.
Proof. apply (sub_in _ _ (no_sub _ _ _ _ _ _ _ _ _ _ Hok)). apply (no_tip _ _ _ _ _ _ _ _ _ _ Hok). Qed.

Lemma branch_known a : a ∈ branch t → V a.
Proof. intros Ha. apply (known_branch mg l cs st a t tip_known Ha). Qed.

Lemma label_ok n : V n → V' (label n) ∧ hash (label n) = hash n ∧ height (label n) = height n ∧
  workSum (label n) = workSum n ∧ vsize (label n) = vsize n ∧ parent (label n) = label <$> parent n.
Proof. apply (relabel_ok mg l cs HP st st'). Qed.

Lemma row_status n : in_index ix n → dbFetchBlockStatus (db_status d) (hash n) = Ok (st' (hash n)) ∧
  (KnownValid (st' (hash n)) = true → ∃ W, replay p c blk n W).
Proof.
  intros Hn. destruct (proj2 (at_status _ _ _ _ _ _ _ _ _ (no_tip _ _ _ _ _ _ _ _ _ _ Hok)) n Hn) as (s & E & Hs).
  unfold stored_status. unfold in_index in Hn. by rewrite Hn, E.
Qed.

(** The nodes of an index with the nodes of the old one. *)
Definition rebuilt (bi : blockIndex) : Prop :=
  ∀ h n', LookupNode bi h = Some n' ↔ ∃ n, in_index ix n ∧ n' = label n ∧ hash n = h.

Lemma rebuilt_in bi n' : rebuilt bi → in_index (bi_index bi) n' ↔ ∃ n, in_index ix n ∧ n' = label n.
Proof.
  intros Hbi. pose proof (no_sub _ _ _ _ _ _ _ _ _ _ Hok) as [Hin _]. unfold in_index at 1. rewrite (Hbi (hash n') n'). split.
  - intros (n & Hn & -> & _). by exists n.
  - intros (n & Hn & ->). exists n. split_and!; [done|done|]. symmetry. by apply label_ok, Hin.
Qed.

Lemma rebuilt_sub bi : rebuilt bi → subtree (in_index (bi_index bi)) V'.
Proof.
  intros Hbi. pose proof (no_sub _ _ _ _ _ _ _ _ _ _ Hok) as [Hin Hpar]. constructor.
  - intros n' (n & Hn & ->)%(rebuilt_in bi n' Hbi). by apply label_ok, Hin.
  - intros n' q' (n & Hn & ->)%(rebuilt_in bi n' Hbi) Hq. destruct (label_ok n (Hin n Hn)) as (_ & _ & _ & _ & _ & Ep).
    rewrite Ep in Hq. destruct (parent n) as [q|] eqn:Eq; [|done]. injection Hq as <-.
    apply (rebuilt_in bi _ Hbi). exists q. split; [by apply (Hpar n)|done].
Qed.

Lemma label_branch n' : n' ∈ branch (label t) → ∃ n, n' = label n ∧ n ∈ branch t.
Proof. apply (branch_relabel_in mg l cs HP st st' t n' tip_known). Qed.

Lemma label_in_branch n : V n → label n ∈ branch (label t) → n ∈ branch t.
Proof.
  intros Hn (a & Ea & Ha)%label_branch. assert (n = a) as ->; [|done].
  rewrite <-(relabel_back mg l cs HP st st' n Hn), <-(relabel_back mg l cs HP st st' a (branch_known a Ha)). by rewrite Ea.
Qed.

Lemma index_relabel : index_ok V (db_index d) t → index_ok V' (db_index d) (label t).
Proof.
  intros (H1' & H2' & H3'). split_and!.
  - intros n' (n & -> & Hn)%label_branch. destruct (label_ok n (branch_known n Hn)) as (_ & -> & -> & _). by apply H1'.
  - intros n' Hn' Hni. destruct (relabel_ok mg l cs HP st' st n' Hn') as (Hn & Eh & _).
    rewrite <-(relabel_back mg l cs HP st' st n' Hn') in Hni |- *. destruct (label_ok _ Hn) as (_ & -> & _).
    apply H2'; [done|]. intros Hin. apply Hni. rewrite (branch_relabel mg l cs HP st st' t tip_known). by apply list_elem_of_fmap_2.
  - intros h Hh. rewrite (branch_relabel mg l cs HP st st' t tip_known), list_lookup_fmap, (H3' h Hh).
    destruct (branch t !! Z.to_nat h) as [n|] eqn:E; [|done]. cbn [fmap option_fmap option_map]. f_equal. symmetry.
    apply label_ok, branch_known. by eapply list_elem_of_lookup_2.
Qed.

(** The parts that are read back are at the tip. *)
Lemma tip_relabel b' D' :
  rebuilt (index b') → view_of (bestChain b') (Some (label t)) → cdb b' = mkChainDB (db_blocks d) (db_index d) (db_bestState d) (db_status (cdb b')) (db_journal d) →
  (∃ a, a ∈ branch (label t) ∧ replay p c blk a D' ∧ mark (ConnectBlock.utxoCache (base b')) = Some (hash a)) →
  cache_repr (ConnectBlock.utxoCache (base b')) D' U → status_ok p c blk (in_index (bi_index (index b'))) b' →
  chainParams (base b') = p → pruneTarget b' = 0 → bs_Hash (stateSnapshot b') = hash t → bs_Height (stateSnapshot b') = height t →
  at_tip p c blk V' (in_index (bi_index (index b'))) b' (label t) D' U.
Proof.
  intros Hbi Hv Hd Hbelow Hca Hst Hp Hpr Hsh Hsht.
  destruct (no_tip _ _ _ _ _ _ _ _ _ _ Hok) as [Ht _ Hr _ _ Hbl Hj Hix _ _ _ _].
  pose proof (no_sub _ _ _ _ _ _ _ _ _ _ Hok) as [Hin _]. destruct (label_ok t tip_known) as (_ & Eh & Eht & _). constructor; try done.
  - apply (rebuilt_in _ _ Hbi). by exists t.
  - apply (replay_relabel mg l cs HP p c st st' t U tip_known Hr).
  - intros n' (n & Hn & ->)%(rebuilt_in _ _ Hbi). destruct (label_ok n (Hin n Hn)) as (_ & En & Enh & _).
    specialize (Hbl n Hn). rewrite Hd. unfold dbFetchBlockByNode in *. cbn [db_blocks].
    rewrite En, Enh, (block_relabel mg l cs HP st) by by apply Hin. done.
  - intros n' css (n & -> & Hn)%label_branch Hsp. pose proof (branch_known n Hn) as Hkn. destruct (label_ok n Hkn) as (_ & -> & _).
    rewrite Hd. cbn [db_journal]. apply Hj; [done|]. by apply (spent_relabel mg l cs HP p c st st').
  - rewrite Hd. by apply index_relabel.
  - by rewrite Eh, Eht.
Qed.

(** *** Marking the ancestors of the tip *)

Lemma mark_ancestors_index n bi : bi_index (mark_ancestors n bi) = bi_index bi.
Proof.
  revert n bi. fix IH 1. intros [par anc hs ws ht ver bs ts mr pc vs s] bi. cbn [mark_ancestors parent].
  assert (∀ x, bi_index (if negb (KnownValid (NodeStatus bi x)) then SetStatusFlags bi x statusValid else bi) = bi_index bi) as E
    by (intros x; by destruct (negb _)).
  destruct par as [q|]; [|apply E]. rewrite IH. apply E.
Qed.

Lemma mark_ancestors_ok T n : is_tree T → T n → (∀ a, a ∈ branch n → ∃ W, replay p c blk a W) → ∀ bi,
  marks_ok p c blk T bi → marks_ok p c blk T (mark_ancestors n bi).
Proof.
  intros HT Hn. pose proof (tree_wf T HT n Hn) as Hw. induction Hw as [|h q s vs Hq IH Hlt]; intros Hr bi Hm; cbn [mark_ancestors].
  all: set (n := newBlockNode _ _ _ _) in *.
  all: set (bi1 := if negb (KnownValid (NodeStatus bi n)) then SetStatusFlags bi n statusValid else bi).
  all: assert (marks_ok p c blk T bi1) as Hm1.
  1, 3: intros m HTm; unfold bi1; destruct (negb _); [|by apply Hm]; rewrite set_status_node; case_bool_decide as E; [|by apply Hm];
    intros _; apply (tree_hash T HT) in E as ->; [apply Hr, branch_self|done..].
  - done.
  - apply IH; [by apply (tree_parent T HT n)| |done]. intros a Ha. apply Hr, elem_of_branch. right. by exists q.
Qed.

(** *** The chain as it is loaded *)

Record loaded (b : @BlockChain utxoCache) (byHeight : gmap Z Checkpoint) (nd' : Node) : Prop := {
  ld_base : base (chain nd') = b;
  ld_index : rebuilt (index (chain nd'));
  ld_view : view_of (bestChain (chain nd')) (Some (label t));
  ld_status : status_ok p c blk (in_index (bi_index (index (chain nd')))) (chain nd');
  ld_db : cdb (chain nd') = mkChainDB (db_blocks d) (db_index d) (db_bestState d) (db_status (cdb (chain nd'))) (db_journal d);
  ld_prune : pruneTarget (chain nd') = 0;
  ld_best : stateSnapshot (chain nd') = newBestState (label t) (bs_NumTxns (stateSnapshot (chain nd')))
    (bs_TotalTxns (stateSnapshot (chain nd))) (bs_MedianTime (stateSnapshot (chain nd'))) (timestamp (label t));
  ld_pool : pool nd' = emptyPool;
  ld_checkpoint : nextCheckpoint nd' = None ∧ checkpointNode nd' = None ∧ checkpointsByHeight nd' = byHeight;
  ld_rows : headerRows nd' = headerRows nd ∧ vsizeRows nd' = vsizeRows nd
}.

Lemma replay_tip_branch a : a ∈ branch t → ∃ W, replay p c blk a W.
Proof. apply (replay_branch p c blk t a U). apply (no_tip _ _ _ _ _ _ _ _ _ _ Hok). Qed.

(** The statuses read back, with the ancestors of the tip marked. *)
Lemma loaded_marks bi : rebuilt bi → bi_status bi = ∅ → marks_ok p c blk (in_index (bi_index bi)) (mark_ancestors (label t) bi).
Proof.
  intros Hbi Es. pose proof (no_sub _ _ _ _ _ _ _ _ _ _ Hok) as [Hin _].
  apply mark_ancestors_ok.
  - apply (subtree_tree _ V'); [apply (known_tree mg l cs st' HP)|by apply rebuilt_sub].
  - apply (rebuilt_in _ _ Hbi). exists t. split; [apply (no_tip _ _ _ _ _ _ _ _ _ _ Hok)|done].
  - intros a' (a & -> & Ha)%label_branch. destruct (replay_tip_branch a Ha) as [W HW]. exists W.
    by apply (replay_relabel mg l cs HP p c st), HW; apply branch_known.
  - intros n' (n & Hn & ->)%(rebuilt_in _ _ Hbi) Hk. unfold NodeStatus in Hk. rewrite Es, lookup_empty in Hk. cbn [default] in Hk.
    destruct (row_status n Hn) as [_ Hr]. destruct Hr as [W HW].
    + rewrite <-Hk. f_equal. by destruct (Hin n Hn) as [|m q Hq Hml]; [|rewrite (relabel_next mg l HP st) by done].
    + exists W. by apply (replay_relabel mg l cs HP p c st), HW; apply Hin.
Qed.

Lemma loaded_rows bi : rebuilt bi → rows_ok p c blk (in_index (bi_index bi)) (db_status d).
Proof.
  intros Hbi n' (n & Hn & ->)%(rebuilt_in _ _ Hbi). pose proof (no_sub _ _ _ _ _ _ _ _ _ _ Hok) as [Hin _].
  destruct (label_ok n (Hin n Hn)) as (_ & -> & _). destruct (row_status n Hn) as [E Hr]. exists (st' (hash n)). split; [done|].
  intros Hk. destruct (Hr Hk) as [W HW]. exists W. by apply (replay_relabel mg l cs HP p c st), HW; apply Hin.
Qed.

Lemma initChainState_ok b byHeight : GenesisHash b = MsgBlock_BlockHash mg →
  ∃ nd', initChainState b mg byHeight 0 (Some (disk_of nd)) = Ok nd' ∧ loaded b byHeight nd'.
Proof.
  intros Hg. pose proof (no_tip _ _ _ _ _ _ _ _ _ _ Hok) as Htip. pose proof tip_known as Hkt.
  unfold initChainState, disk_of. cbn [dk_chain dk_headers dk_vsizes].
  rewrite (no_best _ _ _ _ _ _ _ _ _ _ Hok), best_state_roundtrip
    by (apply (known_state mg l cs st t _ HP Hkt), (no_total _ _ _ _ _ _ _ _ _ _ Hok)).
  cbn [lift_db mbind result_bind bcs_hash bcs_totalTxns].
  destruct (load_ok mg l cs HP st st' ix (headerRows nd) (db_status d) (vsizeRows nd) (no_sub _ _ _ _ _ _ _ _ _ _ Hok)
    (no_headers _ _ _ _ _ _ _ _ _ _ Hok) (λ n Hn, proj1 (row_status n Hn)) (no_vsizes _ _ _ _ _ _ _ _ _ _ Hok))
    as (bi & El & Es & Ed & Hbi).
  rewrite Hg, El. cbn [mbind result_bind].
  rewrite (proj2 (Hbi (hash t) (label t))) by (exists t; split_and!; [apply Htip|done|done]).
  destruct (label_ok t Hkt) as (Hkl & Ehl & Ehtl & _).
  destruct (setTip_ok V' (known_tree mg l cs st' HP) (mkChainView []) None (label t)) as (v & Ev & Hv); [done|done|done| |].
  { pose proof (known_height mg l cs st' HP _ Hkl). lia. }
  rewrite Ev. cbn [lift_empty mbind result_bind].
  pose proof (at_blocks _ _ _ _ _ _ _ _ _ Htip t (at_node _ _ _ _ _ _ _ _ _ Htip)) as Hbt. unfold dbFetchBlockByNode in Hbt.
  destruct (db_blocks d !! hash t) as [block|]; [|done].
  destruct (median_total (label t)) as [mt Emt]. rewrite Emt. cbn [lift_empty mbind result_bind].
  set (b1 := mkChain b (mark_ancestors (label t) bi) v _ d 0).
  destruct (flush_index_ok b1) as (b2 & E2 & F1 & F2 & F3 & F4 & F5 & F6 & F7 & F8 & F9 & F10). rewrite E2. cbn [mbind result_bind].
  eexists. split; [done|]. pose proof (loaded_marks bi Hbi Es) as Hm1. pose proof (loaded_rows bi Hbi) as Hm2.
  assert (bi_index (index b2) = bi_index bi) as Eix.
  { transitivity (bi_index (index b1)); [|apply mark_ancestors_index]. unfold flush_index in E2.
    unfold flushToDB in E2. case_bool_decide; by injection E2 as <-. }
  constructor; cbn [chain pool nextCheckpoint checkpointNode checkpointsByHeight headerRows vsizeRows]; rewrite ?Eix; try done.
  - intros h n'. unfold LookupNode. rewrite Eix. apply Hbi.
  - by rewrite F2.
  - split; [|rewrite F10; by apply flush_rows]. intros n Hn. rewrite F5. by apply Hm1.
  - destruct (cdb b2) as [x1 x2 x3 x4 x5]. cbn in F6, F7, F8, F9. subst. done.
  - by rewrite F3.
Qed.

(** *** The node that starts again *)

Context (Hcs : sorted_checkpoints cs) (Hf : forks_ok p).

Lemma loaded_best b byHeight nd' : loaded b byHeight nd' → best_stored (chain nd') (label t).
Proof.
  intros Hl. unfold best_stored. rewrite (ld_db _ _ _ Hl), (ld_best _ _ _ Hl). cbn [db_bestState newBestState bs_TotalTxns].
  rewrite (no_best _ _ _ _ _ _ _ _ _ _ Hok). by destruct (label_ok t tip_known) as (_ & -> & -> & -> & _).
Qed.

Lemma loaded_node b byHeight nd' s :
  loaded b byHeight nd' → chainParams b = p → ConnectBlock.checkpoints b = cs → GenesisHash b = MsgBlock_BlockHash mg →
  (∀ h cp, byHeight !! h = Some cp ↔ cp ∈ cs ∧ cp_Height cp = h) → lags p c blk s (label t) U →
  ∃ D', node_ok p c mg l cs st' (set_chain nd' (set_cache (chain nd') s)) (label t) D' U.
Proof.
  intros Hl Hp Hck Hg Hby Hs. pose proof (loaded_best b byHeight nd' Hl) as Hbest.
  destruct Hs as (a & D' & Ha & HaD & Hmk & Hca).
  destruct Hl as [Hb Hix Hv Hst Hd Hpr Hsn Hpool (Hn1 & Hn2 & Hn3) (Hh & Hvs)]. exists D'.
  destruct (label_ok t tip_known) as (_ & Eh & Eht & _). pose proof (no_sub _ _ _ _ _ _ _ _ _ _ Hok) as [Hin _].
  assert (at_tip p c blk V' (in_index (bi_index (index (chain nd')))) (set_cache (chain nd') s) (label t) D' U) as Htip.
  { apply (tip_relabel (set_cache (chain nd') s) D' Hix Hv Hd); try done; [by exists a|cbn; by rewrite Hb|cbn; by rewrite Hsn|cbn; by rewrite Hsn]. }
  constructor; cbn [set_chain chain set_cache set_base index cdb base set_utxoCache ConnectBlock.checkpoints GenesisHash stateSnapshot
    pool nextCheckpoint checkpointNode checkpointsByHeight headerRows vsizeRows bi_index]; rewrite ?Hb, ?Hpool, ?Hn1, ?Hn2, ?Hn3, ?Hh, ?Hvs; try done.
  - by apply rebuilt_sub.
  - intros h n' Hn'. apply Hix in Hn' as (n & Hn & -> & <-). by apply label_ok, Hin.
  - intros h Hx. rewrite Hd in Hx. cbn [db_blocks] in Hx. destruct (no_blocks _ _ _ _ _ _ _ _ _ _ Hok h Hx) as [n Hn].
    exists (label n). apply Hix. exists n. pose proof (no_keys _ _ _ _ _ _ _ _ _ _ Hok h n Hn) as <-. done.
  - intros h [x Hx]. cbn in Hx. by rewrite lookup_empty in Hx.
  - intros h Hx. unfold stored_status. destruct (ix !! h) as [n|] eqn:En; [|done]. exfalso.
    pose proof (no_keys _ _ _ _ _ _ _ _ _ _ Hok h n En) as <-.
    assert (LookupNode (index (chain nd')) (hash n) = Some (label n)) as E by (apply Hix; by exists n). unfold LookupNode in E. congruence.
  - rewrite Hsn. cbn [newBestState bs_TotalTxns]. apply (no_total _ _ _ _ _ _ _ _ _ _ Hok).
  - intros k v. rewrite (no_headers _ _ _ _ _ _ _ _ _ _ Hok k v). split.
    + intros (n & Hn & -> & ->). exists (label n). split; [apply (rebuilt_in _ _ Hix); by exists n|].
      destruct (label_ok n (Hin n Hn)) as (_ & En & Enh & _). unfold stored. by rewrite En, Enh.
    + intros (n' & (n & Hn & ->)%(rebuilt_in _ _ Hix) & -> & ->). exists n. split; [done|].
      destruct (label_ok n (Hin n Hn)) as (_ & En & Enh & _). unfold stored. by rewrite En, Enh.
  - intros n' (n & Hn & ->)%(rebuilt_in _ _ Hix). destruct (label_ok n (Hin n Hn)) as (_ & -> & _ & _ & -> & _).
    by apply (no_vsizes _ _ _ _ _ _ _ _ _ _ Hok).
Qed.

(** The cache of a loaded chain, over the bucket the node left. *)
Lemma loaded_coins now b byHeight nd1 size :
  loaded b byHeight nd1 → ConnectBlock.utxoCache b = newUtxoCache (db (ConnectBlock.utxoCache (base (chain nd)))) size →
  ∃ s, InitConsistentState now (label t) (chain nd1) = Ok ((), set_cache (chain nd1) s) ∧ lags p c blk s (label t) U.
Proof.
  intros Hl Hs. pose proof (no_tip _ _ _ _ _ _ _ _ _ _ Hok) as Htip. destruct (at_below _ _ _ _ _ _ _ _ _ Htip) as (a & Ha & HaD & Hmk).
  pose proof tip_known as Hkt. pose proof (branch_known a Ha) as Hka. destruct (label_ok t Hkt) as (Hkl & _).
  destruct (label_ok a Hka) as (_ & Eha & _). pose proof (ld_index _ _ _ Hl) as Hix. pose proof (no_sub _ _ _ _ _ _ _ _ _ _ Hok) as Hsub.
  assert (HTa : in_index ix a) by (apply (branch_T _ (subtree_tree _ V (known_tree mg l cs st HP) Hsub) a t); [apply Htip|done]).
  apply (InitConsistentState_ok p c blk (in_index (bi_index (index (chain nd1)))) (subtree_blocks blk _ V' HV' (rebuilt_sub _ Hix))
    now (chain nd1) (label t) (label a) D U).
  - apply (rebuilt_in _ _ Hix). exists t. split; [apply Htip|done].
  - pose proof (known_height mg l cs st' HP _ Hkl). lia.
  - apply (ld_view _ _ _ Hl).
  - rewrite (branch_relabel mg l cs HP st st' t Hkt). by apply list_elem_of_fmap_2.
  - apply Hix. by exists a.
  - intros n' (n & Hn & ->)%(rebuilt_in _ _ Hix). destruct Hsub as [Hin _].
    destruct (label_ok n (Hin n Hn)) as (_ & En & Enh & _). rewrite (ld_db _ _ _ Hl), (block_relabel mg l cs HP st) by by apply Hin.
    pose proof (at_blocks _ _ _ _ _ _ _ _ _ Htip n Hn) as Hbl. unfold dbFetchBlockByNode in *. cbn [db_blocks]. by rewrite En, Enh.
  - apply (replay_relabel mg l cs HP p c st); [done|apply Htip].
  - by apply (replay_relabel mg l cs HP p c st).
  - rewrite (ld_base _ _ _ Hl), Hs. pose proof (at_cache _ _ _ _ _ _ _ _ _ Htip) as Hca.
    destruct (db (ConnectBlock.utxoCache (base (chain nd)))) as [ub um] eqn:Edb.
    apply newUtxoCache_repr; [|apply (cr_D _ _ _ Hca)]. pose proof (cr_store _ _ _ Hca) as Hsr. by rewrite Edb in Hsr.
  - rewrite (ld_base _ _ _ Hl), Hs, Eha. exact Hmk.
  - by apply (hash_size mg l cs st'), (label_ok a Hka).
Qed.

Lemma restart_ok now size sc hc : ∃ nd' D',
  New now p mg cs size 0 sc hc (Some (disk_of nd)) = Ok nd' ∧ node_ok p c mg l cs st' nd' (label t) D' U.
Proof.
  destruct (checkpoint_map_total cs Hcs) as [byHeight Eb]. destruct (checkpoint_map_sorted cs byHeight Eb) as [_ Hby].
  rewrite (New_forks now p mg cs size 0 sc hc _ Hf), Eb. cbn [mbind result_bind]. set (b := mkBlockChain p _ cs _ sc hc).
  destruct (initChainState_ok b byHeight eq_refl) as (nd1 & E1 & Hl). rewrite E1. cbn [mbind result_bind].
  rewrite (tip_view _ _ (ld_view _ _ _ Hl)). cbn [mbind result_bind].
  destruct (loaded_coins now b byHeight nd1 size Hl eq_refl) as (s & E2 & Hs). rewrite E2. cbn [mbind result_bind].
  destruct (loaded_node b byHeight nd1 s Hl eq_refl eq_refl eq_refl Hby Hs) as [D' Hnode]. by exists (set_chain nd1 (set_cache (chain nd1) s)), D'.
Qed.
End restart.

(** ** The first state *)

Section fresh.
Context `{HashFns} `{PowFFI} `{Keys} `{!MapRange bytes sigCacheEntry} `{!MapRange bytes TxSigHashes}.
Context `{Log2Conv} `{PubKeyFormats} `{!MapOrder OutPoint (option UtxoEntry)} `{!MapOrder bytes orphanBlock} `{!BlockPruner}.

Context (p : Params) (c : Z) (mg : MsgBlock) (l : list MsgBlock) (cs : list Checkpoint).
Context (HP : presented mg l) (Hcs : sorted_checkpoints cs) (Hf : forks_ok p).

(** The first block is made valid. *)
Definition first_status (h : bytes) : Z :=
  if bool_decide (h = MsgBlock_BlockHash mg) then Z.lor statusDataStored statusValid else statusDataStored.

Abbreviation g := (first_node mg first_status).
Abbreviation V := (known mg l cs first_status).

Lemma first_made : newBlockNode (to_header (block_header mg)) None (Z.lor statusDataStored statusValid) (GetBlockVsize mg) = g.
Proof. unfold first_node, first_status. by rewrite bool_decide_eq_true_2. Qed.

(** The chain [createChainState] makes, with the coins initialised. *)
Definition first_chain (b : @BlockChain utxoCache) (s : utxoCache) : Chain :=
  mkChain (set_utxoCache b s) (addNode newBlockIndex g) (mkChainView [Some g])
    (newBestState g (zlen (mb_Transactions mg)) (zlen (mb_Transactions mg)) (timestamp g) (timestamp g))
    (mkChainDB {[ hash g := at_height mg 0 ]} (dbPutBlockIndex (mkIndexBuckets ∅ ∅) (hash g) 0)
       (serializeBestChainState (mkBestChainState (hash g) 0 (zlen (mb_Transactions mg)) (workSum g)))
       (dbStoreBlockStatus (dbStoreBlockStatus ∅ (hash g) (status g)) (hash g) statusDataStored) ∅) 0.

Definition first_state (b : @BlockChain utxoCache) (s : utxoCache) (byHeight : gmap Z Checkpoint) : Node :=
  mkNode (first_chain b s) emptyPool None None byHeight (dbStoreBlockHeader ∅ (block_header mg) 0)
    (dbStoreBlockVsize (dbStoreBlockVsize ∅ (hash g) (GetBlockVsize mg)) (hash g) (GetBlockVsize mg)).

Lemma createChainState_eq b byHeight s : ConnectBlock.utxoCache b = s → createChainState b mg byHeight 0 = Ok (first_state b s byHeight).
Proof.
  intros <-. unfold createChainState. cbv zeta. rewrite first_made.
  assert (setTip (mkChainView []) (Some g) = Ok (mkChainView [Some g])) as ->; [done|]. cbn [lift_empty mbind result_bind].
  f_equal. unfold first_state, first_chain. destruct b as [? ? ? ? ? ?]. reflexivity.
Qed.

Lemma first_index n : in_index (bi_index (addNode newBlockIndex g)) n ↔ n = g.
Proof.
  unfold in_index. cbn [addNode newBlockIndex bi_index]. rewrite insert_empty. split; [by intros [_ <-]%lookup_singleton_Some|].
  intros ->. apply lookup_singleton_eq.
Qed.

Lemma first_branch : branch g = [g].
Proof. done. Qed.

Lemma first_index_ok : index_ok V (dbPutBlockIndex (mkIndexBuckets ∅ ∅) (hash g) 0) g.
Proof.
  assert (V g) as Hg by constructor. split_and!; cbn [dbPutBlockIndex hashIndex heightIndex].
  - intros n ->%list_elem_of_singleton. apply lookup_insert_eq.
  - intros n Hn Hni. rewrite lookup_insert_ne; [done|]. intros E. apply Hni. rewrite first_branch. apply list_elem_of_singleton.
    symmetry. by apply (known_hash mg l cs first_status HP).
  - intros h Hh. destruct (Z.eq_dec h 0) as [->|Hne]; [apply lookup_insert_eq|].
    rewrite lookup_insert_ne by (intros E; by apply Hne; apply (u32_put_inj 0 h) in E; unfold is_i32; lia).
    rewrite first_branch, lookup_ge_None_2 by (cbn; lia). done.
Qed.

Lemma first_tip b s :
  chainParams b = p → cache_repr s ∅ ∅ → mark s = Some (hash g) →
  at_tip p c (block_of mg l) V (in_index (bi_index (addNode newBlockIndex g))) (first_chain b s) g ∅ ∅.
Proof.
  intros Hp Hs Hmk. assert (replay p c (block_of mg l) g ∅) as Hr by by apply replay_first. constructor; try done.
  - by apply first_index.
  - exists g. split_and!; [apply branch_self|done|done].
  - intros n ->%first_index. unfold dbFetchBlockByNode. cbn [first_chain cdb db_blocks]. rewrite lookup_singleton_eq.
    unfold block_of. by rewrite (stored_first mg l HP).
  - intros n css ->%list_elem_of_singleton (q & _ & _ & _ & Hq & _). done.
  - apply first_index_ok.
  - split.
    + intros n ->%first_index _. by exists ∅.
    + intros n ->%first_index. exists statusDataStored. split; [by apply block_status_put|done].
Qed.

Lemma first_ok b s byHeight :
  chainParams b = p → ConnectBlock.checkpoints b = cs → GenesisHash b = MsgBlock_BlockHash mg → cache_repr s ∅ ∅ → mark s = Some (hash g) →
  (∀ h cp, byHeight !! h = Some cp ↔ cp ∈ cs ∧ cp_Height cp = h) →
  node_ok p c mg l cs first_status (first_state b s byHeight) g ∅ ∅.
Proof.
  intros Hp Hck Hg Hs Hmk Hby. constructor; try done.
  - by apply first_tip.
  - constructor; [intros n ->%first_index; constructor|intros n q ->%first_index; done].
  - intros h n. cbn. rewrite insert_empty. by intros [<- <-]%lookup_singleton_Some.
  - intros h [x Hx]. cbn in Hx |- *. rewrite insert_empty. apply lookup_singleton_Some in Hx as [<- _]. exists g. apply lookup_singleton_eq.
  - intros h [x Hx]. cbn in Hx. by rewrite lookup_empty in Hx.
  - intros h Hx. unfold first_status. rewrite bool_decide_eq_false_2; [done|]. intros ->. revert Hx. cbn. by rewrite insert_empty, lookup_singleton_eq.
  - pose proof (pr_total mg l HP) as Ht. pose proof (zlen_nonneg (mb_Transactions mg)). unfold is_u64. cbn. lia.
  - intros k v. cbn [first_state headerRows]. unfold dbStoreBlockHeader. rewrite insert_empty. split.
    + intros [<- <-]%lookup_singleton_Some. exists g. split; [by apply first_index|]. split; [done|]. by rewrite (stored_first mg l HP).
    + intros (n & ->%first_index & -> & ->). rewrite (stored_first mg l HP) by done. apply lookup_singleton_eq.
  - intros n ->%first_index. apply block_vsize_put. apply (pr_size mg l HP). by left.
Qed.

Lemma start_ok now size sc hc : ∃ nd, New now p mg cs size 0 sc hc None = Ok nd ∧ node_ok p c mg l cs first_status nd g ∅ ∅.
Proof.
  destruct (checkpoint_map_total cs Hcs) as [byHeight Eb]. destruct (checkpoint_map_sorted cs byHeight Eb) as [_ Hby].
  rewrite (New_forks now p mg cs size 0 sc hc _ Hf), Eb. cbn [mbind result_bind]. set (b := mkBlockChain p _ cs _ sc hc).
  cbn [initChainState]. rewrite (createChainState_eq b byHeight _ eq_refl). cbn [mbind result_bind].
  set (s := consistent_at now (dbPutUtxoStateConsistency (newUtxoCache (mkCacheDB ∅ None) size) (hash g)) g).
  exists (first_state b s byHeight). split; [reflexivity|]. by apply first_ok.
Qed.
End fresh.
