(* ===== verification/Running.v ===== *)
(** * A node over its life

    What holds of a node whatever happens to it: started on an empty database,
    given blocks of a set in any order, stopped without warning between two of
    them and started again on what the database holds. *)
From stdpp Require Import fin_maps fin_sets strings list relations.
From Stdlib Require Import Lia ZArith.
From S2P Require Import Prelude Wire MsgTx ScriptError Crypto SigCache SigHash Engine MsgBlock Work ChainParams BlockIndex Difficulty Subsidy RuleError TxRules Merkle Compress UtxoView Ledger ConnectBlock ConnectSpec UtxoStore SizeHelper UtxoCache UtxoCacheSpec Disconnect ChainView ChainIO ChainState Reorg Replay ConnectTotal ChainSpec BlockRules RulesTotal Orphans Checkpoints ChainFrame ChainTotal Process ProcessSpec ProcessTotal Start Recover StartSpec.

Section running.
Context `{HashFns} `{PowFFI} `{Keys} `{!MapRange bytes sigCacheEntry} `{!MapRange bytes TxSigHashes}.
Context `{Log2Conv} `{PubKeyFormats} `{!MapOrder OutPoint (option UtxoEntry)} `{!MapOrder bytes orphanBlock} `{!BlockPruner}.

(** The network, its first block and checkpoints, and the blocks there are. *)
Context (p : Params) (mg : MsgBlock) (cs : list Checkpoint) (l : list MsgBlock).

(** A block is given to the node. *)
Inductive block_step (nd nd' : Node) : Prop :=
| take_block now adjusted m flags r :
    m ∈ l → has_flag (Z.lor flags (NetBehaviorFlags p)) BFFastAdd = false →
    ProcessBlock now adjusted m flags nd = Ok (r, nd') → block_step nd nd'.

(** Neither step of a start touches the cache of signatures. *)
Lemma init_coins_base now t b b' : InitConsistentState now t b = Ok ((), b') → bc_sigCache (base b') = bc_sigCache (base b).
Proof.
  unfold InitConsistentState. destruct (utxoStateConsistency _) as [h|]; [|by intros [= <-]]. destruct (negb _); [done|].
  case_bool_decide; [by intros [= <-]|]. destruct (LookupNode _ _); [|done]. destruct (findFork _ _) as [f|]; [|done].
  destruct (attach_nodes _ _ _) as [ns| |]; [|done..]. cbn [mbind result_bind].
  destruct (replay_nodes _ _ _) as [s| |]; [|done..]. by intros [= <-].
Qed.

Lemma init_state_base b byHeight prune disk nd : initChainState b mg byHeight prune disk = Ok nd → base (chain nd) = b.
Proof.
  destruct disk as [disk|]; unfold initChainState, createChainState; cbv zeta.
  - destruct (lift_db _ (deserializeBestChainState _)) as [state| |]; [|done..]. cbn [mbind result_bind].
    destruct (load_nodes _ _ _ _ _ _) as [bi| |]; [|done..]. cbn [mbind result_bind]. destruct (LookupNode _ _) as [t|]; [|done].
    destruct (lift_empty (setTip _ _)) as [view| |]; [|done..]. cbn [mbind result_bind]. destruct (db_blocks _ !! _) as [block|]; [|done].
    destruct (lift_empty (CalcPastMedianTime _)) as [mt| |]; [|done..]. cbn [mbind result_bind].
    destruct (flush_index _) as [[[] b1]| |] eqn:E; [|done..]. cbn [mbind result_bind]. intros [= <-]. cbn [chain].
    unfold flush_index, flushToDB in E. case_bool_decide; by injection E as <-.
  - destruct (lift_empty _) as [view| |]; [|done..]. by intros [= <-].
Qed.

(** The states a node can be in: each start may have caches of other sizes. *)
Inductive running : Node → Prop :=
| run_start now size sc hc nd : New now p mg cs size 0 sc hc None = Ok nd → running nd
| run_block nd nd' : running nd → block_step nd nd' → running nd'
| run_restart now size sc hc nd nd' : running nd → New now p mg cs size 0 sc hc (Some (disk_of nd)) = Ok nd' → running nd'.

(** What is assumed of the network and the blocks: [presented], that is, one body
    for each header hash, transactions that spend earlier ones of their block only,
    and amounts that can be stored; and checkpoints that have the heights of the
    blocks they name. *)
Record setting (c : Z) : Prop := {
  se_presented : presented mg l;
  se_sorted : sorted_checkpoints cs;
  se_heights st n cp : known mg l cs st n → cp ∈ cs → hash n = cp_Hash cp → height n = cp_Height cp;
  se_forks : forks_ok p;
  se_maturity : maturity_ok p;
  se_schedule : schedule (Some p) c
}.

Context (c : Z) (HS : setting c).

Lemma step_ok st nd t D U nd' : node_ok p c mg l cs st nd t D U → block_step nd nd' →
  ∃ t' D' U', node_ok p c mg l cs st nd' t' D' U' ∧ still_kept cs nd t nd' t'.
Proof.
  intros Hok [now adjusted m flags r Hm Hf E]. destruct HS as [HP Hcs Hre Hfo Hma Hsc].
  destruct (ProcessBlock_ok p c mg l cs st HP Hcs (Hre st) Hma Hsc now adjusted nd t D U m flags r nd' Hok Hm Hf E)
    as (t' & D' & U' & Hok' & Hk & _). by exists t', D', U'.
Qed.

Lemma steps_ok st nd t D U nd' : node_ok p c mg l cs st nd t D U → rtc block_step nd nd' →
  ∃ t' D' U', node_ok p c mg l cs st nd' t' D' U' ∧ still_kept cs nd t nd' t'.
Proof.
  intros Hok Hs. revert t D U Hok. induction Hs as [nd|nd nd1 nd' Hs _ IH]; intros t D U Hok.
  - exists t, D, U. split; [done|]. by intros k.
  - destruct (step_ok st nd t D U nd1 Hok Hs) as (t1 & D1 & U1 & Hok1 & Hk1). destruct (IH t1 D1 U1 Hok1) as (t' & D' & U' & Hok' & Hk').
    exists t', D', U'. split; [done|]. intros k Hk. by apply Hk', Hk1.
Qed.

Lemma running_ok nd : running nd → ∃ st t D U, node_ok p c mg l cs st nd t D U.
Proof.
  destruct HS as [HP Hcs Hre Hfo Hma Hsc]. induction 1 as [now size sc hc nd E|nd nd' _ (st & t & D & U & Hok) Hs|now size sc hc nd nd' _ (st & t & D & U & Hok) E].
  - destruct (start_ok p c mg l cs HP Hcs Hfo now size sc hc) as (nd' & E' & Hok). rewrite E in E'. injection E' as <-.
    by eexists _, _, _, _.
  - destruct (step_ok st nd t D U nd' Hok Hs) as (t' & D' & U' & Hok' & _). by exists st, t', D', U'.
  - destruct (restart_ok p c mg l cs st HP nd t D U Hok Hcs Hfo now size sc hc) as (nd2 & D' & E' & Hok').
    rewrite E in E'. injection E' as <-. by eexists _, _, _, _.
Qed.

(** The cache of signatures a start is given is the node's. *)
Lemma New_sigs now size sc hc disk nd : New now p mg cs size 0 sc hc disk = Ok nd → bc_sigCache (base (chain nd)) = sc.
Proof.
  rewrite (New_forks now p mg cs size 0 sc hc disk (se_forks _ HS)).
  destruct (checkpoint_map cs 0 ∅) as [byHeight| |]; [|done..]. cbn [mbind result_bind]. cbv zeta. set (b := mkBlockChain _ _ _ _ _ _).
  destruct (initChainState b mg byHeight 0 disk) as [nd1| |] eqn:E1; [|done..]. cbn [mbind result_bind].
  destruct (tip (bestChain (chain nd1))) as [n|]; [|done]. cbn [mbind result_bind].
  destruct (InitConsistentState now n (chain nd1)) as [[[] b']| |] eqn:E2; [|done..]. cbn [mbind result_bind].
  intros [= <-]. cbn [chain set_chain]. apply init_coins_base in E2. rewrite E2. by apply init_state_base in E1 as ->.
Qed.

(** Blocks that are taken are kept. *)
Lemma taken_kept nd now adjusted m flags r nd' :
  running nd → m ∈ l → has_flag (Z.lor flags (NetBehaviorFlags p)) BFFastAdd = false →
  ProcessBlock now adjusted m flags nd = Ok (r, nd') → running nd' ∧ indexed nd nd' ∧ reported m r nd'.
Proof.
  intros Hr Hm Hf E. destruct (running_ok nd Hr) as (st & t & D & U & Hok).
  split; [by apply (run_block nd); [|eapply take_block]|]. destruct HS as [HP Hcs Hre Hfo Hma Hsc].
  by destruct (ProcessBlock_ok p c mg l cs st HP Hcs (Hre st) Hma Hsc now adjusted nd t D U m flags r nd' Hok Hm Hf E) as (_ & _ & _ & _ & _ & ? & ?).
Qed.
End running.

(** ** Properties *)

Section claims.
Context `{HashFns} `{PowFFI} `{Keys} `{!MapRange bytes sigCacheEntry} `{!MapRange bytes TxSigHashes}.
Context `{Log2Conv} `{PubKeyFormats} `{!MapOrder OutPoint (option UtxoEntry)} `{!MapOrder bytes orphanBlock} `{!BlockPruner}.

(** C1 A node given blocks of a [setting] is always on the ledger of its best
    branch.  Started by [New] on an empty database, given blocks by [ProcessBlock] in any order (on the tip, on
    side branches, before their parents, again), stopped between two blocks and
    started again any number of times, the node is at a tip: the view, the
    snapshot, the stored best state and the indexes are those of the tip's branch,
    the cache stands for exactly the coins that the blocks of the branch leave,
    over the coins of the block its mark names, only blocks that replay are marked
    valid, in memory and in the database, every stored block is in the index, the
    rows of the index are those of its nodes, the orphans are well kept, and what
    is cached of the checkpoints is on the branch.  And the coins are never worth
    more than the emission up to the tip's height. *)
Theorem running_keeps_ledger p mg cs l c nd :
  setting p mg cs l c → running p mg cs l nd →
  ∃ st t D U, node_ok p c mg l cs st nd t D U ∧ total U <= emitted c (Z.to_nat (height t)).
Proof.
  intros HS Hr. destruct (running_ok p mg cs l c HS nd Hr) as (st & t & D & U & Hok). exists st, t, D, U. split; [done|].
  pose proof (no_tip _ _ _ _ _ _ _ _ _ _ Hok) as Ht. apply (replay_supply p c (block_of mg l)); [|apply Ht].
  apply (known_wf mg l cs st (se_presented _ _ _ _ _ HS)), (sub_in _ _ (no_sub _ _ _ _ _ _ _ _ _ _ Hok)), Ht.
Qed.

(** C2 A node, given blocks of a [setting], starts again after an unclean shutdown
    between two calls.  [New] succeeds on the database of any running node, however far the coins in the bucket lag behind
    the best block: the index is read back from its rows, parents before their
    children, the best block is that of the stored state, and
    [InitConsistentState] replays the blocks above the last flush.  The new node
    runs, its tip has the hash of the old one, the coins are the same, and its
    cache of signatures is the one it is given. *)
Theorem node_restarts p mg cs l c nd now size sc hc :
  setting p mg cs l c → running p mg cs l nd →
  ∃ nd', New now p mg cs size 0 sc hc (Some (disk_of nd)) = Ok nd' ∧ running p mg cs l nd' ∧ bc_sigCache (base (chain nd')) = sc ∧
    ∃ st st' t t' D D' U, node_ok p c mg l cs st nd t D U ∧ node_ok p c mg l cs st' nd' t' D' U ∧ hash t' = hash t.
Proof.
  intros HS Hr. destruct (running_ok p mg cs l c HS nd Hr) as (st & t & D & U & Hok). pose proof HS as [HP Hcs _ Hf _ _].
  destruct (restart_ok p c mg l cs st HP nd t D U Hok Hcs Hf now size sc hc) as (nd' & D' & E & Hok').
  exists nd'. split; [done|]. split; [by eapply run_restart|]. split; [by eapply New_sigs|]. eexists st, _, t, _, D, D', U. split; [done|]. split; [done|].
  apply (relabel_ok mg l cs HP st (stored_status nd) t). by apply (tip_known p c mg l cs st nd t D U).
Qed.

(** C3 A checkpoint that was found stays on the best chain.  Once a node has
    cached a checkpoint, the block is on the main chain after any further blocks
    of the [setting], whatever their work: blocks that would branch off below it are refused. *)
Theorem checkpoint_stays p mg cs l c nd k nd' :
  setting p mg cs l c → running p mg cs l nd → checkpointNode nd = Some k → rtc (block_step p l) nd nd' →
  contains (bestChain (chain nd')) k = true.
Proof.
  intros HS Hr Ek Hs. destruct (running_ok p mg cs l c HS nd Hr) as (st & t & D & U & Hok).
  destruct (steps_ok p mg cs l c HS st nd t D U nd' Hok Hs) as (t' & D' & U' & Hok' & Hk).
  pose proof (no_cached _ _ _ _ _ _ _ _ _ _ Hok) as Hc. rewrite Ek in Hc. destruct Hc as (i & ci & Hi & Ehk & Hkt & _).
  destruct (Hk k) as (Hkt' & _).
  { split; [done|]. split; [exists ci; split; [by eapply list_elem_of_lookup_2|done]|]. exists k. split; [done|lia]. }
  pose proof (no_tip _ _ _ _ _ _ _ _ _ _ Hok') as Ht'. pose proof (se_presented _ _ _ _ _ HS) as HP.
  pose proof (sub_in _ _ (no_sub _ _ _ _ _ _ _ _ _ _ Hok') t' (at_node _ _ _ _ _ _ _ _ _ Ht')) as Hkn.
  pose proof (known_height mg l cs st HP t' Hkn) as Hh.
  pose proof (known_branch mg l cs st k t' Hkn Hkt') as Hkk. assert (height t' < 2 ^ 31 - 1) as Hmax by lia.
  by apply (contains_view (known mg l cs st) (known_tree mg l cs st HP) (bestChain (chain nd')) t' (at_view _ _ _ _ _ _ _ _ _ Ht') Hkn Hmax k Hkk).
Qed.

(** C9 [ProcessBlock] answers the blocks of a [setting], and keeps those it takes.
    The blocks are those of [presented]: one body for each header hash, amounts that
    can be stored, and no transaction that spends an output of a later one of its
    block (such a block can pass the checks and then fail half way in
    [connectTransactions], see [checkConnectBlock_out_of_order]).  Given one of
    these, valid or not, in whatever order, on the tip, on a side branch or without
    its parent, a running node reports: no failure of the database, no assertion
    and no panic ends the call, neither in the rules, nor in the scripts, nor while
    blocks are disconnected and connected.  A block reported without an error is in
    the index, or in the pool when it is reported as an orphan; an error reports
    neither the main chain nor an orphan; no block of the index is forgotten; and
    the node runs on, its cache of signatures sound, so that the next block of the
    setting is answered too. *)
Theorem blocks_answered p mg cs l c nd now adjusted m flags :
  setting p mg cs l c → retargets p → running p mg cs l nd → node_sigs_ok nd →
  m ∈ l → has_flag (Z.lor flags (NetBehaviorFlags p)) BFFastAdd = false →
  ∃ r nd', ProcessBlock now adjusted m flags nd = Ok (r, nd') ∧
    running p mg cs l nd' ∧ node_sigs_ok nd' ∧ indexed nd nd' ∧ reported m r nd'.
Proof.
  intros HS Hre Hr Hsig Hm Hf. destruct (running_ok p mg cs l c HS nd Hr) as (st & t & D & U & Hok).
  destruct (ProcessBlock_total p c mg l cs st (se_presented _ _ _ _ _ HS) (se_sorted _ _ _ _ _ HS) (se_heights _ _ _ _ _ HS st)
    (se_maturity _ _ _ _ _ HS) (se_schedule _ _ _ _ _ HS) Hre now adjusted nd t D U m flags Hok Hm Hf Hsig) as (r & nd' & E & Hsig').
  exists r, nd'. split; [done|]. destruct (taken_kept p mg cs l c HS nd now adjusted m flags r nd' Hr Hm Hf E) as (Hr' & Hi & Hrep). by split.
Qed.

(** C19 The loop over the orphans ends.  In every state of the invariant that C1
    gives a running node, and that holds inside [ProcessBlock] too, the rounds of
    [processOrphans] are enough: each takes an orphan out of the pool or drops a
    hash, and an orphan adds one hash.  A loop that ran out of them would be
    [Panic]; this one returns, and returns the same with any more rounds.  When it
    reports no error it has done its work: no orphan is added, and none is left
    whose parent is the block it was called with or an orphan it took out. *)
Theorem processOrphans_terminates p mg cs l c st nd t D U now h flags :
  setting p mg cs l c → retargets p → node_ok p c mg l cs st nd t D U → node_sigs_ok nd →
  has_flag (Z.lor flags (NetBehaviorFlags p)) BFFastAdd = false →
  ∃ e nd', processOrphans now h flags nd = Ok (e, nd') ∧
    (∀ extra, orphan_loop now (S (orphan_rounds nd [h]) + extra) [h] flags nd = Ok (e, nd')) ∧
    (e = None → drained [h] nd nd').
Proof.
  intros [HP Hcs Hre Hfo Hma Hsc] Hret Hok Hsig Hf.
  destruct (orphan_loop_total p c mg l cs st HP Hcs (Hre st) Hma Hsc Hret now _ [h] flags nd t D U Hok Hf Hsig (Nat.lt_succ_diag_r _))
    as (e & nd' & E & _ & Hd).
  exists e, nd'. split; [exact E|]. split; [|exact Hd]. intros extra. rewrite <-E.
  apply (orphan_loop_fuel p c mg l cs st HP Hcs (Hre st) Hma Hsc now _ extra [h] flags nd t D U Hok Hf), Nat.lt_succ_diag_r.
Qed.
End claims.

(** ** Examples *)

#[local] Existing Instances toy_hashes accepting_ffi toy_keys map_list_order.

Definition run_genesis : MsgBlock :=
  mkMsgBlock (mkMsgHeader None (mkBlockHeader 1 zeroHash zeroHash 1700000000 0x1e010000 zeroHash)) [].

Definition run_coinbase (i : Z) : MsgTx :=
  mkMsgTx 1 [mkTxIn (mkOutPoint zeroHash MaxUint32) [z2b (80 + i); x00] [] MaxUint32]
    [mkTxOut 5000 (z2b Opcode.OP_1 :: x20 :: replicate 32 x07)] 0.

Definition run_header (i : Z) (prev : bytes) : BlockHeader :=
  mkBlockHeader 1 prev (TxHash (run_coinbase i)) (1700000000 + 200 * i) 0x1e010000
    (MsgBlock.proofCommitment CertificateVersionV3 [x0a; x0b]).

Definition run_block_on (i : Z) (prev : bytes) : MsgBlock :=
  mkMsgBlock (mkMsgHeader (Some (CertV3 (mkCertificateV2 (BlockHash (run_header i prev)) 2
    ([x0a; x0b] ++ replicate (Z.to_nat (PublicDataMaxSizeV2 - 2)) x00) [x01]))) (run_header i prev)) [run_coinbase i].

Definition run_b1 : MsgBlock := run_block_on 1 (MsgBlock_BlockHash run_genesis).
Definition run_b2 : MsgBlock := run_block_on 2 (MsgBlock_BlockHash run_b1).

Definition run_cs : list Checkpoint := [mkCheckpoint 1 (MsgBlock_BlockHash run_b1)].

Definition run_new (disk : option Disk) : result RuleErr Node :=
  New 5 RegressionNetParams run_genesis run_cs 100000 0 None (NewHashCache 10) disk.

Definition run_give (m : MsgBlock) (r : result RuleErr Node) : result RuleErr Node :=
  nd ← r; '(_, nd) ← ProcessBlock 1700001000 1700001000 m BFNone nd; Ok nd.


Definition to_option {A} (r : result RuleErr A) : option A := match r with Ok a => Some a | _ => None end.

(** The state after a start and two blocks, the second before the first. *)
Definition run_state : option Node :=
  to_option (run_give run_b1 (run_give run_b2 (run_new None))).

Definition run_restarted : option Node := nd ← run_state; to_option (run_new (Some (disk_of nd))).

Definition tip_is (height : Z) (n : MsgBlock) (nd : option Node) : bool :=
  match nd with
  | Some nd =>
      match tip (bestChain (chain nd)) with
      | Some t => bool_decide (hash t = MsgBlock_BlockHash n) && (BlockIndex.height t =? height)
      | None => false
      end
  | None => false
  end.

(** Both blocks are on the chain, and after a restart they still are. *)
Lemma run_demo : tip_is 2 run_b2 run_state = true ∧ tip_is 2 run_b2 run_restarted = true ∧
  (match run_state with Some nd => match checkpointNode nd with Some k => height k =? 1 | None => false end | None => false end) = true.
Proof. split; [|split]; vm_compute; reflexivity. Qed.

Lemma run_block_wf i prev : i = 1 ∨ i = 2 → prev = MsgBlock_BlockHash run_genesis ∨ prev = MsgBlock_BlockHash run_b1 → wf_MsgBlock (run_block_on i prev).
Proof.
  intros Hi Hp. assert (zlen prev = HashSize) as Hl by (by destruct Hp as [-> | ->]).
  split; [split|split; [done|apply Forall_singleton; split; [|done]]].
  - refine (conj _ (conj _ (conj _ (conj _ (ex_intro _ [x0a; x0b] (conj _ _)))))); by vm_compute.
  - refine (conj _ (conj Hl (conj _ (conj _ (conj _ _))))); destruct Hi as [-> | ->]; by vm_compute.
  - unfold wf_MsgTx, wf_TxIn, wf_TxOut, wf_TxWitness, wf_OutPoint, wf_script, run_coinbase, run_block_on.
    cbn [mb_Transactions tx_Version tx_TxIn tx_TxOut tx_LockTime]. split_and!; repeat constructor; vm_compute; congruence.
Qed.

Definition run_l : list MsgBlock := [run_b1; run_b2].

Lemma run_blocks m : m ∈ run_l → ∃ i, (i = 1 ∨ i = 2) ∧ m = if i =? 1 then run_b1 else run_b2.
Proof. intros [->|[->|Hm%elem_of_nil]%elem_of_cons]%elem_of_cons; [exists 1|exists 2|done]; auto. Qed.

(** The hashes and the transactions differ. *)
Lemma run_distinct : MsgBlock_BlockHash run_b1 ≠ MsgBlock_BlockHash run_b2 ∧ MsgBlock_BlockHash run_b1 ≠ MsgBlock_BlockHash run_genesis ∧
  MsgBlock_BlockHash run_b2 ≠ MsgBlock_BlockHash run_genesis ∧ TxHash (run_coinbase 1) ≠ TxHash (run_coinbase 2).
Proof. split; [|split; [|split]]; apply (bool_decide_unpack _); vm_compute; exact I. Qed.

Lemma run_sizes : is_i64 (GetBlockVsize run_genesis) ∧ is_i64 (GetBlockVsize run_b1) ∧ is_i64 (GetBlockVsize run_b2).
Proof. unfold is_i64. split; [|split]; split; vm_compute; congruence. Qed.

Lemma run_txs m t : m ∈ run_l → t ∈ mb_Transactions m → ∃ i, (i = 1 ∨ i = 2) ∧ t = run_coinbase i ∧ mb_Transactions m = [run_coinbase i].
Proof.
  intros (i & Hi & ->)%run_blocks Ht. exists i. split; [done|].
  destruct Hi as [-> | ->]; cbn [Z.eqb Pos.eqb run_b1 run_b2 run_block_on mb_Transactions] in Ht |- *; apply list_elem_of_singleton in Ht as ->; done.
Qed.

Lemma run_presented : presented run_genesis run_l.
Proof.
  destruct run_distinct as (H12 & H1g & H2g & Ht12), run_sizes as (Sg & S1 & S2). constructor.
  - intros m (i & Hi & ->)%run_blocks. destruct Hi as [-> | ->].
    + apply run_block_wf; [by left|left; reflexivity].
    + apply run_block_wf; [by right|right; reflexivity].
  - intros m m' (i & Hi & ->)%run_blocks (j & Hj & ->)%run_blocks E.
    destruct Hi as [-> | ->], Hj as [-> | ->]; cbn [Z.eqb Pos.eqb] in E |- *;
      [reflexivity|destruct (H12 E)|destruct (H12 (eq_sym E))|reflexivity].
  - intros m (i & Hi & ->)%run_blocks. destruct Hi as [-> | ->]; [exact H1g|exact H2g].
  - reflexivity.
  - reflexivity.
  - intros m (i & Hi & ->)%run_blocks. assert (Hn : ∀ k, k = 1 ∨ k = 2 → in_order [run_coinbase k]).
    { intros k Hk. split; [|exact I]. intros Hc. exfalso. revert Hc. destruct Hk as [-> | ->]; vm_compute; congruence. }
    destruct Hi as [-> | ->]; [apply (Hn 1); by left|apply (Hn 2); by right].
  - refine (conj _ (conj _ (conj _ (conj _ (conj _ _))))); by vm_compute.
  - intros m [->|(i & Hi & ->)%run_blocks]%elem_of_cons; [exact Sg|]. destruct Hi as [-> | ->]; [exact S1|exact S2].
  - intros m (i & Hi & ->)%run_blocks. destruct Hi as [-> | ->]; repeat constructor; vm_compute; congruence.
  - intros m m' t t' Hm Hm' Ht Ht' E. destruct (run_txs m t Hm Ht) as (i & Hi & -> & _), (run_txs m' t' Hm' Ht') as (j & Hj & -> & _).
    destruct Hi as [-> | ->], Hj as [-> | ->]; [reflexivity|destruct (Ht12 E)|destruct (Ht12 (eq_sym E))|reflexivity].
Qed.

Lemma run_heights st n cp : known run_genesis run_l run_cs st n → cp ∈ run_cs → hash n = cp_Hash cp → height n = cp_Height cp.
Proof.
  intros Hk ->%list_elem_of_singleton E. cbn [cp_Hash cp_Height] in E |- *. destruct run_distinct as (H12 & H1g & H2g & _).
  destruct Hk as [|m q Hq Hm Hp _ _ _]; [destruct (H1g (eq_sym E))|].
  assert (m = run_b1) as ->.
  { apply (pr_hash _ _ run_presented); [done|by left|exact E]. }
  change (MsgBlock_BlockHash run_genesis = hash q) in Hp.
  assert (q = first_node run_genesis st) as ->; [|reflexivity].
  apply (known_hash run_genesis run_l run_cs st run_presented); [done|constructor|by rewrite <-Hp].
Qed.

Lemma run_setting : setting RegressionNetParams run_genesis run_cs run_l 650226.
Proof.
  constructor.
  - exact run_presented.
  - split; repeat constructor.
  - exact run_heights.
  - unfold forks_ok. cbn. lia.
  - done.
  - by split.
Qed.

Lemma run_step m nd nd' : m ∈ run_l → run_give m (Ok nd) = Ok nd' → block_step RegressionNetParams run_l nd nd'.
Proof.
  intros Hm. unfold run_give. cbn [mbind result_bind]. destruct (ProcessBlock _ _ _ _ _) as [[r nd1]| |] eqn:E; [|done..].
  intros [= <-]. by apply (take_block _ _ nd nd1 1700001000 1700001000 m BFNone r).
Qed.

Lemma give_running m r nd' : m ∈ run_l → (∀ nd, r = Ok nd → running RegressionNetParams run_genesis run_cs run_l nd) →
  run_give m r = Ok nd' → running RegressionNetParams run_genesis run_cs run_l nd'.
Proof.
  intros Hm Hr E. destruct r as [nd| |]; [|done..]. apply (run_block _ _ _ _ nd); [by apply Hr|by apply (run_step m)].
Qed.

Lemma run_running nd : run_state = Some nd → running RegressionNetParams run_genesis run_cs run_l nd.
Proof.
  unfold run_state, to_option. destruct (run_give run_b1 _) as [nd1| |] eqn:E1; [|done..]. intros [= <-].
  apply (give_running run_b1 (run_give run_b2 (run_new None))); [by left| |done]. intros nd2 E2.
  apply (give_running run_b2 (run_new None)); [right; by left| |done]. intros nd3 E3. by apply (run_start _ _ _ _ 5 100000 None (NewHashCache 10)).
Qed.

Lemma run_some : ∃ nd k, run_state = Some nd ∧ checkpointNode nd = Some k.
Proof.
  destruct run_demo as (_ & _ & Hk). destruct run_state as [nd|]; [|discriminate]. destruct (checkpointNode nd) as [k|] eqn:E; [|discriminate].
  by exists nd, k.
Qed.

(** The block of the tip, given again, is refused. *)
Definition run_again (nd : Node) : option (bool * bool * option RuleErr * Node) := to_option (ProcessBlock 1700001000 1700001000 run_b2 BFNone nd).

Lemma run_again_ok nd : run_state = Some nd → ∃ r nd', ProcessBlock 1700001000 1700001000 run_b2 BFNone nd = Ok (r, nd').
Proof.
  assert (match run_state with Some nd => match run_again nd with Some _ => true | None => false end | None => false end = true) as Ha
    by (vm_compute; reflexivity).
  intros E. rewrite E in Ha. unfold run_again, to_option in Ha. destruct (ProcessBlock _ _ _ _ nd) as [[r nd']| |]; [exists r, nd'; reflexivity|discriminate Ha..].
Qed.

Lemma run_retargets : retargets RegressionNetParams.
Proof. split; [by vm_compute|reflexivity]. Qed.

(** The node keeps no signatures. *)
Lemma run_sigs nd : run_state = Some nd → node_sigs_ok nd.
Proof.
  assert (match run_state with Some nd => match bc_sigCache (base (chain nd)) with Some _ => false | None => true end | None => true end = true) as Ha
    by (vm_compute; reflexivity).
  intros E. rewrite E in Ha. unfold node_sigs_ok, sigs_ok. destruct (bc_sigCache _); [discriminate Ha|exact I].
Qed.

(** *** With an orphan in the pool *)

Definition pool_count (nd : Node) : Z := Z.of_nat (size (orphans (pool nd))).

(** The second block was given first, then the first was accepted: the state in
    which [ProcessBlock] calls [processOrphans]. *)
Definition run_accept (m : MsgBlock) (nd : Node) : option (bool * option RuleErr * Node) := to_option (maybeAcceptBlock 1700001000 m BFNone nd).
Definition run_early : option Node := to_option (run_give run_b2 (run_new None)).
Definition run_mid : option Node := nd ← run_early; '(_, nd) ← run_accept run_b1 nd; Some nd.
Definition run_orphans (nd : Node) : option (option RuleErr * Node) :=
  to_option (processOrphans 1700001000 (MsgBlock_BlockHash run_b1) BFNone nd).

Lemma to_option_some {A} (r : result RuleErr A) a : to_option r = Some a → r = Ok a.
Proof. destruct r; [by intros [= ->]|done..]. Qed.

Lemma ok_inj {E A} (a b : A) : Ok (E:=E) a = Ok b → a = b.
Proof. by intros [= ->]. Qed.

Lemma run_mid_some : ∃ nd, run_mid = Some nd.
Proof.
  apply not_eq_None_Some. assert (bool_decide (is_Some run_mid) = true) as Hb by (vm_compute; reflexivity).
  intros E. rewrite E in Hb. discriminate Hb.
Qed.

Lemma run_waiting : waiting run_l run_b1.
Proof.
  split; [by left|]. assert (wf_MsgBlock run_b1) as Hwf by (apply (pr_wf _ _ run_presented); by left).
  assert (checkBlockSanity run_b1 RegressionNetParams 1700001000 BFNone = Ok ()) as E by (vm_compute; reflexivity).
  destruct (proj1 (proj2 (checkBlockSanity_iff RegressionNetParams 1700001000 BFNone run_b1 Hwf)) E) as (cert & Hsn). apply Hsn.
Qed.

Lemma run_early_fresh nd : run_early = Some nd →
  bi_index (index (chain nd)) !! MsgBlock_BlockHash run_b1 = None ∧ orphans (pool nd) !! MsgBlock_BlockHash run_b1 = None ∧ bc_sigCache (base (chain nd)) = None.
Proof.
  assert (match run_early with
    | Some nd => bool_decide (bi_index (index (chain nd)) !! MsgBlock_BlockHash run_b1 = None) &&
        bool_decide (orphans (pool nd) !! MsgBlock_BlockHash run_b1 = None) &&
        match bc_sigCache (base (chain nd)) with Some _ => false | None => true end
    | None => true end = true) as Ha by (vm_compute; reflexivity).
  intros E. rewrite E in Ha. apply andb_true_iff in Ha as [[H1%bool_decide_eq_true H2%bool_decide_eq_true]%andb_true_iff H3].
  split; [exact H1|]. split; [exact H2|]. destruct (bc_sigCache _); [discriminate H3|reflexivity].
Qed.

Lemma run_mid_ok nd : run_mid = Some nd →
  ∃ st t D U, node_ok RegressionNetParams 650226 run_genesis run_l run_cs st nd t D U ∧ node_sigs_ok nd.
Proof.
  unfold run_mid. destruct run_early as [nd0|] eqn:E0; [|discriminate]. cbn [mbind option_bind]. unfold run_accept.
  destruct (maybeAcceptBlock 1700001000 run_b1 BFNone nd0) as [[r nd1]| |] eqn:Ea; [|discriminate..]. cbn [to_option]. intros [= <-].
  destruct (run_early_fresh nd0 E0) as (Hn & Ho & Hs). pose proof run_setting as [HP Hcs Hre Hfo Hma Hsc].
  destruct (running_ok RegressionNetParams run_genesis run_cs run_l 650226 run_setting nd0) as (st & t & D & U & Hok).
  { apply (give_running run_b2 (run_new None)); [right; by left| |exact (to_option_some _ _ E0)]. intros nd3 E3.
    by apply (run_start _ _ _ _ 5 100000 None (NewHashCache 10)). }
  assert (node_sigs_ok nd0) as Hsig by (unfold node_sigs_ok, sigs_ok; rewrite Hs; exact I).
  destruct (maybeAcceptBlock_ok RegressionNetParams 650226 run_genesis run_l run_cs st HP Hcs (Hre st) Hma Hsc 1700001000 nd0 t D U run_b1 BFNone r nd1
    Hok run_waiting Hn Ho eq_refl Ea) as (t' & D' & U' & Hok' & _).
  destruct (maybeAcceptBlock_total RegressionNetParams 650226 run_genesis run_l run_cs st HP Hcs (Hre st) Hma Hsc run_retargets 1700001000 nd0 t D U run_b1 BFNone
    Hok run_waiting Hn Ho eq_refl Hsig) as (r2 & nd2 & E2 & Hsig2).
  exists st, t', D', U'. split; [exact Hok'|]. rewrite Ea in E2. apply ok_inj, (f_equal snd) in E2. cbn [snd] in E2. rewrite E2. exact Hsig2.
Qed.

Lemma run_mid_drained nd e nd' : run_mid = Some nd → processOrphans 1700001000 (MsgBlock_BlockHash run_b1) BFNone nd = Ok (e, nd') →
  e = None ∧ pool_count nd = 1 ∧ pool_count nd' = 0 ∧ tip_is 2 run_b2 (Some nd') = true.
Proof.
  assert (match run_mid with
    | Some nd => match run_orphans nd with
                 | Some (None, nd') => (pool_count nd =? 1) && (pool_count nd' =? 0) && tip_is 2 run_b2 (Some nd')
                 | _ => false
                 end
    | None => true end = true) as Ha by (vm_compute; reflexivity).
  intros E Ep. rewrite E in Ha. unfold run_orphans in Ha. rewrite Ep in Ha. cbn [to_option] in Ha. destruct e as [e|]; [discriminate Ha|].
  apply andb_true_iff in Ha as [[H1%Z.eqb_eq H0%Z.eqb_eq]%andb_true_iff Ht]. split; [reflexivity|]. split; [exact H1|]. split; [exact H0|exact Ht].
Qed.

(** ** Witnesses *)

(** Two blocks in the wrong order. *)
Lemma running_keeps_ledger_witness :
  ∃ nd, run_state = Some nd ∧ ∃ st t D U, node_ok RegressionNetParams 650226 run_genesis run_l run_cs st nd t D U ∧
    total U <= emitted 650226 (Z.to_nat (height t)).
Proof.
  destruct run_some as (nd & _ & E & _). exists nd. split; [exact E|].
  exact (running_keeps_ledger RegressionNetParams run_genesis run_cs run_l 650226 nd run_setting (run_running nd E)).
Defined.

(** The node is started on the database of that state, with another cache. *)
Lemma node_restarts_witness :
  ∃ nd nd', run_state = Some nd ∧ New 9 RegressionNetParams run_genesis run_cs 5000 0 None (NewHashCache 10) (Some (disk_of nd)) = Ok nd' ∧
    ∃ st st' t t' D D' U, node_ok RegressionNetParams 650226 run_genesis run_l run_cs st nd t D U ∧
      node_ok RegressionNetParams 650226 run_genesis run_l run_cs st' nd' t' D' U ∧ hash t' = hash t.
Proof.
  destruct run_some as (nd & _ & E & _).
  destruct (node_restarts RegressionNetParams run_genesis run_cs run_l 650226 nd 9 5000 None (NewHashCache 10) run_setting (run_running nd E))
    as (nd' & E' & _ & _ & Hok).
  exists nd, nd'. split; [exact E|]. split; [exact E'|exact Hok].
Defined.

(** The first block is a checkpoint. *)
Lemma checkpoint_stays_witness :
  ∃ nd k nd', run_state = Some nd ∧ checkpointNode nd = Some k ∧ block_step RegressionNetParams run_l nd nd' ∧
    contains (bestChain (chain nd')) k = true.
Proof.
  destruct run_some as (nd & k & E & Ek). destruct (run_again_ok nd E) as (r & nd' & Er).
  pose proof (take_block RegressionNetParams run_l nd nd' 1700001000 1700001000 run_b2 BFNone r ltac:(right; by left) eq_refl Er) as Hs.
  exists nd, k, nd'. split; [exact E|]. split; [exact Ek|]. split; [exact Hs|].
  exact (checkpoint_stays RegressionNetParams run_genesis run_cs run_l 650226 nd k nd' run_setting (run_running nd E) Ek (rtc_once nd nd' Hs)).
Defined.

(** The block of the tip, given again. *)
Lemma blocks_answered_witness :
  ∃ nd r nd', run_state = Some nd ∧ ProcessBlock 1700001000 1700001000 run_b2 BFNone nd = Ok (r, nd') ∧
    running RegressionNetParams run_genesis run_cs run_l nd' ∧ node_sigs_ok nd' ∧ indexed nd nd' ∧ reported run_b2 r nd'.
Proof.
  destruct run_some as (nd & _ & E & _).
  destruct (blocks_answered RegressionNetParams run_genesis run_cs run_l 650226 nd 1700001000 1700001000 run_b2 BFNone
    run_setting run_retargets (run_running nd E) (run_sigs nd E) ltac:(right; by left) eq_refl) as (r & nd' & Hp).
  exists nd, r, nd'. split; [exact E|exact Hp].
Defined.

(** The second block waits in the pool, the first was just accepted. *)
Lemma processOrphans_terminates_witness :
  ∃ nd nd', run_mid = Some nd ∧ pool_count nd = 1 ∧
    processOrphans 1700001000 (MsgBlock_BlockHash run_b1) BFNone nd = Ok (None, nd') ∧
    drained [MsgBlock_BlockHash run_b1] nd nd' ∧ pool_count nd' = 0 ∧ tip_is 2 run_b2 (Some nd') = true.
Proof.
  destruct run_mid_some as (nd & E). destruct (run_mid_ok nd E) as (st & t & D & U & Hok & Hsig).
  destruct (processOrphans_terminates RegressionNetParams run_genesis run_cs run_l 650226 st nd t D U 1700001000 (MsgBlock_BlockHash run_b1) BFNone
    run_setting run_retargets Hok Hsig eq_refl) as (e & nd' & Ep & _ & Hd).
  destruct (run_mid_drained nd e nd' E Ep) as (-> & H1 & H0 & Ht).
  exists nd, nd'. split; [exact E|]. split; [exact H1|]. split; [exact Ep|]. split; [exact (Hd eq_refl)|]. split; [exact H0|exact Ht].
Defined.
